(* ===== verification/_CoqProject ===== *)
-Q . S2P
Prelude.v
SizeClass.v
PageHeap.v
Span.v
Valloc.v
VallocLists.v
VallocInv.v
VallocMove.v
VallocSteps.v
VallocRefill.v
VallocReclaim.v
VallocFree.v
VallocLarge.v
VallocProps.v
VallocRun.v
Arena.v
ObjectPool.v
Fiber.v
FiberProps.v
FiberStack.v
RunQueue.v
TimerHeap.v
Intrusive.v
RuntimeState.v
Task.v
Timer.v
Worker.v
Scheduler.v
SchedulerFrames.v
SchedulerInv.v
SchedulerSteps.v
SchedulerExecute.v
SchedulerProps.v
Lifecycle.v
LifecycleClean.v
LifecycleInit.v
LifecycleTasks.v
LifecycleProps.v
LifecycleShutdown.v
Sync.v
SyncWait.v
SyncProps.v
ChannelProps.v
HttpParser.v
HttpParserProps.v
HttpFeed.v
HttpRoundtrip.v
Socket.v
SocketProps.v
Epoll.v
EpollInv.v
EpollTime.v
Uring.v
UringInv.v
UringProps.v
Backend.v
BackendProps.v
HttpServer.v
HttpServerProps.v
HttpAccept.v
