(* ===== verification/Prelude.v ===== *)
(** * Veloco: a verification development

    Veloco is a C runtime: fibers, a G/P/M scheduler with work-stealing run queues,
    timers, synchronisation objects, an allocator with per-P caches, asynchronous I/O
    over epoll or io_uring, and an HTTP/1.1 server on top.  This library models the C
    code under src/ and proves what makes it correct.

    ** Conventions

    A C function is a function of the same name.  A function that changes memory is a
    computation [C S A = S -> option (A * S)] over the store [S] of its component:
    [None] is undefined behaviour (a read through a dangling or NULL pointer, an
    access outside a block, an unmapping of something that is not a mapping) or a
    loop that ran out of fuel.  A theorem that produces [Some] therefore states memory
    safety and termination at once.  Fuel is always computed from the state (the
    number of nodes, blocks or bytes there are) by the function that contains the
    loop, so that running out is a property of the code and never of a bound a caller
    chose.  Words are [Z] with their wrap-around written out ([w64]); both targets are
    LP64.  Pointers are keys of finite maps ([gmap]) when objects are shared or linked,
    and [option] when only NULL matters.  What the operating system, libc, the clock,
    user code (task bodies, HTTP handlers) or a kernel queue answers is an argument of
    the definition, or a class with its documented laws ([os_memory], [connection_io]).
    Interleavings are sequentially consistent: the fences and memory orders of the C11
    atomics are not modelled.

    ** Granularity of the steps

    A critical section under a mutex is one step.  [RunQueue.Interleaved] and
    [HttpAccept] split code without a mutex at each atomic access.  Elsewhere a step is
    coarser than the code in these places, which the theorems inherit:
    - in [Scheduler] an operation on a P's own deque is one step, with the store
      [queued = 0] that follows it ([take_local]); so are a whole batch of steals
      ([steal_from]) and the commit of a stolen batch with the store that follows the
      unlock ([steal_commit]); the polling of I/O by a worker is not one of its steps,
      its effect on tasks is the step [X_complete_io] of an outside thread;
    - the allocator's calls, [vl_realloc] included, are one step each: clients on several
      threads are their interleavings call by call;
    - in [Epoll] other threads act on the registry while the poll is in epoll_wait, not
      between the stale check, the system call and the delivery ([poll_loop]);
    - in [Uring] a submission reads the generation, claims the descriptor and enqueues in
      one step ([backend_submit_locked]); addresses of operations are not reused, and a
      wait on a condition variable may end at any time ([poll_round]);
    - in [Lifecycle] a worker thread that is joined ends at once ([thread_end]);
    - [HttpServer] talks to the network through [connection_io], an interface for
      vl_io_submit by a task; its laws are assumed there and not derived from [Backend].

    The fiber theorems are about programs that do not resume or destroy a fiber while it
    waits in its own vl_fiber_resume ([fiber_allowed]); the code accepts such calls and
    [resume_of_waiting_fiber] shows what they do.

    ** The parts and how they use each other

    - [Prelude]: status codes, words, the computation monad, tactics, shared lemmas.
    - Memory (src/memory/).  [SizeClass]: size_class.c.  [PageHeap]: page_heap.c and the
      state of memory_internal.h, an address space of mappings with what lies in them.
      [Span]: span.c.  [Valloc]: valloc.c.  [VallocLists], [VallocInv], [VallocMove],
      [VallocSteps], [VallocRefill], [VallocReclaim], [VallocFree], [VallocLarge],
      [VallocProps]: the allocator's invariant and that every operation keeps it;
      [VallocRun]: the states clients reach.  [Arena]: arena.c, over the page heap.
      [ObjectPool]: object_pool.c, over [vl_malloc] and [vl_free].
    - Fibers (src/fiber/).  [Fiber]: fiber.c, the switching of contexts and the growth
      of stacks.  [FiberProps]: the invariant of the threads and their fibers;
      [FiberStack]: fibers as coroutines.
    - Runtime (src/runtime/, src/time/).  [RunQueue]: run_queue.c, the Chase-Lev deque,
      run to completion and again split at every atomic access with thieves.
      [TimerHeap]: timer_heap.c.  [Intrusive]: the linked FIFO lists tasks are on.
      [RuntimeState]: runtime_internal.h.  [Task]: task.c and context.c.  [Timer]:
      timer.c.  [Worker]: worker.c.  [Scheduler]: scheduler.c and the interleaved
      system of workers, tasks and outside threads.  [SchedulerFrames], [SchedulerInv],
      [SchedulerSteps], [SchedulerExecute]: its invariant; [SchedulerProps]: what holds
      in every reachable state.  [Lifecycle]: creating and shutting down a runtime, and
      its worker threads; [LifecycleClean], [LifecycleInit], [LifecycleProps]: the failure
      paths of the creation; [LifecycleTasks]: the list of all tasks in every state the
      scheduler reaches; [LifecycleShutdown]: the destruction.
    - Synchronisation (src/sync/).  [Sync]: semaphores, task mutexes, wait groups and
      channels, over tasks and wait queues.  [SyncWait]: parking and hand-over.
      [SyncProps], [ChannelProps]: refinement of abstract objects.
    - I/O (src/net/).  [Socket], [SocketProps]: socket.c, the descriptor registry with
      its generations and claims.  [Epoll], [EpollInv], [EpollTime]: epoll_backend.c.
      [Uring]: io_worker.c and uring_backend.c, the worker thread, its command queue, the
      ring and the client as one interleaved system; [UringInv], [UringProps]: its
      invariant and what holds in every reachable state.  [Backend], [BackendProps]: backend.c, over the
      epoll backend, the registry and the runtime.
    - HTTP (src/http/).  [HttpParser], [HttpParserProps], [HttpFeed], [HttpRoundtrip]:
      http_parser.c, over its malloc block with in-place terminators.  [HttpServer],
      [HttpServerProps], [HttpAccept]: http_response.c, http_router.c, http_server.c and
      http_connection.c, over the interface [connection_io] that [vl_io_submit] gives.

    ** What the theorems show

    - Memory: [malloc_fresh_block], [free_releases_block], [realloc_keeps_contents] and
      [allocator_accounting] hold in every state clients reach on any system that obeys
      the laws of mmap; [arena_blocks_disjoint] and [pool_refines] for arenas and pools
      beside it; [size_class_index_linear] for the binary search.
    - Fibers: [fiber_stack_discipline] (a yield goes back to the resume that entered the
      fiber, with its value) and [fiber_stack_growth].
    - Run queue and timers: [steal_exactly_once] and [run_queue_wait_free] for one owner
      and any number of thieves, [run_queue_refines_deque], [timer_heap_pop_min],
      [timer_heap_remove_any].
    - Scheduler: [execution_exclusive], [runnable_tasks_placed],
      [pending_wake_delivered], [deadlock_report_sound] and [run_completion_sound] in
      every reachable state of up to 64 workers (the code's limit); [late_spawn_lost] runs
      a trace in which a task spawned between two runs is dropped;
      [runtime_init_or_nothing] for creation and its failure paths, and
      [runtime_shutdown_reclaims] for the destruction in any of those states.
    - Synchronisation: [semaphore_refines], [task_mutex_refines], [wait_group_refines],
      [channel_refines], [channel_fifo].
    - I/O: [io_poll_answers_once], [io_pending_exact], [io_stale_never_satisfied],
      [io_submit_cancel], [socket_generation_spent], [socket_claim_exclusive],
      [socket_helpers_no_leak], [poll_timeout_bounds]; [uring_exactly_once] and
      [uring_calls_defined] for the io_uring worker under every interleaving.
    - HTTP: [http_parser_fragmentation], [http_request_roundtrip],
      [http_request_well_formed], [http_connection_answers], [http_response_wire],
      [http_connections_bounded].

    Each of these theorems that has a hypothesis has a witness next to it, on a concrete
    state.

    ** Not modelled

    - The assembly of vl_context_switch (fiber_x86_64.S, fiber_aarch64.S), the signal
      handler's installation and the sanitizer hooks: registers and signal delivery are
      below the C semantics; a context switch is an atomic exchange of saved contexts.
    - The debug allocator (debug_allocator.c under VELOCO_MEMORY_DEBUG): the model is
      the release build.
    - Weak memory, the scheduling of threads by the kernel (a worker's thread starts and
      ends at the points [Lifecycle] names), and the kernel side of epoll and io_uring
      beyond what it may answer.
    - Benchmarks, examples and tests. *)

From Stdlib Require Export ZArith Lia.
From stdpp Require Export base tactics numbers list gmap option.
From stdpp Require Import options.

Open Scope Z_scope.

(** ** Status codes: [vl_status_t] of include/veloco/common.h *)

Inductive vl_status :=
  | VL_OK
  | VL_ERROR_INVALID_ARGUMENT
  | VL_ERROR_OUT_OF_MEMORY
  | VL_ERROR_SYSTEM
  | VL_ERROR_UNSUPPORTED
  | VL_ERROR_INVALID_STATE
  | VL_ERROR_WOULD_BLOCK
  | VL_ERROR_CLOSED
  | VL_ERROR_CANCELLED.

#[export] Instance vl_status_eq_dec : EqDecision vl_status.
Proof. solve_decision. Defined.

(** ** 64-bit unsigned arithmetic

    Both supported targets (x86_64 and AArch64 Linux) are LP64: [size_t],
    [uint64_t] and [uintptr_t] are 64-bit words.  A word is a [Z]; every C
    operation that can wrap is written with [w64] around it. *)

Definition W64 : Z := 18446744073709551616.
Definition SIZE_MAX : Z := W64 - 1.
Definition UINT64_MAX : Z := W64 - 1.
Definition w64 (x : Z) : Z := x mod W64.
Definition word (x : Z) : Prop := 0 <= x < W64.
Definition INT_MAX : Z := 2147483647.

(** A C computation over a store [S]: [None] is undefined behaviour (a read
    through a dangling pointer, an index outside an array) or a loop that ran
    out of the fuel its caller computed; theorems that produce [Some]
    therefore state both memory safety and termination. *)
Definition C (S A : Type) : Type := S -> option (A * S).

#[export] Instance C_ret S : MRet (C S) := fun A a s => Some (a, s).
#[export] Instance C_bind S : MBind (C S) := fun A B f m s =>
  match m s with
  | Some (a, s') => f a s'
  | None => None
  end.

Definition gets {S A} (f : S -> A) : C S A := fun s => Some (f s, s).
Definition modify {S} (f : S -> S) : C S unit := fun s => Some (tt, f s).
Definition ub {S A} : C S A := fun _ => None.
Definition deref {S A} (f : S -> option A) : C S A := fun s =>
  match f s with Some a => Some (a, s) | None => None end.

Lemma bind_run {S A B} (m : C S A) (f : A -> C S B) s :
  (m ≫= f) s = match m s with Some (a, s') => f a s' | None => None end.
Proof. reflexivity. Qed.

Lemma bind_Some {S A B} (m : C S A) (f : A -> C S B) s a s' :
  m s = Some (a, s') -> (m ≫= f) s = f a s'.
Proof. rewrite bind_run. by intros ->. Qed.

Lemma bind_inv {S A B} (m : C S A) (f : A -> C S B) s r :
  (m ≫= f) s = Some r -> exists a s', m s = Some (a, s') /\ f a s' = Some r.
Proof. rewrite bind_run. destruct (m s) as [[a s']|]; naive_solver. Qed.

(** Unfold the monad operations. *)
Ltac crun := cbv [mbind C_bind mret C_ret gets modify ub deref].
Tactic Notation "crun" "in" hyp(H) :=
  cbv [mbind C_bind mret C_ret gets modify ub deref] in H.

(** ** Generic facts on words *)

Create HintDb veloco.
Create HintDb veloco_rw.

Lemma W64_pos : 0 < W64.
Proof. done. Qed.

Lemma w64_small x : word x -> w64 x = x.
Proof. intros H. by apply Z.mod_small. Qed.

Lemma w64_word x : word (w64 x).
Proof. apply Z.mod_pos_bound. done. Qed.

Lemma w64_add_l x y : w64 (w64 x + y) = w64 (x + y).
Proof. apply Zplus_mod_idemp_l. Qed.

Lemma w64_sub_l x y : w64 (w64 x - y) = w64 (x - y).
Proof. apply Zminus_mod_idemp_l. Qed.

#[export] Hint Resolve W64_pos w64_word : veloco.

(** Arithmetic on words: expose the numerals and call [lia]. *)
Ltac word_lia := unfold word, SIZE_MAX, UINT64_MAX, INT_MAX, W64 in *; lia.

(** ** Powers of two: the idiom [v != 0 && (v & (v - 1)) == 0] *)

Definition is_power_of_two (v : Z) : bool :=
  negb (v =? 0) && (Z.land v (v - 1) =? 0).

Lemma land_pow2_minus_1 v k : 0 <= k -> Z.land v (2 ^ k - 1) = v mod 2 ^ k.
Proof.
  intros Hk. rewrite <- Z.land_ones by done. f_equal.
  rewrite Z.ones_equiv. lia.
Qed.

Lemma is_power_of_two_spec v :
  0 <= v -> is_power_of_two v = true <-> exists k, 0 <= k /\ v = 2 ^ k.
Proof.
  intros Hv. unfold is_power_of_two. split.
  - rewrite andb_true_iff, negb_true_iff, Z.eqb_neq, Z.eqb_eq.
    intros [Hnz Hland]. exists (Z.log2 v).
    split; [apply Z.log2_nonneg|].
    destruct (Z.log2_spec v) as [Hlo Hhi]; [lia|].
    destruct (decide (v = 2 ^ Z.log2 v)) as [|Hne]; [done|exfalso].
    assert (Hl : Z.log2 (v - 1) = Z.log2 v).
    { apply Z.log2_unique; [apply Z.log2_nonneg|]. lia. }
    assert (Hb : Z.testbit (Z.land v (v - 1)) (Z.log2 v) = true).
    { rewrite Z.land_spec, Z.bit_log2 by lia. simpl.
      rewrite <- Hl. apply Z.bit_log2.
      assert (0 < 2 ^ Z.log2 v) by (apply Z.pow_pos_nonneg; [lia|apply Z.log2_nonneg]).
      lia. }
    rewrite Hland, Z.bits_0 in Hb. done.
  - intros (k & Hk & ->).
    assert (0 < 2 ^ k) by (apply Z.pow_pos_nonneg; lia).
    rewrite land_pow2_minus_1, Z.mod_same by lia.
    rewrite andb_true_iff, negb_true_iff, Z.eqb_neq, Z.eqb_eq. lia.
Qed.

(** [(x + a - 1) & ~(a - 1)]: rounding up with a mask. *)
Lemma ldiff_pow2 x k : 0 <= k -> Z.ldiff x (2 ^ k - 1) = x - x mod 2 ^ k.
Proof.
  intros Hk.
  replace (2 ^ k - 1) with (Z.ones k) by (rewrite Z.ones_equiv; lia).
  rewrite Z.ldiff_ones_r, Z.shiftl_mul_pow2, Z.shiftr_div_pow2 by lia.
  assert (0 < 2 ^ k) by (apply Z.pow_pos_nonneg; lia).
  pose proof (Z.div_mod x (2 ^ k)). lia.
Qed.

(** [(a + n - 1) & ~(n - 1)] for a power of two [n] that does not overflow. *)
Lemma round_up_pow2 a k : 0 <= k -> 0 <= a -> a + 2 ^ k - 1 < W64 ->
  let r := Z.ldiff (w64 (a + 2 ^ k - 1)) (2 ^ k - 1) in a <= r < a + 2 ^ k /\ r mod 2 ^ k = 0.
Proof.
  intros Hk Ha Hw r. assert (0 < 2 ^ k) by (apply Z.pow_pos_nonneg; lia). unfold r.
  rewrite w64_small by (unfold word; lia). rewrite ldiff_pow2 by lia.
  pose proof (Z.mod_pos_bound (a + 2 ^ k - 1) (2 ^ k) ltac:(lia)).
  pose proof (Z.div_mod (a + 2 ^ k - 1) (2 ^ k) ltac:(lia)) as Hdm. split; [lia|].
  replace (a + 2 ^ k - 1 - (a + 2 ^ k - 1) mod 2 ^ k) with (2 ^ k * ((a + 2 ^ k - 1) / 2 ^ k)) by lia.
  rewrite Z.mul_comm. apply Z.mod_mul. lia.
Qed.

(** ** Weighted counts over lists *)

Lemma sum_list_with_insert {A} (f : A -> nat) (l : list A) i x y : l !! i = Some x ->
  (sum_list_with f (<[i := y]> l) + f x = sum_list_with f l + f y)%nat.
Proof.
  revert i. induction l as [|z l IH]; intros [|i] Hi; simplify_eq/=; [lia|].
  specialize (IH i Hi). lia.
Qed.

Lemma sum_list_with_bound {A} (f : A -> nat) (l : list A) k :
  (forall x, f x <= k)%nat -> (sum_list_with f l <= k * length l)%nat.
Proof. intros Hf. induction l as [|x l IH]; simpl; [lia|]. specialize (Hf x). lia. Qed.

Lemma sum_list_with_full {A} (f : A -> nat) (l : list A) : (forall x, f x <= 1)%nat ->
  (length l <= sum_list_with f l)%nat -> forall i x, l !! i = Some x -> f x = 1%nat.
Proof.
  intros Hf. induction l as [|y l IH]; intros Hs [|i] x Hx; simplify_eq/=.
  - pose proof (Hf x). pose proof (sum_list_with_bound f l 1 Hf). lia.
  - apply (IH ltac:(specialize (Hf y); lia) i x Hx).
Qed.

(** ** Lists with distinct keys *)

Lemma filter_all {A} (P : A -> Prop) `{forall x, Decision (P x)} (l : list A) : Forall P l -> filter P l = l.
Proof. induction 1 as [|x l Hx _ IH]; [done|]. rewrite filter_cons, decide_True by done. by rewrite IH. Qed.

Lemma NoDup_fmap_eq {A B} (f : A -> B) (l : list A) x y : NoDup (f <$> l) -> x ∈ l -> y ∈ l -> f x = f y -> x = y.
Proof.
  intros Hnd [i Hi]%list_elem_of_lookup_1 [j Hj]%list_elem_of_lookup_1 E.
  assert (i = j) as ->; [|congruence]. eapply (proj1 (NoDup_alt _) Hnd i j (f x)); rewrite list_lookup_fmap.
  - by rewrite Hi.
  - by rewrite Hj, E.
Qed.
