(* ===== verification/SizeClass.v ===== *)
(** * Size classes and alignment (src/memory/size_class.c, valloc.c)

    The sorted table of small-object capacities, the binary search that maps
    a request to its class, and [vl_memory_align_up]. *)

From S2P Require Import Prelude.
From stdpp Require Import options.

Definition VL_SIZE_CLASS_COUNT : Z := 42.
Definition VL_MEMORY_SMALL_MAX : Z := 32768.
Definition VL_MEMORY_ALIGNMENT : Z := 16.

Definition vl_size_classes : list Z := [
    8;     16;    24;    32;    48;    64;    80;    96;    112;   128;
    160;   192;   224;   256;   320;   384;   448;   512;   640;   768;
    896;   1024;  1280;  1536;  1792;  2048;  2560;  3072;  3584;  4096;
    5120;  6144;  7168;  8192;  10240; 12288; 14336; 16384; 20480; 24576;
    28672; 32768 ].

(** The [while (low < high)] loop; [None] is an index outside the table or a
    loop that has not finished within [fuel] iterations. *)
Fixpoint vl_size_class_search (fuel : nat) (size low high : Z) : option Z :=
  match fuel with
  | O => None
  | S fuel =>
      if low <? high then
        let middle := low + (high - low) / 2 in
        match vl_size_classes !! Z.to_nat middle with
        | None => None
        | Some c =>
            if c <? size then vl_size_class_search fuel size (middle + 1) high
            else vl_size_class_search fuel size low middle
        end
      else Some low
  end.

(** The interval halves, so 7 iterations suffice for 42 entries; the fuel
    below is the number of entries plus one. *)
Definition vl_size_class_index (size : Z) : option Z :=
  vl_size_class_search 43 size 0 VL_SIZE_CLASS_COUNT.

Definition vl_size_class_capacity (index : Z) : Z :=
  if index <? VL_SIZE_CLASS_COUNT
  then default 0 (vl_size_classes !! Z.to_nat index) else 0.

Definition vl_size_class_count : Z := VL_SIZE_CLASS_COUNT.

Definition vl_memory_align_up (value alignment : Z) : Z :=
  if alignment =? 0 then 0 else
  let remainder := Z.land value (w64 (alignment - 1)) in
  if remainder =? 0 then value else
  if SIZE_MAX - (alignment - remainder) <? value then 0
  else w64 (value + alignment - remainder).

(** ** The table *)

Lemma vl_size_classes_length : length vl_size_classes = 42%nat.
Proof. reflexivity. Qed.

(** The table is strictly increasing. *)
Definition increasing_at (i : nat) : bool :=
  match vl_size_classes !! i, vl_size_classes !! S i with
  | Some a, Some b => a <? b
  | _, _ => true
  end.

Lemma vl_size_classes_step i a b :
  vl_size_classes !! i = Some a -> vl_size_classes !! S i = Some b -> a < b.
Proof.
  intros Ha Hb.
  assert (Hall : forallb increasing_at (seq 0 42) = true) by reflexivity.
  rewrite forallb_forall in Hall. specialize (Hall i).
  unfold increasing_at in Hall. rewrite Ha, Hb in Hall.
  apply Z.ltb_lt, Hall, in_seq.
  apply lookup_lt_Some in Ha. rewrite vl_size_classes_length in Ha. lia.
Qed.

Lemma vl_size_classes_sorted i j a b :
  (i < j)%nat -> vl_size_classes !! i = Some a ->
  vl_size_classes !! j = Some b -> a < b.
Proof.
  intros Hij Ha. revert b. induction Hij as [|j Hij IH]; intros b Hb.
  - eauto using vl_size_classes_step.
  - destruct (lookup_lt_is_Some_2 vl_size_classes j) as [c Hc].
    { apply lookup_lt_Some in Hb. lia. }
    transitivity c; eauto using vl_size_classes_step.
Qed.

(** ** The binary search *)

(** [i] is the first class that can hold [size]. *)
Definition first_fit (size i : Z) : Prop :=
  0 <= i <= VL_SIZE_CLASS_COUNT /\
  (forall j c, Z.of_nat j < i -> vl_size_classes !! j = Some c -> c < size) /\
  (forall j c, i <= Z.of_nat j -> vl_size_classes !! j = Some c -> size <= c).

Lemma vl_size_class_search_first_fit fuel size low high :
  0 <= low <= high -> high <= VL_SIZE_CLASS_COUNT ->
  high - low < Z.of_nat fuel ->
  (forall j c, Z.of_nat j < low -> vl_size_classes !! j = Some c -> c < size) ->
  (forall j c, high <= Z.of_nat j -> vl_size_classes !! j = Some c -> size <= c) ->
  exists i, vl_size_class_search fuel size low high = Some i /\ first_fit size i.
Proof.
  revert low high. induction fuel as [|fuel IH]; intros low high Hl Hh Hf Hlo Hhi; [lia|].
  simpl. destruct (Z.ltb_spec low high) as [Hlt|Hge].
  2: { exists low. split; [done|]. assert (low = high) by lia. subst.
       split; [lia|]. eauto. }
  set (m := low + (high - low) / 2).
  assert (Hm : low <= m < high).
  { subst m. pose proof (Z.div_lt_upper_bound (high - low) 2 (high - low)).
    pose proof (Z.div_pos (high - low) 2). lia. }
  unfold VL_SIZE_CLASS_COUNT in *.
  destruct (lookup_lt_is_Some_2 vl_size_classes (Z.to_nat m)) as [c Hc].
  { rewrite vl_size_classes_length. lia. }
  rewrite Hc. destruct (Z.ltb_spec c size) as [Hcs|Hcs].
  - apply IH; [lia..| |done]. intros j c' Hj Hc'.
    destruct (decide (j = Z.to_nat m)) as [->|]; [congruence|].
    transitivity c; [|done].
    apply (vl_size_classes_sorted j (Z.to_nat m)); [lia|done..].
  - apply IH; [lia..|done|]. intros j c' Hj Hc'.
    destruct (decide (j = Z.to_nat m)) as [->|]; [congruence|].
    transitivity c; [done|]. apply Z.lt_le_incl.
    apply (vl_size_classes_sorted (Z.to_nat m) j); [lia|done..].
Qed.

Lemma vl_size_class_index_spec size :
  exists i, vl_size_class_index size = Some i /\ first_fit size i.
Proof.
  apply vl_size_class_search_first_fit; unfold VL_SIZE_CLASS_COUNT; try lia.
  intros j c Hj Hc. apply lookup_lt_Some in Hc.
  rewrite vl_size_classes_length in Hc. lia.
Qed.

(** The reference definition: scan the table from the left. *)
Fixpoint linear_index (size : Z) (classes : list Z) : Z :=
  match classes with
  | [] => 0
  | c :: rest => if c <? size then 1 + linear_index size rest else 0
  end.

Lemma linear_index_first_fit size i : first_fit size i ->
  linear_index size vl_size_classes = i.
Proof.
  intros (Hi & Hlo & Hhi).
  assert (Hgen : forall n, 0 <= Z.of_nat n <= i ->
    Z.of_nat n + linear_index size (drop n vl_size_classes) = i).
  2: { specialize (Hgen 0%nat). rewrite drop_0 in Hgen. lia. }
  intros n Hn. remember (Z.to_nat (i - Z.of_nat n)) as d eqn:Hd.
  revert n Hn Hd. induction d as [|d IH]; intros n Hn Hd.
  - assert (i = Z.of_nat n) as -> by lia.
    destruct (drop n vl_size_classes) as [|c l] eqn:E; [simpl; lia|].
    assert (Hc : vl_size_classes !! n = Some c).
    { apply (f_equal (.!! 0%nat)) in E. by rewrite lookup_drop, Nat.add_0_r in E. }
    apply Hhi in Hc; [|lia]. simpl. destruct (Z.ltb_spec c size); lia.
  - unfold VL_SIZE_CLASS_COUNT in *.
    destruct (lookup_lt_is_Some_2 vl_size_classes n) as [c Hc].
    { rewrite vl_size_classes_length. lia. }
    rewrite (drop_S _ c) by done. cbn [linear_index].
    pose proof (Hlo n c ltac:(lia) Hc).
    destruct (Z.ltb_spec c size); [|lia].
    pose proof (IH (S n) ltac:(lia) ltac:(lia)). lia.
Qed.

(** The binary search of [vl_size_class_index] terminates within its
    bounds, never reads outside the table, and returns exactly what a linear
    first-fit scan of the table returns, for every request size. *)
Theorem size_class_index_linear size :
  vl_size_class_index size = Some (linear_index size vl_size_classes).
Proof.
  destruct (vl_size_class_index_spec size) as (i & -> & Hi).
  by rewrite (linear_index_first_fit size i).
Qed.

(** Class [i] wastes less than a quarter of a request above 128 bytes, and
    less than the request itself above 8. *)
Definition waste_ok_at (i : nat) : bool :=
  match vl_size_classes !! i, vl_size_classes !! S i with
  | Some a, Some b =>
      ((a <? 8) || (b <? 2 * (a + 1))) && ((a <? 128) || (4 * b <? 5 * (a + 1)))
  | _, _ => true
  end.

Lemma waste_step i a b :
  vl_size_classes !! i = Some a -> vl_size_classes !! S i = Some b ->
  b < 2 * (a + 1) /\ (128 <= a -> 4 * b < 5 * (a + 1)).
Proof.
  intros Ha Hb.
  assert (Hall : forallb waste_ok_at (seq 0 42) = true) by reflexivity.
  rewrite forallb_forall in Hall. specialize (Hall i).
  unfold waste_ok_at in Hall. rewrite Ha, Hb in Hall.
  assert (Hin : In i (seq 0 42)).
  { apply in_seq. apply lookup_lt_Some in Ha. rewrite vl_size_classes_length in Ha. lia. }
  specialize (Hall Hin).
  assert (8 <= a).
  { destruct i as [|i]; [by injection Ha as <-|].
    pose proof (vl_size_classes_sorted 0 (S i) 8 a ltac:(lia) eq_refl Ha). lia. }
  lia.
Qed.

(** [vl_size_class_index] followed by [vl_size_class_capacity] serves a
    request of 1 .. 32768 bytes from a class that is large enough and minimal;
    above 8 bytes the capacity is below twice the request, above 128 bytes it
    is below 5/4 of it; every larger request gets the index 42 that sends
    [vl_malloc] to the large path. *)
Theorem size_class_capacity_fits size (Hsize : 0 < size) :
  exists i, vl_size_class_index size = Some i /\
    (VL_MEMORY_SMALL_MAX < size -> i = VL_SIZE_CLASS_COUNT) /\
    (size <= VL_MEMORY_SMALL_MAX ->
       0 <= i < VL_SIZE_CLASS_COUNT /\ size <= vl_size_class_capacity i /\
       (forall j, 0 <= j < i -> vl_size_class_capacity j < size) /\
       (8 < size -> vl_size_class_capacity i < 2 * size) /\
       (128 < size -> 4 * vl_size_class_capacity i < 5 * size)).
Proof.
  destruct (vl_size_class_index_spec size) as (i & Hi & Hb & Hlo & Hhi).
  exists i. split; [done|]. unfold VL_SIZE_CLASS_COUNT, VL_MEMORY_SMALL_MAX in *.
  split.
  { intros Hbig. destruct (decide (i = 42)) as [|]; [done|].
    assert (size <= 32768); [|lia]. apply (Hhi 41%nat); [lia|done]. }
  intros Hsmall.
  assert (Hi42 : i < 42).
  { destruct (decide (i = 42)) as [->|]; [|lia].
    pose proof (Hlo 41%nat 32768 ltac:(lia) eq_refl). lia. }
  assert (Hcap : forall j, 0 <= j < 42 ->
    vl_size_classes !! Z.to_nat j = Some (vl_size_class_capacity j)).
  { intros j Hj. unfold vl_size_class_capacity, VL_SIZE_CLASS_COUNT.
    destruct (Z.ltb_spec j 42); [|lia].
    destruct (lookup_lt_is_Some_2 vl_size_classes (Z.to_nat j)) as [c Hc].
    { rewrite vl_size_classes_length. lia. }
    by rewrite Hc. }
  pose proof (Hcap i ltac:(lia)) as Hci.
  split; [lia|]. split; [apply (Hhi (Z.to_nat i)); [lia|done]|].
  split; [intros j Hj; apply (Hlo (Z.to_nat j)); [lia|apply Hcap; lia]|].
  destruct (decide (i = 0)) as [->|Hne].
  { assert (size <= vl_size_class_capacity 0) by (apply (Hhi 0%nat); [lia|done]).
    change (vl_size_class_capacity 0) with 8 in *. lia. }
  pose proof (Hcap (i - 1) ltac:(lia)) as Hcp.
  pose proof (Hlo (Z.to_nat (i - 1)) _ ltac:(lia) Hcp) as Hp.
  replace (Z.to_nat i) with (S (Z.to_nat (i - 1))) in Hci by lia.
  pose proof (waste_step _ _ _ Hcp Hci) as [Hw1 Hw2].
  split; [lia|]. intros Hs.
  destruct (decide (128 <= vl_size_class_capacity (i - 1))) as [Hge|Hlt]; [lia|].
  (* the classes up to index 9 end at 128 *)
  exfalso. assert (vl_size_class_capacity i <= 128).
  { destruct (decide (i <= 9)) as [H9|H9].
    - destruct (decide (i = 9)) as [->|]; [done|].
      pose proof (vl_size_classes_sorted (Z.to_nat i) 9 (vl_size_class_capacity i) 128
        ltac:(lia) (Hcap i ltac:(lia)) eq_refl). lia.
    - destruct (decide (i - 1 = 9)) as [E|]; [by rewrite E in Hlt|].
      pose proof (vl_size_classes_sorted 9 (Z.to_nat (i - 1)) 128 _ ltac:(lia) eq_refl Hcp).
      lia. }
  pose proof (Hhi (Z.to_nat i) _ ltac:(lia) (Hcap i ltac:(lia))). lia.
Qed.

Lemma size_class_capacity_fits_witness :
  exists i, vl_size_class_index 129 = Some i /\ vl_size_class_capacity i = 160.
Proof.
  destruct (size_class_capacity_fits 129 ltac:(lia)) as (i & Hi & _).
  exists i. split; [exact Hi|].
  assert (vl_size_class_index 129 = Some 10) as E by reflexivity.
  rewrite E in Hi. injection Hi as <-. reflexivity.
Defined.

(** ** Alignment *)

Lemma align_up_value value k : word value -> 0 <= k < 64 ->
  vl_memory_align_up value (2 ^ k) =
    let up := 2 ^ k * ((value + 2 ^ k - 1) / 2 ^ k) in
    if up <? W64 then up else 0.
Proof.
  intros Hv Hk. unfold vl_memory_align_up. cbv zeta.
  assert (Hp : 0 < 2 ^ k) by (apply Z.pow_pos_nonneg; lia).
  assert (Hp64 : 2 ^ k <= 2 ^ 63) by (apply Z.pow_le_mono_r; lia).
  change (2 ^ 63) with 9223372036854775808 in Hp64.
  destruct (Z.eqb_spec (2 ^ k) 0); [lia|].
  rewrite w64_small by word_lia.
  rewrite land_pow2_minus_1 by lia.
  pose proof (Z.mod_pos_bound value (2 ^ k) Hp) as Hr.
  pose proof (Z.div_mod value (2 ^ k) ltac:(lia)) as Hdm.
  set (q := value / 2 ^ k) in *. set (r := value mod 2 ^ k) in *.
  destruct (Z.eqb_spec r 0) as [Hr0|Hr0].
  - assert ((value + 2 ^ k - 1) / 2 ^ k = q) as ->.
    { symmetry. apply (Z.div_unique _ _ _ (2 ^ k - 1)); lia. }
    replace (2 ^ k * q) with value by lia.
    destruct (Z.ltb_spec value W64); word_lia.
  - assert ((value + 2 ^ k - 1) / 2 ^ k = q + 1) as ->.
    { symmetry. apply (Z.div_unique _ _ _ (r - 1)); lia. }
    replace (2 ^ k * (q + 1)) with (value + 2 ^ k - r) by lia.
    destruct (Z.ltb_spec (SIZE_MAX - (2 ^ k - r)) value);
      destruct (Z.ltb_spec (value + 2 ^ k - r) W64); try word_lia.
    apply w64_small. word_lia.
Qed.

(** For every 64-bit value and every power-of-two alignment,
    [vl_memory_align_up] returns the least multiple of the alignment that is
    not below the value, or 0 exactly when that multiple does not fit in a
    [size_t]; the addition never wraps. *)
Theorem align_up_least_multiple value k r
    (Hv : word value) (Hk : 0 <= k < 64)
    (Hr : vl_memory_align_up value (2 ^ k) = r) :
  (r mod 2 ^ k = 0 /\ value <= r < W64 /\ r < value + 2 ^ k /\
   forall m, m mod 2 ^ k = 0 -> value <= m -> r <= m) \/
  (r = 0 /\ forall m, m mod 2 ^ k = 0 -> value <= m -> W64 <= m).
Proof.
  assert (Hp : 0 < 2 ^ k) by (apply Z.pow_pos_nonneg; lia).
  set (up := 2 ^ k * ((value + 2 ^ k - 1) / 2 ^ k)).
  assert (Hbound : value <= up < value + 2 ^ k).
  { subst up. pose proof (Z.div_mod (value + 2 ^ k - 1) (2 ^ k) ltac:(lia)).
    pose proof (Z.mod_pos_bound (value + 2 ^ k - 1) (2 ^ k) Hp). lia. }
  assert (Hleast : forall m, m mod 2 ^ k = 0 -> value <= m -> up <= m).
  { intros m Hm Hvm. apply Z.div_exact in Hm; [|lia].
    assert ((value + 2 ^ k - 1) / 2 ^ k <= m / 2 ^ k); [|nia].
    apply Z.lt_succ_r, Z.div_lt_upper_bound; [lia|]. lia. }
  assert (Hmul : up mod 2 ^ k = 0).
  { subst up. rewrite Z.mul_comm. apply Z.mod_mul. lia. }
  rewrite align_up_value in Hr by done. fold up in Hr. cbv zeta in Hr.
  destruct (Z.ltb_spec up W64) as [Hlt|Hge]; subst r.
  - left. eauto with lia.
  - right. split; [done|]. intros m Hm Hvm. specialize (Hleast m Hm Hvm). lia.
Qed.

Lemma align_up_least_multiple_witness :
  vl_memory_align_up 88 16 = 96 /\
  forall m, m mod 2 ^ 4 = 0 -> 88 <= m -> 96 <= m.
Proof.
  split; [reflexivity|].
  destruct (align_up_least_multiple 88 4 96 ltac:(word_lia) ltac:(lia) eq_refl)
    as [(_ & _ & _ & H)|[H _]]; [exact H|discriminate H].
Defined.
