(* ===== verification/PageHeap.v ===== *)
(** * The memory state and the page heap (src/memory/memory_internal.h, page_heap.c)

    [vl_memory] is the global [vl_memory_global] together with the part of the
    address space the allocator uses: which mappings exist ([mappings], base to
    length) and what lies in them, one map per kind of object the code keeps there.
    An address is a [Z], [NULL] is 0.  A free object keeps the link of its free list
    in its first word ([m_links]); the other bytes of a mapping are [m_bytes].
    Unmapping a range erases everything in it, so that reading it afterwards is
    undefined ([None]).

    The model is the release build: [VELOCO_MEMORY_DEBUG] is not defined, the
    object header is 80 bytes, [vl_debug_validate] accepts and the other debug
    hooks do nothing. *)

From S2P Require Import Prelude SizeClass.
From stdpp Require Import options.

Open Scope Z_scope.

Definition VL_CACHE_MAX : Z := 64.
Definition VL_CACHE_REFILL : Z := 32.
Definition VL_MEMORY_MAX_P : Z := 64.
Definition VL_OBJECT_MAGIC : Z := 6216458763970235717.
Definition VL_OBJECT_ALLOCATED : Z := 1.
Definition VL_OBJECT_FREE : Z := 2.
Definition VL_OBJECT_SMALL : Z := 1.
Definition VL_OBJECT_LARGE : Z := 2.
Definition NULL : Z := 0.

(** [sizeof(vl_object_header_t)] on an LP64 target. *)
Definition HEADER : Z := 80.
(** [sizeof(vl_span_t)], [sizeof(vl_arena_block_t)] and a pointer. *)
Definition SPAN : Z := 112.
Definition BLOCK : Z := 32.
Definition WORD : Z := 8.

Record vl_allocator_stats := mk_allocator_stats {
  active_bytes : Z;
  active_objects : Z;
  cache_hits : Z;
  central_refills : Z;
  mmap_calls : Z;
  mapped_bytes : Z;
  cross_p_frees : Z }.

Definition set_active_bytes (v : Z) (s : vl_allocator_stats) : vl_allocator_stats :=
  mk_allocator_stats v (active_objects s) (cache_hits s) (central_refills s) (mmap_calls
    s) (mapped_bytes s) (cross_p_frees s).
Definition set_active_objects (v : Z) (s : vl_allocator_stats) : vl_allocator_stats :=
  mk_allocator_stats (active_bytes s) v (cache_hits s) (central_refills s) (mmap_calls
    s) (mapped_bytes s) (cross_p_frees s).
Definition set_cache_hits (v : Z) (s : vl_allocator_stats) : vl_allocator_stats :=
  mk_allocator_stats (active_bytes s) (active_objects s) v (central_refills s)
    (mmap_calls s) (mapped_bytes s) (cross_p_frees s).
Definition set_central_refills (v : Z) (s : vl_allocator_stats) : vl_allocator_stats :=
  mk_allocator_stats (active_bytes s) (active_objects s) (cache_hits s) v (mmap_calls s)
    (mapped_bytes s) (cross_p_frees s).
Definition set_mmap_calls (v : Z) (s : vl_allocator_stats) : vl_allocator_stats :=
  mk_allocator_stats (active_bytes s) (active_objects s) (cache_hits s) (central_refills
    s) v (mapped_bytes s) (cross_p_frees s).
Definition set_mapped_bytes (v : Z) (s : vl_allocator_stats) : vl_allocator_stats :=
  mk_allocator_stats (active_bytes s) (active_objects s) (cache_hits s) (central_refills
    s) (mmap_calls s) v (cross_p_frees s).
Definition set_cross_p_frees (v : Z) (s : vl_allocator_stats) : vl_allocator_stats :=
  mk_allocator_stats (active_bytes s) (active_objects s) (cache_hits s) (central_refills
    s) (mmap_calls s) (mapped_bytes s) v.

Record vl_span := mk_span {
  sp_mapping_base : Z;
  sp_mapping_size : Z;
  sp_class_index : Z;
  sp_capacity : Z;
  sp_object_stride : Z;
  sp_object_count : Z;
  sp_central_free_count : Z;
  sp_free_count : Z;
  sp_active_count : Z;
  sp_cached_count : Z;
  sp_owner_p : Z;
  sp_central_free : Z;
  sp_central_next : Z;
  sp_all_next : Z }.

Definition set_sp_central_free_count (v : Z) (s : vl_span) : vl_span :=
  mk_span (sp_mapping_base s) (sp_mapping_size s) (sp_class_index s) (sp_capacity s)
    (sp_object_stride s) (sp_object_count s) v (sp_free_count s) (sp_active_count s)
    (sp_cached_count s) (sp_owner_p s) (sp_central_free s) (sp_central_next s)
    (sp_all_next s).
Definition set_sp_free_count (v : Z) (s : vl_span) : vl_span :=
  mk_span (sp_mapping_base s) (sp_mapping_size s) (sp_class_index s) (sp_capacity s)
    (sp_object_stride s) (sp_object_count s) (sp_central_free_count s) v (sp_active_count
    s) (sp_cached_count s) (sp_owner_p s) (sp_central_free s) (sp_central_next s)
    (sp_all_next s).
Definition set_sp_active_count (v : Z) (s : vl_span) : vl_span :=
  mk_span (sp_mapping_base s) (sp_mapping_size s) (sp_class_index s) (sp_capacity s)
    (sp_object_stride s) (sp_object_count s) (sp_central_free_count s) (sp_free_count s) v
    (sp_cached_count s) (sp_owner_p s) (sp_central_free s) (sp_central_next s)
    (sp_all_next s).
Definition set_sp_cached_count (v : Z) (s : vl_span) : vl_span :=
  mk_span (sp_mapping_base s) (sp_mapping_size s) (sp_class_index s) (sp_capacity s)
    (sp_object_stride s) (sp_object_count s) (sp_central_free_count s) (sp_free_count s)
    (sp_active_count s) v (sp_owner_p s) (sp_central_free s) (sp_central_next s)
    (sp_all_next s).
Definition set_sp_central_free (v : Z) (s : vl_span) : vl_span :=
  mk_span (sp_mapping_base s) (sp_mapping_size s) (sp_class_index s) (sp_capacity s)
    (sp_object_stride s) (sp_object_count s) (sp_central_free_count s) (sp_free_count s)
    (sp_active_count s) (sp_cached_count s) (sp_owner_p s) v (sp_central_next s)
    (sp_all_next s).
Definition set_sp_central_next (v : Z) (s : vl_span) : vl_span :=
  mk_span (sp_mapping_base s) (sp_mapping_size s) (sp_class_index s) (sp_capacity s)
    (sp_object_stride s) (sp_object_count s) (sp_central_free_count s) (sp_free_count s)
    (sp_active_count s) (sp_cached_count s) (sp_owner_p s) (sp_central_free s) v
    (sp_all_next s).
Definition set_sp_all_next (v : Z) (s : vl_span) : vl_span :=
  mk_span (sp_mapping_base s) (sp_mapping_size s) (sp_class_index s) (sp_capacity s)
    (sp_object_stride s) (sp_object_count s) (sp_central_free_count s) (sp_free_count s)
    (sp_active_count s) (sp_cached_count s) (sp_owner_p s) (sp_central_free s)
    (sp_central_next s) v.

Record vl_object_header := mk_header {
  oh_magic : Z;
  oh_kind : Z;
  oh_state : Z;
  oh_requested_size : Z;
  oh_capacity : Z;
  oh_owner_p : Z;
  oh_reserved : Z;
  oh_span : Z;
  oh_mapping_base : Z;
  oh_mapping_size : Z;
  oh_large_next : Z }.

Definition set_oh_state (v : Z) (h : vl_object_header) : vl_object_header :=
  mk_header (oh_magic h) (oh_kind h) v (oh_requested_size h) (oh_capacity h) (oh_owner_p
    h) (oh_reserved h) (oh_span h) (oh_mapping_base h) (oh_mapping_size h) (oh_large_next
    h).
Definition set_oh_requested_size (v : Z) (h : vl_object_header) : vl_object_header :=
  mk_header (oh_magic h) (oh_kind h) (oh_state h) v (oh_capacity h) (oh_owner_p h)
    (oh_reserved h) (oh_span h) (oh_mapping_base h) (oh_mapping_size h) (oh_large_next h).
Definition set_oh_owner_p (v : Z) (h : vl_object_header) : vl_object_header :=
  mk_header (oh_magic h) (oh_kind h) (oh_state h) (oh_requested_size h) (oh_capacity h)
    v (oh_reserved h) (oh_span h) (oh_mapping_base h) (oh_mapping_size h) (oh_large_next
    h).
Definition set_oh_large_next (v : Z) (h : vl_object_header) : vl_object_header :=
  mk_header (oh_magic h) (oh_kind h) (oh_state h) (oh_requested_size h) (oh_capacity h)
    (oh_owner_p h) (oh_reserved h) (oh_span h) (oh_mapping_base h) (oh_mapping_size h) v.

Record vl_arena_block := mk_block {
  ab_mapping_size : Z;
  ab_capacity : Z;
  ab_used : Z;
  ab_next : Z }.

Definition set_ab_used (v : Z) (b : vl_arena_block) : vl_arena_block :=
  mk_block (ab_mapping_size b) (ab_capacity b) v (ab_next b).

Record vl_cache := mk_cache {
  ca_head : Z;
  ca_count : Z }.


Record vl_memory := mk_memory {
  initialized : bool;
  page_size : Z;
  mem_stats : vl_allocator_stats;
  caches : gmap (Z * Z) vl_cache;
  remote : gmap (Z * Z) vl_cache;
  central : gmap Z Z;
  all_spans : Z;
  large_allocations : Z;
  mappings : gmap Z Z;
  calls : nat;
  m_spans : gmap Z vl_span;
  m_headers : gmap Z vl_object_header;
  m_links : gmap Z Z;
  m_blocks : gmap Z vl_arena_block;
  m_bytes : gmap Z Z }.

Definition set_initialized (v : bool) (m : vl_memory) : vl_memory :=
  mk_memory v (page_size m) (mem_stats m) (caches m) (remote m) (central m) (all_spans
    m) (large_allocations m) (mappings m) (calls m) (m_spans m) (m_headers m) (m_links m)
    (m_blocks m) (m_bytes m).
Definition set_page_size (v : Z) (m : vl_memory) : vl_memory :=
  mk_memory (initialized m) v (mem_stats m) (caches m) (remote m) (central m) (all_spans
    m) (large_allocations m) (mappings m) (calls m) (m_spans m) (m_headers m) (m_links m)
    (m_blocks m) (m_bytes m).
Definition set_mem_stats (v : vl_allocator_stats) (m : vl_memory) : vl_memory :=
  mk_memory (initialized m) (page_size m) v (caches m) (remote m) (central m) (all_spans
    m) (large_allocations m) (mappings m) (calls m) (m_spans m) (m_headers m) (m_links m)
    (m_blocks m) (m_bytes m).
Definition set_caches (v : gmap (Z * Z) vl_cache) (m : vl_memory) : vl_memory :=
  mk_memory (initialized m) (page_size m) (mem_stats m) v (remote m) (central m)
    (all_spans m) (large_allocations m) (mappings m) (calls m) (m_spans m) (m_headers m)
    (m_links m) (m_blocks m) (m_bytes m).
Definition set_remote (v : gmap (Z * Z) vl_cache) (m : vl_memory) : vl_memory :=
  mk_memory (initialized m) (page_size m) (mem_stats m) (caches m) v (central m)
    (all_spans m) (large_allocations m) (mappings m) (calls m) (m_spans m) (m_headers m)
    (m_links m) (m_blocks m) (m_bytes m).
Definition set_central (v : gmap Z Z) (m : vl_memory) : vl_memory :=
  mk_memory (initialized m) (page_size m) (mem_stats m) (caches m) (remote m) v
    (all_spans m) (large_allocations m) (mappings m) (calls m) (m_spans m) (m_headers m)
    (m_links m) (m_blocks m) (m_bytes m).
Definition set_all_spans (v : Z) (m : vl_memory) : vl_memory :=
  mk_memory (initialized m) (page_size m) (mem_stats m) (caches m) (remote m) (central
    m) v (large_allocations m) (mappings m) (calls m) (m_spans m) (m_headers m) (m_links
    m) (m_blocks m) (m_bytes m).
Definition set_large_allocations (v : Z) (m : vl_memory) : vl_memory :=
  mk_memory (initialized m) (page_size m) (mem_stats m) (caches m) (remote m) (central
    m) (all_spans m) v (mappings m) (calls m) (m_spans m) (m_headers m) (m_links m)
    (m_blocks m) (m_bytes m).
Definition set_mappings (v : gmap Z Z) (m : vl_memory) : vl_memory :=
  mk_memory (initialized m) (page_size m) (mem_stats m) (caches m) (remote m) (central
    m) (all_spans m) (large_allocations m) v (calls m) (m_spans m) (m_headers m) (m_links
    m) (m_blocks m) (m_bytes m).
Definition set_calls (v : nat) (m : vl_memory) : vl_memory :=
  mk_memory (initialized m) (page_size m) (mem_stats m) (caches m) (remote m) (central
    m) (all_spans m) (large_allocations m) (mappings m) v (m_spans m) (m_headers m)
    (m_links m) (m_blocks m) (m_bytes m).
Definition set_m_spans (v : gmap Z vl_span) (m : vl_memory) : vl_memory :=
  mk_memory (initialized m) (page_size m) (mem_stats m) (caches m) (remote m) (central
    m) (all_spans m) (large_allocations m) (mappings m) (calls m) v (m_headers m) (m_links
    m) (m_blocks m) (m_bytes m).
Definition set_m_headers (v : gmap Z vl_object_header) (m : vl_memory) : vl_memory :=
  mk_memory (initialized m) (page_size m) (mem_stats m) (caches m) (remote m) (central
    m) (all_spans m) (large_allocations m) (mappings m) (calls m) (m_spans m) v (m_links
    m) (m_blocks m) (m_bytes m).
Definition set_m_links (v : gmap Z Z) (m : vl_memory) : vl_memory :=
  mk_memory (initialized m) (page_size m) (mem_stats m) (caches m) (remote m) (central
    m) (all_spans m) (large_allocations m) (mappings m) (calls m) (m_spans m) (m_headers
    m) v (m_blocks m) (m_bytes m).
Definition set_m_blocks (v : gmap Z vl_arena_block) (m : vl_memory) : vl_memory :=
  mk_memory (initialized m) (page_size m) (mem_stats m) (caches m) (remote m) (central
    m) (all_spans m) (large_allocations m) (mappings m) (calls m) (m_spans m) (m_headers
    m) (m_links m) v (m_bytes m).
Definition set_m_bytes (v : gmap Z Z) (m : vl_memory) : vl_memory :=
  mk_memory (initialized m) (page_size m) (mem_stats m) (caches m) (remote m) (central
    m) (all_spans m) (large_allocations m) (mappings m) (calls m) (m_spans m) (m_headers
    m) (m_links m) (m_blocks m) v.


Notation M := (C vl_memory).

(** ** What the operating system provides

    [mmap] and [munmap] are functions of the number of calls made so far, so that
    the same request may succeed once and fail later. *)
Class os_memory := {
  sysconf_pagesize : Z;
  mmap : nat -> gmap Z Z -> Z -> option Z;
  munmap : nat -> Z -> Z -> bool;
  libc_calloc : nat -> bool }.

Definition disjoint_range (a n b k : Z) : Prop := a + n <= b \/ b + k <= a.

(** The documented behaviour of an anonymous private mapping: a page-aligned range
    of user addresses that no other mapping covers; pages are 4 KiB to 64 KiB. *)
Class os_memory_laws `{os_memory} : Prop := {
  pagesize_law : exists k, 12 <= k <= 16 /\ sysconf_pagesize = 2 ^ k;
  mmap_law : forall n maps bytes base, mmap n maps bytes = Some base ->
    0 < base /\ base mod sysconf_pagesize = 0 /\ base + bytes <= 2 ^ 56 /\
    forall b k, maps !! b = Some k -> disjoint_range base bytes b k }.

(** [n] bytes from [a] lie in one mapping: a store there is defined. *)
Definition mapped (m : vl_memory) (a n : Z) : Prop :=
  map_Exists (fun b k => b <= a /\ a + n <= b + k) (mappings m).

#[export] Instance mapped_dec m a n : Decision (mapped m a n).
Proof. unfold mapped. apply _. Defined.

Section page_heap.
Context `{os_memory}.

Definition tick (m : vl_memory) : vl_memory := set_calls (S (calls m)) m.
Definition upd_stats (f : vl_allocator_stats -> vl_allocator_stats) (m : vl_memory) : vl_memory :=
  set_mem_stats (f (mem_stats m)) m.

(** [mmap] succeeded: the mapping exists, its contents are not yet set. *)
Definition map_range (base bytes : Z) (m : vl_memory) : vl_memory :=
  set_mappings (<[base := bytes]> (mappings m)) m.

(** [munmap] of a whole mapping: everything stored in it is gone. *)
Definition outside {A} (base size : Z) (e : Z * A) : Prop := ~ (base <= e.1 < base + size).
Definition unmap_range (base size : Z) (m : vl_memory) : vl_memory :=
  mk_memory (initialized m) (page_size m) (mem_stats m) (caches m) (remote m) (central m)
    (all_spans m) (large_allocations m) (delete base (mappings m)) (calls m)
    (filter (outside base size) (m_spans m)) (filter (outside base size) (m_headers m))
    (filter (outside base size) (m_links m)) (filter (outside base size) (m_blocks m))
    (filter (outside base size) (m_bytes m)).

(** The effect of a successful [mmap] and of a successful [munmap]. *)
Definition acquired (mapping bytes : Z) (m : vl_memory) : vl_memory :=
  upd_stats (fun s => set_mapped_bytes (w64 (mapped_bytes s + bytes))
                       (set_mmap_calls (w64 (mmap_calls s + 1)) s))
    (map_range mapping bytes (tick m)).

Definition released (mapping_base mapped_size : Z) (m : vl_memory) : vl_memory :=
  upd_stats (fun s => set_mapped_bytes
      (if mapped_size <=? mapped_bytes s then w64 (mapped_bytes s - mapped_size) else 0) s)
    (unmap_range mapping_base mapped_size (tick m)).

(** Returns the mapping and its length, [NULL] and 0 when there is none. *)
Definition vl_page_heap_acquire (pages : Z) : M (Z * Z) := fun m =>
  if negb (initialized m) || (pages =? 0) || (SIZE_MAX / page_size m <? pages)
  then Some ((NULL, 0), m) else
  let bytes := w64 (pages * page_size m) in
  if SIZE_MAX - bytes <? mapped_bytes (mem_stats m) then Some ((NULL, 0), m) else
  match mmap (calls m) (mappings m) bytes with
  | None => Some ((NULL, 0), tick m)
  | Some mapping => Some ((mapping, bytes), acquired mapping bytes m)
  end.

(** Unmapping anything but one whole mapping is not given a meaning. *)
Definition vl_page_heap_release (mapping_base mapped_size : Z) : M unit := fun m =>
  if (mapping_base =? NULL) || (mapped_size =? 0) then Some (tt, m) else
  if decide (mappings m !! mapping_base = Some mapped_size) then
    if negb (munmap (calls m) mapping_base mapped_size) then Some (tt, tick m)
    else Some (tt, released mapping_base mapped_size m)
  else None.

(** ** The page-heap invariant

    The mappings are disjoint, page-aligned ranges; everything the state keeps at an
    address lies in a mapping; [mapped_bytes] is their total length. *)

Definition mapping_total (maps : gmap Z Z) : Z := map_fold (fun _ k t => k + t) 0 maps.

Record heap_ok (m : vl_memory) : Prop := {
  ho_init : initialized m = true;
  ho_page : page_size m = sysconf_pagesize;
  ho_maps : forall b k, mappings m !! b = Some k ->
    0 < b /\ b mod page_size m = 0 /\ 0 < k /\ b + k <= 2 ^ 56;
  ho_disjoint : forall b k b' k', mappings m !! b = Some k -> mappings m !! b' = Some k' ->
    b <> b' -> disjoint_range b k b' k';
  ho_bytes : mapped_bytes (mem_stats m) = mapping_total (mappings m) /\
             mapped_bytes (mem_stats m) <= SIZE_MAX;
  ho_spans : forall a x, m_spans m !! a = Some x -> mapped m a SPAN;
  ho_headers : forall a x, m_headers m !! a = Some x -> mapped m a HEADER;
  ho_links : forall a x, m_links m !! a = Some x -> mapped m a WORD;
  ho_blocks : forall a x, m_blocks m !! a = Some x -> mapped m a BLOCK }.

(** ** Lemmas *)

Lemma mapping_total_insert maps b k : maps !! b = None ->
  mapping_total (<[b := k]> maps) = k + mapping_total maps.
Proof. intros Hb. unfold mapping_total. rewrite map_fold_insert_L; [done|lia|done]. Qed.

Lemma mapping_total_delete maps b k : maps !! b = Some k ->
  mapping_total maps = k + mapping_total (delete b maps).
Proof. intros Hb. unfold mapping_total. rewrite (map_fold_delete_L _ _ b k); [done|lia|done]. Qed.

Lemma mapping_total_nonneg maps : (forall b k, maps !! b = Some k -> 0 < k) -> 0 <= mapping_total maps.
Proof.
  unfold mapping_total. apply (map_fold_weak_ind (fun t maps =>
    (forall b k, maps !! b = Some k -> 0 < k) -> 0 <= t)); [lia|].
  intros b k maps' t Hb IH Hp. pose proof (Hp b k (lookup_insert_eq _ _ _)).
  assert (0 <= t); [|lia]. apply IH. intros b' k' Hk. apply (Hp b' k').
  rewrite lookup_insert_ne; congruence.
Qed.

#[local] Set Default Proof Using "Type*".
Context `{!os_memory_laws}.

Lemma page_bounds : 4096 <= sysconf_pagesize <= 65536 /\ sysconf_pagesize mod 16 = 0.
Proof.
  destruct pagesize_law as (k & Hk & ->).
  assert (2 ^ 12 <= 2 ^ k) by (apply Z.pow_le_mono_r; lia).
  assert (2 ^ k <= 2 ^ 16) by (apply Z.pow_le_mono_r; lia).
  split; [lia|]. replace k with (4 + (k - 4)) by lia. rewrite Z.pow_add_r by lia.
  change (2 ^ 4) with 16. rewrite Z.mul_comm. apply Z.mod_mul. lia.
Qed.

Lemma mapped_mono m m' a n : mappings m ⊆ mappings m' -> mapped m a n -> mapped m' a n.
Proof. intros Hs (b & k & Hb & Hr). exists b, k. split; [|done]. by eapply lookup_weaken. Qed.

Lemma mapped_sub m a n a' n' : mapped m a n -> a <= a' -> a' + n' <= a + n -> mapped m a' n'.
Proof. intros (b & k & Hb & Hr) ??. exists b, k. split; [done|]. lia. Qed.

(** A range no mapping of [m] covers. *)
Definition fresh_range (m : vl_memory) (base bytes : Z) : Prop :=
  0 < base /\ base mod page_size m = 0 /\ base + bytes <= 2 ^ 56 /\
  forall b k, mappings m !! b = Some k -> disjoint_range base bytes b k.

Lemma fresh_range_notin m base bytes a n : fresh_range m base bytes ->
  mapped m a n -> 0 < n -> base <= a < base + bytes -> False.
Proof. intros (_ & _ & _ & Hd) (b & k & Hb & Hr) Hn Ha. specialize (Hd b k Hb). unfold disjoint_range in Hd. lia. Qed.

Lemma fresh_range_None m base bytes : heap_ok m -> fresh_range m base bytes -> 0 < bytes ->
  mappings m !! base = None.
Proof.
  intros Hok (_ & _ & _ & Hd) Hb. destruct (mappings m !! base) as [k|] eqn:E; [|done].
  pose proof (Hd _ _ E). pose proof (ho_maps m Hok _ _ E). unfold disjoint_range in *. lia.
Qed.

Lemma acquire_ok m base bytes : heap_ok m -> fresh_range m base bytes -> 0 < bytes ->
  mapped_bytes (mem_stats m) + bytes <= SIZE_MAX -> heap_ok (acquired base bytes m).
Proof.
  intros Hok Hf Hb Hsum. pose proof (fresh_range_None _ _ _ Hok Hf Hb) as HN.
  pose proof (mapping_total_nonneg (mappings m) (fun b k Hk => proj1 (proj2 (proj2 (ho_maps m Hok b k Hk))))).
  destruct Hok as [Hi Hp Hm Hd [Hby Hby'] Hs Hh Hl Hbl]. destruct Hf as (Hf1 & Hf2 & Hf3 & Hf4).
  assert (Hsub : mappings m ⊆ mappings (acquired base bytes m)) by (by apply insert_subseteq).
  split; try done; try (intros a x Hx; by eapply mapped_mono; eauto).
  - intros b k. cbn. rewrite lookup_insert. case_decide as E; [|by apply Hm].
    intros Hk. simplify_eq. lia.
  - intros b k b' k'. cbn. rewrite !lookup_insert.
    repeat case_decide; intros; simplify_eq; eauto.
    pose proof (Hf4 b k ltac:(done)). unfold disjoint_range in *. lia.
  - cbn. rewrite mapping_total_insert by done. rewrite w64_small; word_lia.
Qed.

(** Why no mapping of that length can be had: the accounting would overflow, or the
    system refuses. *)
Definition refuses (m : vl_memory) (bytes : Z) : Prop :=
  SIZE_MAX < bytes + mapped_bytes (mem_stats m) \/ mmap (calls m) (mappings m) bytes = None.

Lemma vl_page_heap_acquire_spec m pages : heap_ok m -> 0 < pages ->
  let bytes := pages * page_size m in
  exists r, vl_page_heap_acquire pages m = Some r /\
    ((r.1 = (NULL, 0) /\ (r.2 = m \/ r.2 = tick m) /\ refuses m bytes) \/
     exists base, r = ((base, bytes), acquired base bytes m) /\ fresh_range m base bytes /\
       0 < bytes /\ heap_ok (acquired base bytes m)).
Proof.
  intros Hok Hpages. cbv zeta. unfold vl_page_heap_acquire, refuses. pose proof page_bounds as [Hpb _].
  pose proof (mapping_total_nonneg (mappings m) (fun b k Hk => proj1 (proj2 (proj2 (ho_maps m Hok b k Hk))))) as Hnn.
  rewrite <- (proj1 (ho_bytes m Hok)) in Hnn.
  rewrite <- (ho_page _ Hok) in Hpb. rewrite (ho_init _ Hok). cbn [negb orb].
  set (bytes := pages * page_size m).
  destruct (Z.eqb_spec pages 0); [lia|]. cbn [orb].
  pose proof (Z.div_mod SIZE_MAX (page_size m) ltac:(lia)).
  pose proof (Z.mod_pos_bound SIZE_MAX (page_size m) ltac:(lia)).
  destruct (Z.ltb_spec (SIZE_MAX / page_size m) pages) as [Hbig|Hsmall].
  { eexists. split; [done|]. left. split_and!; [done|by left|]. left. subst bytes. nia. }
  assert (Hb : 0 < bytes <= SIZE_MAX) by (subst bytes; nia).
  rewrite w64_small by word_lia.
  destruct (Z.ltb_spec (SIZE_MAX - bytes) (mapped_bytes (mem_stats m))).
  { eexists. split; [done|]. left. split_and!; [done|by left|]. left. lia. }
  destruct (mmap _ _ _) as [base|] eqn:E.
  2: { eexists. split; [done|]. left. split_and!; [done|by right|by right]. }
  apply mmap_law in E. rewrite <- (ho_page _ Hok) in E.
  eexists. split; [done|]. right. exists base. split_and!; [done..|lia|].
  apply acquire_ok; [done..|lia|lia].
Qed.

Lemma unmap_lookup {A} (l : gmap Z A) base size a x :
  filter (outside base size) l !! a = Some x <-> l !! a = Some x /\ ~ (base <= a < base + size).
Proof. apply map_lookup_filter_Some. Qed.

Lemma mapped_released m base size a n : heap_ok m -> mappings m !! base = Some size ->
  mapped m a n -> 0 < n -> ~ (base <= a < base + size) -> mapped (released base size m) a n.
Proof.
  intros Hok Hb (b & k & Hk & Hr) Hn Ho. exists b, k. split; [|done]. cbn.
  rewrite lookup_delete_ne; [done|]. intros <-. rewrite Hb in Hk. simplify_eq. lia.
Qed.

Lemma release_ok m base size : heap_ok m -> mappings m !! base = Some size -> heap_ok (released base size m).
Proof.
  intros Hok Hb. pose proof (fun a n => mapped_released m base size a n Hok Hb) as Hmap.
  pose proof (mapping_total_delete _ _ _ Hb) as Ht.
  assert (0 <= mapping_total (delete base (mappings m))).
  { apply mapping_total_nonneg. intros b k [_ Hk]%lookup_delete_Some. apply (ho_maps m Hok) in Hk. lia. }
  pose proof (ho_maps m Hok _ _ Hb).
  destruct Hok as [Hi Hp Hm Hd [Hby Hby'] Hs Hh Hl Hbl].
  split; try done;
    try (intros a x [Hx Ho]%unmap_lookup; eapply Hmap; eauto; unfold SPAN, HEADER, WORD, BLOCK; lia).
  - cbn. intros b k [_ Hk]%lookup_delete_Some. by apply Hm.
  - cbn. intros b k b' k' [_ Hk]%lookup_delete_Some [_ Hk']%lookup_delete_Some. by apply Hd.
  - cbn. destruct (Z.leb_spec size (mapped_bytes (mem_stats m))); [|lia].
    rewrite w64_small; word_lia.
Qed.

Lemma tick_ok m : heap_ok m -> heap_ok (tick m).
Proof. intros []. by split. Qed.

Lemma vl_page_heap_release_spec m base size : heap_ok m -> mappings m !! base = Some size ->
  exists m', vl_page_heap_release base size m = Some (tt, m') /\
    (m' = tick m \/ m' = released base size m) /\ heap_ok m'.
Proof.
  intros Hok Hb. pose proof (ho_maps m Hok _ _ Hb). unfold vl_page_heap_release, NULL.
  destruct (Z.eqb_spec base 0), (Z.eqb_spec size 0); try lia. cbn [orb].
  rewrite decide_True by done.
  destruct (munmap _ _ _); cbn [negb]; eexists; (split; [done|]); split; auto using tick_ok, release_ok.
Qed.
End page_heap.

(** ** An operating system that satisfies the laws

    Every mapping is placed after the existing ones. *)

Definition map_end (maps : gmap Z Z) : Z := map_fold (fun b k t => Z.max (b + k) t) 65536 maps.

Definition bump_os : os_memory := {|
  sysconf_pagesize := 4096;
  mmap _ maps bytes :=
    let base := 4096 * ((map_end maps + 4095) / 4096) in
    if base + bytes <=? 2 ^ 56 then Some base else None;
  munmap _ _ _ := true;
  libc_calloc _ := true |}.

Lemma map_end_spec maps : 65536 <= map_end maps /\ forall b k, maps !! b = Some k -> b + k <= map_end maps.
Proof.
  unfold map_end. apply (map_fold_weak_ind (fun t maps =>
    65536 <= t /\ forall b k, maps !! b = Some k -> b + k <= t)); [by split|].
  intros b k maps' t Hb [Ht IH]. split; [lia|]. intros b' k'. rewrite lookup_insert.
  case_decide; [intros; simplify_eq; lia|]. intros Hk%IH. lia.
Qed.

Lemma bump_os_laws : @os_memory_laws bump_os.
Proof.
  split; [exists 12; split; [lia|reflexivity]|].
  intros n maps bytes base. cbn -[map_end Z.pow Z.mul Z.div]. destruct (map_end_spec maps) as [He Hk].
  set (q := (map_end maps + 4095) / 4096). case_match eqn:E; [|done]. intros [= <-].
  assert (map_end maps <= 4096 * q).
  { subst q. pose proof (Z.div_mod (map_end maps + 4095) 4096).
    pose proof (Z.mod_pos_bound (map_end maps + 4095) 4096). lia. }
  split; [lia|]. split; [rewrite Z.mul_comm; apply Z.mod_mul; lia|]. split; [lia|].
  intros b k Hb%Hk. right. lia.
Qed.
