(* ===== verification/Span.v ===== *)
(** * Spans (src/memory/span.c)

    A span is one mapping: a page for the [vl_span_t] and then its objects, each a
    header followed by [capacity] bytes.  Its free objects are on a list linked
    through their own first word.  The loops that follow a list of spans get one
    iteration more than there are span structures in memory. *)

From S2P Require Import Prelude SizeClass PageHeap.
From stdpp Require Import options.

Open Scope Z_scope.

(** ** Memory accesses

    A load finds what the last store put there; a store needs the bytes mapped. *)

Definition load_link (user : Z) : M Z := deref (fun m => m_links m !! user).

(** [*(void ** )user = value] also overwrites the bytes it covers. *)
Definition store_link (user value : Z) : M unit := fun m =>
  if decide (mapped m user WORD)
  then Some (tt, set_m_links (<[user := value]> (m_links m))
                   (set_m_bytes (filter (outside user WORD) (m_bytes m)) m))
  else None.

Definition load_span (s : Z) : M vl_span := deref (fun m => m_spans m !! s).
Definition store_span (s : Z) (v : vl_span) : M unit := fun m =>
  if decide (mapped m s SPAN) then Some (tt, set_m_spans (<[s := v]> (m_spans m)) m) else None.
Definition upd_span (s : Z) (f : vl_span -> vl_span) : M unit :=
  span ← load_span s; store_span s (f span).

Definition load_header (h : Z) : M vl_object_header := deref (fun m => m_headers m !! h).
Definition store_header (h : Z) (v : vl_object_header) : M unit := fun m =>
  if decide (mapped m h HEADER) then Some (tt, set_m_headers (<[h := v]> (m_headers m)) m) else None.

Definition vl_object_header_from_user (user : Z) : Z := user - HEADER.
Definition vl_object_user_from_header (header : Z) : Z := header + HEADER.

(** The arrays of the global: an entry not in the map is the zero of [memset]. *)
Definition central_at (c : Z) : M Z := deref (fun m =>
  if decide (0 <= c < VL_SIZE_CLASS_COUNT) then Some (default NULL (central m !! c)) else None).
Definition store_central (c v : Z) : M unit := fun m =>
  if decide (0 <= c < VL_SIZE_CLASS_COUNT)
  then Some (tt, set_central (<[c := v]> (central m)) m) else None.

Definition vl_memory_current_p (me : Z) : Z := if me <? VL_MEMORY_MAX_P then me else 0.
(** The new value of the thread's [vl_memory_p_index]. *)
Definition vl_memory_bind_p (p_index : Z) : Z := if p_index <? VL_MEMORY_MAX_P then p_index else 0.

Section span.
Context `{os_memory}.

Definition span_fuel (m : vl_memory) : nat := S (size (m_spans m)).

Definition vl_span_object_stride (capacity : Z) : Z :=
  vl_memory_align_up (w64 (HEADER + capacity)) VL_MEMORY_ALIGNMENT.

Definition vl_span_insert_central (s : Z) : M unit :=
  span ← load_span s;
  head ← central_at (sp_class_index span);
  _ ← upd_span s (set_sp_central_next head);
  store_central (sp_class_index span) s.

(** One iteration of the loop of [vl_span_create]. *)
Definition span_init_object (s objects capacity owner index : Z) : M unit :=
  span ← load_span s;
  let header := objects + index * sp_object_stride span in
  _ ← store_header header (mk_header VL_OBJECT_MAGIC VL_OBJECT_SMALL VL_OBJECT_FREE 0 capacity
                             owner 0 s NULL 0 NULL);
  let user := vl_object_user_from_header header in
  _ ← store_link user (sp_central_free span);
  upd_span s (set_sp_central_free user).

Fixpoint span_init_objects (n : nat) (s objects capacity owner index : Z) : M unit :=
  match n with
  | O => mret tt
  | S n =>
      _ ← span_init_object s objects capacity owner index;
      span_init_objects n s objects capacity owner (index + 1)
  end.

(** The pages [vl_span_create] asks for, the page of the [vl_span_t] included. *)
Definition span_object_pages (psize stride : Z) : Z :=
  let object_area := 64 * 1024 in
  let object_area := if object_area / 2 <? stride then w64 (stride * 2) else object_area in
  w64 (object_area + psize - 1) / psize.

(** [out] is the value of [*out] on entry; the result carries the one on exit. *)
Definition vl_span_create (me class_index out : Z) : M (vl_status * Z) :=
  if negb (out =? NULL) || (VL_SIZE_CLASS_COUNT <=? class_index)
  then mret (VL_ERROR_INVALID_ARGUMENT, out) else
  let capacity := vl_size_class_capacity class_index in
  let stride := vl_span_object_stride capacity in
  psize ← gets page_size;
  let object_pages := span_object_pages psize stride in
  if (object_pages =? 0) || (object_pages =? SIZE_MAX)
  then mret (VL_ERROR_INVALID_ARGUMENT, out) else
  let pages := w64 (object_pages + 1) in
  r ← vl_page_heap_acquire pages;
  let s := r.1 in
  let mapping_size := r.2 in
  if s =? NULL then mret (VL_ERROR_OUT_OF_MEMORY, out) else
  let owner := vl_memory_current_p me in
  let object_count := w64 (mapping_size - psize) / stride in
  _ ← store_span s (mk_span s mapping_size class_index capacity stride object_count
                      0 0 0 0 owner NULL NULL NULL);
  if object_count =? 0 then
    _ ← vl_page_heap_release s mapping_size;
    mret (VL_ERROR_SYSTEM, out)
  else
    _ ← span_init_objects (Z.to_nat object_count) s (s + psize) capacity owner 0;
    head ← gets all_spans;
    _ ← upd_span s (fun sp => set_sp_all_next head (set_sp_free_count (sp_object_count sp)
                               (set_sp_central_free_count (sp_object_count sp) sp)));
    _ ← modify (set_all_spans s);
    _ ← vl_span_insert_central s;
    mret (VL_OK, s).

Definition vl_span_take_central (s : Z) : M Z :=
  if s =? NULL then mret NULL else
  span ← load_span s;
  if sp_central_free span =? NULL then mret NULL else
  let user := sp_central_free span in
  next ← load_link user;
  _ ← upd_span s (fun sp => set_sp_cached_count (w64 (sp_cached_count sp + 1))
                   (set_sp_central_free_count (w64 (sp_central_free_count sp - 1))
                   (set_sp_central_free next sp)));
  mret user.

Definition vl_span_move_to_central (s user : Z) : M unit :=
  if (s =? NULL) || (user =? NULL) then mret tt else
  span ← load_span s;
  _ ← store_link user (sp_central_free span);
  upd_span s (fun sp =>
    let sp := set_sp_central_free_count (w64 (sp_central_free_count sp + 1))
                (set_sp_central_free user sp) in
    if 0 <? sp_cached_count sp then set_sp_cached_count (w64 (sp_cached_count sp - 1)) sp else sp).

(** [while ( *cursor != NULL && *cursor != target) cursor = &( *cursor)->next;]: the
    loop by which an element is looked up in each of the allocator's three lists of
    structures. *)
Fixpoint find_cursor (load : option Z -> M Z) (fuel : nat) (target : Z) (cursor : option Z)
    : M (option Z) :=
  match fuel with
  | O => ub
  | S fuel =>
      cur ← load cursor;
      if negb (cur =? NULL) && negb (cur =? target)
      then find_cursor load fuel target (Some cur) else mret cursor
  end.

(** [vl_span_t **cursor]: the head of a list ([None]) or the link of a span. *)
Definition load_central_cursor (c : Z) (cursor : option Z) : M Z :=
  match cursor with
  | None => central_at c
  | Some s => span ← load_span s; mret (sp_central_next span)
  end.

Definition store_central_cursor (c : Z) (cursor : option Z) (v : Z) : M unit :=
  match cursor with
  | None => store_central c v
  | Some s => upd_span s (set_sp_central_next v)
  end.

Definition vl_span_remove_from_central (s : Z) : M unit :=
  span ← load_span s;
  let c := sp_class_index span in
  fuel ← gets span_fuel;
  cursor ← find_cursor (load_central_cursor c) fuel s None;
  cur ← load_central_cursor c cursor;
  if cur =? s then store_central_cursor c cursor (sp_central_next span) else mret tt.

Definition load_all_cursor (cursor : option Z) : M Z :=
  match cursor with
  | None => gets all_spans
  | Some s => span ← load_span s; mret (sp_all_next span)
  end.

Definition store_all_cursor (cursor : option Z) (v : Z) : M unit :=
  match cursor with
  | None => modify (set_all_spans v)
  | Some s => upd_span s (set_sp_all_next v)
  end.

Definition vl_span_remove_from_all (s : Z) : M unit :=
  fuel ← gets span_fuel;
  cursor ← find_cursor load_all_cursor fuel s None;
  cur ← load_all_cursor cursor;
  if cur =? s then span ← load_span s; store_all_cursor cursor (sp_all_next span) else mret tt.

Definition vl_span_reclaim_if_empty (s : Z) : M bool :=
  if s =? NULL then mret false else
  span ← load_span s;
  if negb (sp_active_count span =? 0) || negb (sp_cached_count span =? 0) ||
     negb (sp_central_free_count span =? sp_object_count span)
  then mret false else
  let mapping_base := sp_mapping_base span in
  let mapping_size := sp_mapping_size span in
  _ ← vl_span_remove_from_central s;
  _ ← vl_span_remove_from_all s;
  _ ← vl_page_heap_release mapping_base mapping_size;
  mret true.

Record vl_memory_class_stats := mk_class_stats {
  span_count : Z;
  object_count : Z;
  active_objects_in_class : Z;
  free_objects : Z }.

Definition zero_class_stats : vl_memory_class_stats := mk_class_stats 0 0 0 0.

Fixpoint class_stats_from (fuel : nat) (class_index s : Z) (out : vl_memory_class_stats)
    : M vl_memory_class_stats :=
  match fuel with
  | O => ub
  | S fuel =>
      if s =? NULL then mret out else
      span ← load_span s;
      let out :=
        if sp_class_index span =? class_index
        then mk_class_stats (w64 (span_count out + 1)) (w64 (object_count out + sp_object_count span))
               (w64 (active_objects_in_class out + sp_active_count span))
               (w64 (free_objects out + sp_free_count span))
        else out in
      class_stats_from fuel class_index (sp_all_next span) out
  end.

Definition vl_span_class_stats (class_index : Z) : M vl_memory_class_stats :=
  if VL_SIZE_CLASS_COUNT <=? class_index then mret zero_class_stats else
  fuel ← gets span_fuel;
  s ← gets all_spans;
  class_stats_from fuel class_index s zero_class_stats.
End span.
