(* ===== verification/Valloc.v ===== *)
(** * The allocator front end (src/memory/valloc.c)

    [vl_malloc], [vl_free], [vl_calloc] and [vl_realloc] over the per-P caches, the
    remote-free lists, the spans and the large mappings.  [me] is the calling
    thread's [vl_memory_p_index].  Everything between [vl_memory_lock] and
    [vl_memory_unlock] is one step of the global state. *)

From S2P Require Import Prelude SizeClass PageHeap Span.
From stdpp Require Import options.

Open Scope Z_scope.

(** [caches] ([false]) and [remote] ([true]) of one P and one class. *)
Definition cache_at (is_remote : bool) (p c : Z) : M vl_cache := deref (fun m =>
  if decide (0 <= p < VL_MEMORY_MAX_P /\ 0 <= c < VL_SIZE_CLASS_COUNT)
  then Some (default (mk_cache NULL 0) ((if is_remote then remote m else caches m) !! (p, c)))
  else None).

Definition store_cache (is_remote : bool) (p c : Z) (v : vl_cache) : M unit := fun m =>
  if decide (0 <= p < VL_MEMORY_MAX_P /\ 0 <= c < VL_SIZE_CLASS_COUNT)
  then Some (tt, if is_remote then set_remote (<[(p, c) := v]> (remote m)) m
                 else set_caches (<[(p, c) := v]> (caches m)) m)
  else None.

(** [*(void ** )user = cache->head; cache->head = user; ++cache->count;] *)
Definition list_push (is_remote : bool) (p c user : Z) : M unit :=
  cache ← cache_at is_remote p c;
  _ ← store_link user (ca_head cache);
  store_cache is_remote p c (mk_cache user (w64 (ca_count cache + 1))).

(** [user = cache->head; cache->head = *(void ** )user; --cache->count;] *)
Definition list_pop (is_remote : bool) (p c : Z) : M Z :=
  cache ← cache_at is_remote p c;
  let user := ca_head cache in
  next ← load_link user;
  _ ← store_cache is_remote p c (mk_cache next (w64 (ca_count cache - 1)));
  mret user.

Section valloc.
Context `{os_memory}.

Definition vl_memory_is_owner (m : vl_memory) : bool := initialized m.

(** [memset(&vl_memory_global, 0, ...)]: the address space is untouched. *)
Definition clear_globals (m : vl_memory) : vl_memory :=
  mk_memory false 0 (mk_allocator_stats 0 0 0 0 0 0 0) ∅ ∅ ∅ NULL NULL
    (mappings m) (calls m) (m_spans m) (m_headers m) (m_links m) (m_blocks m) (m_bytes m).

Definition vl_allocator_init : M vl_status := fun m =>
  if initialized m then Some (VL_OK, m) else
  if (sysconf_pagesize <=? 0) ||
     negb (Z.land (w64 sysconf_pagesize) (w64 (sysconf_pagesize - 1)) =? 0)
  then Some (VL_ERROR_SYSTEM, m)
  else Some (VL_OK, set_page_size (w64 sysconf_pagesize) (set_initialized true (clear_globals m))).

Definition vl_memory_ensure_initialized : M vl_status := fun m =>
  if initialized m then Some (if vl_memory_is_owner m then VL_OK else VL_ERROR_INVALID_STATE, m)
  else vl_allocator_init m.

(** The two loops of [vl_allocator_shutdown]. *)
Fixpoint shutdown_spans (fuel : nat) (s : Z) : M unit :=
  match fuel with
  | O => ub
  | S fuel =>
      if s =? NULL then mret tt else
      span ← load_span s;
      _ ← vl_page_heap_release (sp_mapping_base span) (sp_mapping_size span);
      shutdown_spans fuel (sp_all_next span)
  end.

Definition large_fuel (m : vl_memory) : nat := S (size (m_headers m)).

Fixpoint shutdown_large (fuel : nat) (h : Z) : M unit :=
  match fuel with
  | O => ub
  | S fuel =>
      if h =? NULL then mret tt else
      large ← load_header h;
      _ ← vl_page_heap_release (oh_mapping_base large) (oh_mapping_size large);
      shutdown_large fuel (oh_large_next large)
  end.

Definition vl_allocator_shutdown : M unit :=
  owner ← gets vl_memory_is_owner;
  if negb owner then mret tt else
  fuel ← gets span_fuel;
  s ← gets all_spans;
  _ ← shutdown_spans fuel s;
  fuel ← gets large_fuel;
  large ← gets large_allocations;
  _ ← shutdown_large fuel large;
  modify clear_globals.

Definition vl_stats_can_allocate (size : Z) (m : vl_memory) : bool :=
  (active_bytes (mem_stats m) <=? SIZE_MAX - size) && negb (active_objects (mem_stats m) =? SIZE_MAX).

Definition vl_allocator_get_stats (m : vl_memory) : vl_allocator_stats :=
  if negb (initialized m) then mk_allocator_stats 0 0 0 0 0 0 0 else mem_stats m.

Fixpoint find_refill_from (fuel : nat) (s : Z) : M Z :=
  match fuel with
  | O => ub
  | S fuel =>
      if s =? NULL then mret NULL else
      span ← load_span s;
      if negb (sp_central_free span =? NULL) then mret s
      else find_refill_from fuel (sp_central_next span)
  end.

Definition vl_find_refill_span (class_index : Z) : M Z :=
  head ← central_at class_index;
  fuel ← gets span_fuel;
  find_refill_from fuel head.

(** [while (remote->head != NULL && count < VL_CACHE_REFILL)]; returns [count]. *)
Fixpoint refill_remote (fuel : nat) (p c count : Z) : M Z :=
  match fuel with
  | O => ub
  | S fuel =>
      rem ← cache_at true p c;
      if negb (ca_head rem =? NULL) && (count <? VL_CACHE_REFILL) then
        user ← list_pop true p c;
        _ ← list_push false p c user;
        refill_remote fuel p c (count + 1)
      else mret count
  end.

(** [while (count < VL_CACHE_REFILL && span->central_free != NULL)] *)
Fixpoint refill_central (fuel : nat) (p c s count : Z) : M Z :=
  match fuel with
  | O => ub
  | S fuel =>
      span ← load_span s;
      if (count <? VL_CACHE_REFILL) && negb (sp_central_free span =? NULL) then
        user ← vl_span_take_central s;
        _ ← list_push false p c user;
        refill_central fuel p c s (count + 1)
      else mret count
  end.

(** Both loops stop after [VL_CACHE_REFILL] iterations. *)
Definition REFILL_FUEL : nat := 33.

Definition count_refill (count : Z) : M vl_status :=
  _ ← (if negb (count =? 0)
       then modify (upd_stats (fun st => set_central_refills (w64 (central_refills st + 1)) st))
       else mret tt);
  mret (if negb (count =? 0) then VL_OK else VL_ERROR_OUT_OF_MEMORY).

Definition vl_refill_cache (me class_index : Z) : M vl_status :=
  let p := vl_memory_current_p me in
  span ← vl_find_refill_span class_index;
  count ← refill_remote REFILL_FUEL p class_index 0;
  if count =? VL_CACHE_REFILL then mret VL_OK else
  created ← (if span =? NULL then vl_span_create me class_index span else mret (VL_OK, span));
  if decide (created.1 <> VL_OK) then mret VL_ERROR_OUT_OF_MEMORY else
  count ← refill_central REFILL_FUEL p class_index created.2 count;
  count_refill count.

(** The part of [vl_cache_pop] after the refill. *)
Definition cache_take (p class_index : Z) : M Z :=
  user ← list_pop false p class_index;
  header ← load_header (vl_object_header_from_user user);
  _ ← upd_span (oh_span header) (fun sp =>
        set_sp_active_count (w64 (sp_active_count sp + 1))
        (set_sp_free_count (w64 (sp_free_count sp - 1))
        (set_sp_cached_count (w64 (sp_cached_count sp - 1)) sp)));
  mret user.

Definition vl_cache_pop (me class_index : Z) : M Z :=
  let p := vl_memory_current_p me in
  cache ← cache_at false p class_index;
  status ← (if ca_head cache =? NULL then vl_refill_cache me class_index else mret VL_OK);
  if decide (status <> VL_OK) then mret NULL else cache_take p class_index.

Fixpoint drain_cache (fuel : nat) (p c count : Z) : M unit :=
  match fuel with
  | O => ub
  | S fuel =>
      cache ← cache_at false p c;
      if (count <? VL_CACHE_REFILL) && negb (ca_head cache =? NULL) then
        header ← load_header (vl_object_header_from_user (ca_head cache));
        user ← list_pop false p c;
        _ ← vl_span_move_to_central (oh_span header) user;
        _ ← vl_span_reclaim_if_empty (oh_span header);
        drain_cache fuel p c (count + 1)
      else mret tt
  end.

Definition vl_drain_cache (me class_index : Z) : M unit :=
  drain_cache REFILL_FUEL (vl_memory_current_p me) class_index 0.

Definition vl_cache_push (me : Z) (header user : Z) : M unit :=
  let current_p := vl_memory_current_p me in
  h ← load_header header;
  let owner_p := if oh_owner_p h <? VL_MEMORY_MAX_P then oh_owner_p h else 0 in
  span ← load_span (oh_span h);
  let c := sp_class_index span in
  let is_remote := negb (current_p =? owner_p) in
  _ ← (if is_remote
       then modify (upd_stats (fun st => set_cross_p_frees (w64 (cross_p_frees st + 1)) st))
       else mret tt);
  _ ← list_push is_remote owner_p c user;
  _ ← upd_span (oh_span h) (fun sp =>
        set_sp_active_count (w64 (sp_active_count sp - 1))
        (set_sp_free_count (w64 (sp_free_count sp + 1))
        (set_sp_cached_count (w64 (sp_cached_count sp + 1)) sp)));
  cache ← cache_at is_remote owner_p c;
  if VL_CACHE_MAX <? ca_count cache then vl_drain_cache me c else mret tt.

Definition vl_initialize_header (me h kind capacity requested s mapping_base mapping_size : Z) : M unit :=
  owner ← (if negb (s =? NULL) then span ← load_span s; mret (sp_owner_p span)
           else mret (vl_memory_current_p me));
  store_header h (mk_header VL_OBJECT_MAGIC kind VL_OBJECT_ALLOCATED requested capacity owner 0 s
                    mapping_base mapping_size NULL).

Definition vl_large_insert (h : Z) : M unit :=
  head ← gets large_allocations;
  header ← load_header h;
  _ ← store_header h (set_oh_large_next head header);
  modify (set_large_allocations h).

Definition load_large_cursor (cursor : option Z) : M Z :=
  match cursor with
  | None => gets large_allocations
  | Some h => header ← load_header h; mret (oh_large_next header)
  end.

Definition vl_large_remove (h : Z) : M unit :=
  fuel ← gets large_fuel;
  cursor ← find_cursor load_large_cursor fuel h None;
  cur ← load_large_cursor cursor;
  if cur =? h then
    header ← load_header h;
    match cursor with
    | None => modify (set_large_allocations (oh_large_next header))
    | Some prev => pre ← load_header prev; store_header prev (set_oh_large_next (oh_large_next header) pre)
    end
  else mret tt.

(** [stats.active_bytes += size; ++stats.active_objects;] *)
Definition count_allocated (size : Z) : M unit :=
  modify (upd_stats (fun st => set_active_objects (w64 (active_objects st + 1))
                                (set_active_bytes (w64 (active_bytes st + size)) st))).

Definition vl_malloc_large (me size : Z) : M Z :=
  psize ← gets page_size;
  if SIZE_MAX - HEADER <? size then mret NULL else
  let bytes := w64 (HEADER + size) in
  if SIZE_MAX - (psize - 1) <? bytes then mret NULL else
  let pages := w64 (bytes + psize - 1) / psize in
  if pages =? 0 then mret NULL else
  r ← vl_page_heap_acquire pages;
  let mapping := r.1 in
  if mapping =? NULL then mret NULL else
  let header := mapping in
  _ ← vl_initialize_header me header VL_OBJECT_LARGE size size NULL mapping r.2;
  h ← load_header header;
  _ ← store_header header (set_oh_owner_p (vl_memory_current_p me) h);
  _ ← vl_large_insert header;
  _ ← count_allocated size;
  mret (vl_object_user_from_header header).

(** The part of [vl_malloc] after [vl_cache_pop]. *)
Definition malloc_finish (me class_index size user : Z) : M Z :=
  if user =? NULL then mret NULL else
  header ← load_header (vl_object_header_from_user user);
  let capacity := vl_size_class_capacity class_index in
  _ ← vl_initialize_header me (vl_object_header_from_user user) VL_OBJECT_SMALL capacity size
        (oh_span header) NULL 0;
  _ ← count_allocated size;
  mret user.

Definition vl_malloc_small (me class_index size : Z) : M Z :=
  let p := vl_memory_current_p me in
  cache ← cache_at false p class_index;
  rem ← cache_at true p class_index;
  _ ← (if negb (ca_head cache =? NULL) || negb (ca_head rem =? NULL)
       then modify (upd_stats (fun st => set_cache_hits (w64 (cache_hits st + 1)) st))
       else mret tt);
  user ← vl_cache_pop me class_index;
  malloc_finish me class_index size user.

Definition vl_malloc (me size : Z) : M Z :=
  let size := if size =? 0 then 1 else size in
  status ← vl_memory_ensure_initialized;
  if decide (status <> VL_OK) then mret NULL else
  can ← gets (vl_stats_can_allocate size);
  if negb can then mret NULL else
  class_index ← deref (fun _ => vl_size_class_index size);
  if VL_SIZE_CLASS_COUNT <=? class_index then vl_malloc_large me size
  else vl_malloc_small me class_index size.

(** The part of [vl_free] after its checks. *)
Definition free_object (me header ptr : Z) (h : vl_object_header) : M unit :=
  let requested := oh_requested_size h in
  _ ← store_header header (set_oh_state VL_OBJECT_FREE h);
  _ ← modify (upd_stats (fun st => set_active_objects (w64 (active_objects st - 1))
                                    (set_active_bytes (w64 (active_bytes st - requested)) st)));
  if oh_kind h =? VL_OBJECT_LARGE then
    _ ← vl_large_remove header;
    vl_page_heap_release (oh_mapping_base h) (oh_mapping_size h)
  else vl_cache_push me header ptr.

Definition vl_free (me ptr : Z) : M unit :=
  if ptr =? NULL then mret tt else
  owner ← gets vl_memory_is_owner;
  if negb owner then mret tt else
  let header := vl_object_header_from_user ptr in
  h ← load_header header;
  if negb (oh_magic h =? VL_OBJECT_MAGIC) || negb (oh_state h =? VL_OBJECT_ALLOCATED)
  then mret tt else
  st ← gets mem_stats;
  if (active_objects st =? 0) || (active_bytes st <? oh_requested_size h) then mret tt else
  free_object me header ptr h.

(** Bytes of user memory: [memset(ptr, 0, n)] and [memcpy(dst, src, n)]; the
    latter leaves a byte unknown where the source is. *)
Definition byte_range (base n : Z) : list Z := (fun i => base + i) <$> seqZ 0 n.

Definition mem_set (ptr n : Z) : M unit := fun m =>
  if decide (mapped m ptr n)
  then Some (tt, set_m_bytes (foldr (fun a b => <[a := 0]> b) (m_bytes m) (byte_range ptr n)) m)
  else None.

Definition mem_cpy (dst src n : Z) : M unit := fun m =>
  if decide (mapped m dst n /\ mapped m src n)
  then Some (tt, set_m_bytes (foldr (fun i b => partial_alter (fun _ => m_bytes m !! (src + i)) (dst + i) b)
                                (m_bytes m) (seqZ 0 n)) m)
  else None.

Definition vl_calloc (me count size : Z) : M Z :=
  if negb (count =? 0) && (SIZE_MAX / count <? size) then mret NULL else
  ptr ← vl_malloc me (w64 (count * size));
  if negb (ptr =? NULL) then _ ← mem_set ptr (w64 (count * size)); mret ptr else mret ptr.

Definition realloc_in_place (header ptr size : Z) (h : vl_object_header) : M Z :=
  st ← gets mem_stats;
  if active_bytes st <? oh_requested_size h then mret NULL else
  let retained_bytes := w64 (active_bytes st - oh_requested_size h) in
  if SIZE_MAX - size <? retained_bytes then mret NULL else
  _ ← store_header header (set_oh_requested_size size h);
  _ ← modify (upd_stats (set_active_bytes (w64 (retained_bytes + size))));
  mret ptr.

Definition vl_realloc (me ptr size : Z) : M Z :=
  if ptr =? NULL then vl_malloc me size else
  if size =? 0 then _ ← vl_free me ptr; mret NULL else
  owner ← gets vl_memory_is_owner;
  if negb owner then mret NULL else
  let header := vl_object_header_from_user ptr in
  h ← load_header header;
  if negb (oh_magic h =? VL_OBJECT_MAGIC) || negb (oh_state h =? VL_OBJECT_ALLOCATED)
  then mret NULL else
  if size <=? oh_capacity h then realloc_in_place header ptr size h else
  let copy_size := if oh_requested_size h <? size then oh_requested_size h else size in
  replacement ← vl_malloc me size;
  if replacement =? NULL then mret NULL else
  _ ← mem_cpy replacement ptr copy_size;
  _ ← vl_free me ptr;
  mret replacement.

Definition vl_memory_get_class_stats (index : Z) : M (vl_status * vl_memory_class_stats) :=
  if VL_SIZE_CLASS_COUNT <=? index then mret (VL_ERROR_INVALID_ARGUMENT, zero_class_stats) else
  status ← vl_memory_ensure_initialized;
  if decide (status <> VL_OK) then mret (VL_ERROR_INVALID_STATE, zero_class_stats) else
  out ← vl_span_class_stats index;
  mret (VL_OK, out).
End valloc.
