(* ===== verification/VallocLists.v ===== *)
(** * Linked lists of the allocator

    What it means for memory to hold a singly linked list, how a push, a pop and the
    cursor loop act on it, and the free lists as a family of disjoint lists: the
    central list of every span, the cache and the remote list of every P and class. *)

From S2P Require Import Prelude SizeClass PageHeap Span Valloc.
From stdpp Require Import options.

Open Scope Z_scope.

(** [l] is the list that starts at [h] and follows [nxt]. *)
Fixpoint chain (nxt : Z -> option Z) (h : Z) (l : list Z) : Prop :=
  match l with
  | [] => h = NULL
  | u :: l => h = u /\ u <> NULL /\ exists n, nxt u = Some n /\ chain nxt n l
  end.

Lemma list_chain_frame nxt nxt' h l : chain nxt h l -> (forall u, u ∈ l -> nxt' u = nxt u) -> chain nxt' h l.
Proof.
  revert h. induction l as [|u l IH]; intros h; [done|]. intros (-> & Hu & n & Hn & Hl) Hf.
  split; [done|]. split; [done|]. exists n. split; [by rewrite Hf by left|].
  apply IH; [done|]. intros v Hv. apply Hf. by right.
Qed.

Lemma chain_nil nxt h l : chain nxt h l -> h = NULL <-> l = [].
Proof. destruct l as [|u l]; cbn; [naive_solver|]. intros (-> & Hu & _). split; done. Qed.

Lemma chain_cons_inv nxt h l : chain nxt h l -> h <> NULL ->
  exists l' n, l = h :: l' /\ nxt h = Some n /\ chain nxt n l'.
Proof. destruct l as [|u l]; cbn; [done|]. intros (-> & _ & n & Hn & Hl) _. eauto. Qed.

Lemma chain_dom nxt h l u : chain nxt h l -> u ∈ l -> u <> NULL /\ is_Some (nxt u).
Proof.
  revert h. induction l as [|v l IH]; intros h; [by intros _ ?%not_elem_of_nil|].
  intros (-> & Hv & n & Hn & Hl) [->|Hu]%elem_of_cons; [by rewrite Hn|eauto].
Qed.

(** A list without repetitions inside a finite domain is not longer than it. *)
Lemma NoDup_length_dom {A} (d : gmap Z A) l : NoDup l -> (forall u, u ∈ l -> is_Some (d !! u)) ->
  (length l <= size d)%nat.
Proof.
  intros Hnd Hl. rewrite <- size_dom.
  rewrite <- (size_list_to_set (C := gset Z) l) by done.
  apply subseteq_size. intros u Hu%elem_of_list_to_set. by apply elem_of_dom, Hl.
Qed.

(** The last element of the prefix walked, or where the walk began. *)
Definition cursor_after (start : option Z) (l : list Z) : option Z :=
  match list.last l with Some a => Some a | None => start end.

Lemma cursor_after_cons start a l : cursor_after start (a :: l) = cursor_after (Some a) l.
Proof. unfold cursor_after. destruct l as [|b l]; [done|].
  change (list.last (a :: b :: l)) with (list.last (b :: l)).
  destruct (list.last (b :: l)) eqn:E; [done|]. by apply last_None in E.
Qed.

(** The cursor loop finds the cell that points to its target and writes nothing. *)
Lemma find_cursor_spec load nxt m target l1 : forall l2 h fuel start,
  (forall a, a ∈ l1 -> load (Some a) m = (n ← nxt a; Some (n, m))) ->
  load start m = Some (h, m) -> chain nxt h (l1 ++ target :: l2) -> target ∉ l1 ->
  (length l1 < fuel)%nat ->
  find_cursor load fuel target start m = Some (cursor_after start l1, m) /\
  load (cursor_after start l1) m = Some (target, m).
Proof.
  induction l1 as [|a l1 IH]; intros l2 h fuel start Hload Hs Hc Ht Hf;
    (destruct fuel as [|fuel]; [simpl in Hf; lia|]); cbn -[Z.eqb].
  - destruct Hc as (-> & Hn & _). rewrite (bind_Some _ _ _ _ _ Hs).
    rewrite Z.eqb_refl, andb_false_r. done.
  - destruct Hc as (-> & Hn & n & Hna & Hc). rewrite (bind_Some _ _ _ _ _ Hs).
    rewrite not_elem_of_cons in Ht. destruct Ht as [Hta Ht].
    destruct (Z.eqb_spec a NULL); [done|]. destruct (Z.eqb_spec a target); [congruence|].
    cbn [negb andb]. rewrite cursor_after_cons.
    apply (IH l2 n); [intros b Hb; apply Hload; by right| |done..|simpl in Hf; lia].
    rewrite Hload by left. by rewrite Hna.
Qed.

(** Removing an element by redirecting the cell that points to it. *)
Lemma chain_unlink nxt nxt' h h' l1 t l2 nt :
  chain nxt h (l1 ++ t :: l2) -> NoDup (l1 ++ t :: l2) -> nxt t = Some nt ->
  (l1 = [] -> h' = nt) -> (l1 <> [] -> h' = h) ->
  (forall u, u ∈ l1 ++ l2 -> nxt' u = if decide (Some u = list.last l1) then Some nt else nxt u) ->
  chain nxt' h' (l1 ++ l2).
Proof.
  revert h h'. induction l1 as [|a l1 IH]; intros h h' Hc Hnd Ht H1 H2 Hf; cbn in Hc.
  - destruct Hc as (-> & _ & n & Hn & Hc). rewrite Ht in Hn. simplify_eq. rewrite (H1 eq_refl).
    apply (list_chain_frame nxt); [done|]. intros u Hu. rewrite Hf by done. by case_decide.
  - destruct Hc as (-> & Ha & n & Hn & Hc). apply list.NoDup_cons in Hnd as [Hna Hnd].
    rewrite H2 by done. cbn. split; [done|]. split; [done|].
    destruct l1 as [|b l1].
    + exists nt. split; [rewrite Hf by left; by rewrite decide_True|].
      apply (IH n); [done..|]. intros u Hu. rewrite Hf by (by right).
      rewrite decide_False; [by rewrite decide_False by done|].
      intros [= ->]. apply Hna. set_solver.
    + exists n. split.
      { rewrite Hf by left. rewrite decide_False; [done|]. intros E. symmetry in E.
        change (list.last (a :: b :: l1)) with (list.last (b :: l1)) in E.
        apply last_Some_elem_of in E. apply Hna. set_solver. }
      apply (IH n); [done..|]. intros u Hu. rewrite Hf by (by right). done.
Qed.
