(* ===== verification/VallocInv.v ===== *)
(** * The allocator invariant

    [inv m live g]: the global state [m] is well formed, [live] is the set of blocks
    handed out (address to requested size), and the ghost [g] names the elements of
    every list and the place of every object. *)

From S2P Require Import Prelude SizeClass PageHeap Span Valloc VallocLists.
From stdpp Require Import options.

Open Scope Z_scope.

(** Where a free object is: on the central list of a span, or on the cache or
    remote list of a P for a class. *)
Inductive place :=
  | PCentral (s : Z)
  | PCache (is_remote : bool) (p c : Z).

#[export] Instance place_eq_dec : EqDecision place.
Proof. solve_decision. Defined.

Record ghost := mk_ghost {
  g_lst : place -> list Z;
  g_loc : Z -> option place;
  g_all : list Z;
  g_cent : Z -> list Z;
  g_large : list Z }.

Definition in_arrays (p c : Z) : Prop := 0 <= p < VL_MEMORY_MAX_P /\ 0 <= c < VL_SIZE_CLASS_COUNT.

Definition valid (all : list Z) (pl : place) : Prop :=
  match pl with PCentral s => s ∈ all | PCache _ p c => in_arrays p c end.

Definition cache_of (m : vl_memory) (r : bool) (p c : Z) : vl_cache :=
  default (mk_cache NULL 0) ((if r then remote m else caches m) !! (p, c)).

Definition place_head (m : vl_memory) (pl : place) : option Z :=
  match pl with
  | PCentral s => sp_central_free <$> m_spans m !! s
  | PCache r p c => Some (ca_head (cache_of m r p c))
  end.

Definition link_of (m : vl_memory) (u : Z) : option Z := m_links m !! u.
Definition all_next_of (m : vl_memory) (s : Z) : option Z := sp_all_next <$> m_spans m !! s.
Definition central_next_of (m : vl_memory) (s : Z) : option Z := sp_central_next <$> m_spans m !! s.
Definition large_next_of (m : vl_memory) (h : Z) : option Z := oh_large_next <$> m_headers m !! h.

(** ** The free lists *)

Record lists_ok (m : vl_memory) (all : list Z) (lst : place -> list Z) (loc : Z -> option place) : Prop := {
  lo_chain : forall pl, valid all pl ->
    exists h, place_head m pl = Some h /\ chain (link_of m) h (lst pl);
  lo_nodup : forall pl, NoDup (lst pl);
  lo_loc : forall pl u, u ∈ lst pl <-> loc u = Some pl;
  lo_valid : forall pl u, loc u = Some pl -> valid all pl }.

(** The length of every cache is its counter; a cache does not exceed its bound. *)
Definition counts_ok (m : vl_memory) (lst : place -> list Z) : Prop := forall r p c, in_arrays p c ->
  ca_count (cache_of m r p c) = Z.of_nat (length (lst (PCache r p c))).

Definition caches_bounded (m : vl_memory) : Prop := forall p c, in_arrays p c ->
  ca_count (cache_of m false p c) <= VL_CACHE_MAX.

(** ** Spans and their objects *)

Definition objs (psize s : Z) (sp : vl_span) : list Z :=
  (fun i => s + psize + i * sp_object_stride sp + HEADER) <$> seqZ 0 (sp_object_count sp).

Record span_static (m : vl_memory) (s : Z) (sp : vl_span) : Prop := {
  ss_base : sp_mapping_base sp = s;
  ss_map : mappings m !! s = Some (sp_mapping_size sp);
  ss_class : 0 <= sp_class_index sp < VL_SIZE_CLASS_COUNT;
  ss_cap : sp_capacity sp = vl_size_class_capacity (sp_class_index sp);
  ss_stride : sp_object_stride sp = vl_span_object_stride (sp_capacity sp);
  ss_count : 0 < sp_object_count sp;
  ss_fits : page_size m + sp_object_count sp * sp_object_stride sp <= sp_mapping_size sp;
  ss_owner : 0 <= sp_owner_p sp < VL_MEMORY_MAX_P }.

Definition is_central (o : option place) : bool := match o with Some (PCentral _) => true | _ => false end.
Definition is_cached (o : option place) : bool := match o with Some (PCache _ _ _) => true | _ => false end.
Definition is_active (o : option place) : bool := match o with None => true | _ => false end.

Definition tally (P : Z -> bool) (l : list Z) : Z := foldr (fun u t => Z.b2z (P u) + t) 0 l.

Record span_counts (loc : Z -> option place) (l : list Z) (sp : vl_span) : Prop := {
  sc_central : sp_central_free_count sp = tally (fun u => is_central (loc u)) l;
  sc_cached : sp_cached_count sp = tally (fun u => is_cached (loc u)) l;
  sc_active : sp_active_count sp = tally (fun u => is_active (loc u)) l;
  sc_free : sp_free_count sp = sp_central_free_count sp + sp_cached_count sp }.

Definition object_state (o : option place) : Z :=
  if is_active o then VL_OBJECT_ALLOCATED else VL_OBJECT_FREE.

Record header_ok (loc : Z -> option place) (s : Z) (sp : vl_span) (u : Z) (hd : vl_object_header) : Prop := {
  ko_magic : oh_magic hd = VL_OBJECT_MAGIC;
  ko_kind : oh_kind hd = VL_OBJECT_SMALL;
  ko_state : oh_state hd = object_state (loc u);
  ko_cap : oh_capacity hd = sp_capacity sp;
  ko_owner : oh_owner_p hd = sp_owner_p sp;
  ko_span : oh_span hd = s }.

(** [u] may be at [pl]: a central list holds its own span's objects, a cache those of
    its class. *)
Definition place_fits (s : Z) (sp : vl_span) (o : option place) : Prop :=
  match o with
  | None => True
  | Some (PCentral s') => s' = s
  | Some (PCache _ _ c) => c = sp_class_index sp
  end.

(** [u] is an object of the live span [s]. *)
Definition object_in (m : vl_memory) (all : list Z) (u s : Z) (sp : vl_span) : Prop :=
  s ∈ all /\ m_spans m !! s = Some sp /\ u ∈ objs (page_size m) s sp.

Record spans_ok (m : vl_memory) (g : ghost) : Prop := {
  so_all : chain (all_next_of m) (all_spans m) (g_all g);
  so_nodup : NoDup (g_all g);
  so_cent : forall c, 0 <= c < VL_SIZE_CLASS_COUNT ->
    chain (central_next_of m) (default NULL (central m !! c)) (g_cent g c) /\ NoDup (g_cent g c);
  so_cent_in : forall c s, s ∈ g_cent g c <-> s ∈ g_all g /\ exists sp, m_spans m !! s = Some sp /\ sp_class_index sp = c;
  so_static : forall s sp, s ∈ g_all g -> m_spans m !! s = Some sp -> span_static m s sp }.

Record objects_ok (m : vl_memory) (g : ghost) : Prop := {
  oo_counts : forall s sp, s ∈ g_all g -> m_spans m !! s = Some sp ->
    span_counts (g_loc g) (objs (page_size m) s sp) sp;
  oo_header : forall u s sp, object_in m (g_all g) u s sp ->
    exists hd, m_headers m !! (u - HEADER) = Some hd /\ header_ok (g_loc g) s sp u hd;
  oo_fits : forall u s sp, object_in m (g_all g) u s sp -> place_fits s sp (g_loc g u);
  oo_loc : forall u pl, g_loc g u = Some pl -> exists s sp, object_in m (g_all g) u s sp }.

(** ** Large allocations and the live blocks *)

Record large_header (m : vl_memory) (h : Z) (hd : vl_object_header) : Prop := {
  lh_magic : oh_magic hd = VL_OBJECT_MAGIC;
  lh_kind : oh_kind hd = VL_OBJECT_LARGE;
  lh_state : oh_state hd = VL_OBJECT_ALLOCATED;
  lh_base : oh_mapping_base hd = h;
  lh_map : mappings m !! h = Some (oh_mapping_size hd);
  lh_fits : HEADER + oh_capacity hd <= oh_mapping_size hd }.

Record large_ok (m : vl_memory) (g : ghost) : Prop := {
  la_chain : chain (large_next_of m) (large_allocations m) (g_large g);
  la_nodup : NoDup (g_large g);
  la_header : forall h hd, h ∈ g_large g -> m_headers m !! h = Some hd -> large_header m h hd;
  la_disjoint : forall h, h ∈ g_large g -> h ∈ g_all g -> False }.

(** [u] is a block in use, with header [hd]. *)
Definition block (m : vl_memory) (g : ghost) (u : Z) (hd : vl_object_header) : Prop :=
  m_headers m !! (u - HEADER) = Some hd /\
  (u - HEADER ∈ g_large g \/
   exists s sp, object_in m (g_all g) u s sp /\ g_loc g u = None).

Definition live_total (live : gmap Z Z) : Z := map_fold (fun _ r t => r + t) 0 live.

Record live_ok (m : vl_memory) (live : gmap Z Z) (g : ghost) : Prop := {
  li_live : forall u r, live !! u = Some r <-> exists hd, block m g u hd /\ oh_requested_size hd = r;
  li_req : forall u hd, block m g u hd -> 0 < oh_requested_size hd <= oh_capacity hd;
  li_objects : active_objects (mem_stats m) = Z.of_nat (size live);
  li_bytes : active_bytes (mem_stats m) = live_total live;
  li_word : active_objects (mem_stats m) <= SIZE_MAX /\ active_bytes (mem_stats m) <= SIZE_MAX }.

Section inv.
Context `{os_memory}.

Record inv (m : vl_memory) (live : gmap Z Z) (g : ghost) : Prop := {
  iv_heap : heap_ok m;
  iv_spans : spans_ok m g;
  iv_lists : lists_ok m (g_all g) (g_lst g) (g_loc g);
  iv_counts : counts_ok m (g_lst g);
  iv_objects : objects_ok m g;
  iv_large : large_ok m g;
  iv_live : live_ok m live g }.

(** The allocator's contract with its callers. *)
Definition mem_rep (m : vl_memory) (live : gmap Z Z) : Prop := caches_bounded m /\ exists g, inv m live g.
End inv.

(** ** Tallies *)

Lemma tally_ext P Q l : (forall u, u ∈ l -> P u = Q u) -> tally P l = tally Q l.
Proof.
  induction l as [|u l IH]; intros Heq; [done|]. unfold tally in *. cbn [foldr].
  rewrite Heq, IH; [done| |left]. intros v Hv. apply Heq. by right.
Qed.

Lemma tally_bound P l : 0 <= tally P l <= Z.of_nat (length l).
Proof. unfold tally. induction l as [|u l IH]; cbn [foldr length]; [lia|]. destruct (P u); cbn [Z.b2z]; lia. Qed.

Lemma tally_update P Q l u : NoDup l -> u ∈ l -> (forall v, v ∈ l -> v <> u -> Q v = P v) ->
  tally Q l = tally P l - Z.b2z (P u) + Z.b2z (Q u).
Proof.
  induction l as [|v l IH]; intros Hnd Hu Heq; [by apply not_elem_of_nil in Hu|].
  apply list.NoDup_cons in Hnd as [Hv Hnd]. unfold tally. cbn [foldr]. fold (tally P l) (tally Q l).
  apply elem_of_cons in Hu as [->|Hu].
  - rewrite (tally_ext Q P l); [lia|]. intros w Hw. apply Heq; [by right|]. by intros ->.
  - rewrite (IH Hnd Hu) by (intros w Hw; apply Heq; by right).
    rewrite (Heq v) by (left || by intros ->). lia.
Qed.

Lemma tally_zero P l u : tally P l = 0 -> u ∈ l -> P u = false.
Proof.
  induction l as [|v l IH]; [by intros _ ?%not_elem_of_nil|]. unfold tally. cbn [foldr].
  fold (tally P l). pose proof (tally_bound P l). intros Ht [->|Hu]%elem_of_cons.
  - destruct (P v); cbn [Z.b2z] in *; [lia|done].
  - apply IH; [|done]. destruct (P v); cbn [Z.b2z] in *; lia.
Qed.

(** Central, cached and active objects make up the span. *)
Lemma span_partition loc l :
  tally (fun u => is_central (loc u)) l + tally (fun u => is_cached (loc u)) l +
  tally (fun u => is_active (loc u)) l = Z.of_nat (length l).
Proof.
  induction l as [|u l IH]; [done|]. unfold tally in *. cbn [foldr length].
  destruct (loc u) as [[]|]; cbn [is_central is_cached is_active Z.b2z]; lia.
Qed.

(** ** Geometry *)

Definition class_ok (c : Z) : bool :=
  let cap := vl_size_class_capacity c in
  let stride := vl_span_object_stride cap in
  (8 <=? cap) && (cap <=? 32768) && (HEADER + cap <=? stride) && (stride mod 16 =? 0) &&
  (stride <=? 32848).

Lemma class_table c : 0 <= c < VL_SIZE_CLASS_COUNT ->
  let cap := vl_size_class_capacity c in
  let stride := vl_span_object_stride cap in
  8 <= cap <= 32768 /\ HEADER + cap <= stride /\ stride mod 16 = 0 /\ stride <= 32848.
Proof.
  intros Hc. assert (Hall : forallb class_ok (seqZ 0 42) = true) by (vm_compute; reflexivity).
  rewrite forallb_forall in Hall. specialize (Hall c). cbv zeta. unfold class_ok in Hall.
  rewrite !andb_true_iff, !Z.leb_le, Z.eqb_eq in Hall.
  rewrite <- list_elem_of_In, elem_of_seqZ in Hall. unfold VL_SIZE_CLASS_COUNT in Hc.
  specialize (Hall ltac:(lia)). lia.
Qed.

Lemma elem_of_objs psize s sp u : u ∈ objs psize s sp <->
  exists i, 0 <= i < sp_object_count sp /\ u = s + psize + i * sp_object_stride sp + HEADER.
Proof.
  unfold objs. rewrite list_elem_of_fmap. setoid_rewrite elem_of_seqZ. split.
  - intros (i & -> & Hi). exists i. split; [lia|done].
  - intros (i & Hi & ->). exists i. split; [done|lia].
Qed.

Section geometry.
#[local] Set Default Proof Using "Type*".
Context `{os_memory_laws}.

Lemma span_bounds m s sp : heap_ok m -> span_static m s sp ->
  HEADER + sp_capacity sp <= sp_object_stride sp /\ 8 <= sp_capacity sp /\
  sp_object_stride sp mod 16 = 0 /\ 0 < s /\ s mod page_size m = 0 /\
  s + sp_mapping_size sp <= 2 ^ 56 /\ 4096 <= page_size m.
Proof.
  intros Hok Hss. pose proof (class_table _ (ss_class _ _ _ Hss)) as Hc. cbv zeta in Hc.
  rewrite <- (ss_cap _ _ _ Hss), <- (ss_stride _ _ _ Hss) in Hc.
  pose proof (ho_maps m Hok _ _ (ss_map _ _ _ Hss)). pose proof page_bounds.
  rewrite (ho_page m Hok) in *. lia.
Qed.

Lemma object_bounds m s sp u : heap_ok m -> span_static m s sp -> u ∈ objs (page_size m) s sp ->
  s + page_size m <= u - HEADER /\ u + sp_capacity sp <= s + sp_mapping_size sp.
Proof.
  intros Hok Hss (i & Hi & ->)%elem_of_objs.
  pose proof (span_bounds m s sp Hok Hss). pose proof (ss_fits _ _ _ Hss). unfold HEADER in *. nia.
Qed.

Lemma object_aligned m s sp u : heap_ok m -> span_static m s sp -> u ∈ objs (page_size m) s sp ->
  u mod VL_MEMORY_ALIGNMENT = 0.
Proof.
  intros Hok Hss (i & Hi & ->)%elem_of_objs.
  pose proof (span_bounds m s sp Hok Hss) as (_ & _ & Hst & _ & Hs & _ & Hpz).
  pose proof page_bounds as [_ Hp]. rewrite <- (ho_page m Hok) in Hp.
  apply Z.mod_divide in Hst, Hs, Hp; [|lia..].
  assert (Hs16 : (16 | s)) by (by transitivity (page_size m)).
  apply Z.mod_divide; [done|]. unfold HEADER, VL_MEMORY_ALIGNMENT.
  repeat apply Z.divide_add_r; [done..|by apply Z.divide_mul_r|by exists 5].
Qed.

(** Two objects of a span do not overlap, headers included. *)
Lemma objects_apart m s sp u v : heap_ok m -> span_static m s sp ->
  u ∈ objs (page_size m) s sp -> v ∈ objs (page_size m) s sp -> u <> v ->
  disjoint_range (u - HEADER) (HEADER + sp_capacity sp) (v - HEADER) (HEADER + sp_capacity sp).
Proof.
  intros Hok Hss (i & Hi & ->)%elem_of_objs (j & Hj & ->)%elem_of_objs Hne.
  pose proof (span_bounds m s sp Hok Hss). unfold disjoint_range.
  destruct (Z.lt_trichotomy i j) as [|[->|]]; [|done|]; unfold HEADER in *; [left|right]; nia.
Qed.

Lemma objs_nodup m s sp : heap_ok m -> span_static m s sp -> NoDup (objs (page_size m) s sp).
Proof.
  intros Hok Hss. pose proof (span_bounds m s sp Hok Hss). unfold objs.
  apply NoDup_fmap_2_strong; [|apply NoDup_seqZ]. unfold HEADER in *. intros i j _ _ Heq. nia.
Qed.

(** An object belongs to one live span. *)
Lemma object_in_unique m g u s sp s' sp' : heap_ok m -> spans_ok m g ->
  object_in m (g_all g) u s sp -> object_in m (g_all g) u s' sp' -> s = s' /\ sp = sp'.
Proof.
  intros Hok Hso (Hs & Hsp & Hu) (Hs' & Hsp' & Hu').
  pose proof (so_static m g Hso s sp Hs Hsp) as Hss. pose proof (so_static m g Hso s' sp' Hs' Hsp') as Hss'.
  pose proof (object_bounds m s sp u Hok Hss Hu). pose proof (object_bounds m s' sp' u Hok Hss' Hu').
  pose proof (span_bounds m s sp Hok Hss). pose proof (span_bounds m s' sp' Hok Hss').
  destruct (decide (s = s')) as [->|Hne]; [split; congruence|].
  pose proof (ho_disjoint m Hok _ _ _ _ (ss_map _ _ _ Hss) (ss_map _ _ _ Hss') Hne).
  unfold disjoint_range, HEADER in *. lia.
Qed.

(** A live block lies in a mapping of its own kind. *)
Lemma block_range m live g u hd : inv m live g -> block m g u hd ->
  exists b k, mappings m !! b = Some k /\ b <= u - HEADER /\ u + oh_capacity hd <= b + k /\
    u mod VL_MEMORY_ALIGNMENT = 0 /\ oh_magic hd = VL_OBJECT_MAGIC /\ oh_state hd = VL_OBJECT_ALLOCATED.
Proof.
  intros Hinv [Hhd [Hl|(s & sp & Hin & Hloc)]].
  - pose proof (la_header _ _ (iv_large _ _ _ Hinv) _ _ Hl Hhd) as Hlh.
    exists (u - HEADER), (oh_mapping_size hd). pose proof (lh_fits _ _ _ Hlh).
    pose proof (ho_maps m (iv_heap _ _ _ Hinv) _ _ (lh_map _ _ _ Hlh)) as (_ & Hal & _).
    split_and!; [apply Hlh|lia..| |apply Hlh|apply Hlh].
    pose proof page_bounds as [Hpz Hp]. rewrite <- (ho_page m (iv_heap _ _ _ Hinv)) in Hpz, Hp.
    unfold VL_MEMORY_ALIGNMENT. apply Z.mod_divide in Hal, Hp; [|lia..].
    apply Z.mod_divide; [done|]. replace u with ((u - HEADER) + 5 * 16) by (unfold HEADER; lia).
    apply Z.divide_add_r; [by transitivity (page_size m)|by exists 5].
  - pose proof Hin as (Hs & Hsp & Hu).
    pose proof (so_static _ _ (iv_spans _ _ _ Hinv) s sp Hs Hsp) as Hss.
    destruct (oo_header _ _ (iv_objects _ _ _ Hinv) u s sp Hin) as (hd' & Hhd' & Hk). simplify_eq.
    pose proof (object_bounds m s sp u (iv_heap _ _ _ Hinv) Hss Hu).
    pose proof page_bounds. rewrite (ho_page m (iv_heap _ _ _ Hinv)) in *.
    exists s, (sp_mapping_size sp). rewrite (ko_cap _ _ _ _ _ Hk). split_and!; [apply Hss|lia..| |apply Hk|].
    + rewrite <- (ho_page m (iv_heap _ _ _ Hinv)) in Hu.
      by apply (object_aligned m s sp u (iv_heap _ _ _ Hinv) Hss).
    + rewrite (ko_state _ _ _ _ _ Hk), Hloc. done.
Qed.
End geometry.
