(* ===== verification/VallocMove.v ===== *)
(** * Moving one object

    Every operation of the allocator moves objects one at a time between the user,
    the caches, the remote lists and the central lists.  [inv_move] is the frame
    argument for one such move; the lemmas after it give the state each piece of
    code computes for the moves it makes. *)

From S2P Require Import Prelude SizeClass PageHeap Span Valloc VallocLists VallocInv.
From stdpp Require Import options.

Open Scope Z_scope.

Definition move_lst (u : Z) (from to : option place) (lst : place -> list Z) : place -> list Z := fun pl =>
  if decide (to = Some pl) then u :: lst pl
  else if decide (from = Some pl) then tail (lst pl) else lst pl.

Definition upd_loc (u : Z) (to : option place) (loc : Z -> option place) : Z -> option place := fun v =>
  if decide (v = u) then to else loc v.

Definition move (u : Z) (from to : option place) (g : ghost) : ghost :=
  mk_ghost (move_lst u from to (g_lst g)) (upd_loc u to (g_loc g)) (g_all g) (g_cent g) (g_large g).

(** How the heads and links of [m'] differ from those of [m]. *)
Record lists_step (m m' : vl_memory) (all : list Z) (u : Z) (from to : option place) : Prop := {
  ls_links : forall v, v <> u -> link_of m' v = link_of m v;
  ls_head : forall pl, from = Some pl -> place_head m pl = Some u;
  ls_from : forall pl, from = Some pl -> place_head m' pl = link_of m u;
  ls_to : forall pl, to = Some pl -> place_head m' pl = Some u /\ link_of m' u = place_head m pl;
  ls_rest : forall pl, valid all pl -> from <> Some pl -> to <> Some pl ->
    place_head m' pl = place_head m pl }.

Lemma head_in_list m all lst loc pl u : lists_ok m all lst loc -> valid all pl ->
  place_head m pl = Some u -> u <> NULL ->
  exists l n, lst pl = u :: l /\ link_of m u = Some n /\ chain (link_of m) n l.
Proof.
  intros Hl Hv Hh Hu. destruct (lo_chain _ _ _ _ Hl pl Hv) as (h & Hh' & Hc). rewrite Hh in Hh'. simplify_eq.
  by apply chain_cons_inv in Hc.
Qed.

Lemma lists_move m m' all lst loc u from to :
  lists_ok m all lst loc -> loc u = from -> from <> to -> u <> NULL ->
  (forall pl, to = Some pl -> valid all pl) -> lists_step m m' all u from to ->
  lists_ok m' all (move_lst u from to lst) (upd_loc u to loc).
Proof.
  intros Hl Hloc Hne Hu Hto [Hlk Hhd Hfr Ht Hrest].
  assert (Hnotin : forall pl, from <> Some pl -> u ∉ lst pl).
  { intros pl Hpl Hin%(lo_loc _ _ _ _ Hl). congruence. }
  assert (Hsplit : forall pl, from = Some pl -> exists l n,
    lst pl = u :: l /\ u ∉ l /\ link_of m u = Some n /\ chain (link_of m) n l).
  { intros pl Hpl. assert (Hv : valid all pl) by (apply (lo_valid _ _ _ _ Hl pl u); congruence).
    destruct (head_in_list _ _ _ _ _ _ Hl Hv (Hhd pl Hpl) Hu) as (l & n & E & Hn & Hc).
    pose proof (lo_nodup _ _ _ _ Hl pl) as Hnd. rewrite E in Hnd. apply list.NoDup_cons in Hnd as [??].
    eauto 10. }
  assert (Hframe : forall l h, u ∉ l -> chain (link_of m) h l -> chain (link_of m') h l).
  { intros l h Hul Hc. apply (list_chain_frame _ _ _ _ Hc). intros v Hv. apply Hlk. by intros ->. }
  split.
  - intros pl Hv. unfold move_lst. destruct (decide (to = Some pl)) as [E|E].
    + destruct (Ht pl E) as [Hh Hn]. exists u. split; [done|].
      destruct (lo_chain _ _ _ _ Hl pl Hv) as (h & Hh' & Hc). cbn. split; [done|]. split; [done|].
      exists h. split; [congruence|]. apply Hframe; [|done]. apply Hnotin. congruence.
    + destruct (decide (from = Some pl)) as [E'|E'].
      * destruct (Hsplit pl E') as (l & n & El & Hul & Hn & Hc). exists n.
        rewrite (Hfr pl E'), El. split; [done|]. by apply Hframe.
      * destruct (lo_chain _ _ _ _ Hl pl Hv) as (h & Hh' & Hc). exists h.
        rewrite Hrest by done. split; [done|]. apply Hframe; [|done]. by apply Hnotin.
  - intros pl. unfold move_lst. pose proof (lo_nodup _ _ _ _ Hl pl) as Hnd.
    destruct (decide (to = Some pl)) as [E|E].
    + apply list.NoDup_cons. split; [|done]. apply Hnotin. congruence.
    + destruct (decide (from = Some pl)); [|done]. by destruct (lst pl); [|apply list.NoDup_cons in Hnd as []].
  - intros pl v. unfold move_lst, upd_loc. destruct (decide (to = Some pl)) as [E|E].
    + rewrite elem_of_cons, (lo_loc _ _ _ _ Hl). case_decide; naive_solver.
    + destruct (decide (from = Some pl)) as [E'|E'].
      * destruct (Hsplit pl E') as (l & n & El & Hul & _). rewrite El. cbn [tail].
        pose proof (lo_loc _ _ _ _ Hl pl v) as Hv. rewrite El, elem_of_cons in Hv.
        case_decide; naive_solver.
      * rewrite (lo_loc _ _ _ _ Hl). case_decide; naive_solver.
  - intros pl v. unfold upd_loc. case_decide; [naive_solver|]. apply (lo_valid _ _ _ _ Hl).
Qed.

(** ** The frame of a move *)

(** What no move changes. *)
Record globals_same (m m' : vl_memory) : Prop := {
  gs_init : initialized m' = initialized m;
  gs_page : page_size m' = page_size m;
  gs_maps : mappings m' = mappings m;
  gs_bytes : mapped_bytes (mem_stats m') = mapped_bytes (mem_stats m);
  gs_blocks : m_blocks m' = m_blocks m;
  gs_central : central m' = central m;
  gs_all : all_spans m' = all_spans m;
  gs_large : large_allocations m' = large_allocations m }.

Record same_static (sp sp' : vl_span) : Prop := {
  st_base : sp_mapping_base sp' = sp_mapping_base sp;
  st_size : sp_mapping_size sp' = sp_mapping_size sp;
  st_class : sp_class_index sp' = sp_class_index sp;
  st_cap : sp_capacity sp' = sp_capacity sp;
  st_stride : sp_object_stride sp' = sp_object_stride sp;
  st_count : sp_object_count sp' = sp_object_count sp;
  st_owner : sp_owner_p sp' = sp_owner_p sp;
  st_cnext : sp_central_next sp' = sp_central_next sp;
  st_anext : sp_all_next sp' = sp_all_next sp }.

(** States that differ only in the number of system calls, in the counters the
    invariant does not mention and in the contents of blocks. *)
Record same_store (m m' : vl_memory) : Prop := {
  sm_init : initialized m' = initialized m;
  sm_page : page_size m' = page_size m;
  sm_mapped : mapped_bytes (mem_stats m') = mapped_bytes (mem_stats m);
  sm_objects : active_objects (mem_stats m') = active_objects (mem_stats m);
  sm_bytes : active_bytes (mem_stats m') = active_bytes (mem_stats m);
  sm_caches : caches m' = caches m;
  sm_remote : remote m' = remote m;
  sm_central : central m' = central m;
  sm_all : all_spans m' = all_spans m;
  sm_large : large_allocations m' = large_allocations m;
  sm_maps : mappings m' = mappings m;
  sm_spans : m_spans m' = m_spans m;
  sm_headers : m_headers m' = m_headers m;
  sm_links : m_links m' = m_links m;
  sm_blocks : m_blocks m' = m_blocks m }.

Lemma alloc_inv_same `{os_memory} m m' live g : same_store m m' -> inv m live g -> inv m' live g.
Proof.
  destruct m as [i1 p1 s1 c1 r1 e1 a1 l1 q1 k1 n1 h1 u1 b1 y1].
  destruct m' as [i2 p2 s2 c2 r2 e2 a2 l2 q2 k2 n2 h2 u2 b2 y2].
  intros [Q1 Q2 Q3 Q4 Q5 Q6 Q7 Q8 Q9 Q10 Q11 Q12 Q13 Q14 Q15]; cbn in *; subst.
  set (m := mk_memory i1 _ _ _ _ _ _ _ _ _ _ _ _ _ _). set (m' := mk_memory i1 _ s2 _ _ _ _ _ _ _ _ _ _ _ _).
  assert (Hst : forall s sp, span_static m s sp -> span_static m' s sp) by (by intros s sp []; split).
  assert (Hlh : forall h hd, large_header m h hd -> large_header m' h hd) by (by intros h hd []; split).
  intros [[A1 A2 A3 A4 A5 A6 A7 A8 A9] [B1 B2 B3 B4 B5] [D1 D2 D3 D4] Hc [E1 E2 E3 E4] [F1 F2 F3 F4] [G1 G2 G3 G4 G5]].
  split.
  - split; try done. cbn in *. by rewrite Q3.
  - split; try done. intros s sp Hs Hsp. by apply Hst, B5.
  - by split.
  - exact Hc.
  - by split.
  - split; try done. intros h hd Hh Hhd. by apply Hlh, F3.
  - split; try done; cbn in *; [congruence|congruence|by rewrite Q4, Q5].
Qed.

Section move.
#[local] Set Default Proof Using "Type*".
Context `{os_memory_laws}.

(** [m'] differs from [m] only in the span [s], the header and link of [u], the
    heads of the lists and the statistics. *)
Record object_step (m m' : vl_memory) (u s : Z) (sp' : vl_span) (hd' : vl_object_header) : Prop := {
  os_globals : globals_same m m';
  os_spans : m_spans m' = <[s := sp']> (m_spans m);
  os_headers : m_headers m' = <[u - HEADER := hd']> (m_headers m);
  os_links : forall v, v <> u -> link_of m' v = link_of m v }.

Lemma objs_static psize s sp sp' : same_static sp sp' -> objs psize s sp' = objs psize s sp.
Proof. intros []. unfold objs. by rewrite st_stride0, st_count0. Qed.

Lemma object_step_in m m' all u s sp sp' hd' v s0 sp0 : object_step m m' u s sp' hd' ->
  same_static sp sp' -> m_spans m !! s = Some sp -> object_in m' all v s0 sp0 ->
  exists sp1, object_in m all v s0 sp1 /\ same_static sp1 sp0 /\ (s0 <> s -> sp1 = sp0) /\ (s0 = s -> sp1 = sp /\ sp0 = sp').
Proof.
  intros [Hg Hsp _ _] Hst Hs (Ha & Hl & Ho). rewrite Hsp, lookup_insert in Hl. unfold object_in.
  rewrite (gs_page _ _ Hg) in Ho. case_decide as E; simplify_eq.
  - exists sp. rewrite (objs_static _ _ sp) in Ho by done. naive_solver.
  - exists sp0. split_and!; (done || by split).
Qed.

Lemma object_step_out m m' all u s sp sp' hd' v s0 sp0 : object_step m m' u s sp' hd' ->
  same_static sp sp' -> m_spans m !! s = Some sp -> object_in m all v s0 sp0 ->
  exists sp1, object_in m' all v s0 sp1.
Proof.
  intros [Hg Hsp _ _] Hst Hs (Ha & Hl & Ho). unfold object_in.
  rewrite Hsp, lookup_insert, (gs_page _ _ Hg). case_decide as E; simplify_eq; [|eauto].
  exists sp'. by rewrite (objs_static _ _ sp) by done.
Qed.

Lemma step_heap m m' g u s sp sp' hd' : heap_ok m -> spans_ok m g -> object_in m (g_all g) u s sp ->
  object_step m m' u s sp' hd' -> heap_ok m'.
Proof.
  intros Hok Hso (Ha & Hsp & Hu) [[] Hs Hh Hl].
  pose proof (so_static m g Hso s sp Ha Hsp) as Hss.
  pose proof (object_bounds m s sp u Hok Hss Hu). pose proof (span_bounds m s sp Hok Hss).
  assert (Hmap : forall a n, mapped m a n -> mapped m' a n).
  { intros a n. apply mapped_mono. by rewrite gs_maps0. }
  assert (Hu' : mapped m (u - HEADER) (HEADER + WORD)).
  { exists s, (sp_mapping_size sp). split; [apply Hss|]. unfold HEADER, WORD in *. lia. }
  destruct Hok. split; rewrite ?gs_init0, ?gs_page0, ?gs_maps0, ?gs_bytes0, ?gs_blocks0; try done.
  - intros a x. rewrite Hs, lookup_insert. case_decide; [|by eauto]. intros _. subst. eauto.
  - intros a x. rewrite Hh, lookup_insert. case_decide; [|by eauto]. intros _. subst.
    apply Hmap. eapply mapped_sub; [done|lia|]. unfold HEADER, WORD. lia.
  - intros a x Hx. apply Hmap. destruct (decide (a = u)) as [->|Hau].
    + eapply mapped_sub; [exact Hu'|unfold HEADER; lia|unfold HEADER, WORD; lia].
    + apply (ho_links a x). unfold link_of in Hl. by rewrite <- Hl.
  - eauto.
Qed.

Lemma step_spans m m' g g' u s sp sp' hd' : spans_ok m g -> m_spans m !! s = Some sp ->
  object_step m m' u s sp' hd' -> same_static sp sp' ->
  g_all g' = g_all g -> g_cent g' = g_cent g -> spans_ok m' g'.
Proof.
  intros [Ha Hnd Hc Hci Hss] Hsp [[] Hs _ _] [] Eall Ecent. rewrite <- Eall in *. rewrite <- Ecent in *.
  split; try done.
  - rewrite gs_all0. apply (list_chain_frame _ _ _ _ Ha). intros v _. unfold all_next_of.
    rewrite Hs, lookup_insert. case_decide as E; [|done]. subst. rewrite Hsp. cbn. congruence.
  - intros c Hc'. rewrite gs_central0. destruct (Hc c Hc') as [Hch ?]. split; [|done].
    apply (list_chain_frame _ _ _ _ Hch). intros v _. unfold central_next_of.
    rewrite Hs, lookup_insert. case_decide as E; [|done]. subst. rewrite Hsp. cbn. congruence.
  - intros c v. rewrite Hci, Hs. setoid_rewrite lookup_insert. case_decide as E; [|done]. subst.
    split; intros [? (x & ? & ?)]; simplify_eq; (split; [done|]); eexists; split; [done| |done|]; congruence.
  - intros v x Hv. rewrite Hs, lookup_insert. case_decide as E.
    + intros ?. simplify_eq. destruct (Hss _ _ Hv Hsp).
      split; rewrite ?gs_page0, ?gs_maps0; congruence.
    + intros Hx. destruct (Hss _ _ Hv Hx). by split; rewrite ?gs_page0, ?gs_maps0.
Qed.

Lemma step_objects m m' g u s sp sp' hd' from to : heap_ok m -> spans_ok m g -> objects_ok m g ->
  object_in m (g_all g) u s sp -> object_step m m' u s sp' hd' -> same_static sp sp' ->
  place_fits s sp to -> span_counts (upd_loc u to (g_loc g)) (objs (page_size m) s sp) sp' ->
  header_ok (upd_loc u to (g_loc g)) s sp u hd' -> objects_ok m' (move u from to g).
Proof.
  intros Hok Hso Ho Hin Hstep Hst Hfit Hcnt Hhd.
  pose proof (object_in_unique m g u s sp) as Huniq. pose proof Hin as (Hs & Hsp & Hu).
  pose proof (os_globals _ _ _ _ _ _ Hstep) as Hg.
  split; cbn [move g_all g_loc].
  - intros s0 sp0 Hs0 Hl. rewrite (gs_page _ _ Hg). rewrite (os_spans _ _ _ _ _ _ Hstep), lookup_insert in Hl.
    case_decide as E; simplify_eq; [by rewrite (objs_static _ _ sp) by done|].
    destruct (oo_counts _ _ Ho s0 sp0 Hs0 Hl) as [H1 H2 H3 H4].
    assert (Hne : forall v, v ∈ objs (page_size m) s0 sp0 -> upd_loc u to (g_loc g) v = g_loc g v).
    { intros v Hv. unfold upd_loc. rewrite decide_False; [done|]. intros ->.
      destruct (Huniq s0 sp0 Hok Hso Hin (conj Hs0 (conj Hl Hv))). congruence. }
    split; [rewrite H1|rewrite H2|rewrite H3|done]; apply tally_ext; intros v Hv; by rewrite Hne.
  - intros v s0 sp0 Hv. destruct (object_step_in _ _ _ _ _ _ _ _ _ _ _ Hstep Hst Hsp Hv)
      as (sp1 & Hv1 & Hst1 & _ & _).
    rewrite (os_headers _ _ _ _ _ _ Hstep), lookup_insert.
    destruct (decide (v = u)) as [->|Hvu].
    + rewrite decide_True by done. destruct (Huniq s0 sp1 Hok Hso Hin Hv1) as [<- <-].
      exists hd'. split; [done|]. destruct Hhd, Hst1. split; congruence.
    + rewrite decide_False by lia. destruct (oo_header _ _ Ho v s0 sp1 Hv1) as (hd & Hhd1 & Hk).
      exists hd. split; [done|]. destruct Hk, Hst1. split; try congruence.
      unfold upd_loc. by rewrite decide_False.
  - intros v s0 sp0 Hv. destruct (object_step_in _ _ _ _ _ _ _ _ _ _ _ Hstep Hst Hsp Hv)
      as (sp1 & Hv1 & Hst1 & _ & _). unfold upd_loc.
    assert (Hclass : forall o, place_fits s0 sp1 o -> place_fits s0 sp0 o).
    { intros [[]|]; cbn; destruct Hst1; congruence. }
    case_decide as E; [|by apply Hclass, (oo_fits _ _ Ho v)]. subst v.
    destruct (Huniq s0 sp1 Hok Hso Hin Hv1) as [<- <-]. by apply Hclass.
  - intros v pl. unfold upd_loc. case_decide as E; [intros _; subst v|intros Hpl].
    + destruct (object_step_out _ _ _ _ _ _ _ _ _ _ _ Hstep Hst Hsp Hin) as [sp1 ?]. eauto.
    + destruct (oo_loc _ _ Ho v pl Hpl) as (s0 & sp0 & Hv).
      destruct (object_step_out _ _ _ _ _ _ _ _ _ _ _ Hstep Hst Hsp Hv) as [sp1 ?]. eauto.
Qed.

Lemma object_not_large m g u s sp : heap_ok m -> spans_ok m g -> large_ok m g ->
  object_in m (g_all g) u s sp -> u - HEADER ∉ g_large g.
Proof.
  intros Hok Hso Hla (Hs & Hsp & Hu) Hin. pose proof (so_static m g Hso s sp Hs Hsp) as Hss.
  pose proof (object_bounds m s sp u Hok Hss Hu). pose proof (span_bounds m s sp Hok Hss).
  destruct (chain_dom _ _ _ _ (la_chain _ _ Hla) Hin) as [_ [n Hn]]. unfold large_next_of in Hn.
  destruct (m_headers m !! (u - HEADER)) as [hd|] eqn:Hhd; [|done].
  pose proof (lh_map _ _ _ (la_header _ _ Hla _ _ Hin Hhd)) as Hm.
  assert (Hne : u - HEADER <> s) by lia.
  pose proof (ho_disjoint m Hok _ _ _ _ Hm (ss_map _ _ _ Hss) Hne).
  pose proof (ho_maps m Hok _ _ Hm). unfold disjoint_range, HEADER in *. lia.
Qed.

Lemma step_large m m' g g' u s sp' hd' : large_ok m g -> u - HEADER ∉ g_large g ->
  object_step m m' u s sp' hd' -> g_all g' = g_all g -> g_large g' = g_large g -> large_ok m' g'.
Proof.
  intros [Hc Hnd Hh Hd] Hu [[] _ Hhd _] Ea El. rewrite <- Ea in *. rewrite <- El in *.
  split; try done.
  - rewrite gs_large0. apply (list_chain_frame _ _ _ _ Hc). intros v Hv. unfold large_next_of.
    rewrite Hhd, lookup_insert_ne; [done|]. by intros <-.
  - intros v x Hv. rewrite Hhd, lookup_insert_ne by (by intros <-). intros Hx.
    destruct (Hh v x Hv Hx). split; rewrite ?gs_maps0; done.
Qed.

(** The blocks in use after a move: the same, except for [u]. *)
Lemma step_block m m' g u s sp sp' hd' from to v hd : heap_ok m -> spans_ok m g -> large_ok m g ->
  object_in m (g_all g) u s sp -> object_step m m' u s sp' hd' -> same_static sp sp' ->
  block m' (move u from to g) v hd <->
    (v <> u /\ block m g v hd) \/ (v = u /\ to = None /\ hd = hd').
Proof.
  intros Hok Hso Hla Hin Hstep Hst. pose proof (object_not_large m g u s sp Hok Hso Hla Hin) as Hnl.
  pose proof Hin as (_ & Hsp & _). unfold block. rewrite (os_headers _ _ _ _ _ _ Hstep).
  cbn [move g_large g_all g_loc]. unfold upd_loc.
  destruct (decide (v = u)) as [->|Hvu].
  - rewrite lookup_insert_eq. split.
    + intros [? [?|(s0 & sp0 & _ & ->)]]; [done|]. naive_solver.
    + intros [[? _]|(_ & -> & ->)]; [done|]. split; [done|]. right.
      destruct (object_step_out _ _ _ _ _ _ _ _ _ _ _ Hstep Hst Hsp Hin) as [sp1 ?]. eauto.
  - rewrite lookup_insert_ne by lia. split.
    + intros [Hh [?|(s0 & sp0 & Hv & Hl)]]; left; (split; [done|]); (split; [done|]); [by left|right].
      destruct (object_step_in _ _ _ _ _ _ _ _ _ _ _ Hstep Hst Hsp Hv) as (sp1 & Hv1 & _). eauto.
    + intros [[_ [Hh [?|(s0 & sp0 & Hv & Hl)]]]|[? _]]; [by split; [|left]| |done].
      split; [done|]. right.
      destruct (object_step_out _ _ _ _ _ _ _ _ _ _ _ Hstep Hst Hsp Hv) as [sp1 ?]. eauto.
Qed.

Lemma block_at_object m g u s sp hd : heap_ok m -> spans_ok m g -> large_ok m g ->
  object_in m (g_all g) u s sp -> block m g u hd -> g_loc g u = None.
Proof.
  intros Hok Hso Hla Hin [_ [Hl|(s0 & sp0 & _ & ?)]]; [|done].
  by destruct (object_not_large m g u s sp Hok Hso Hla Hin).
Qed.

Lemma inv_move m m' live live' g u s sp sp' hd' from to :
  inv m live g -> object_in m (g_all g) u s sp -> g_loc g u = from -> from <> to ->
  place_fits s sp to -> (forall pl, to = Some pl -> valid (g_all g) pl) ->
  object_step m m' u s sp' hd' -> same_static sp sp' ->
  span_counts (upd_loc u to (g_loc g)) (objs (page_size m) s sp) sp' ->
  header_ok (upd_loc u to (g_loc g)) s sp u hd' ->
  lists_step m m' (g_all g) u from to -> counts_ok m' (move_lst u from to (g_lst g)) ->
  live_ok m' live' (move u from to g) ->
  inv m' live' (move u from to g).
Proof.
  intros [Hok Hso Hl Hc Ho Hla Hli] Hin Hloc Hne Hfit Hval Hstep Hst Hcnt Hhd Hls Hc' Hli'.
  assert (u <> NULL).
  { destruct Hin as (Hs & Hsp & Hu). pose proof (so_static m g Hso s sp Hs Hsp) as Hss.
    pose proof (object_bounds m s sp u Hok Hss Hu). pose proof (span_bounds m s sp Hok Hss).
    unfold NULL, HEADER in *. lia. }
  split; [by eapply step_heap|eapply step_spans; [done|apply Hin|done..]| |done|
    by eapply step_objects|eapply step_large; [done|by eapply object_not_large|done..]|done].
  by apply (lists_move m).
Qed.

(** ** The live blocks across a move *)

Lemma live_total_insert live u r : live !! u = None -> live_total (<[u := r]> live) = r + live_total live.
Proof. intros Hu. unfold live_total. rewrite map_fold_insert_L; [done|lia|done]. Qed.

Lemma live_total_delete live u r : live !! u = Some r -> live_total live = r + live_total (delete u live).
Proof. intros Hu. unfold live_total. rewrite (map_fold_delete_L _ _ u r); [done|lia|done]. Qed.

Definition same_live_stats (m m' : vl_memory) : Prop :=
  active_objects (mem_stats m') = active_objects (mem_stats m) /\
  active_bytes (mem_stats m') = active_bytes (mem_stats m).

Section live.
Context (m m' : vl_memory) (live : gmap Z Z) (g : ghost) (u s : Z) (sp sp' : vl_span) (hd' : vl_object_header).
Context (Hinv : inv m live g) (Hin : object_in m (g_all g) u s sp).
Context (Hstep : object_step m m' u s sp' hd') (Hst : same_static sp sp').

Let Hblk from to v hd := step_block m m' g u s sp sp' hd' from to v hd
  (iv_heap _ _ _ Hinv) (iv_spans _ _ _ Hinv) (iv_large _ _ _ Hinv) Hin Hstep Hst.

Lemma live_none : g_loc g u <> None -> live !! u = None.
Proof.
  intros Hu. destruct (live !! u) as [r|] eqn:E; [exfalso|done].
  apply (li_live _ _ _ (iv_live _ _ _ Hinv)) in E as (hd & Hb & _).
  apply Hu. eapply block_at_object; [apply Hinv..|done|done].
Qed.

Lemma live_neutral from to : g_loc g u = Some from -> same_live_stats m m' ->
  live_ok m' live (move u (Some from) (Some to) g).
Proof.
  intros Hloc [Ho Hb]. pose proof (live_none ltac:(congruence)) as HN.
  destruct (iv_live _ _ _ Hinv) as [Hl Hr Hob Hby Hw]. unfold same_live_stats in *.
  split; [| |congruence|congruence|by rewrite Ho, Hb].
  - intros v r. rewrite Hl. setoid_rewrite Hblk. split.
    + intros (hd & Hbk & Hq). exists hd. split; [|done]. left. split; [|done]. intros ->.
      assert (live !! u = Some r) by (apply Hl; eauto). congruence.
    + intros (hd & [[_ Hbk]|(_ & ? & _)] & Hq); [eauto|done].
  - intros v hd. rewrite Hblk. intros [[_ Hbk]|(_ & ? & _)]; [eauto|done].
Qed.

Lemma live_alloc from : g_loc g u = Some from ->
  0 < oh_requested_size hd' <= oh_capacity hd' ->
  active_objects (mem_stats m') = active_objects (mem_stats m) + 1 ->
  active_bytes (mem_stats m') = active_bytes (mem_stats m) + oh_requested_size hd' ->
  active_objects (mem_stats m') <= SIZE_MAX -> active_bytes (mem_stats m') <= SIZE_MAX ->
  live_ok m' (<[u := oh_requested_size hd']> live) (move u (Some from) None g).
Proof.
  intros Hloc Hq Ho Hb Hw1 Hw2. pose proof (live_none ltac:(congruence)) as HN.
  destruct (iv_live _ _ _ Hinv) as [Hl Hr Hob Hby _]. split.
  - intros v r. setoid_rewrite Hblk. rewrite lookup_insert. case_decide as E.
    + subst v. split; [intros [= <-]; exists hd'; auto|].
      intros (hd & [[? _]|(_ & _ & ->)] & <-); done.
    + rewrite Hl. split; [intros (hd & ? & ?); exists hd; auto|].
      intros (hd & [[_ ?]|(? & _)] & ?); [eauto|done].
  - intros v hd. rewrite Hblk. intros [[_ ?]|(_ & _ & ->)]; eauto.
  - rewrite map_size_insert_None by done. lia.
  - rewrite live_total_insert by done. lia.
  - done.
Qed.

Lemma live_free to r : g_loc g u = None -> live !! u = Some r ->
  active_objects (mem_stats m') = active_objects (mem_stats m) - 1 ->
  active_bytes (mem_stats m') = active_bytes (mem_stats m) - r ->
  live_ok m' (delete u live) (move u None (Some to) g).
Proof.
  intros Hloc Hu Ho Hb. destruct (iv_live _ _ _ Hinv) as [Hl Hr Hob Hby Hw].
  assert (0 < r) by (apply Hl in Hu as (hd & ? & <-); naive_solver).
  split.
  - intros v r'. setoid_rewrite Hblk. rewrite lookup_delete_Some, Hl. split.
    + intros (? & hd & ? & ?). exists hd. auto.
    + intros (hd & [[? ?]|(_ & ? & _)] & ?); [eauto|done].
  - intros v hd. rewrite Hblk. intros [[_ ?]|(_ & ? & _)]; [eauto|done].
  - rewrite map_size_delete_Some by eauto.
    assert (size live <> 0%nat) by (rewrite map_size_ne_0_lookup; eauto). lia.
  - pose proof (live_total_delete _ _ _ Hu). lia.
  - lia.
Qed.
End live.

(** ** Span counters across a move *)

Lemma tally_pos P l u : u ∈ l -> P u = true -> 1 <= tally P l.
Proof.
  intros Hu HP. destruct (decide (tally P l = 0)) as [E|E].
  - pose proof (tally_zero P l u E Hu). congruence.
  - pose proof (tally_bound P l). lia.
Qed.

Lemma span_counts_move loc l sp sp' u to : span_counts loc l sp -> NoDup l -> u ∈ l ->
  let from := loc u in
  sp_central_free_count sp' = sp_central_free_count sp - Z.b2z (is_central from) + Z.b2z (is_central to) ->
  sp_cached_count sp' = sp_cached_count sp - Z.b2z (is_cached from) + Z.b2z (is_cached to) ->
  sp_active_count sp' = sp_active_count sp - Z.b2z (is_active from) + Z.b2z (is_active to) ->
  sp_free_count sp' = sp_central_free_count sp' + sp_cached_count sp' ->
  span_counts (upd_loc u to loc) l sp'.
Proof.
  intros [H1 H2 H3 _] Hnd Hu from E1 E2 E3 E4. subst from.
  split; [rewrite E1, H1|rewrite E2, H2|rewrite E3, H3|done]; symmetry;
    rewrite (tally_update (fun v => _ (loc v)) _ l u) by
      (done || (intros v _ Hv; unfold upd_loc; by rewrite decide_False));
    unfold upd_loc at 1; by rewrite decide_True by done.
Qed.
End move.
