(* ===== verification/VallocSteps.v ===== *)
(** * The moves the code makes

    One lemma per piece of code that moves an object: from a remote list or a
    central list to a cache, from a cache to the user, back from the user, and from a
    cache to its central list. *)

From S2P Require Import Prelude SizeClass PageHeap Span Valloc VallocLists VallocInv VallocMove.
From stdpp Require Import options.

Open Scope Z_scope.

(** ** Running the accesses *)

Lemma ret_run {A} (a : A) (m : vl_memory) : (mret a : M A) m = Some (a, m).
Proof. done. Qed.

Lemma load_span_run s sp m : m_spans m !! s = Some sp -> load_span s m = Some (sp, m).
Proof. intros E. unfold load_span. crun. by rewrite E. Qed.

Lemma load_header_run h hd m : m_headers m !! h = Some hd -> load_header h m = Some (hd, m).
Proof. intros E. unfold load_header. crun. by rewrite E. Qed.

Lemma load_link_run u n m : m_links m !! u = Some n -> load_link u m = Some (n, m).
Proof. intros E. unfold load_link. crun. by rewrite E. Qed.

Lemma upd_span_run s sp f m : m_spans m !! s = Some sp -> mapped m s SPAN ->
  upd_span s f m = Some (tt, set_m_spans (<[s := f sp]> (m_spans m)) m).
Proof.
  intros E Hm. unfold upd_span. rewrite (bind_Some _ _ _ _ _ (load_span_run _ _ _ E)).
  unfold store_span. by rewrite decide_True.
Qed.

Lemma store_header_run h hd m : mapped m h HEADER ->
  store_header h hd m = Some (tt, set_m_headers (<[h := hd]> (m_headers m)) m).
Proof. intros Hm. unfold store_header. by rewrite decide_True. Qed.

(** The state after [*(void ** )user = value]. *)
Definition linked (user value : Z) (m : vl_memory) : vl_memory :=
  set_m_links (<[user := value]> (m_links m)) (set_m_bytes (filter (outside user WORD) (m_bytes m)) m).

Definition with_cache (r : bool) (p c : Z) (v : vl_cache) (m : vl_memory) : vl_memory :=
  if r then set_remote (<[(p, c) := v]> (remote m)) m else set_caches (<[(p, c) := v]> (caches m)) m.

Lemma store_link_run u v m : mapped m u WORD -> store_link u v m = Some (tt, linked u v m).
Proof. intros Hm. unfold store_link. by rewrite decide_True. Qed.

Lemma cache_at_run r p c m : in_arrays p c -> cache_at r p c m = Some (cache_of m r p c, m).
Proof. intros Hpc. unfold cache_at. crun. by rewrite decide_True. Qed.

Lemma store_cache_run r p c v m : in_arrays p c -> store_cache r p c v m = Some (tt, with_cache r p c v m).
Proof. intros Hpc. unfold store_cache. by rewrite decide_True. Qed.

Lemma list_pop_run r p c n m : in_arrays p c -> m_links m !! ca_head (cache_of m r p c) = Some n ->
  list_pop r p c m = Some (ca_head (cache_of m r p c),
    with_cache r p c (mk_cache n (w64 (ca_count (cache_of m r p c) - 1))) m).
Proof.
  intros Hpc Hn. unfold list_pop. rewrite (bind_Some _ _ _ _ _ (cache_at_run _ _ _ _ Hpc)).
  rewrite (bind_Some _ _ _ _ _ (load_link_run _ _ _ Hn)).
  by rewrite (bind_Some _ _ _ _ _ (store_cache_run _ _ _ _ _ Hpc)).
Qed.

Lemma list_push_run r p c u m : in_arrays p c -> mapped m u WORD ->
  list_push r p c u m = Some (tt, with_cache r p c (mk_cache u (w64 (ca_count (cache_of m r p c) + 1)))
    (linked u (ca_head (cache_of m r p c)) m)).
Proof.
  intros Hpc Hm. unfold list_push. rewrite (bind_Some _ _ _ _ _ (cache_at_run _ _ _ _ Hpc)).
  rewrite (bind_Some _ _ _ _ _ (store_link_run _ _ _ Hm)). by rewrite store_cache_run.
Qed.

(** Reading a cache after writing one. *)
Lemma cache_of_with r p c v m r' p' c' : cache_of (with_cache r p c v m) r' p' c' =
  if decide ((r, p, c) = (r', p', c')) then v else cache_of m r' p' c'.
Proof.
  unfold cache_of, with_cache. case_decide as E; [simplify_eq|].
  - destruct r'; cbn; by rewrite lookup_insert_eq.
  - destruct r, r'; cbn; try done; rewrite lookup_insert_ne; (done || congruence).
Qed.

Ltac with_cache_simpl := unfold with_cache; repeat match goal with |- context [if ?r then set_remote _ _ else _] => destruct r end; cbn.

Lemma with_cache_frame r p c v m :
  m_spans (with_cache r p c v m) = m_spans m /\ m_headers (with_cache r p c v m) = m_headers m /\
  m_links (with_cache r p c v m) = m_links m /\ m_bytes (with_cache r p c v m) = m_bytes m /\
  mappings (with_cache r p c v m) = mappings m /\ mem_stats (with_cache r p c v m) = mem_stats m /\
  globals_same m (with_cache r p c v m).
Proof. unfold with_cache. by destruct r. Qed.

Section steps.
#[local] Set Default Proof Using "Type*".
Context `{os_memory_laws}.

(** What is known of an object of a live span. *)
Record object_facts (m : vl_memory) (u s : Z) (sp : vl_span) : Prop := {
  of_user : u <> NULL;
  of_span : s <> NULL;
  of_link : mapped m u WORD;
  of_struct : mapped m s SPAN;
  of_header : mapped m (u - HEADER) HEADER;
  of_central : 0 <= sp_central_free_count sp;
  of_cached : 0 <= sp_cached_count sp;
  of_active : 0 <= sp_active_count sp;
  of_sum : sp_central_free_count sp + sp_cached_count sp + sp_active_count sp <= 2 ^ 56 }.

Lemma object_facts_of m live g u s sp : inv m live g -> object_in m (g_all g) u s sp -> object_facts m u s sp.
Proof.
  intros [Hok Hso _ _ Ho _ _] (Hs & Hsp & Hu). pose proof (so_static m g Hso s sp Hs Hsp) as Hss.
  pose proof (object_bounds m s sp u Hok Hss Hu). pose proof (span_bounds m s sp Hok Hss) as Hb.
  destruct (oo_counts m g Ho s sp Hs Hsp) as [C1 C2 C3 _].
  pose proof (span_partition (g_loc g) (objs (page_size m) s sp)) as Hsum.
  rewrite <- C1, <- C2, <- C3 in Hsum. unfold objs in Hsum. rewrite length_fmap, length_seqZ in Hsum.
  pose proof (tally_bound (fun u => is_central (g_loc g u)) (objs (page_size m) s sp)).
  pose proof (tally_bound (fun u => is_cached (g_loc g u)) (objs (page_size m) s sp)).
  pose proof (tally_bound (fun u => is_active (g_loc g u)) (objs (page_size m) s sp)).
  pose proof (ss_fits _ _ _ Hss). pose proof (ss_count _ _ _ Hss). pose proof (ss_map _ _ _ Hss) as Hm.
  split; try (unfold NULL, HEADER in *; lia);
    try (exists s, (sp_mapping_size sp); split; [done|]; unfold WORD, SPAN, HEADER in *; lia).
  rewrite Hsum. unfold HEADER in *. nia.
Qed.

Lemma list_length_bound m live g pl : inv m live g -> Z.of_nat (length (g_lst g pl)) <= 2 ^ 56.
Proof.
  intros [Hok Hso Hl _ Ho _ _].
  assert (Hr : forall u, u ∈ g_lst g pl -> u ∈ seqZ 0 (2 ^ 56)).
  { intros u Hu%(lo_loc _ _ _ _ Hl). destruct (oo_loc _ _ Ho u pl Hu) as (s & sp & Hs & Hsp & Hobj).
    pose proof (so_static m g Hso s sp Hs Hsp) as Hss. pose proof (object_bounds m s sp u Hok Hss Hobj).
    pose proof (span_bounds m s sp Hok Hss). apply elem_of_seqZ. unfold HEADER in *. lia. }
  apply NoDup_submseteq, submseteq_length in Hr; [|apply (lo_nodup _ _ _ _ Hl)].
  rewrite length_seqZ in Hr. lia.
Qed.

(** The head of a nonempty list is a free object. *)
Lemma head_object m live g pl u : inv m live g -> valid (g_all g) pl -> place_head m pl = Some u -> u <> NULL ->
  exists s sp n hd, object_in m (g_all g) u s sp /\ g_loc g u = Some pl /\ m_links m !! u = Some n /\
    place_fits s sp (Some pl) /\ m_headers m !! (u - HEADER) = Some hd /\ header_ok (g_loc g) s sp u hd /\
    1 <= Z.of_nat (length (g_lst g pl)).
Proof.
  intros [Hok Hso Hl _ Ho _ _] Hv Hh Hu.
  destruct (head_in_list _ _ _ _ _ _ Hl Hv Hh Hu) as (l & n & El & Hn & _).
  assert (Hloc : g_loc g u = Some pl) by (apply (lo_loc _ _ _ _ Hl); rewrite El; left).
  destruct (oo_loc _ _ Ho u pl Hloc) as (s & sp & Hin).
  destruct (oo_header _ _ Ho u s sp Hin) as (hd & Hhd & Hk).
  pose proof (oo_fits _ _ Ho u s sp Hin) as Hf. rewrite Hloc in Hf.
  exists s, sp, n, hd. rewrite El. cbn [length]. split_and!; try done. lia.
Qed.

(** The counter of a cache across a move. *)
Lemma counts_move m m' g u from to : counts_ok m (g_lst g) -> from <> to ->
  (forall pl, from = Some pl -> g_lst g pl <> []) ->
  (forall r p c, in_arrays p c -> ca_count (cache_of m' r p c) =
     ca_count (cache_of m r p c) + Z.b2z (bool_decide (to = Some (PCache r p c)))
                                 - Z.b2z (bool_decide (from = Some (PCache r p c)))) ->
  counts_ok m' (move_lst u from to (g_lst g)).
Proof.
  intros Hc Hne Hnil Hm r p c Hpc. rewrite (Hm r p c Hpc), (Hc r p c Hpc). unfold move_lst.
  repeat case_bool_decide; repeat case_decide; try congruence; cbn [Z.b2z length]; try lia.
  specialize (Hnil _ ltac:(done)). destruct (g_lst g (PCache r p c)); [done|]. cbn [tail length]. lia.
Qed.

(** ** Blocks do not overlap *)

(** [u] is an object of a span, free or in use, or a large allocation. *)
Definition cell (m : vl_memory) (g : ghost) (u cap : Z) : Prop :=
  (exists s sp, object_in m (g_all g) u s sp /\ cap = sp_capacity sp) \/
  (exists hd, u - HEADER ∈ g_large g /\ m_headers m !! (u - HEADER) = Some hd /\ cap = oh_capacity hd).

Lemma cell_mapping m live g u cap : inv m live g -> cell m g u cap ->
  exists b k, mappings m !! b = Some k /\ b <= u - HEADER /\ u + cap <= b + k /\
    ((b ∈ g_all g /\ exists sp, object_in m (g_all g) u b sp /\ cap = sp_capacity sp) \/
     (b ∈ g_large g /\ b = u - HEADER)).
Proof.
  intros [Hok Hso _ _ Ho Hla _] [(s & sp & Hin & ->)|(hd & Hin & Hhd & ->)].
  - pose proof Hin as (Hs & Hsp & Hu). pose proof (so_static m g Hso s sp Hs Hsp) as Hss.
    pose proof (object_bounds m s sp u Hok Hss Hu). pose proof (span_bounds m s sp Hok Hss).
    exists s, (sp_mapping_size sp). split_and!; [apply Hss|lia|lia|]. left. eauto.
  - pose proof (la_header _ _ Hla _ _ Hin Hhd) as Hlh. pose proof (lh_fits _ _ _ Hlh).
    exists (u - HEADER), (oh_mapping_size hd). split_and!; [apply Hlh|lia|lia|]. by right.
Qed.

Lemma cells_apart m live g u cap v cap' : inv m live g -> cell m g u cap -> cell m g v cap' -> u <> v ->
  disjoint_range (u - HEADER) (HEADER + cap) (v - HEADER) (HEADER + cap').
Proof.
  intros Hinv Hu Hv Hne.
  destruct (cell_mapping _ _ _ _ _ Hinv Hu) as (b & k & Hb & Hb1 & Hb2 & Hk).
  destruct (cell_mapping _ _ _ _ _ Hinv Hv) as (b' & k' & Hb' & Hb1' & Hb2' & Hk').
  destruct (decide (b = b')) as [<-|Hbb].
  2: { pose proof (ho_disjoint m (iv_heap _ _ _ Hinv) _ _ _ _ Hb Hb' Hbb). unfold disjoint_range in *. lia. }
  destruct Hk as [(Ha & sp & Hin & ->)|[Hl ->]], Hk' as [(Ha' & sp' & Hin' & ->)|[Hl' E']].
  - destruct Hin as (_ & Hsp & Hu'), Hin' as (_ & Hsp' & Hv'). simplify_eq.
    apply (objects_apart m b); [apply Hinv| |done..].
    by apply (so_static m g (iv_spans _ _ _ Hinv)).
  - by destruct (la_disjoint _ _ (iv_large _ _ _ Hinv) b).
  - by destruct (la_disjoint _ _ (iv_large _ _ _ Hinv) (u - HEADER)).
  - lia.
Qed.

Lemma block_cell m live g u hd : inv m live g -> block m g u hd -> cell m g u (oh_capacity hd).
Proof.
  intros Hinv [Hhd [Hl|(s & sp & Hin & _)]]; [right; eauto|left].
  destruct (oo_header _ _ (iv_objects _ _ _ Hinv) u s sp Hin) as (hd' & Hhd' & Hk). simplify_eq.
  exists s, sp. split; [done|apply Hk].
Qed.

(** ** What an operation leaves alone: the capacity, requested size and contents of
    the live blocks. *)

Definition same_block (m m' : vl_memory) (u : Z) : Prop := exists hd hd',
  m_headers m !! (u - HEADER) = Some hd /\ m_headers m' !! (u - HEADER) = Some hd' /\
  oh_capacity hd' = oh_capacity hd /\ oh_requested_size hd' = oh_requested_size hd /\
  forall a, u <= a < u + oh_capacity hd -> m_bytes m' !! a = m_bytes m !! a.

Definition keeps (live : gmap Z Z) (m m' : vl_memory) : Prop := forall u, u ∈ dom live -> same_block m m' u.

Lemma live_block m live g u : inv m live g -> u ∈ dom live -> exists hd, block m g u hd.
Proof.
  intros Hinv [r Hr]%elem_of_dom. apply (li_live _ _ _ (iv_live _ _ _ Hinv)) in Hr as (hd & ? & _). eauto.
Qed.

Lemma keeps_refl m live g : inv m live g -> keeps live m m.
Proof. intros Hinv u Hu. destruct (live_block _ _ _ _ Hinv Hu) as (hd & Hh & _). exists hd, hd. done. Qed.

Lemma keeps_trans live m1 m2 m3 : keeps live m1 m2 -> keeps live m2 m3 -> keeps live m1 m3.
Proof.
  intros H1 H2 u Hu. destruct (H1 u Hu) as (a & b & Ha & Hb & Hc & Hr & Hby).
  destruct (H2 u Hu) as (b' & d & Hb' & Hd & Hc' & Hr' & Hby'). simplify_eq.
  exists a, d. split_and!; try congruence. intros x Hx. rewrite Hby', Hby; [done|lia|lia].
Qed.

Lemma keeps_mono live live' m m' : dom live' ⊆ dom live -> keeps live m m' -> keeps live' m m'.
Proof. intros Hs Hk u Hu. apply Hk, Hs, Hu. Qed.

(** Writing the link or the header of an object that is not among the blocks. *)
Lemma keeps_step m m' live live' g u s sp : inv m live g -> object_in m (g_all g) u s sp ->
  dom live' ⊆ dom live ∖ {[u]} ->
  (forall h, h <> u - HEADER -> m_headers m' !! h = m_headers m !! h) ->
  (forall a, ~ (u <= a < u + WORD) -> m_bytes m' !! a = m_bytes m !! a) ->
  keeps live' m m'.
Proof.
  intros Hinv Hin Hd Hh Hb v Hv. apply Hd in Hv. apply elem_of_difference in Hv as [Hv Hne].
  rewrite elem_of_singleton in Hne. destruct (live_block _ _ _ _ Hinv Hv) as (hd & Hblk).
  exists hd, hd. rewrite Hh by lia. pose proof Hblk as [Hhd _]. split_and!; try done.
  intros a Ha. apply Hb. intros Hu.
  pose proof Hin as (Hs & Hsp & _). pose proof (so_static m g (iv_spans _ _ _ Hinv) s sp Hs Hsp) as Hss.
  pose proof (span_bounds m s sp (iv_heap _ _ _ Hinv) Hss).
  pose proof (cells_apart m live g u (sp_capacity sp) v (oh_capacity hd) Hinv
    ltac:(left; eauto) (block_cell _ _ _ _ _ Hinv Hblk) ltac:(done)).
  unfold disjoint_range, HEADER, WORD in *. lia.
Qed.

(** ** Moves between free lists *)

Lemma neutral_move m m' live g u s sp sp' hd from to :
  inv m live g -> object_in m (g_all g) u s sp -> g_loc g u = Some from -> from <> to ->
  place_fits s sp (Some to) -> valid (g_all g) to ->
  m_headers m !! (u - HEADER) = Some hd -> m_headers m' = m_headers m ->
  globals_same m m' -> m_spans m' = <[s := sp']> (m_spans m) -> same_static sp sp' ->
  sp_central_free_count sp' = sp_central_free_count sp - Z.b2z (is_central (Some from)) + Z.b2z (is_central (Some to)) ->
  sp_cached_count sp' = sp_cached_count sp - Z.b2z (is_cached (Some from)) + Z.b2z (is_cached (Some to)) ->
  sp_active_count sp' = sp_active_count sp -> sp_free_count sp' = sp_free_count sp ->
  lists_step m m' (g_all g) u (Some from) (Some to) ->
  (forall r p c, in_arrays p c -> ca_count (cache_of m' r p c) =
     ca_count (cache_of m r p c) + Z.b2z (bool_decide (Some to = Some (PCache r p c)))
                                 - Z.b2z (bool_decide (Some from = Some (PCache r p c)))) ->
  same_live_stats m m' ->
  (forall a, ~ (u <= a < u + WORD) -> m_bytes m' !! a = m_bytes m !! a) ->
  inv m' live (move u (Some from) (Some to) g) /\ keeps live m m'.
Proof.
  intros Hinv Hin Hloc Hne Hfit Hval Hhd Hhm Hg Hsp Hst E1 E2 E3 E4 Hls Hcnt Hsl Hby.
  assert (Hstep : object_step m m' u s sp' hd).
  { split; [done..| |apply Hls]. rewrite Hhm. by rewrite insert_id. }
  pose proof Hin as (Hs & Hl & Hu).
  pose proof (so_static m g (iv_spans _ _ _ Hinv) s sp Hs Hl) as Hss.
  pose proof (oo_counts m g (iv_objects _ _ _ Hinv) s sp Hs Hl) as Hsc.
  assert (Hk : header_ok (upd_loc u (Some to) (g_loc g)) s sp u hd).
  { destruct (oo_header _ _ (iv_objects _ _ _ Hinv) u s sp Hin) as (hd0 & Hhd0 & Hk). simplify_eq.
    split; [apply Hk..| | |apply Hk|apply Hk|apply Hk].
    - apply Hk.
    - unfold upd_loc. rewrite decide_True, (ko_state _ _ _ _ _ Hk), Hloc by done. done. }
  assert (Hdom : u ∉ dom live).
  { intros Hd. destruct (live_block _ _ _ _ Hinv Hd) as (hd0 & Hb).
    pose proof (block_at_object m g u s sp hd0 (iv_heap _ _ _ Hinv) (iv_spans _ _ _ Hinv)
      (iv_large _ _ _ Hinv) Hin Hb). congruence. }
  split.
  - eapply inv_move; [done..|congruence|done| |done|done| |done|done| |].
    + by intros pl [= <-].
    + eapply span_counts_move; [done|by apply objs_nodup; [apply Hinv|]|done|rewrite Hloc..|]; [done..| |].
      * rewrite E3. cbn. lia.
      * rewrite E4, E1, E2, (sc_free _ _ _ Hsc). destruct from, to; cbn; lia.
    + eapply counts_move; [apply Hinv|congruence| |done]. intros pl [= <-] E.
      assert (Hin' : u ∈ g_lst g from) by (by apply (lo_loc _ _ _ _ (iv_lists _ _ _ Hinv))).
      rewrite E in Hin'. by apply not_elem_of_nil in Hin'.
    + by eapply live_neutral.
  - eapply keeps_step; [done..| | |done]; [set_solver|]. intros h _. by rewrite Hhm.
Qed.

(** A cache with an object on it. *)
Lemma cache_head_object m live g r p c : inv m live g -> in_arrays p c ->
  ca_head (cache_of m r p c) <> NULL ->
  exists s sp n hd, let u := ca_head (cache_of m r p c) in
    object_in m (g_all g) u s sp /\ g_loc g u = Some (PCache r p c) /\ m_links m !! u = Some n /\
    c = sp_class_index sp /\ m_headers m !! (u - HEADER) = Some hd /\ header_ok (g_loc g) s sp u hd /\
    1 <= ca_count (cache_of m r p c) <= 2 ^ 56.
Proof.
  intros Hinv Hpc Hu.
  destruct (head_object m live g (PCache r p c) _ Hinv Hpc eq_refl Hu) as (s & sp & n & hd & ? & ? & ? & ? & ? & ? & Hl).
  pose proof (list_length_bound m live g (PCache r p c) Hinv).
  exists s, sp, n, hd. cbv zeta. rewrite (iv_counts _ _ _ Hinv r p c Hpc). split_and!; try done.
Qed.

Lemma cache_count_word m live g r p c : inv m live g -> in_arrays p c -> 0 <= ca_count (cache_of m r p c) <= 2 ^ 56.
Proof.
  intros Hinv Hpc. rewrite (iv_counts _ _ _ Hinv r p c Hpc).
  pose proof (list_length_bound m live g (PCache r p c) Hinv). lia.
Qed.

Lemma cache_nonempty m live g r p c : inv m live g -> in_arrays p c ->
  0 < ca_count (cache_of m r p c) -> ca_head (cache_of m r p c) <> NULL.
Proof.
  intros Hinv Hpc Hc Hn. rewrite (iv_counts _ _ _ Hinv r p c Hpc) in Hc.
  destruct (lo_chain _ _ _ _ (iv_lists _ _ _ Hinv) (PCache r p c) Hpc) as (h & [= <-] & Hch).
  apply (proj1 (chain_nil _ _ _ Hch)) in Hn. rewrite Hn in Hc. done.
Qed.

(** What a refill of the cache of [p] and [c] by [k] objects does. *)
Record refilled (live : gmap Z Z) (p c k : Z) (m m' : vl_memory) (g g' : ghost) : Prop := {
  rf_inv : inv m' live g';
  rf_keeps : keeps live m m';
  rf_all : g_all g' = g_all g;
  rf_cache : forall p' c', in_arrays p' c' -> ca_count (cache_of m' false p' c') =
    ca_count (cache_of m false p' c') + (if decide ((p, c) = (p', c')) then k else 0);
  rf_spans : forall s sp, s ∈ g_all g -> m_spans m !! s = Some sp ->
    exists sp', m_spans m' !! s = Some sp' /\ same_static sp sp';
  rf_stats : mem_stats m' = mem_stats m;
  rf_maps : mappings m' = mappings m;
  rf_calls : calls m' = calls m }.

Lemma same_static_refl sp : same_static sp sp.
Proof. by split. Qed.

Lemma same_static_trans a b d : same_static a b -> same_static b d -> same_static a d.
Proof. intros [] []. split; congruence. Qed.

Lemma refilled_refl live p c m g : inv m live g -> refilled live p c 0 m m g g.
Proof.
  intros Hinv. split; try done; [by eapply keeps_refl| |].
  - intros. case_decide; lia.
  - eauto using same_static_refl.
Qed.

Lemma refilled_trans live p c k k' m1 m2 m3 g1 g2 g3 : refilled live p c k m1 m2 g1 g2 ->
  refilled live p c k' m2 m3 g2 g3 -> refilled live p c (k + k') m1 m3 g1 g3.
Proof.
  intros [_ K1 A1 C1 S1 T1 M1 N1] [I2 K2 A2 C2 S2 T2 M2 N2]. split; try congruence.
  - by eapply keeps_trans.
  - intros p' c' Hpc. rewrite C2, C1 by done. case_decide; lia.
  - intros s sp Hs Hsp. destruct (S1 s sp Hs Hsp) as (sp' & Hsp' & Hst). rewrite <- A1 in Hs.
    destruct (S2 s sp' Hs Hsp') as (sp'' & ? & ?). eauto using same_static_trans.
Qed.

(** [refill_remote]: an object goes from the remote list to the cache. *)
Lemma move_remote m live g p c : inv m live g -> in_arrays p c -> ca_head (cache_of m true p c) <> NULL ->
  exists m' g', (user ← list_pop true p c; list_push false p c user) m = Some (tt, m') /\
    refilled live p c 1 m m' g g' /\ m_spans m' = m_spans m.
Proof.
  intros Hinv Hpc Hne.
  destruct (cache_head_object m live g true p c Hinv Hpc Hne) as (s & sp & n & hd & Hin & Hloc & Hn & Hc & Hhd & Hk & Hcnt).
  pose proof (cache_count_word m live g false p c Hinv Hpc) as Hcnt'.
  pose proof (object_facts_of _ _ _ _ _ _ Hinv Hin) as Hf. cbv zeta in *.
  set (u := ca_head (cache_of m true p c)) in *.
  rewrite (bind_Some _ _ _ _ _ (list_pop_run true p c n m Hpc Hn)). fold u.
  rewrite w64_small by word_lia.
  set (m1 := with_cache true p c (mk_cache n (ca_count (cache_of m true p c) - 1)) m).
  rewrite list_push_run by (done || apply Hf).
  replace (cache_of m1 false p c) with (cache_of m false p c) by (unfold m1; by rewrite cache_of_with).
  rewrite w64_small by word_lia. set (m2 := with_cache _ _ _ _ _).
  assert (Hco : forall r p' c', cache_of m2 r p' c' =
    if decide ((false, p, c) = (r, p', c')) then mk_cache u (ca_count (cache_of m false p c) + 1) else
    if decide ((true, p, c) = (r, p', c')) then mk_cache n (ca_count (cache_of m true p c) - 1) else cache_of m r p' c').
  { intros. unfold m2. rewrite cache_of_with. case_decide; [done|]. unfold m1. apply cache_of_with. }
  exists m2, (move u (Some (PCache true p c)) (Some (PCache false p c)) g).
  split; [done|].
  destruct (neutral_move m m2 live g u s sp sp hd (PCache true p c) (PCache false p c)) as [Hi Hke];
    try done; try (by split); try (cbn; lia); try apply same_static_refl.
  - by rewrite insert_id; [|apply Hin].
  - split; [|intros pl [= <-]..|]; try done.
    + intros v Hv. unfold link_of. cbn. by rewrite lookup_insert_ne.
    + cbn. rewrite Hco. rewrite decide_False, decide_True by (done || congruence). unfold link_of. by rewrite Hn.
    + cbn. rewrite Hco. rewrite decide_True by done. unfold link_of. cbn. by rewrite lookup_insert_eq.
    + intros [|r p' c'] Hv Hn1 Hn2; [done|]. cbn. rewrite Hco. rewrite !decide_False by congruence. done.
  - intros r p' c' _. rewrite Hco.
    repeat case_decide; repeat case_bool_decide; simplify_eq; cbn [ca_count Z.b2z]; lia || congruence.
  - intros a Ha. cbn. rewrite map_lookup_filter. destruct (m_bytes m !! a); [|done]. cbn.
    by rewrite option_guard_True.
  - split; [|done]. split; try done.
    + intros p' c' _. rewrite Hco. repeat case_decide; simplify_eq; cbn; lia || congruence.
    + intros s0 sp0 _ Hs0. exists sp0. split; [done|by split].
Qed.

Lemma counts_pos m live g u s sp : inv m live g -> object_in m (g_all g) u s sp ->
  Z.b2z (is_central (g_loc g u)) <= sp_central_free_count sp /\
  Z.b2z (is_cached (g_loc g u)) <= sp_cached_count sp /\
  Z.b2z (is_active (g_loc g u)) <= sp_active_count sp.
Proof.
  intros Hinv Hin. pose proof (object_facts_of _ _ _ _ _ _ Hinv Hin) as [].
  destruct Hin as (Hs & Hsp & Hu).
  destruct (oo_counts m g (iv_objects _ _ _ Hinv) s sp Hs Hsp) as [C1 C2 C3 _].
  assert (Hpos : forall P, Z.b2z (P (g_loc g u)) <= tally (fun v => P (g_loc g v)) (objs (page_size m) s sp)).
  { intros P. destruct (P (g_loc g u)) eqn:E; [by apply (tally_pos _ _ u)|]. apply tally_bound. }
  rewrite C1, C2, C3. auto.
Qed.

(** The bytes after a link was written. *)
Lemma linked_bytes u v m a : ~ (u <= a < u + WORD) -> m_bytes (linked u v m) !! a = m_bytes m !! a.
Proof.
  intros Ha. cbn. rewrite map_lookup_filter. destruct (m_bytes m !! a); [|done]. cbn.
  by rewrite option_guard_True.
Qed.

(** [refill_central]: an object goes from its central list to the cache. *)
Lemma move_central m live g p c s sp : inv m live g -> in_arrays p c -> s ∈ g_all g ->
  m_spans m !! s = Some sp -> sp_class_index sp = c -> sp_central_free sp <> NULL ->
  exists m' g', (user ← vl_span_take_central s; list_push false p c user) m = Some (tt, m') /\
    refilled live p c 1 m m' g g'.
Proof.
  intros Hinv Hpc Hs Hsp Hc Hne. set (u := sp_central_free sp) in *.
  assert (Hhead : place_head m (PCentral s) = Some u) by (cbn; by rewrite Hsp).
  destruct (head_object m live g (PCentral s) u Hinv Hs Hhead Hne)
    as (s0 & sp0 & n & hd & Hin & Hloc & Hn & Hfit & Hhd & Hk & Hlen).
  cbn in Hfit. subst s0. assert (sp0 = sp) as -> by (destruct Hin as (_ & ? & _); congruence).
  pose proof (cache_count_word m live g false p c Hinv Hpc) as Hcnt'.
  pose proof (object_facts_of _ _ _ _ _ _ Hinv Hin) as Hf.
  pose proof (counts_pos _ _ _ _ _ _ Hinv Hin) as (Hp1 & _ & _). rewrite Hloc in Hp1. cbn in Hp1.
  destruct Hf as [Hf1 Hf2 Hf3 Hf4 Hf5 Hf6 Hf7 Hf8 Hf9].
  unfold vl_span_take_central. destruct (Z.eqb_spec s NULL); [done|].
  rewrite bind_run, (bind_Some _ _ _ _ _ (load_span_run _ _ _ Hsp)). fold u.
  destruct (Z.eqb_spec u NULL); [done|].
  rewrite (bind_Some _ _ _ _ _ (load_link_run _ _ _ Hn)).
  rewrite (bind_Some _ _ _ _ _ (upd_span_run s sp _ m Hsp Hf4)). rewrite !w64_small by word_lia.
  set (sp' := set_sp_cached_count _ _). set (m1 := set_m_spans _ m).
  rewrite ret_run, list_push_run by (done || exact Hf3).
  change (cache_of m1 false p c) with (cache_of m false p c).
  rewrite w64_small by word_lia. set (m2 := with_cache _ _ _ _ _).
  assert (Hco : forall r p' c', cache_of m2 r p' c' =
    if decide ((false, p, c) = (r, p', c')) then mk_cache u (ca_count (cache_of m false p c) + 1)
    else cache_of m r p' c').
  { intros. unfold m2. rewrite cache_of_with. by case_decide. }
  exists m2, (move u (Some (PCentral s)) (Some (PCache false p c)) g). split; [done|].
  destruct (neutral_move m m2 live g u s sp sp' hd (PCentral s) (PCache false p c)) as [Hi Hke];
    try done; try (by split); try (cbn; lia).
  - split; [|intros pl [= <-]..|]; try done.
    + intros v Hv. unfold link_of. cbn. by rewrite lookup_insert_ne.
    + cbn. rewrite lookup_insert_eq. unfold link_of. by rewrite Hn.
    + cbn. rewrite Hco. rewrite decide_True by done. unfold link_of. cbn. by rewrite lookup_insert_eq.
    + intros [s0|r p' c'] Hv Hn1 Hn2; cbn.
      * rewrite lookup_insert_ne by congruence. done.
      * rewrite Hco. rewrite decide_False by congruence. done.
  - intros r p' c' _. rewrite Hco.
    repeat case_decide; repeat case_bool_decide; simplify_eq; cbn [ca_count Z.b2z]; lia || congruence.
  - intros a Ha. by apply (linked_bytes u (ca_head (cache_of m false p c)) m1).
  - split; try done.
    + intros p' c' _. rewrite Hco. repeat case_decide; simplify_eq; cbn; lia || congruence.
    + intros s0 sp0 _ Hs0. cbn. rewrite lookup_insert. case_decide as E.
      * subst s0. assert (sp0 = sp) as -> by congruence. eexists. split; [done|by split].
      * exists sp0. split; [done|by split].
Qed.

(** ** Handing an object out *)

Lemma live_bytes_nonneg m live g : inv m live g -> 0 <= active_bytes (mem_stats m).
Proof.
  intros Hinv. rewrite (li_bytes _ _ _ (iv_live _ _ _ Hinv)).
  assert (Hr : forall v r, live !! v = Some r -> 0 < r).
  { intros v r (hd & Hblk & <-)%(li_live _ _ _ (iv_live _ _ _ Hinv)).
    apply (li_req _ _ _ (iv_live _ _ _ Hinv)) in Hblk. lia. }
  by apply (mapping_total_nonneg live).
Qed.

Lemma alloc_from_cache m live g me p c size : inv m live g -> in_arrays p c ->
  ca_head (cache_of m false p c) <> NULL -> 0 < size <= vl_size_class_capacity c ->
  active_objects (mem_stats m) < SIZE_MAX -> active_bytes (mem_stats m) + size <= SIZE_MAX ->
  exists u m' g', (user ← cache_take p c; malloc_finish me c size user) m = Some (u, m') /\
    u <> NULL /\ u ∉ dom live /\ inv m' (<[u := size]> live) g' /\ keeps live m m' /\
    (forall p' c', ca_count (cache_of m' false p' c') <= ca_count (cache_of m false p' c')) /\
    mapped_bytes (mem_stats m') = mapped_bytes (mem_stats m).
Proof.
  intros Hinv Hpc Hne Hsize Hobj Hbytes.
  destruct (cache_head_object m live g false p c Hinv Hpc Hne) as (s & sp & n & hd & Hin & Hloc & Hn & Hc & Hhd & Hk & Hcnt).
  pose proof (object_facts_of _ _ _ _ _ _ Hinv Hin) as Hf. cbv zeta in *.
  set (u := ca_head (cache_of m false p c)) in *.
  pose proof (counts_pos _ _ _ _ _ _ Hinv Hin) as (_ & Hp1 & _). rewrite Hloc in Hp1. cbn in Hp1.
  destruct Hf as [Hf1 Hf2 Hf3 Hf4 Hf5 Hf6 Hf7 Hf8 Hf9]. pose proof Hin as (Hs & Hsp & Hu).
  pose proof (oo_counts m g (iv_objects _ _ _ Hinv) s sp Hs Hsp) as Hsc.
  pose proof (sc_free _ _ _ Hsc) as Hfree.
  pose proof (so_static m g (iv_spans _ _ _ Hinv) s sp Hs Hsp) as Hss.
  pose proof (iv_live _ _ _ Hinv) as [_ _ Ho Hb _].
  pose proof (live_bytes_nonneg _ _ _ Hinv).
  unfold cache_take. rewrite !bind_run, (list_pop_run false p c n m Hpc Hn). fold u.
  rewrite w64_small by word_lia. set (m1 := with_cache _ _ _ _ m). unfold vl_object_header_from_user.
  rewrite (bind_Some _ _ _ _ _ (load_header_run (u - HEADER) hd m1 Hhd)).
  rewrite (ko_span _ _ _ _ _ Hk).
  rewrite (bind_Some _ _ _ _ _ (upd_span_run s sp _ m1 Hsp Hf4)). rewrite !w64_small by word_lia.
  set (sp' := set_sp_active_count _ _). set (m2 := set_m_spans _ m1). rewrite ret_run.
  unfold malloc_finish. destruct (Z.eqb_spec u NULL); [done|]. unfold vl_object_header_from_user.
  rewrite (bind_Some _ _ _ _ _ (load_header_run (u - HEADER) hd m2 Hhd)).
  rewrite (ko_span _ _ _ _ _ Hk). unfold vl_initialize_header.
  destruct (Z.eqb_spec s NULL); [done|]. cbn [negb].
  assert (Hsp2 : m_spans m2 !! s = Some sp') by (cbn; by rewrite lookup_insert_eq).
  rewrite bind_run, !bind_run, (load_span_run s sp' m2 Hsp2), ret_run.
  rewrite store_header_run by exact Hf5.
  set (hd' := mk_header _ _ _ _ _ _ _ _ _ _ _). set (m3 := set_m_headers _ m2).
  unfold count_allocated. cbn [modify]. rewrite bind_run. cbn [modify]. unfold modify. rewrite ret_run.
  set (m4 := upd_stats _ m3).
  assert (Hst : same_static sp sp') by (by split).
  assert (Hstep : object_step m m4 u s sp' hd').
  { split; [by split|done|done|done]. }
  exists u, m4, (move u (Some (PCache false p c)) None g). split; [done|]. split; [done|].
  assert (Hco : forall r p' c', cache_of m4 r p' c' =
    if decide ((false, p, c) = (r, p', c')) then mk_cache n (ca_count (cache_of m false p c) - 1)
    else cache_of m r p' c').
  { intros. change (cache_of m4 r p' c') with (cache_of m1 r p' c'). unfold m1. rewrite cache_of_with. by case_decide. }
  assert (Hdom : live !! u = None) by (eapply (live_none m m4); [done..|congruence]).
  split; [by apply not_elem_of_dom|]. split_and!.
  - change size with (oh_requested_size hd'). eapply (inv_move m m4); [done..| |done|done|done|done| | | | |].
    + done.
    + eapply span_counts_move; [done|by apply objs_nodup; [apply Hinv|]|done|rewrite Hloc..|]; cbn; lia.
    + split; try done.
      * unfold upd_loc. by rewrite decide_True.
      * cbn. rewrite Hc. symmetry. apply Hss.
    + split; [|intros pl [= <-]..|]; try done.
      * cbn. rewrite Hco. rewrite decide_True by done. unfold link_of. by rewrite Hn.
      * intros [s0|r p' c'] Hv Hn1 Hn2; cbn.
        -- rewrite lookup_insert. case_decide; [subst|done]. by rewrite Hsp.
        -- rewrite Hco. rewrite decide_False by congruence. done.
    + eapply counts_move; [apply Hinv|congruence| |].
      * intros pl [= <-] E. assert (Hin' : u ∈ g_lst g (PCache false p c)) by (by apply (lo_loc _ _ _ _ (iv_lists _ _ _ Hinv))).
        rewrite E in Hin'. by apply not_elem_of_nil in Hin'.
      * intros r p' c' _. rewrite Hco.
        repeat case_decide; repeat case_bool_decide; simplify_eq; cbn [ca_count Z.b2z]; lia || congruence.
    + eapply (live_alloc m m4); [done..|cbn; lia| | | |]; cbn; rewrite w64_small; word_lia.
  - eapply keeps_step; [done..| | |]; [apply not_elem_of_dom in Hdom; set_solver| |done].
    intros h Hh. cbn. by rewrite lookup_insert_ne.
  - intros p' c'. rewrite Hco. case_decide; simplify_eq; cbn; lia.
  - done.
Qed.
End steps.
