(* ===== verification/VallocRefill.v ===== *)
(** * Refilling a cache

    The two refill loops, the search for a span with free objects, and the creation
    of a span: [vl_refill_cache] keeps the allocator invariant and fails only when
    the page heap does. *)

From S2P Require Import Prelude SizeClass PageHeap Span Valloc VallocLists VallocInv VallocMove VallocSteps.
From stdpp Require Import options.

Open Scope Z_scope.

Section refill.
#[local] Set Default Proof Using "Type*".
Context `{os_memory_laws}.

(** ** The loops *)

Lemma refill_remote_spec fuel : forall m live g p c count, inv m live g -> in_arrays p c ->
  0 <= count <= VL_CACHE_REFILL -> VL_CACHE_REFILL - count < Z.of_nat fuel ->
  exists k m' g', refill_remote fuel p c count m = Some (count + k, m') /\
    0 <= k <= VL_CACHE_REFILL - count /\ refilled live p c k m m' g g' /\ m_spans m' = m_spans m.
Proof.
  induction fuel as [|fuel IH]; intros m live g p c count Hinv Hpc Hcount Hfuel; [lia|]. cbn [refill_remote].
  rewrite (bind_Some _ _ _ _ _ (cache_at_run true p c m Hpc)).
  destruct (Z.eqb_spec (ca_head (cache_of m true p c)) NULL) as [E|E]; cbn [negb andb].
  { exists 0, m, g. rewrite ret_run, Z.add_0_r. split_and!; try done; try lia. by apply refilled_refl. }
  destruct (Z.ltb_spec count VL_CACHE_REFILL) as [Hlt|Hge].
  2: { exists 0, m, g. rewrite ret_run, Z.add_0_r. split_and!; try done; try lia. by apply refilled_refl. }
  destruct (move_remote m live g p c Hinv Hpc E) as (m1 & g1 & Hrun & Hrf & Hsp).
  apply bind_inv in Hrun as (u & m0 & Hpop & Hpush).
  rewrite (bind_Some _ _ _ _ _ Hpop), (bind_Some _ _ _ _ _ Hpush).
  destruct (IH m1 live g1 p c (count + 1) (rf_inv _ _ _ _ _ _ _ _ Hrf) Hpc ltac:(lia) ltac:(lia))
    as (k & m' & g' & Hr & Hk & Hrf' & Hsp').
  exists (1 + k), m', g'. rewrite Hr. split_and!; [f_equal; f_equal; lia|lia|lia|by eapply refilled_trans|congruence].
Qed.

Lemma refill_central_spec fuel : forall m live g p s sp count, inv m live g ->
  let c := sp_class_index sp in in_arrays p c -> s ∈ g_all g -> m_spans m !! s = Some sp ->
  0 <= count <= VL_CACHE_REFILL -> VL_CACHE_REFILL - count < Z.of_nat fuel ->
  exists k m' g', refill_central fuel p c s count m = Some (count + k, m') /\
    0 <= k <= VL_CACHE_REFILL - count /\ refilled live p c k m m' g g' /\
    (count < VL_CACHE_REFILL -> sp_central_free sp <> NULL -> 0 < k).
Proof.
  induction fuel as [|fuel IH]; intros m live g p s sp count Hinv c Hpc Hs Hsp Hcount Hfuel; [lia|].
  cbn [refill_central]. rewrite (bind_Some _ _ _ _ _ (load_span_run s sp m Hsp)).
  destruct (Z.ltb_spec count VL_CACHE_REFILL) as [Hlt|Hge]; cbn [andb].
  2: { exists 0, m, g. rewrite ret_run, Z.add_0_r. split_and!; try done; try lia. by apply refilled_refl. }
  destruct (Z.eqb_spec (sp_central_free sp) NULL) as [E|E]; cbn [negb].
  { exists 0, m, g. rewrite ret_run, Z.add_0_r. split_and!; try done; try lia. by apply refilled_refl. }
  destruct (move_central m live g p c s sp Hinv Hpc Hs Hsp eq_refl E) as (m1 & g1 & Hrun & Hrf).
  apply bind_inv in Hrun as (u & m0 & Hpop & Hpush).
  rewrite (bind_Some _ _ _ _ _ Hpop), (bind_Some _ _ _ _ _ Hpush).
  destruct (rf_spans _ _ _ _ _ _ _ _ Hrf s sp Hs Hsp) as (sp1 & Hsp1 & Hst).
  pose proof (IH m1 live g1 p s sp1 (count + 1) (rf_inv _ _ _ _ _ _ _ _ Hrf)) as IH'.
  cbv zeta in IH'. rewrite (st_class _ _ Hst) in IH'. fold c in IH'.
  destruct (IH' Hpc ltac:(by rewrite (rf_all _ _ _ _ _ _ _ _ Hrf)) Hsp1 ltac:(lia) ltac:(lia))
    as (k & m' & g' & Hr & Hk & Hrf' & _).
  exists (1 + k), m', g'. rewrite Hr. split_and!; [f_equal; f_equal; lia|lia|lia|by eapply refilled_trans|lia].
Qed.

(** ** The search *)

Lemma find_refill_from_spec fuel : forall m h l, chain (central_next_of m) h l -> (length l < fuel)%nat ->
  exists s, find_refill_from fuel h m = Some (s, m) /\
    (s = NULL \/ (s ∈ l /\ exists sp, m_spans m !! s = Some sp /\ sp_central_free sp <> NULL)).
Proof.
  induction fuel as [|fuel IH]; intros m h l Hc Hf; [lia|]. cbn [find_refill_from].
  destruct l as [|s l]; cbn in Hc.
  { subst h. exists NULL. split; [done|by left]. }
  destruct Hc as (-> & Hs & n & Hn & Hc). destruct (Z.eqb_spec s NULL); [done|].
  unfold central_next_of in Hn. destruct (m_spans m !! s) as [sp|] eqn:Hsp; [|done]. cbn in Hn. simplify_eq.
  rewrite (bind_Some _ _ _ _ _ (load_span_run s sp m Hsp)).
  destruct (Z.eqb_spec (sp_central_free sp) NULL) as [E|E]; cbn [negb].
  - destruct (IH m _ l Hc) as (s' & Hr & Hs'); [cbn in Hf; lia|]. exists s'. split; [done|].
    destruct Hs' as [?|[? ?]]; [by left|]. right. split; [by right|done].
  - exists s. split; [done|]. right. split; [left|eauto].
Qed.

Lemma vl_find_refill_span_spec m live g c : inv m live g -> 0 <= c < VL_SIZE_CLASS_COUNT ->
  exists s, vl_find_refill_span c m = Some (s, m) /\
    (s = NULL \/ (s ∈ g_all g /\ exists sp, m_spans m !! s = Some sp /\ sp_class_index sp = c /\ sp_central_free sp <> NULL)).
Proof.
  intros Hinv Hc. unfold vl_find_refill_span, central_at. rewrite !bind_run. unfold deref.
  rewrite decide_True by done. rewrite bind_run. cbn [gets].
  pose proof (iv_spans _ _ _ Hinv) as Hso. destruct (so_cent _ _ Hso c Hc) as [Hch Hnd].
  unfold gets. destruct (find_refill_from_spec (span_fuel m) m _ _ Hch) as (s & Hr & Hs).
  { unfold span_fuel. apply Nat.lt_succ_r, NoDup_length_dom; [done|].
    intros v Hv. destruct (chain_dom _ _ _ _ Hch Hv) as [_ Hsome]. unfold central_next_of in Hsome.
    by apply fmap_is_Some in Hsome. }
  exists s. split; [done|]. destruct Hs as [->|(Hin & sp & Hsp & Hne)]; [by left|right].
  apply (so_cent_in _ _ Hso) in Hin as (Ha & sp' & Hsp' & Hcl). simplify_eq. eauto.
Qed.

(** ** Creating a span *)

Lemma span_object_pages_spec psize stride : 4096 <= psize <= 65536 -> 0 < stride <= 32848 ->
  let pages := span_object_pages psize stride in
  0 < pages <= 17 /\ stride <= pages * psize.
Proof.
  intros Hp Hs. cbv zeta. unfold span_object_pages. cbv zeta.
  set (area := if 64 * 1024 / 2 <? stride then w64 (stride * 2) else 64 * 1024).
  assert (Ha : stride <= area <= 65696 /\ 65536 <= area).
  { subst area. change (64 * 1024 / 2) with 32768. destruct (Z.ltb_spec 32768 stride); [|lia].
    rewrite w64_small by word_lia. lia. }
  rewrite w64_small by word_lia.
  pose proof (Z.div_mod (area + psize - 1) psize ltac:(lia)).
  pose proof (Z.mod_pos_bound (area + psize - 1) psize ltac:(lia)). nia.
Qed.

(** What the initialisation loop leaves alone. *)
Record same_rest (m m' : vl_memory) : Prop := {
  sr_globals : globals_same m m';
  sr_stats : mem_stats m' = mem_stats m;
  sr_caches : caches m' = caches m;
  sr_remote : remote m' = remote m;
  sr_calls : calls m' = calls m }.

Lemma same_rest_refl m : same_rest m m.
Proof. by split. Qed.

Lemma globals_same_trans m1 m2 m3 : globals_same m1 m2 -> globals_same m2 m3 -> globals_same m1 m3.
Proof. intros [] []. split; congruence. Qed.

Lemma same_rest_trans m1 m2 m3 : same_rest m1 m2 -> same_rest m2 m3 -> same_rest m1 m3.
Proof. intros [] []. split; try congruence. by eapply globals_same_trans. Qed.

(** The header the loop writes and the state after the objects of [l] (the last one
    first) were written. *)
Definition fresh_header (s capacity owner : Z) : vl_object_header :=
  mk_header VL_OBJECT_MAGIC VL_OBJECT_SMALL VL_OBJECT_FREE 0 capacity owner 0 s NULL 0 NULL.

Record init_state (m m' : vl_memory) (s capacity owner : Z) (sp : vl_span) (l : list Z) : Prop := {
  is_rest : same_rest m m';
  is_span : exists h, m_spans m' = <[s := set_sp_central_free h sp]> (m_spans m) /\ chain (link_of m') h l;
  is_headers : forall a, m_headers m' !! a =
    if decide (a + HEADER ∈ l) then Some (fresh_header s capacity owner) else m_headers m !! a;
  is_links : forall a, a ∉ l -> m_links m' !! a = m_links m !! a;
  is_bytes : forall a, (forall u, u ∈ l -> ~ (u <= a < u + WORD)) -> m_bytes m' !! a = m_bytes m !! a }.

Lemma span_init_object_spec m0 m s capacity owner sp l objects index :
  init_state m0 m s capacity owner sp l ->
  let u := objects + index * sp_object_stride sp + HEADER in
  u ∉ l -> u <> NULL -> mapped m s SPAN -> mapped m (u - HEADER) HEADER -> mapped m u WORD ->
  exists m', span_init_object s objects capacity owner index m = Some (tt, m') /\
    init_state m0 m' s capacity owner sp (u :: l).
Proof.
  intros [Hr (h & Hsp & Hch) Hh Hl Hb] u Hnu Hu Hm1 Hm2 Hm3. unfold span_init_object.
  assert (Hl0 : m_spans m !! s = Some (set_sp_central_free h sp)) by (by rewrite Hsp, lookup_insert_eq).
  rewrite (bind_Some _ _ _ _ _ (load_span_run _ _ _ Hl0)).
  cbn [set_sp_central_free sp_object_stride sp_central_free].
  replace (objects + index * sp_object_stride sp) with (u - HEADER) by (subst u; lia).
  rewrite (bind_Some _ _ _ _ _ (store_header_run _ _ _ Hm2)). set (m1 := set_m_headers _ m).
  unfold vl_object_user_from_header. replace (u - HEADER + HEADER) with u by lia.
  rewrite (bind_Some _ _ _ _ _ (store_link_run u h m1 Hm3)). set (m2 := linked u h m1).
  rewrite (upd_span_run s (set_sp_central_free h sp) _ m2 Hl0 Hm1). eexists. split; [done|].
  split.
  - eapply same_rest_trans; [done|]. by split.
  - exists u. split; [cbn; by rewrite Hsp, insert_insert_eq|]. cbn. split; [done|]. split; [done|].
    exists h. unfold link_of. cbn. rewrite lookup_insert_eq. split; [done|].
    apply (list_chain_frame _ _ _ _ Hch). intros v Hv. cbn. rewrite lookup_insert_ne; [done|]. by intros <-.
  - intros a. cbn. rewrite lookup_insert, Hh. fold (fresh_header s capacity owner).
    destruct (decide (u - HEADER = a)) as [<-|Ha].
    + rewrite decide_True; [done|]. replace (u - HEADER + HEADER) with u by lia. left.
    + destruct (decide (a + HEADER ∈ l)) as [Hin|Hnin]; [by rewrite decide_True by (by right)|].
      rewrite decide_False; [done|]. intros [?|?]%elem_of_cons; [lia|done].
  - intros a [Ha1 Ha2]%not_elem_of_cons. cbn. rewrite lookup_insert_ne by congruence. by apply Hl.
  - intros a Ha. change (m_bytes (linked u h m1) !! a = m_bytes m0 !! a).
    rewrite linked_bytes by (apply Ha; left). change (m_bytes m !! a = m_bytes m0 !! a).
    apply Hb. intros v Hv. apply Ha. by right.
Qed.

Lemma span_init_objects_spec n : forall m0 m s capacity owner sp l objects index,
  let user i := objects + i * sp_object_stride sp + HEADER in
  init_state m0 m s capacity owner sp l -> 0 < sp_object_stride sp -> mapped m0 s SPAN ->
  (forall i, index <= i < index + Z.of_nat n -> user i ∉ l /\ user i <> NULL /\
     mapped m0 (user i - HEADER) HEADER /\ mapped m0 (user i) WORD) ->
  exists m', span_init_objects n s objects capacity owner index m = Some (tt, m') /\
    init_state m0 m' s capacity owner sp (reverse (user <$> seqZ index (Z.of_nat n)) ++ l).
Proof.
  induction n as [|n IH]; intros m0 m s capacity owner sp l objects index user Hi Hst Hm Hall; cbn [span_init_objects].
  { exists m. by rewrite ret_run. }
  assert (Hmap : forall a k, mapped m0 a k -> mapped m a k).
  { intros a k. apply mapped_mono. by rewrite (gs_maps _ _ (sr_globals _ _ (is_rest _ _ _ _ _ _ _ Hi))). }
  destruct (Hall index ltac:(lia)) as (Hn & H0' & H1' & H2').
  destruct (span_init_object_spec m0 m s capacity owner sp l objects index Hi Hn H0' (Hmap _ _ Hm)
    (Hmap _ _ H1') (Hmap _ _ H2')) as (m1 & Hr & Hi1).
  rewrite (bind_Some _ _ _ _ _ Hr).
  destruct (IH m0 m1 s capacity owner sp (user index :: l) objects (index + 1) Hi1 Hst Hm) as (m' & Hr' & Hi').
  { intros i Hir. destruct (Hall i ltac:(lia)) as (Hni & ? & ? & ?). split_and!; try done.
    apply not_elem_of_cons. split; [|done]. unfold user. nia. }
  exists m'. split; [done|]. fold user in Hi'.
  rewrite seqZ_cons by lia. rewrite fmap_cons, reverse_cons, <- app_assoc.
  replace (Z.pred (Z.of_nat (S n))) with (Z.of_nat n) by lia.
  replace (Z.succ index) with (index + 1) by lia. exact Hi'.
Qed.

(** The state after [vl_span_create], field by field. *)
Record created (m m' : vl_memory) (s : Z) (sp : vl_span) (l : list Z) : Prop := {
  cr_init : initialized m' = initialized m;
  cr_page : page_size m' = page_size m;
  cr_maps : mappings m' = <[s := sp_mapping_size sp]> (mappings m);
  cr_heap : heap_ok (acquired s (sp_mapping_size sp) m);
  cr_bytes : mapped_bytes (mem_stats m') = mapped_bytes (mem_stats (acquired s (sp_mapping_size sp) m));
  cr_blocks : m_blocks m' = m_blocks m;
  cr_large : large_allocations m' = large_allocations m;
  cr_caches : forall r p c, cache_of m' r p c = cache_of m r p c;
  cr_live : same_live_stats m m';
  cr_spans : m_spans m' = <[s := sp]> (m_spans m);
  cr_headers : forall a, m_headers m' !! a =
    if decide (a + HEADER ∈ l) then Some (fresh_header s (sp_capacity sp) (sp_owner_p sp)) else m_headers m !! a;
  cr_links : forall a, a ∉ l -> m_links m' !! a = m_links m !! a;
  cr_chain : chain (link_of m') (sp_central_free sp) l;
  cr_contents : forall a, (forall u, u ∈ l -> ~ (u <= a < u + WORD)) -> m_bytes m' !! a = m_bytes m !! a;
  cr_all : all_spans m' = s /\ sp_all_next sp = all_spans m;
  cr_central : central m' = <[sp_class_index sp := s]> (central m) /\
    sp_central_next sp = default NULL (central m !! sp_class_index sp);
  cr_static : span_static m' s sp;
  cr_counts : sp_central_free_count sp = sp_object_count sp /\ sp_free_count sp = sp_object_count sp /\
    sp_cached_count sp = 0 /\ sp_active_count sp = 0;
  cr_objs : l = reverse (objs (page_size m) s sp) }.

Definition create_ghost (s : Z) (sp : vl_span) (l : list Z) (g : ghost) : ghost :=
  mk_ghost (fun pl => if decide (pl = PCentral s) then l else g_lst g pl)
    (fun u => if decide (u ∈ l) then Some (PCentral s) else g_loc g u)
    (s :: g_all g) (fun c => if decide (c = sp_class_index sp) then s :: g_cent g c else g_cent g c)
    (g_large g).
End refill.

Section create.
#[local] Set Default Proof Using "Type*".
Context `{os_memory_laws}.
Context (m m' : vl_memory) (live : gmap Z Z) (g : ghost) (s : Z) (sp : vl_span) (l : list Z).
Context (Hinv : inv m live g) (Hcr : created m m' s sp l) (Hfresh : fresh_range m s (sp_mapping_size sp)).

Let Hok' : heap_ok (acquired s (sp_mapping_size sp) m) := cr_heap _ _ _ _ _ Hcr.

Lemma create_range u : u ∈ l -> s + page_size m <= u - HEADER /\ u + sp_capacity sp <= s + sp_mapping_size sp /\ 8 <= sp_capacity sp.
Proof.
  rewrite (cr_objs _ _ _ _ _ Hcr), elem_of_reverse. intros Hu.
  assert (Hss : span_static (acquired s (sp_mapping_size sp) m) s sp).
  { destruct (cr_static _ _ _ _ _ Hcr). rewrite (cr_page _ _ _ _ _ Hcr) in *. split; try done. cbn. by rewrite lookup_insert_eq. }
  pose proof (object_bounds _ s sp u Hok' Hss Hu). pose proof (span_bounds _ s sp Hok' Hss). cbn in *. lia.
Qed.

Lemma old_not_created a n u : mapped m a n -> 0 < n -> u ∈ l -> a <> u /\ a + HEADER <> u.
Proof.
  intros Ha Hn Hu. pose proof (create_range u Hu).
  pose proof (fresh_range_notin m s _ a n Hfresh Ha Hn) as Hno. pose proof page_bounds as [Hpb _].
  rewrite <- (ho_page m (iv_heap _ _ _ Hinv)) in Hpb. unfold HEADER in *. split; intros E; apply Hno; lia.
Qed.

Lemma create_new : s ∉ g_all g /\ m_spans m !! s = None.
Proof.
  assert (HN : mappings m !! s = None).
  { eapply fresh_range_None; [apply Hinv|done|].
    pose proof (ho_maps _ Hok' s _ (lookup_insert_eq _ _ _)). lia. }
  split.
  - intros Hs. destruct (chain_dom _ _ _ _ (so_all _ _ (iv_spans _ _ _ Hinv)) Hs) as [_ [x Hx]].
    unfold all_next_of in Hx. destruct (m_spans m !! s) as [sp0|] eqn:E; [|done].
    pose proof (ss_map _ _ _ (so_static _ _ (iv_spans _ _ _ Hinv) s sp0 Hs E)). congruence.
  - destruct (m_spans m !! s) as [sp0|] eqn:E; [exfalso|done].
    pose proof (ho_spans _ (iv_heap _ _ _ Hinv) _ _ E) as Hm.
    pose proof (ho_maps _ Hok' s _ (lookup_insert_eq _ _ _)).
    eapply (fresh_range_notin m s _ s SPAN Hfresh Hm); [done|lia].
Qed.

Lemma create_link u : link_of m u <> None -> u ∉ l /\ link_of m' u = link_of m u.
Proof.
  intros Hu. destruct (link_of m u) as [n|] eqn:E; [|done].
  assert (Hn : u ∉ l).
  { intros Hin. by destruct (old_not_created u WORD u (ho_links _ (iv_heap _ _ _ Hinv) _ _ E) ltac:(done) Hin). }
  split; [done|]. unfold link_of in *. rewrite (cr_links _ _ _ _ _ Hcr) by done. done.
Qed.

Lemma create_header h hd : m_headers m !! h = Some hd -> m_headers m' !! h = Some hd.
Proof.
  intros Hh. rewrite (cr_headers _ _ _ _ _ Hcr), decide_False; [done|]. intros Hin.
  pose proof (ho_headers _ (iv_heap _ _ _ Hinv) _ _ Hh) as Hm.
  by destruct (old_not_created h HEADER (h + HEADER) Hm ltac:(done) Hin).
Qed.

Lemma create_heap : heap_ok m'.
Proof.
  assert (Hmap : forall a n, mapped (acquired s (sp_mapping_size sp) m) a n -> mapped m' a n).
  { intros a n. apply mapped_mono. by rewrite (cr_maps _ _ _ _ _ Hcr). }
  assert (Hnew : forall a n, s <= a -> a + n <= s + sp_mapping_size sp -> mapped m' a n).
  { intros a n ??. exists s, (sp_mapping_size sp). split; [|done]. apply (ss_map _ _ _ (cr_static _ _ _ _ _ Hcr)). }
  pose proof page_bounds as [Hpb _]. rewrite <- (ho_page m (iv_heap _ _ _ Hinv)) in Hpb.
  pose proof (ss_fits _ _ _ (cr_static _ _ _ _ _ Hcr)) as Hfits. rewrite (cr_page _ _ _ _ _ Hcr) in Hfits.
  pose proof (ss_count _ _ _ (cr_static _ _ _ _ _ Hcr)).
  destruct Hok' as [A1 A2 A3 A4 A5 A6 A7 A8 A9].
  split; rewrite ?(cr_init _ _ _ _ _ Hcr), ?(cr_page _ _ _ _ _ Hcr), ?(cr_maps _ _ _ _ _ Hcr),
    ?(cr_bytes _ _ _ _ _ Hcr), ?(cr_blocks _ _ _ _ _ Hcr); try done.
  - intros a x. rewrite (cr_spans _ _ _ _ _ Hcr), lookup_insert. case_decide; [intros _; subst|intros Hx; eauto].
    apply Hnew; [done|]. pose proof (class_table _ (ss_class _ _ _ (cr_static _ _ _ _ _ Hcr))) as Hc.
    cbv zeta in Hc. rewrite <- (ss_cap _ _ _ (cr_static _ _ _ _ _ Hcr)), <- (ss_stride _ _ _ (cr_static _ _ _ _ _ Hcr)) in Hc.
    unfold SPAN, HEADER in *. nia.
  - intros a x. rewrite (cr_headers _ _ _ _ _ Hcr). case_decide as E; [intros _|intros Hx; eauto].
    pose proof (create_range _ E). apply Hnew; unfold HEADER in *; lia.
  - intros a x Hx. destruct (decide (a ∈ l)) as [Hin|Hn].
    + pose proof (create_range _ Hin). apply Hnew; unfold HEADER, WORD in *; lia.
    + rewrite (cr_links _ _ _ _ _ Hcr) in Hx by done. eauto.
  - eauto.
Qed.

Let g' : ghost := create_ghost s sp l g.

Lemma create_old_span s0 : s0 ∈ g_all g -> m_spans m' !! s0 = m_spans m !! s0.
Proof.
  intros Hs0. destruct create_new as [Hs _]. rewrite (cr_spans _ _ _ _ _ Hcr), lookup_insert_ne; [done|].
  by intros <-.
Qed.

Lemma create_static s0 sp0 : s0 ∈ g_all g -> m_spans m !! s0 = Some sp0 -> span_static m' s0 sp0.
Proof.
  intros Hs0 Hsp0. destruct create_new as [Hs _].
  destruct (so_static _ _ (iv_spans _ _ _ Hinv) s0 sp0 Hs0 Hsp0). split; try done.
  - rewrite (cr_maps _ _ _ _ _ Hcr), lookup_insert_ne; [done|]. by intros <-.
  - by rewrite (cr_page _ _ _ _ _ Hcr).
Qed.

Lemma create_spans : spans_ok m' g'.
Proof.
  destruct create_new as [Hs HsN]. destruct (iv_spans _ _ _ Hinv) as [Ha Hnd Hc Hci Hss].
  destruct (cr_all _ _ _ _ _ Hcr) as [Hall Hnext]. destruct (cr_central _ _ _ _ _ Hcr) as [Hcen Hcnext].
  assert (Hs0 : s <> NULL) by (destruct Hfresh; unfold NULL; lia).
  assert (Hspm : m_spans m' !! s = Some sp) by (by rewrite (cr_spans _ _ _ _ _ Hcr), lookup_insert_eq).
  split; cbn [g' create_ghost g_all g_cent].
  - rewrite Hall. cbn. split; [done|]. split; [done|]. exists (all_spans m). unfold all_next_of at 1.
    rewrite Hspm. cbn. split; [by rewrite Hnext|]. apply (list_chain_frame _ _ _ _ Ha). intros v Hv.
    unfold all_next_of. by rewrite create_old_span.
  - by apply list.NoDup_cons.
  - intros c Hcr'. destruct (Hc c Hcr') as [Hch Hcnd].
    assert (Hch' : chain (central_next_of m') (default NULL (central m !! c)) (g_cent g c)).
    { apply (list_chain_frame _ _ _ _ Hch). intros v Hv. apply Hci in Hv as [Hv _].
      unfold central_next_of. by rewrite create_old_span. }
    rewrite Hcen, lookup_insert. case_decide as E.
    + subst c. rewrite decide_True by done. cbn. split.
      * split; [done|]. split; [done|]. exists (default NULL (central m !! sp_class_index sp)).
        unfold central_next_of at 1. rewrite Hspm. cbn. split; [by rewrite Hcnext|done].
      * apply list.NoDup_cons. split; [|done]. intros [Hin _]%Hci. done.
    + rewrite decide_False by congruence. done.
  - intros c v. rewrite elem_of_cons. destruct (decide (v = s)) as [->|Hvs].
    + rewrite Hspm. case_decide as E.
      * split; [intros _|intros _; left]. split; [by left|]. eauto.
      * split; [by intros [? _]%Hci|]. intros [_ (x & Hx & Hcx)]. simplify_eq.
    + assert (v ∈ (if decide (c = sp_class_index sp) then s :: g_cent g c else g_cent g c) <-> v ∈ g_cent g c) as ->.
      { case_decide; [|done]. rewrite elem_of_cons. naive_solver. }
      rewrite Hci, (cr_spans _ _ _ _ _ Hcr). rewrite lookup_insert_ne by congruence. naive_solver.
  - intros v x [->|Hv]%elem_of_cons Hx.
    + rewrite Hspm in Hx. simplify_eq. apply Hcr.
    + rewrite create_old_span in Hx by done. by apply create_static.
Qed.

Lemma create_place_head pl : valid (g_all g) pl -> place_head m' pl = place_head m pl.
Proof.
  destruct pl as [s0|r p c]; cbn.
  - intros Hs0. by rewrite create_old_span.
  - intros _. by rewrite (cr_caches _ _ _ _ _ Hcr).
Qed.

Lemma create_old_loc u pl : g_loc g u = Some pl -> u ∉ l.
Proof.
  intros Hu. pose proof (lo_valid _ _ _ _ (iv_lists _ _ _ Hinv) _ _ Hu) as Hv.
  destruct (lo_chain _ _ _ _ (iv_lists _ _ _ Hinv) _ Hv) as (h & Hh & Hch).
  apply (lo_loc _ _ _ _ (iv_lists _ _ _ Hinv)) in Hu.
  destruct (chain_dom _ _ _ _ Hch Hu) as [_ [n Hn]]. apply (create_link u). by rewrite Hn.
Qed.

Lemma create_lists : lists_ok m' (g_all g') (g_lst g') (g_loc g').
Proof.
  destruct create_new as [Hs HsN]. destruct (iv_lists _ _ _ Hinv) as [Hc Hnd Hloc Hval].
  assert (Hnil : g_lst g (PCentral s) = []).
  { destruct (g_lst g (PCentral s)) as [|u l0] eqn:E; [done|]. exfalso. apply Hs.
    apply (Hval (PCentral s) u), Hloc. rewrite E. left. }
  split; cbn [g' create_ghost g_all g_lst g_loc].
  - intros pl Hv. case_decide as E.
    + subst pl. exists (sp_central_free sp). split; [|apply Hcr]. cbn.
      by rewrite (cr_spans _ _ _ _ _ Hcr), lookup_insert_eq.
    + assert (Hv' : valid (g_all g) pl).
      { destruct pl as [s0|]; [|done]. cbn in Hv |- *. apply elem_of_cons in Hv as [->|?]; done. }
      destruct (Hc pl Hv') as (h & Hh & Hch). exists h. rewrite create_place_head by done. split; [done|].
      apply (list_chain_frame _ _ _ _ Hch). intros u Hu. destruct (chain_dom _ _ _ _ Hch Hu) as [_ [n Hn]].
      apply create_link. by rewrite Hn.
  - intros pl. case_decide; [|done]. rewrite (cr_objs _ _ _ _ _ Hcr), reverse_Permutation.
    rewrite <- (cr_page _ _ _ _ _ Hcr). apply objs_nodup; [apply create_heap|apply Hcr].
  - intros pl u. case_decide as E.
    + subst pl. case_decide as E'; [done|]. split; [done|]. intros Hu%Hloc.
      rewrite Hnil in Hu. by apply not_elem_of_nil in Hu.
    + rewrite Hloc. case_decide as E'; [|done]. split; [|congruence]. by intros ?%create_old_loc.
  - intros pl u. case_decide as E; [intros [= <-]; cbn; left|]. intros Hu%Hval.
    destruct pl; [cbn in *; by right|done].
Qed.

Lemma create_object_old u s0 sp0 : object_in m' (g_all g') u s0 sp0 ->
  (s0 = s /\ sp0 = sp /\ u ∈ l) \/ (object_in m (g_all g) u s0 sp0 /\ u ∉ l).
Proof.
  destruct create_new as [Hs _]. unfold object_in. cbn [g' create_ghost g_all]. rewrite (cr_page _ _ _ _ _ Hcr).
  intros (Hs0 & Hsp0 & Hu). apply elem_of_cons in Hs0 as [->|Hs0].
  - rewrite (cr_spans _ _ _ _ _ Hcr), lookup_insert_eq in Hsp0. assert (sp0 = sp) as -> by congruence. left.
    by rewrite (cr_objs _ _ _ _ _ Hcr), elem_of_reverse.
  - rewrite create_old_span in Hsp0 by done. right. split; [done|]. intros Hl.
    assert (Hin : object_in m (g_all g) u s0 sp0) by done.
    pose proof (of_link _ _ _ _ (object_facts_of _ _ _ _ _ _ Hinv Hin)) as Hm.
    by destruct (old_not_created u WORD u Hm ltac:(done) Hl).
Qed.

Lemma create_object_new u s0 sp0 : object_in m (g_all g) u s0 sp0 -> object_in m' (g_all g') u s0 sp0.
Proof.
  intros (Hs0 & Hsp0 & Hu). unfold object_in. rewrite (cr_page _ _ _ _ _ Hcr), create_old_span by done.
  split; [by right|done].
Qed.

Lemma create_loc_old u : u ∉ l -> g_loc g' u = g_loc g u.
Proof. intros Hu. cbn. by rewrite decide_False. Qed.

Lemma create_loc_new u : u ∈ l -> g_loc g' u = Some (PCentral s).
Proof. intros Hu. cbn. by rewrite decide_True. Qed.

Lemma create_objects : objects_ok m' g'.
Proof.
  destruct create_new as [Hs HsN]. destruct (iv_objects _ _ _ Hinv) as [Hcnt Hhd Hfit Hloc].
  split.
  - intros s0 sp0 Hs0 Hsp0.
    destruct (decide (s0 = s)) as [->|Hne].
    + rewrite (cr_spans _ _ _ _ _ Hcr), lookup_insert_eq in Hsp0.
      assert (sp0 = sp) as -> by congruence. rewrite (cr_page _ _ _ _ _ Hcr).
      assert (Hl : forall u, u ∈ objs (page_size m) s sp -> g_loc g' u = Some (PCentral s)).
      { intros u Hu. apply create_loc_new. by rewrite (cr_objs _ _ _ _ _ Hcr), elem_of_reverse. }
      assert (Hlen : Z.of_nat (length (objs (page_size m) s sp)) = sp_object_count sp).
      { unfold objs. rewrite length_fmap, length_seqZ. pose proof (ss_count _ _ _ (cr_static _ _ _ _ _ Hcr)). lia. }
      assert (Hall : forall (P : option place -> bool) b, P (Some (PCentral s)) = b ->
        tally (fun u => P (g_loc g' u)) (objs (page_size m) s sp) = if b then sp_object_count sp else 0).
      { intros P b Hb. rewrite (tally_ext _ (fun _ => b)) by (intros u Hu; by rewrite Hl).
        rewrite <- Hlen. clear. induction (objs (page_size m) s sp) as [|u lo IH]; [by destruct b|].
        unfold tally in *. cbn [foldr length]. rewrite IH. destruct b; cbn [Z.b2z]; lia. }
      destruct (cr_counts _ _ _ _ _ Hcr) as (C1 & C2 & C3 & C4).
      split; [rewrite C1, (Hall _ true); done|rewrite C3, (Hall _ false); done|rewrite C4, (Hall _ false); done|lia].
    + cbn [g' create_ghost g_all] in Hs0. apply elem_of_cons in Hs0 as [|Hs0]; [done|].
      rewrite create_old_span in Hsp0 by done. rewrite (cr_page _ _ _ _ _ Hcr).
      assert (Hl : forall u, u ∈ objs (page_size m) s0 sp0 -> g_loc g' u = g_loc g u).
      { intros u Hu. apply create_loc_old. intros Hul.
        destruct (create_object_old u s0 sp0 (create_object_new u s0 sp0 ltac:(done))) as [(? & _)|[_ ?]]; done. }
      destruct (Hcnt s0 sp0 Hs0 Hsp0) as [C1 C2 C3 C4].
      split; [rewrite C1|rewrite C2|rewrite C3|done]; apply tally_ext; intros u Hu; by rewrite Hl.
  - intros u s0 sp0 Hin. destruct (create_object_old u s0 sp0 Hin) as [(-> & -> & Hu)|[Hold Hu]].
    + exists (fresh_header s (sp_capacity sp) (sp_owner_p sp)).
      rewrite (cr_headers _ _ _ _ _ Hcr), decide_True by (by replace (u - HEADER + HEADER) with u by lia).
      split; [done|]. split; try done. by rewrite create_loc_new.
    + destruct (Hhd u s0 sp0 Hold) as (hd & Hh & Hk). exists hd. split; [by apply create_header|].
      destruct Hk. split; try done. by rewrite create_loc_old.
  - intros u s0 sp0 Hin. destruct (create_object_old u s0 sp0 Hin) as [(-> & -> & Hu)|[Hold Hu]].
    + by rewrite create_loc_new.
    + rewrite create_loc_old by done. by apply Hfit.
  - intros u pl. destruct (decide (u ∈ l)) as [Hu|Hu].
    + intros _. exists s, sp. unfold object_in. cbn [g' create_ghost g_all].
      rewrite (cr_spans _ _ _ _ _ Hcr), lookup_insert_eq, (cr_page _ _ _ _ _ Hcr).
      rewrite (cr_objs _ _ _ _ _ Hcr), elem_of_reverse in Hu. split; [left|done].
    + rewrite create_loc_old by done. intros (s0 & sp0 & ?)%Hloc. exists s0, sp0. by apply create_object_new.
Qed.

Lemma create_large : large_ok m' g'.
Proof.
  destruct create_new as [Hs HsN]. destruct (iv_large _ _ _ Hinv) as [Hc Hnd Hh Hd].
  assert (Hl : forall h, h ∈ g_large g -> exists hd, m_headers m !! h = Some hd /\ m_headers m' !! h = Some hd).
  { intros h Hin. destruct (chain_dom _ _ _ _ Hc Hin) as [_ [n Hn]]. unfold large_next_of in Hn.
    destruct (m_headers m !! h) as [hd|] eqn:E; [|done]. eauto using create_header. }
  split; cbn [g' create_ghost g_large g_all]; try done.
  - rewrite (cr_large _ _ _ _ _ Hcr). apply (list_chain_frame _ _ _ _ Hc). intros h Hin.
    destruct (Hl h Hin) as (hd & E1 & E2). unfold large_next_of. by rewrite E1, E2.
  - intros h hd Hin Hhd. destruct (Hl h Hin) as (hd0 & E1 & E2). simplify_eq.
    destruct (Hh h hd Hin E1). split; try done. rewrite (cr_maps _ _ _ _ _ Hcr), lookup_insert_ne; [done|].
    intros <-. destruct Hfresh as (_ & _ & _ & Hdis). specialize (Hdis _ _ lh_map).
    pose proof (ho_maps _ Hok' s _ (lookup_insert_eq _ _ _)).
    pose proof (ho_maps _ (iv_heap _ _ _ Hinv) _ _ lh_map). unfold disjoint_range in Hdis. lia.
  - intros h Hin [->|Ha]%elem_of_cons; [|by apply (Hd h)].
    destruct (Hl s Hin) as (hd & E1 & _). pose proof (lh_map _ _ _ (Hh _ _ Hin E1)) as Hmap.
    pose proof (ho_maps _ Hok' s _ (lookup_insert_eq _ _ _)).
    assert (mappings m !! s = None) by (eapply fresh_range_None; [apply Hinv|done|lia]). congruence.
Qed.

Lemma create_block u hd : block m' g' u hd <-> block m g u hd.
Proof.
  split.
  - intros [Hh [Hl|(s0 & sp0 & Hin & Hloc)]].
    + split; [|by left]. destruct (chain_dom _ _ _ _ (la_chain _ _ (iv_large _ _ _ Hinv)) Hl) as [_ [n Hn]].
      unfold large_next_of in Hn. destruct (m_headers m !! (u - HEADER)) as [hd0|] eqn:E; [|done].
      apply create_header in E. congruence.
    + destruct (create_object_old u s0 sp0 Hin) as [(-> & -> & Hu)|[Hold Hu]].
      { rewrite create_loc_new in Hloc by done. done. }
      rewrite create_loc_old in Hloc by done. destruct (oo_header _ _ (iv_objects _ _ _ Hinv) u s0 sp0 Hold) as (hd0 & E & _).
      pose proof E as E'. apply create_header in E'. simplify_eq. split; [done|]. right. eauto.
  - intros [Hh [Hl|(s0 & sp0 & Hin & Hloc)]]; (split; [by apply create_header|]); [by left|right].
    exists s0, sp0. pose proof (create_object_new _ _ _ Hin) as Hin'. split; [done|].
    destruct (create_object_old u s0 sp0 Hin') as [(-> & _ & Hu)|[_ Hu]].
    + destruct create_new as [Hs _]. by destruct Hs, Hin.
    + by rewrite create_loc_old.
Qed.

Lemma create_inv : inv m' live g' /\ keeps live m m'.
Proof.
  split.
  - split; [apply create_heap|apply create_spans|apply create_lists| |apply create_objects|apply create_large|].
    + intros r p c Hpc. rewrite (cr_caches _ _ _ _ _ Hcr), (iv_counts _ _ _ Hinv) by done.
      cbn. by rewrite decide_False.
    + destruct (iv_live _ _ _ Hinv) as [Hl Hr Ho Hb Hw]. destruct (cr_live _ _ _ _ _ Hcr) as [E1 E2].
      split; [|intros u hd Hbk%create_block; by apply (Hr u)|congruence|congruence|by rewrite E1, E2].
      intros u r. rewrite Hl. by setoid_rewrite create_block.
  - intros u Hu. destruct (live_block _ _ _ _ Hinv Hu) as (hd & Hb). exists hd, hd. pose proof Hb as [Hh _].
    split_and!; try done; [by apply create_header|].
    intros a Ha. apply (cr_contents _ _ _ _ _ Hcr). intros v Hv Hav. pose proof (create_range v Hv).
    destruct (block_range m live g u hd Hinv Hb) as (b & k & Hbk & ? & ? & _).
    destruct Hfresh as (_ & _ & _ & Hdis). specialize (Hdis _ _ Hbk).
    unfold disjoint_range, HEADER, WORD in *. pose proof page_bounds as [Hpb _].
    rewrite <- (ho_page m (iv_heap _ _ _ Hinv)) in Hpb. lia.
Qed.
End create.

Section span_create.
#[local] Set Default Proof Using "Type*".
Context `{os_memory_laws}.

Lemma current_p_range me : 0 <= me -> 0 <= vl_memory_current_p me < VL_MEMORY_MAX_P.
Proof. unfold vl_memory_current_p, VL_MEMORY_MAX_P. intros Hme. destruct (Z.ltb_spec me 64); lia. Qed.

Lemma vl_span_insert_central_run m s sp : m_spans m !! s = Some sp -> mapped m s SPAN ->
  0 <= sp_class_index sp < VL_SIZE_CLASS_COUNT ->
  vl_span_insert_central s m = Some (tt, set_central (<[sp_class_index sp := s]> (central m))
    (set_m_spans (<[s := set_sp_central_next (default NULL (central m !! sp_class_index sp)) sp]> (m_spans m)) m)).
Proof.
  intros Hsp Hm Hc. unfold vl_span_insert_central, central_at, store_central.
  rewrite (bind_Some _ _ _ _ _ (load_span_run s sp m Hsp)), bind_run. unfold deref.
  rewrite decide_True by done. rewrite (bind_Some _ _ _ _ _ (upd_span_run s sp _ m Hsp Hm)).
  by rewrite decide_True.
Qed.

Lemma vl_span_create_spec m live g me c : inv m live g -> 0 <= me -> 0 <= c < VL_SIZE_CLASS_COUNT ->
  exists r m', vl_span_create me c NULL m = Some (r, m') /\
    ((r.1 <> VL_OK /\ (m' = m \/ m' = tick m) /\ exists bytes, vl_size_class_capacity c < bytes <= 2 ^ 21 /\ refuses m bytes) \/
     exists s sp l, r = (VL_OK, s) /\ created m m' s sp l /\ fresh_range m s (sp_mapping_size sp) /\
       sp_class_index sp = c /\ sp_central_free sp <> NULL).
Proof.
  intros Hinv Hme Hc. pose proof (iv_heap _ _ _ Hinv) as Hok. unfold vl_span_create.
  destruct (Z.eqb_spec NULL NULL); [|done]. destruct (Z.leb_spec VL_SIZE_CLASS_COUNT c); [lia|]. cbn [negb orb].
  set (cap := vl_size_class_capacity c). set (stride := vl_span_object_stride cap).
  pose proof (class_table c Hc) as (Hcap & Hstr & _ & Hstr'). fold cap in Hcap, Hstr, Hstr'. fold stride in Hstr, Hstr'.
  pose proof page_bounds as [Hpb _]. rewrite <- (ho_page _ Hok) in Hpb.
  rewrite bind_run. unfold gets. set (ps := page_size m) in *.
  destruct (span_object_pages_spec ps stride Hpb ltac:(unfold HEADER in *; lia)) as [Hpg Hsp].
  set (pg := span_object_pages ps stride) in *.
  destruct (Z.eqb_spec pg 0); [lia|]. destruct (Z.eqb_spec pg SIZE_MAX); [word_lia|]. cbn [orb].
  rewrite w64_small by word_lia.
  destruct (vl_page_heap_acquire_spec m (pg + 1) Hok ltac:(lia)) as (r & Hr & Hcase). fold ps in Hcase.
  rewrite bind_run, Hr. destruct Hcase as [(E1 & E2 & Href)|(s & -> & Hfresh & Hbytes & HokA)].
  { destruct r as [[b0 k0] mr]. cbn in E1, E2. simplify_eq. cbn [fst snd]. destruct (Z.eqb_spec NULL NULL); [|done].
    eexists _, mr. split; [done|]. left. split_and!; [done|done|]. exists ((pg + 1) * ps). split; [fold cap; unfold HEADER in *; nia|done]. }
  cbn [fst snd]. set (size := (pg + 1) * ps) in *. set (mA := acquired s size m) in *.
  pose proof Hfresh as (Hs0 & _ & Hhigh & _).
  destruct (Z.eqb_spec s NULL); [unfold NULL in *; lia|].
  rewrite w64_small by (unfold size; word_lia). replace (size - ps) with (pg * ps) by (unfold size; lia).
  set (count := pg * ps / stride). set (owner := vl_memory_current_p me).
  pose proof (Z.div_mod (pg * ps) stride ltac:(unfold HEADER in *; lia)) as Hdm. fold count in Hdm.
  pose proof (Z.mod_pos_bound (pg * ps) stride ltac:(unfold HEADER in *; lia)) as Hmb.
  assert (Hcount : 0 < count) by (unfold HEADER in *; nia).
  set (sp0 := mk_span s size c cap stride count 0 0 0 0 owner NULL NULL NULL).
  assert (Hin : forall a n, s <= a -> a + n <= s + size -> mapped mA a n).
  { intros a n' ??. exists s, size. split; [cbn; by rewrite lookup_insert_eq|done]. }
  assert (Hmspan : mapped mA s SPAN) by (apply Hin; unfold SPAN, size; nia).
  unfold store_span at 1. rewrite bind_run. rewrite decide_True by exact Hmspan.
  set (m1 := set_m_spans (<[s := sp0]> (m_spans mA)) mA).
  destruct (Z.eqb_spec count 0); [lia|].
  pose (user := fun i => (s + ps) + i * stride + HEADER).
  destruct (span_init_objects_spec (Z.to_nat count) m1 m1 s cap owner sp0 [] (s + ps) 0) as (m2 & Hloop & Hinit).
  { split; [apply same_rest_refl| |done|done|done]. exists NULL. split; [|done]. cbn. by rewrite insert_insert_eq. }
  { change (0 < stride). unfold HEADER in *. lia. }
  { exact Hmspan. }
  { intros i Hi. change (s + ps + i * sp_object_stride sp0 + HEADER) with (user i). split; [apply not_elem_of_nil|].
    assert (user i - HEADER + stride <= s + size /\ s + ps <= user i - HEADER).
    { unfold user, size. rewrite Z2Nat.id in Hi by lia. nia. }
    split_and!; [unfold NULL, HEADER in *; lia|apply Hin; unfold HEADER in *; lia|apply Hin; unfold WORD, HEADER in *; lia]. }
  rewrite (bind_Some _ _ _ _ _ Hloop). rewrite app_nil_r, Z2Nat.id in Hinit by lia.
  change (sp_object_stride sp0) with stride in Hinit. set (l := reverse _) in Hinit.
  destruct Hinit as [Hrest (h & Hspans & Hchain) Hheaders Hlinks Hcontents].
  destruct Hrest as [[R1 R2 R3 R4 R5 R6 R7 R8] R9 R10 R11 R12].
  set (sp1 := set_sp_central_free h sp0) in *.
  assert (Hl2 : m_spans m2 !! s = Some sp1) by (by rewrite Hspans, lookup_insert_eq).
  assert (Hm2 : mapped m2 s SPAN) by (eapply mapped_mono; [|exact Hmspan]; rewrite R3; done).
  rewrite bind_run. unfold gets. rewrite (bind_Some _ _ _ _ _ (upd_span_run s sp1 _ m2 Hl2 Hm2)).
  set (sp2 := set_sp_all_next _ _). set (m3 := set_m_spans _ m2).
  rewrite bind_run. unfold modify. set (m4 := set_all_spans s m3).
  assert (Hl4 : m_spans m4 !! s = Some sp2) by (cbn; by rewrite lookup_insert_eq).
  rewrite (bind_Some _ _ _ _ _ (vl_span_insert_central_run m4 s sp2 Hl4 Hm2 Hc)). rewrite ret_run.
  set (sp3 := set_sp_central_next _ sp2). set (m5 := set_central _ _).
  eexists _, _. split; [done|]. right. exists s, sp3, l.
  split; [done|]. split; [|split; [exact Hfresh|split; [done|]]].
  2: { intros E. apply (chain_nil _ _ _ Hchain) in E. apply (f_equal length) in E. unfold l in E.
       rewrite length_reverse, length_fmap, length_seqZ in E. cbn in E. lia. }
  assert (Hmap5 : mappings m5 = <[s := size]> (mappings m)) by exact R3.
  split.
  - exact R1.
  - exact R2.
  - exact Hmap5.
  - exact HokA.
  - change (mapped_bytes (mem_stats m2) = mapped_bytes (mem_stats mA)). by rewrite R9.
  - exact R5.
  - exact R8.
  - intros r p c0. change (cache_of m2 r p c0 = cache_of m r p c0). unfold cache_of. by rewrite R10, R11.
  - split; [change (active_objects (mem_stats m2) = active_objects (mem_stats m))|
            change (active_bytes (mem_stats m2) = active_bytes (mem_stats m))]; by rewrite R9.
  - change (<[s := sp3]> (<[s := sp2]> (m_spans m2)) = <[s := sp3]> (m_spans m)).
    rewrite Hspans. change (m_spans m1) with (<[s := sp0]> (m_spans m)). by rewrite !insert_insert_eq.
  - exact Hheaders.
  - exact Hlinks.
  - exact Hchain.
  - exact Hcontents.
  - split; [reflexivity|]. exact R7.
  - split; [change (<[c := s]> (central m2) = <[c := s]> (central m)); by rewrite R6|].
    change (default NULL (central m2 !! c) = default NULL (central m !! c)). by rewrite R6.
  - split; [reflexivity| |exact Hc|reflexivity|reflexivity|exact Hcount| |by apply current_p_range].
    + change (mappings m5 !! s = Some size). rewrite Hmap5. apply lookup_insert_eq.
    + change (page_size m2 + count * stride <= size). rewrite R2. change (page_size m1) with ps. unfold size. lia.
  - split; [reflexivity|]. split; [reflexivity|]. split; reflexivity.
  - unfold l, objs. change (sp_object_count sp3) with count. change (sp_object_stride sp3) with stride. reflexivity.
Qed.

Lemma keeps_same m m' live g : inv m live g -> m_headers m' = m_headers m -> m_bytes m' = m_bytes m -> keeps live m m'.
Proof.
  intros Hinv Eh Eb u Hu. destruct (live_block _ _ _ _ Hinv Hu) as (hd & Hhd & _).
  exists hd, hd. rewrite Eh, Eb. done.
Qed.

Lemma tick_same m : same_store m (tick m).
Proof. by split. Qed.

(** What a step that may create a span does, seen from outside. *)
Record refill_effect (live : gmap Z Z) (p c : Z) (m m' : vl_memory) (g' : ghost) : Prop := {
  re_inv : inv m' live g';
  re_keeps : keeps live m m';
  re_live : same_live_stats m m';
  re_bound : forall p' c', in_arrays p' c' -> exists k, 0 <= k <= VL_CACHE_REFILL /\
    ca_count (cache_of m' false p' c') = ca_count (cache_of m false p' c') + (if decide ((p, c) = (p', c')) then k else 0) }.

Lemma created_effect m m' live g p c s sp l : inv m live g -> created m m' s sp l ->
  fresh_range m s (sp_mapping_size sp) -> refill_effect live p c m m' (create_ghost s sp l g).
Proof.
  intros Hinv Hcr Hf. destruct (create_inv m m' live g s sp l Hinv Hcr Hf) as [Hi Hk].
  split; [done|done|apply Hcr|]. intros p' c' _. exists 0. rewrite (cr_caches _ _ _ _ _ Hcr).
  unfold VL_CACHE_REFILL. split; [lia|]. case_decide; lia.
Qed.

Lemma tick_effect m m' live g p c : inv m live g -> m' = m \/ m' = tick m -> refill_effect live p c m m' g.
Proof.
  intros Hinv Hm. assert (Hs : same_store m m') by (destruct Hm as [->| ->]; by split).
  split; [by eapply alloc_inv_same|eapply keeps_same; [done|apply Hs|by destruct Hm as [->| ->]]|split; apply Hs|].
  intros p' c' _. exists 0. unfold VL_CACHE_REFILL, cache_of. rewrite (sm_caches _ _ Hs).
  split; [lia|]. case_decide; lia.
Qed.

(** The central part of [vl_refill_cache]: pick or create a span, then take from it. *)
Lemma refill_span m live g me c span : inv m live g -> 0 <= me -> 0 <= c < VL_SIZE_CLASS_COUNT ->
  (span = NULL \/ (span ∈ g_all g /\ exists sp, m_spans m !! span = Some sp /\ sp_class_index sp = c /\ sp_central_free sp <> NULL)) ->
  exists created m1 g1, (if span =? NULL then vl_span_create me c span else mret (VL_OK, span)) m = Some (created, m1) /\
    refill_effect live (vl_memory_current_p me) c m m1 g1 /\
    ((created.1 <> VL_OK /\ exists bytes, vl_size_class_capacity c < bytes <= 2 ^ 21 /\ refuses m bytes) \/
     (created.1 = VL_OK /\ created.2 ∈ g_all g1 /\ exists sp, m_spans m1 !! created.2 = Some sp /\
        sp_class_index sp = c /\ sp_central_free sp <> NULL)) /\
    (forall p' c', cache_of m1 false p' c' = cache_of m false p' c').
Proof.
  intros Hinv Hme Hc Hspan. destruct (Z.eqb_spec span NULL) as [->|Hne].
  - destruct (vl_span_create_spec m live g me c Hinv Hme Hc) as (r & m1 & Hr & [(Hst & Hm & Href)|(s & sp & l & -> & Hcr & Hf & Hcl & Hcf)]).
    + exists r, m1, g. split; [done|]. split; [by apply tick_effect|]. split; [left; done|].
      by destruct Hm as [->| ->].
    + eexists _, m1, (create_ghost s sp l g). split; [done|]. split; [by apply created_effect|].
      split; [right|intros; by rewrite (cr_caches _ _ _ _ _ Hcr)].
      split; [done|]. split; [left|]. exists sp. by rewrite (cr_spans _ _ _ _ _ Hcr), lookup_insert_eq.
  - destruct Hspan as [?|[Hin Hsp]]; [done|]. eexists _, m, g. split; [done|].
    split; [by apply tick_effect; [|left]|]. split; [right; done|done].
Qed.

Lemma vl_refill_cache_spec m live g me c : inv m live g -> 0 <= me -> 0 <= c < VL_SIZE_CLASS_COUNT ->
  exists st m' g', vl_refill_cache me c m = Some (st, m') /\
    refill_effect live (vl_memory_current_p me) c m m' g' /\
    (st = VL_OK -> ca_head (cache_of m' false (vl_memory_current_p me) c) <> NULL) /\
    (st <> VL_OK -> exists bytes, vl_size_class_capacity c < bytes <= 2 ^ 21 /\ refuses m bytes).
Proof.
  intros Hinv Hme Hc. set (p := vl_memory_current_p me).
  assert (Hpc : in_arrays p c) by (split; [by apply current_p_range|done]).
  unfold vl_refill_cache. cbv zeta. fold p.
  destruct (vl_find_refill_span_spec m live g c Hinv Hc) as (span & Hfind & Hspan).
  rewrite (bind_Some _ _ _ _ _ Hfind).
  destruct (refill_remote_spec REFILL_FUEL m live g p c 0 Hinv Hpc) as (k & m1 & g1 & Hr1 & Hk & Hrf1 & Hsp1);
    [unfold VL_CACHE_REFILL; lia|unfold VL_CACHE_REFILL, REFILL_FUEL; lia|].
  rewrite (bind_Some _ _ _ _ _ Hr1). rewrite Z.add_0_l.
  pose proof (rf_inv _ _ _ _ _ _ _ _ Hrf1) as Hinv1.
  assert (Hcnt0 : 0 <= ca_count (cache_of m false p c)) by (apply (cache_count_word m live g false p c); done).
  assert (Hlive1 : same_live_stats m m1) by (by unfold same_live_stats; rewrite (rf_stats _ _ _ _ _ _ _ _ Hrf1)).
  destruct (Z.eqb_spec k VL_CACHE_REFILL) as [->|Hk32].
  { exists VL_OK, m1, g1. split; [done|]. split; [|split; [intros _|done]].
    - split; [done|apply Hrf1|done|]. intros p' c' Hpc'. exists VL_CACHE_REFILL.
      split; [unfold VL_CACHE_REFILL; lia|]. by apply (rf_cache _ _ _ _ _ _ _ _ Hrf1).
    - eapply cache_nonempty; [done..|]. rewrite (rf_cache _ _ _ _ _ _ _ _ Hrf1), decide_True by done.
      unfold VL_CACHE_REFILL. lia. }
  rewrite <- (rf_all _ _ _ _ _ _ _ _ Hrf1), <- Hsp1 in Hspan.
  destruct (refill_span m1 live g1 me c span Hinv1 Hme Hc Hspan) as (cr & m2 & g2 & Hr2 & Heff & Hcase & Hcaches).
  rewrite (bind_Some _ _ _ _ _ Hr2).
  pose proof (re_inv _ _ _ _ _ _ Heff) as Hinv2. destruct (re_live _ _ _ _ _ _ Heff) as [Ho2 Hb2].
  assert (Hcount2 : forall p' c', in_arrays p' c' -> ca_count (cache_of m2 false p' c') =
    ca_count (cache_of m false p' c') + (if decide ((p, c) = (p', c')) then k else 0)).
  { intros. rewrite Hcaches. by apply (rf_cache _ _ _ _ _ _ _ _ Hrf1). }
  destruct Hcase as [[Hst Href]|(Hst & Hin & sp & Hsp & Hcl & Hcf)].
  { rewrite decide_True by done. exists VL_ERROR_OUT_OF_MEMORY, m2, g2. split; [done|]. split; [|split; [done|intros _]].
    - split; [done|eapply keeps_trans; [apply Hrf1|apply Heff]|split; etransitivity; [exact Ho2|apply Hlive1|exact Hb2|apply Hlive1]|].
      intros p' c' Hpc'. exists k. split; [lia|]. by apply Hcount2.
    - destruct Href as (bytes & Hb & Href). exists bytes. split; [done|]. unfold refuses in *.
      by rewrite (rf_stats _ _ _ _ _ _ _ _ Hrf1), (rf_maps _ _ _ _ _ _ _ _ Hrf1), (rf_calls _ _ _ _ _ _ _ _ Hrf1) in Href. }
  rewrite decide_False by (by intros []).
  pose proof (refill_central_spec REFILL_FUEL m2 live g2 p (cr.2) sp k Hinv2) as Hcs. cbv zeta in Hcs. rewrite Hcl in Hcs.
  destruct (Hcs Hpc Hin Hsp ltac:(lia) ltac:(unfold VL_CACHE_REFILL, REFILL_FUEL; lia))
    as (k' & m3 & g3 & Hr3 & Hk' & Hrf3 & Hpos).
  rewrite (bind_Some _ _ _ _ _ Hr3). pose proof (Hpos ltac:(unfold VL_CACHE_REFILL in *; lia) Hcf) as Hk0.
  unfold count_refill. destruct (Z.eqb_spec (k + k') 0); [lia|]. cbn [negb].
  rewrite bind_run. unfold modify. rewrite ret_run. set (m4 := upd_stats _ m3).
  assert (Hsame : same_store m3 m4) by (by split).
  pose proof (rf_inv _ _ _ _ _ _ _ _ Hrf3) as Hinv3.
  exists VL_OK, m4, g3. split; [done|]. split; [|split; [intros _|done]].
  - split; [by eapply alloc_inv_same| |split; cbn; rewrite (rf_stats _ _ _ _ _ _ _ _ Hrf3); etransitivity; [exact Ho2|apply Hlive1|exact Hb2|apply Hlive1]|].
    + eapply keeps_trans; [apply Hrf1|]. eapply keeps_trans; [apply Heff|].
      eapply keeps_trans; [apply Hrf3|]. by eapply keeps_same.
    + intros p' c' Hpc'. exists (k + k'). split; [lia|]. change (cache_of m4) with (cache_of m3).
      rewrite (rf_cache _ _ _ _ _ _ _ _ Hrf3), Hcount2 by done. case_decide; lia.
  - change (cache_of m4) with (cache_of m3). eapply cache_nonempty; [done..|].
    rewrite (rf_cache _ _ _ _ _ _ _ _ Hrf3), Hcount2, !decide_True by done. lia.
Qed.
End span_create.
