(* ===== verification/VallocReclaim.v ===== *)
(** * Giving a span back

    Unlinking a span from the two lists it is on, and [vl_span_reclaim_if_empty]: a
    span whose objects are all on its central list leaves the allocator, and the
    invariant holds for what remains. *)

From S2P Require Import Prelude SizeClass PageHeap Span Valloc VallocLists VallocInv VallocMove VallocSteps.
From stdpp Require Import options.

Open Scope Z_scope.

(** Two versions of a span that differ in its list pointers only. *)
Record next_only (sp sp' : vl_span) : Prop := {
  no_static : sp_mapping_base sp' = sp_mapping_base sp /\ sp_mapping_size sp' = sp_mapping_size sp /\
    sp_class_index sp' = sp_class_index sp /\ sp_capacity sp' = sp_capacity sp /\
    sp_object_stride sp' = sp_object_stride sp /\ sp_object_count sp' = sp_object_count sp /\
    sp_owner_p sp' = sp_owner_p sp;
  no_counts : sp_central_free_count sp' = sp_central_free_count sp /\ sp_free_count sp' = sp_free_count sp /\
    sp_active_count sp' = sp_active_count sp /\ sp_cached_count sp' = sp_cached_count sp;
  no_central : sp_central_free sp' = sp_central_free sp }.

Lemma next_only_refl sp : next_only sp sp.
Proof. by split. Qed.

Lemma next_only_trans a b c : next_only a b -> next_only b c -> next_only a c.
Proof. intros [? ? ?] [? ? ?]. split; [|destruct_and!; split_and!; congruence|congruence]. destruct_and!. split_and!; congruence. Qed.

(** The same spans, with other list pointers. *)
Definition relinked (d d' : gmap Z vl_span) : Prop := forall s,
  match d !! s, d' !! s with
  | Some sp, Some sp' => next_only sp sp'
  | None, None => True
  | _, _ => False
  end.

Lemma relinked_refl d : relinked d d.
Proof. intros s. destruct (d !! s); [apply next_only_refl|done]. Qed.

Lemma relinked_trans d1 d2 d3 : relinked d1 d2 -> relinked d2 d3 -> relinked d1 d3.
Proof.
  intros H1 H2 s. specialize (H1 s). specialize (H2 s).
  destruct (d1 !! s), (d2 !! s), (d3 !! s); try done. by eapply next_only_trans.
Qed.

Lemma relinked_lookup d d' s sp : relinked d d' -> d !! s = Some sp -> exists sp', d' !! s = Some sp' /\ next_only sp sp'.
Proof. intros Hr Hs. specialize (Hr s). rewrite Hs in Hr. destruct (d' !! s); [eauto|done]. Qed.

Lemma relinked_lookup_inv d d' s sp' : relinked d d' -> d' !! s = Some sp' -> exists sp, d !! s = Some sp /\ next_only sp sp'.
Proof. intros Hr Hs. specialize (Hr s). rewrite Hs in Hr. destruct (d !! s); [eauto|done]. Qed.

Lemma relinked_insert d s sp sp' : d !! s = Some sp -> next_only sp sp' -> relinked d (<[s := sp']> d).
Proof.
  intros Hs Hn v. rewrite lookup_insert. case_decide; [subst; by rewrite Hs|].
  destruct (d !! v); [apply next_only_refl|done].
Qed.

Definition without (s : Z) (l : list Z) : list Z := filter (fun v => v <> s) l.

Lemma without_notin s l : s ∉ l -> without s l = l.
Proof. intros Hs. apply filter_all, list.Forall_forall. intros v Hv ->. done. Qed.

Lemma without_split s l1 l2 : NoDup (l1 ++ s :: l2) -> without s (l1 ++ s :: l2) = l1 ++ l2.
Proof.
  intros (_ & Hd & [Hs _]%list.NoDup_cons)%list.NoDup_app. unfold without.
  rewrite list.filter_app, list.filter_cons, decide_False by (by intros ?).
  fold (without s l1) (without s l2). rewrite !without_notin; [done|done|].
  intros Hin. apply (Hd s Hin). left.
Qed.

Lemma elem_of_without s v l : v ∈ without s l <-> v <> s /\ v ∈ l.
Proof. unfold without. by rewrite list_elem_of_filter. Qed.

Lemma without_nodup s l : NoDup l -> NoDup (without s l).
Proof. apply list.NoDup_filter. Qed.

(** The span the cursor stops at is on the walked prefix. *)
Lemma cursor_after_None l : cursor_after None l = list.last l.
Proof. unfold cursor_after. by destruct (list.last l). Qed.

Section unlink.
#[local] Set Default Proof Using "Type*".
Context `{os_memory_laws}.
Context (m : vl_memory) (g : ghost) (s : Z) (sp : vl_span).
Context (Hok : heap_ok m) (Hso : spans_ok m g) (Hs : s ∈ g_all g) (Hsp : m_spans m !! s = Some sp).

Lemma span_list_fuel l nxt h : chain nxt h l -> NoDup l ->
  (forall v, is_Some (nxt v) -> is_Some (m_spans m !! v)) -> (length l < span_fuel m)%nat.
Proof.
  intros Hc Hnd Hd. unfold span_fuel. apply Nat.lt_succ_r, NoDup_length_dom; [done|].
  intros v Hv. apply Hd. by eapply chain_dom.
Qed.

(** Writing the link of a span that is on a list. *)
Lemma link_stored v spv f : m_spans m !! v = Some spv -> upd_span v f m = Some (tt, set_m_spans (<[v := f spv]> (m_spans m)) m).
Proof. intros Hv. apply upd_span_run; [done|]. by apply (ho_spans m Hok v spv). Qed.

Lemma remove_from_central_run : exists X Y,
  vl_span_remove_from_central s m = Some (tt, set_central X (set_m_spans Y m)) /\ relinked (m_spans m) Y /\
  (forall v, sp_all_next <$> Y !! v = sp_all_next <$> m_spans m !! v) /\
  (forall c, 0 <= c < VL_SIZE_CLASS_COUNT ->
     chain (fun v => sp_central_next <$> Y !! v) (default NULL (X !! c)) (without s (g_cent g c))).
Proof.
  set (c := sp_class_index sp). pose proof (ss_class _ _ _ (so_static m g Hso s sp Hs Hsp)) as Hc. fold c in Hc.
  assert (Hin : s ∈ g_cent g c) by (apply (so_cent_in _ _ Hso); eauto).
  destruct (so_cent _ _ Hso c Hc) as [Hch Hnd].
  assert (Hother : forall c', c' <> c -> s ∉ g_cent g c').
  { intros c' Hne (_ & x & Hx & Hcx)%(so_cent_in _ _ Hso). rewrite Hsp in Hx. injection Hx as <-. done. }
  destruct (list_elem_of_split _ _ Hin) as (l1 & l2 & El). rewrite El in Hch, Hnd.
  assert (Hs1 : s ∉ l1). { intros Hs1. apply list.NoDup_app in Hnd as (_ & Hd & _). apply (Hd s Hs1). left. }
  unfold vl_span_remove_from_central. rewrite (bind_Some _ _ _ _ _ (load_span_run s sp m Hsp)). fold c.
  rewrite bind_run. unfold gets.
  destruct (find_cursor_spec (load_central_cursor c) (central_next_of m) m s l1 l2
    (default NULL (central m !! c)) (span_fuel m) None) as [Hfind Hload]; [|by cbn; unfold central_at, deref; rewrite decide_True|done..| |].
  { intros v Hv. cbn. rewrite bind_run. unfold load_span, central_next_of. crun. by destruct (m_spans m !! v). }
  { pose proof (span_list_fuel _ _ _ Hch Hnd ltac:(intros v; unfold central_next_of; apply fmap_is_Some)) as Hf.
    rewrite length_app in Hf. cbn in Hf. lia. }
  rewrite (bind_Some _ _ _ _ _ Hfind), (bind_Some _ _ _ _ _ Hload), Z.eqb_refl, cursor_after_None.
  assert (Hnt : central_next_of m s = Some (sp_central_next sp)) by (unfold central_next_of; by rewrite Hsp).
  destruct (list.last l1) as [v|] eqn:Elast.
  - assert (Hv1 : v ∈ l1) by (by apply last_Some_elem_of).
    assert (Hv : v ∈ g_cent g c) by (rewrite El; set_solver).
    apply (so_cent_in _ _ Hso) in Hv as (_ & spv & Hspv & Hcv).
    cbn [store_central_cursor]. rewrite (link_stored v spv _ Hspv).
    exists (central m), (<[v := set_sp_central_next (sp_central_next sp) spv]> (m_spans m)).
    split; [by destruct m|]. split; [by eapply relinked_insert|]. split.
    { intros w. rewrite lookup_insert. case_decide; [subst; by rewrite Hspv|done]. }
    intros c' Hc'. destruct (decide (c' = c)) as [->|Hne].
    + rewrite El, without_split by done.
      eapply (chain_unlink (central_next_of m) _ _ _ l1 s l2); [done..|by intros ->|done|].
      intros w Hw. rewrite lookup_insert, Elast. unfold central_next_of.
      destruct (decide (v = w)) as [->|Hvw]; [by rewrite decide_True|by rewrite decide_False by congruence].
    + rewrite without_notin by auto. destruct (so_cent _ _ Hso c' Hc') as [Hch' _].
      apply (list_chain_frame _ _ _ _ Hch'). intros w Hw. unfold central_next_of. rewrite lookup_insert_ne; [done|].
      intros ->. apply (so_cent_in _ _ Hso) in Hw as (_ & x & Hx & Hcx). congruence.
  - assert (l1 = []) as -> by (by apply last_None in Elast).
    cbn [store_central_cursor]. unfold store_central. rewrite decide_True by done.
    exists (<[c := sp_central_next sp]> (central m)), (m_spans m). split; [by destruct m|].
    split; [apply relinked_refl|]. split; [done|]. intros c' Hc'. rewrite lookup_insert. case_decide as E.
    + subst c'. rewrite El, without_split by done. cbn [default app] in *.
      destruct Hch as (_ & _ & n & Hn & Hch). unfold central_next_of in Hn. rewrite Hsp in Hn. cbn in Hn. by simplify_eq.
    + rewrite without_notin by auto. by destruct (so_cent _ _ Hso c' Hc').
Qed.
End unlink.

Section reclaim.
#[local] Set Default Proof Using "Type*".
Context `{os_memory_laws}.

Lemma heap_relinked m X Y : heap_ok m -> relinked (m_spans m) Y -> heap_ok (set_central X (set_m_spans Y m)).
Proof.
  intros [A1 A2 A3 A4 A5 A6 A7 A8 A9] Hr. split; try done. intros a x Hx.
  destruct (relinked_lookup_inv _ _ _ _ Hr Hx) as (sp & Hsp & _). by apply (A6 a sp).
Qed.

Lemma remove_from_all_run m l s sp : heap_ok m -> chain (all_next_of m) (all_spans m) l -> NoDup l ->
  s ∈ l -> m_spans m !! s = Some sp -> exists v Y,
  vl_span_remove_from_all s m = Some (tt, set_all_spans v (set_m_spans Y m)) /\ relinked (m_spans m) Y /\
  (forall w, sp_central_next <$> Y !! w = sp_central_next <$> m_spans m !! w) /\
  chain (fun w => sp_all_next <$> Y !! w) v (without s l).
Proof.
  intros Hok Hch Hnd Hs Hsp. destruct (list_elem_of_split _ _ Hs) as (l1 & l2 & ->).
  assert (Hs1 : s ∉ l1). { intros Hs1. apply list.NoDup_app in Hnd as (_ & Hd & _). apply (Hd s Hs1). left. }
  unfold vl_span_remove_from_all. rewrite bind_run. unfold gets at 1.
  destruct (find_cursor_spec load_all_cursor (all_next_of m) m s l1 l2 (all_spans m) (span_fuel m) None)
    as [Hfind Hload]; [|done..| |].
  { intros v Hv. cbn. rewrite bind_run. unfold load_span, all_next_of. crun. by destruct (m_spans m !! v). }
  { assert (Hf : (length (l1 ++ s :: l2) < span_fuel m)%nat).
    { unfold span_fuel. apply Nat.lt_succ_r, NoDup_length_dom; [done|]. intros v Hv.
      destruct (chain_dom _ _ _ _ Hch Hv) as [_ Hd]. by apply fmap_is_Some in Hd. }
    rewrite length_app in Hf. cbn in Hf. lia. }
  rewrite (bind_Some _ _ _ _ _ Hfind), (bind_Some _ _ _ _ _ Hload), Z.eqb_refl, cursor_after_None.
  rewrite (bind_Some _ _ _ _ _ (load_span_run s sp m Hsp)). rewrite without_split by done.
  assert (Hnt : all_next_of m s = Some (sp_all_next sp)) by (unfold all_next_of; by rewrite Hsp).
  destruct (list.last l1) as [v|] eqn:Elast; cbn [store_all_cursor].
  - assert (Hv1 : v ∈ l1) by (by apply last_Some_elem_of).
    destruct (chain_dom _ _ _ v Hch ltac:(set_solver)) as [_ [n Hn]]. unfold all_next_of in Hn.
    destruct (m_spans m !! v) as [spv|] eqn:Hspv; [|done].
    rewrite (upd_span_run v spv _ m Hspv (ho_spans m Hok v spv Hspv)).
    exists (all_spans m), (<[v := set_sp_all_next (sp_all_next sp) spv]> (m_spans m)).
    split; [by destruct m|]. split; [by eapply relinked_insert|]. split.
    { intros w. rewrite lookup_insert. case_decide; [subst; by rewrite Hspv|done]. }
    eapply (chain_unlink (all_next_of m) _ _ _ l1 s l2); [done..|by intros ->|done|].
    intros w Hw. rewrite lookup_insert, Elast. unfold all_next_of.
    destruct (decide (v = w)) as [->|Hvw]; [by rewrite decide_True|by rewrite decide_False by congruence].
  - assert (l1 = []) as -> by (by apply last_None in Elast).
    exists (sp_all_next sp), (m_spans m). split; [by destruct m|]. split; [apply relinked_refl|]. split; [done|].
    cbn [app] in *. destruct Hch as (_ & _ & n & Hn & Hch). rewrite Hnt in Hn. by simplify_eq.
Qed.

(** The state after a span was given back. *)
Record reclaimed (m m' : vl_memory) (g : ghost) (s size : Z) : Prop := {
  rc_heap : heap_ok m';
  rc_page : page_size m' = page_size m;
  rc_caches : caches m' = caches m /\ remote m' = remote m;
  rc_large : large_allocations m' = large_allocations m;
  rc_live : same_live_stats m m';
  rc_maps : forall b, b <> s -> mappings m' !! b = mappings m !! b;
  rc_spans : exists Y, relinked (m_spans m) Y /\ (forall v, ~ (s <= v < s + size) -> m_spans m' !! v = Y !! v) /\
    (forall v x, m_spans m' !! v = Some x -> Y !! v = Some x);
  rc_headers : forall h, ~ (s <= h < s + size) -> m_headers m' !! h = m_headers m !! h;
  rc_links : forall u, ~ (s <= u < s + size) -> m_links m' !! u = m_links m !! u;
  rc_bytes : forall a, ~ (s <= a < s + size) -> m_bytes m' !! a = m_bytes m !! a;
  rc_all : chain (all_next_of m') (all_spans m') (without s (g_all g));
  rc_central : forall c, 0 <= c < VL_SIZE_CLASS_COUNT ->
    chain (central_next_of m') (default NULL (central m' !! c)) (without s (g_cent g c)) }.

Definition reclaim_ghost (m : vl_memory) (s : Z) (sp : vl_span) (g : ghost) : ghost :=
  mk_ghost (fun pl => if decide (pl = PCentral s) then [] else g_lst g pl)
    (fun u => if decide (u ∈ objs (page_size m) s sp) then None else g_loc g u)
    (without s (g_all g)) (fun c => without s (g_cent g c)) (g_large g).
End reclaim.

Section reclaim_inv.
#[local] Set Default Proof Using "Type*".
Context `{os_memory_laws}.
Context (m m' : vl_memory) (live : gmap Z Z) (g : ghost) (s : Z) (sp : vl_span).
Context (Hinv : inv m live g) (Hs : s ∈ g_all g) (Hsp : m_spans m !! s = Some sp).
Context (Hrc : reclaimed m m' g s (sp_mapping_size sp)).
Context (Hcentral : forall u, u ∈ objs (page_size m) s sp -> g_loc g u = Some (PCentral s)).

Let g' := reclaim_ghost m s sp g.
Lemma reclaim_static : span_static m s sp.
Proof. by apply (so_static m g (iv_spans _ _ _ Hinv)). Qed.

(** What lies in another mapping is outside the span. *)
Lemma other_outside b k a : mappings m !! b = Some k -> b <> s -> b <= a < b + k -> ~ (s <= a < s + sp_mapping_size sp).
Proof.
  intros Hb Hne Ha Hin. pose proof (ho_disjoint m (iv_heap _ _ _ Hinv) _ _ _ _ Hb (ss_map _ _ _ reclaim_static) Hne).
  unfold disjoint_range in *. lia.
Qed.

Lemma reclaim_span_at v sp0 : v ∈ without s (g_all g) -> m_spans m !! v = Some sp0 ->
  exists sp1, m_spans m' !! v = Some sp1 /\ next_only sp0 sp1.
Proof.
  intros [Hne Hv]%elem_of_without Hsp0. destruct (rc_spans _ _ _ _ _ Hrc) as (Y & Hr & Hlk & _).
  pose proof (so_static m g (iv_spans _ _ _ Hinv) v sp0 Hv Hsp0) as Hss0.
  rewrite Hlk; [by apply relinked_lookup with (m_spans m)|].
  eapply other_outside; [apply (ss_map _ _ _ Hss0)|done|].
  pose proof (ho_maps m (iv_heap _ _ _ Hinv) _ _ (ss_map _ _ _ Hss0)). lia.
Qed.

Lemma reclaim_span_back v sp1 : v ∈ without s (g_all g) -> m_spans m' !! v = Some sp1 ->
  exists sp0, m_spans m !! v = Some sp0 /\ next_only sp0 sp1.
Proof.
  intros Hv Hsp1. destruct (rc_spans _ _ _ _ _ Hrc) as (Y & Hr & _ & Hlk).
  by apply Hlk, (relinked_lookup_inv _ _ _ _ Hr) in Hsp1.
Qed.

Lemma next_only_objs psize v sp0 sp1 : next_only sp0 sp1 -> objs psize v sp1 = objs psize v sp0.
Proof. intros [(_ & _ & _ & _ & E1 & E2 & _) _ _]. unfold objs. by rewrite E1, E2. Qed.

Lemma reclaim_object u v sp1 : object_in m' (g_all g') u v sp1 ->
  exists sp0, object_in m (g_all g) u v sp0 /\ next_only sp0 sp1 /\ u ∉ objs (page_size m) s sp /\
    g_loc g' u = g_loc g u /\ (forall a, u - HEADER <= a < u + sp_capacity sp0 -> ~ (s <= a < s + sp_mapping_size sp)).
Proof.
  intros (Hv & Hsp1 & Hu). cbn in Hv. rewrite (rc_page _ _ _ _ _ Hrc) in Hu.
  destruct (reclaim_span_back v sp1 Hv Hsp1) as (sp0 & Hsp0 & Hno).
  rewrite (next_only_objs _ _ sp0) in Hu by done. apply elem_of_without in Hv as [Hne Hv].
  assert (Hin : object_in m (g_all g) u v sp0) by done.
  assert (Hnu : u ∉ objs (page_size m) s sp).
  { intros Hu'. destruct (object_in_unique m g u v sp0 s sp (iv_heap _ _ _ Hinv) (iv_spans _ _ _ Hinv) Hin); done. }
  exists sp0. split_and!; try done; [cbn; by rewrite decide_False|].
  intros a Ha. pose proof (so_static m g (iv_spans _ _ _ Hinv) v sp0 Hv Hsp0) as Hss0.
  pose proof (object_bounds m v sp0 u (iv_heap _ _ _ Hinv) Hss0 Hu).
  pose proof (span_bounds m v sp0 (iv_heap _ _ _ Hinv) Hss0).
  eapply other_outside; [apply (ss_map _ _ _ Hss0)|done|lia].
Qed.

Lemma reclaim_object_at u v sp0 : object_in m (g_all g) u v sp0 -> v <> s ->
  exists sp1, object_in m' (g_all g') u v sp1.
Proof.
  intros (Hv & Hsp0 & Hu) Hne. destruct (reclaim_span_at v sp0) as (sp1 & Hsp1 & Hno); [by apply elem_of_without|done|].
  exists sp1. split; [by apply elem_of_without|]. split; [done|].
  by rewrite (rc_page _ _ _ _ _ Hrc), (next_only_objs _ _ sp0).
Qed.

Lemma reclaim_spans : spans_ok m' g'.
Proof.
  destruct (iv_spans _ _ _ Hinv) as [Ha Hnd Hc Hci Hst]. split; cbn.
  - apply Hrc.
  - by apply without_nodup.
  - intros c Hc'. split; [by apply Hrc|]. by apply without_nodup, Hc.
  - intros c v. rewrite !elem_of_without, Hci. split.
    + intros (Hne & Hv & sp0 & Hsp0 & Hcl). split; [done|].
      destruct (reclaim_span_at v sp0) as (sp1 & Hsp1 & [(_ & _ & E & _) _ _]); [by apply elem_of_without|done|].
      exists sp1. split; [done|]. congruence.
    + intros ([Hne Hv] & sp1 & Hsp1 & Hcl). split; [done|]. split; [done|].
      destruct (reclaim_span_back v sp1) as (sp0 & Hsp0 & [(_ & _ & E & _) _ _]); [by apply elem_of_without|done|].
      exists sp0. split; [done|]. congruence.
  - intros v sp1 Hv Hsp1. destruct (reclaim_span_back v sp1 Hv Hsp1) as (sp0 & Hsp0 & [(E1 & E2 & E3 & E4 & E5 & E6 & E7) _ _]).
    apply elem_of_without in Hv as [Hne Hv]. destruct (Hst v sp0 Hv Hsp0).
    split; rewrite ?E1, ?E2, ?E3, ?E4, ?E5, ?E6, ?E7, ?(rc_page _ _ _ _ _ Hrc), ?(rc_maps _ _ _ _ _ Hrc) by done; done.
Qed.

Lemma reclaim_link u pl : g_loc g u = Some pl -> pl <> PCentral s -> ~ (s <= u < s + sp_mapping_size sp).
Proof.
  intros Hu Hpl. destruct (oo_loc _ _ (iv_objects _ _ _ Hinv) u pl Hu) as (v & sp0 & Hin).
  destruct (decide (v = s)) as [->|Hne].
  - assert (sp0 = sp) as -> by (destruct Hin as (_ & ? & _); congruence). destruct Hin as (_ & _ & Hin).
    apply Hcentral in Hin. congruence.
  - destruct (reclaim_object_at u v sp0 Hin Hne) as (sp1 & Hin1).
    destruct (reclaim_object u v sp1 Hin1) as (sp2 & Hin2 & _ & _ & _ & Hout). apply Hout.
    pose proof (of_user _ _ _ _ (object_facts_of _ _ _ _ _ _ Hinv Hin2)).
    destruct Hin2 as (Hv & Hsp2 & _). pose proof (so_static m g (iv_spans _ _ _ Hinv) v sp2 Hv Hsp2) as Hss2.
    pose proof (span_bounds m v sp2 (iv_heap _ _ _ Hinv) Hss2). unfold HEADER. lia.
Qed.

Lemma reclaim_loc u : g_loc g' u = if decide (u ∈ objs (page_size m) s sp) then None else g_loc g u.
Proof. done. Qed.

Lemma reclaim_lists : lists_ok m' (g_all g') (g_lst g') (g_loc g').
Proof.
  destruct (iv_lists _ _ _ Hinv) as [Hc Hnd Hloc Hval]. destruct (rc_caches _ _ _ _ _ Hrc) as [Hca Hre].
  split.
  - intros pl Hv. cbn [g' reclaim_ghost g_lst g_all] in *.
    assert (Hne : pl <> PCentral s). { intros ->. cbn in Hv. apply elem_of_without in Hv as []. done. }
    rewrite decide_False by done.
    assert (Hv' : valid (g_all g) pl) by (destruct pl; [cbn in *; by apply elem_of_without in Hv as []|done]).
    destruct (Hc pl Hv') as (h & Hh & Hch). exists h. split.
    + rewrite <- Hh. destruct pl as [v|r p c]; cbn; [|unfold cache_of; by rewrite Hca, Hre].
      cbn in Hh. destruct (m_spans m !! v) as [sp0|] eqn:Hsp0; [|done].
      destruct (reclaim_span_at v sp0 Hv Hsp0) as (sp1 & -> & [_ _ E]). cbn. by rewrite E.
    + apply (list_chain_frame _ _ _ _ Hch). intros u Hu. unfold link_of. apply (rc_links _ _ _ _ _ Hrc).
      apply (reclaim_link u pl); [by apply Hloc|done].
  - intros pl. cbn. case_decide; [apply NoDup_nil_2|done].
  - intros pl u. rewrite reclaim_loc. cbn [g' reclaim_ghost g_lst]. case_decide as E.
    + subst pl. split; [by intros ?%not_elem_of_nil|]. case_decide as E'; [done|]. intros Hu. exfalso. apply E'.
      destruct (oo_loc _ _ (iv_objects _ _ _ Hinv) u _ Hu) as (v & sp0 & Hin).
      pose proof (oo_fits _ _ (iv_objects _ _ _ Hinv) u v sp0 Hin) as Hf. rewrite Hu in Hf. cbn in Hf. subst v.
      assert (sp0 = sp) as -> by (destruct Hin as (_ & ? & _); congruence). apply Hin.
    + rewrite Hloc. case_decide as E'; [|done]. rewrite (Hcentral u E'). split; [congruence|done].
  - intros pl u. rewrite reclaim_loc. case_decide as E'; [done|]. intros Hu. pose proof (Hval pl u Hu) as Hv.
    destruct pl as [v|]; [|done]. cbn in *. apply elem_of_without. split; [|done]. intros ->. apply E'.
    destruct (oo_loc _ _ (iv_objects _ _ _ Hinv) u _ Hu) as (v & sp0 & Hin).
    pose proof (oo_fits _ _ (iv_objects _ _ _ Hinv) u v sp0 Hin) as Hf. rewrite Hu in Hf. cbn in Hf. subst v.
    assert (sp0 = sp) as -> by (destruct Hin as (_ & ? & _); congruence). apply Hin.
Qed.

Lemma reclaim_objects : objects_ok m' g'.
Proof.
  destruct (iv_objects _ _ _ Hinv) as [Hcnt Hhd Hfit Hloc].
  split.
  - intros v sp1 Hv Hsp1. destruct (reclaim_span_back v sp1 Hv Hsp1) as (sp0 & Hsp0 & Hno).
    rewrite (rc_page _ _ _ _ _ Hrc), (next_only_objs _ _ sp0) by done.
    pose proof Hv as [Hne Hv']%elem_of_without. destruct (Hcnt v sp0 Hv' Hsp0) as [C1 C2 C3 C4].
    destruct Hno as [_ (N1 & N2 & N3 & N4) _].
    assert (Heq : forall u, u ∈ objs (page_size m) v sp0 -> g_loc g' u = g_loc g u).
    { intros u Hu. destruct (reclaim_object_at u v sp0 ltac:(done) Hne) as (sp2 & Hin).
      by destruct (reclaim_object u v sp2 Hin) as (_ & _ & _ & _ & ? & _). }
    split; [rewrite N1, C1|rewrite N4, C2|rewrite N3, C3|congruence]; apply tally_ext; intros u Hu; by rewrite Heq.
  - intros u v sp1 Hin. destruct (reclaim_object u v sp1 Hin) as (sp0 & Hin0 & [(_ & _ & _ & E4 & _ & _ & E7) _ _] & _ & Hl & Hout).
    destruct (Hhd u v sp0 Hin0) as (hd & Hh & [K1 K2 K3 K4 K5 K6]). exists hd. split.
    + rewrite (rc_headers _ _ _ _ _ Hrc); [done|]. apply Hout.
      destruct Hin0 as (Hv & Hsp0 & _). pose proof (so_static m g (iv_spans _ _ _ Hinv) v sp0 Hv Hsp0) as Hss0.
      pose proof (span_bounds m v sp0 (iv_heap _ _ _ Hinv) Hss0). unfold HEADER. lia.
    + split; try done; [by rewrite Hl|congruence|congruence].
  - intros u v sp1 Hin. destruct (reclaim_object u v sp1 Hin) as (sp0 & Hin0 & [(_ & _ & E3 & _) _ _] & _ & Hl & _).
    rewrite Hl. pose proof (Hfit u v sp0 Hin0) as Hf. destruct (g_loc g u) as [[]|]; cbn in *; congruence.
  - intros u pl. rewrite reclaim_loc. case_decide as E; [done|]. intros Hu.
    destruct (Hloc u pl Hu) as (v & sp0 & Hin). destruct (decide (v = s)) as [->|Hne].
    + assert (sp0 = sp) as -> by (destruct Hin as (_ & ? & _); congruence). by destruct Hin as (_ & _ & ?).
    + destruct (reclaim_object_at u v sp0 Hin Hne) as (sp1 & ?). eauto.
Qed.

Lemma reclaim_large_header h : h ∈ g_large g -> m_headers m' !! h = m_headers m !! h /\ h <> s.
Proof.
  intros Hh. destruct (iv_large _ _ _ Hinv) as [Hc _ Hl Hd].
  assert (Hne : h <> s) by (intros ->; by apply (Hd s)). split; [|done].
  destruct (chain_dom _ _ _ _ Hc Hh) as [_ [n Hn]]. unfold large_next_of in Hn.
  destruct (m_headers m !! h) as [hd|] eqn:E; [|done]. rewrite (rc_headers _ _ _ _ _ Hrc); [done|].
  pose proof (lh_map _ _ _ (Hl h hd Hh E)) as Hm. pose proof (ho_maps m (iv_heap _ _ _ Hinv) _ _ Hm).
  eapply other_outside; [done|done|lia].
Qed.

Lemma reclaim_large : large_ok m' g'.
Proof.
  destruct (iv_large _ _ _ Hinv) as [Hc Hnd Hl Hd]. split; cbn.
  - rewrite (rc_large _ _ _ _ _ Hrc). apply (list_chain_frame _ _ _ _ Hc). intros h Hh. unfold large_next_of.
    by rewrite (proj1 (reclaim_large_header h Hh)).
  - done.
  - intros h hd Hh Hhd. destruct (reclaim_large_header h Hh) as [E Hne]. rewrite E in Hhd.
    destruct (Hl h hd Hh Hhd). split; try done. by rewrite (rc_maps _ _ _ _ _ Hrc).
  - intros h Hh [_ Ha]%elem_of_without. by apply (Hd h).
Qed.

Lemma reclaim_block u hd : block m' g' u hd <-> block m g u hd.
Proof.
  split; intros [Hh [Hl|(v & sp0 & Hin & Hloc)]].
  - split; [|by left]. by rewrite <- (proj1 (reclaim_large_header _ Hl)).
  - destruct (reclaim_object u v sp0 Hin) as (sp1 & Hin1 & _ & _ & Hl & _). split; [|right; exists v, sp1; by rewrite <- Hl].
    destruct (oo_header _ _ reclaim_objects u v sp0 Hin) as (hd1 & Hh1 & _).
    destruct (oo_header _ _ (iv_objects _ _ _ Hinv) u v sp1 Hin1) as (hd2 & Hh2 & _).
    destruct (reclaim_object u v sp0 Hin) as (sp2 & Hin2 & _ & _ & _ & Hout).
    rewrite (rc_headers _ _ _ _ _ Hrc) in Hh; [done|]. apply Hout.
    destruct Hin2 as (Hv & Hsp2 & _). pose proof (so_static m g (iv_spans _ _ _ Hinv) v sp2 Hv Hsp2) as Hss2.
    pose proof (span_bounds m v sp2 (iv_heap _ _ _ Hinv) Hss2). unfold HEADER. lia.
  - split; [|by left]. by rewrite (proj1 (reclaim_large_header _ Hl)).
  - destruct (decide (v = s)) as [->|Hne].
    { assert (sp0 = sp) as -> by (destruct Hin as (_ & ? & _); congruence). destruct Hin as (_ & _ & Hin).
      rewrite (Hcentral u Hin) in Hloc. done. }
    destruct (reclaim_object_at u v sp0 Hin Hne) as (sp1 & Hin1).
    destruct (reclaim_object u v sp1 Hin1) as (sp2 & Hin2 & _ & _ & Hl & Hout).
    split; [|right; exists v, sp1; by rewrite Hl].
    rewrite (rc_headers _ _ _ _ _ Hrc); [done|]. apply Hout.
    destruct Hin2 as (Hv & Hsp2 & _). pose proof (so_static m g (iv_spans _ _ _ Hinv) v sp2 Hv Hsp2) as Hss2.
    pose proof (span_bounds m v sp2 (iv_heap _ _ _ Hinv) Hss2). unfold HEADER. lia.
Qed.

Lemma reclaim_inv : inv m' live g' /\ keeps live m m'.
Proof.
  destruct (rc_caches _ _ _ _ _ Hrc) as [Hca Hre].
  split.
  - split; [apply Hrc|apply reclaim_spans|apply reclaim_lists| |apply reclaim_objects|apply reclaim_large|].
    + intros r p c Hpc. unfold cache_of. rewrite Hca, Hre. cbn. rewrite decide_False by done.
      by apply (iv_counts _ _ _ Hinv).
    + destruct (iv_live _ _ _ Hinv) as [Hl Hr Ho Hb Hw]. destruct (rc_live _ _ _ _ _ Hrc) as [E1 E2].
      split; [|intros u hd Hbk%reclaim_block; by apply (Hr u)|congruence|congruence|by rewrite E1, E2].
      intros u r. rewrite Hl. by setoid_rewrite reclaim_block.
  - intros u Hu. destruct (live_block _ _ _ _ Hinv Hu) as (hd & Hb). exists hd, hd. pose proof Hb as [Hh _].
    pose proof (proj2 (reclaim_block u hd) Hb) as [Hh' _]. split_and!; try done.
    intros a Ha. apply (rc_bytes _ _ _ _ _ Hrc).
    destruct (cell_mapping m live g u (oh_capacity hd) Hinv (block_cell _ _ _ _ _ Hinv Hb)) as (b & k & Hbk & ? & ? & Hcase).
    eapply other_outside; [done| |unfold HEADER in *; lia]. intros ->.
    destruct Hcase as [(_ & sp0 & Hin & _)|[Hl _]]; [|by apply (la_disjoint _ _ (iv_large _ _ _ Hinv) s)].
    assert (sp0 = sp) as -> by (destruct Hin as (_ & ? & _); congruence).
    pose proof (block_at_object m g u s sp hd (iv_heap _ _ _ Hinv) (iv_spans _ _ _ Hinv) (iv_large _ _ _ Hinv) Hin Hb) as HN.
    destruct Hin as (_ & _ & Hin). rewrite (Hcentral u Hin) in HN. done.
Qed.
End reclaim_inv.

Section reclaim_run.
#[local] Set Default Proof Using "Type*".
Context `{os_memory_laws}.

Lemma heap_set_all m v Y : heap_ok m -> relinked (m_spans m) Y -> heap_ok (set_all_spans v (set_m_spans Y m)).
Proof.
  intros [A1 A2 A3 A4 A5 A6 A7 A8 A9] Hr. split; try done. intros a x Hx.
  destruct (relinked_lookup_inv _ _ _ _ Hr Hx) as (sp & Hsp & _). by apply (A6 a sp).
Qed.

Lemma span_all_central m live g s sp : inv m live g -> s ∈ g_all g -> m_spans m !! s = Some sp ->
  sp_active_count sp = 0 -> sp_cached_count sp = 0 ->
  forall u, u ∈ objs (page_size m) s sp -> g_loc g u = Some (PCentral s).
Proof.
  intros Hinv Hs Hsp Ha Hc u Hu. destruct (oo_counts _ _ (iv_objects _ _ _ Hinv) s sp Hs Hsp) as [_ C2 C3 _].
  rewrite Hc in C2. rewrite Ha in C3. symmetry in C2, C3.
  pose proof (tally_zero _ _ u C2 Hu) as N2. pose proof (tally_zero _ _ u C3 Hu) as N3. cbn in N2, N3.
  pose proof (oo_fits _ _ (iv_objects _ _ _ Hinv) u s sp ltac:(done)) as Hf.
  destruct (g_loc g u) as [[s'|]|]; cbn in *; congruence.
Qed.

Lemma reclaimed_of_release m X Y v Y' m' g s sp : heap_ok m -> span_static m s sp -> s ∈ g_all g -> heap_ok m' ->
  relinked (m_spans m) Y -> relinked Y Y' ->
  chain (fun w => sp_all_next <$> Y' !! w) v (without s (g_all g)) ->
  (forall c, 0 <= c < VL_SIZE_CLASS_COUNT ->
     chain (fun w => sp_central_next <$> Y' !! w) (default NULL (X !! c)) (without s (g_cent g c))) ->
  (forall w, w ∈ without s (g_all g) -> ~ (s <= w < s + sp_mapping_size sp)) ->
  (forall c w, w ∈ g_cent g c -> w ∈ g_all g) ->
  let m2 := set_all_spans v (set_m_spans Y' (set_central X (set_m_spans Y m))) in
  m' = tick m2 \/ m' = released s (sp_mapping_size sp) m2 ->
  reclaimed m m' g s (sp_mapping_size sp).
Proof.
  intros Hok Hss Hs Hok' Hr Hr' Hall Hcen Hout Hca m2 Hm'.
  assert (Hlook : forall w, ~ (s <= w < s + sp_mapping_size sp) -> m_spans m' !! w = Y' !! w).
  { intros w Hw. destruct Hm' as [->| ->]; [done|]. cbn.
    destruct (Y' !! w) as [x|] eqn:E; [by apply unmap_lookup|].
    apply eq_None_not_Some. intros [x Hx]. apply unmap_lookup in Hx as [Hx _]. congruence. }
  assert (Hfil : forall A (d : gmap Z A) a, ~ (s <= a < s + sp_mapping_size sp) ->
    filter (outside s (sp_mapping_size sp)) d !! a = d !! a).
  { intros A d a Ha. destruct (d !! a) as [x|] eqn:E; [by apply unmap_lookup|].
    apply eq_None_not_Some. intros [x Hx]. apply unmap_lookup in Hx as [Hx _]. congruence. }
  split; try done.
  - by destruct Hm' as [->| ->].
  - by destruct Hm' as [->| ->].
  - by destruct Hm' as [->| ->].
  - by destruct Hm' as [->| ->].
  - intros b Hb. destruct Hm' as [->| ->]; [done|]. cbn. by rewrite lookup_delete_ne.
  - exists Y'. split; [by eapply relinked_trans|]. split; [exact Hlook|]. intros w x Hx.
    destruct Hm' as [->| ->]; [done|]. cbn in Hx. by apply unmap_lookup in Hx as [? _].
  - intros h Hh. destruct Hm' as [->| ->]; [done|]. cbn. by apply Hfil.
  - intros h Hh. destruct Hm' as [->| ->]; [done|]. cbn. by apply Hfil.
  - intros h Hh. destruct Hm' as [->| ->]; [done|]. cbn. by apply Hfil.
  - replace (all_spans m') with v by (by destruct Hm' as [->| ->]).
    apply (list_chain_frame _ _ _ _ Hall). intros w Hw. unfold all_next_of. by rewrite Hlook by auto.
  - intros c Hc. replace (central m') with X by (by destruct Hm' as [->| ->]).
    apply (list_chain_frame _ _ _ _ (Hcen c Hc)). intros w [Hne Hw]%elem_of_without. unfold central_next_of.
    rewrite Hlook; [done|]. apply Hout, elem_of_without. eauto.
Qed.

Lemma vl_span_reclaim_spec m live g s sp : inv m live g -> s ∈ g_all g -> m_spans m !! s = Some sp ->
  exists b m' g', vl_span_reclaim_if_empty s m = Some (b, m') /\ inv m' live g' /\ keeps live m m' /\
    caches m' = caches m /\ remote m' = remote m /\ same_live_stats m m'.
Proof.
  intros Hinv Hs Hsp. pose proof (iv_heap _ _ _ Hinv) as Hok. pose proof (iv_spans _ _ _ Hinv) as Hso.
  pose proof (so_static m g Hso s sp Hs Hsp) as Hss. pose proof (span_bounds m s sp Hok Hss) as Hb.
  unfold vl_span_reclaim_if_empty. destruct (Z.eqb_spec s NULL); [unfold NULL in *; lia|].
  rewrite (bind_Some _ _ _ _ _ (load_span_run s sp m Hsp)).
  destruct (_ || _ || _) eqn:Econd.
  { exists false, m, g. split; [done|]. split; [done|]. split; [by eapply keeps_refl|]. done. }
  rewrite !orb_false_iff, !negb_false_iff, !Z.eqb_eq in Econd. destruct Econd as [[Hact Hcach] _].
  pose proof (span_all_central m live g s sp Hinv Hs Hsp Hact Hcach) as Hcentral.
  destruct (remove_from_central_run m g s sp Hok Hso Hs Hsp) as (X & Y & Hrun1 & Hrl & Hnext & Hcen).
  rewrite (bind_Some _ _ _ _ _ Hrun1). set (m1 := set_central X (set_m_spans Y m)).
  assert (Hok1 : heap_ok m1) by (by apply heap_relinked).
  destruct (relinked_lookup _ _ _ _ Hrl Hsp) as (sp1 & Hsp1 & Hno1).
  destruct (remove_from_all_run m1 (g_all g) s sp1 Hok1) as (v & Y' & Hrun2 & Hrl' & Hnext' & Hall'); [|apply Hso|done|done|].
  { apply (list_chain_frame _ _ _ _ (so_all _ _ Hso)). intros w _. apply Hnext. }
  rewrite (bind_Some _ _ _ _ _ Hrun2). set (m2 := set_all_spans v (set_m_spans Y' m1)).
  assert (Hok2 : heap_ok m2) by (by apply heap_set_all).
  rewrite (ss_base _ _ _ Hss).
  destruct (vl_page_heap_release_spec m2 s (sp_mapping_size sp) Hok2 (ss_map _ _ _ Hss)) as (m' & Hrun3 & Hm' & Hok').
  rewrite (bind_Some _ _ _ _ _ Hrun3). rewrite ret_run.
  assert (Hrc : reclaimed m m' g s (sp_mapping_size sp)).
  { eapply (reclaimed_of_release m X Y v Y'); try done.
    - intros c Hc. apply (list_chain_frame _ _ _ _ (Hcen c Hc)). intros w _. apply Hnext'.
    - intros w [Hne Hw]%elem_of_without Hin. destruct (chain_dom _ _ _ _ (so_all _ _ Hso) Hw) as [_ [x Hx]].
      unfold all_next_of in Hx. destruct (m_spans m !! w) as [spw|] eqn:Hspw; [|done].
      pose proof (ss_map _ _ _ (so_static m g Hso w spw Hw Hspw)) as Hmw. pose proof (ho_maps m Hok _ _ Hmw).
      pose proof (ho_disjoint m Hok _ _ _ _ Hmw (ss_map _ _ _ Hss) Hne). unfold disjoint_range in *. lia.
    - by intros c w [? _]%(so_cent_in _ _ Hso). }
  destruct (reclaim_inv m m' live g s sp Hinv Hs Hsp Hrc Hcentral) as [Hi Hk].
  exists true, m', (reclaim_ghost m s sp g). split; [done|]. split; [done|]. split; [done|].
  destruct (rc_caches _ _ _ _ _ Hrc). split_and!; [done..|apply Hrc].
Qed.
End reclaim_run.
