(* ===== verification/VallocFree.v ===== *)
(** * Freeing a small object

    A freed object goes to the cache of its owner, or to the owner's remote list when
    another P frees it; a cache above its bound is drained to the central lists, and
    spans that become empty are given back. *)

From S2P Require Import Prelude SizeClass PageHeap Span Valloc VallocLists VallocInv VallocMove VallocSteps VallocRefill VallocReclaim.
From stdpp Require Import options.

Open Scope Z_scope.

Section free.
#[local] Set Default Proof Using "Type*".
Context `{os_memory_laws}.

(** ** One object from a cache to its central list *)

Lemma move_drain m live g p c : inv m live g -> in_arrays p c -> ca_head (cache_of m false p c) <> NULL ->
  exists hd m' g' sp', let u := ca_head (cache_of m false p c) in
    m_headers m !! (u - HEADER) = Some hd /\
    (user ← list_pop false p c; vl_span_move_to_central (oh_span hd) user) m = Some (tt, m') /\
    inv m' live g' /\ keeps live m m' /\ mem_stats m' = mem_stats m /\
    oh_span hd ∈ g_all g' /\ m_spans m' !! oh_span hd = Some sp' /\
    (forall p' c', ca_count (cache_of m' false p' c') =
       ca_count (cache_of m false p' c') - (if decide ((p, c) = (p', c')) then 1 else 0)).
Proof.
  intros Hinv Hpc Hne.
  destruct (cache_head_object m live g false p c Hinv Hpc Hne) as (s & sp & n & hd & Hin & Hloc & Hn & Hc & Hhd & Hk & Hcnt).
  pose proof (object_facts_of _ _ _ _ _ _ Hinv Hin) as Hf. cbv zeta in *.
  set (u := ca_head (cache_of m false p c)) in *.
  pose proof (counts_pos _ _ _ _ _ _ Hinv Hin) as (_ & Hp1 & _). rewrite Hloc in Hp1. cbn in Hp1.
  destruct Hf as [Hf1 Hf2 Hf3 Hf4 Hf5 Hf6 Hf7 Hf8 Hf9]. pose proof Hin as (Hs & Hsp & Hu).
  exists hd. rewrite (ko_span _ _ _ _ _ Hk).
  rewrite (bind_Some _ _ _ _ _ (list_pop_run false p c n m Hpc Hn)). fold u.
  rewrite w64_small by word_lia. set (m1 := with_cache _ _ _ _ m).
  unfold vl_span_move_to_central.
  destruct (Z.eqb_spec s NULL); [done|]. destruct (Z.eqb_spec u NULL); [done|]. cbn [orb].
  rewrite (bind_Some _ _ _ _ _ (load_span_run s sp m1 Hsp)).
  rewrite (bind_Some _ _ _ _ _ (store_link_run u (sp_central_free sp) m1 Hf3)). set (m2 := linked _ _ m1).
  rewrite (upd_span_run s sp _ m2 Hsp Hf4).
  cbn [sp_cached_count set_sp_central_free_count set_sp_central_free sp_central_free_count].
  destruct (Z.ltb_spec 0 (sp_cached_count sp)); [|lia]. rewrite !w64_small by word_lia.
  set (sp' := set_sp_cached_count _ _). set (m3 := set_m_spans _ m2).
  assert (Hco : forall r p' c', cache_of m3 r p' c' =
    if decide ((false, p, c) = (r, p', c')) then mk_cache n (ca_count (cache_of m false p c) - 1)
    else cache_of m r p' c').
  { intros. change (cache_of m3 r p' c') with (cache_of m1 r p' c'). unfold m1. rewrite cache_of_with. by case_decide. }
  exists m3, (move u (Some (PCache false p c)) (Some (PCentral s)) g), sp'.
  split; [done|]. split; [done|].
  destruct (neutral_move m m3 live g u s sp sp' hd (PCache false p c) (PCentral s)) as [Hi Hke];
    try done; try (by split); try (cbn; lia).
  - split; [|intros pl [= <-]..|]; try done.
    + intros v Hv. unfold link_of. cbn. by rewrite lookup_insert_ne.
    + cbn. rewrite Hco. rewrite decide_True by done. unfold link_of. by rewrite Hn.
    + cbn. rewrite Hsp, lookup_insert_eq. unfold link_of. cbn. by rewrite lookup_insert_eq.
    + intros [s0|r p' c'] Hv Hn1 Hn2; cbn.
      * rewrite lookup_insert_ne by congruence. done.
      * rewrite Hco. rewrite decide_False by congruence. done.
  - intros r p' c' _. rewrite Hco.
    repeat case_decide; repeat case_bool_decide; simplify_eq; cbn [ca_count Z.b2z]; lia || congruence.
  - intros a Ha. by apply (linked_bytes u (sp_central_free sp) m1).
  - split; [done|]. split; [done|]. split; [done|]. split; [done|].
    split; [cbn; by rewrite lookup_insert_eq|].
    intros p' c'. rewrite Hco. repeat case_decide; simplify_eq; cbn; lia || congruence.
Qed.

(** What draining the cache of [p] and [c] by [k] objects does. *)
Record drained (live : gmap Z Z) (p c k : Z) (m m' : vl_memory) (g' : ghost) : Prop := {
  dr_inv : inv m' live g';
  dr_keeps : keeps live m m';
  dr_live : same_live_stats m m';
  dr_cache : forall p' c', ca_count (cache_of m' false p' c') =
    ca_count (cache_of m false p' c') - (if decide ((p, c) = (p', c')) then k else 0) }.

Lemma drain_cache_spec fuel : forall m live g p c count, inv m live g -> in_arrays p c ->
  0 <= count <= VL_CACHE_REFILL -> VL_CACHE_REFILL - count < Z.of_nat fuel ->
  exists k m' g', drain_cache fuel p c count m = Some (tt, m') /\ 0 <= k /\
    drained live p c k m m' g' /\
    (k = VL_CACHE_REFILL - count \/ ca_count (cache_of m' false p c) = 0).
Proof.
  induction fuel as [|fuel IH]; intros m live g p c count Hinv Hpc Hcount Hfuel; [lia|]. cbn [drain_cache].
  assert (Hrefl : drained live p c 0 m m g).
  { split; [done|by eapply keeps_refl|done|]. intros. case_decide; lia. }
  rewrite (bind_Some _ _ _ _ _ (cache_at_run false p c m Hpc)).
  destruct (Z.ltb_spec count VL_CACHE_REFILL) as [Hlt|Hge]; cbn [andb].
  2: { exists 0, m, g. split_and!; try done. left. lia. }
  destruct (Z.eqb_spec (ca_head (cache_of m false p c)) NULL) as [E|E]; cbn [negb].
  { exists 0, m, g. split_and!; try done. right. rewrite (iv_counts _ _ _ Hinv false p c Hpc).
    destruct (lo_chain _ _ _ _ (iv_lists _ _ _ Hinv) (PCache false p c) Hpc) as (h & [= <-] & Hch).
    apply (chain_nil _ _ _ Hch) in E. by rewrite E. }
  destruct (move_drain m live g p c Hinv Hpc E) as (hd & m1 & g1 & sp1 & Hhd & Hrun & Hi1 & Hk1 & Hst1 & Hs1 & Hsp1 & Hc1).
  unfold vl_object_header_from_user. rewrite (bind_Some _ _ _ _ _ (load_header_run _ _ _ Hhd)).
  apply bind_inv in Hrun as (u & m0 & Hpop & Hmove).
  rewrite (bind_Some _ _ _ _ _ Hpop), (bind_Some _ _ _ _ _ Hmove).
  destruct (vl_span_reclaim_spec m1 live g1 (oh_span hd) sp1 Hi1 Hs1 Hsp1) as (b & m2 & g2 & Hr2 & Hi2 & Hk2 & Hca2 & Hre2 & Hst2).
  rewrite (bind_Some _ _ _ _ _ Hr2).
  destruct (IH m2 live g2 p c (count + 1) Hi2 Hpc ltac:(lia) ltac:(lia)) as (k & m' & g' & Hr' & Hk0 & [D1 D2 D3 D4] & Hend).
  assert (Hca : forall p' c', cache_of m2 false p' c' = cache_of m1 false p' c') by (intros; unfold cache_of; by rewrite Hca2).
  exists (1 + k), m', g'. split; [done|]. split; [lia|]. split; [|destruct Hend; [left; lia|by right]].
  split; [done| | |].
  - eapply keeps_trans; [done|]. by eapply keeps_trans.
  - unfold same_live_stats in *. rewrite Hst1 in Hst2. destruct Hst2, D3. split; congruence.
  - intros p' c'. rewrite D4, Hca, Hc1. case_decide; lia.
Qed.

(** ** A block from the user to a cache *)

(** The state in which [vl_cache_push] decides whether to drain. *)
Lemma release_to_cache m live g me u s sp hd r : inv m live g -> 0 <= me -> object_in m (g_all g) u s sp ->
  g_loc g u = None -> m_headers m !! (u - HEADER) = Some hd -> live !! u = Some r ->
  exists m' g', let is_remote := negb (vl_memory_current_p me =? sp_owner_p sp) in
    let c := sp_class_index sp in
    free_object me (u - HEADER) u hd m =
      (cache ← cache_at is_remote (sp_owner_p sp) c;
       if VL_CACHE_MAX <? ca_count cache then vl_drain_cache me c else mret tt) m' /\
    inv m' (delete u live) g' /\ keeps (delete u live) m m' /\ in_arrays (sp_owner_p sp) c /\
    (forall p' c', ca_count (cache_of m' false p' c') = ca_count (cache_of m false p' c') +
       (if decide ((is_remote, sp_owner_p sp, c) = (false, p', c')) then 1 else 0)).
Proof.
  intros Hinv Hme Hin Hloc Hhd Hlive.
  pose proof (object_facts_of _ _ _ _ _ _ Hinv Hin) as [Hf1 Hf2 Hf3 Hf4 Hf5 Hf6 Hf7 Hf8 Hf9].
  pose proof (counts_pos _ _ _ _ _ _ Hinv Hin) as (_ & _ & Hp1). rewrite Hloc in Hp1. cbn in Hp1.
  pose proof Hin as (Hs & Hsp & Hu). pose proof (so_static m g (iv_spans _ _ _ Hinv) s sp Hs Hsp) as Hss.
  pose proof (oo_counts m g (iv_objects _ _ _ Hinv) s sp Hs Hsp) as Hsc. pose proof (sc_free _ _ _ Hsc) as Hfree.
  destruct (oo_header _ _ (iv_objects _ _ _ Hinv) u s sp Hin) as (hd0 & Hhd0 & Hk). assert (hd0 = hd) as -> by congruence.
  pose proof (iv_live _ _ _ Hinv) as Hli.
  assert (Hreq : oh_requested_size hd = r).
  { apply (li_live _ _ _ Hli) in Hlive as (hd1 & [Hb _] & <-). congruence. }
  pose proof (li_req _ _ _ Hli u hd ltac:(split; [done|right; eauto])) as Hrq. rewrite Hreq in Hrq.
  assert (Hpos : 0 < active_objects (mem_stats m) /\ r <= active_bytes (mem_stats m)).
  { rewrite (li_objects _ _ _ Hli), (li_bytes _ _ _ Hli), (live_total_delete _ _ _ Hlive).
    assert (size live <> 0%nat) by (rewrite map_size_ne_0_lookup; eauto).
    assert (0 <= live_total (delete u live)); [|lia].
    apply (mapping_total_nonneg (delete u live)). intros v rv [_ Hv]%lookup_delete_Some.
    apply (li_live _ _ _ Hli) in Hv as (hdv & Hbv & <-). apply (li_req _ _ _ Hli) in Hbv. lia. }
  pose proof (li_word _ _ _ Hli) as [Hw1 Hw2].
  assert (Hpc : in_arrays (sp_owner_p sp) (sp_class_index sp)) by (split; apply Hss).
  pose proof (cache_count_word m live g false _ _ Hinv Hpc) as Hcw.
  pose proof (cache_count_word m live g true _ _ Hinv Hpc) as Hcw'.
  set (p := sp_owner_p sp) in *. set (c := sp_class_index sp) in *.
  set (rem := negb (vl_memory_current_p me =? p)).
  unfold free_object. rewrite (bind_Some _ _ _ _ _ (store_header_run _ _ m Hf5)).
  set (hd' := set_oh_state _ hd). set (m1 := set_m_headers _ m).
  rewrite bind_run. unfold modify at 1. rewrite Hreq. set (m2 := upd_stats _ m1).
  rewrite (ko_kind _ _ _ _ _ Hk). destruct (Z.eqb_spec VL_OBJECT_SMALL VL_OBJECT_LARGE); [done|].
  unfold vl_cache_push. assert (Hhd2 : m_headers m2 !! (u - HEADER) = Some hd') by (cbn; by rewrite lookup_insert_eq).
  rewrite (bind_Some _ _ _ _ _ (load_header_run _ _ _ Hhd2)).
  change (oh_owner_p hd') with (oh_owner_p hd). change (oh_span hd') with (oh_span hd).
  rewrite (ko_owner _ _ _ _ _ Hk), (ko_span _ _ _ _ _ Hk). fold p.
  destruct (Z.ltb_spec p VL_MEMORY_MAX_P) as [_|Hbad]; [|destruct Hpc; lia].
  rewrite (bind_Some _ _ _ _ _ (load_span_run s sp m2 Hsp)). fold c. fold rem.
  set (m3 := if rem then upd_stats (fun st => set_cross_p_frees (w64 (cross_p_frees st + 1)) st) m2 else m2).
  rewrite (bind_Some _ _ _ tt m3) by (unfold m3; by destruct rem).
  assert (E3 : m3 = set_mem_stats (mem_stats m3) m1) by (unfold m3; by destruct rem).
  assert (Hst3 : active_objects (mem_stats m3) = active_objects (mem_stats m) - 1 /\
    active_bytes (mem_stats m3) = active_bytes (mem_stats m) - r /\
    mapped_bytes (mem_stats m3) = mapped_bytes (mem_stats m)).
  { unfold m3. destruct rem; cbn; rewrite !w64_small by word_lia; done. }
  clearbody m3. rewrite E3. clear E3. set (st := mem_stats m3) in *. clearbody st. clear m3.
  set (m3 := set_mem_stats st m1).
  rewrite (bind_Some _ _ _ _ _ (list_push_run rem p c u m3 Hpc Hf3)).
  change (cache_of m3 rem p c) with (cache_of m rem p c). rewrite w64_small by (destruct rem; word_lia).
  set (m4 := with_cache _ _ _ _ _).
  assert (Hsp4 : m_spans m4 !! s = Some sp) by (unfold m4, with_cache; by destruct rem).
  assert (Hm4 : mapped m4 s SPAN) by (unfold m4, with_cache; by destruct rem).
  rewrite (bind_Some _ _ _ _ _ (upd_span_run s sp _ m4 Hsp4 Hm4)). rewrite !w64_small by word_lia.
  set (sp' := set_sp_active_count _ _). set (m5 := set_m_spans _ m4).
  exists m5, (move u None (Some (PCache rem p c)) g). split; [done|].
  assert (Hst : same_static sp sp') by (by split).
  assert (Hstep : object_step m m5 u s sp' hd').
  { split; [unfold m5, m4, with_cache; destruct rem; split; try done; cbn; apply Hst3| | |].
    - unfold m5, m4, with_cache. by destruct rem.
    - unfold m5, m4, with_cache. by destruct rem.
    - intros v Hv. unfold link_of, m5, m4, with_cache. destruct rem; cbn; by rewrite lookup_insert_ne. }
  assert (Hco : forall r' p' c', cache_of m5 r' p' c' =
    if decide ((rem, p, c) = (r', p', c')) then mk_cache u (ca_count (cache_of m rem p c) + 1) else cache_of m r' p' c').
  { intros. change (cache_of m5 r' p' c') with (cache_of m4 r' p' c'). unfold m4. rewrite cache_of_with. by case_decide. }
  assert (Hby : forall a, ~ (u <= a < u + WORD) -> m_bytes m5 !! a = m_bytes m !! a).
  { intros a Ha. pose proof (linked_bytes u (ca_head (cache_of m rem p c)) m3 a Ha).
    unfold m5, m4, with_cache. by destruct rem. }
  assert (Hlk : link_of m5 u = Some (ca_head (cache_of m rem p c))).
  { unfold link_of, m5, m4, with_cache. destruct rem; cbn; by rewrite lookup_insert_eq. }
  assert (Hss5 : mem_stats m5 = st) by (unfold m5, m4, with_cache; by destruct rem).
  split_and!.
  - eapply (inv_move m m5); [done..| |done|done| | | | |].
    + intros pl [= <-]. exact Hpc.
    + eapply span_counts_move; [done|by apply objs_nodup; [apply Hinv|]|done|rewrite Hloc..|]; cbn; lia.
    + destruct Hk. split; try done. unfold upd_loc. by rewrite decide_True.
    + split; [|done|done|intros pl [= <-]|]; [apply Hstep| |].
      * cbn [place_head]. rewrite Hco, decide_True by done. by rewrite Hlk.
      * intros [s0|r' p' c'] Hv Hn1 Hn2; cbn [place_head].
        -- rewrite (os_spans _ _ _ _ _ _ Hstep), lookup_insert. case_decide as E0; [|done]. rewrite <- E0. by rewrite Hsp.
        -- rewrite Hco, decide_False by congruence. done.
    + eapply counts_move; [apply Hinv|done|done|]. intros r' p' c' _. rewrite Hco.
      repeat case_decide; repeat case_bool_decide; simplify_eq; cbn [ca_count Z.b2z]; lia || congruence.
    + eapply (live_free m m5); [done..| |]; rewrite Hss5; apply Hst3.
  - eapply keeps_step; [done..| | |done]; [rewrite dom_delete; set_solver|].
    intros h Hh. rewrite (os_headers _ _ _ _ _ _ Hstep). by rewrite lookup_insert_ne.
  - exact Hpc.
  - intros p' c'. rewrite Hco. repeat case_decide; simplify_eq; cbn; lia || congruence.
Qed.

(** The statistics cover every live block. *)
Lemma live_stats m live g u r : inv m live g -> live !! u = Some r ->
  0 < active_objects (mem_stats m) /\ 0 < r <= active_bytes (mem_stats m).
Proof.
  intros Hinv Hlive. pose proof (iv_live _ _ _ Hinv) as Hli.
  assert (Hpos : forall v rv, live !! v = Some rv -> 0 < rv).
  { intros v rv (hdv & Hbv & <-)%(li_live _ _ _ Hli). apply (li_req _ _ _ Hli) in Hbv. lia. }
  rewrite (li_objects _ _ _ Hli), (li_bytes _ _ _ Hli), (live_total_delete _ _ _ Hlive).
  assert (size live <> 0%nat) by (rewrite map_size_ne_0_lookup; eauto).
  assert (0 <= live_total (delete u live)).
  { apply (mapping_total_nonneg (delete u live)). intros v rv [_ Hv]%lookup_delete_Some. by apply (Hpos v). }
  pose proof (Hpos u r Hlive). lia.
Qed.

(** [vl_free] of a block in use passes every check and reaches [free_object]. *)
Lemma vl_free_live m live g me u r : inv m live g -> live !! u = Some r ->
  exists hd, block m g u hd /\ oh_requested_size hd = r /\
    vl_free me u m = free_object me (u - HEADER) u hd m.
Proof.
  intros Hinv Hlive. pose proof (live_stats _ _ _ _ _ Hinv Hlive) as [Ho Hb].
  pose proof Hlive as (hd & Hblk & Hreq)%(li_live _ _ _ (iv_live _ _ _ Hinv)).
  exists hd. split; [done|]. split; [done|].
  destruct (block_range m live g u hd Hinv Hblk) as (b & k & Hbk & Hlo & Hhi & _ & Hmag & Hst).
  pose proof (ho_maps m (iv_heap _ _ _ Hinv) _ _ Hbk). unfold vl_free, NULL.
  destruct (Z.eqb_spec u 0); [unfold HEADER in *; lia|]. rewrite bind_run. unfold gets, vl_memory_is_owner.
  rewrite (ho_init _ (iv_heap _ _ _ Hinv)). cbn [negb]. unfold vl_object_header_from_user.
  rewrite (bind_Some _ _ _ _ _ (load_header_run _ _ _ (proj1 Hblk))), Hmag, Hst, !Z.eqb_refl. cbn [negb orb].
  rewrite bind_run. destruct (Z.eqb_spec (active_objects (mem_stats m)) 0); [lia|].
  destruct (Z.ltb_spec (active_bytes (mem_stats m)) (oh_requested_size hd)); [lia|]. done.
Qed.

(** ** Freeing a small block *)
Lemma free_small_spec m live g me u s sp hd r : inv m live g -> caches_bounded m -> 0 <= me ->
  object_in m (g_all g) u s sp -> block m g u hd -> live !! u = Some r ->
  exists m' g', free_object me (u - HEADER) u hd m = Some (tt, m') /\
    inv m' (delete u live) g' /\ keeps (delete u live) m m' /\ caches_bounded m'.
Proof.
  intros Hinv Hcb Hme Hin Hblk Hlive.
  pose proof (block_at_object m g u s sp hd (iv_heap _ _ _ Hinv) (iv_spans _ _ _ Hinv) (iv_large _ _ _ Hinv) Hin Hblk) as Hloc.
  destruct (release_to_cache m live g me u s sp hd r Hinv Hme Hin Hloc (proj1 Hblk) Hlive) as (m1 & g1 & Hrun & Hi1 & Hk1 & Hpc & Hc1).
  cbv zeta in *. set (rem := negb _) in *. set (p := sp_owner_p sp) in *. set (c := sp_class_index sp) in *.
  rewrite Hrun, (bind_Some _ _ _ _ _ (cache_at_run rem p c m1 Hpc)).
  assert (Hpc' : in_arrays (vl_memory_current_p me) c) by (split; [by apply current_p_range|apply Hpc]).
  assert (Hbound : forall p' c', in_arrays p' c' -> (rem, p, c) <> (false, p', c') ->
    ca_count (cache_of m1 false p' c') <= VL_CACHE_MAX).
  { intros p' c' Hp Hne. rewrite Hc1, decide_False by done. rewrite Z.add_0_r. by apply Hcb. }
  destruct (Z.ltb_spec VL_CACHE_MAX (ca_count (cache_of m1 rem p c))) as [Hgt|Hle].
  - unfold vl_drain_cache.
    destruct (drain_cache_spec REFILL_FUEL m1 (delete u live) g1 (vl_memory_current_p me) c 0 Hi1 Hpc')
      as (k & m2 & g2 & Hr2 & Hk0 & [D1 D2 D3 D4] & Hend);
      [unfold VL_CACHE_REFILL; lia|unfold VL_CACHE_REFILL, REFILL_FUEL; lia|].
    exists m2, g2. split; [done|]. split; [done|]. split; [by eapply keeps_trans|].
    intros p' c' Hp. destruct (decide ((rem, p, c) = (false, p', c'))) as [E|E].
    + assert (Hme' : vl_memory_current_p me = p).
      { assert (Hrf : rem = false) by congruence. unfold rem in Hrf. by apply negb_false_iff, Z.eqb_eq in Hrf. }
      assert (p' = p) as -> by congruence. assert (c' = c) as -> by congruence. rewrite Hme' in *.
      destruct Hend as [-> | ->]; [|unfold VL_CACHE_MAX; lia].
      rewrite D4, Hc1, !decide_True by done. pose proof (Hcb p c Hpc). unfold VL_CACHE_REFILL, VL_CACHE_MAX in *. lia.
    + rewrite D4. pose proof (Hbound p' c' Hp E). case_decide; lia.
  - exists m1, g1. split; [done|]. split; [done|]. split; [done|]. intros p' c' Hp.
    destruct (decide ((rem, p, c) = (false, p', c'))) as [E|E]; [|by apply Hbound].
    assert (rem = false) as Hr by congruence. assert (p' = p) as -> by congruence. assert (c' = c) as -> by congruence.
    by rewrite Hr in Hle.
Qed.
End free.
