(* ===== verification/VallocLarge.v ===== *)
(** * Large allocations

    A request above the largest class gets a mapping of its own, whose header is on
    the list [large_allocations] until the block is freed. *)

From S2P Require Import Prelude SizeClass PageHeap Span Valloc VallocLists VallocInv VallocMove VallocSteps VallocRefill VallocReclaim VallocFree.
From stdpp Require Import options.

Open Scope Z_scope.

(** ** Allocating *)

Definition large_ghost (l : list Z) (g : ghost) : ghost :=
  mk_ghost (g_lst g) (g_loc g) (g_all g) (g_cent g) l.

(** The state after [vl_malloc_large] succeeded. *)
Definition large_state (h bytes : Z) (hd : vl_object_header) (size : Z) `{os_memory} (m : vl_memory) : vl_memory :=
  upd_stats (fun st => set_active_objects (w64 (active_objects st + 1)) (set_active_bytes (w64 (active_bytes st + size)) st))
    (set_large_allocations h (set_m_headers (<[h := hd]> (m_headers m)) (acquired h bytes m))).

Section large.
#[local] Set Default Proof Using "Type*".
Context `{os_memory_laws}.
Context (m : vl_memory) (live : gmap Z Z) (g : ghost) (h bytes size : Z) (hd : vl_object_header).
Context (Hinv : inv m live g) (Hfresh : fresh_range m h bytes) (HokA : heap_ok (acquired h bytes m)) (Hbytes : 0 < bytes).
Context (Hhd : large_header (acquired h bytes m) h hd) (Hnext : oh_large_next hd = large_allocations m).
Context (Hsize : oh_capacity hd = size /\ oh_requested_size hd = size /\ 0 < size).
Context (Hobj : active_objects (mem_stats m) < SIZE_MAX) (Hby : active_bytes (mem_stats m) + size <= SIZE_MAX).

Let m' := large_state h bytes hd size m.
Let g' := large_ghost (h :: g_large g) g.
Let u := h + HEADER.

Lemma large_fresh : mappings m !! h = None /\ m_headers m !! h = None /\ h ∉ g_all g /\ h ∉ g_large g /\ h <> NULL.
Proof.
  assert (HN : mappings m !! h = None) by (eapply fresh_range_None; [apply Hinv|done|done]).
  assert (Hh : m_headers m !! h = None).
  { destruct (m_headers m !! h) as [x|] eqn:E; [exfalso|done].
    eapply (fresh_range_notin m h bytes h HEADER Hfresh); [by apply (ho_headers _ (iv_heap _ _ _ Hinv) h x)|done|lia]. }
  split_and!; try done.
  - intros Ha. destruct (chain_dom _ _ _ _ (so_all _ _ (iv_spans _ _ _ Hinv)) Ha) as [_ [n Hn]].
    unfold all_next_of in Hn. destruct (m_spans m !! h) as [sp|] eqn:E; [|done].
    pose proof (ss_map _ _ _ (so_static _ _ (iv_spans _ _ _ Hinv) h sp Ha E)). congruence.
  - intros Ha. destruct (chain_dom _ _ _ _ (la_chain _ _ (iv_large _ _ _ Hinv)) Ha) as [_ [n Hn]].
    unfold large_next_of in Hn. by rewrite Hh in Hn.
  - destruct Hfresh. unfold NULL. lia.
Qed.

Lemma large_old_header a x : m_headers m !! a = Some x -> m_headers m' !! a = Some x.
Proof.
  intros Ha. cbn. rewrite lookup_insert_ne; [done|]. intros <-. destruct large_fresh as (_ & Hn & _). congruence.
Qed.

Lemma large_alloc_heap : heap_ok m'.
Proof.
  destruct HokA as [A1 A2 A3 A4 A5 A6 A7 A8 A9]. split; try done. intros a x. cbn.
  rewrite lookup_insert. case_decide as E; [|apply A7]. intros _. subst a.
  exists h, bytes. split; [cbn; by rewrite lookup_insert_eq|].
  pose proof (lh_fits _ _ _ Hhd). pose proof (lh_map _ _ _ Hhd) as Hm. cbn in Hm. rewrite lookup_insert_eq in Hm.
  destruct Hsize as (E1 & _ & ?). simplify_eq. lia.
Qed.

Lemma large_alloc_static s sp : s ∈ g_all g -> span_static m s sp -> span_static m' s sp.
Proof.
  intros Hs []. split; try done. cbn. rewrite lookup_insert_ne; [done|]. intros <-.
  by destruct large_fresh as (_ & _ & ? & _).
Qed.

Lemma large_alloc_block v x : block m' g' v x <-> block m g v x \/ (v = u /\ x = hd).
Proof.
  destruct large_fresh as (_ & Hn & _ & Hl & _). unfold block. split.
  - intros [Hx [Hv|(s & sp & Hin & Hloc)]].
    + cbn in Hv. apply elem_of_cons in Hv as [Hv|Hv].
      * right. cbn in Hx. rewrite Hv, lookup_insert_eq in Hx. split; [unfold u; lia|congruence].
      * left. split; [|by left]. cbn in Hx. rewrite lookup_insert_ne in Hx; [done|]. intros E. apply Hl. by rewrite E.
    + left. destruct (oo_header _ _ (iv_objects _ _ _ Hinv) v s sp Hin) as (x0 & Hx0 & _).
      pose proof (large_old_header _ _ Hx0). split; [congruence|]. right. eauto.
  - intros [[Hx Hv]|[-> ->]].
    + split; [by apply large_old_header|]. destruct Hv as [?|?]; [left; by right|by right].
    + replace (u - HEADER) with h by (unfold u; lia). split; [cbn; by rewrite lookup_insert_eq|]. left. left.
Qed.

Lemma large_alloc_inv : live !! u = None /\ inv m' (<[u := size]> live) g' /\ keeps live m m'.
Proof.
  destruct large_fresh as (HN & Hn & Hna & Hl & H0'). destruct Hsize as (Ecap & Ereq & Hpos).
  assert (Hlu : live !! u = None).
  { destruct (live !! u) as [r|] eqn:E; [exfalso|done].
    apply (li_live _ _ _ (iv_live _ _ _ Hinv)) in E as (x & [Hx _] & _).
    replace (u - HEADER) with h in Hx by (unfold u; lia). congruence. }
  pose proof (live_bytes_nonneg _ _ _ Hinv). pose proof (li_objects _ _ _ (iv_live _ _ _ Hinv)) as Hob.
  destruct Hinv as [Hok Hso Hlo Hc Ho Hla Hli] eqn:Einv. clear Einv. split; [done|]. split.
  - split; [apply large_alloc_heap| |by destruct Hlo; split|exact Hc| | |].
    + destruct Hso as [S1 S2 S3 S4 S5]. split; try done. intros s sp Hs Hsp. by apply large_alloc_static, S5.
    + destruct Ho as [O1 O2 O3 O4]. split; try done. intros v s sp Hv.
      destruct (O2 v s sp Hv) as (x & Hx & Hk). exists x. split; [by apply large_old_header|done].
    + destruct Hla as [L1 L2 L3 L4]. split.
      * cbn. split; [done|]. split; [done|]. exists (large_allocations m). unfold large_next_of. cbn.
        rewrite lookup_insert_eq. cbn. split; [by rewrite Hnext|]. apply (list_chain_frame _ _ _ _ L1).
        intros v Hv. unfold large_next_of. rewrite lookup_insert_ne; [done|]. by intros <-.
      * by apply list.NoDup_cons.
      * intros v x [->|Hv]%elem_of_cons Hx.
        -- cbn in Hx. rewrite lookup_insert_eq in Hx. simplify_eq. by destruct Hhd.
        -- cbn in Hx. rewrite lookup_insert_ne in Hx by (by intros <-). destruct (L3 v x Hv Hx). split; try done.
           cbn. rewrite lookup_insert_ne; [done|]. by intros <-.
      * intros v [->|Hv]%elem_of_cons Ha; [done|by apply (L4 v)].
    + destruct Hli as [I1 I2 I3 I4 I5]. split.
      * intros v r. setoid_rewrite large_alloc_block. rewrite lookup_insert. case_decide as E.
        -- subst v. split; [intros [= <-]; exists hd; auto|]. intros (x & [Hb|[_ ->]] & <-); [|congruence].
           assert (live !! u = Some (oh_requested_size x)) by (apply I1; eauto). congruence.
        -- rewrite I1. split; [intros (x & ? & ?); exists x; auto|]. intros (x & [?|[? _]] & ?); [eauto|congruence].
      * intros v x [Hb|[-> ->]]%large_alloc_block; [by apply (I2 v)|lia].
      * cbn. rewrite map_size_insert_None by done. rewrite w64_small; word_lia.
      * cbn. rewrite live_total_insert by done. rewrite w64_small; word_lia.
      * cbn. rewrite !w64_small; word_lia.
  - intros v Hv. assert (Hinv0 : inv m live g) by done.
    destruct (live_block _ _ _ _ Hinv0 Hv) as (x & Hb). exists x, x. pose proof Hb as [Hx _].
    split_and!; try done. by apply large_old_header.
Qed.
End large.

Section malloc_large.
#[local] Set Default Proof Using "Type*".
Context `{os_memory_laws}.

Lemma vl_malloc_large_spec m live g me size : inv m live g -> 0 <= me -> 0 < size ->
  active_objects (mem_stats m) < SIZE_MAX -> active_bytes (mem_stats m) + size <= SIZE_MAX ->
  exists u m', vl_malloc_large me size m = Some (u, m') /\
    ((u = NULL /\ (m' = m \/ m' = tick m) /\
        exists bytes, size < bytes <= size + 2 ^ 21 /\ refuses m bytes) \/
     (u <> NULL /\ live !! u = None /\ exists g', inv m' (<[u := size]> live) g' /\ keeps live m m' /\
        (forall r p c, cache_of m' r p c = cache_of m r p c))).
Proof.
  intros Hinv Hme Hsize Hobj Hby. pose proof (iv_heap _ _ _ Hinv) as Hok.
  pose proof (mapping_total_nonneg (mappings m) (fun b k Hk => proj1 (proj2 (proj2 (ho_maps m Hok b k Hk))))) as Hnn.
  rewrite <- (proj1 (ho_bytes m Hok)) in Hnn. pose proof page_bounds as [Hpb _]. rewrite <- (ho_page m Hok) in Hpb.
  pose proof (live_bytes_nonneg _ _ _ Hinv). unfold vl_malloc_large. rewrite bind_run. unfold gets at 1.
  set (ps := page_size m) in *.
  assert (Hrefuse : forall n, SIZE_MAX < n -> size < n <= size + 2 ^ 21 -> exists bytes, size < bytes <= size + 2 ^ 21 /\ refuses m bytes).
  { intros n Hn1 Hn2. exists n. split; [done|]. left. lia. }
  destruct (Z.ltb_spec (SIZE_MAX - HEADER) size).
  { exists NULL, m. split; [done|]. left. split_and!; [done|by left|]. apply (Hrefuse (HEADER + size)); unfold HEADER in *; lia. }
  rewrite (w64_small (HEADER + size)) by (unfold HEADER in *; word_lia).
  destruct (Z.ltb_spec (SIZE_MAX - (ps - 1)) (HEADER + size)).
  { exists NULL, m. split; [done|]. left. split_and!; [done|by left|].
    apply (Hrefuse (HEADER + size + ps)); unfold HEADER in *; lia. }
  rewrite w64_small by (unfold HEADER in *; word_lia). set (pages := (HEADER + size + ps - 1) / ps).
  pose proof (Z.div_mod (HEADER + size + ps - 1) ps ltac:(lia)) as Hdm. fold pages in Hdm.
  pose proof (Z.mod_pos_bound (HEADER + size + ps - 1) ps ltac:(lia)) as Hmb.
  assert (Hpages : 0 < pages) by (unfold HEADER in *; nia).
  destruct (Z.eqb_spec pages 0); [lia|].
  destruct (vl_page_heap_acquire_spec m pages Hok Hpages) as (r & Hr & Hcase). fold ps in Hcase. rewrite bind_run, Hr.
  destruct Hcase as [(E1 & E2 & Href)|(h & -> & Hfresh & Hbytes & HokA)].
  { destruct r as [[b0 k0] mr]. cbn in E1, E2. simplify_eq. cbn [fst snd]. destruct (Z.eqb_spec NULL NULL); [|done].
    exists NULL, mr. split; [done|]. left. split_and!; [done|done|]. exists (pages * ps). split; [unfold HEADER in *; lia|done]. }
  cbn [fst snd]. set (bytes := pages * ps) in *. set (mA := acquired h bytes m) in *.
  assert (Hh0 : h <> NULL) by (destruct Hfresh; unfold NULL; lia).
  destruct (Z.eqb_spec h NULL); [done|]. unfold vl_initialize_header. destruct (Z.eqb_spec NULL NULL); [|done]. cbn [negb].
  set (owner := vl_memory_current_p me). rewrite bind_run, bind_run, ret_run.
  set (hd0 := mk_header _ _ _ _ _ _ _ _ _ _ _).
  assert (Hmap : mapped mA h HEADER).
  { exists h, bytes. split; [cbn; by rewrite lookup_insert_eq|]. unfold bytes. lia. }
  rewrite (store_header_run h hd0 mA Hmap). set (m1 := set_m_headers _ mA).
  assert (Hm1 : m_headers m1 !! h = Some hd0) by (cbn; by rewrite lookup_insert_eq).
  rewrite (bind_Some _ _ _ _ _ (load_header_run _ _ _ Hm1)).
  rewrite (bind_Some _ _ _ _ _ (store_header_run h _ m1 Hmap)). set (hd1 := set_oh_owner_p owner hd0). set (m2 := set_m_headers _ m1).
  assert (Hm2 : m_headers m2 !! h = Some hd1) by (cbn; by rewrite lookup_insert_eq).
  unfold vl_large_insert. rewrite bind_run, bind_run. unfold gets.
  rewrite (bind_Some _ _ _ _ _ (load_header_run _ _ _ Hm2)).
  change (large_allocations m2) with (large_allocations m).
  rewrite (bind_Some _ _ _ _ _ (store_header_run h _ m2 Hmap)). set (hd := set_oh_large_next _ hd1). set (m3 := set_m_headers _ m2).
  unfold modify, count_allocated. rewrite bind_run. unfold modify. rewrite ret_run.
  set (m4 := upd_stats _ _). unfold vl_object_user_from_header.
  assert (Em : m4 = large_state h bytes hd size m).
  { unfold m4, large_state, m3, m2, m1. cbn. by rewrite !insert_insert_eq. }
  assert (Hlh : large_header mA h hd).
  { split; try done; [cbn; by rewrite lookup_insert_eq|]. change (HEADER + size <= bytes). unfold bytes. lia. }
  destruct (large_alloc_inv m live g h bytes size hd Hinv Hfresh HokA Hbytes Hlh eq_refl ltac:(done) Hobj Hby) as (Hlu & Hi & Hk).
  exists (h + HEADER), m4. split; [done|]. right. rewrite Em.
  split; [destruct Hfresh; unfold NULL, HEADER; lia|]. split; [done|]. eexists. split; [done|]. by split.
Qed.
End malloc_large.

(** ** Freeing *)

(** The same headers, with other list pointers. *)
Definition hnext_only (x x' : vl_object_header) : Prop := x' = set_oh_large_next (oh_large_next x') x.

Definition hrelinked (l : list Z) (d d' : gmap Z vl_object_header) : Prop := forall h,
  (h ∉ l -> d' !! h = d !! h) /\
  match d !! h, d' !! h with
  | Some x, Some x' => hnext_only x x'
  | None, None => True
  | _, _ => False
  end.

Lemma hrelinked_refl l d : hrelinked l d d.
Proof. intros h. split; [done|]. destruct (d !! h) as [[]|]; done. Qed.

Lemma hrelinked_lookup l d d' h x : hrelinked l d d' -> d !! h = Some x -> exists x', d' !! h = Some x' /\ hnext_only x x'.
Proof. intros Hr Hh. destruct (Hr h) as [_ Hm]. rewrite Hh in Hm. destruct (d' !! h); [eauto|done]. Qed.

(** The state after a large block was freed. *)
Record large_freed `{os_memory} (m m' : vl_memory) (g : ghost) (h size r : Z) : Prop := {
  lf_heap : heap_ok m';
  lf_page : page_size m' = page_size m;
  lf_caches : caches m' = caches m /\ remote m' = remote m;
  lf_central : central m' = central m;
  lf_all : all_spans m' = all_spans m;
  lf_stats : active_objects (mem_stats m') = active_objects (mem_stats m) - 1 /\
    active_bytes (mem_stats m') = active_bytes (mem_stats m) - r;
  lf_maps : forall b, b <> h -> mappings m' !! b = mappings m !! b;
  lf_spans : forall a, ~ (h <= a < h + size) -> m_spans m' !! a = m_spans m !! a;
  lf_headers : exists Y, hrelinked (g_large g) (m_headers m) Y /\
    (forall a, ~ (h <= a < h + size) -> m_headers m' !! a = Y !! a);
  lf_links : forall a, ~ (h <= a < h + size) -> m_links m' !! a = m_links m !! a;
  lf_bytes : forall a, ~ (h <= a < h + size) -> m_bytes m' !! a = m_bytes m !! a;
  lf_chain : chain (large_next_of m') (large_allocations m') (without h (g_large g)) }.

Section large_free.
#[local] Set Default Proof Using "Type*".
Context `{os_memory_laws}.
Context (m m' : vl_memory) (live : gmap Z Z) (g : ghost) (h r : Z) (hd : vl_object_header).
Context (Hinv : inv m live g) (Hin : h ∈ g_large g) (Hhd : m_headers m !! h = Some hd) (Hr : oh_requested_size hd = r).
Context (Hlf : large_freed m m' g h (oh_mapping_size hd) r).

Let g' := large_ghost (without h (g_large g)) g.
Let u := h + HEADER.

Lemma lfree_header : large_header m h hd.
Proof. by apply (la_header _ _ (iv_large _ _ _ Hinv)). Qed.

Lemma lfree_outside b k a : mappings m !! b = Some k -> b <> h -> b <= a < b + k -> ~ (h <= a < h + oh_mapping_size hd).
Proof.
  intros Hb Hne Ha Hia. pose proof (ho_disjoint m (iv_heap _ _ _ Hinv) _ _ _ _ Hb (lh_map _ _ _ lfree_header) Hne).
  unfold disjoint_range in *. lia.
Qed.

Lemma lfree_span s sp : s ∈ g_all g -> m_spans m !! s = Some sp ->
  s <> h /\ m_spans m' !! s = Some sp /\ span_static m' s sp /\
  forall a, s <= a < s + sp_mapping_size sp -> ~ (h <= a < h + oh_mapping_size hd).
Proof.
  intros Hs Hsp. assert (Hne : s <> h) by (intros ->; by apply (la_disjoint _ _ (iv_large _ _ _ Hinv) h)).
  pose proof (so_static _ _ (iv_spans _ _ _ Hinv) s sp Hs Hsp) as Hss.
  assert (Hout : forall a, s <= a < s + sp_mapping_size sp -> ~ (h <= a < h + oh_mapping_size hd)).
  { intros a. by apply lfree_outside; [apply Hss|]. }
  pose proof (ho_maps m (iv_heap _ _ _ Hinv) _ _ (ss_map _ _ _ Hss)).
  split_and!; [done| | |done].
  - rewrite (lf_spans _ _ _ _ _ _ Hlf); [done|]. apply Hout. lia.
  - destruct Hss. split; try done; [by rewrite (lf_maps _ _ _ _ _ _ Hlf)|by rewrite (lf_page _ _ _ _ _ _ Hlf)].
Qed.

Lemma lfree_object v s sp : object_in m' (g_all g') v s sp <-> object_in m (g_all g) v s sp.
Proof.
  unfold object_in. rewrite (lf_page _ _ _ _ _ _ Hlf). cbn.
  split; intros (Hs & Hsp & Hv); (split; [done|]); (split; [|done]).
  - destruct (chain_dom _ _ _ _ (so_all _ _ (iv_spans _ _ _ Hinv)) Hs) as [_ [n Hn]]. unfold all_next_of in Hn.
    destruct (m_spans m !! s) as [sp0|] eqn:E; [|done]. destruct (lfree_span s sp0 Hs E) as (_ & E' & _). congruence.
  - by apply lfree_span.
Qed.

(** The range of an object, header included, is not in the mapping. *)
Lemma lfree_object_outside v s sp a : object_in m (g_all g) v s sp -> v - HEADER <= a < v + sp_capacity sp ->
  ~ (h <= a < h + oh_mapping_size hd).
Proof.
  intros (Hs & Hsp & Hv) Ha. pose proof (so_static _ _ (iv_spans _ _ _ Hinv) s sp Hs Hsp) as Hss.
  pose proof (object_bounds m s sp v (iv_heap _ _ _ Hinv) Hss Hv). pose proof (span_bounds m s sp (iv_heap _ _ _ Hinv) Hss).
  destruct (lfree_span s sp Hs Hsp) as (_ & _ & _ & Hout). apply Hout. lia.
Qed.

Lemma lfree_object_header v s sp x : object_in m (g_all g) v s sp -> m_headers m !! (v - HEADER) = Some x ->
  m_headers m' !! (v - HEADER) = Some x.
Proof.
  intros Ho Hx. destruct (lf_headers _ _ _ _ _ _ Hlf) as (Y & HY & Hlk).
  pose proof Ho as (Hs & Hsp & _). pose proof (span_bounds m s sp (iv_heap _ _ _ Hinv) (so_static _ _ (iv_spans _ _ _ Hinv) s sp Hs Hsp)).
  rewrite Hlk by (eapply lfree_object_outside; [done|unfold HEADER; lia]).
  rewrite (proj1 (HY _)); [done|]. by eapply object_not_large; [apply Hinv..|].
Qed.

Lemma lfree_large_header v : v ∈ without h (g_large g) -> exists x x',
  m_headers m !! v = Some x /\ m_headers m' !! v = Some x' /\ hnext_only x x' /\ large_header m' v x'.
Proof.
  intros [Hne Hv]%elem_of_without. destruct (lf_headers _ _ _ _ _ _ Hlf) as (Y & HY & Hlk).
  destruct (chain_dom _ _ _ _ (la_chain _ _ (iv_large _ _ _ Hinv)) Hv) as [_ [n Hn]]. unfold large_next_of in Hn.
  destruct (m_headers m !! v) as [x|] eqn:E; [|done]. pose proof (la_header _ _ (iv_large _ _ _ Hinv) v x Hv E) as Hlh.
  destruct (hrelinked_lookup _ _ _ _ _ HY E) as (x' & Ex' & Hno). exists x, x'.
  pose proof (ho_maps m (iv_heap _ _ _ Hinv) _ _ (lh_map _ _ _ Hlh)).
  rewrite Hlk by (eapply lfree_outside; [apply (lh_map _ _ _ Hlh)|done|lia]). split_and!; try done.
  rewrite Hno. destruct Hlh. split; try done. by rewrite (lf_maps _ _ _ _ _ _ Hlf).
Qed.

Lemma lfree_block v x' : block m' g' v x' <-> v <> u /\ exists x, block m g v x /\ hnext_only x x' /\ m_headers m' !! (v - HEADER) = Some x'.
Proof.
  assert (Hvu : forall v, v <> u <-> v - HEADER <> h) by (unfold u; lia). rewrite Hvu. split.
  - intros [Hx [Hv|(s & sp & Ho & Hloc)]].
    + pose proof Hv as [Hne Hv']%elem_of_without. split; [done|].
      destruct (lfree_large_header _ Hv) as (x & x0 & E1 & E2 & Hno & _). exists x. split; [split; [done|by left]|].
      assert (x0 = x') as -> by congruence. done.
    + apply lfree_object in Ho. split.
      { intros <-. by eapply object_not_large in Hin; [|apply Hinv..|done]. }
      destruct (oo_header _ _ (iv_objects _ _ _ Hinv) v s sp Ho) as (x & Ex & _). exists x.
      split; [split; [done|right; eauto]|]. pose proof (lfree_object_header v s sp x Ho Ex).
      assert (x' = x) as -> by congruence. split; [by destruct x|done].
  - intros (Hne & x & [Hx [Hv|(s & sp & Ho & Hloc)]] & Hno & Hx'); (split; [done|]).
    + left. by apply elem_of_without.
    + right. exists s, sp. split; [by apply lfree_object|done].
Qed.

Lemma lfree_header_at v x : v <> u -> block m g v x ->
  exists x', m_headers m' !! (v - HEADER) = Some x' /\ hnext_only x x'.
Proof.
  intros Hne [Hx [Hv|(s & sp & Ho & _)]].
  - destruct (lfree_large_header (v - HEADER)) as (y & y' & E1 & E2 & Hno & _);
      [apply elem_of_without; split; [unfold u in Hne; lia|done]|]. exists y'. split; [done|congruence].
  - exists x. split; [by eapply lfree_object_header|by destruct x].
Qed.

Lemma lfree_inv : inv m' (delete u live) g' /\ keeps (delete u live) m m'.
Proof.
  destruct (lf_caches _ _ _ _ _ _ Hlf) as [Hca Hre]. pose proof (iv_live _ _ _ Hinv) as Hli.
  assert (Hblk : block m g u hd) by (unfold u; split; replace (h + HEADER - HEADER) with h by lia; [done|by left]).
  assert (Hlu : live !! u = Some r) by (apply (li_live _ _ _ Hli); eauto).
  pose proof (live_stats _ _ _ _ _ Hinv Hlu) as [Hs1 Hs2]. destruct (lf_stats _ _ _ _ _ _ Hlf) as [St1 St2].
  assert (Hspan : forall s sp, s ∈ g_all g -> m_spans m' !! s = Some sp -> m_spans m !! s = Some sp).
  { intros s sp Hs Hsp. destruct (chain_dom _ _ _ _ (so_all _ _ (iv_spans _ _ _ Hinv)) Hs) as [_ [n Hn]].
    unfold all_next_of in Hn. destruct (m_spans m !! s) as [sp0|] eqn:E; [|done].
    destruct (lfree_span s sp0 Hs E) as (_ & E' & _). congruence. }
  assert (Hlook : forall s, s ∈ g_all g -> m_spans m' !! s = m_spans m !! s).
  { intros s Hs. destruct (chain_dom _ _ _ _ (so_all _ _ (iv_spans _ _ _ Hinv)) Hs) as [_ [n Hn]].
    unfold all_next_of in Hn. destruct (m_spans m !! s) as [sp0|] eqn:E; [|done]. by apply lfree_span. }
  split.
  - split; [apply Hlf| | | | | |].
    + destruct (iv_spans _ _ _ Hinv) as [S1 S2 S3 S4 S5]. split; try done.
      * rewrite (lf_all _ _ _ _ _ _ Hlf). apply (list_chain_frame _ _ _ _ S1). intros s Hs. unfold all_next_of. by rewrite Hlook.
      * intros c Hc. rewrite (lf_central _ _ _ _ _ _ Hlf). destruct (S3 c Hc) as [Hch ?]. split; [|done].
        apply (list_chain_frame _ _ _ _ Hch). intros s [Hs _]%S4. unfold central_next_of. by rewrite Hlook.
      * intros c s. cbn. rewrite S4. split; intros (Hs & sp & Hsp & Hcl); (split; [done|]); exists sp;
          (split; [|done]); [by rewrite Hlook|by apply Hspan].
      * intros s sp Hs Hsp. apply lfree_span; [done|by apply Hspan].
    + destruct (iv_lists _ _ _ Hinv) as [L1 L2 L3 L4]. split; try done. intros pl Hv. destruct (L1 pl Hv) as (hh & Hh & Hch).
      exists hh. split.
      * rewrite <- Hh. destruct pl as [s|r0 p c]; cbn; [by rewrite Hlook|unfold cache_of; by rewrite Hca, Hre].
      * apply (list_chain_frame _ _ _ _ Hch). intros v Hv'. unfold link_of. apply (lf_links _ _ _ _ _ _ Hlf).
        apply L3 in Hv'. destruct (oo_loc _ _ (iv_objects _ _ _ Hinv) v pl Hv') as (s & sp & Ho).
        pose proof Ho as (Hs & Hsp & _).
        pose proof (span_bounds m s sp (iv_heap _ _ _ Hinv) (so_static _ _ (iv_spans _ _ _ Hinv) s sp Hs Hsp)).
        eapply lfree_object_outside; [done|unfold HEADER; lia].
    + intros r0 p c Hpc. unfold cache_of. rewrite Hca, Hre. by apply (iv_counts _ _ _ Hinv).
    + destruct (iv_objects _ _ _ Hinv) as [O1 O2 O3 O4]. split.
      * intros s sp Hs Hsp. rewrite (lf_page _ _ _ _ _ _ Hlf). by apply O1, Hspan.
      * intros v s sp Ho%lfree_object. destruct (O2 v s sp Ho) as (x & Hx & Hk). exists x.
        split; [by eapply lfree_object_header|done].
      * intros v s sp Ho%lfree_object. by apply O3.
      * intros v pl (s & sp & Ho)%O4. exists s, sp. by apply lfree_object.
    + destruct (iv_large _ _ _ Hinv) as [L1 L2 L3 L4]. split; cbn.
      * apply Hlf.
      * by apply without_nodup.
      * intros v x Hv Hx. destruct (lfree_large_header v Hv) as (y & y' & _ & E & _ & Hlh). congruence.
      * intros v [_ Hv]%elem_of_without. by apply L4.
    + split.
      * intros v rv. rewrite lookup_delete_Some, (li_live _ _ _ Hli). setoid_rewrite lfree_block. split.
        -- intros (Hne & x & Hb & Hq). destruct Hb as [Hx Hcase].
           destruct (lfree_header_at v x ltac:(congruence) (conj Hx Hcase)) as (x' & E & Hno).
           exists x'. split; [split; [congruence|]; exists x; done|]. rewrite Hno. exact Hq.
        -- intros (x' & (Hne & x & Hb & Hno & _) & Hq). split; [congruence|]. exists x. split; [done|].
           rewrite Hno in Hq. exact Hq.
      * intros v x' (_ & x & Hb & Hno & _)%lfree_block. apply (li_req _ _ _ Hli) in Hb. rewrite Hno. exact Hb.
      * rewrite map_size_delete_Some by eauto. pose proof (li_objects _ _ _ Hli). lia.
      * pose proof (live_total_delete _ _ _ Hlu). pose proof (li_bytes _ _ _ Hli). lia.
      * pose proof (li_word _ _ _ Hli). lia.
  - intros v Hv. rewrite dom_delete in Hv. apply elem_of_difference in Hv as [Hv Hne]. rewrite elem_of_singleton in Hne.
    destruct (live_block _ _ _ _ Hinv Hv) as (x & Hb).
    destruct (cell_mapping m live g v (oh_capacity x) Hinv (block_cell _ _ _ _ _ Hinv Hb)) as (b & k & Hbk & Hb1 & Hb2 & Hcase).
    assert (Hbh : b <> h).
    { destruct Hcase as [[Ha _]|[_ ->]]; [intros ->; by apply (la_disjoint _ _ (iv_large _ _ _ Hinv) h)|unfold u in Hne; lia]. }
    destruct (lfree_header_at v x Hne Hb) as (x' & E & Hno). pose proof Hb as [Hx _].
    exists x, x'. split; [done|]. split; [done|]. rewrite Hno. split; [done|]. split; [done|].
    intros a Ha. apply (lf_bytes _ _ _ _ _ _ Hlf). eapply lfree_outside; [done..|]. unfold HEADER in *. lia.
Qed.
End large_free.

Section free_large.
#[local] Set Default Proof Using "Type*".
Context `{os_memory_laws}.

Lemma large_remove_run m l h hd : heap_ok m -> chain (large_next_of m) (large_allocations m) l -> NoDup l ->
  h ∈ l -> m_headers m !! h = Some hd -> exists v Y,
  vl_large_remove h m = Some (tt, set_large_allocations v (set_m_headers Y m)) /\ hrelinked l (m_headers m) Y /\
  chain (fun w => oh_large_next <$> Y !! w) v (without h l).
Proof.
  intros Hok Hch Hnd Hh Hhd. destruct (list_elem_of_split _ _ Hh) as (l1 & l2 & ->).
  assert (Hs1 : h ∉ l1). { intros Hs1. apply list.NoDup_app in Hnd as (_ & Hd & _). apply (Hd h Hs1). left. }
  unfold vl_large_remove. rewrite bind_run. unfold gets at 1.
  destruct (find_cursor_spec load_large_cursor (large_next_of m) m h l1 l2 (large_allocations m) (large_fuel m) None)
    as [Hfind Hload]; [|done..| |].
  { intros v Hv. cbn. rewrite bind_run. unfold load_header, large_next_of. crun. by destruct (m_headers m !! v). }
  { assert (Hf : (length (l1 ++ h :: l2) < large_fuel m)%nat).
    { unfold large_fuel. apply Nat.lt_succ_r, NoDup_length_dom; [done|]. intros v Hv.
      destruct (chain_dom _ _ _ _ Hch Hv) as [_ Hd]. by apply fmap_is_Some in Hd. }
    rewrite length_app in Hf. cbn in Hf. lia. }
  rewrite (bind_Some _ _ _ _ _ Hfind), (bind_Some _ _ _ _ _ Hload), Z.eqb_refl, cursor_after_None.
  rewrite (bind_Some _ _ _ _ _ (load_header_run h hd m Hhd)). rewrite without_split by done.
  assert (Hnt : large_next_of m h = Some (oh_large_next hd)) by (unfold large_next_of; by rewrite Hhd).
  destruct (list.last l1) as [v|] eqn:Elast.
  - assert (Hv1 : v ∈ l1) by (by apply last_Some_elem_of).
    destruct (chain_dom _ _ _ v Hch ltac:(set_solver)) as [_ [n Hn]]. unfold large_next_of in Hn.
    destruct (m_headers m !! v) as [hdv|] eqn:Hhdv; [|done].
    rewrite (bind_Some _ _ _ _ _ (load_header_run v hdv m Hhdv)).
    rewrite (store_header_run v _ m (ho_headers m Hok v hdv Hhdv)).
    exists (large_allocations m), (<[v := set_oh_large_next (oh_large_next hd) hdv]> (m_headers m)).
    split; [by destruct m|]. split.
    { intros w. rewrite lookup_insert. case_decide as E.
      - subst w. split; [intros []; set_solver|]. by rewrite Hhdv.
      - apply hrelinked_refl. }
    eapply (chain_unlink (large_next_of m) _ _ _ l1 h l2); [done..|by intros ->|done|].
    intros w Hw. rewrite lookup_insert, Elast. unfold large_next_of.
    destruct (decide (v = w)) as [->|Hvw]; [by rewrite decide_True|by rewrite decide_False by congruence].
  - assert (l1 = []) as -> by (by apply last_None in Elast).
    exists (oh_large_next hd), (m_headers m). split; [by destruct m|]. split; [apply hrelinked_refl|].
    cbn [app] in *. destruct Hch as (_ & _ & n & Hn & Hch). rewrite Hnt in Hn. by simplify_eq.
Qed.

Lemma free_large_spec m live g me u hd r : inv m live g -> u - HEADER ∈ g_large g -> block m g u hd ->
  live !! u = Some r -> exists m' g', free_object me (u - HEADER) u hd m = Some (tt, m') /\
    inv m' (delete u live) g' /\ keeps (delete u live) m m' /\
    (forall r p c, cache_of m' r p c = cache_of m r p c).
Proof.
  intros Hinv Hin [Hhd _] Hlive. set (h := u - HEADER) in *. pose proof (iv_heap _ _ _ Hinv) as Hok.
  pose proof (la_header _ _ (iv_large _ _ _ Hinv) h hd Hin Hhd) as Hlh.
  pose proof (live_stats _ _ _ _ _ Hinv Hlive) as [Ho Hb]. pose proof (li_word _ _ _ (iv_live _ _ _ Hinv)) as [Hw1 Hw2].
  assert (Hreq : oh_requested_size hd = r).
  { apply (li_live _ _ _ (iv_live _ _ _ Hinv)) in Hlive as (hd1 & [Hb1 _] & <-). fold h in Hb1. congruence. }
  unfold free_object. rewrite (bind_Some _ _ _ _ _ (store_header_run h _ m (ho_headers m Hok h hd Hhd))).
  set (hd' := set_oh_state _ hd). set (m1 := set_m_headers _ m).
  rewrite bind_run. unfold modify at 1. rewrite Hreq. set (m2 := upd_stats _ m1).
  rewrite (lh_kind _ _ _ Hlh). destruct (Z.eqb_spec VL_OBJECT_LARGE VL_OBJECT_LARGE); [|done].
  assert (Hok2 : heap_ok m2).
  { destruct Hok as [A1 A2 A3 A4 A5 A6 A7 A8 A9]. split; try done. intros a x. cbn. rewrite lookup_insert.
    case_decide as E; [intros _; subst a; by apply (A7 h hd)|by apply A7]. }
  assert (Hhd2 : m_headers m2 !! h = Some hd') by (cbn; by rewrite lookup_insert_eq).
  destruct (large_remove_run m2 (g_large g) h hd' Hok2) as (v & Y & Hrun & HY & Hch); [|apply (iv_large _ _ _ Hinv)|done|done|].
  { apply (list_chain_frame _ _ _ _ (la_chain _ _ (iv_large _ _ _ Hinv))). intros w Hw. unfold large_next_of. cbn.
    rewrite lookup_insert. case_decide as E; [subst w; by rewrite Hhd|done]. }
  rewrite (bind_Some _ _ _ _ _ Hrun). rewrite (lh_base _ _ _ Hlh). set (m3 := set_large_allocations v (set_m_headers Y m2)).
  assert (Hok3 : heap_ok m3).
  { destruct Hok2 as [A1 A2 A3 A4 A5 A6 A7 A8 A9]. split; try done. intros a x Hx. destruct (HY a) as [_ Hm].
    cbn in Hx. rewrite Hx in Hm. destruct (m_headers m2 !! a) as [x0|] eqn:E; [|done]. by apply (A7 a x0). }
  destruct (vl_page_heap_release_spec m3 h (oh_mapping_size hd) Hok3 (lh_map _ _ _ Hlh)) as (m' & Hrel & Hm' & Hok').
  assert (Hfil : forall A (d : gmap Z A) a, ~ (h <= a < h + oh_mapping_size hd) ->
    filter (outside h (oh_mapping_size hd)) d !! a = d !! a).
  { intros A d a Ha. destruct (d !! a) as [x|] eqn:E; [by apply unmap_lookup|].
    apply eq_None_not_Some. intros [x Hx]. apply unmap_lookup in Hx as [Hx _]. congruence. }
  pose proof (ho_maps m Hok _ _ (lh_map _ _ _ Hlh)) as Hmap.
  assert (Hlook : forall a, ~ (h <= a < h + oh_mapping_size hd) -> m_headers m' !! a = Y !! a).
  { intros a Ha. destruct Hm' as [-> | ->]; [done|]. cbn. by apply Hfil. }
  assert (HY' : hrelinked (g_large g) (m_headers m) (<[h := hd]> Y)).
  { intros a. rewrite lookup_insert. destruct (decide (h = a)) as [<-|Hne].
    - split; [done|]. rewrite Hhd. by destruct hd.
    - destruct (HY a) as [Ha1 Ha2]. cbn in Ha1, Ha2. rewrite lookup_insert_ne in Ha1, Ha2 by done. done. }
  assert (Hlf : large_freed m m' g h (oh_mapping_size hd) r).
  { split; try done.
    - by destruct Hm' as [-> | ->].
    - by destruct Hm' as [-> | ->].
    - by destruct Hm' as [-> | ->].
    - by destruct Hm' as [-> | ->].
    - destruct Hm' as [-> | ->]; cbn; rewrite !w64_small by word_lia; done.
    - intros b Hne. destruct Hm' as [-> | ->]; [done|]. cbn. by rewrite lookup_delete_ne.
    - intros a Ha. destruct Hm' as [-> | ->]; [done|]. cbn. by apply Hfil.
    - exists (<[h := hd]> Y). split; [done|]. intros a Ha. rewrite Hlook, lookup_insert_ne; [done|lia|done].
    - intros a Ha. destruct Hm' as [-> | ->]; [done|]. cbn. by apply Hfil.
    - intros a Ha. destruct Hm' as [-> | ->]; [done|]. cbn. by apply Hfil.
    - replace (large_allocations m') with v by (by destruct Hm' as [-> | ->]).
      apply (list_chain_frame _ _ _ _ Hch). intros w [Hne Hw]%elem_of_without. unfold large_next_of.
      destruct (chain_dom _ _ _ _ (la_chain _ _ (iv_large _ _ _ Hinv)) Hw) as [_ [n Hn]]. unfold large_next_of in Hn.
      destruct (m_headers m !! w) as [x|] eqn:E; [|done].
      pose proof (lh_map _ _ _ (la_header _ _ (iv_large _ _ _ Hinv) w x Hw E)) as Hmw.
      pose proof (ho_maps m Hok _ _ Hmw). pose proof (ho_disjoint m Hok _ _ _ _ Hmw (lh_map _ _ _ Hlh) Hne).
      unfold disjoint_range in *. rewrite Hlook by lia. done. }
  destruct (lfree_inv m m' live g h r hd Hinv Hin Hhd Hreq Hlf) as [Hi Hk].
  replace (h + HEADER) with u in Hi, Hk by (unfold h; lia).
  exists m', (large_ghost (without h (g_large g)) g). split; [done|]. split; [done|]. split; [done|].
  intros r0 p c. unfold cache_of. destruct (lf_caches _ _ _ _ _ _ Hlf) as [-> ->]. done.
Qed.
End free_large.
