(* ===== verification/VallocProps.v ===== *)
(** * What the allocator promises

    The blocks [vl_malloc] hands out, what [vl_free], [vl_calloc] and [vl_realloc] do
    to them, and the accounting that holds in every state a client can reach. *)

From S2P Require Import Prelude SizeClass PageHeap Span Valloc VallocLists VallocInv VallocMove VallocSteps VallocRefill VallocReclaim VallocFree VallocLarge.
From stdpp Require Import options.

Open Scope Z_scope.

(** The block at [u]: its capacity, at least [n], lies in a mapping and [u] is
    aligned for any object. *)
Definition placed (m : vl_memory) (u n : Z) : Prop := exists hd,
  m_headers m !! (u - HEADER) = Some hd /\ oh_requested_size hd = n /\ n <= oh_capacity hd /\
  mapped m u (oh_capacity hd) /\ u mod VL_MEMORY_ALIGNMENT = 0.

(** Two blocks share no byte, their headers included. *)
Definition apart (m : vl_memory) (u v : Z) : Prop := forall hd hd',
  m_headers m !! (u - HEADER) = Some hd -> m_headers m !! (v - HEADER) = Some hd' ->
  disjoint_range (u - HEADER) (HEADER + oh_capacity hd) (v - HEADER) (HEADER + oh_capacity hd').

Section props.
#[local] Set Default Proof Using "Type*".
Context `{os_memory_laws}.

(** Why [vl_malloc] may fail: a counter would overflow or the system refuses a
    mapping that would hold the block, of not much more than the size asked for. *)
Definition no_room (m : vl_memory) (size : Z) : Prop :=
  SIZE_MAX < active_bytes (mem_stats m) + size \/ active_objects (mem_stats m) = SIZE_MAX \/
  exists bytes, size < bytes <= size + 2 ^ 21 /\ refuses m bytes.

Lemma rep_placed m live u r : mem_rep m live -> live !! u = Some r -> placed m u r.
Proof.
  intros [_ [g Hinv]] Hu. pose proof Hu as (hd & Hblk & Hr)%(li_live _ _ _ (iv_live _ _ _ Hinv)).
  pose proof (li_req _ _ _ (iv_live _ _ _ Hinv) u hd Hblk).
  destruct (block_range m live g u hd Hinv Hblk) as (b & k & Hbk & ? & ? & Hal & _).
  exists hd. split_and!; [apply Hblk|done|lia| |done]. exists b, k. split; [done|]. unfold HEADER in *. lia.
Qed.

Lemma rep_apart m live u v : mem_rep m live -> u ∈ dom live -> v ∈ dom live -> u <> v -> apart m u v.
Proof.
  intros [_ [g Hinv]] Hu Hv Hne hd hd' Hhd Hhd'.
  destruct (live_block _ _ _ _ Hinv Hu) as (x & Hx), (live_block _ _ _ _ Hinv Hv) as (y & Hy).
  pose proof Hx as [Ex _]. pose proof Hy as [Ey _]. assert (x = hd) as -> by congruence. assert (y = hd') as -> by congruence.
  eapply cells_apart; [done|by eapply block_cell..|done].
Qed.

(** ** Allocation *)

Lemma rep_malloc_small m live me c size : mem_rep m live -> 0 <= me -> 0 <= c < VL_SIZE_CLASS_COUNT ->
  0 < size <= vl_size_class_capacity c ->
  active_objects (mem_stats m) < SIZE_MAX -> active_bytes (mem_stats m) + size <= SIZE_MAX ->
  exists u m', vl_malloc_small me c size m = Some (u, m') /\ keeps live m m' /\
    ((u = NULL /\ mem_rep m' live /\ exists bytes, size < bytes <= 2 ^ 21 /\ refuses m bytes) \/
     (u <> NULL /\ live !! u = None /\ mem_rep m' (<[u := size]> live))).
Proof.
  intros [Hcb [g Hinv]] Hme Hc Hsize Hobj Hby. set (p := vl_memory_current_p me).
  assert (Hpc : in_arrays p c) by (split; [by apply current_p_range|done]).
  unfold vl_malloc_small. fold p. rewrite (bind_Some _ _ _ _ _ (cache_at_run false p c m Hpc)).
  rewrite (bind_Some _ _ _ _ _ (cache_at_run true p c m Hpc)).
  set (m1 := if negb (ca_head (cache_of m false p c) =? NULL) || negb (ca_head (cache_of m true p c) =? NULL)
    then upd_stats (fun st => set_cache_hits (w64 (cache_hits st + 1)) st) m else m).
  rewrite (bind_Some _ _ _ tt m1) by (unfold m1; by destruct (_ || _)).
  assert (Hsame : same_store m m1) by (unfold m1; destruct (_ || _); by split).
  assert (Hk1 : keeps live m m1) by (eapply keeps_same; [done|apply Hsame|unfold m1; by destruct (_ || _)]).
  assert (Hrefm : forall bytes, refuses m1 bytes -> refuses m bytes).
  { intros bytes. unfold m1, refuses. by destruct (_ || _). }
  clearbody m1. pose proof (alloc_inv_same _ _ _ _ Hsame Hinv) as Hi1.
  assert (Hca1 : forall r p' c', cache_of m1 r p' c' = cache_of m r p' c').
  { intros. unfold cache_of. by rewrite (sm_caches _ _ Hsame), (sm_remote _ _ Hsame). }
  unfold vl_cache_pop. fold p. rewrite bind_run, (bind_Some _ _ _ _ _ (cache_at_run false p c m1 Hpc)).
  assert (Hrefill : exists st m2 g2,
    (if ca_head (cache_of m1 false p c) =? NULL then vl_refill_cache me c else mret VL_OK) m1 = Some (st, m2) /\
    inv m2 live g2 /\ keeps live m1 m2 /\ same_live_stats m1 m2 /\ caches_bounded m2 /\
    (st = VL_OK -> ca_head (cache_of m2 false p c) <> NULL) /\
    (st <> VL_OK -> exists bytes, vl_size_class_capacity c < bytes <= 2 ^ 21 /\ refuses m1 bytes)).
  { assert (Hcb1 : caches_bounded m1) by (intros p' c' Hp; rewrite Hca1; by apply Hcb).
    destruct (Z.eqb_spec (ca_head (cache_of m1 false p c)) NULL) as [E|E].
    - destruct (vl_refill_cache_spec m1 live g me c Hi1 Hme Hc) as (st & m2 & g2 & Hr & [R1 R2 R3 R4] & Hok & Herr).
      exists st, m2, g2. split_and!; try done. intros p' c' Hp. destruct (R4 p' c' Hp) as (k & Hk & ->).
      fold p. case_decide as E'; [|rewrite Z.add_0_r; by apply Hcb1].
      assert (p' = p) as -> by congruence. assert (c' = c) as -> by congruence.
      rewrite (iv_counts _ _ _ Hi1 false p c Hpc).
      destruct (lo_chain _ _ _ _ (iv_lists _ _ _ Hi1) (PCache false p c) Hpc) as (h & [= <-] & Hch).
      apply (chain_nil _ _ _ Hch) in E. rewrite E. cbn. unfold VL_CACHE_REFILL, VL_CACHE_MAX in *. lia.
    - exists VL_OK, m1, g. split_and!; try done. by eapply keeps_refl. }
  destruct Hrefill as (st & m2 & g2 & Hr2 & Hi2 & Hk2 & Hl2 & Hcb2 & Hok & Herr).
  rewrite (bind_Some _ _ _ _ _ Hr2).
  assert (Hk12 : keeps live m m2) by (by eapply keeps_trans).
  destruct (decide (st <> VL_OK)) as [Hst|Hst].
  { rewrite ret_run. unfold malloc_finish. destruct (Z.eqb_spec NULL NULL); [|done].
    exists NULL, m2. split; [done|]. split; [done|]. left. split; [done|]. split; [split; [done|by exists g2]|].
    destruct (Herr Hst) as (bytes & ? & ?). exists bytes. split; [lia|by apply Hrefm]. }
  assert (st = VL_OK) as -> by (by destruct (decide (st = VL_OK))).
  destruct Hl2 as [Lo Lb]. rewrite (sm_objects _ _ Hsame) in Lo. rewrite (sm_bytes _ _ Hsame) in Lb.
  destruct (alloc_from_cache m2 live g2 me p c size Hi2 Hpc (Hok eq_refl) Hsize ltac:(lia) ltac:(lia))
    as (u & m3 & g3 & Hr3 & Hu0 & Hu & Hi3 & Hk3 & Hc3 & _).
  rewrite bind_run in Hr3. destruct (cache_take p c m2) as [[u0 m2']|]; [|done]. rewrite Hr3.
  exists u, m3. split; [done|]. split; [by eapply keeps_trans|]. right. split; [done|].
  split; [by apply not_elem_of_dom|]. split; [|by exists g3]. intros p' c' Hp. etransitivity; [apply Hc3|by apply Hcb2].
Qed.

Lemma size_class_first size : 0 < size -> exists i, vl_size_class_index size = Some i /\ 0 <= i <= VL_SIZE_CLASS_COUNT /\
  (i < VL_SIZE_CLASS_COUNT -> size <= vl_size_class_capacity i).
Proof.
  intros Hs. destruct (vl_size_class_index_spec size) as (i & Hi & Hb & _ & Hhi). exists i. split; [done|]. split; [done|].
  intros Hlt. unfold vl_size_class_capacity. destruct (Z.ltb_spec i VL_SIZE_CLASS_COUNT); [|lia].
  unfold VL_SIZE_CLASS_COUNT in *. destruct (lookup_lt_is_Some_2 vl_size_classes (Z.to_nat i)) as [cap Hcap].
  { rewrite vl_size_classes_length. lia. }
  rewrite Hcap. cbn. apply (Hhi (Z.to_nat i)); [lia|done].
Qed.

(** [vl_malloc] on a well-formed state; the theorems below specialise it. *)
Lemma rep_malloc m live me size : mem_rep m live -> 0 <= me -> word size ->
  let need := Z.max 1 size in
  exists u m', vl_malloc me size m = Some (u, m') /\ keeps live m m' /\
    ((u = NULL /\ mem_rep m' live /\ no_room m need) \/
     (u <> NULL /\ live !! u = None /\ mem_rep m' (<[u := need]> live))).
Proof.
  intros Hrep Hme Hword need. pose proof Hrep as [Hcb [g Hinv]]. pose proof (live_bytes_nonneg _ _ _ Hinv).
  assert (Hneed : (if size =? 0 then 1 else size) = need).
  { subst need. destruct (Z.eqb_spec size 0); unfold word in *; lia. }
  unfold vl_malloc. rewrite Hneed. rewrite bind_run. unfold vl_memory_ensure_initialized, vl_memory_is_owner.
  rewrite (ho_init _ (iv_heap _ _ _ Hinv)). rewrite decide_False by auto.
  rewrite bind_run. unfold gets, vl_stats_can_allocate.
  assert (Hnull : no_room m need -> exists u m', Some (NULL, m) = Some (u, m') /\ keeps live m m' /\
    ((u = NULL /\ mem_rep m' live /\ no_room m need) \/ (u <> NULL /\ live !! u = None /\ mem_rep m' (<[u := need]> live)))).
  { intros Hno. exists NULL, m. split; [done|]. split; [by eapply keeps_refl|]. by left. }
  assert (1 <= need) by (subst need; lia).
  destruct (Z.leb_spec (active_bytes (mem_stats m)) (SIZE_MAX - need)) as [Hb|Hb]; cbn [andb negb].
  2: { apply Hnull. left. lia. }
  destruct (Z.eqb_spec (active_objects (mem_stats m)) SIZE_MAX) as [Ho|Ho]; cbn [negb].
  { apply Hnull. right. by left. }
  pose proof (li_word _ _ _ (iv_live _ _ _ Hinv)) as [Hw1 Hw2].
  destruct (size_class_first need ltac:(lia)) as (i & Hi & Hir & Hcap). rewrite bind_run. unfold deref. rewrite Hi.
  destruct (Z.leb_spec VL_SIZE_CLASS_COUNT i) as [Hbig|Hsmall].
  - destruct (vl_malloc_large_spec m live g me need Hinv Hme ltac:(lia) ltac:(lia) ltac:(lia))
      as (u & m' & Hr & [(-> & Hm & Href)|(Hu & Hlu & g' & Hi' & Hk & Hca)]).
    + exists NULL, m'. split; [done|]. assert (Hs : same_store m m') by (destruct Hm as [-> | ->]; by split).
      split; [eapply keeps_same; [done|apply Hs|by destruct Hm as [-> | ->]]|]. left. split; [done|].
      split; [|right; by right]. split; [|exists g; by eapply alloc_inv_same].
      intros p c Hp. unfold cache_of. rewrite (sm_caches _ _ Hs). by apply (Hcb p c).
    + exists u, m'. split; [done|]. split; [done|]. right. split; [done|]. split; [done|]. split; [|by exists g'].
      intros p c Hp. rewrite Hca. by apply Hcb.
  - destruct (rep_malloc_small m live me i need Hrep Hme ltac:(lia) ltac:(lia) ltac:(lia) ltac:(lia))
      as (u & m' & Hr & Hk & Hcase).
    exists u, m'. split; [done|]. split; [done|]. destruct Hcase as [(? & ? & bytes & ? & ?)|?]; [left|by right].
    split; [done|]. split; [done|]. right. right. exists bytes. split; [lia|done].
Qed.

Lemma rep_free m live me u r : mem_rep m live -> 0 <= me -> live !! u = Some r ->
  exists m', vl_free me u m = Some (tt, m') /\ mem_rep m' (delete u live) /\ keeps (delete u live) m m'.
Proof.
  intros [Hcb [g Hinv]] Hme Hlive. destruct (vl_free_live m live g me u r Hinv Hlive) as (hd & Hblk & _ & ->).
  pose proof Hblk as [_ [Hl|(s & sp & Hin & _)]].
  - destruct (free_large_spec m live g me u hd r Hinv Hl Hblk Hlive) as (m' & g' & Hr & Hi & Hk & Hca).
    exists m'. split; [done|]. split; [|done]. split; [|by exists g']. intros p c Hp. rewrite Hca. by apply Hcb.
  - destruct (free_small_spec m live g me u s sp hd r Hinv Hcb Hme Hin Hblk Hlive) as (m' & g' & Hr & Hi & Hk & Hcb').
    exists m'. split; [done|]. split; [|done]. split; [done|by exists g'].
Qed.

(** ** Contents *)

Lemma mem_set_lookup (l : list Z) (b : gmap Z Z) (a : Z) :
  foldr (fun a b => <[a := 0]> b) b l !! a = if decide (a ∈ l) then Some 0 else b !! a.
Proof.
  induction l as [|x l IH]; cbn [foldr]; [done|]. rewrite lookup_insert. destruct (decide (x = a)) as [E|E].
  - subst. rewrite decide_True; [done|]. apply elem_of_cons. by left.
  - rewrite IH. destruct (decide (a ∈ l)) as [Hin|Hn]; [by rewrite decide_True by (apply elem_of_cons; by right)|].
    rewrite decide_False; [done|]. rewrite elem_of_cons. naive_solver.
Qed.

Lemma elem_of_byte_range base n a : a ∈ byte_range base n <-> base <= a < base + n.
Proof.
  unfold byte_range. rewrite list_elem_of_fmap. setoid_rewrite elem_of_seqZ. split.
  - intros (i & -> & Hi). lia.
  - intros Ha. exists (a - base). lia.
Qed.

Lemma mem_cpy_lookup (old b : gmap Z Z) src dst n a :
  foldr (fun i b => partial_alter (fun _ => old !! (src + i)) (dst + i) b) b (seqZ 0 n) !! a =
  if decide (dst <= a < dst + n) then old !! (src + (a - dst)) else b !! a.
Proof.
  assert (Hgen : forall l, foldr (fun i b => partial_alter (fun _ => old !! (src + i)) (dst + i) b) b l !! a =
    if decide (a - dst ∈ l) then old !! (src + (a - dst)) else b !! a).
  { induction l as [|x l IH]; cbn [foldr]; [done|]. destruct (decide (dst + x = a)) as [<-|Hne].
    - rewrite lookup_partial_alter_eq. rewrite decide_True; [by replace (dst + x - dst) with x by lia|].
      replace (dst + x - dst) with x by lia. left.
    - rewrite lookup_partial_alter_ne by done. rewrite IH. destruct (decide (a - dst ∈ l)) as [Hin|Hn].
      + by rewrite decide_True by (by right).
      + rewrite decide_False; [done|]. intros [?|?]%elem_of_cons; [lia|done]. }
  rewrite Hgen. destruct (decide (dst <= a < dst + n)) as [Ha|Ha].
  - rewrite decide_True; [done|]. apply elem_of_seqZ. lia.
  - rewrite decide_False; [done|]. rewrite elem_of_seqZ. lia.
Qed.

(** Writing the bytes of one live block. *)
Lemma rep_write m live u r n b : mem_rep m live -> live !! u = Some r -> n <= r ->
  (forall a, ~ (u <= a < u + n) -> b !! a = m_bytes m !! a) ->
  mem_rep (set_m_bytes b m) live /\ keeps (delete u live) m (set_m_bytes b m).
Proof.
  intros Hrep Hu Hn Hb. pose proof Hrep as [Hcb [g Hinv]].
  assert (Hs : same_store m (set_m_bytes b m)) by (by split).
  split; [split; [exact Hcb|exists g; by eapply alloc_inv_same]|].
  intros v Hv. rewrite dom_delete in Hv. apply elem_of_difference in Hv as [Hv Hne]. rewrite elem_of_singleton in Hne.
  destruct (live_block _ _ _ _ Hinv Hv) as (hd & [Hhd _]). exists hd, hd. split_and!; try done.
  intros a Ha. cbn. apply Hb. intros Hua.
  destruct (rep_placed m live u r Hrep Hu) as (hdu & Hhdu & _ & Hru & _).
  assert (u ∈ dom live) as Hud by (apply elem_of_dom; eauto).
  pose proof (rep_apart m live u v Hrep Hud Hv ltac:(done) hdu hd Hhdu Hhd). unfold disjoint_range, HEADER in *. lia.
Qed.

(** ** Changing the requested size in place *)

Section resize.
Context (m : vl_memory) (live : gmap Z Z) (g : ghost) (u size : Z) (hd : vl_object_header) (st : vl_allocator_stats).
Context (Hinv : inv m live g) (Hblk : block m g u hd) (Hsize : 0 < size <= oh_capacity hd).
Context (Hst : mapped_bytes st = mapped_bytes (mem_stats m) /\ active_objects st = active_objects (mem_stats m) /\
  active_bytes st = active_bytes (mem_stats m) - oh_requested_size hd + size /\ active_bytes st <= SIZE_MAX).

Let hd' := set_oh_requested_size size hd.
Let m' := set_mem_stats st (set_m_headers (<[u - HEADER := hd']> (m_headers m)) m).

Lemma resize_header a x : m_headers m !! a = Some x ->
  exists x', m_headers m' !! a = Some x' /\ x' = set_oh_requested_size (oh_requested_size x') x.
Proof.
  intros Ha. cbn. rewrite lookup_insert. case_decide as E; [|exists x; split; [done|by destruct x]].
  subst a. destruct Hblk as [Hhd _]. assert (x = hd) as -> by congruence. eauto.
Qed.

Lemma resize_block v x' : block m' g v x' <-> (v <> u /\ block m g v x') \/ (v = u /\ x' = hd').
Proof.
  destruct Hblk as [Hhd Hc]. unfold block. cbn. destruct (decide (v = u)) as [->|Hne].
  - rewrite lookup_insert_eq. split; [intros [[= <-] _]; auto|]. intros [[? _]|[_ ->]]; done.
  - rewrite lookup_insert_ne by lia. naive_solver.
Qed.

Lemma resize_inv : inv m' (<[u := size]> live) g.
Proof.
  destruct Hst as (St1 & St2 & St3 & St4). destruct Hinv as [[A1 A2 A3 A4 A5 A6 A7 A8 A9] Hso Hlo Hc Ho Hla Hli] eqn:E. clear E.
  destruct Hblk as [Hhd Hcase] eqn:E. clear E.
  assert (Hlive : live !! u = Some (oh_requested_size hd)) by (apply (li_live _ _ _ Hli); eauto).
  split.
  - split; try done; [cbn; by rewrite St1|]. intros a x. cbn. rewrite lookup_insert.
    case_decide as E; [intros _; subst a; by apply (A7 (u - HEADER) hd)|by apply A7].
  - destruct Hso as [S1 S2 S3 S4 S5]. split; try done. intros s sp Hs Hsp. destruct (S5 s sp Hs Hsp). by split.
  - destruct Hlo. by split.
  - exact Hc.
  - destruct Ho as [O1 O2 O3 O4]. split; try done. intros v s sp Hv. destruct (O2 v s sp Hv) as (x & Hx & []).
    destruct (resize_header _ _ Hx) as (x' & Hx' & Ex). exists x'. split; [done|]. split; by rewrite Ex.
  - destruct Hla as [L1 L2 L3 L4]. split; try done.
    + apply (list_chain_frame _ _ _ _ L1). intros v Hv. unfold large_next_of. cbn. rewrite lookup_insert.
      case_decide as E; [subst v; by rewrite Hhd|done].
    + intros h x Hh. cbn. rewrite lookup_insert. case_decide as E.
      * intros [= <-]. subst h. destruct (L3 _ _ Hh Hhd). by split.
      * intros Hx. destruct (L3 _ _ Hh Hx). by split.
  - destruct Hli as [I1 I2 I3 I4 I5]. split.
    + intros v r. rewrite lookup_insert. setoid_rewrite resize_block. case_decide as E.
      * subst v. split; [intros [= <-]; exists hd'; auto|]. intros (x & [[? _]|[_ ->]] & <-); done.
      * rewrite I1. split; [intros (x & ? & ?); exists x; auto|]. intros (x & [[_ ?]|[? _]] & ?); [eauto|congruence].
    + intros v x [[_ Hb]|[-> ->]]%resize_block; [by apply (I2 v)|done].
    + cbn. rewrite map_size_insert_Some by eauto. by rewrite St2.
    + cbn. rewrite <- insert_delete_eq. rewrite live_total_insert by apply lookup_delete_eq.
      rewrite St3, I4, (live_total_delete _ _ _ Hlive). lia.
    + cbn. rewrite St2. split; [apply I5|done].
Qed.
End resize.
End props.

Section spec.
#[local] Set Default Proof Using "Type*".
Context `{os_memory_laws}.

Lemma rep_calloc m live me count size : mem_rep m live -> 0 <= me -> word count -> word size ->
  exists u m', vl_calloc me count size m = Some (u, m') /\ keeps live m m' /\
    ((u = NULL /\ mem_rep m' live /\ (SIZE_MAX < count * size \/ no_room m (Z.max 1 (count * size)))) \/
     (u <> NULL /\ live !! u = None /\ mem_rep m' (<[u := Z.max 1 (count * size)]> live) /\
      forall i, 0 <= i < count * size -> m_bytes m' !! (u + i) = Some 0)).
Proof.
  intros Hrep Hme Hc Hs. unfold vl_calloc.
  destruct (negb (count =? 0) && (SIZE_MAX / count <? size)) eqn:E.
  { rewrite andb_true_iff, negb_true_iff, Z.eqb_neq, Z.ltb_lt in E. destruct E as [E1 E2].
    exists NULL, m. split; [done|]. destruct Hrep as [Hcb [g Hinv]]. split; [by eapply keeps_refl|]. left. split; [done|].
    split; [split; [done|by exists g]|]. left. unfold word in *.
    pose proof (Z.div_mod SIZE_MAX count ltac:(lia)). pose proof (Z.mod_pos_bound SIZE_MAX count ltac:(lia)). nia. }
  assert (Hfit : 0 <= count * size <= SIZE_MAX).
  { unfold word in *. destruct (Z.eqb_spec count 0) as [->|E1]; [word_lia|]. cbn [negb andb] in E. apply Z.ltb_ge in E.
    pose proof (Z.div_mod SIZE_MAX count ltac:(lia)). pose proof (Z.mod_pos_bound SIZE_MAX count ltac:(lia)). nia. }
  rewrite w64_small by word_lia.
  destruct (rep_malloc m live me (count * size) Hrep Hme ltac:(word_lia)) as (u & m1 & Hr & Hk & Hcase).
  rewrite (bind_Some _ _ _ _ _ Hr). destruct Hcase as [(-> & Hrep1 & Hno)|(Hu & Hlu & Hrep1)].
  { destruct (Z.eqb_spec NULL NULL); [|done]. exists NULL, m1. split; [done|]. split; [done|]. left. auto. }
  destruct (Z.eqb_spec u NULL); [done|]. cbn [negb].
  destruct (rep_placed m1 _ u _ Hrep1 (lookup_insert_eq _ _ _)) as (hd & Hhd & Hreq & Hcap & Hmap & _).
  assert (Hmap' : mapped m1 u (count * size)) by (eapply mapped_sub; [done|lia|lia]).
  unfold mem_set. rewrite bind_run, decide_True by done. rewrite ret_run. set (b := foldr _ _ _).
  destruct (rep_write m1 _ u _ (count * size) b Hrep1 (lookup_insert_eq _ _ _)) as [Hrep2 Hk2]; [lia| |].
  { intros a Ha. unfold b. rewrite mem_set_lookup, decide_False; [done|]. by rewrite elem_of_byte_range. }
  exists u, (set_m_bytes b m1). split; [done|]. split.
  { eapply keeps_trans; [done|]. eapply keeps_mono; [|exact Hk2]. rewrite delete_insert_id by done. done. }
  right. split_and!; try done. intros i Hi. cbn. unfold b. rewrite mem_set_lookup, decide_True; [done|].
  apply elem_of_byte_range. lia.
Qed.

Lemma rep_realloc m live me u r size : mem_rep m live -> 0 <= me -> 0 < size -> word size -> live !! u = Some r ->
  exists v m', vl_realloc me u size m = Some (v, m') /\ keeps (delete u live) m m' /\
    ((v = NULL /\ mem_rep m' live /\ keeps live m m' /\
        (SIZE_MAX < active_bytes (mem_stats m) - r + size \/ no_room m size)) \/
     (v <> NULL /\ mem_rep m' (<[v := size]> (delete u live)) /\
      forall i, 0 <= i < Z.min r size -> m_bytes m' !! (v + i) = m_bytes m !! (u + i))).
Proof.
  intros Hrep Hme Hs Hw Hu. pose proof Hrep as [Hcb [g Hinv]].
  pose proof Hu as (hd & Hblk & Hreq)%(li_live _ _ _ (iv_live _ _ _ Hinv)).
  pose proof (li_req _ _ _ (iv_live _ _ _ Hinv) u hd Hblk) as Hrq.
  pose proof (live_stats _ _ _ _ _ Hinv Hu) as [Ho Hb]. pose proof (li_word _ _ _ (iv_live _ _ _ Hinv)) as [Hw1 Hw2].
  destruct (block_range m live g u hd Hinv Hblk) as (b & k & Hbk & Hlo & Hhi & _ & Hmag & Hst).
  pose proof (ho_maps m (iv_heap _ _ _ Hinv) _ _ Hbk).
  assert (Hu0 : u <> NULL) by (unfold NULL, HEADER in *; lia).
  assert (Hkr : keeps live m m) by (by eapply keeps_refl).
  assert (Hsub : dom (delete u live) ⊆ dom live) by (rewrite dom_delete; set_solver).
  unfold vl_realloc. destruct (Z.eqb_spec u NULL); [done|]. destruct (Z.eqb_spec size 0); [lia|].
  rewrite bind_run. unfold gets at 1, vl_memory_is_owner. rewrite (ho_init _ (iv_heap _ _ _ Hinv)). cbn [negb].
  unfold vl_object_header_from_user. rewrite (bind_Some _ _ _ _ _ (load_header_run _ _ _ (proj1 Hblk))).
  rewrite Hmag, Hst, !Z.eqb_refl. cbn [negb orb].
  destruct (Z.leb_spec size (oh_capacity hd)) as [Hfit|Hbig].
  - unfold realloc_in_place. rewrite bind_run. unfold gets at 1. rewrite Hreq.
    destruct (Z.ltb_spec (active_bytes (mem_stats m)) r); [lia|]. rewrite w64_small by word_lia.
    destruct (Z.ltb_spec (SIZE_MAX - size) (active_bytes (mem_stats m) - r)) as [Hov|Hok].
    + exists NULL, m. split; [done|]. split; [by eapply keeps_mono|]. left. split_and!; try done. left. lia.
    + rewrite (bind_Some _ _ _ _ _ (store_header_run _ _ m (ho_headers _ (iv_heap _ _ _ Hinv) _ _ (proj1 Hblk)))).
      rewrite bind_run. unfold modify. rewrite ret_run. rewrite w64_small by word_lia.
      set (st := set_active_bytes (active_bytes (mem_stats m) - r + size) (mem_stats m)).
      pose proof (resize_inv m live g u size hd st Hinv Hblk ltac:(lia) ltac:(cbn; rewrite Hreq; split_and!; lia)) as Hi.
      set (m' := upd_stats _ _). change m' with (set_mem_stats st (set_m_headers (<[u - HEADER := set_oh_requested_size size hd]> (m_headers m)) m)).
      exists u. eexists. split; [reflexivity|]. split.
      { intros v Hv. rewrite dom_delete in Hv. apply elem_of_difference in Hv as [Hv Hne]. rewrite elem_of_singleton in Hne.
        destruct (live_block _ _ _ _ Hinv Hv) as (x & [Hx _]). exists x, x. split_and!; try done.
        cbn. rewrite lookup_insert_ne by lia. done. }
      right. split; [done|]. split; [|by intros i Hi']. rewrite insert_delete_eq. split; [exact Hcb|by exists g].
  - set (copy := if oh_requested_size hd <? size then oh_requested_size hd else size).
    assert (Hcopy : copy = Z.min r size) by (unfold copy; rewrite Hreq; destruct (Z.ltb_spec r size); lia).
    clearbody copy. subst copy.
    destruct (rep_malloc m live me size Hrep Hme Hw) as (v & m1 & Hr & Hk & Hcase). rewrite Z.max_r in Hcase by lia.
    rewrite (bind_Some _ _ _ _ _ Hr). destruct Hcase as [(-> & Hrep1 & Hno)|(Hv0 & Hlv & Hrep1)].
    { destruct (Z.eqb_spec NULL NULL); [|done]. exists NULL, m1. split; [done|]. split; [by eapply keeps_mono|]. left. auto. }
    destruct (Z.eqb_spec v NULL); [done|].
    assert (Hvu : v <> u) by congruence.
    assert (Hu1 : <[v := size]> live !! u = Some r) by (by rewrite lookup_insert_ne).
    destruct (rep_placed m1 _ v _ Hrep1 (lookup_insert_eq _ _ _)) as (hdv & _ & Hreqv & Hcapv & Hmapv & _).
    destruct (rep_placed m1 _ u _ Hrep1 Hu1) as (hdu & Hhdu & Hrequ & Hcapu & Hmapu & _).
    unfold mem_cpy. rewrite bind_run, decide_True
      by (split; [apply (mapped_sub _ _ _ _ _ Hmapv); lia|apply (mapped_sub _ _ _ _ _ Hmapu); lia]).
    set (bs := foldr _ _ _). set (m2 := set_m_bytes bs m1).
    destruct (rep_write m1 _ v _ (Z.min r size) bs Hrep1 (lookup_insert_eq _ _ _)) as [Hrep2 Hk2]; [lia| |].
    { intros a Ha. unfold bs. by rewrite mem_cpy_lookup, decide_False. }
    fold m2 in Hrep2, Hk2. rewrite delete_insert_id in Hk2 by done.
    destruct (rep_free m2 _ me u r Hrep2 Hme Hu1) as (m3 & Hr3 & Hrep3 & Hk3).
    rewrite (bind_Some _ _ _ _ _ Hr3), ret_run. rewrite delete_insert_ne in Hrep3, Hk3 by congruence.
    exists v, m3. split; [done|]. split.
    { eapply keeps_trans; [by eapply keeps_mono|]. eapply keeps_trans; [by eapply keeps_mono|].
      eapply keeps_mono; [|exact Hk3]. rewrite dom_insert. set_solver. }
    right. split; [done|]. split; [done|]. intros i Hi.
    destruct (Hk3 v ltac:(rewrite dom_insert; set_solver)) as (x & _ & Hx & _ & _ & _ & Hby).
    assert (Hxc : size <= oh_capacity x).
    { destruct (rep_placed m2 _ v _ Hrep2 (lookup_insert_eq _ _ _)) as (y & Hy & _ & Hcy & _). assert (y = x) as -> by congruence. done. }
    rewrite Hby by lia. unfold m2. cbn. unfold bs. rewrite mem_cpy_lookup, decide_True by lia.
    replace (u + (v + i - v)) with (u + i) by lia.
    destruct (Hk u) as (y & _ & Hy & _ & _ & _ & Hbyu); [apply elem_of_dom; eauto|].
    assert (y = hd) as -> by (destruct Hblk; congruence). apply Hbyu. lia.
Qed.
End spec.
