(* ===== verification/VallocRun.v ===== *)
(** * Clients of the allocator

    The states a client can reach from start-up by calling the allocator, freeing only
    blocks it holds and writing only inside them, with the theorems that hold in all
    of them. *)

From S2P Require Import Prelude SizeClass PageHeap Span Valloc VallocLists VallocInv VallocMove VallocSteps VallocRefill VallocReclaim VallocFree VallocLarge VallocProps.
From stdpp Require Import options.

Open Scope Z_scope.

(** The zero-initialised global of a process that has mapped nothing yet. *)
Definition memory_boot : vl_memory :=
  mk_memory false 0 (mk_allocator_stats 0 0 0 0 0 0 0) ∅ ∅ ∅ NULL NULL ∅ 0 ∅ ∅ ∅ ∅ ∅.

(** One call of a client on thread [me]; [AWrite] is the client's own store to [n]
    bytes of a block it holds. *)
Inductive alloc_op :=
  | AMalloc (me size : Z)
  | AFree (me u : Z)
  | ACalloc (me count size : Z)
  | ARealloc (me u size : Z)
  | AWrite (u off value : Z)
  | AStats (index : Z).

(** What the client may ask for when it holds the blocks [live]. *)
Definition allowed (live : gmap Z Z) (op : alloc_op) : Prop :=
  match op with
  | AMalloc me size => 0 <= me /\ word size
  | AFree me u => 0 <= me /\ u ∈ dom live
  | ACalloc me count size => 0 <= me /\ word count /\ word size
  | ARealloc me u size => 0 <= me /\ word size /\ 0 < size /\ u ∈ dom live
  | AWrite u off value => exists r, live !! u = Some r /\ 0 <= off < r
  | AStats index => 0 <= index
  end.

Section run.
Context `{os_memory}.

(** The state after the call and the blocks the client then holds. *)
Definition alloc_exec (op : alloc_op) (m : vl_memory) (live : gmap Z Z) : option (vl_memory * gmap Z Z) :=
  match op with
  | AMalloc me size =>
      r ← vl_malloc me size m;
      Some (r.2, if r.1 =? NULL then live else <[r.1 := Z.max 1 size]> live)
  | AFree me u => r ← vl_free me u m; Some (r.2, delete u live)
  | ACalloc me count size =>
      r ← vl_calloc me count size m;
      Some (r.2, if r.1 =? NULL then live else <[r.1 := Z.max 1 (count * size)]> live)
  | ARealloc me u size =>
      r ← vl_realloc me u size m;
      Some (r.2, if r.1 =? NULL then live else <[r.1 := size]> (delete u live))
  | AWrite u off value => Some (set_m_bytes (<[u + off := value]> (m_bytes m)) m, live)
  | AStats index => r ← vl_memory_get_class_stats index m; Some (r.2, live)
  end.

Inductive alloc_reach : vl_memory -> gmap Z Z -> Prop :=
  | reach_init m : vl_allocator_init memory_boot = Some (VL_OK, m) -> alloc_reach m ∅
  | reach_op m live op m' live' : alloc_reach m live -> allowed live op ->
      alloc_exec op m live = Some (m', live') -> alloc_reach m' live'.

#[local] Set Default Proof Using "Type*".
Context `{!os_memory_laws}.

Definition empty_ghost : ghost := mk_ghost (fun _ => []) (fun _ => None) [] (fun _ => []) [].

Lemma allocator_init_rep : exists m, vl_allocator_init memory_boot = Some (VL_OK, m) /\ mem_rep m ∅.
Proof.
  destruct pagesize_law as (k & Hk & Hps). pose proof page_bounds as [Hpb _].
  unfold vl_allocator_init. cbn [initialized memory_boot].
  destruct (Z.leb_spec sysconf_pagesize 0); [lia|]. cbn [orb].
  rewrite !w64_small by word_lia.
  assert (Hland : Z.land sysconf_pagesize (sysconf_pagesize - 1) = 0).
  { rewrite Hps, land_pow2_minus_1 by lia. apply Z.mod_same. rewrite Hps in Hpb. lia. }
  rewrite Hland, Z.eqb_refl. cbn [negb]. eexists. split; [done|]. split.
  { intros p c _. unfold cache_of, VL_CACHE_MAX. cbn [set_page_size set_initialized clear_globals caches].
    rewrite lookup_empty. cbn. lia. }
  exists empty_ghost. split.
  - split; try done; try (intros; cbn in *; by rewrite ?lookup_empty in *).
  - split; try done; [apply NoDup_nil_2|intros c _; cbn; split; [by rewrite lookup_empty|apply NoDup_nil_2]|].
    intros c s. cbn. split; [by intros ?%not_elem_of_nil|]. intros [?%not_elem_of_nil _]. done.
  - split; try done; [|intros; apply NoDup_nil_2|].
    + intros [s|r p c] Hv; [by apply not_elem_of_nil in Hv|]. exists NULL. split; [|done].
      unfold place_head, cache_of. destruct r; cbn; by rewrite lookup_empty.
    + intros pl u. cbn. split; [by intros ?%not_elem_of_nil|done].
  - intros r p c _. unfold cache_of. destruct r; cbn; by rewrite lookup_empty.
  - split; [intros s sp Hs; by apply not_elem_of_nil in Hs|intros u s sp (Hs & _); by apply not_elem_of_nil in Hs|
      intros u s sp (Hs & _); by apply not_elem_of_nil in Hs|done].
  - split; try done; [apply NoDup_nil_2|]. intros h Hh. by apply not_elem_of_nil in Hh.
  - assert (Hno : forall u hd, ~ block (set_page_size sysconf_pagesize (set_initialized true (clear_globals memory_boot))) empty_ghost u hd).
    { intros u hd [Hh _]. cbn in Hh. by rewrite lookup_empty in Hh. }
    split; try done; [|by intros u hd Hb%Hno].
    intros u r. rewrite lookup_empty. split; [done|]. intros (hd & Hb & _). by apply Hno in Hb.
Qed.


(** ** Per-class statistics *)

Definition stats_balanced (out : vl_memory_class_stats) : Prop :=
  object_count out = w64 (active_objects_in_class out + free_objects out).

Lemma w64_add_both a b : w64 (w64 a + w64 b) = w64 (a + b).
Proof. unfold w64. by rewrite <- Zplus_mod. Qed.

Lemma span_balanced m live g s sp : inv m live g -> s ∈ g_all g -> m_spans m !! s = Some sp ->
  sp_object_count sp = sp_active_count sp + sp_free_count sp /\
  sp_free_count sp = sp_central_free_count sp + sp_cached_count sp.
Proof.
  intros Hinv Hs Hsp. destruct (oo_counts _ _ (iv_objects _ _ _ Hinv) s sp Hs Hsp) as [C1 C2 C3 C4].
  pose proof (span_partition (g_loc g) (objs (page_size m) s sp)) as Hsum. rewrite <- C1, <- C2, <- C3 in Hsum.
  unfold objs in Hsum. rewrite length_fmap, length_seqZ in Hsum.
  pose proof (ss_count _ _ _ (so_static _ _ (iv_spans _ _ _ Hinv) s sp Hs Hsp)). lia.
Qed.

Lemma class_stats_from_spec m live g c : inv m live g -> forall l fuel h out,
  chain (all_next_of m) h l -> (forall s, s ∈ l -> s ∈ g_all g) -> (length l < fuel)%nat -> stats_balanced out ->
  exists out', class_stats_from fuel c h out m = Some (out', m) /\ stats_balanced out'.
Proof.
  intros Hinv. induction l as [|s l IH]; intros [|fuel] h out Hch Hall Hf Hb; cbn [length] in Hf; try lia; cbn [class_stats_from].
  { cbn in Hch. subst h. exists out. by rewrite Z.eqb_refl. }
  destruct Hch as (-> & Hs0 & n & Hn & Hch). destruct (Z.eqb_spec s NULL); [done|].
  unfold all_next_of in Hn. destruct (m_spans m !! s) as [sp|] eqn:Hsp; [|done]. cbn in Hn. simplify_eq.
  rewrite (bind_Some _ _ _ _ _ (load_span_run s sp m Hsp)).
  destruct (span_balanced m live g s sp Hinv (Hall s ltac:(left)) Hsp) as [Hcnt _].
  apply IH; [done|intros v Hv; apply Hall; by right|lia|].
  destruct (sp_class_index sp =? c); [|done]. unfold stats_balanced in *. cbn.
  rewrite Hb, Hcnt, w64_add_l, w64_add_both. f_equal. lia.
Qed.

Lemma class_stats_spec m live index : mem_rep m live -> exists r, vl_memory_get_class_stats index m = Some (r, m) /\
  (index < VL_SIZE_CLASS_COUNT -> r.1 = VL_OK) /\ stats_balanced r.2.
Proof.
  intros [_ [g Hinv]]. unfold vl_memory_get_class_stats. destruct (Z.leb_spec VL_SIZE_CLASS_COUNT index) as [Hbig|Hin].
  { eexists. split; [done|]. split; [lia|done]. }
  rewrite bind_run. unfold vl_memory_ensure_initialized, vl_memory_is_owner. rewrite (ho_init _ (iv_heap _ _ _ Hinv)).
  rewrite decide_False by auto. unfold vl_span_class_stats. destruct (Z.leb_spec VL_SIZE_CLASS_COUNT index); [lia|].
  rewrite bind_run, bind_run. unfold gets at 1. rewrite bind_run. unfold gets.
  pose proof (iv_spans _ _ _ Hinv) as Hso.
  destruct (class_stats_from_spec m live g index Hinv (g_all g) (span_fuel m) (all_spans m) zero_class_stats) as (out & Hr & Hb);
    [apply Hso|done| |done|].
  { unfold span_fuel. apply Nat.lt_succ_r, NoDup_length_dom; [apply Hso|]. intros v Hv.
    destruct (chain_dom _ _ _ _ (so_all _ _ Hso) Hv) as [_ Hd]. by apply fmap_is_Some in Hd. }
  rewrite Hr. eexists. split; [done|]. done.
Qed.

(** ** Every call is defined and keeps the representation *)

Lemma alloc_exec_rep m live op : mem_rep m live -> allowed live op ->
  exists m' live', alloc_exec op m live = Some (m', live') /\ mem_rep m' live'.
Proof.
  intros Hrep Hop. destruct op as [me size|me u|me count size|me u size|u off value|index]; cbn in Hop |- *.
  - destruct Hop as [Hme Hw]. destruct (rep_malloc m live me size Hrep Hme Hw) as (u & m' & -> & _ & Hc). cbn.
    destruct Hc as [(-> & ? & _)|(Hu & _ & ?)]; [rewrite Z.eqb_refl; eauto|].
    destruct (Z.eqb_spec u NULL); [done|eauto].
  - destruct Hop as [Hme [r Hu]%elem_of_dom]. destruct (rep_free m live me u r Hrep Hme Hu) as (m' & -> & ? & _). cbn. eauto.
  - destruct Hop as (Hme & Hw & Hw'). destruct (rep_calloc m live me count size Hrep Hme Hw Hw') as (u & m' & -> & _ & Hc). cbn.
    destruct Hc as [(-> & ? & _)|(Hu & _ & ? & _)]; [rewrite Z.eqb_refl; eauto|].
    destruct (Z.eqb_spec u NULL); [done|eauto].
  - destruct Hop as (Hme & Hw & Hs & [r Hu]%elem_of_dom).
    destruct (rep_realloc m live me u r size Hrep Hme Hs Hw Hu) as (v & m' & -> & _ & Hc). cbn.
    destruct Hc as [(-> & ? & _)|(Hv & ? & _)]; [rewrite Z.eqb_refl; eauto|].
    destruct (Z.eqb_spec v NULL); [done|eauto].
  - destruct Hop as (r & Hu & Hoff). eexists _, live. split; [done|].
    apply (rep_write m live u r r); [done|done|lia|]. intros a Ha. rewrite lookup_insert_ne by lia. done.
  - destruct (class_stats_spec m live index Hrep) as (r & -> & _). cbn. eauto.
Qed.

Lemma reach_rep m live : alloc_reach m live -> mem_rep m live.
Proof.
  induction 1 as [m Hi|m live op m' live' _ IH Hop Hr].
  - destruct allocator_init_rep as (m0 & Hi0 & ?). by simplify_eq.
  - destruct (alloc_exec_rep m live op IH Hop) as (m1 & live1 & Hr1 & ?). by simplify_eq.
Qed.
End run.

(** ** The theorems *)

(** C5: in every state clients can reach, [vl_malloc] never touches memory that is not
    mapped and always returns.  It fails only when a statistics counter would
    overflow or the system refuses a mapping of about the requested size.  Otherwise
    it returns a block that was not in use, aligned to 16 bytes, whose capacity covers
    the request and lies in mapped memory, and which shares no byte with any block in
    use or with its header; no block in use changes size or contents. *)
Theorem malloc_fresh_block `{os_memory_laws} m live me size
    (Hreach : alloc_reach m live) (Hme : 0 <= me) (Hsize : word size) :
  exists u m', vl_malloc me size m = Some (u, m') /\
    (forall v, v ∈ dom live -> same_block m m' v) /\
    ((u = NULL /\ no_room m (Z.max 1 size)) \/
     (u <> NULL /\ u ∉ dom live /\ placed m' u (Z.max 1 size) /\
      forall v, v ∈ dom live -> apart m' u v)).
Proof.
  apply reach_rep in Hreach.
  destruct (rep_malloc m live me size Hreach Hme Hsize) as (u & m' & Hr & Hk & Hc).
  exists u, m'. split; [done|]. split; [exact Hk|].
  destruct Hc as [(-> & _ & ?)|(Hu & Hlu & Hrep)]; [by left|right]. apply not_elem_of_dom in Hlu.
  split; [done|]. split; [done|]. split; [apply (rep_placed m' _ u _ Hrep), lookup_insert_eq|].
  intros v Hv. apply (rep_apart m' _ u v Hrep); [rewrite dom_insert; set_solver..|]. by intros ->.
Qed.

Lemma rep_stats `{os_memory} m live : mem_rep m live ->
  active_objects (mem_stats m) = Z.of_nat (size live) /\ active_bytes (mem_stats m) = live_total live /\
  mapped_bytes (mem_stats m) = mapping_total (mappings m).
Proof. intros [_ [g [Hok _ _ _ _ _ Hli]]]. split_and!; [apply Hli|apply Hli|apply Hok]. Qed.

(** C11: in every reachable state [vl_free] of a block in use returns without touching
    unmapped memory and takes exactly that block out of use: the counters drop by one
    object and by its requested size, every other block keeps its size and contents,
    and the state is again one in which [vl_malloc] may hand the memory out (the
    other blocks are still placed and apart). *)
Theorem free_releases_block `{os_memory_laws} m live me u r
    (Hreach : alloc_reach m live) (Hme : 0 <= me) (Hu : live !! u = Some r) :
  exists m', vl_free me u m = Some (tt, m') /\ alloc_reach m' (delete u live) /\
    active_objects (mem_stats m') = active_objects (mem_stats m) - 1 /\
    active_bytes (mem_stats m') = active_bytes (mem_stats m) - r /\
    (forall v, v ∈ dom live -> v <> u -> same_block m m' v).
Proof.
  pose proof (reach_rep _ _ Hreach) as Hrep.
  destruct (rep_free m live me u r Hrep Hme Hu) as (m' & Hr & Hrep' & Hk). exists m'. split; [done|].
  split. { apply (reach_op m live (AFree me u)); [done|split; [done|by apply elem_of_dom]|]. cbn. by rewrite Hr. }
  destruct (rep_stats _ _ Hrep) as (S1 & S2 & _). destruct (rep_stats _ _ Hrep') as (S1' & S2' & _).
  assert (size live <> 0%nat) by (rewrite map_size_ne_0_lookup; eauto).
  split; [rewrite S1, S1', map_size_delete_Some by eauto; lia|].
  split; [rewrite S2, S2', (live_total_delete _ _ _ Hu); lia|].
  intros v Hv Hne. apply Hk. rewrite dom_delete. set_solver.
Qed.


(** C10: the accounting of the allocator in every reachable state, whatever the
    interleaving of calls on different P: the statistics count exactly the blocks in
    use, their requested bytes and the mapped bytes; no cache of a P holds more than
    64 objects of a class; in each class the objects of its spans are the active and
    the free ones; the blocks in use are pairwise apart; and every call a client may
    make next is defined. *)
Theorem allocator_accounting `{os_memory_laws} m live (Hreach : alloc_reach m live) :
  active_objects (mem_stats m) = Z.of_nat (size live) /\
  active_bytes (mem_stats m) = live_total live /\
  mapped_bytes (mem_stats m) = mapping_total (mappings m) /\
  (forall p c, in_arrays p c -> ca_count (cache_of m false p c) <= VL_CACHE_MAX) /\
  (forall c, 0 <= c < VL_SIZE_CLASS_COUNT -> exists out,
     vl_memory_get_class_stats c m = Some ((VL_OK, out), m) /\
     object_count out = w64 (active_objects_in_class out + free_objects out)) /\
  (forall u r, live !! u = Some r -> placed m u r) /\
  (forall u v, u ∈ dom live -> v ∈ dom live -> u <> v -> apart m u v) /\
  (forall op, allowed live op -> is_Some (alloc_exec op m live)).
Proof.
  apply reach_rep in Hreach. destruct (rep_stats _ _ Hreach) as (S1 & S2 & S3). split_and!; try done.
  - apply Hreach.
  - intros c Hc. destruct (class_stats_spec m live c Hreach) as ([st out] & Hr & Hok & Hb).
    exists out. rewrite Hr. cbn in *. by rewrite Hok by lia.
  - intros u r. by apply rep_placed.
  - intros u v. by apply rep_apart.
  - intros op Hop. destruct (alloc_exec_rep m live op Hreach Hop) as (m' & live' & -> & _). done.
Qed.

(** ** Witnesses, on the operating system [bump_os] *)

Definition boot_bump : vl_memory := default memory_boot (snd <$> @vl_allocator_init bump_os memory_boot).

Lemma boot_bump_reach : @alloc_reach bump_os boot_bump ∅.
Proof. apply reach_init. vm_compute. reflexivity. Defined.

(** A state with one small block in use. *)
Definition one_block : vl_memory * gmap Z Z :=
  default (memory_boot, ∅) (@alloc_exec bump_os (AMalloc 0 100) boot_bump ∅).
Definition one_user : Z := 129040.

Lemma one_block_reach : @alloc_reach bump_os one_block.1 one_block.2.
Proof.
  apply (reach_op boot_bump ∅ (AMalloc 0 100)); [exact boot_bump_reach|split; [lia|word_lia]|].
  vm_compute. reflexivity.
Defined.

Lemma one_block_user : one_block.2 !! one_user = Some 100.
Proof. vm_compute. reflexivity. Defined.

(** A state with one large block in use. *)
Definition large_block : vl_memory * gmap Z Z :=
  default (memory_boot, ∅) (@alloc_exec bump_os (AMalloc 0 40000) boot_bump ∅).

Lemma large_block_reach : @alloc_reach bump_os large_block.1 large_block.2.
Proof.
  apply (reach_op boot_bump ∅ (AMalloc 0 40000)); [exact boot_bump_reach|split; [lia|word_lia]|].
  vm_compute. reflexivity.
Defined.

Lemma malloc_fresh_block_witness : exists u m', @vl_malloc bump_os 0 100 boot_bump = Some (u, m').
Proof.
  destruct (@malloc_fresh_block bump_os bump_os_laws boot_bump ∅ 0 100 boot_bump_reach ltac:(lia) ltac:(word_lia))
    as (u & m' & Hr & _). exists u, m'. exact Hr.
Defined.

Lemma free_releases_block_witness : exists m', @vl_free bump_os 1 one_user one_block.1 = Some (tt, m') /\
  active_objects (mem_stats m') = 0.
Proof.
  destruct (@free_releases_block bump_os bump_os_laws one_block.1 one_block.2 1 one_user 100 one_block_reach
    ltac:(lia) one_block_user) as (m' & Hr & _ & Ho & _).
  exists m'. split; [exact Hr|]. rewrite Ho. vm_compute. reflexivity.
Defined.


Lemma allocator_accounting_witness : active_bytes (mem_stats one_block.1) = live_total one_block.2 /\
  active_bytes (mem_stats one_block.1) = 100.
Proof.
  destruct (@allocator_accounting bump_os bump_os_laws one_block.1 one_block.2 one_block_reach) as (_ & Hb & _).
  split; [exact Hb|]. vm_compute. reflexivity.
Defined.
