(* ===== verification/Arena.v ===== *)
(** * Arenas (src/memory/arena.c)

    An arena is a list of blocks, each a mapping of its own: a page for the
    [vl_arena_block_t], then the bytes handed out by a bump pointer.  Only the newest
    block is allocated from.  The blocks live in the address space of [PageHeap]
    ([m_blocks]); the [vl_arena_impl_t] comes from [calloc], whose outcome is an
    argument.  The loop of [vl_arena_reset] gets one iteration more than there are
    blocks in memory. *)

From S2P Require Import Prelude SizeClass PageHeap Span Valloc VallocLists VallocInv VallocSteps VallocRun.
From stdpp Require Import options.

Open Scope Z_scope.

Definition VL_ARENA_DEFAULT_BLOCK_SIZE : Z := 64 * 1024.
Definition UINTPTR_MAX : Z := W64 - 1.

Record vl_arena_impl := mk_arena { block_size : Z; blocks : Z }.

(** A [vl_arena_t]: the value of its [impl] pointer. *)
Notation vl_arena := (option vl_arena_impl).

Definition load_block (b : Z) : M vl_arena_block := deref (fun m => m_blocks m !! b).
Definition store_block (b : Z) (v : vl_arena_block) : M unit := fun m =>
  if decide (mapped m b BLOCK) then Some (tt, set_m_blocks (<[b := v]> (m_blocks m)) m) else None.

Section arena.
Context `{os_memory}.

Definition vl_arena_block_data (psize b : Z) : Z := b + psize.

(** Returns the block and the arena; [NULL] leaves the arena as it was. *)
Definition vl_arena_new_block (impl : vl_arena_impl) (minimum_capacity : Z) : M (Z * vl_arena_impl) :=
  psize ← gets page_size;
  let capacity := if minimum_capacity <? block_size impl then block_size impl else minimum_capacity in
  if SIZE_MAX - (psize - 1) <? capacity then mret (NULL, impl) else
  let object_pages := w64 (capacity + psize - 1) / psize in
  if (object_pages =? 0) || (object_pages =? SIZE_MAX) then mret (NULL, impl) else
  let pages := w64 (object_pages + 1) in
  r ← vl_page_heap_acquire pages;
  let block := r.1 in
  if block =? NULL then mret (NULL, impl) else
  _ ← store_block block (mk_block r.2 (w64 (r.2 - psize)) 0 (blocks impl));
  mret (block, mk_arena (block_size impl) block).

Definition vl_arena_release_head_block (impl : vl_arena_impl) (b : Z) : M vl_arena_impl :=
  block ← load_block b;
  let impl := if blocks impl =? b then mk_arena (block_size impl) (ab_next block) else impl in
  _ ← vl_page_heap_release b (ab_mapping_size block);
  mret impl.

(** [None] is a NULL [arena] argument; the result carries [arena->impl] on exit. *)
Definition vl_arena_init (calloc : bool) (arena : option vl_arena) (bsize : Z) : M (vl_status * option vl_arena) :=
  match arena with
  | None | Some (Some _) => mret (VL_ERROR_INVALID_ARGUMENT, arena)
  | Some None =>
      status ← vl_memory_ensure_initialized;
      if decide (status <> VL_OK) then mret (VL_ERROR_INVALID_STATE, arena) else
      let bsize := if bsize =? 0 then VL_ARENA_DEFAULT_BLOCK_SIZE else bsize in
      psize ← gets page_size;
      if SIZE_MAX - psize <? bsize then mret (VL_ERROR_INVALID_ARGUMENT, arena) else
      if negb calloc then mret (VL_ERROR_OUT_OF_MEMORY, arena) else
      mret (VL_OK, Some (Some (mk_arena bsize NULL)))
  end.

(** [(address + alignment - 1) & ~(alignment - 1)] *)
Definition round_up (address alignment : Z) : Z := Z.ldiff (w64 (address + alignment - 1)) (alignment - 1).

(** [offset > block->capacity || size > block->capacity - offset] *)
Definition does_not_fit (block : vl_arena_block) (offset size : Z) : bool :=
  (ab_capacity block <? offset) || (w64 (ab_capacity block - offset) <? size).

(** The last two statements of [vl_arena_alloc]. *)
Definition arena_take (impl : vl_arena_impl) (psize b offset size : Z) : M (Z * vl_arena_impl) :=
  block ← load_block b;
  _ ← store_block b (set_ab_used (w64 (offset + size)) block);
  mret (vl_arena_block_data psize b + offset, impl).

(** The branch that starts another block because the request does not fit. *)
Definition arena_next_block (impl : vl_arena_impl) (psize size alignment : Z) : M (Z * vl_arena_impl) :=
  if SIZE_MAX - alignment <? size then mret (NULL, impl) else
  r ← vl_arena_new_block impl (w64 (size + alignment));
  let '(b, impl) := r in
  if b =? NULL then mret (NULL, impl) else
  block ← load_block b;
  let base := vl_arena_block_data psize b in
  if UINTPTR_MAX - (alignment - 1) <? base then
    impl ← vl_arena_release_head_block impl b; mret (NULL, impl)
  else
  let offset := w64 (round_up base alignment - base) in
  if does_not_fit block offset size then
    impl ← vl_arena_release_head_block impl b; mret (NULL, impl)
  else arena_take impl psize b offset size.

(** The part of [vl_arena_alloc] that works on the newest block [b]. *)
Definition arena_alloc_in (impl : vl_arena_impl) (new_block : bool) (b psize size alignment : Z)
    : M (Z * vl_arena_impl) :=
  block ← load_block b;
  let base := vl_arena_block_data psize b in
  let fail := if new_block then impl ← vl_arena_release_head_block impl b; mret (NULL, impl)
              else mret (NULL, impl) in
  if UINTPTR_MAX - base <? ab_used block then fail else
  let current := base + ab_used block in
  if UINTPTR_MAX - (alignment - 1) <? current then fail else
  let offset := w64 (round_up current alignment - base) in
  if does_not_fit block offset size then arena_next_block impl psize size alignment
  else arena_take impl psize b offset size.

Definition vl_arena_alloc (arena : option vl_arena) (size alignment : Z) : M (Z * option vl_arena) :=
  match arena with
  | None => mret (NULL, arena)
  | Some ar =>
      if (size =? 0) || (alignment =? 0) || negb (Z.land alignment (alignment - 1) =? 0)
      then mret (NULL, arena) else
      match ar with
      | None => mret (NULL, arena)
      | Some impl =>
          status ← vl_memory_ensure_initialized;
          if decide (status <> VL_OK) then mret (NULL, arena) else
          psize ← gets page_size;
          r ← (if blocks impl =? NULL then
                 if SIZE_MAX - alignment <? size then mret (NULL, impl) else
                 r ← vl_arena_new_block impl (w64 (size + alignment));
                 let '(b, impl) := r in
                 if b =? NULL then mret (NULL, impl)
                 else arena_alloc_in impl true b psize size alignment
               else arena_alloc_in impl false (blocks impl) psize size alignment);
          mret (r.1, Some (Some r.2))
      end
  end.

Definition block_fuel (m : vl_memory) : nat := S (size (m_blocks m)).

Fixpoint reset_from (fuel : nat) (b : Z) : M unit :=
  match fuel with
  | O => ub
  | S fuel =>
      if b =? NULL then mret tt else
      block ← load_block b;
      _ ← vl_page_heap_release b (ab_mapping_size block);
      reset_from fuel (ab_next block)
  end.

Definition vl_arena_reset (arena : option vl_arena) : M (option vl_arena) :=
  owner ← gets vl_memory_is_owner;
  match arena with
  | Some (Some impl) =>
      if negb owner then mret arena else
      fuel ← gets block_fuel;
      _ ← reset_from fuel (blocks impl);
      mret (Some (Some (mk_arena (block_size impl) NULL)))
  | _ => mret arena
  end.

Definition vl_arena_destroy (arena : option vl_arena) : M (option vl_arena) :=
  owner ← gets vl_memory_is_owner;
  match arena with
  | Some (Some _) =>
      if negb owner then mret arena else
      _ ← vl_arena_reset arena;
      mret (Some None)
  | _ => mret arena
  end.
End arena.

(** ** The invariant *)

Definition block_next (m : vl_memory) (b : Z) : option Z := ab_next <$> m_blocks m !! b.

(** What an arena leaves alone: the allocator's own data and every mapping. *)
Definition allocator_part (m : vl_memory) :=
  (page_size m, caches m, remote m, central m, (all_spans m, large_allocations m), (m_spans m, m_headers m, m_links m),
   (active_objects (mem_stats m), active_bytes (mem_stats m))).
Definition arena_frame (m m' : vl_memory) : Prop :=
  allocator_part m' = allocator_part m /\ m_bytes m' = m_bytes m /\ mappings m ⊆ mappings m'.

(** The contract of the general allocator depends on that part only. *)
Lemma mem_rep_frame `{os_memory} m m' live : mem_rep m live -> heap_ok m' -> allocator_part m' = allocator_part m ->
  mappings m ⊆ mappings m' -> mem_rep m' live.
Proof.
  intros [Hc [g [H1 H2 H3 H4 H5 H6 H7]]] Hok E Hsub. unfold allocator_part in E.
  destruct m as [i ps st ca re ce al la ma cl sp hd li bl by'], m' as [i' ps' st' ca' re' ce' al' la' ma' cl' sp' hd' li' bl' by''].
  cbn in E. injection E as -> -> -> -> -> -> -> -> -> Eo Eb. split; [done|]. exists g. split; [done|..].
  - destruct H2 as [S1 S2 S3 S4 S5]. split; try done. intros s x Hs Hx. destruct (S5 s x Hs Hx). split; try done. by eapply lookup_weaken.
  - destruct H3. by split.
  - done.
  - destruct H5. by split.
  - destruct H6 as [L1 L2 L3 L4]. split; try done. intros h x Hh Hx. destruct (L3 h x Hh Hx). split; try done. by eapply lookup_weaken.
  - destruct H7 as [V1 V2 V3 V4 V5]. cbn in V3, V4, V5. split; try done; cbn; by rewrite ?Eo, ?Eb.
Qed.

Section inv.
Context `{os_memory}.

Record block_ok (m : vl_memory) (b : Z) (ab : vl_arena_block) : Prop := {
  bo_map : mappings m !! b = Some (ab_mapping_size ab);
  bo_cap : ab_capacity ab = ab_mapping_size ab - page_size m;
  bo_used : 0 <= ab_used ab <= ab_capacity ab }.

(** The range [r] (address, length) lies in the used part of a block of [l]. *)
Definition range_in (m : vl_memory) (l : list Z) (r : Z * Z) : Prop := exists b ab,
  b ∈ l /\ m_blocks m !! b = Some ab /\ 0 < r.2 /\
  b + page_size m <= r.1 /\ r.1 + r.2 <= b + page_size m + ab_used ab.

(** [rs] are the ranges handed out since the last reset; [B] are the mappings that
    are not the arena's. *)
Variable B : gmap Z Z.
Record arena_ok (m : vl_memory) (impl : vl_arena_impl) (l : list Z) (rs : list (Z * Z)) : Prop := {
  ao_heap : heap_ok m;
  ao_size : block_size impl <= SIZE_MAX - page_size m;
  ao_chain : chain (block_next m) (blocks impl) l;
  ao_nodup : NoDup l;
  ao_block : forall b ab, b ∈ l -> m_blocks m !! b = Some ab -> block_ok m b ab;
  ao_own : forall b, b ∈ l -> B !! b = None;
  ao_rest : forall b, b ∉ l -> mappings m !! b = B !! b;
  ao_in : forall r, r ∈ rs -> range_in m l r;
  ao_apart : forall i j x y, rs !! i = Some x -> rs !! j = Some y -> i <> j -> disjoint_range x.1 x.2 y.1 y.2 }.

Definition arena_rep (m : vl_memory) (impl : vl_arena_impl) (rs : list (Z * Z)) : Prop :=
  exists l, arena_ok m impl l rs.

#[local] Set Default Proof Using "Type*".
Context `{!os_memory_laws}.

Lemma arena_tick m impl l rs : arena_ok m impl l rs -> arena_ok (tick m) impl l rs.
Proof.
  intros [A1 A2 A3 A4 A5 O1 O2 A6 A7]. split; try done; [by apply tick_ok|].
  intros b ab Hb Hab. destruct (A5 b ab Hb Hab). by split.
Qed.

Lemma load_block_run b ab m : m_blocks m !! b = Some ab -> load_block b m = Some (ab, m).
Proof. intros E. unfold load_block. crun. by rewrite E. Qed.

Lemma store_block_run b ab m : mapped m b BLOCK -> store_block b ab m = Some (tt, set_m_blocks (<[b := ab]> (m_blocks m)) m).
Proof. intros Hm. unfold store_block. by rewrite decide_True. Qed.

Lemma arena_frame_trans m1 m2 m3 : arena_frame m1 m2 -> arena_frame m2 m3 -> arena_frame m1 m3.
Proof. intros (A1 & A2 & A3) (B1 & B2 & B3). split_and!; [congruence..|by etrans]. Qed.

(** A new block at the front of the list. *)
Lemma arena_add_block m impl l rs b bytes : arena_ok m impl l rs -> fresh_range m b bytes -> page_size m < bytes ->
  heap_ok (acquired b bytes m) ->
  let ab := mk_block bytes (bytes - page_size m) 0 (blocks impl) in
  let m' := set_m_blocks (<[b := ab]> (m_blocks m)) (acquired b bytes m) in
  arena_ok m' (mk_arena (block_size impl) b) (b :: l) rs.
Proof.
  intros [A1 A2 A3 A4 A5 O1 O2 A6 A7] Hf Hb HokA ab m'. pose proof page_bounds as [Hpb _]. rewrite <- (ho_page m A1) in Hpb.
  assert (Hnew : m_blocks m !! b = None).
  { destruct (m_blocks m !! b) as [x|] eqn:E; [exfalso|done].
    eapply (fresh_range_notin m b bytes b BLOCK Hf); [by apply (ho_blocks m A1 b x)|done|lia]. }
  assert (Hmap : mappings m !! b = None) by (eapply fresh_range_None; [done|done|lia]).
  assert (Hnl : b ∉ l).
  { intros Hin. destruct (chain_dom _ _ _ _ A3 Hin) as [_ [n Hn]]. unfold block_next in Hn. by rewrite Hnew in Hn. }
  assert (Hold : forall v, v ∈ l -> m_blocks m' !! v = m_blocks m !! v).
  { intros v Hv. cbn. rewrite lookup_insert_ne; [done|]. by intros <-. }
  split; try done.
  - destruct HokA as [B1 B2 B3 B4 B5 B6 B7 B8 B9]. split; try done. intros a x. cbn. rewrite lookup_insert.
    case_decide as E; [intros _; subst a|apply B9]. exists b, bytes. split; [cbn; by rewrite lookup_insert_eq|].
    unfold BLOCK. lia.
  - cbn. split; [done|]. split; [destruct Hf; unfold NULL; lia|]. exists (blocks impl). unfold block_next at 1. cbn.
    rewrite lookup_insert_eq. split; [done|]. apply (list_chain_frame _ _ _ _ A3). intros v Hv. unfold block_next. by rewrite Hold.
  - by apply list.NoDup_cons.
  - intros v x [->|Hv]%elem_of_cons Hx.
    + cbn in Hx. rewrite lookup_insert_eq in Hx. injection Hx as <-. split; cbn; [by rewrite lookup_insert_eq|done|lia].
    + rewrite Hold in Hx by done. destruct (A5 v x Hv Hx). split; try done. cbn. rewrite lookup_insert_ne; [done|]. by intros <-.
  - intros v [->|Hv]%elem_of_cons; [|by apply O1]. by rewrite <- O2.
  - intros v [Hv1 Hv2]%not_elem_of_cons. cbn. rewrite lookup_insert_ne by done. by apply O2.
  - intros r Hr. destruct (A6 r Hr) as (v & x & Hv & Hx & Hrest). exists v, x. split; [by right|].
    rewrite Hold by done. done.
Qed.

(** No block for [c] bytes can be had: the sizes overflow or the system refuses. *)
Definition arena_refused (m : vl_memory) (impl : vl_arena_impl) (c : Z) : Prop :=
  exists bytes, c < bytes <= Z.max c (block_size impl) + 2 ^ 18 /\ refuses m bytes.

Lemma vl_arena_new_block_spec m impl l rs c : arena_ok m impl l rs -> 0 < c <= SIZE_MAX ->
  exists b impl' m', vl_arena_new_block impl c m = Some ((b, impl'), m') /\ arena_frame m m' /\
    ((b = NULL /\ impl' = impl /\ arena_ok m' impl l rs /\ arena_refused m impl c) \/
     (b <> NULL /\ block_size impl' = block_size impl /\ blocks impl' = b /\ arena_ok m' impl' (b :: l) rs /\
      page_size m' = page_size m /\ exists ab, m_blocks m' !! b = Some ab /\ ab_used ab = 0 /\ c <= ab_capacity ab)).
Proof.
  intros Ha Hc. pose proof (ao_heap _ _ _ _ Ha) as Hok. pose proof page_bounds as [Hpb _]. rewrite <- (ho_page m Hok) in Hpb.
  unfold vl_arena_new_block. rewrite bind_run. unfold gets. set (ps := page_size m) in *.
  set (cap := if c <? block_size impl then block_size impl else c).
  assert (Hcap : c <= cap <= Z.max c (block_size impl)) by (unfold cap; destruct (Z.ltb_spec c (block_size impl)); lia). clearbody cap.
  pose proof (mapping_total_nonneg (mappings m) (fun b k Hk => proj1 (proj2 (proj2 (ho_maps m Hok b k Hk))))) as Hnn.
  rewrite <- (proj1 (ho_bytes m Hok)) in Hnn.
  assert (Hnull : forall mm, mm = m \/ mm = tick m -> arena_refused m impl c -> exists b impl' m', Some ((NULL, impl), mm) = Some ((b, impl'), m') /\ arena_frame m m' /\
    ((b = NULL /\ impl' = impl /\ arena_ok m' impl l rs /\ arena_refused m impl c) \/
     (b <> NULL /\ block_size impl' = block_size impl /\ blocks impl' = b /\ arena_ok m' impl' (b :: l) rs /\
      page_size m' = page_size m /\ exists ab, m_blocks m' !! b = Some ab /\ ab_used ab = 0 /\ c <= ab_capacity ab))).
  { intros mm Hmm Href. eexists _, _, _. split; [done|]. split; [by destruct Hmm as [-> | ->]|].
    left. split_and!; try done. destruct Hmm as [-> | ->]; [done|by apply arena_tick]. }
  destruct (Z.ltb_spec (SIZE_MAX - (ps - 1)) cap) as [Hov|Hov].
  { apply Hnull; [by left|]. exists (cap + ps). split; [lia|]. left. lia. }
  rewrite w64_small by word_lia. set (op := (cap + ps - 1) / ps).
  pose proof (Z.div_mod (cap + ps - 1) ps ltac:(lia)) as Hdm. fold op in Hdm.
  pose proof (Z.mod_pos_bound (cap + ps - 1) ps ltac:(lia)) as Hmb.
  destruct (Z.eqb_spec op 0); [nia|]. destruct (Z.eqb_spec op SIZE_MAX); [unfold SIZE_MAX, W64 in *; nia|]. cbn [orb].
  assert (Hop : 0 < op < SIZE_MAX) by (unfold SIZE_MAX, W64 in *; nia).
  rewrite w64_small by word_lia.
  destruct (vl_page_heap_acquire_spec m (op + 1) Hok ltac:(lia)) as (r & Hr & Hcase). rewrite bind_run, Hr. fold ps in Hcase.
  destruct Hcase as [(E1 & E2 & Href)|(b & -> & Hf & Hb & HokA)].
  { destruct r as [[b0 k0] mr]. cbn in E1, E2. simplify_eq. cbn [fst snd]. destruct (Z.eqb_spec NULL NULL); [|done].
    apply Hnull; [done|]. exists ((op + 1) * ps). split; [nia|done]. }
  cbn [fst snd]. assert (Hb0 : b <> NULL) by (destruct Hf; unfold NULL; lia). destruct (Z.eqb_spec b NULL); [done|].
  set (bytes := (op + 1) * ps) in *. assert (Hhigh : b + bytes <= 2 ^ 56) by apply Hf. assert (0 < b) by apply Hf.
  rewrite (w64_small (bytes - ps)) by (unfold bytes in *; word_lia).
  rewrite bind_run, store_block_run.
  2: { exists b, bytes. split; [cbn; by rewrite lookup_insert_eq|]. unfold BLOCK, bytes. nia. }
  rewrite ret_run. eexists b, _, _. split; [done|].
  split; [split_and!; [done..|by apply insert_subseteq, (fresh_range_None m b bytes)]|].
  right. split; [done|]. split; [done|]. split; [done|].
  split; [exact (arena_add_block m impl l rs b bytes Ha Hf ltac:(unfold bytes; fold ps; nia) HokA)|]. split; [done|].
  eexists. split; [cbn; by rewrite lookup_insert_eq|]. cbn. split; [done|]. unfold bytes. lia.
Qed.

(** Taking [size] bytes at [offset] of a block, above what is used. *)
Lemma arena_take_ok m impl l rs b ab offset size : arena_ok m impl l rs -> b ∈ l -> m_blocks m !! b = Some ab ->
  ab_used ab <= offset -> 0 < size -> offset + size <= ab_capacity ab ->
  exists m', arena_take impl (page_size m) b offset size m = Some ((b + page_size m + offset, impl), m') /\
    arena_ok m' impl l ((b + page_size m + offset, size) :: rs) /\ arena_frame m m'.
Proof.
  intros [A1 A2 A3 A4 A5 O1 O2 A6 A7] Hb Hab Hoff Hs Hfit. destruct (A5 b ab Hb Hab) as [B1 B2 B3].
  pose proof (ho_maps m A1 _ _ B1) as Hmp. pose proof page_bounds as [Hpb _]. rewrite <- (ho_page m A1) in Hpb.
  unfold arena_take. rewrite (bind_Some _ _ _ _ _ (load_block_run b ab m Hab)).
  rewrite w64_small by word_lia. rewrite (bind_Some _ _ _ _ _ (store_block_run b _ m (ho_blocks m A1 b ab Hab))).
  eexists. split; [done|]. set (ab' := set_ab_used _ ab). set (m' := set_m_blocks _ m).
  assert (Hlook : forall v x, m_blocks m !! v = Some x -> exists x', m_blocks m' !! v = Some x' /\ ab_next x' = ab_next x /\
    ab_mapping_size x' = ab_mapping_size x /\ ab_capacity x' = ab_capacity x /\ ab_used x <= ab_used x').
  { intros v x Hx. cbn. rewrite lookup_insert. case_decide as E; [subst v|eauto 10 with lia].
    assert (x = ab) as -> by congruence. exists ab'. split_and!; try done. cbn. lia. }
  assert (Hback : forall v x', m_blocks m' !! v = Some x' -> v ∈ l -> block_ok m' v x').
  { intros v x'. cbn. rewrite lookup_insert. case_decide as E.
    - subst v. intros [= <-] _. split; try done. cbn. lia.
    - intros Hx Hv. destruct (A5 v x' Hv Hx). by split. }
  split; [|done]. split; try done.
  - destruct A1 as [C1 C2 C3 C4 C5 C6 C7 C8 C9]. split; try done. intros a x. cbn. rewrite lookup_insert.
    case_decide as E; [intros _; subst a; by apply (C9 b ab)|apply C9].
  - apply (list_chain_frame _ _ _ _ A3). intros v Hv. unfold block_next. cbn. rewrite lookup_insert.
    case_decide as E; [subst v; by rewrite Hab|done].
  - intros v x' Hv Hx. by apply Hback.
  - intros r [->|Hr]%elem_of_cons.
    + exists b, ab'. cbn. rewrite lookup_insert_eq. split_and!; try done; lia.
    + destruct (A6 r Hr) as (v & x & Hv & Hx & Hpos & Hlo & Hhi). destruct (Hlook v x Hx) as (x' & Hx' & _ & _ & _ & Hu).
      exists v, x'. split_and!; try done. cbn. lia.
  - assert (Hnew : forall y, y ∈ rs -> disjoint_range (b + page_size m + offset) size y.1 y.2).
    { intros y Hy. destruct (A6 y Hy) as (v & x & Hv & Hx & Hpos & Hlo & Hhi). destruct (A5 v x Hv Hx) as [D1 D2 D3].
      destruct (decide (v = b)) as [->|Hne].
      - assert (x = ab) as -> by congruence. right. lia.
      - pose proof (ho_disjoint m A1 _ _ _ _ B1 D1 ltac:(congruence)). unfold disjoint_range in *. lia. }
    intros [|i] [|j] x y Hi Hj Hne; cbn in Hi, Hj; try done.
    + simplify_eq. apply Hnew. by eapply list_elem_of_lookup_2.
    + simplify_eq. apply list_elem_of_lookup_2, Hnew in Hi. unfold disjoint_range in *. cbn. lia.
    + apply (A7 i j); [done|done|lia].
Qed.

Lemma round_up_spec a k : 0 <= k < 64 -> 0 <= a -> a + 2 ^ k - 1 < W64 ->
  a <= round_up a (2 ^ k) < a + 2 ^ k /\ round_up a (2 ^ k) mod 2 ^ k = 0.
Proof. intros Hk Ha Hw. apply (round_up_pow2 a k); lia. Qed.

(** A block that was just created holds the request. *)
Lemma arena_fresh_fits psize ab b k size : 0 <= k < 64 -> 0 < b + psize -> b + psize <= 2 ^ 57 ->
  0 < size -> size + 2 ^ k <= ab_capacity ab <= SIZE_MAX ->
  let base := vl_arena_block_data psize b in
  let offset := w64 (round_up base (2 ^ k) - base) in
  (UINTPTR_MAX - (2 ^ k - 1) <? base) = false /\ does_not_fit ab offset size = false /\
  0 <= offset /\ offset + size <= ab_capacity ab /\ (base + offset) mod 2 ^ k = 0.
Proof.
  intros Hk Hb Hb' Hs Hc base offset. unfold base, vl_arena_block_data in *.
  assert (Hpk : 0 < 2 ^ k <= 2 ^ 63) by (split; [apply Z.pow_pos_nonneg; lia|apply Z.pow_le_mono_r; lia]).
  destruct (round_up_spec (b + psize) k Hk ltac:(lia) ltac:(word_lia)) as [Hr Hm].
  assert (Eo : offset = round_up (b + psize) (2 ^ k) - (b + psize)) by (unfold offset; apply w64_small; word_lia).
  split; [unfold UINTPTR_MAX; apply Z.ltb_ge; word_lia|].
  split; [|split; [lia|split; [lia|rewrite Eo; by replace (b + psize + _) with (round_up (b + psize) (2 ^ k)) by lia]]].
  unfold does_not_fit. rewrite w64_small by word_lia. rewrite orb_false_iff, !Z.ltb_ge. lia.
Qed.

Lemma arena_next_block_spec m impl l rs k size : arena_ok m impl l rs -> 0 <= k < 64 -> 0 < size <= SIZE_MAX ->
  exists p impl' m', arena_next_block impl (page_size m) size (2 ^ k) m = Some ((p, impl'), m') /\ arena_frame m m' /\
    ((p = NULL /\ impl' = impl /\ arena_rep m' impl' rs /\ (SIZE_MAX < size + 2 ^ k \/ arena_refused m impl (size + 2 ^ k))) \/
     (p <> NULL /\ p mod 2 ^ k = 0 /\ arena_rep m' impl' ((p, size) :: rs))).
Proof.
  intros Ha Hk Hs. assert (Hpk : 0 < 2 ^ k <= 2 ^ 63) by (split; [apply Z.pow_pos_nonneg; lia|apply Z.pow_le_mono_r; lia]).
  unfold arena_next_block. destruct (Z.ltb_spec (SIZE_MAX - 2 ^ k) size) as [Hov|Hok].
  { eexists _, _, _. split; [done|]. split; [done|]. left. split_and!; try done; [by exists l|]. left. lia. }
  rewrite w64_small by word_lia.
  destruct (vl_arena_new_block_spec m impl l rs (size + 2 ^ k) Ha ltac:(lia)) as (b & impl1 & m1 & Hr & Hfr & Hcase).
  rewrite (bind_Some _ _ _ _ _ Hr). destruct Hcase as [(-> & -> & Ha1 & Href)|(Hb0 & Ebs & Ebl & Ha1 & Hps & ab & Hab & Hused & Hcap)].
  { destruct (Z.eqb_spec NULL NULL); [|done]. eexists _, _, _. split; [done|]. split; [done|].
    left. split_and!; try done; [by exists l|by right]. }
  destruct (Z.eqb_spec b NULL); [done|]. rewrite (bind_Some _ _ _ _ _ (load_block_run b ab m1 Hab)).
  destruct (ao_block _ _ _ _ Ha1 b ab ltac:(left) Hab) as [B1 B2 B3]. pose proof (ho_maps m1 (ao_heap _ _ _ _ Ha1) _ _ B1) as Hmp.
  pose proof page_bounds as [Hpb _]. rewrite <- (ho_page m1 (ao_heap _ _ _ _ Ha1)) in Hpb. rewrite <- Hps.
  destruct (arena_fresh_fits (page_size m1) ab b k size Hk ltac:(lia) ltac:(lia) ltac:(lia) ltac:(word_lia)) as (E1 & E2 & Ho1 & Ho2 & Hal).
  rewrite E1, E2. set (offset := w64 _) in *.
  destruct (arena_take_ok m1 impl1 (b :: l) rs b ab offset size Ha1 ltac:(left) Hab ltac:(lia) ltac:(lia) ltac:(lia)) as (m2 & Hr2 & Ha2 & Hfr2).
  rewrite Hr2. eexists _, _, _. split; [done|]. split; [by eapply arena_frame_trans|]. right. split; [unfold NULL; lia|]. split; [exact Hal|by exists (b :: l)].
Qed.

Lemma arena_alloc_in_spec m impl l rs new b k size : arena_ok m impl l rs -> blocks impl = b -> b <> NULL ->
  0 <= k < 64 -> 0 < size <= SIZE_MAX ->
  exists p impl' m', arena_alloc_in impl new b (page_size m) size (2 ^ k) m = Some ((p, impl'), m') /\ arena_frame m m' /\
    ((p = NULL /\ impl' = impl /\ arena_rep m' impl' rs /\ (SIZE_MAX < size + 2 ^ k \/ arena_refused m impl (size + 2 ^ k))) \/
     (p <> NULL /\ p mod 2 ^ k = 0 /\ arena_rep m' impl' ((p, size) :: rs))).
Proof.
  intros Ha Eb Hb0 Hk Hs. assert (Hpk : 0 < 2 ^ k <= 2 ^ 63) by (split; [apply Z.pow_pos_nonneg; lia|apply Z.pow_le_mono_r; lia]).
  pose proof (ao_chain _ _ _ _ Ha) as Hch. rewrite Eb in Hch. apply chain_cons_inv in Hch as (l' & n & -> & Hn & _); [|done].
  unfold block_next in Hn. destruct (m_blocks m !! b) as [ab|] eqn:Hab; [|done].
  destruct (ao_block _ _ _ _ Ha b ab ltac:(left) Hab) as [B1 B2 B3]. pose proof (ho_maps m (ao_heap _ _ _ _ Ha) _ _ B1) as Hmp.
  pose proof page_bounds as [Hpb _]. rewrite <- (ho_page m (ao_heap _ _ _ _ Ha)) in Hpb.
  unfold arena_alloc_in. rewrite (bind_Some _ _ _ _ _ (load_block_run b ab m Hab)). unfold vl_arena_block_data.
  set (base := b + page_size m). set (cur := base + ab_used ab).
  assert (Hcur : 0 < cur <= 2 ^ 57) by (unfold cur, base; lia).
  destruct (Z.ltb_spec (UINTPTR_MAX - base) (ab_used ab)); [unfold UINTPTR_MAX, cur, base in *; word_lia|].
  destruct (Z.ltb_spec (UINTPTR_MAX - (2 ^ k - 1)) cur); [unfold UINTPTR_MAX in *; word_lia|].
  destruct (round_up_spec cur k Hk ltac:(lia) ltac:(word_lia)) as [Hr Hm].
  rewrite w64_small by (unfold cur, base in *; word_lia). set (offset := round_up cur (2 ^ k) - base).
  unfold does_not_fit. destruct (Z.ltb_spec (ab_capacity ab) offset) as [Hno|Hoff]; cbn [orb].
  { by eapply arena_next_block_spec. }
  rewrite w64_small by (unfold offset, cur, base in *; word_lia).
  destruct (Z.ltb_spec (ab_capacity ab - offset) size) as [Hno|Hfit]; [by eapply arena_next_block_spec|].
  destruct (arena_take_ok m impl (b :: l') rs b ab offset size Ha ltac:(left) Hab) as (m2 & Hr2 & Ha2 & Hfr2);
    [unfold offset, cur in *; lia|lia|lia|].
  rewrite Hr2. eexists _, _, _. split; [done|]. split; [done|]. right. split; [unfold NULL, offset, cur, base in *; lia|].
  split; [by replace (b + page_size m + offset) with (round_up cur (2 ^ k)) by (unfold offset, base; lia)|by exists (b :: l')].
Qed.

Lemma power_of_two a : 0 < a < W64 -> Z.land a (a - 1) = 0 -> exists k, 0 <= k < 64 /\ a = 2 ^ k.
Proof.
  intros Ha E. destruct (proj1 (is_power_of_two_spec a ltac:(lia))) as (k & Hk & ->).
  { unfold is_power_of_two. rewrite E. destruct (Z.eqb_spec a 0); [lia|done]. }
  exists k. split; [|done]. split; [done|]. apply (Z.pow_lt_mono_r_iff 2); [lia|lia|exact (proj2 Ha)].
Qed.

Lemma initialized_run m : heap_ok m -> vl_memory_ensure_initialized m = Some (VL_OK, m).
Proof. intros Hok. unfold vl_memory_ensure_initialized, vl_memory_is_owner. by rewrite (ho_init m Hok). Qed.

(** Why [vl_arena_alloc] answers NULL. *)
Definition arena_denied (m : vl_memory) (impl : vl_arena_impl) (size alignment : Z) : Prop :=
  size = 0 \/ (forall k, 0 <= k -> alignment <> 2 ^ k) \/ SIZE_MAX < size + alignment \/ arena_refused m impl (size + alignment).

Lemma arena_alloc_arguments size alignment : word size -> word alignment ->
  ((size =? 0) || (alignment =? 0) || negb (Z.land alignment (alignment - 1) =? 0) = true /\
   (size = 0 \/ forall k, 0 <= k -> alignment <> 2 ^ k)) \/
  ((size =? 0) || (alignment =? 0) || negb (Z.land alignment (alignment - 1) =? 0) = false /\
   0 < size <= SIZE_MAX /\ exists k, 0 <= k < 64 /\ alignment = 2 ^ k).
Proof.
  intros Hs Hal. destruct (Z.eqb_spec size 0) as [->|Hs0]; [left; auto|]. cbn [orb].
  destruct (Z.eqb_spec alignment 0) as [->|Ha0]; cbn [orb].
  { left. split; [done|]. right. intros k Hk E. pose proof (Z.pow_pos_nonneg 2 k). lia. }
  destruct (Z.eqb_spec (Z.land alignment (alignment - 1)) 0) as [E|E]; cbn [negb].
  - right. split; [done|]. split; [word_lia|]. apply power_of_two; [word_lia|done].
  - left. split; [done|]. right. intros k Hk ->. apply E. rewrite land_pow2_minus_1 by done. apply Z.mod_same. pose proof (Z.pow_pos_nonneg 2 k). lia.
Qed.

Lemma arena_alloc_in_fresh m impl l rs b ab k size : arena_ok m impl (b :: l) rs -> m_blocks m !! b = Some ab ->
  ab_used ab = 0 -> size + 2 ^ k <= ab_capacity ab -> 0 <= k < 64 -> 0 < size <= SIZE_MAX ->
  exists p m', arena_alloc_in impl true b (page_size m) size (2 ^ k) m = Some ((p, impl), m') /\ arena_frame m m' /\
    p <> NULL /\ p mod 2 ^ k = 0 /\ arena_rep m' impl ((p, size) :: rs).
Proof.
  intros Ha Hab Hused Hcap Hk Hs. assert (Hpk : 0 < 2 ^ k) by (apply Z.pow_pos_nonneg; lia).
  destruct (ao_block _ _ _ _ Ha b ab ltac:(left) Hab) as [B1 B2 B3]. pose proof (ho_maps m (ao_heap _ _ _ _ Ha) _ _ B1) as Hmp.
  pose proof page_bounds as [Hpb _]. rewrite <- (ho_page m (ao_heap _ _ _ _ Ha)) in Hpb.
  unfold arena_alloc_in. rewrite (bind_Some _ _ _ _ _ (load_block_run b ab m Hab)). rewrite Hused, Z.add_0_r.
  destruct (arena_fresh_fits (page_size m) ab b k size Hk ltac:(lia) ltac:(lia) ltac:(lia) ltac:(word_lia)) as (E1 & E2 & Ho1 & Ho2 & Hal).
  rewrite E1, E2. destruct (Z.ltb_spec (UINTPTR_MAX - vl_arena_block_data (page_size m) b) 0).
  { unfold UINTPTR_MAX, vl_arena_block_data in *. word_lia. }
  set (offset := w64 _) in *.
  destruct (arena_take_ok m impl (b :: l) rs b ab offset size Ha ltac:(left) Hab ltac:(lia) ltac:(lia) ltac:(lia)) as (m2 & Hr2 & Ha2 & Hfr2).
  rewrite Hr2. eexists _, _. split; [done|]. split; [done|]. split; [unfold NULL; lia|]. split; [exact Hal|by exists (b :: l)].
Qed.

Lemma vl_arena_alloc_spec m impl rs size alignment : arena_rep m impl rs -> word size -> word alignment ->
  exists p impl' m', vl_arena_alloc (Some (Some impl)) size alignment m = Some ((p, Some (Some impl')), m') /\ arena_frame m m' /\
    ((p = NULL /\ impl' = impl /\ arena_rep m' impl' rs /\ arena_denied m impl size alignment) \/
     (p <> NULL /\ 0 < size /\ p mod alignment = 0 /\ arena_rep m' impl' ((p, size) :: rs))).
Proof.
  intros [l Ha] Hs Hal. unfold vl_arena_alloc. pose proof (ao_heap _ _ _ _ Ha) as Hok.
  destruct (arena_alloc_arguments size alignment Hs Hal) as [[-> Hbad]|(-> & Hs' & k & Hk & ->)].
  { eexists _, _, _. split; [done|]. split; [done|]. left. split_and!; try done; [by exists l|].
    destruct Hbad; [by left|by right; left]. }
  assert (Hpk : 0 < 2 ^ k) by (apply Z.pow_pos_nonneg; lia).
  rewrite (bind_Some _ _ _ _ _ (initialized_run m Hok)). cbn [decide]. rewrite decide_False by (intros E; by destruct E).
  rewrite bind_run. unfold gets.
  destruct (Z.eqb_spec (blocks impl) NULL) as [Hnull|Hb0].
  2: { destruct (arena_alloc_in_spec m impl l rs false (blocks impl) k size Ha eq_refl Hb0 Hk Hs') as (p & impl' & m' & Hr & Hfr & Hcase).
       rewrite (bind_Some _ _ _ _ _ Hr). eexists _, _, _. split; [done|]. split; [done|].
       destruct Hcase as [(?&?&?&Hd)|(?&?&?)]; [left|right]; split_and!; try done; try lia. by right; right. }
  destruct (Z.ltb_spec (SIZE_MAX - 2 ^ k) size) as [Hov|Hov].
  { eexists _, _, _. split; [done|]. split; [done|]. left. split_and!; try done; [by exists l|]. right; right; left. lia. }
  rewrite bind_run, bind_run, w64_small by word_lia.
  destruct (vl_arena_new_block_spec m impl l rs (size + 2 ^ k) Ha ltac:(lia)) as (b & impl1 & m1 & Hr & Hfr & Hcase).
  rewrite Hr. destruct Hcase as [(-> & -> & Ha1 & Href)|(Hb0 & Ebs & Ebl & Ha1 & Hps & ab & Hab & Hused & Hcap)].
  { destruct (Z.eqb_spec NULL NULL); [|done]. eexists _, _, _. split; [done|]. split; [done|].
    left. split_and!; try done; [by exists l|by right; right; right]. }
  destruct (Z.eqb_spec b NULL); [done|]. rewrite <- Hps.
  destruct (arena_alloc_in_fresh m1 impl1 l rs b ab k size Ha1 Hab Hused Hcap Hk Hs') as (p & m2 & Hr2 & Hfr2 & Hp & Hal' & Hrep).
  rewrite Hr2. eexists _, _, _. split; [done|]. split; [by eapply arena_frame_trans|]. right. split_and!; try done. lia.
Qed.

Lemma chain_blocks_fuel m impl l rs : arena_ok m impl l rs -> (length l < block_fuel m)%nat.
Proof.
  intros Ha. unfold block_fuel. apply Nat.lt_succ_r.
  rewrite <- (size_list_to_set (C := gset Z) l (ao_nodup _ _ _ _ Ha)), <- (size_dom (D := gset Z)).
  apply subseteq_size. intros b Hb%elem_of_list_to_set. apply elem_of_dom.
  destruct (chain_dom _ _ _ _ (ao_chain _ _ _ _ Ha) Hb) as [_ [n Hn]]. unfold block_next in Hn.
  by destruct (m_blocks m !! b).
Qed.

End inv.

Section use.
#[local] Set Default Proof Using "Type*".
Context `{os_memory, !os_memory_laws}.

Lemma vl_arena_init_spec m bsize impl m0 calloc : heap_ok m -> word bsize ->
  vl_arena_init calloc (Some None) bsize m = Some ((VL_OK, Some (Some impl)), m0) -> m0 = m /\ arena_rep (mappings m) m impl [].
Proof.
  intros Hok Hw. unfold vl_arena_init. rewrite (bind_Some _ _ _ _ _ (initialized_run m Hok)).
  rewrite decide_False by (intros E; by destruct E). rewrite bind_run. unfold gets.
  pose proof page_bounds as [Hpb _]. rewrite <- (ho_page m Hok) in Hpb.
  set (bs := if bsize =? 0 then _ else _). destruct (Z.ltb_spec (SIZE_MAX - page_size m) bs) as [|Hle]; [done|].
  destruct calloc; cbn [negb]; [|done]. intros [= <- <-]. split; [done|]. exists []. split; try done.
  - apply NoDup_nil_2.
  - intros b ab Hb. by apply not_elem_of_nil in Hb.
  - intros b Hb. by apply not_elem_of_nil in Hb.
  - intros r Hr. by apply not_elem_of_nil in Hr.
Qed.

Lemma filter_outside_id {A} (f : gmap Z A) base size : (forall a x, f !! a = Some x -> ~ (base <= a < base + size)) ->
  filter (outside base size) f = f.
Proof.
  intros Hf. apply map_eq. intros a. apply option_eq. intros x. rewrite unmap_lookup.
  split; [by intros [? _]|]. intros Hx. split; [done|by eapply Hf].
Qed.

(** The allocator keeps nothing in the mapping of [k] bytes at [b]. *)
Definition none_inside (m : vl_memory) (b k : Z) : Prop :=
  (forall a x, m_spans m !! a = Some x -> ~ (b <= a < b + k)) /\
  (forall a x, m_headers m !! a = Some x -> ~ (b <= a < b + k)) /\
  (forall a x, m_links m !! a = Some x -> ~ (b <= a < b + k)).

Lemma released_part b k m : none_inside m b k -> allocator_part (released b k m) = allocator_part m.
Proof. intros (A & B & C). unfold allocator_part. cbn. by rewrite !filter_outside_id. Qed.

Lemma none_inside_part m m' b k : allocator_part m' = allocator_part m -> none_inside m b k -> none_inside m' b k.
Proof. unfold allocator_part, none_inside. intros [= _ _ _ _ _ _ -> -> -> _ _]. done. Qed.

(** Releasing the blocks from [h] on: [munmap] removes their mappings or, when it
    fails, leaves them. *)
Lemma reset_from_spec fuel : forall m h l, heap_ok m -> chain (block_next m) h l -> NoDup l ->
  (forall b ab, b ∈ l -> m_blocks m !! b = Some ab -> mappings m !! b = Some (ab_mapping_size ab) /\
    none_inside m b (ab_mapping_size ab)) -> (length l < fuel)%nat ->
  exists m', reset_from fuel h m = Some (tt, m') /\ heap_ok m' /\ allocator_part m' = allocator_part m /\ mappings m' ⊆ mappings m /\
    (forall b, b ∉ l -> mappings m' !! b = mappings m !! b) /\
    ((forall n b k, munmap n b k = true) -> forall b, b ∈ l -> mappings m' !! b = None).
Proof.
  induction fuel as [|fuel IH]; intros m h l Hok Hch Hnd Hmap Hlen; [lia|]. cbn [reset_from].
  destruct (Z.eqb_spec h NULL) as [->|Hh].
  { exists m. rewrite (proj1 (chain_nil _ _ _ Hch) eq_refl). split_and!; try done. intros _ b Hb. by apply not_elem_of_nil in Hb. }
  apply chain_cons_inv in Hch as (l' & n & -> & Hn & Hch); [|done].
  unfold block_next in Hn. destruct (m_blocks m !! h) as [ab|] eqn:Hab; [|done]. injection Hn as Hn.
  apply list.NoDup_cons in Hnd as [Hnin Hnd]. destruct (Hmap h ab ltac:(left) Hab) as [Hm Hno].
  rewrite (bind_Some _ _ _ _ _ (load_block_run h ab m Hab)).
  destruct (vl_page_heap_release_spec m h (ab_mapping_size ab) Hok Hm) as (m1 & Hr & Hm1 & Hok1).
  rewrite (bind_Some _ _ _ _ _ Hr). rewrite Hn.
  assert (Hkeep : forall b, b ∈ l' -> m_blocks m1 !! b = m_blocks m !! b).
  { intros b Hb. destruct Hm1 as [-> | ->]; [done|].
    destruct (chain_dom _ _ _ _ Hch Hb) as [_ [n' Hn']]. unfold block_next in Hn'.
    destruct (m_blocks m !! b) as [ab'|] eqn:Hab'; [|done]. destruct (Hmap b ab' ltac:(by right) Hab') as [Hm' _].
    apply unmap_lookup. split; [done|]. assert (b <> h) as Hne by congruence.
    pose proof (ho_disjoint m Hok _ _ _ _ Hm' Hm Hne). pose proof (ho_maps m Hok _ _ Hm'). unfold disjoint_range in *. lia. }
  assert (Hmaps : forall b, b <> h -> mappings m1 !! b = mappings m !! b).
  { intros b Hb. destruct Hm1 as [-> | ->]; [done|]. cbn. by rewrite lookup_delete_ne. }
  assert (Hpart : allocator_part m1 = allocator_part m) by (destruct Hm1 as [-> | ->]; [done|by apply released_part]).
  destruct (IH m1 n l' Hok1) as (m2 & Hr2 & Hok2 & Hps & Hsub & Hout & Hin).
  - apply (list_chain_frame _ _ _ _ Hch). intros v Hv. unfold block_next. by rewrite Hkeep.
  - done.
  - intros b ab' Hb Hab'. rewrite Hkeep in Hab' by done. rewrite Hmaps by congruence.
    destruct (Hmap b ab' ltac:(by right) Hab'). split; [done|by eapply none_inside_part].
  - cbn in Hlen. lia.
  - exists m2. split; [done|]. split; [done|]. split; [congruence|]. split.
    { etrans; [done|]. destruct Hm1 as [-> | ->]; [done|]. apply delete_subseteq. }
    split.
    + intros b Hb. apply not_elem_of_cons in Hb as [Hb1 Hb2]. rewrite Hout by done. by apply Hmaps.
    + intros Hun b [->|Hb]%elem_of_cons; [|by apply Hin]. rewrite Hout by done.
      unfold vl_page_heap_release in Hr. rewrite Hun in Hr. cbn [negb] in Hr.
      pose proof (ho_maps m Hok _ _ Hm). destruct (Z.eqb_spec h NULL), (Z.eqb_spec (ab_mapping_size ab) 0); try lia.
      cbn [orb] in Hr. rewrite decide_True in Hr by done. injection Hr as <-. apply lookup_delete_eq.
Qed.

(** Whatever lay in a mapping of [B] does not lie in a block. *)
Lemma block_outside B m impl l rs m0 b ab : arena_ok B m impl l rs -> heap_ok m0 -> mappings m0 = B ->
  allocator_part m = allocator_part m0 -> b ∈ l -> m_blocks m !! b = Some ab -> none_inside m b (ab_mapping_size ab).
Proof.
  intros Ha Hok0 EB Hpart Hb Hab. destruct (ao_block _ _ _ _ _ Ha b ab Hb Hab) as [B1 _ _].
  assert (Hout : forall a n, mapped m0 a n -> 0 < n -> ~ (b <= a < b + ab_mapping_size ab)).
  { intros a n (v & k & Hv & Hr) Hn Hin. rewrite EB in Hv. assert (v ∉ l) as Hvl.
    { intros Hvl. by rewrite (ao_own _ _ _ _ _ Ha v Hvl) in Hv. }
    rewrite <- (ao_rest _ _ _ _ _ Ha v Hvl) in Hv. assert (v <> b) as Hne by congruence.
    pose proof (ho_disjoint m (ao_heap _ _ _ _ _ Ha) _ _ _ _ Hv B1 Hne). unfold disjoint_range in *. lia. }
  apply (none_inside_part m0); [done|]. split_and!; intros a x Hx.
  - apply (Hout a SPAN); [by apply (ho_spans m0 Hok0 a x)|done].
  - apply (Hout a HEADER); [by apply (ho_headers m0 Hok0 a x)|done].
  - apply (Hout a WORD); [by apply (ho_links m0 Hok0 a x)|done].
Qed.

Lemma vl_arena_reset_spec B m impl l rs m0 : arena_ok B m impl l rs -> heap_ok m0 -> mappings m0 = B ->
  allocator_part m = allocator_part m0 ->
  exists m', vl_arena_reset (Some (Some impl)) m = Some (Some (Some (mk_arena (block_size impl) NULL)), m') /\
    arena_rep (mappings m') m' (mk_arena (block_size impl) NULL) [] /\ B ⊆ mappings m' ⊆ mappings m /\
    allocator_part m' = allocator_part m0 /\ ((forall n b k, munmap n b k = true) -> mappings m' = B).
Proof.
  intros Ha Hok0 EB Hpart. pose proof (ao_heap _ _ _ _ _ Ha) as Hok. unfold vl_arena_reset. rewrite bind_run. unfold gets at 1, vl_memory_is_owner.
  rewrite (ho_init m Hok). cbn [negb]. rewrite bind_run. unfold gets.
  destruct (reset_from_spec (block_fuel m) m (blocks impl) l Hok (ao_chain _ _ _ _ _ Ha) (ao_nodup _ _ _ _ _ Ha))
    as (m' & Hr & Hok' & Hps & Hsub & Hout & Hin).
  - intros b ab Hb Hab. split; [by destruct (ao_block _ _ _ _ _ Ha b ab Hb Hab)|exact (block_outside B m impl l rs m0 b ab Ha Hok0 EB Hpart Hb Hab)].
  - by eapply chain_blocks_fuel.
  - rewrite (bind_Some _ _ _ _ _ Hr). exists m'. split; [done|]. split; [|split; [split; [|done]|split; [congruence|]]].
    + exists []. split; try done; [cbn; replace (page_size m') with (page_size m) by (unfold allocator_part in Hps; by injection Hps);
        by apply (ao_size _ _ _ _ _ Ha)|apply NoDup_nil_2|..];
        intros; exfalso; by eapply not_elem_of_nil.
    + apply map_subseteq_spec. intros b k Hb. destruct (decide (b ∈ l)) as [Hl|Hl].
      * by rewrite (ao_own _ _ _ _ _ Ha b Hl) in Hb.
      * by rewrite Hout, (ao_rest _ _ _ _ _ Ha b Hl).
    + intros Hun. apply map_eq. intros b. destruct (decide (b ∈ l)) as [Hl|Hl].
      * by rewrite Hin, (ao_own _ _ _ _ _ Ha b Hl).
      * by rewrite Hout, (ao_rest _ _ _ _ _ Ha b Hl).
Qed.

(** A sequence of requests, each a size and an alignment. *)
Fixpoint arena_run (reqs : list (Z * Z)) (arena : option vl_arena) : M (list Z * option vl_arena) :=
  match reqs with
  | [] => mret ([], arena)
  | (size, alignment) :: reqs =>
      r ← vl_arena_alloc arena size alignment;
      rest ← arena_run reqs r.2;
      mret (r.1 :: rest.1, rest.2)
  end.

(** The ranges the answers stand for, newest first. *)
Fixpoint ranges (reqs : list (Z * Z)) (ps : list Z) : list (Z * Z) :=
  match reqs, ps with
  | (size, _) :: reqs, p :: ps => ranges reqs ps ++ (if p =? NULL then [] else [(p, size)])
  | _, _ => []
  end.

Lemma arena_run_spec B reqs : forall m impl rs, arena_rep B m impl rs -> Forall (fun r => word r.1 /\ word r.2) reqs ->
  exists ps impl' m', arena_run reqs (Some (Some impl)) m = Some ((ps, Some (Some impl')), m') /\
    arena_frame m m' /\ arena_rep B m' impl' (ranges reqs ps ++ rs) /\
    Forall2 (fun r p => p = NULL \/ 0 < r.1 /\ p mod r.2 = 0) reqs ps.
Proof.
  induction reqs as [|[size al] reqs IH]; intros m impl rs Hrep Hw.
  { eexists _, _, _. split; [done|]. split; [done|]. split; [done|]. constructor. }
  apply list.Forall_cons in Hw as [[Hw1 Hw2] Hw]. cbn in Hw1, Hw2. cbn [arena_run].
  destruct (vl_arena_alloc_spec B m impl rs size al Hrep Hw1 Hw2) as (p & impl1 & m1 & Hr & Hfr & Hcase).
  rewrite (bind_Some _ _ _ _ _ Hr). cbn [fst snd].
  set (rs1 := (if p =? NULL then [] else [(p, size)]) ++ rs).
  assert (Hrep1 : arena_rep B m1 impl1 rs1 /\ (p = NULL \/ 0 < size /\ p mod al = 0)).
  { unfold rs1. destruct Hcase as [(-> & -> & Hc & _)|(Hp & Hs & Ha & Hc)].
    - split; [done|by left].
    - destruct (Z.eqb_spec p NULL); [done|]. split; [done|by right]. }
  destruct Hrep1 as [Hrep1 Hans]. destruct (IH m1 impl1 rs1 Hrep1 Hw) as (ps & impl2 & m2 & Hr2 & Hfr2 & Hrep2 & Hall).
  rewrite (bind_Some _ _ _ _ _ Hr2). eexists _, _, _. split; [done|]. split; [by eapply arena_frame_trans|].
  split; [|by constructor]. cbn [ranges fst]. by rewrite <- app_assoc.
Qed.

Lemma arena_rep_mapped B m impl rs r : arena_rep B m impl rs -> r ∈ rs -> 0 < r.2 /\ mapped m r.1 r.2.
Proof.
  intros [l Ha] Hr. destruct (ao_in _ _ _ _ _ Ha r Hr) as (b & ab & Hb & Hab & Hpos & Hlo & Hhi).
  destruct (ao_block _ _ _ _ _ Ha b ab Hb Hab) as [B1 B2 B3]. split; [done|]. exists b, (ab_mapping_size ab).
  pose proof page_bounds as [Hpb _]. rewrite <- (ho_page m (ao_heap _ _ _ _ _ Ha)) in Hpb. split; [done|]. lia.
Qed.

(** C32: From an arena initialised over any well-formed memory, every sequence of
    requests is answered: each answer is NULL or an address aligned as asked, the
    ranges handed out are mapped and pairwise disjoint, and no mapping and no
    data of the general allocator is touched, whose contract still holds.  A further
    request is denied only for a zero size, an alignment that is no power of two, a
    size that overflows or a mapping the system refuses; and a reset keeps the
    mappings of others and the contract of the allocator, and gives back every
    mapping the arena made when [munmap] works. *)
Theorem arena_blocks_disjoint m live calloc bsize impl m0 reqs : heap_ok m -> word bsize ->
  vl_arena_init calloc (Some None) bsize m = Some ((VL_OK, Some (Some impl)), m0) ->
  Forall (fun r => word r.1 /\ word r.2) reqs ->
  exists ps impl' m', arena_run reqs (Some (Some impl)) m0 = Some ((ps, Some (Some impl')), m') /\
    arena_frame m m' /\ (mem_rep m live -> mem_rep m' live) /\
    Forall2 (fun r p => p = NULL \/ 0 < r.1 /\ p mod r.2 = 0) reqs ps /\
    (forall r, r ∈ ranges reqs ps -> mapped m' r.1 r.2) /\
    (forall i j x y, ranges reqs ps !! i = Some x -> ranges reqs ps !! j = Some y -> i <> j ->
      disjoint_range x.1 x.2 y.1 y.2) /\
    (forall size alignment, word size -> word alignment -> exists p impl'' m'',
      vl_arena_alloc (Some (Some impl')) size alignment m' = Some ((p, Some (Some impl'')), m'') /\
      (p = NULL -> arena_denied m' impl' size alignment)) /\
    (exists impl'' m'', vl_arena_reset (Some (Some impl')) m' = Some (Some (Some impl''), m'') /\
      mappings m ⊆ mappings m'' ⊆ mappings m' /\ (mem_rep m live -> mem_rep m'' live) /\
      ((forall n b k, munmap n b k = true) -> mappings m'' = mappings m)).
Proof.
  intros Hok Hw Hinit Hreqs. destruct (vl_arena_init_spec m bsize impl m0 calloc Hok Hw Hinit) as [-> Hrep].
  destruct (arena_run_spec _ reqs m impl [] Hrep Hreqs) as (ps & impl' & m' & Hr & Hfr & Hrep' & Hall).
  rewrite app_nil_r in Hrep'. exists ps, impl', m'. split; [done|]. split; [done|].
  destruct Hfr as (Hpart & _ & Hsub). pose proof Hrep' as [l Ha].
  split; [intros Hm; exact (mem_rep_frame m m' live Hm (ao_heap _ _ _ _ _ Ha) Hpart Hsub)|]. split; [done|].
  split; [intros r Hr'; by eapply arena_rep_mapped|]. split; [exact (ao_apart _ _ _ _ _ Ha)|]. split.
  - intros size al Hs Hal. destruct (vl_arena_alloc_spec _ _ _ _ size al Hrep' Hs Hal) as (p & i2 & m2 & Hr2 & _ & Hcase).
    exists p, i2, m2. split; [done|]. by destruct Hcase as [(_ & _ & _ & Hd)|[Hp _]].
  - destruct (vl_arena_reset_spec _ _ _ _ _ m Ha Hok eq_refl Hpart) as (m2 & Hr2 & [l2 Ha2] & [Hs1 Hs2] & Hp2 & Hall2).
    eexists _, m2. split; [done|]. split; [done|]. split; [|done].
    intros Hm. exact (mem_rep_frame m m2 live Hm (ao_heap _ _ _ _ _ Ha2) Hp2 Hs1).
Qed.
End use.

(** ** Witness: an arena beside a block of the general allocator, on [bump_os] *)

Definition arena_requests : list (Z * Z) := [(100, 8); (1, 4096); (70000, 64); (0, 8); (5, 3)].

Lemma large_block_heap_ok : @heap_ok bump_os large_block.1.
Proof. destruct (@reach_rep bump_os bump_os_laws _ _ large_block_reach) as [_ [g Hg]]. exact (iv_heap _ _ _ Hg). Qed.

Lemma large_block_arena : @vl_arena_init bump_os true (Some None) 0 large_block.1 =
  Some ((VL_OK, Some (Some (mk_arena 65536 NULL))), large_block.1).
Proof. vm_compute. reflexivity. Qed.

Lemma arena_requests_words : Forall (fun r => word r.1 /\ word r.2) arena_requests.
Proof. unfold arena_requests. repeat constructor; cbn; word_lia. Qed.

Lemma arena_blocks_disjoint_witness : exists ps impl' m',
  @arena_run bump_os arena_requests (Some (Some (mk_arena 65536 NULL))) large_block.1 = Some ((ps, Some (Some impl')), m').
Proof.
  destruct (@arena_blocks_disjoint bump_os bump_os_laws large_block.1 large_block.2 true 0 (mk_arena 65536 NULL) large_block.1 arena_requests
    large_block_heap_ok ltac:(word_lia) large_block_arena arena_requests_words) as (ps & impl' & m' & Hr & _).
  exists ps, impl', m'. exact Hr.
Defined.

(** Three ranges, in two blocks; the two malformed requests get NULL. *)
Example arena_run_example : fst <$> (fst <$> @arena_run bump_os arena_requests (Some (Some (mk_arena 65536 NULL))) large_block.1) = Some [110592; 114688; 180224; 0; 0].
Proof. vm_compute. reflexivity. Qed.
