(* ===== verification/ObjectPool.v ===== *)
(** * Object pools (src/memory/object_pool.c)

    A pool keeps a list of the objects it has allocated, newest first, each with a flag
    that says whether it is lent out; an object stays in the list until the pool is
    destroyed.  The items come from [calloc], whose outcome is an argument; nothing
    else can reach them, so that the list itself is the model of the linked items.
    The objects are blocks of the general allocator ([Valloc]). *)

From S2P Require Import Prelude SizeClass PageHeap Span Valloc VallocLists VallocInv VallocSteps VallocLarge VallocProps VallocRun.
From stdpp Require Import options.

Open Scope Z_scope.

Record vl_pool_item := mk_item { pi_object : Z; pi_active : bool }.
Record vl_pool_impl := mk_pool { object_size : Z; items : list vl_pool_item }.

(** A [vl_pool_t]: the value of its [impl] pointer. *)
Notation vl_pool := (option vl_pool_impl).

Definition set_items (l : list vl_pool_item) (impl : vl_pool_impl) : vl_pool_impl := mk_pool (object_size impl) l.

(** The loop of [vl_pool_alloc]: the first item that is not active becomes active. *)
Fixpoint take_idle (l : list vl_pool_item) : option (Z * list vl_pool_item) :=
  match l with
  | [] => None
  | item :: rest =>
      if negb (pi_active item) then Some (pi_object item, mk_item (pi_object item) true :: rest)
      else match take_idle rest with
           | Some (p, rest) => Some (p, item :: rest)
           | None => None
           end
  end.

(** The loop of [vl_pool_free]; [vl_debug_abort] does nothing in the release build. *)
Fixpoint give_object (ptr : Z) (l : list vl_pool_item) : vl_status * list vl_pool_item :=
  match l with
  | [] => (VL_ERROR_INVALID_ARGUMENT, [])
  | item :: rest =>
      if pi_object item =? ptr then
        if negb (pi_active item) then (VL_ERROR_INVALID_STATE, item :: rest)
        else (VL_OK, mk_item (pi_object item) false :: rest)
      else let '(status, rest) := give_object ptr rest in (status, item :: rest)
  end.

Section pool.
Context `{os_memory}.

(** [None] is a NULL [pool] argument; the result carries [pool->impl] on exit. *)
Definition vl_pool_init (calloc : bool) (pool : option vl_pool) (osize : Z) : M (vl_status * option vl_pool) :=
  match pool with
  | None | Some (Some _) => mret (VL_ERROR_INVALID_ARGUMENT, pool)
  | Some None =>
      if osize =? 0 then mret (VL_ERROR_INVALID_ARGUMENT, pool) else
      status ← vl_memory_ensure_initialized;
      if decide (status <> VL_OK) then mret (VL_ERROR_INVALID_STATE, pool) else
      if negb calloc then mret (VL_ERROR_OUT_OF_MEMORY, pool) else
      mret (VL_OK, Some (Some (mk_pool osize [])))
  end.

(** [me] is the P of the calling thread. *)
Definition vl_pool_alloc (me : Z) (calloc : bool) (pool : option vl_pool) : M (Z * option vl_pool) :=
  match pool with
  | None | Some None => mret (NULL, pool)
  | Some (Some impl) =>
      status ← vl_memory_ensure_initialized;
      if decide (status <> VL_OK) then mret (NULL, pool) else
      match take_idle (items impl) with
      | Some (p, l) => mret (p, Some (Some (set_items l impl)))
      | None =>
          if negb calloc then mret (NULL, pool) else
          p ← vl_malloc me (object_size impl);
          if p =? NULL then mret (NULL, pool) else
          mret (p, Some (Some (set_items (mk_item p true :: items impl) impl)))
      end
  end.

Definition vl_pool_free (pool : option vl_pool) (ptr : Z) : M (vl_status * option vl_pool) :=
  match pool with
  | None => mret (VL_ERROR_INVALID_ARGUMENT, pool)
  | Some impl =>
      if ptr =? NULL then mret (VL_ERROR_INVALID_ARGUMENT, pool) else
      owner ← gets vl_memory_is_owner;
      if negb owner then mret (VL_ERROR_INVALID_STATE, pool) else
      match impl with
      | None => mret (VL_ERROR_INVALID_STATE, pool)
      | Some impl =>
          let '(status, l) := give_object ptr (items impl) in
          mret (status, Some (Some (set_items l impl)))
      end
  end.

Definition vl_pool_object_size (pool : option vl_pool) : Z :=
  match pool with Some (Some impl) => object_size impl | _ => 0 end.

Fixpoint free_items (me : Z) (l : list vl_pool_item) : M unit :=
  match l with
  | [] => mret tt
  | item :: rest => _ ← vl_free me (pi_object item); free_items me rest
  end.

Definition vl_pool_destroy (me : Z) (pool : option vl_pool) : M (option vl_pool) :=
  match pool with
  | None => mret pool
  | Some impl =>
      owner ← gets vl_memory_is_owner;
      if negb owner then mret pool else
      match impl with
      | None => mret pool
      | Some impl => _ ← free_items me (items impl); mret (Some None)
      end
  end.

End pool.

(** ** The abstract pool: the objects lent out and the objects kept for reuse *)

Record apool := mk_apool { lent : gset Z; idle : gset Z }.

Definition objects (l : list vl_pool_item) : list Z := pi_object <$> l.
Definition with_flag (b : bool) (l : list vl_pool_item) : list Z :=
  pi_object <$> filter (fun item => pi_active item = b) l.
Definition abstract (impl : vl_pool_impl) : apool :=
  mk_apool (list_to_set (with_flag true (items impl))) (list_to_set (with_flag false (items impl))).

Inductive pool_op :=
  | PAlloc (me : Z) (calloc : bool)
  | PFree (ptr : Z)
  | PClient (op : alloc_op).

Inductive pool_answer := Address (p : Z) | Status (s : vl_status) | Nothing.

Section spec.
Context `{os_memory}.

(** What a pool of objects of [size] bytes promises, in the memory [m] whose blocks in
    use are [live]. *)
Inductive apool_step (m : vl_memory) (live : gmap Z Z) (size : Z) : pool_op -> apool -> pool_answer -> apool -> Prop :=
  | ap_reuse me calloc a p : p ∈ idle a ->
      apool_step m live size (PAlloc me calloc) a (Address p) (mk_apool ({[p]} ∪ lent a) (idle a ∖ {[p]}))
  | ap_grow me calloc a p : idle a = ∅ -> p <> NULL -> p ∉ dom live ->
      apool_step m live size (PAlloc me calloc) a (Address p) (mk_apool ({[p]} ∪ lent a) ∅)
  | ap_out me calloc a : idle a = ∅ -> calloc = false \/ no_room m size ->
      apool_step m live size (PAlloc me calloc) a (Address NULL) a
  | ap_return p a : p ∈ lent a ->
      apool_step m live size (PFree p) a (Status VL_OK) (mk_apool (lent a ∖ {[p]}) ({[p]} ∪ idle a))
  | ap_twice p a : p ∈ idle a -> apool_step m live size (PFree p) a (Status VL_ERROR_INVALID_STATE) a
  | ap_foreign p a : p ∉ lent a -> p ∉ idle a -> apool_step m live size (PFree p) a (Status VL_ERROR_INVALID_ARGUMENT) a
  | ap_client op a : apool_step m live size (PClient op) a Nothing a.

(** The client uses the general allocator too, but does not pass the pool's objects to
    it, as memory.h asks; it may write to the objects lent to it. *)
Definition pool_allowed (live : gmap Z Z) (impl : vl_pool_impl) (op : pool_op) : Prop :=
  match op with
  | PAlloc me _ => 0 <= me
  | PFree _ => True
  | PClient op => allowed live op /\
      match op with
      | AFree _ u | ARealloc _ u _ => u ∉ objects (items impl)
      | AWrite u _ _ => u ∉ idle (abstract impl)
      | _ => True
      end
  end.

Definition pool_exec (op : pool_op) (m : vl_memory) (live : gmap Z Z) (impl : vl_pool_impl)
    : option (pool_answer * vl_memory * gmap Z Z * option vl_pool) :=
  match op with
  | PAlloc me calloc =>
      r ← vl_pool_alloc me calloc (Some (Some impl)) m;
      let p := r.1.1 in
      Some (Address p, r.2, (if (p =? NULL) || bool_decide (p ∈ objects (items impl)) then live
                             else <[p := object_size impl]> live), r.1.2)
  | PFree ptr => r ← vl_pool_free (Some (Some impl)) ptr m; Some (Status r.1.1, r.2, live, r.1.2)
  | PClient op => r ← alloc_exec op m live; Some (Nothing, r.1, r.2, Some (Some impl))
  end.

(** [live] are the blocks in use, the pool's objects among them. *)
Inductive pool_reach : vl_memory -> gmap Z Z -> vl_pool_impl -> Prop :=
  | pr_init m live calloc osize impl m' : alloc_reach m live -> word osize ->
      vl_pool_init calloc (Some None) osize m = Some ((VL_OK, Some (Some impl)), m') -> pool_reach m' live impl
  | pr_step m live impl op ans m' live' impl' : pool_reach m live impl -> pool_allowed live impl op ->
      pool_exec op m live impl = Some (ans, m', live', Some (Some impl')) -> pool_reach m' live' impl'.
End spec.

(** ** The lists of items *)

Lemma elem_of_with_flag b l x : x ∈ with_flag b l <-> mk_item x b ∈ l.
Proof.
  unfold with_flag. rewrite list_elem_of_fmap. split.
  - intros ([y f] & -> & [Hf Hy]%list_elem_of_filter). cbn in *. by subst.
  - intros Hx. exists (mk_item x b). split; [done|]. by apply list_elem_of_filter.
Qed.

Lemma elem_of_objects l x : x ∈ objects l <-> mk_item x true ∈ l \/ mk_item x false ∈ l.
Proof.
  unfold objects. rewrite list_elem_of_fmap. split.
  - intros ([y [|]] & -> & Hy); auto.
  - intros [Hx|Hx]; eexists; (split; [|exact Hx]); done.
Qed.

(** Setting the flag of the object [p] to [b], all else unchanged. *)
Definition flag_set (p : Z) (b : bool) (l l' : list vl_pool_item) : Prop :=
  mk_item p (negb b) ∈ l /\ objects l' = objects l /\
  forall x f, mk_item x f ∈ l' <-> (x = p /\ f = b) \/ (x <> p /\ mk_item x f ∈ l).

Lemma flag_set_here p b rest : p ∉ objects rest -> flag_set p b (mk_item p (negb b) :: rest) (mk_item p b :: rest).
Proof.
  intros Hp. rewrite elem_of_objects in Hp. split; [left|]. split; [done|]. intros x f. rewrite !elem_of_cons. split.
  - intros [[= -> ->]|Hx]; [by left|]. right. split; [|by right]. intros ->. destruct f; tauto.
  - intros [[-> ->]|[Hne [[= -> _]|Hx]]]; [by left|done|by right].
Qed.

Lemma flag_set_later p b y g rest rest' : y <> p -> flag_set p b rest rest' ->
  flag_set p b (mk_item y g :: rest) (mk_item y g :: rest').
Proof.
  intros Hy (H1 & H2 & H3). split; [by right|]. split; [by cbn; f_equal|]. intros x f. rewrite !elem_of_cons, H3. split.
  - intros [[= -> ->]|[?|[? ?]]]; [right; split; [done|by left]|by left|right; split; [done|by right]].
  - intros [?|[? [?|?]]]; [by right; left|by left|by right; right].
Qed.

Lemma take_idle_spec l : NoDup (objects l) ->
  match take_idle l with
  | Some (p, l') => flag_set p true l l'
  | None => forall x, mk_item x false ∉ l
  end.
Proof.
  induction l as [|[y g] l IH]; cbn; intros Hnd; [intros x; apply not_elem_of_nil|].
  apply list.NoDup_cons in Hnd as [Hy Hnd]. specialize (IH Hnd). destruct g; cbn; [|by apply flag_set_here].
  destruct (take_idle l) as [[p l']|].
  - apply flag_set_later; [|done]. intros ->. apply Hy, elem_of_objects. right. apply IH.
  - intros x [?|Hx]%elem_of_cons; [done|by apply (IH x)].
Qed.

Lemma give_object_spec ptr l : NoDup (objects l) ->
  match give_object ptr l with
  | (VL_OK, l') => flag_set ptr false l l'
  | (VL_ERROR_INVALID_STATE, l') => l' = l /\ mk_item ptr false ∈ l
  | (VL_ERROR_INVALID_ARGUMENT, l') => l' = l /\ ptr ∉ objects l
  | _ => False
  end.
Proof.
  induction l as [|[y g] l IH]; cbn; intros Hnd; [split; [done|apply not_elem_of_nil]|].
  apply list.NoDup_cons in Hnd as [Hy Hnd]. specialize (IH Hnd).
  destruct (Z.eqb_spec y ptr) as [->|Hne].
  { destruct g; cbn; [by apply flag_set_here|]. split; [done|left]. }
  destruct (give_object ptr l) as [s l']. destruct s; try done.
  - by apply flag_set_later.
  - destruct IH as [-> IH]. split; [done|]. by rewrite not_elem_of_cons.
  - destruct IH as [-> IH]. split; [done|by right].
Qed.

Lemma flag_set_abstract size p b l l' : flag_set p b l l' ->
  let a := abstract (mk_pool size l) in
  abstract (mk_pool size l') =
    if b then mk_apool ({[p]} ∪ lent a) (idle a ∖ {[p]}) else mk_apool (lent a ∖ {[p]}) ({[p]} ∪ idle a).
Proof.
  intros (_ & _ & H3). cbv zeta. unfold abstract. cbn [items lent idle]. destruct b; f_equal; apply set_eq; intros x;
    rewrite ?elem_of_union, ?elem_of_difference, ?elem_of_singleton, !elem_of_list_to_set, !elem_of_with_flag, H3;
    destruct (decide (x = p)); naive_solver.
Qed.

Lemma grow_abstract size p l : abstract (mk_pool size (mk_item p true :: l)) =
  mk_apool ({[p]} ∪ lent (abstract (mk_pool size l))) (idle (abstract (mk_pool size l))).
Proof. done. Qed.

Lemma elem_of_idle impl x : x ∈ idle (abstract impl) <-> mk_item x false ∈ items impl.
Proof. unfold abstract. cbn [idle]. by rewrite elem_of_list_to_set, elem_of_with_flag. Qed.

Lemma elem_of_lent impl x : x ∈ lent (abstract impl) <-> mk_item x true ∈ items impl.
Proof. unfold abstract. cbn [lent]. by rewrite elem_of_list_to_set, elem_of_with_flag. Qed.

(** An object is in the list once, so it is not both lent and idle. *)
Lemma flags_exclusive l x : NoDup (objects l) -> mk_item x true ∈ l -> mk_item x false ∈ l -> False.
Proof.
  unfold objects. intros Hnd [i Hi]%list_elem_of_lookup [j Hj]%list_elem_of_lookup.
  assert (i = j) as ->; [|congruence].
  apply (NoDup_lookup _ i j x Hnd); rewrite list_lookup_fmap; [by rewrite Hi|by rewrite Hj].
Qed.

(** ** The invariant *)

Section inv.
Context `{os_memory}.

Record pool_ok (m : vl_memory) (live : gmap Z Z) (impl : vl_pool_impl) : Prop := {
  po_rep : mem_rep m live;
  po_size : 0 < object_size impl /\ word (object_size impl);
  po_nodup : NoDup (objects (items impl));
  po_live : forall p, p ∈ objects (items impl) -> live !! p = Some (object_size impl) }.

#[local] Set Default Proof Using "Type*".
Context `{!os_memory_laws}.

Lemma rep_not_null m live : mem_rep m live -> live !! NULL = None.
Proof.
  intros Hrep. destruct (live !! NULL) as [r|] eqn:E; [exfalso|done].
  destruct Hrep as [_ [g Hinv]]. pose proof E as (hd & Hb & _)%(li_live _ _ _ (iv_live _ _ _ Hinv)).
  destruct (block_range _ _ _ _ _ Hinv Hb) as (b & k & Hbk & Hlo & _). pose proof (ho_maps m (iv_heap _ _ _ Hinv) _ _ Hbk).
  unfold NULL, HEADER in *. lia.
Qed.

(** A block that is not touched keeps its size. *)
Lemma rep_same_size m live m' live' w r r' : mem_rep m live -> mem_rep m' live' -> same_block m m' w ->
  live !! w = Some r -> live' !! w = Some r' -> r' = r.
Proof.
  intros H1 H2 (hd & hd' & E1 & E2 & _ & Eq & _) Hw Hw'.
  destruct (rep_placed m live w r H1 Hw) as (x & Ex & Rx & _), (rep_placed m' live' w r' H2 Hw') as (y & Ey & Ry & _). congruence.
Qed.

Lemma client_keeps m live op : mem_rep m live -> allowed live op -> exists m' live',
  alloc_exec op m live = Some (m', live') /\ mem_rep m' live' /\
  forall w r, live !! w = Some r -> (match op with AFree _ u | ARealloc _ u _ => w <> u | _ => True end) -> live' !! w = Some r.
Proof.
  intros Hrep Hop. destruct (alloc_exec_rep m live op Hrep Hop) as (m' & live' & Hr & Hrep'). exists m', live'.
  split; [done|]. split; [done|]. intros w r Hw Hne.
  destruct op as [me size|me u|me count size|me u size|u off value|index]; cbn in Hop, Hr, Hne.
  - destruct Hop as [Hme Hs]. destruct (rep_malloc m live me size Hrep Hme Hs) as (u & m1 & E & _ & Hc). rewrite E in Hr. cbn in Hr.
    injection Hr as <- <-. destruct (Z.eqb_spec u NULL); [done|]. destruct Hc as [[-> _]|(_ & Hu & _)]; [done|].
    rewrite lookup_insert_ne; congruence.
  - destruct (vl_free me u m) as [[? ?]|]; [|done]. cbn in Hr. injection Hr as <- <-. by rewrite lookup_delete_ne.
  - destruct Hop as (Hme & Hc1 & Hs). destruct (rep_calloc m live me count size Hrep Hme Hc1 Hs) as (u & m1 & E & _ & Hc). rewrite E in Hr. cbn in Hr.
    injection Hr as <- <-. destruct (Z.eqb_spec u NULL); [done|]. destruct Hc as [[-> _]|(_ & Hu & _)]; [done|].
    rewrite lookup_insert_ne; congruence.
  - destruct Hop as (Hme & Hs & Hpos & [ru Hu]%elem_of_dom).
    destruct (rep_realloc m live me u ru size Hrep Hme Hpos Hs Hu) as (v & m1 & E & Hk & _). rewrite E in Hr. cbn in Hr.
    injection Hr as <- Hl. destruct (live' !! w) as [r'|] eqn:Ew.
    + f_equal. eapply (rep_same_size m live m1 live'); try done. apply Hk. apply elem_of_dom. exists r. by rewrite lookup_delete_ne.
    + exfalso. revert Ew. rewrite <- Hl. destruct (v =? NULL); [congruence|]. rewrite lookup_insert, lookup_delete_ne by done.
      case_decide; congruence.
  - by injection Hr as <- <-.
  - destruct (vl_memory_get_class_stats index m) as [[? ?]|]; [|done]. cbn in Hr. by injection Hr as <- <-.
Qed.

Lemma ensure_run m live : mem_rep m live -> vl_memory_ensure_initialized m = Some (VL_OK, m).
Proof.
  intros [_ [g Hinv]]. unfold vl_memory_ensure_initialized, vl_memory_is_owner. by rewrite (ho_init m (iv_heap _ _ _ Hinv)).
Qed.

(** What a call leaves: the answer fits the abstract pool, the invariant holds and no
    block in use changes. *)
Definition step_ok (op : pool_op) (m : vl_memory) (live : gmap Z Z) (impl : vl_pool_impl) : Prop :=
  exists ans m' live' impl', pool_exec op m live impl = Some (ans, m', live', Some (Some impl')) /\
    apool_step m live (object_size impl) op (abstract impl) ans (abstract impl') /\
    pool_ok m' live' impl' /\ match op with PClient _ => True | _ => keeps live m m' end.

Lemma alloc_step m live impl me calloc : pool_ok m live impl -> 0 <= me -> step_ok (PAlloc me calloc) m live impl.
Proof.
  intros [Hrep [Hs Hw] Hnd Hl] Hme. unfold step_ok, pool_exec, vl_pool_alloc.
  rewrite (bind_Some _ _ _ _ _ (ensure_run m live Hrep)). rewrite decide_False by (intros E; by destruct E).
  assert (Hrefl : keeps live m m) by (destruct Hrep as [_ [g Hg]]; by eapply keeps_refl).
  destruct impl as [size l]. cbn [items object_size] in *. pose proof (take_idle_spec l Hnd) as Ht.
  destruct (take_idle l) as [[p l']|].
  - assert (Hp : p ∈ objects l) by (apply elem_of_objects; right; apply Ht).
    rewrite ret_run. cbn [fst snd mbind option_bind]. eexists _, _, _, _. split; [done|]. rewrite bool_decide_true, orb_true_r by done.
    unfold set_items. cbn [object_size]. rewrite (flag_set_abstract size p true l l' Ht). split; [|split; [|done]].
    + apply ap_reuse, elem_of_idle. apply Ht.
    + destruct Ht as (_ & Ho & _). by split; cbn; try setoid_rewrite Ho.
  - assert (Hidle : idle (abstract (mk_pool size l)) = ∅).
    { apply set_eq. intros x. rewrite elem_of_idle. cbn. split; [intros Hx; by apply Ht in Hx|set_solver]. }
    destruct calloc; cbn [negb].
    2: { eexists _, _, _, _. split; [done|]. split; [by apply ap_out; [|left]|]. split; [by split|done]. }
    destruct (rep_malloc m live me size Hrep Hme Hw) as (p & m' & Hr & Hk & Hc). rewrite Z.max_r in Hc by lia.
    rewrite bind_run, Hr. destruct Hc as [(-> & Hrep' & Hno)|(Hp & Hlp & Hrep')].
    + destruct (Z.eqb_spec NULL NULL); [|done]. eexists _, _, _, _. split; [done|]. cbn [orb].
      split; [by apply ap_out; [|right]|]. split; [by split|done].
    + destruct (Z.eqb_spec p NULL); [done|]. rewrite ret_run. cbn [fst snd mbind option_bind].
      assert (Hpo : p ∉ objects l) by (intros Hp'; rewrite (Hl p Hp') in Hlp; done).
      eexists _, _, _, _. split; [done|]. cbn [items]. rewrite bool_decide_false by done.
      destruct (Z.eqb_spec p NULL); [done|]. cbn [orb]. unfold set_items. cbn [object_size]. rewrite grow_abstract, Hidle. split; [|split; [|done]].
      * apply ap_grow; [done|done|by apply not_elem_of_dom].
      * split; cbn; try done; [by apply list.NoDup_cons|]. intros x [->|Hx]%elem_of_cons; [by rewrite lookup_insert_eq|].
        rewrite lookup_insert_ne; [by apply Hl|]. by intros ->.
Qed.

Lemma free_step m live impl ptr : pool_ok m live impl -> step_ok (PFree ptr) m live impl.
Proof.
  intros Hpo. pose proof Hpo as [Hrep Hs Hnd Hl]. unfold step_ok, pool_exec, vl_pool_free.
  assert (Hrefl : keeps live m m) by (destruct Hrep as [_ [g Hg]]; by eapply keeps_refl).
  assert (Hout : forall ptr, ptr ∉ objects (items impl) ->
    apool_step m live (object_size impl) (PFree ptr) (abstract impl) (Status VL_ERROR_INVALID_ARGUMENT) (abstract impl)).
  { intros q Hq. rewrite elem_of_objects in Hq. apply ap_foreign; [rewrite elem_of_lent|rewrite elem_of_idle]; tauto. }
  destruct (Z.eqb_spec ptr NULL) as [->|Hptr].
  { eexists _, _, _, _. split; [done|]. split; [|done]. apply Hout. intros Hin%Hl. by rewrite (rep_not_null m live Hrep) in Hin. }
  rewrite bind_run. unfold gets, vl_memory_is_owner. destruct Hrep as [Hcb [g Hinv]]. rewrite (ho_init m (iv_heap _ _ _ Hinv)). cbn [negb].
  destruct impl as [size l]. cbn [items object_size] in *. pose proof (give_object_spec ptr l Hnd) as Hg.
  destruct (give_object ptr l) as [s l']. rewrite ret_run. cbn [fst snd mbind option_bind].
  eexists _, _, _, _. split; [done|]. unfold set_items. cbn [object_size].
  destruct s; try done.
  - rewrite (flag_set_abstract size ptr false l l' Hg). split; [|split; [|done]].
    + apply ap_return, elem_of_lent, Hg.
    + destruct Hg as (_ & Ho & _). split; cbn; try setoid_rewrite Ho; try done. split; [done|by exists g].
  - destruct Hg as [-> Hg]. split; [by apply Hout|done].
  - destruct Hg as [-> Hg]. split; [|done]. apply ap_twice. by apply elem_of_idle.
Qed.

Lemma client_step m live impl op : pool_ok m live impl -> pool_allowed live impl (PClient op) -> step_ok (PClient op) m live impl.
Proof.
  intros [Hrep Hs Hnd Hl] [Hop Hnot]. destruct (client_keeps m live op Hrep Hop) as (m' & live' & Hr & Hrep' & Hk).
  unfold step_ok, pool_exec. rewrite Hr. eexists _, _, _, _. split; [done|]. split; [constructor|]. split; [|done].
  split; try done. intros p Hp. cbn. apply Hk; [by apply Hl|]. destruct op; try done; by intros ->.
Qed.

Lemma pool_step m live impl op : pool_ok m live impl -> pool_allowed live impl op -> step_ok op m live impl.
Proof.
  intros Hpo Hop. destruct op; [by apply alloc_step|by apply free_step|by apply client_step].
Qed.

Lemma pool_reach_ok m live impl : pool_reach m live impl -> pool_ok m live impl.
Proof.
  induction 1 as [m live calloc osize impl m' Hr Hw Hi|m live impl op ans m' live' impl' _ IH Hop Hr].
  - apply reach_rep in Hr. unfold vl_pool_init in Hi. destruct (Z.eqb_spec osize 0); [done|].
    rewrite (bind_Some _ _ _ _ _ (ensure_run m live Hr)) in Hi. rewrite decide_False in Hi by (intros E; by destruct E).
    destruct calloc; [|done]. cbn in Hi. injection Hi as <- <-. split; cbn; [done|split; [word_lia|done]|apply NoDup_nil_2|].
    intros p Hp. by apply not_elem_of_nil in Hp.
  - destruct (pool_step m live impl op IH Hop) as (a & m1 & l1 & i1 & Hr1 & _ & ? & _). rewrite Hr1 in Hr. by injection Hr as <- <- <- <-.
Qed.

(** ** Destruction *)

Lemma free_items_spec me l : forall m live size, mem_rep m live -> 0 <= me -> NoDup (objects l) ->
  (forall p, p ∈ objects l -> live !! p = Some size) ->
  let live' := filter (fun e => e.1 ∉ objects l) live in
  exists m', free_items me l m = Some (tt, m') /\ mem_rep m' live' /\ keeps live' m m'.
Proof.
  induction l as [|[p f] l IH]; intros m live size Hrep Hme Hnd Hl live'.
  - exists m. split; [done|]. assert (live' = live) as ->.
    { apply map_filter_id. intros u r _. apply not_elem_of_nil. }
    split; [done|]. destruct Hrep as [_ [g Hg]]. by eapply keeps_refl.
  - cbn in Hnd. apply list.NoDup_cons in Hnd as [Hp Hnd]. cbn [free_items pi_object].
    destruct (rep_free m live me p size Hrep Hme (Hl p ltac:(left))) as (m1 & Hr1 & Hrep1 & Hk1). rewrite (bind_Some _ _ _ _ _ Hr1).
    destruct (IH m1 (delete p live) size Hrep1 Hme Hnd) as (m2 & Hr2 & Hrep2 & Hk2).
    { intros q Hq. rewrite lookup_delete_ne; [apply Hl; by right|]. by intros ->. }
    assert (live' = filter (fun e => e.1 ∉ objects l) (delete p live)) as ->.
    { apply map_eq. intros u. apply option_eq. intros r. unfold live'. rewrite !map_lookup_filter_Some, lookup_delete_Some. cbn.
      rewrite not_elem_of_cons. naive_solver. }
    exists m2. split; [done|]. split; [done|]. eapply keeps_trans; [|exact Hk2]. eapply keeps_mono; [|exact Hk1].
    intros u. rewrite !elem_of_dom. intros [r Hu]. apply map_lookup_filter_Some in Hu as [Hu _]. by exists r.
Qed.
End inv.

(** ** The theorem *)

(** C33: An object pool is the abstract pool of lent and idle objects.  In every state a
    client reaches with the pool and the general allocator, each allowed call returns,
    and its answer is one the abstract pool allows: an idle object is reused before a
    new one is allocated, NULL means that there is no idle object and no memory, a
    lent object is taken back, an idle one given back again is
    [VL_ERROR_INVALID_STATE] and any other address [VL_ERROR_INVALID_ARGUMENT]; the
    pool's calls change no block in use.  No object is both lent and idle, every
    object is a block of the pool's size, no two share a byte, and destroying the pool
    frees exactly its objects. *)
Theorem pool_refines `{os_memory_laws} m live impl op : pool_reach m live impl -> pool_allowed live impl op ->
  (exists ans m' live' impl', pool_exec op m live impl = Some (ans, m', live', Some (Some impl')) /\
    apool_step m live (object_size impl) op (abstract impl) ans (abstract impl') /\
    match op with PClient _ => True | _ => keeps live m m' end) /\
  lent (abstract impl) ## idle (abstract impl) /\
  (forall p, p ∈ lent (abstract impl) ∪ idle (abstract impl) -> placed m p (object_size impl) /\
    forall q, q ∈ dom live -> q <> p -> apart m p q) /\
  (forall me, 0 <= me -> exists m', vl_pool_destroy me (Some (Some impl)) m = Some (Some None, m') /\
    let live' := filter (fun e => e.1 ∉ lent (abstract impl) ∪ idle (abstract impl)) live in
    mem_rep m' live' /\ keeps live' m m').
Proof.
  intros Hreach Hop. apply pool_reach_ok in Hreach as Hpo.
  assert (Hobj : forall p, p ∈ lent (abstract impl) ∪ idle (abstract impl) <-> p ∈ objects (items impl)).
  { intros p. by rewrite elem_of_union, elem_of_lent, elem_of_idle, elem_of_objects. }
  split; [|split; [|split]].
  - destruct (pool_step m live impl op Hpo Hop) as (ans & m' & live' & impl' & Hr & Hstep & _ & Hk). by exists ans, m', live', impl'.
  - intros p Hp Hq. rewrite elem_of_lent in Hp. rewrite elem_of_idle in Hq. by eapply flags_exclusive; [apply Hpo|..].
  - intros p Hp%Hobj. pose proof (po_live _ _ _ Hpo p Hp) as Hlp. split; [by apply (rep_placed m live), Hlp; apply Hpo|].
    intros q Hq Hne. apply (rep_apart m live); [apply Hpo|by apply elem_of_dom|done|done].
  - intros me Hme. destruct (free_items_spec me (items impl) m live (object_size impl) (po_rep _ _ _ Hpo) Hme (po_nodup _ _ _ Hpo)
      (po_live _ _ _ Hpo)) as (m' & Hr & Hrep & Hk).
    exists m'. split.
    + unfold vl_pool_destroy. rewrite bind_run. unfold gets, vl_memory_is_owner.
      destruct (po_rep _ _ _ Hpo) as [_ [g Hinv]]. rewrite (ho_init m (iv_heap _ _ _ Hinv)). cbn [negb].
      by rewrite (bind_Some _ _ _ _ _ Hr).
    + cbv zeta. assert (filter (fun e => e.1 ∉ lent (abstract impl) ∪ idle (abstract impl)) live =
        filter (fun e => e.1 ∉ objects (items impl)) live) as ->; [|done].
      apply map_filter_ext. intros u r _. cbn. by rewrite Hobj.
Qed.

(** ** Witness: a pool of large objects beside a block of the general allocator *)

Lemma pool_start_init : @vl_pool_init bump_os true (Some None) 50000 large_block.1 = Some ((VL_OK, Some (Some (mk_pool 50000 []))), large_block.1).
Proof. vm_compute. reflexivity. Qed.

Definition pool_one : vl_memory * gmap Z Z * vl_pool_impl :=
  match @pool_exec bump_os (PAlloc 0 true) large_block.1 large_block.2 (mk_pool 50000 []) with
  | Some (_, m, live, Some (Some impl)) => (m, live, impl)
  | _ => (memory_boot, ∅, mk_pool 0 [])
  end.

Lemma pool_one_reach : @pool_reach bump_os pool_one.1.1 pool_one.1.2 pool_one.2.
Proof.
  apply (pr_step large_block.1 large_block.2 (mk_pool 50000 []) (PAlloc 0 true) (Address 106576)).
  - apply (pr_init large_block.1 large_block.2 true 50000); [exact large_block_reach|word_lia|exact pool_start_init].
  - cbn. lia.
  - vm_compute. reflexivity.
Qed.

Lemma pool_refines_witness : exists ans m' live' impl',
  @pool_exec bump_os (PFree 106576) pool_one.1.1 pool_one.1.2 pool_one.2 = Some (ans, m', live', Some (Some impl')).
Proof.
  destruct (@pool_refines bump_os bump_os_laws _ _ _ (PFree 106576) pool_one_reach I) as ((ans & m' & live' & impl' & Hr & _) & _).
  exists ans, m', live', impl'. exact Hr.
Defined.

(** Allocate, give back, give back again, give back a foreign address, reuse. *)
Fixpoint pool_run (ops : list pool_op) (m : vl_memory) (live : gmap Z Z) (impl : vl_pool_impl) : list pool_answer :=
  match ops with
  | [] => []
  | op :: ops =>
      match @pool_exec bump_os op m live impl with
      | Some (ans, m', live', Some (Some impl')) => ans :: pool_run ops m' live' impl'
      | _ => []
      end
  end.

Example pool_run_example : pool_run [PAlloc 0 true; PFree 106576; PFree 106576; PFree 5; PAlloc 0 false; PAlloc 0 false]
    large_block.1 large_block.2 (mk_pool 50000 []) =
  [Address 106576; Status VL_OK; Status VL_ERROR_INVALID_STATE; Status VL_ERROR_INVALID_ARGUMENT; Address 106576; Address NULL].
Proof. vm_compute. reflexivity. Qed.
