(* ===== verification/Fiber.v ===== *)
(** * Fibers (src/fiber/fiber.c)

    A fiber scheduler belongs to one thread; at any moment the thread executes on the
    root stack or on the stack of one fiber ([on_cpu]).  The code of a fiber is the
    environment: it calls the functions below, in any order, and returns from [fn].
    [vl_context_switch] (assembly) stores the point where the calling function
    continues and enters the point stored in the other context.  There are four such
    points ([context]); the context that is entered is emptied, so that entering it
    again without a new save, which would run on a stack whose frames are gone, is
    undefined behaviour here.  [vl_fiber_resume], [vl_fiber_yield] and the trampoline
    are therefore split at the switch: the part after it is [enter].

    A fiber is reached through its identity in [fw_fibers], a [vl_fiber_sched_impl_t]
    through its identity in [fw_scheds]; a freed one is absent.  [fw_maps] are the
    mappings of stacks and signal stacks, [fw_rw] the ranges mprotect made accessible.
    The model is the build without sanitizers. *)

From S2P Require Import Prelude SizeClass PageHeap.
From stdpp Require Import options.

Open Scope Z_scope.

Inductive vl_fiber_state :=
  | VL_FIBER_READY
  | VL_FIBER_RUNNING
  | VL_FIBER_SUSPENDED
  | VL_FIBER_DONE.

#[export] Instance vl_fiber_state_eq_dec : EqDecision vl_fiber_state.
Proof. solve_decision. Defined.

(** Where a saved context continues: at the start of the trampoline, after the
    transfer in [vl_fiber_resume] (with its locals [impl], [caller] and [fiber]), after
    the transfer in [vl_fiber_yield] (with its local [fiber]), or after the last
    transfer of the trampoline, which aborts. *)
Inductive context :=
  | InTrampoline
  | InResume (impl : nat) (caller : option nat) (fiber : nat)
  | InYield (fiber : nat)
  | InExit.

Record vl_fiber := mk_fiber {
  fb_context : option context;
  fb_owner : nat;
  fb_caller : option nat;
  stack_base : Z;
  stack_low : Z;
  mapped_low : Z;
  stack_top : Z;
  mapping_size : Z;
  fb_state : vl_fiber_state;
  inbox : Z;
  outbound : Z }.

Definition set_fb_context (v : option context) (f : vl_fiber) : vl_fiber :=
  mk_fiber v (fb_owner f) (fb_caller f) (stack_base f) (stack_low f) (mapped_low f) (stack_top
    f) (mapping_size f) (fb_state f) (inbox f) (outbound f).
Definition set_fb_caller (v : option nat) (f : vl_fiber) : vl_fiber :=
  mk_fiber (fb_context f) (fb_owner f) v (stack_base f) (stack_low f) (mapped_low f)
    (stack_top f) (mapping_size f) (fb_state f) (inbox f) (outbound f).
Definition set_mapped_low (v : Z) (f : vl_fiber) : vl_fiber :=
  mk_fiber (fb_context f) (fb_owner f) (fb_caller f) (stack_base f) (stack_low f) v (stack_top
    f) (mapping_size f) (fb_state f) (inbox f) (outbound f).
Definition set_fb_state (v : vl_fiber_state) (f : vl_fiber) : vl_fiber :=
  mk_fiber (fb_context f) (fb_owner f) (fb_caller f) (stack_base f) (stack_low f) (mapped_low
    f) (stack_top f) (mapping_size f) v (inbox f) (outbound f).
Definition set_inbox (v : Z) (f : vl_fiber) : vl_fiber :=
  mk_fiber (fb_context f) (fb_owner f) (fb_caller f) (stack_base f) (stack_low f) (mapped_low
    f) (stack_top f) (mapping_size f) (fb_state f) v (outbound f).
Definition set_outbound (v : Z) (f : vl_fiber) : vl_fiber :=
  mk_fiber (fb_context f) (fb_owner f) (fb_caller f) (stack_base f) (stack_low f) (mapped_low
    f) (stack_top f) (mapping_size f) (fb_state f) (inbox f) v.

Record vl_fiber_sched_impl := mk_sched {
  owner_thread : nat;
  root_context : option context;
  current : option nat;
  sched_page_size : Z;
  signal_stack : Z;
  signal_stack_size : Z;
  previous_signal_stack : Z;
  live_fibers : Z }.

Definition set_root_context (v : option context) (i : vl_fiber_sched_impl) : vl_fiber_sched_impl :=
  mk_sched (owner_thread i) v (current i) (sched_page_size i) (signal_stack i)
    (signal_stack_size i) (previous_signal_stack i) (live_fibers i).
Definition set_current (v : option nat) (i : vl_fiber_sched_impl) : vl_fiber_sched_impl :=
  mk_sched (owner_thread i) (root_context i) v (sched_page_size i) (signal_stack i)
    (signal_stack_size i) (previous_signal_stack i) (live_fibers i).
Definition set_live_fibers (v : Z) (i : vl_fiber_sched_impl) : vl_fiber_sched_impl :=
  mk_sched (owner_thread i) (root_context i) (current i) (sched_page_size i) (signal_stack i)
    (signal_stack_size i) (previous_signal_stack i) v.

Record fworld := mk_fworld {
  fw_fibers : gmap nat vl_fiber;
  fw_scheds : gmap nat vl_fiber_sched_impl;
  thread_sched : gmap nat nat;
  on_cpu : gmap nat nat;
  fw_alt : gmap nat Z;
  fw_maps : gmap Z Z;
  fw_rw : list (Z * Z);
  fw_calls : nat }.

Definition set_fw_fibers (v : gmap nat vl_fiber) (w : fworld) : fworld :=
  mk_fworld v (fw_scheds w) (thread_sched w) (on_cpu w) (fw_alt w) (fw_maps w) (fw_rw w)
    (fw_calls w).
Definition set_fw_scheds (v : gmap nat vl_fiber_sched_impl) (w : fworld) : fworld :=
  mk_fworld (fw_fibers w) v (thread_sched w) (on_cpu w) (fw_alt w) (fw_maps w) (fw_rw w)
    (fw_calls w).
Definition set_thread_sched (v : gmap nat nat) (w : fworld) : fworld :=
  mk_fworld (fw_fibers w) (fw_scheds w) v (on_cpu w) (fw_alt w) (fw_maps w) (fw_rw w)
    (fw_calls w).
Definition set_on_cpu (v : gmap nat nat) (w : fworld) : fworld :=
  mk_fworld (fw_fibers w) (fw_scheds w) (thread_sched w) v (fw_alt w) (fw_maps w) (fw_rw w)
    (fw_calls w).
Definition set_fw_alt (v : gmap nat Z) (w : fworld) : fworld :=
  mk_fworld (fw_fibers w) (fw_scheds w) (thread_sched w) (on_cpu w) v (fw_maps w) (fw_rw w)
    (fw_calls w).
Definition set_fw_maps (v : gmap Z Z) (w : fworld) : fworld :=
  mk_fworld (fw_fibers w) (fw_scheds w) (thread_sched w) (on_cpu w) (fw_alt w) v (fw_rw w)
    (fw_calls w).
Definition set_fw_rw (v : list (Z * Z)) (w : fworld) : fworld :=
  mk_fworld (fw_fibers w) (fw_scheds w) (thread_sched w) (on_cpu w) (fw_alt w) (fw_maps w) v
    (fw_calls w).
Definition set_fw_calls (v : nat) (w : fworld) : fworld :=
  mk_fworld (fw_fibers w) (fw_scheds w) (thread_sched w) (on_cpu w) (fw_alt w) (fw_maps w)
    (fw_rw w) v.

Notation F := (C fworld).

Definition load_fiber (f : nat) : F vl_fiber := deref (fun w => fw_fibers w !! f).
Definition upd_fiber (f : nat) (g : vl_fiber -> vl_fiber) : F unit :=
  fb ← load_fiber f; modify (fun w => set_fw_fibers (<[f := g fb]> (fw_fibers w)) w).
Definition load_sched (s : nat) : F vl_fiber_sched_impl := deref (fun w => fw_scheds w !! s).
Definition upd_sched (s : nat) (g : vl_fiber_sched_impl -> vl_fiber_sched_impl) : F unit :=
  i ← load_sched s; modify (fun w => set_fw_scheds (<[s := g i]> (fw_scheds w)) w).

(** What the thread does after a call: a status or a value returned to the code that
    runs on the stack named first ([None] is the root stack), the start of [fn] on the
    stack of a fiber, or [errno] set by a refused yield. *)
Inductive event :=
  | Answered (stack : option nat) (status : vl_status)
  | Resumed (stack : option nat) (return_value : Z)
  | Yielded (stack : nat) (value : Z)
  | Started (fiber : nat)
  | Refused (stack : option nat) (errno : Z).

Definition EINVAL : Z := 22.
Definition EPERM : Z := 1.

(** A [vl_fiber_sched_t *]: [None] is NULL, [Some None] a handle without [impl]. *)
Notation vl_fiber_sched := (option (option nat)).

Definition vl_round_up (value alignment : Z) : Z := Z.ldiff (w64 (value + alignment - 1)) (alignment - 1).

Definition vl_sched_is_owner (me : nat) (impl : option nat) : F bool :=
  match impl with
  | None => mret false
  | Some s => i ← load_sched s; mret (bool_decide (owner_thread i = me))
  end.

(** ** Switching *)

(** The two kinds of [vl_fiber_context_t]. *)
Inductive place_of := Root (s : nat) | Stack (f : nat).

Definition vl_caller_context (s : nat) (caller : option nat) : place_of :=
  match caller with Some f => Stack f | None => Root s end.

Definition save_context (p : place_of) (c : context) : F unit :=
  match p with
  | Root s => upd_sched s (set_root_context (Some c))
  | Stack f => upd_fiber f (set_fb_context (Some c))
  end.

Definition take_context (p : place_of) : F context :=
  match p with
  | Root s =>
      i ← load_sched s; c ← deref (fun _ => root_context i);
      _ ← upd_sched s (set_root_context None); mret c
  | Stack f =>
      fb ← load_fiber f; c ← deref (fun _ => fb_context fb);
      _ ← upd_fiber f (set_fb_context None); mret c
  end.

Definition run_on (me : nat) (p : place_of) (w : fworld) : fworld :=
  set_on_cpu (match p with Root _ => delete me (on_cpu w) | Stack f => <[me := f]> (on_cpu w) end) w.

(** [vl_transfer]: [point] is where the caller continues. *)
Definition vl_transfer (me : nat) (from to : place_of) (point : context) : F context :=
  _ ← save_context from point;
  c ← take_context to;
  _ ← modify (run_on me to);
  mret c.

Definition caller_runs (caller : option nat) : F unit :=
  match caller with
  | Some f => upd_fiber f (set_fb_state VL_FIBER_RUNNING)
  | None => mret tt
  end.

(** The first half of [vl_fiber_trampoline]; [vl_fiber_unreachable] aborts. *)
Definition trampoline_start (me : nat) : F event :=
  s ← deref (fun w => thread_sched w !! me);
  i ← load_sched s;
  f ← deref (fun _ => current i);
  fb ← load_fiber f;
  if decide (fb_state fb <> VL_FIBER_RUNNING) then ub else mret (Started f).

(** What runs after the switch, by the point that was entered. *)
Definition enter (me : nat) (c : context) : F event :=
  match c with
  | InTrampoline => trampoline_start me
  | InResume s caller fiber =>
      _ ← upd_sched s (set_current caller);
      _ ← caller_runs caller;
      _ ← upd_fiber fiber (set_fb_caller None);
      fb ← load_fiber fiber;
      mret (Resumed caller (outbound fb))
  | InYield fiber => fb ← load_fiber fiber; mret (Yielded fiber (inbox fb))
  | InExit => ub
  end.

(** The code on the stack [here] of thread [me] makes each call below. *)
Definition vl_fiber_resume (me : nat) (here : option nat) (sched : vl_fiber_sched) (fiber : option nat)
    (send_value : Z) (return_value : bool) : F event :=
  match sched, fiber, return_value with
  | Some impl, Some f, true =>
      owner ← vl_sched_is_owner me impl;
      match owner, impl with
      | true, Some s =>
          fb ← load_fiber f;
          if decide (fb_owner fb <> s \/ fb_state fb = VL_FIBER_RUNNING \/ fb_state fb = VL_FIBER_DONE)
          then mret (Answered here VL_ERROR_INVALID_STATE) else
          i ← load_sched s;
          let caller := current i in
          _ ← (match caller with
               | Some g => upd_fiber g (set_fb_state VL_FIBER_SUSPENDED)
               | None => mret tt
               end);
          _ ← upd_fiber f (fun fb => set_fb_state VL_FIBER_RUNNING (set_inbox send_value (set_fb_caller caller fb)));
          _ ← upd_sched s (set_current (Some f));
          c ← vl_transfer me (vl_caller_context s caller) (Stack f) (InResume s caller f);
          enter me c
      | _, _ => mret (Answered here VL_ERROR_INVALID_STATE)
      end
  | _, _, _ => mret (Answered here VL_ERROR_INVALID_ARGUMENT)
  end.

Definition vl_fiber_yield (me : nat) (here : option nat) (sched : vl_fiber_sched) (send_value : Z) : F event :=
  owner ← vl_sched_is_owner me (default None sched);
  match owner, default None sched with
  | true, Some s =>
      i ← load_sched s;
      match current i with
      | None => mret (Refused here EPERM)
      | Some f =>
          fb ← load_fiber f;
          if decide (fb_state fb <> VL_FIBER_RUNNING) then mret (Refused here EPERM) else
          let caller := fb_caller fb in
          _ ← upd_fiber f (fun fb => set_fb_state VL_FIBER_SUSPENDED (set_outbound send_value fb));
          _ ← upd_sched s (set_current caller);
          _ ← caller_runs caller;
          c ← vl_transfer me (Stack f) (vl_caller_context s caller) (InYield f);
          enter me c
      end
  | _, _ => mret (Refused here EINVAL)
  end.

(** The second half of [vl_fiber_trampoline]: [fn] returned [result]; [s] and [f] are
    its locals [impl] and [fiber]. *)
Definition trampoline_finish (me s f : nat) (result : Z) : F event :=
  _ ← upd_fiber f (fun fb => set_fb_state VL_FIBER_DONE (set_outbound result fb));
  fb ← load_fiber f;
  let caller := fb_caller fb in
  _ ← upd_sched s (set_current caller);
  _ ← caller_runs caller;
  c ← vl_transfer me (Stack f) (vl_caller_context s caller) InExit;
  enter me c.

Definition vl_fiber_get_state (fiber : option nat) : F vl_fiber_state :=
  match fiber with
  | None => mret VL_FIBER_DONE
  | Some f => fb ← load_fiber f; mret (fb_state fb)
  end.

(** ** Creation and destruction *)

Section memory.
Context `{os_memory}.

Definition fw_tick (w : fworld) : fworld := set_fw_calls (S (fw_calls w)) w.

(** An anonymous mapping; [rw] makes it accessible at once. *)
Definition fw_mmap (bytes : Z) (rw : bool) : F (option Z) := fun w =>
  match mmap (fw_calls w) (fw_maps w) bytes with
  | None => Some (None, fw_tick w)
  | Some base =>
      Some (Some base, set_fw_rw (if rw then (base, bytes) :: fw_rw w else fw_rw w)
                         (set_fw_maps (<[base := bytes]> (fw_maps w)) (fw_tick w)))
  end.

Definition range_outside (base size : Z) (r : Z * Z) : Prop := ~ (base <= r.1 < base + size).

(** [munmap] of a whole mapping; its result is ignored by the code. *)
Definition fw_munmap (base size : Z) : F unit := fun w =>
  if decide (fw_maps w !! base = Some size) then
    if munmap (fw_calls w) base size
    then Some (tt, set_fw_rw (filter (range_outside base size) (fw_rw w))
                     (set_fw_maps (delete base (fw_maps w)) (fw_tick w)))
    else Some (tt, fw_tick w)
  else None.

(** The answers of libc and the kernel to [vl_fiber_sched_init]. *)
Record sched_env := mk_sched_env {
  handler_installed : bool;
  sched_calloc : option nat;
  sigaltstack_old : bool;
  sigaltstack_new : bool }.

Definition vl_fiber_sched_init (me : nat) (env : sched_env) (sched : vl_fiber_sched) : F (vl_status * vl_fiber_sched) :=
  mine ← gets (fun w => thread_sched w !! me);
  match sched, mine with
  | Some None, None =>
      if (sysconf_pagesize <=? 0) || negb (Z.land (w64 sysconf_pagesize) (w64 (sysconf_pagesize - 1)) =? 0)
      then mret (VL_ERROR_SYSTEM, sched) else
      if negb (handler_installed env) then mret (VL_ERROR_SYSTEM, sched) else
      match sched_calloc env with
      | None => mret (VL_ERROR_OUT_OF_MEMORY, sched)
      | Some s =>
          let size := vl_round_up (64 * 1024) sysconf_pagesize in
          stack ← fw_mmap size true;
          match stack with
          | None => mret (VL_ERROR_SYSTEM, sched)
          | Some base =>
              old ← gets (fun w => default 0 (fw_alt w !! me));
              if negb (sigaltstack_old env && sigaltstack_new env)
              then _ ← fw_munmap base size; mret (VL_ERROR_SYSTEM, sched) else
              _ ← modify (fun w => set_fw_alt (<[me := base]> (fw_alt w)) w);
              _ ← modify (fun w => set_fw_scheds (<[s := mk_sched me None None sysconf_pagesize base size old 0]> (fw_scheds w)) w);
              _ ← modify (fun w => set_thread_sched (<[me := s]> (thread_sched w)) w);
              mret (VL_OK, Some (Some s))
          end
      end
  | _, _ => mret (VL_ERROR_INVALID_ARGUMENT, sched)
  end.

(** [restored]: whether the last sigaltstack succeeds. *)
Definition vl_fiber_sched_destroy (me : nat) (restored : bool) (sched : vl_fiber_sched) : F vl_fiber_sched :=
  match sched with
  | None => mret sched
  | Some impl =>
      owner ← vl_sched_is_owner me impl;
      match owner, impl with
      | true, Some s =>
          i ← load_sched s;
          if decide (current i <> None \/ live_fibers i <> 0) then mret sched else
          _ ← modify (fun w => if restored then set_fw_alt (<[me := previous_signal_stack i]> (fw_alt w)) w else w);
          _ ← fw_munmap (signal_stack i) (signal_stack_size i);
          _ ← modify (fun w => set_thread_sched (delete me (thread_sched w)) w);
          _ ← modify (fun w => set_fw_scheds (delete s (fw_scheds w)) w);
          mret (Some None)
      | _, _ => mret sched
      end
  end.

(** [out] is the value of [*out]; [calloc] and [mprotect] are the answers of libc and
    of the kernel. *)
Definition vl_fiber_create (me : nat) (calloc : option nat) (mprotect : bool) (sched : vl_fiber_sched)
    (out : option (option nat)) (stack_size : Z) (fn : bool) : F (vl_status * option (option nat)) :=
  match sched, out, fn with
  | Some impl, Some None, true =>
      if stack_size =? 0 then mret (VL_ERROR_INVALID_ARGUMENT, out) else
      owner ← vl_sched_is_owner me impl;
      match owner, impl with
      | true, Some s =>
          i ← load_sched s;
          let psize := sched_page_size i in
          if SIZE_MAX - (psize - 1) <? stack_size then mret (VL_ERROR_INVALID_ARGUMENT, out) else
          let usable_size := vl_round_up stack_size psize in
          if (usable_size <? psize) || (SIZE_MAX - psize <? usable_size)
          then mret (VL_ERROR_INVALID_ARGUMENT, out) else
          match calloc with
          | None => mret (VL_ERROR_OUT_OF_MEMORY, out)
          | Some f =>
              let msize := w64 (usable_size + psize) in
              stack ← fw_mmap msize false;
              match stack with
              | None => mret (VL_ERROR_SYSTEM, out)
              | Some base =>
                  let top := base + msize in
                  let low := top - psize in
                  if negb mprotect then _ ← fw_munmap base msize; mret (VL_ERROR_SYSTEM, out) else
                  _ ← modify (fun w => set_fw_rw ((low, psize) :: fw_rw w) w);
                  _ ← modify (fun w => set_fw_fibers (<[f := mk_fiber (Some InTrampoline) s None base (base + psize) low top
                                          msize VL_FIBER_READY 0 0]> (fw_fibers w)) w);
                  _ ← upd_sched s (fun i => set_live_fibers (w64 (live_fibers i + 1)) i);
                  mret (VL_OK, Some (Some f))
              end
          end
      | _, _ => mret (VL_ERROR_INVALID_STATE, out)
      end
  | _, _, _ => mret (VL_ERROR_INVALID_ARGUMENT, out)
  end.

Definition vl_fiber_destroy (me : nat) (fiber : option nat) : F unit :=
  match fiber with
  | None => mret tt
  | Some f =>
      fb ← load_fiber f;
      if decide (fb_state fb = VL_FIBER_RUNNING) then mret tt else
      owner ← vl_sched_is_owner me (Some (fb_owner fb));
      if negb owner then mret tt else
      _ ← fw_munmap (stack_base fb) (mapping_size fb);
      _ ← upd_sched (fb_owner fb) (fun i => set_live_fibers (w64 (live_fibers i - 1)) i);
      modify (fun w => set_fw_fibers (delete f (fw_fibers w)) w)
  end.

(** The SIGSEGV handler on thread [me] for a fault at [fault]; [kernel] says that
    [si_code > 0].  Returns whether the fault was handled; otherwise it is forwarded to
    the previous handler. *)
Definition vl_stack_fault_handler (me : nat) (kernel mprotect : bool) (fault : Z) : F bool :=
  mine ← gets (fun w => thread_sched w !! me);
  match mine with
  | None => mret false
  | Some s =>
      i ← load_sched s;
      match current i with
      | None => mret false
      | Some f =>
          fb ← load_fiber f;
          if kernel && bool_decide (fb_state fb = VL_FIBER_RUNNING) && (stack_low fb <=? fault) && (fault <? mapped_low fb) then
            let new_low := Z.ldiff fault (sched_page_size i - 1) in
            let growth_size := mapped_low fb - new_low in
            if mprotect then
              _ ← modify (fun w => set_fw_rw ((new_low, growth_size) :: fw_rw w) w);
              _ ← upd_fiber f (set_mapped_low new_low);
              mret true
            else mret false
          else mret false
      end
  end.
End memory.

(** ** Threads and the code they run *)

Inductive fiber_call :=
  | CResume (sched : vl_fiber_sched) (fiber : option nat) (send_value : Z) (return_value : bool)
  | CYield (sched : vl_fiber_sched) (send_value : Z)
  | CReturn (result : Z)
  | CGetState (fiber : option nat)
  | CCreate (calloc : option nat) (mprotect : bool) (sched : vl_fiber_sched) (out : option (option nat)) (stack_size : Z) (fn : bool)
  | CDestroy (fiber : option nat)
  | CSchedInit (env : sched_env) (sched : vl_fiber_sched)
  | CSchedDestroy (restored : bool) (sched : vl_fiber_sched)
  | CFault (kernel mprotect : bool) (fault : Z).

Inductive outcome :=
  | Switch (e : event)
  | State (st : vl_fiber_state)
  | Created (status : vl_status) (out : option (option nat))
  | Handle (status : vl_status) (sched : vl_fiber_sched)
  | Handled (b : bool)
  | Done.

Section system.
Context `{os_memory}.

(** Thread [me] makes a call from the stack it is on. *)
Definition fiber_exec (me : nat) (call : fiber_call) : F outcome :=
  here ← gets (fun w => on_cpu w !! me);
  match call with
  | CResume sched fiber v rv => e ← vl_fiber_resume me here sched fiber v rv; mret (Switch e)
  | CYield sched v => e ← vl_fiber_yield me here sched v; mret (Switch e)
  | CReturn v =>
      s ← deref (fun w => thread_sched w !! me);
      f ← deref (fun _ => here);
      e ← trampoline_finish me s f v; mret (Switch e)
  | CGetState fiber => st ← vl_fiber_get_state fiber; mret (State st)
  | CCreate calloc mprotect sched out size fn =>
      r ← vl_fiber_create me calloc mprotect sched out size fn; mret (Created r.1 r.2)
  | CDestroy fiber => _ ← vl_fiber_destroy me fiber; mret Done
  | CSchedInit env sched => r ← vl_fiber_sched_init me env sched; mret (Handle r.1 r.2)
  | CSchedDestroy restored sched => r ← vl_fiber_sched_destroy me restored sched; mret (Handle VL_OK r)
  | CFault kernel mprotect fault => b ← vl_stack_fault_handler me kernel mprotect fault; mret (Handled b)
  end.

Definition valid_sched (w : fworld) (sched : vl_fiber_sched) : Prop :=
  match sched with Some (Some s) => is_Some (fw_scheds w !! s) | _ => True end.

(** The fiber exists and is not in the middle of a [vl_fiber_resume] of its own. *)
Definition not_waiting (w : fworld) (fiber : option nat) : Prop :=
  match fiber with
  | Some f => exists fb, fw_fibers w !! f = Some fb /\
      match fb_context fb with Some (InResume _ _ _) => False | _ => True end
  | None => True
  end.

(** What clients may do: pass handles and fibers that exist, return only from a fiber's
    own code, and not resume or destroy a fiber that waits for one it resumed.  A
    [calloc] returns an address not in use; a [vl_fiber_t] takes more than 128 bytes of
    the address space, so there are fewer than 2^57. *)
Definition fiber_allowed (w : fworld) (me : nat) (call : fiber_call) : Prop :=
  match call with
  | CResume sched fiber _ _ => valid_sched w sched /\ not_waiting w fiber
  | CYield sched _ => valid_sched w sched
  | CReturn _ => is_Some (on_cpu w !! me)
  | CGetState fiber => match fiber with Some f => is_Some (fw_fibers w !! f) | None => True end
  | CCreate calloc _ sched _ size _ =>
      valid_sched w sched /\ word size /\
      match calloc with Some f => fw_fibers w !! f = None /\ Z.of_nat (base.size (fw_fibers w)) < 2 ^ 57 | None => True end
  | CDestroy fiber => not_waiting w fiber
  | CSchedInit env _ => match sched_calloc env with Some s => fw_scheds w !! s = None | None => True end
  | CSchedDestroy _ sched => valid_sched w sched
  | CFault _ _ _ => True
  end.

Definition fworld_boot : fworld := mk_fworld ∅ ∅ ∅ ∅ ∅ ∅ [] 0.

Inductive fiber_reach : fworld -> Prop :=
  | fr_boot : fiber_reach fworld_boot
  | fr_call w me call o w' : fiber_reach w -> fiber_allowed w me call ->
      fiber_exec me call w = Some (o, w') -> fiber_reach w'.
End system.
