(* ===== verification/FiberProps.v ===== *)
(** * Fibers are coroutines

    The fibers a thread has entered and not left form a stack: each was resumed by the
    one below it, and the bottom one by the root.  The contexts saved in the fibers and
    in the scheduler are exactly the points at which those resumes continue, so that a
    yield or a return always goes back to the resume that entered the fiber. *)

From S2P Require Import Prelude SizeClass PageHeap Fiber.
From stdpp Require Import options.

Open Scope Z_scope.

(** ** The abstract coroutines of one scheduler *)

Record coroutines := mk_co { co_stack : list nat; co_state : gmap nat vl_fiber_state }.

Definition set_states (l : list (nat * vl_fiber_state)) (m : gmap nat vl_fiber_state) : gmap nat vl_fiber_state :=
  foldr (fun e => <[e.1 := e.2]>) m l.

Definition top_state (st : list nat) (x : vl_fiber_state) : list (nat * vl_fiber_state) :=
  match st with f :: _ => [(f, x)] | [] => [] end.

(** What the thread of a scheduler may do with its coroutines: resuming pushes, yielding
    and returning pop and hand their value to the stack below. *)
Inductive co_step (s : nat) : fiber_call -> coroutines -> outcome -> coroutines -> Prop :=
  | co_resume f v st m : m !! f = Some VL_FIBER_READY ->
      co_step s (CResume (Some (Some s)) (Some f) v true) (mk_co st m) (Switch (Started f))
        (mk_co (f :: st) (set_states ((f, VL_FIBER_RUNNING) :: top_state st VL_FIBER_SUSPENDED) m))
  | co_continue f v st m : m !! f = Some VL_FIBER_SUSPENDED ->
      co_step s (CResume (Some (Some s)) (Some f) v true) (mk_co st m) (Switch (Yielded f v))
        (mk_co (f :: st) (set_states ((f, VL_FIBER_RUNNING) :: top_state st VL_FIBER_SUSPENDED) m))
  | co_refuse f v st m : m !! f <> Some VL_FIBER_READY -> m !! f <> Some VL_FIBER_SUSPENDED ->
      co_step s (CResume (Some (Some s)) (Some f) v true) (mk_co st m) (Switch (Answered (head st) VL_ERROR_INVALID_STATE)) (mk_co st m)
  | co_yield f v st m :
      co_step s (CYield (Some (Some s)) v) (mk_co (f :: st) m) (Switch (Resumed (head st) v))
        (mk_co st (set_states ((f, VL_FIBER_SUSPENDED) :: top_state st VL_FIBER_RUNNING) m))
  | co_yield_root v m :
      co_step s (CYield (Some (Some s)) v) (mk_co [] m) (Switch (Refused None EPERM)) (mk_co [] m)
  | co_return f v st m :
      co_step s (CReturn v) (mk_co (f :: st) m) (Switch (Resumed (head st) v))
        (mk_co st (set_states ((f, VL_FIBER_DONE) :: top_state st VL_FIBER_RUNNING) m)).

(** ** The invariant *)

Definition ctx_at (w : fworld) (p : place_of) : option context :=
  match p with
  | Root s => fw_scheds w !! s ≫= root_context
  | Stack f => fw_fibers w !! f ≫= fb_context
  end.

Fixpoint frames (w : fworld) (s : nat) (st : list nat) : Prop :=
  match st with
  | [] => True
  | f :: st' =>
      (exists fb, fw_fibers w !! f = Some fb /\ fb_owner fb = s /\ fb_caller fb = head st') /\
      ctx_at w (vl_caller_context s (head st')) = Some (InResume s (head st') f) /\ frames w s st'
  end.

(** A fiber that is not on the stack. *)
Definition parked (f : nat) (fb : vl_fiber) : Prop :=
  fb_caller fb = None /\
  ((fb_state fb = VL_FIBER_READY /\ fb_context fb = Some InTrampoline) \/
   (fb_state fb = VL_FIBER_SUSPENDED /\ fb_context fb = Some (InYield f)) \/
   (fb_state fb = VL_FIBER_DONE /\ fb_context fb = Some InExit)).

Definition owned (m : gmap nat vl_fiber) (s : nat) : gset nat := dom (filter (fun e => fb_owner e.2 = s) m).

Record sched_ok (w : fworld) (s : nat) (i : vl_fiber_sched_impl) (st : list nat) : Prop := {
  so_current : current i = head st;
  so_nodup : NoDup st;
  so_frames : frames w s st;
  so_top : match st with
           | [] => root_context i = None
           | f :: _ => exists fb, fw_fibers w !! f = Some fb /\ fb_state fb = VL_FIBER_RUNNING /\ fb_context fb = None
           end;
  so_below : forall g, g ∈ tail st -> exists gb, fw_fibers w !! g = Some gb /\ fb_state gb = VL_FIBER_SUSPENDED;
  so_off : forall f fb, fw_fibers w !! f = Some fb -> fb_owner fb = s -> f ∉ st -> parked f fb;
  so_cpu : on_cpu w !! owner_thread i = head st;
  so_thread : thread_sched w !! owner_thread i = Some s;
  so_live : live_fibers i = Z.of_nat (size (owned (fw_fibers w) s)) }.

Record fiber_inv (w : fworld) : Prop := {
  fi_sched : forall s i, fw_scheds w !! s = Some i -> exists st, sched_ok w s i st;
  fi_thread : forall t s, thread_sched w !! t = Some s -> exists i, fw_scheds w !! s = Some i /\ owner_thread i = t;
  fi_owner : forall f fb, fw_fibers w !! f = Some fb -> is_Some (fw_scheds w !! fb_owner fb);
  fi_cpu : forall t f, on_cpu w !! t = Some f -> is_Some (thread_sched w !! t);
  fi_count : Z.of_nat (size (fw_fibers w)) <= 2 ^ 57 }.

(** ** Frames *)

Lemma elem_of_owned m s f : f ∈ owned m s <-> exists fb, m !! f = Some fb /\ fb_owner fb = s.
Proof.
  unfold owned. rewrite elem_of_dom. split.
  - intros [fb [Hf Ho]%map_lookup_filter_Some]. by exists fb.
  - intros (fb & Hf & Ho). exists fb. by apply map_lookup_filter_Some.
Qed.

Lemma owned_ext m m' s : (forall f, fb_owner <$> m' !! f = fb_owner <$> m !! f) -> owned m' s = owned m s.
Proof.
  intros Hext. apply set_eq. intros f. rewrite !elem_of_owned. specialize (Hext f).
  split; intros (fb & Hf & Ho); rewrite Hf in Hext; cbn in Hext.
  - destruct (m !! f) as [fb'|]; [|done]. exists fb'. split; [done|]. cbn in Hext. congruence.
  - destruct (m' !! f) as [fb'|]; [|done]. exists fb'. split; [done|]. cbn in Hext. congruence.
Qed.

Lemma frames_alive w s st f : frames w s st -> f ∈ st -> exists fb, fw_fibers w !! f = Some fb /\ fb_owner fb = s.
Proof.
  induction st as [|g st IH]; intros Hf Hin; [by apply not_elem_of_nil in Hin|]. destruct Hf as ((fb & Hg & Ho & _) & _ & Hf).
  apply elem_of_cons in Hin as [->|Hin]; [by exists fb|by apply IH].
Qed.

Lemma frames_ext w w' s st : frames w s st ->
  (forall f fb, f ∈ st -> fw_fibers w !! f = Some fb -> fb_owner fb = s -> exists fb', fw_fibers w' !! f = Some fb' /\
     fb_owner fb' = s /\ fb_caller fb' = fb_caller fb) ->
  (forall p, p <> vl_caller_context s (head st) -> (match p with Root s' => s' = s | Stack f => f ∈ st end) -> ctx_at w' p = ctx_at w p) ->
  NoDup st -> frames w' s st.
Proof.
  induction st as [|f st IH]; intros Hf Hfib Hctx Hnd; [done|]. destruct Hf as ((fb & Hg & Ho & Hc) & Hx & Hf).
  apply list.NoDup_cons in Hnd as [Hn Hnd]. split.
  { destruct (Hfib f fb ltac:(left) Hg Ho) as (fb' & E1 & E2 & E3). exists fb'. split_and!; congruence. }
  assert (Hhd : vl_caller_context s (head st) <> Stack f).
  { destruct st as [|g st]; cbn; [done|]. intros [= ->]. apply Hn. left. }
  split.
  - rewrite Hctx; [done|done|]. destruct st; cbn; [done|]. right. left.
  - apply IH; [done| | |done].
    + intros g gb Hg' Hgb. apply Hfib; [by right|done].
    + intros p Hp Hin. apply Hctx.
      * cbn [head vl_caller_context]. intros ->. by apply Hn.
      * destruct p; [done|by right].
Qed.

(** A scheduler none of whose fibers changes. *)
Lemma sched_ok_frame w w' s i st : sched_ok w s i st -> fw_scheds w !! s = Some i -> fw_scheds w' !! s = Some i ->
  (forall f, fw_fibers w' !! f = fw_fibers w !! f \/
     forall fb, (fw_fibers w !! f = Some fb \/ fw_fibers w' !! f = Some fb) -> fb_owner fb <> s) ->
  on_cpu w' !! owner_thread i = on_cpu w !! owner_thread i -> thread_sched w' !! owner_thread i = thread_sched w !! owner_thread i ->
  sched_ok w' s i st.
Proof.
  intros [O1 O2 O3 O4 O5 O6 O7 O8 O9] Hi Hi' Hf Hcpu Hth.
  assert (Hkeep : forall f fb, fw_fibers w !! f = Some fb -> fb_owner fb = s -> fw_fibers w' !! f = Some fb).
  { intros f fb E Ho. destruct (Hf f) as [->|Hno]; [done|]. exfalso. by apply (Hno fb); [left|]. }
  assert (Hback : forall f fb, fw_fibers w' !! f = Some fb -> fb_owner fb = s -> fw_fibers w !! f = Some fb).
  { intros f fb E Ho. destruct (Hf f) as [E'|Hno]; [congruence|]. exfalso. by apply (Hno fb); [right|]. }
  assert (Hst : forall f, f ∈ st -> fw_fibers w' !! f = fw_fibers w !! f).
  { intros f Hin. destruct (frames_alive w s st f O3 Hin) as (fb & E & Ho). by rewrite E, (Hkeep f fb E Ho). }
  split; try done; try congruence.
  - apply (frames_ext w w' s st); [done| | |done].
    + intros f fb Hin E Ho. exists fb. rewrite Hst by done. done.
    + intros [s'|f] _ Hin; cbn; [by subst; rewrite Hi, Hi'|by rewrite Hst].
  - destruct st as [|f st]; [done|]. destruct O4 as (fb & E & H'). exists fb. rewrite Hst by left. done.
  - intros g Hg. rewrite Hst; [by apply O5|]. destruct st; [by apply not_elem_of_nil in Hg|by right].
  - intros f fb E Ho Hn. apply O6; [by apply Hback|done|done].
  - rewrite O9. do 2 f_equal. apply set_eq. intros f. rewrite !elem_of_owned. naive_solver.
Qed.

(** Two schedulers have different threads. *)
Lemma owner_thread_inj w s s' i i' : fiber_inv w -> fw_scheds w !! s = Some i -> fw_scheds w !! s' = Some i' ->
  owner_thread i = owner_thread i' -> s = s'.
Proof.
  intros Hinv Hi Hi' E. destruct (fi_sched w Hinv s i Hi) as [st Hs], (fi_sched w Hinv s' i' Hi') as [st' Hs'].
  pose proof (so_thread _ _ _ _ Hs) as E1. pose proof (so_thread _ _ _ _ Hs') as E2. rewrite E in E1. congruence.
Qed.

(** A change of one scheduler's fibers, of the scheduler and of its thread's stack. *)
Lemma switch_inv w me s i i' st' (fibers' : gmap nat vl_fiber) cpu : fiber_inv w -> fw_scheds w !! s = Some i ->
  owner_thread i = me -> owner_thread i' = me ->
  (forall f, fb_owner <$> fibers' !! f = fb_owner <$> fw_fibers w !! f) ->
  (forall f, fibers' !! f = fw_fibers w !! f \/ fb_owner <$> fw_fibers w !! f = Some s) ->
  (forall t, t <> me -> cpu !! t = on_cpu w !! t) ->
  let w' := set_on_cpu cpu (set_fw_scheds (<[s := i']> (fw_scheds w)) (set_fw_fibers fibers' w)) in
  sched_ok w' s i' st' -> fiber_inv w'.
Proof.
  intros Hinv Hi Ht Ht' Hown Hch Hcpu w' Hs. split.
  - intros s2 i2 E2. cbn in E2. destruct (decide (s2 = s)) as [->|Hne].
    { rewrite lookup_insert_eq in E2. injection E2 as <-. by exists st'. }
    rewrite lookup_insert_ne in E2 by done. destruct (fi_sched w Hinv s2 i2 E2) as [st2 Hs2]. exists st2.
    assert (Htne : owner_thread i2 <> me).
    { intros E. apply Hne. apply (owner_thread_inj w s2 s i2 i Hinv E2 Hi). congruence. }
    apply (sched_ok_frame w w' s2 i2 st2 Hs2 E2); cbn; [by rewrite lookup_insert_ne| |by apply Hcpu|done].
    intros f. destruct (Hch f) as [E|E]; [by left|right]. intros fb Hfb Ho.
    assert (fb_owner fb = s); [|congruence]. specialize (Hown f). rewrite E in Hown.
    destruct Hfb as [Hfb|Hfb]; rewrite Hfb in *; cbn in *; congruence.
  - intros t s2 E. cbn in E |- *. destruct (fi_thread w Hinv t s2 E) as (i2 & E2 & E3).
    destruct (decide (s2 = s)) as [->|Hne]; [|exists i2; by rewrite lookup_insert_ne].
    exists i'. rewrite lookup_insert_eq. split; [done|]. congruence.
  - intros f fb E. cbn in E |- *. specialize (Hown f). rewrite E in Hown. cbn in Hown.
    destruct (fw_fibers w !! f) as [fb0|] eqn:E0; [|done]. cbn in Hown. injection Hown as Hown. rewrite Hown.
    destruct (fi_owner w Hinv f fb0 E0) as [x Hx]. destruct (decide (fb_owner fb0 = s)) as [->|];
      [rewrite lookup_insert_eq; eauto|rewrite lookup_insert_ne by done; eauto].
  - intros t f E. cbn in E |- *. destruct (decide (t = me)) as [->|Hne].
    + rewrite <- Ht'. pose proof (so_thread _ _ _ _ Hs) as E1. cbn in E1. rewrite E1. eauto.
    + rewrite Hcpu in E by done. by apply (fi_cpu w Hinv t f).
  - cbn. assert (dom fibers' = dom (fw_fibers w)) as Ed.
    { apply set_eq. intros f. rewrite !elem_of_dom. specialize (Hown f).
      destruct (fibers' !! f), (fw_fibers w !! f); cbn in Hown; naive_solver. }
    rewrite <- (size_dom (D := gset nat)), Ed, size_dom. by apply (fi_count w Hinv).
Qed.

(** ** The runs of the switching operations *)

Lemma load_fiber_run f fb w : fw_fibers w !! f = Some fb -> load_fiber f w = Some (fb, w).
Proof. intros E. unfold load_fiber, deref. by rewrite E. Qed.

Lemma upd_fiber_run f fb g w : fw_fibers w !! f = Some fb ->
  upd_fiber f g w = Some (tt, set_fw_fibers (<[f := g fb]> (fw_fibers w)) w).
Proof. intros E. unfold upd_fiber. by rewrite (bind_Some _ _ _ _ _ (load_fiber_run f fb w E)). Qed.

Lemma load_sched_run s i w : fw_scheds w !! s = Some i -> load_sched s w = Some (i, w).
Proof. intros E. unfold load_sched, deref. by rewrite E. Qed.

Lemma upd_sched_run s i g w : fw_scheds w !! s = Some i ->
  upd_sched s g w = Some (tt, set_fw_scheds (<[s := g i]> (fw_scheds w)) w).
Proof. intros E. unfold upd_sched. by rewrite (bind_Some _ _ _ _ _ (load_sched_run s i w E)). Qed.

Lemma is_owner_run me s i w : fw_scheds w !! s = Some i ->
  vl_sched_is_owner me (Some s) w = Some (bool_decide (owner_thread i = me), w).
Proof. intros E. unfold vl_sched_is_owner. by rewrite (bind_Some _ _ _ _ _ (load_sched_run s i w E)). Qed.

(** Updates of the store in normal form: at most one of each kind. *)
Lemma norm_ff a b w : set_fw_fibers a (set_fw_fibers b w) = set_fw_fibers a w.
Proof. done. Qed.
Lemma norm_fs a b w : set_fw_fibers a (set_fw_scheds b w) = set_fw_scheds b (set_fw_fibers a w).
Proof. done. Qed.
Lemma norm_fc a b w : set_fw_fibers a (set_on_cpu b w) = set_on_cpu b (set_fw_fibers a w).
Proof. done. Qed.
Lemma norm_ss a b w : set_fw_scheds a (set_fw_scheds b w) = set_fw_scheds a w.
Proof. done. Qed.
Lemma norm_sc a b w : set_fw_scheds a (set_on_cpu b w) = set_on_cpu b (set_fw_scheds a w).
Proof. done. Qed.

Lemma same_world_eq e cpu cpu' scheds scheds' fibers fibers' w : cpu = cpu' -> scheds = scheds' -> fibers = fibers' ->
  Some (e : event, set_on_cpu cpu (set_fw_scheds scheds (set_fw_fibers fibers w))) =
  Some (e, set_on_cpu cpu' (set_fw_scheds scheds' (set_fw_fibers fibers' w))).
Proof. by intros -> -> ->. Qed.

(** Run the primitive operations, deciding every lookup in a store built by updates. *)
Ltac frun := unfold vl_transfer, save_context, take_context, vl_caller_context, caller_runs, enter, trampoline_start,
  upd_fiber, upd_sched, load_fiber, load_sched, run_on; crun; cbn;
  repeat first [ rewrite lookup_insert_eq | rewrite lookup_insert_ne by congruence
               | match goal with
                 | H : ?m !! ?k = Some _ |- context [?m !! ?k] => rewrite H
                 | H : fb_context ?fb = _ |- context [fb_context ?fb] => rewrite H
                 | H : fb_state ?fb = _ |- context [fb_state ?fb] => rewrite H
                 | H : root_context ?i = _ |- context [root_context ?i] => rewrite H
                 end
               | rewrite norm_ff | rewrite norm_fs | rewrite norm_fc | rewrite norm_ss | rewrite norm_sc
               | rewrite decide_False by (intros E; by destruct E) | progress cbn ].

(** Two stores that differ in the order of updates only. *)
Ltac same_world := apply same_world_eq; [done|..];
  apply map_eq; intros x; rewrite ?lookup_insert, ?lookup_alter; repeat case_decide; subst;
  repeat match goal with H : ?m !! ?k = Some _ |- context [?m !! ?k] => rewrite H end; first [done|congruence].

(** The fibers, the scheduler and the stack after [f] has been entered from [st]. *)
Definition entered_fibers (s f : nat) (fb : vl_fiber) (v : Z) (st : list nat) (m : gmap nat vl_fiber) : gmap nat vl_fiber :=
  <[f := set_fb_context None (set_fb_state VL_FIBER_RUNNING (set_inbox v (set_fb_caller (head st) fb)))]>
    (match st with
     | g :: _ => alter (fun gb => set_fb_context (Some (InResume s (Some g) f)) (set_fb_state VL_FIBER_SUSPENDED gb)) g m
     | [] => m
     end).
Definition entered_sched (s f : nat) (st : list nat) (i : vl_fiber_sched_impl) : vl_fiber_sched_impl :=
  set_current (Some f) (match st with [] => set_root_context (Some (InResume s None f)) i | _ => i end).
Definition entered (me s f : nat) (fb : vl_fiber) (v : Z) (st : list nat) (i : vl_fiber_sched_impl) (w : fworld) : fworld :=
  set_on_cpu (<[me := f]> (on_cpu w)) (set_fw_scheds (<[s := entered_sched s f st i]> (fw_scheds w))
    (set_fw_fibers (entered_fibers s f fb v st (fw_fibers w)) w)).

Lemma resume_switch w me s i st f fb v here : sched_ok w s i st -> fw_scheds w !! s = Some i -> owner_thread i = me ->
  fw_fibers w !! f = Some fb -> fb_owner fb = s -> f ∉ st -> fb_state fb <> VL_FIBER_DONE ->
  vl_fiber_resume me here (Some (Some s)) (Some f) v true w =
    Some (match fb_state fb with VL_FIBER_READY => Started f | _ => Yielded f v end, entered me s f fb v st i w).
Proof.
  intros Hs Hi <- Hf Ho Hn Hd. destruct (so_off _ _ _ _ Hs f fb Hf Ho Hn) as [_ Hp]. pose proof (so_thread _ _ _ _ Hs) as Hth.
  assert (Hnr : ~ (fb_owner fb <> s \/ fb_state fb = VL_FIBER_RUNNING \/ fb_state fb = VL_FIBER_DONE)).
  { intros [?|[E|E]]; [done| |done]. rewrite E in Hp. naive_solver. }
  unfold vl_fiber_resume. rewrite bind_run, (is_owner_run _ s i w Hi), bool_decide_true by done.
  rewrite (bind_Some _ _ _ _ _ (load_fiber_run f fb w Hf)), decide_False by exact Hnr.
  rewrite (bind_Some _ _ _ _ _ (load_sched_run s i w Hi)). rewrite (so_current _ _ _ _ Hs).
  unfold entered, entered_fibers, entered_sched. destruct st as [|g st]; cbn [head].
  - destruct Hp as [[E1 E2]|[[E1 E2]|[E1 _]]]; [| |done]; frun; same_world.
  - destruct (frames_alive w s (g :: st) g (so_frames _ _ _ _ Hs) ltac:(left)) as (gb & Hg & _).
    assert (g <> f) by (intros ->; apply Hn; left).
    destruct Hp as [[E1 E2]|[[E1 E2]|[E1 _]]]; [| |done]; frun; same_world.
Qed.

(** The same after [f] has been left, with the stack [st] below it. *)
Definition left_fibers (f : nat) (fb : vl_fiber) (x : vl_fiber_state) (p : context) (v : Z) (st : list nat)
    (m : gmap nat vl_fiber) : gmap nat vl_fiber :=
  <[f := set_fb_caller None (set_fb_context (Some p) (set_fb_state x (set_outbound v fb)))]>
    (match st with
     | g :: _ => alter (fun gb => set_fb_context None (set_fb_state VL_FIBER_RUNNING gb)) g m
     | [] => m
     end).
Definition left_sched (st : list nat) (i : vl_fiber_sched_impl) : vl_fiber_sched_impl :=
  set_current (head st) (match st with [] => set_root_context None i | _ => i end).
Definition left_cpu (me : nat) (st : list nat) (cpu : gmap nat nat) : gmap nat nat :=
  match st with g :: _ => <[me := g]> cpu | [] => delete me cpu end.
Definition left_world (me s f : nat) (fb : vl_fiber) (x : vl_fiber_state) (p : context) (v : Z) (st : list nat)
    (i : vl_fiber_sched_impl) (w : fworld) : fworld :=
  set_on_cpu (left_cpu me st (on_cpu w)) (set_fw_scheds (<[s := left_sched st i]> (fw_scheds w))
    (set_fw_fibers (left_fibers f fb x p v st (fw_fibers w)) w)).

(** What the fiber on top of the stack and the place below it hold. *)
Lemma top_facts w s i f st : sched_ok w s i (f :: st) -> fw_scheds w !! s = Some i ->
  exists fb, fw_fibers w !! f = Some fb /\ fb_state fb = VL_FIBER_RUNNING /\ fb_owner fb = s /\ fb_caller fb = head st /\
    match st with
    | [] => root_context i = Some (InResume s None f)
    | g :: _ => g <> f /\ exists gb, fw_fibers w !! g = Some gb /\ fb_context gb = Some (InResume s (Some g) f)
    end.
Proof.
  intros Hs Hi. destruct (so_frames _ _ _ _ Hs) as ((fb & Hf & Ho & Hc) & Hx & _).
  destruct (so_top _ _ _ _ Hs) as (fb' & Hf' & Hst & _). assert (fb' = fb) as -> by congruence.
  exists fb. split_and!; try done. destruct st as [|g st]; cbn in Hx; [by rewrite Hi in Hx|].
  pose proof (so_nodup _ _ _ _ Hs) as [Hn _]%list.NoDup_cons. split; [intros ->; apply Hn; left|].
  destruct (fw_fibers w !! g) as [gb|]; [|done]. by exists gb.
Qed.

Lemma yield_switch w me s i f fb st v here : sched_ok w s i (f :: st) -> fw_scheds w !! s = Some i -> owner_thread i = me ->
  fw_fibers w !! f = Some fb ->
  vl_fiber_yield me here (Some (Some s)) v w =
    Some (Resumed (head st) v, left_world me s f fb VL_FIBER_SUSPENDED (InYield f) v st i w).
Proof.
  intros Hs Hi <- Hf. destruct (top_facts w s i f st Hs Hi) as (fb' & Hf' & Hst & _ & Hc & Hb). assert (fb' = fb) as -> by congruence.
  unfold vl_fiber_yield. cbn [default]. rewrite bind_run. cbn [from_option id]. rewrite (is_owner_run _ s i w Hi), bool_decide_true by done.
  rewrite (bind_Some _ _ _ _ _ (load_sched_run s i w Hi)), (so_current _ _ _ _ Hs). cbn [head].
  rewrite (bind_Some _ _ _ _ _ (load_fiber_run f fb w Hf)), decide_False by (intros E; by destruct E). rewrite Hc.
  unfold left_world, left_fibers, left_sched, left_cpu. destruct st as [|g st]; cbn [head].
  - frun. same_world.
  - destruct Hb as (Hne & gb & Hg & Hgc). frun. frun. same_world.
Qed.

Lemma finish_switch w me s i f fb st v : sched_ok w s i (f :: st) -> fw_scheds w !! s = Some i -> owner_thread i = me ->
  fw_fibers w !! f = Some fb ->
  trampoline_finish me s f v w = Some (Resumed (head st) v, left_world me s f fb VL_FIBER_DONE InExit v st i w).
Proof.
  intros Hs Hi <- Hf. destruct (top_facts w s i f st Hs Hi) as (fb' & Hf' & Hst & _ & Hc & Hb). assert (fb' = fb) as -> by congruence.
  unfold trampoline_finish. rewrite (bind_Some _ _ _ _ _ (upd_fiber_run f fb _ w Hf)).
  rewrite (bind_Some _ _ _ _ _ (load_fiber_run f _ _ (lookup_insert_eq _ _ _))). cbn [fb_caller set_fb_state set_outbound]. rewrite Hc.
  unfold left_world, left_fibers, left_sched, left_cpu. destruct st as [|g st]; cbn [head].
  - frun. same_world.
  - destruct Hb as (Hne & gb & Hg & Hgc). frun. frun. same_world.
Qed.

(** ** The invariant across a switch *)

Lemma entered_other s f fb v st m x : x <> f -> head st <> Some x -> entered_fibers s f fb v st m !! x = m !! x.
Proof.
  intros Hf Hh. unfold entered_fibers. rewrite lookup_insert_ne by done. destruct st as [|g st]; [done|].
  rewrite lookup_alter_ne; [done|]. cbn in Hh. congruence.
Qed.

Lemma entered_owner s f fb v st m x : m !! f = Some fb ->
  fb_owner <$> entered_fibers s f fb v st m !! x = fb_owner <$> m !! x.
Proof.
  intros Hf. unfold entered_fibers. rewrite lookup_insert. case_decide as E; [subst; by rewrite Hf|].
  destruct st as [|g st]; [done|]. rewrite lookup_alter. case_decide; [subst|done]. by destruct (m !! x).
Qed.

Lemma left_other f fb x p v st m y : y <> f -> head st <> Some y -> left_fibers f fb x p v st m !! y = m !! y.
Proof.
  intros Hf Hh. unfold left_fibers. rewrite lookup_insert_ne by done. destruct st as [|g st]; [done|].
  rewrite lookup_alter_ne; [done|]. cbn in Hh. congruence.
Qed.

Lemma left_owner f fb x p v st m y : m !! f = Some fb ->
  fb_owner <$> left_fibers f fb x p v st m !! y = fb_owner <$> m !! y.
Proof.
  intros Hf. unfold left_fibers. rewrite lookup_insert. case_decide as E; [subst; by rewrite Hf|].
  destruct st as [|g st]; [done|]. rewrite lookup_alter. case_decide; [subst|done]. by destruct (m !! y).
Qed.

Lemma not_head (st : list nat) x : x ∉ st -> head st <> Some x.
Proof. intros Hx. destruct st as [|g st]; [done|]. intros [= ->]. apply Hx. left. Qed.

Lemma enter_ok w me s i st f fb v : sched_ok w s i st -> fw_scheds w !! s = Some i -> owner_thread i = me ->
  fw_fibers w !! f = Some fb -> fb_owner fb = s -> f ∉ st ->
  sched_ok (entered me s f fb v st i w) s (entered_sched s f st i) (f :: st).
Proof.
  intros Hs Hi Hme Hf Ho Hn. pose proof Hs as [O1 O2 O3 O4 O5 O6 O7 O8 O9].
  assert (Hot : owner_thread (entered_sched s f st i) = me) by (by destruct st).
  split.
  - by destruct st.
  - by apply list.NoDup_cons.
  - split; [|split].
    + eexists. split; [apply lookup_insert_eq|done].
    + destruct st as [|g st]; cbn; [by rewrite lookup_insert_eq|].
      destruct (frames_alive w s (g :: st) g O3 ltac:(left)) as (gb & Hg & _).
      unfold entered_fibers. rewrite lookup_insert_ne by (intros ->; apply Hn; left). by rewrite lookup_alter_eq, Hg.
    + apply (frames_ext w); [done| | |done].
      * intros x xb Hx E Hxo. cbn. unfold entered_fibers. rewrite lookup_insert_ne by (intros ->; done).
        destruct st as [|g st]; [by exists xb|]. rewrite lookup_alter. case_decide; [subst|]; rewrite E; (eexists; split_and!; [reflexivity|done|done]).
      * intros [s'|x] Hp Hx; cbn.
        -- subst s'. rewrite lookup_insert_eq, Hi. destruct st; [done|reflexivity].
        -- rewrite entered_other; [done|by intros ->|]. intros E. apply Hp. by rewrite E.
  - eexists. split; [apply lookup_insert_eq|done].
  - cbn [tail]. intros x Hx. cbn. unfold entered_fibers. rewrite lookup_insert_ne by (intros ->; done).
    destruct st as [|g st]; [by apply not_elem_of_nil in Hx|]. rewrite lookup_alter. case_decide as E.
    + subst x. destruct (frames_alive w s (g :: st) g O3 ltac:(left)) as (gb & -> & _). by eexists.
    + apply O5. cbn. by apply elem_of_cons in Hx as [->|Hx].
  - intros x xb Hx Hxo Hxn. apply not_elem_of_cons in Hxn as [Hx1 Hx2]. cbn in Hx.
    rewrite entered_other in Hx by (done || by apply not_head). by apply O6.
  - rewrite Hot. cbn. apply lookup_insert_eq.
  - rewrite Hot, <- Hme. done.
  - destruct st; cbn [entered_sched live_fibers set_current set_root_context];
      rewrite O9; do 2 f_equal; symmetry; apply owned_ext; intros x; by apply entered_owner.
Qed.

Lemma leave_ok w me s i f fb st x p v : sched_ok w s i (f :: st) -> fw_scheds w !! s = Some i -> owner_thread i = me ->
  fw_fibers w !! f = Some fb -> (x = VL_FIBER_SUSPENDED /\ p = InYield f) \/ (x = VL_FIBER_DONE /\ p = InExit) ->
  sched_ok (left_world me s f fb x p v st i w) s (left_sched st i) st.
Proof.
  intros Hs Hi Hme Hf Hxp. pose proof Hs as [O1 O2 O3 O4 O5 O6 O7 O8 O9].
  assert (Hot : owner_thread (left_sched st i) = me) by (by destruct st).
  apply list.NoDup_cons in O2 as [Hn O2]. destruct O3 as ((fb' & Hf' & Ho & Hc) & Hctx & O3). assert (fb' = fb) as -> by congruence.
  split.
  - by destruct st.
  - done.
  - apply (frames_ext w); [done| | |done].
    + intros y yb Hy E Hyo. cbn. unfold left_fibers. rewrite lookup_insert_ne by (intros ->; done).
      destruct st as [|g st]; [by exists yb|]. rewrite lookup_alter. case_decide; [subst|]; rewrite E; (eexists; split_and!; [reflexivity|done|done]).
    + intros [s'|y] Hp Hy; cbn.
      * subst s'. rewrite lookup_insert_eq, Hi. destruct st; [done|reflexivity].
      * rewrite left_other; [done|by intros ->|]. intros E. apply Hp. by rewrite E.
  - destruct st as [|g st]; [done|]. destruct (frames_alive w s (g :: st) g O3 ltac:(left)) as (gb & Hg & _).
    cbn. unfold left_fibers. rewrite lookup_insert_ne by (intros ->; apply Hn; left). rewrite lookup_alter_eq, Hg. by eexists.
  - intros y Hy. assert (y ∈ st) as Hyst by (destruct st; [by apply not_elem_of_nil in Hy|by right]).
    cbn. rewrite left_other; [by apply O5|by intros ->|]. destruct st as [|g st]; [done|]. intros [= ->]. by apply list.NoDup_cons in O2 as [? _].
  - intros y yb Hy Hyo Hyn. cbn in Hy. unfold left_fibers in Hy. rewrite lookup_insert in Hy. case_decide as E.
    + subst y. injection Hy as <-. split; [done|]. cbn. destruct Hxp as [[-> ->]|[-> ->]]; auto.
    + apply O6; [|done|by apply not_elem_of_cons]. destruct st as [|g st]; [done|]. rewrite lookup_alter_ne in Hy; [done|].
      intros ->. apply Hyn. left.
  - rewrite Hot. cbn. destruct st; cbn; [apply lookup_delete_eq|apply lookup_insert_eq].
  - rewrite Hot, <- Hme. done.
  - destruct st; cbn [left_sched live_fibers set_current set_root_context];
      rewrite O9; do 2 f_equal; symmetry; apply owned_ext; intros y; by apply left_owner.
Qed.

(** ** The other calls *)

(** The invariant does not mention the memory. *)
Lemma fiber_inv_ext w w' : fiber_inv w -> fw_fibers w' = fw_fibers w -> fw_scheds w' = fw_scheds w ->
  thread_sched w' = thread_sched w -> on_cpu w' = on_cpu w -> fiber_inv w'.
Proof.
  intros Hinv E1 E2 E3 E4. pose proof Hinv as [I1 I2 I3 I4 I5]. split; rewrite ?E1, ?E2, ?E3, ?E4; try done.
  intros s i Hi. destruct (I1 s i Hi) as [st Hs]. exists st.
  apply (sched_ok_frame w w' s i st Hs Hi); [by rewrite E2|intros f; left; by rewrite E1|by rewrite E4|by rewrite E3].
Qed.

(** A fiber on the stack runs or waits in a resume. *)
Lemma frames_waiting w s f st g : frames w s (f :: st) -> g ∈ st -> exists h, ctx_at w (Stack g) = Some (InResume s (Some g) h).
Proof.
  revert f. induction st as [|x st IH]; intros f Hf Hg; [by apply not_elem_of_nil in Hg|].
  destruct Hf as (_ & Hx & Hf). apply elem_of_cons in Hg as [->|Hg]; [by exists f|by apply (IH x)].
Qed.

Lemma free_fiber_off w s i st f fb : sched_ok w s i st -> fw_fibers w !! f = Some fb -> fb_state fb <> VL_FIBER_RUNNING ->
  match fb_context fb with Some (InResume _ _ _) => False | _ => True end -> f ∉ st.
Proof.
  intros Hs Hf Hst Hc Hin. destruct st as [|g st]; [by apply not_elem_of_nil in Hin|].
  apply elem_of_cons in Hin as [->|Hin].
  - destruct (so_top _ _ _ _ Hs) as (fb' & Hf' & Hr & _). congruence.
  - destruct (frames_waiting w s g st f (so_frames _ _ _ _ Hs) Hin) as (h & Hh). cbn in Hh. rewrite Hf in Hh. cbn in Hh. by rewrite Hh in Hc.
Qed.

(** A fiber that is not on the stack appears or disappears. *)
Lemma off_stack_inv w w' s i i' f o : fiber_inv w -> fw_scheds w !! s = Some i ->
  fw_fibers w' = partial_alter (fun _ => o) f (fw_fibers w) -> fw_scheds w' = <[s := i']> (fw_scheds w) ->
  thread_sched w' = thread_sched w -> on_cpu w' = on_cpu w ->
  current i' = current i -> root_context i' = root_context i -> owner_thread i' = owner_thread i ->
  (forall fb, o = Some fb -> fb_owner fb = s /\ parked f fb) ->
  (forall fb, fw_fibers w !! f = Some fb -> fb_owner fb = s) -> (forall st, sched_ok w s i st -> f ∉ st) ->
  live_fibers i' = Z.of_nat (size (owned (fw_fibers w') s)) -> Z.of_nat (size (fw_fibers w')) <= 2 ^ 57 ->
  fiber_inv w'.
Proof.
  intros Hinv Hi Ef Es Et Ec Hcur Hroot Hth Ho Hold Hoff Hlive Hcount. pose proof Hinv as [I1 I2 I3 I4 I5].
  assert (Hne : forall x, x <> f -> fw_fibers w' !! x = fw_fibers w !! x) by (intros x Hx; rewrite Ef; by apply lookup_partial_alter_ne).
  assert (Hf' : fw_fibers w' !! f = o) by (rewrite Ef; apply lookup_partial_alter_eq).
  split; [| | |by rewrite Et, Ec|done].
  - intros s2 i2. rewrite Es. intros E2. destruct (decide (s2 = s)) as [->|Hs2].
    + rewrite lookup_insert_eq in E2. injection E2 as <-. destruct (I1 s i Hi) as [st Hs]. exists st. pose proof (Hoff st Hs) as Hn.
      assert (Hst : forall x, x ∈ st -> fw_fibers w' !! x = fw_fibers w !! x) by (intros x Hx; apply Hne; by intros ->).
      destruct Hs as [O1 O2 O3 O4 O5 O6 O7 O8 O9]. split; try congruence; rewrite ?Ec, ?Et, ?Hth; try done.
      * apply (frames_ext w); [done| | |done].
        -- intros x xb Hx Hxb Hxo. exists xb. rewrite Hst by done. done.
        -- intros [s'|x] _ Hx; cbn; [subst; by rewrite Es, lookup_insert_eq, Hi|by rewrite Hst].
      * destruct st as [|g st]; [by rewrite Hroot|]. rewrite Hst by left. done.
      * intros g Hg. rewrite Hst; [by apply O5|]. destruct st; [by apply not_elem_of_nil in Hg|by right].
      * intros x xb Hx Hxo Hxn. destruct (decide (x = f)) as [->|Hxf]; [|rewrite Hne in Hx by done; by apply O6].
        rewrite Hf' in Hx. by apply Ho.
    + rewrite lookup_insert_ne in E2 by done. destruct (I1 s2 i2 E2) as [st Hs]. exists st.
      apply (sched_ok_frame w w' s2 i2 st Hs E2); [by rewrite Es, lookup_insert_ne| |by rewrite Ec|by rewrite Et].
      intros x. destruct (decide (x = f)) as [->|Hx]; [right|left; by apply Hne].
      intros fb [E|E] E'; [apply Hold in E; congruence|]. rewrite Hf' in E. apply Ho in E as [E _]. congruence.
  - intros t s2 E. rewrite Et in E. destruct (I2 t s2 E) as (i2 & E2 & E3). rewrite Es. destruct (decide (s2 = s)) as [->|Hs2].
    + exists i'. rewrite lookup_insert_eq. split; [done|]. congruence.
    + exists i2. by rewrite lookup_insert_ne.
  - intros x xb Hx. rewrite Es. assert (is_Some (fw_scheds w !! fb_owner xb)) as [y Hy].
    { destruct (decide (x = f)) as [->|Hxf]; [|rewrite Hne in Hx by done; by apply (I3 x)].
      rewrite Hf' in Hx. apply Ho in Hx as [-> _]. eauto. }
    destruct (decide (fb_owner xb = s)) as [->|]; [rewrite lookup_insert_eq; eauto|rewrite lookup_insert_ne by done; eauto].
Qed.
