(* ===== verification/FiberStack.v ===== *)
(** * Stacks of fibers, and the system of threads and fibers

    A fiber's mapping is a guard page, then the reserved stack, of which the part from
    [mapped_low] up is accessible.  The invariant of the memory and the one of the
    switches ([FiberProps]) hold together in every reachable state. *)

From S2P Require Import Prelude SizeClass PageHeap Fiber FiberProps.
From stdpp Require Import options.

Open Scope Z_scope.

Definition accessible (w : fworld) (a : Z) : Prop := exists r, r ∈ fw_rw w /\ r.1 <= a < r.1 + r.2.

(** The users of mappings: fibers ([inl]) and schedulers ([inr]). *)
Definition stack_user (w : fworld) (u : nat + nat) : option (Z * Z) :=
  match u with
  | inl f => fb ← fw_fibers w !! f; Some (stack_base fb, mapping_size fb)
  | inr s => i ← fw_scheds w !! s; Some (signal_stack i, signal_stack_size i)
  end.

Section stacks.
Context `{os_memory}.

Record layout_ok (w : fworld) (fb : vl_fiber) : Prop := {
  ly_low : stack_low fb = stack_base fb + sysconf_pagesize;
  ly_top : stack_top fb = stack_base fb + mapping_size fb;
  ly_mapped : stack_low fb <= mapped_low fb <= stack_top fb - sysconf_pagesize;
  ly_page : mapped_low fb mod sysconf_pagesize = 0;
  ly_rw : forall a, stack_base fb <= a < stack_top fb -> accessible w a <-> mapped_low fb <= a }.

Record stacks_ok (w : fworld) : Prop := {
  sk_maps : forall b k, fw_maps w !! b = Some k -> 0 < b /\ b mod sysconf_pagesize = 0 /\ 0 < k /\ b + k <= 2 ^ 56;
  sk_disjoint : forall b k b' k', fw_maps w !! b = Some k -> fw_maps w !! b' = Some k' -> b <> b' -> disjoint_range b k b' k';
  sk_rw : forall r, r ∈ fw_rw w -> exists b k, fw_maps w !! b = Some k /\ b <= r.1 /\ r.1 + r.2 <= b + k /\ 0 < r.2;
  sk_user : forall u b k, stack_user w u = Some (b, k) -> fw_maps w !! b = Some k;
  sk_inj : forall u u' b k k', stack_user w u = Some (b, k) -> stack_user w u' = Some (b, k') -> u = u';
  sk_fiber : forall f fb, fw_fibers w !! f = Some fb -> layout_ok w fb;
  sk_page : forall s i, fw_scheds w !! s = Some i -> sched_page_size i = sysconf_pagesize }.

Definition layout (fb : vl_fiber) := (stack_base fb, stack_low fb, mapped_low fb, stack_top fb, mapping_size fb).
Definition signal_part (i : vl_fiber_sched_impl) := (signal_stack i, signal_stack_size i, sched_page_size i).

#[local] Set Default Proof Using "Type*".
Context `{!os_memory_laws}.

(** A change that touches no layout and no mapping. *)
Lemma stacks_same w w' : stacks_ok w -> fw_maps w' = fw_maps w -> fw_rw w' = fw_rw w ->
  (forall f, layout <$> fw_fibers w' !! f = layout <$> fw_fibers w !! f) ->
  (forall s, signal_part <$> fw_scheds w' !! s = signal_part <$> fw_scheds w !! s) -> stacks_ok w'.
Proof.
  intros [K1 K2 K3 K4 K5 K6 K7] Em Er Ef Es.
  assert (Eu : forall u, stack_user w' u = stack_user w u).
  { intros [f|s]; cbn; [specialize (Ef f); destruct (fw_fibers w' !! f), (fw_fibers w !! f)|
      specialize (Es s); destruct (fw_scheds w' !! s), (fw_scheds w !! s)]; cbn in *; unfold layout, signal_part in *; congruence. }
  split; rewrite ?Em, ?Er; try done.
  - intros u b k. rewrite Eu. apply K4.
  - intros u u' b k k'. rewrite !Eu. apply K5.
  - intros f fb E. specialize (Ef f). rewrite E in Ef. destruct (fw_fibers w !! f) as [fb0|] eqn:E0; [|done].
    destruct (K6 f fb0 E0) as [L1 L2 L3 L4 L5]. unfold layout in Ef. cbn in Ef. injection Ef as E1 E2 E3 E4 E5.
    split; try congruence; rewrite ?E1, ?E2, ?E3, ?E4; try done. intros a Ha. unfold accessible. rewrite Er. by apply L5.
  - intros s i E. specialize (Es s). rewrite E in Es. destruct (fw_scheds w !! s) as [i0|] eqn:E0; [|done].
    unfold signal_part in Es. cbn in Es. injection Es as _ _ E3. rewrite E3. by apply (K7 s).
Qed.

(** The world after a mapping at [base] of [bytes] was added. *)
Definition mapped_world (base bytes : Z) (rw : bool) (w : fworld) : fworld :=
  set_fw_rw (if rw then (base, bytes) :: fw_rw w else fw_rw w) (set_fw_maps (<[base := bytes]> (fw_maps w)) (fw_tick w)).

Definition fresh_map (w : fworld) (base bytes : Z) : Prop :=
  0 < base /\ base mod sysconf_pagesize = 0 /\ base + bytes <= 2 ^ 56 /\
  forall b k, fw_maps w !! b = Some k -> disjoint_range base bytes b k.

Lemma fw_mmap_spec w bytes rw : 0 < bytes ->
  exists o w', fw_mmap bytes rw w = Some (o, w') /\
    ((o = None /\ w' = fw_tick w) \/ exists base, o = Some base /\ fresh_map w base bytes /\ w' = mapped_world base bytes rw w).
Proof.
  intros Hb. unfold fw_mmap. destruct (mmap _ _ _) as [base|] eqn:E; eexists _, _; (split; [done|]); [right|by left].
  exists base. split; [done|]. split; [|done]. apply mmap_law in E. exact E.
Qed.

Lemma fresh_map_None w base bytes : stacks_ok w -> fresh_map w base bytes -> 0 < bytes -> fw_maps w !! base = None.
Proof.
  intros Hk (H1 & H2 & H3 & H4) Hb. destruct (fw_maps w !! base) as [k|] eqn:E; [|done].
  pose proof (H4 _ _ E). pose proof (sk_maps w Hk _ _ E). unfold disjoint_range in *. lia.
Qed.

(** Addresses of the new mapping are not accessible before. *)
Lemma fresh_not_accessible w base bytes a : stacks_ok w -> fresh_map w base bytes -> base <= a < base + bytes -> ~ accessible w a.
Proof.
  intros Hk (_ & _ & _ & Hd) Ha (r & Hr & Hra). destruct (sk_rw w Hk r Hr) as (b & k & Hb & H1 & H2 & H3).
  specialize (Hd b k Hb). unfold disjoint_range in Hd. lia.
Qed.


Lemma mapped_world_ok w base bytes rw : stacks_ok w -> fresh_map w base bytes -> 0 < bytes -> stacks_ok (mapped_world base bytes rw w).
Proof.
  intros Hk Hf Hb. pose proof (fresh_map_None w base bytes Hk Hf Hb) as HN. pose proof Hf as (F1 & F2 & F3 & F4).
  pose proof Hk as [K1 K2 K3 K4 K5 K6 K7].
  assert (Hold : forall b k, fw_maps w !! b = Some k -> <[base := bytes]> (fw_maps w) !! b = Some k).
  { intros b k E. rewrite lookup_insert_ne; [done|]. congruence. }
  split; cbn.
  - intros b k. rewrite lookup_insert. case_decide; [intros [= <-]; subst; done|apply K1].
  - intros b k b' k'. rewrite !lookup_insert. repeat case_decide; intros; simplify_eq; eauto.
    pose proof (F4 b k ltac:(done)). unfold disjoint_range in *. lia.
  - intros r Hr. assert (r = (base, bytes) \/ r ∈ fw_rw w) as [->|Hr'].
    { destruct rw; [by apply elem_of_cons in Hr|by right]. }
    + exists base, bytes. rewrite lookup_insert_eq. cbn. split; [done|]. lia.
    + destruct (K3 r Hr') as (b & k & E & ?). exists b, k. split; [by apply Hold|done].
  - intros u b k E. apply Hold, (K4 u). by destruct u.
  - intros u u' b k k' E E'. apply (K5 u u' b k k'); [by destruct u|by destruct u'].
  - intros f fb E. destruct (K6 f fb E) as [L1 L2 L3 L4 L5]. split; try done. intros a Ha. rewrite <- L5 by done.
    unfold accessible. cbn. destruct rw; [|done]. split; intros (r & Hr & Hra); exists r; (split; [|done]); [|by right].
    apply elem_of_cons in Hr as [->|Hr]; [|done]. exfalso. cbn in Hra.
    pose proof (K4 (inl f) (stack_base fb) (mapping_size fb) ltac:(cbn; by rewrite E)) as Em. specialize (F4 _ _ Em).
    unfold disjoint_range in F4. lia.
  - done.
Qed.
(** Fewer users of the same memory. *)
Lemma stacks_fewer w w' : stacks_ok w -> fw_maps w' = fw_maps w -> fw_rw w' = fw_rw w ->
  fw_fibers w' ⊆ fw_fibers w -> fw_scheds w' ⊆ fw_scheds w -> stacks_ok w'.
Proof.
  intros [K1 K2 K3 K4 K5 K6 K7] Em Er Ef Es.
  assert (Eu : forall u x, stack_user w' u = Some x -> stack_user w u = Some x).
  { intros [f|s] x; cbn; [destruct (fw_fibers w' !! f) as [y|] eqn:E|destruct (fw_scheds w' !! s) as [y|] eqn:E]; try done;
      (erewrite lookup_weaken by eassumption); done. }
  split; rewrite ?Em, ?Er; try done.
  - intros u b k E. apply (K4 u). by apply Eu.
  - intros u u' b k k' E E'. apply (K5 u u' b k k'); by apply Eu.
  - intros f fb E. destruct (K6 f fb ltac:(by eapply lookup_weaken)) as [L1 L2 L3 L4 L5]. split; try done.
    intros a Ha. unfold accessible. rewrite Er. by apply L5.
  - intros s i E. apply (K7 s). by eapply lookup_weaken.
Qed.

Definition unmapped_world (base size : Z) (w : fworld) : fworld :=
  set_fw_rw (filter (range_outside base size) (fw_rw w)) (set_fw_maps (delete base (fw_maps w)) (fw_tick w)).

Lemma fw_munmap_run w base size : fw_maps w !! base = Some size ->
  fw_munmap base size w = Some (tt, if munmap (fw_calls w) base size then unmapped_world base size w else fw_tick w).
Proof. intros E. unfold fw_munmap. rewrite decide_True by done. by destruct (munmap _ _ _). Qed.

Lemma unmapped_ok w base size : stacks_ok w -> fw_maps w !! base = Some size ->
  (forall u k, stack_user w u <> Some (base, k)) -> stacks_ok (unmapped_world base size w).
Proof.
  intros [K1 K2 K3 K4 K5 K6 K7] Hb Hno.
  assert (Hold : forall b k, b <> base -> fw_maps w !! b = Some k -> delete base (fw_maps w) !! b = Some k).
  { intros b k Hne E. by rewrite lookup_delete_ne. }
  assert (Hin : forall r, r ∈ fw_rw w -> range_outside base size r -> exists b k, fw_maps w !! b = Some k /\ b <> base /\ b <= r.1 /\ r.1 + r.2 <= b + k /\ 0 < r.2).
  { intros r Hr Ho. destruct (K3 r Hr) as (b & k & E & H1 & H2 & H3). exists b, k. split_and!; try done. intros ->.
    apply Ho. assert (k = size) as -> by congruence. lia. }
  split; cbn.
  - intros b k [_ E]%lookup_delete_Some. by apply K1.
  - intros b k b' k' [_ E]%lookup_delete_Some [_ E']%lookup_delete_Some. by apply K2.
  - intros r [Ho Hr]%list_elem_of_filter. destruct (Hin r Hr Ho) as (b & k & E & Hne & ?). exists b, k. split; [by apply Hold|done].
  - intros u b k E. assert (E' : stack_user w u = Some (b, k)) by (by destruct u). apply Hold; [|by apply (K4 u)].
    intros ->. by apply (Hno u k).
  - intros u u' b k k' E E'. apply (K5 u u' b k k'); [by destruct u|by destruct u'].
  - intros f fb E. destruct (K6 f fb E) as [L1 L2 L3 L4 L5]. split; try done. intros a Ha. rewrite <- L5 by done.
    pose proof (K4 (inl f) (stack_base fb) (mapping_size fb) ltac:(cbn; by rewrite E)) as Em.
    assert (stack_base fb <> base) as Hne by (intros Eb; apply (Hno (inl f) (mapping_size fb)); cbn; rewrite E; cbn; by rewrite Eb).
    pose proof (K2 _ _ _ _ Em Hb Hne) as Hd. unfold accessible. cbn. split; intros (r & Hr & Hra).
    + apply list_elem_of_filter in Hr as [_ Hr]. by exists r.
    + exists r. split; [|done]. apply list_elem_of_filter. split; [|done]. intros Hri.
      destruct (K3 r Hr) as (b & k & E' & H1 & H2 & H3). destruct (decide (b = base)) as [->|Hne'].
      * assert (k = size) as -> by congruence. unfold disjoint_range in Hd. lia.
      * pose proof (K2 _ _ _ _ E' Hb Hne') as Hd'. unfold disjoint_range in Hd'. lia.
  - done.
Qed.

(** A mapping that was just made has no user. *)
Lemma fresh_no_user w base bytes rw u k : stacks_ok w -> fresh_map w base bytes -> 0 < bytes ->
  stack_user (mapped_world base bytes rw w) u <> Some (base, k).
Proof.
  intros Hk Hf Hb E. assert (E' : stack_user w u = Some (base, k)) by (by destruct u).
  apply (sk_user w Hk) in E'. by rewrite (fresh_map_None w base bytes Hk Hf Hb) in E'.
Qed.

(** Growing the accessible part of a stack down to [new_low]. *)
Lemma grow_ok w f fb new_low : stacks_ok w -> fw_fibers w !! f = Some fb -> stack_low fb <= new_low < mapped_low fb ->
  new_low mod sysconf_pagesize = 0 ->
  stacks_ok (set_fw_fibers (<[f := set_mapped_low new_low fb]> (fw_fibers w)) (set_fw_rw ((new_low, mapped_low fb - new_low) :: fw_rw w) w)).
Proof.
  intros Hk Hf Hlow Hp. pose proof Hk as [K1 K2 K3 K4 K5 K6 K7]. pose proof (K6 f fb Hf) as [L1 L2 L3 L4 L5].
  pose proof page_bounds as [Hpb _].
  pose proof (K4 (inl f) (stack_base fb) (mapping_size fb) ltac:(cbn; by rewrite Hf)) as Em.
  set (w' := set_fw_fibers _ _).
  assert (Eu : forall u, stack_user w' u = stack_user w u).
  { intros [g|s]; cbn; [|done]. rewrite lookup_insert. case_decide as E; [subst g; by rewrite Hf|done]. }
  split; try done.
  - intros r. cbn. intros [->|Hr]%elem_of_cons; [|by apply K3]. exists (stack_base fb), (mapping_size fb). cbn. split; [done|]. lia.
  - intros u b k. rewrite Eu. apply K4.
  - intros u u' b k k'. rewrite !Eu. apply K5.
  - intros g gb. cbn. rewrite lookup_insert. case_decide as E.
    + subst g. intros [= <-]. split; cbn; try done; [lia|]. intros a Ha. split.
      * intros (r & Hr & Hra). cbn in Hr. apply elem_of_cons in Hr as [->|Hr]; [cbn in Hra; lia|].
        assert (mapped_low fb <= a); [|lia]. apply L5; [lia|]. by exists r.
      * intros Ha'. destruct (decide (a < mapped_low fb)).
        -- eexists (new_low, _). split; [left|]. cbn. lia.
        -- destruct (proj2 (L5 a ltac:(lia)) ltac:(lia)) as (r & Hr & Hra). exists r. split; [by right|done].
    + intros Hg. destruct (K6 g gb Hg) as [M1 M2 M3 M4 M5]. split; try done. intros a Ha. rewrite <- M5 by done.
      pose proof (K4 (inl g) (stack_base gb) (mapping_size gb) ltac:(cbn; by rewrite Hg)) as Eg.
      assert (stack_base gb <> stack_base fb) as Hne.
      { intros Eb. assert (inl f = inl g :> nat + nat) as [=]; [|done].
        apply (K5 (inl f) (inl g) (stack_base fb) (mapping_size fb) (mapping_size gb)); cbn; [by rewrite Hf|rewrite Hg; cbn; by rewrite Eb]. }
      pose proof (K2 _ _ _ _ Eg Em Hne) as Hd. unfold accessible. cbn. split; intros (r & Hr & Hra); exists r; (split; [|done]); [|by right].
      apply elem_of_cons in Hr as [->|Hr]; [|done]. cbn in Hra. unfold disjoint_range in Hd. lia.
Qed.
End stacks.

(** ** The coroutines a scheduler's fibers implement *)

(** Following the [caller] links from [current]. *)
Inductive callers (m : gmap nat vl_fiber) : option nat -> list nat -> Prop :=
  | callers_root : callers m None []
  | callers_fiber f fb st : m !! f = Some fb -> callers m (fb_caller fb) st -> callers m (Some f) (f :: st).

Definition states (m : gmap nat vl_fiber) (s : nat) : gmap nat vl_fiber_state :=
  omap (fun fb => if decide (fb_owner fb = s) then Some (fb_state fb) else None) m.

Definition abstracts (w : fworld) (s : nat) (co : coroutines) : Prop :=
  co_state co = states (fw_fibers w) s /\
  exists i, fw_scheds w !! s = Some i /\ callers (fw_fibers w) (current i) (co_stack co).

Lemma sched_ok_abstracts w s i st : sched_ok w s i st -> fw_scheds w !! s = Some i -> abstracts w s (mk_co st (states (fw_fibers w) s)).
Proof.
  intros Hs Hi. split; [done|]. exists i. split; [done|]. rewrite (so_current _ _ _ _ Hs). cbn [co_stack].
  pose proof (so_frames _ _ _ _ Hs) as Hf. clear Hs. induction st as [|f st IH]; [constructor|].
  destruct Hf as ((fb & E & _ & Hc) & _ & Hf). cbn. econstructor; [exact E|]. rewrite Hc. by apply IH.
Qed.

Lemma callers_unique m c st st' : callers m c st -> callers m c st' -> st = st'.
Proof.
  intros H1. revert st'. induction H1 as [|f fb st E _ IH]; intros st' H2; inversion H2; subst; [done|].
  f_equal. apply IH. congruence.
Qed.

Lemma states_lookup m s x : states m s !! x = m !! x ≫= fun fb => if decide (fb_owner fb = s) then Some (fb_state fb) else None.
Proof. apply lookup_omap. Qed.

Lemma states_entered s f fb v st m : m !! f = Some fb -> fb_owner fb = s -> f ∉ st ->
  (forall g, g ∈ st -> exists gb, m !! g = Some gb /\ fb_owner gb = s) ->
  states (entered_fibers s f fb v st m) s = set_states ((f, VL_FIBER_RUNNING) :: top_state st VL_FIBER_SUSPENDED) (states m s).
Proof.
  intros Hf Ho Hn Hst. apply map_eq. intros x. rewrite states_lookup. cbn. rewrite lookup_insert. unfold entered_fibers. rewrite lookup_insert.
  case_decide as E; [cbn; by rewrite decide_True|]. destruct st as [|g st]; cbn; [by rewrite states_lookup|].
  rewrite lookup_insert, lookup_alter. case_decide as E'; [|by rewrite states_lookup].
  destruct (Hst g ltac:(left)) as (gb & Hg & Hgo). rewrite Hg. cbn. by rewrite decide_True.
Qed.

Lemma states_left s f fb x p v st m : m !! f = Some fb -> fb_owner fb = s -> f ∉ st ->
  (forall g, g ∈ st -> exists gb, m !! g = Some gb /\ fb_owner gb = s) ->
  states (left_fibers f fb x p v st m) s = set_states ((f, x) :: top_state st VL_FIBER_RUNNING) (states m s).
Proof.
  intros Hf Ho Hn Hst. apply map_eq. intros y. rewrite states_lookup. cbn. rewrite lookup_insert. unfold left_fibers. rewrite lookup_insert.
  case_decide as E; [cbn; by rewrite decide_True|]. destruct st as [|g st]; cbn; [by rewrite states_lookup|].
  rewrite lookup_insert, lookup_alter. case_decide as E'; [|by rewrite states_lookup].
  destruct (Hst g ltac:(left)) as (gb & Hg & Hgo). rewrite Hg. cbn. by rewrite decide_True.
Qed.

(** ** Every call keeps both invariants *)

Section steps.
Context `{os_memory}.

Definition fworld_ok (w : fworld) : Prop := fiber_inv w /\ stacks_ok w.

#[local] Set Default Proof Using "Type*".
Context `{!os_memory_laws}.

Lemma entered_stacks me s f fb v st i w : stacks_ok w -> fw_fibers w !! f = Some fb -> fw_scheds w !! s = Some i ->
  stacks_ok (entered me s f fb v st i w).
Proof.
  intros Hk Hf Hi. apply (stacks_same w); [done|done|done|..].
  - intros x. cbn. unfold entered_fibers. rewrite lookup_insert. case_decide; [subst; by rewrite Hf|].
    destruct st as [|g st]; [done|]. rewrite lookup_alter. case_decide; [subst|done]. by destruct (fw_fibers w !! x).
  - intros x. cbn. rewrite lookup_insert. case_decide; [subst|done]. rewrite Hi. by destruct st.
Qed.

Lemma left_stacks me s f fb x p v st i w : stacks_ok w -> fw_fibers w !! f = Some fb -> fw_scheds w !! s = Some i ->
  stacks_ok (left_world me s f fb x p v st i w).
Proof.
  intros Hk Hf Hi. apply (stacks_same w); [done|done|done|..].
  - intros y. cbn. unfold left_fibers. rewrite lookup_insert. case_decide; [subst; by rewrite Hf|].
    destruct st as [|g st]; [done|]. rewrite lookup_alter. case_decide; [subst|done]. by destruct (fw_fibers w !! y).
  - intros y. cbn. rewrite lookup_insert. case_decide; [subst|done]. rewrite Hi. by destruct st.
Qed.

(** Entering and leaving a fiber. *)
Lemma entered_inv w me s i st f fb v : fworld_ok w -> sched_ok w s i st -> fw_scheds w !! s = Some i -> owner_thread i = me ->
  fw_fibers w !! f = Some fb -> fb_owner fb = s -> f ∉ st -> fworld_ok (entered me s f fb v st i w).
Proof.
  intros [Hinv Hk] Hs Hi Hme Hf Ho Hn. split; [|by apply entered_stacks].
  apply (switch_inv w me s i _ (f :: st) _ _ Hinv Hi Hme); [by destruct st| | | |by apply enter_ok].
  - intros x. by apply entered_owner.
  - intros x. destruct (decide (x = f)) as [->|Hx]; [right; by rewrite Hf; cbn; f_equal|].
    destruct (decide (head st = Some x)) as [E|E]; [|left; by apply entered_other].
    right. destruct (frames_alive w s st x (so_frames _ _ _ _ Hs)) as (xb & -> & <-); [|done].
    destruct st; [done|]. injection E as ->. left.
  - intros t Ht. by rewrite lookup_insert_ne.
Qed.

Lemma left_inv w me s i st f fb x p v : fworld_ok w -> sched_ok w s i (f :: st) -> fw_scheds w !! s = Some i -> owner_thread i = me ->
  fw_fibers w !! f = Some fb -> (x = VL_FIBER_SUSPENDED /\ p = InYield f) \/ (x = VL_FIBER_DONE /\ p = InExit) ->
  fworld_ok (left_world me s f fb x p v st i w).
Proof.
  intros [Hinv Hk] Hs Hi Hme Hf Hxp. split; [|by apply left_stacks].
  destruct (frames_alive w s (f :: st) f (so_frames _ _ _ _ Hs) ltac:(left)) as (fb' & Hf' & Ho). assert (fb' = fb) as -> by congruence.
  apply (switch_inv w me s i _ st _ _ Hinv Hi Hme); [by destruct st| | | |by apply leave_ok].
  - intros y. by apply left_owner.
  - intros y. destruct (decide (y = f)) as [->|Hy]; [right; by rewrite Hf; cbn; f_equal|].
    destruct (decide (head st = Some y)) as [E|E]; [|left; by apply left_other].
    right. destruct (frames_alive w s (f :: st) y (so_frames _ _ _ _ Hs)) as (yb & -> & <-); [|done].
    destruct st; [done|]. injection E as ->. right. left.
  - intros t Ht. destruct st; cbn; [by rewrite lookup_delete_ne|by rewrite lookup_insert_ne].
Qed.
(** The calls that move along the stack of scheduler [s]. *)
Definition switches (s : nat) (call : fiber_call) : Prop :=
  match call with
  | CResume (Some (Some s')) (Some _) _ true | CYield (Some (Some s')) _ => s' = s
  | CReturn _ => True
  | _ => False
  end.

Definition call_ok (me : nat) (call : fiber_call) (w : fworld) : Prop :=
  exists o w', fiber_exec me call w = Some (o, w') /\ fworld_ok w' /\
    forall s i st, sched_ok w s i st -> fw_scheds w !! s = Some i -> owner_thread i = me -> switches s call ->
      exists co', co_step s call (mk_co st (states (fw_fibers w) s)) o co' /\ abstracts w' s co'.

(** A call that answers at once and is no switch. *)
Lemma call_ok_plain me call w o : fworld_ok w -> fiber_exec me call w = Some (o, w) -> (forall s i, fw_scheds w !! s = Some i -> owner_thread i = me -> ~ switches s call) ->
  call_ok me call w.
Proof.
  intros Hw Hr Hno. exists o, w. split; [done|]. split; [done|]. intros s i st _ Hi Hme Hsw. by destruct (Hno s i).
Qed.

Lemma same_sched w me s s' i i' : fiber_inv w -> fw_scheds w !! s = Some i -> owner_thread i = me ->
  fw_scheds w !! s' = Some i' -> owner_thread i' = me -> s' = s /\ i' = i.
Proof.
  intros Hinv Hi Hme Hi' Hme'. assert (s' = s) as -> by (eapply owner_thread_inj; [done|done|done|congruence]). split; congruence.
Qed.

Lemma resume_call w me sched fiber v rv : fworld_ok w -> fiber_allowed w me (CResume sched fiber v rv) ->
  call_ok me (CResume sched fiber v rv) w.
Proof.
  intros Hw [Hvs Hnw]. pose proof Hw as [Hinv Hk].
  destruct sched as [[s|]|]; [|destruct fiber, rv; (eapply call_ok_plain; [done|reflexivity|intros ???? []])..].
  destruct fiber as [f|]; [|eapply call_ok_plain; [done|reflexivity|intros ???? []]].
  destruct rv; [|eapply call_ok_plain; [done|reflexivity|intros ???? []]].
  destruct Hvs as [i Hi]. destruct Hnw as (fb & Hf & Hctx).
  unfold call_ok, fiber_exec. rewrite bind_run. unfold gets. rewrite bind_run.
  destruct (decide (owner_thread i = me)) as [Hme|Hme].
  2: { assert (Hr : vl_fiber_resume me (on_cpu w !! me) (Some (Some s)) (Some f) v true w = Some (Answered (on_cpu w !! me) VL_ERROR_INVALID_STATE, w)).
       { unfold vl_fiber_resume. by rewrite bind_run, (is_owner_run me s i w Hi), bool_decide_false. }
       rewrite Hr. eexists _, _. split; [done|]. split; [done|]. intros s' i' st Hs Hi' Hme' Hsw. cbn in Hsw. subst s'. congruence. }
  destruct (fi_sched w Hinv s i Hi) as [st Hs].
  destruct (decide (fb_owner fb <> s \/ fb_state fb = VL_FIBER_RUNNING \/ fb_state fb = VL_FIBER_DONE)) as [Hno|Hyes].
  - assert (Hr : vl_fiber_resume me (on_cpu w !! me) (Some (Some s)) (Some f) v true w = Some (Answered (on_cpu w !! me) VL_ERROR_INVALID_STATE, w)).
    { unfold vl_fiber_resume. rewrite bind_run, (is_owner_run me s i w Hi), bool_decide_true by done.
      by rewrite (bind_Some _ _ _ _ _ (load_fiber_run f fb w Hf)), decide_True. }
    rewrite Hr. eexists _, _. split; [done|]. split; [done|]. intros s' i' st' Hs' Hi' Hme' Hsw. cbn in Hsw. subst s'.
    assert (i' = i) as -> by congruence. exists (mk_co st' (states (fw_fibers w) s)).
    pose proof (so_cpu _ _ _ _ Hs') as Hc. rewrite Hme in Hc. rewrite Hc. split; [|by eapply sched_ok_abstracts].
    apply co_refuse; rewrite states_lookup, Hf; cbn; destruct (decide (fb_owner fb = s)); try done;
      intros [= E]; destruct Hno as [?|[?|?]]; congruence.
  - assert (Ho : fb_owner fb = s) by (destruct (decide (fb_owner fb = s)); tauto).
    assert (Hn : f ∉ st) by (apply (free_fiber_off w s i st f fb Hs Hf); [tauto|done]).
    rewrite (resume_switch w me s i st f fb v _ Hs Hi Hme Hf Ho Hn) by tauto.
    eexists _, _. split; [done|]. split; [by apply entered_inv|]. intros s' i' st' Hs' Hi' Hme' Hsw. cbn in Hsw. subst s'. assert (i' = i) as -> by congruence.
    assert (st' = st) as ->.
    { destruct (sched_ok_abstracts _ _ _ _ Hs Hi) as [_ (x & Ex & Cx)], (sched_ok_abstracts _ _ _ _ Hs' Hi) as [_ (y & Ey & Cy)].
      cbn in Cx, Cy. assert (x = y) as -> by congruence. by eapply callers_unique. }
    pose proof (enter_ok w me s i st f fb v Hs Hi Hme Hf Ho Hn) as Hs2.
    eexists. split; [|eapply sched_ok_abstracts; [exact Hs2|cbn; apply lookup_insert_eq]].
    cbn [fw_fibers entered set_on_cpu set_fw_scheds set_fw_fibers].
    rewrite states_entered; [|done|done|done|intros g Hg; by apply (frames_alive w s st g (so_frames _ _ _ _ Hs))].
    destruct (so_off _ _ _ _ Hs f fb Hf Ho Hn) as [_ [[E _]|[[E _]|[E _]]]]; [| |tauto]; rewrite E;
      [apply co_resume|apply co_continue]; rewrite states_lookup, Hf; cbn; by rewrite decide_True, E.
Qed.
Lemma sched_stack_unique w s i st st' : fw_scheds w !! s = Some i -> sched_ok w s i st -> sched_ok w s i st' -> st' = st.
Proof.
  intros Hi Hs Hs'. destruct (sched_ok_abstracts _ _ _ _ Hs Hi) as [_ (x & Ex & Cx)], (sched_ok_abstracts _ _ _ _ Hs' Hi) as [_ (y & Ey & Cy)].
  cbn in Cx, Cy. assert (x = y) as -> by congruence. by eapply callers_unique.
Qed.

(** The top fiber leaves: what a yield and a return share. *)
Lemma left_abstract w me s i f fb st x p v : fworld_ok w -> sched_ok w s i (f :: st) -> fw_scheds w !! s = Some i -> owner_thread i = me ->
  fw_fibers w !! f = Some fb -> (x = VL_FIBER_SUSPENDED /\ p = InYield f) \/ (x = VL_FIBER_DONE /\ p = InExit) ->
  abstracts (left_world me s f fb x p v st i w) s
    (mk_co st (set_states ((f, x) :: top_state st VL_FIBER_RUNNING) (states (fw_fibers w) s))).
Proof.
  intros Hw Hs Hi Hme Hf Hxp. pose proof (leave_ok w me s i f fb st x p v Hs Hi Hme Hf Hxp) as Hs2.
  pose proof (so_nodup _ _ _ _ Hs) as [Hn _]%list.NoDup_cons.
  destruct (frames_alive w s (f :: st) f (so_frames _ _ _ _ Hs) ltac:(left)) as (fb' & Hf' & Ho). assert (fb' = fb) as -> by congruence.
  rewrite <- (states_left s f fb x p v st (fw_fibers w) Hf Ho Hn); [|intros g Hg; apply (frames_alive w s (f :: st) g (so_frames _ _ _ _ Hs)); by right].
  eapply sched_ok_abstracts; [exact Hs2|cbn; apply lookup_insert_eq].
Qed.

Lemma yield_call w me sched v : fworld_ok w -> valid_sched w sched -> call_ok me (CYield sched v) w.
Proof.
  intros Hw Hvs. pose proof Hw as [Hinv Hk].
  destruct sched as [[s|]|]; [|eapply call_ok_plain; [done|reflexivity|intros ???? []]..]. destruct Hvs as [i Hi].
  unfold call_ok, fiber_exec. rewrite bind_run. unfold gets. rewrite bind_run.
  destruct (decide (owner_thread i = me)) as [Hme|Hme].
  2: { assert (Hr : vl_fiber_yield me (on_cpu w !! me) (Some (Some s)) v w = Some (Refused (on_cpu w !! me) EINVAL, w)).
       { unfold vl_fiber_yield. rewrite bind_run. cbn [default from_option id]. by rewrite (is_owner_run me s i w Hi), bool_decide_false. }
       rewrite Hr. eexists _, _. split; [done|]. split; [done|]. intros s' i' st Hs Hi' Hme' Hsw. cbn in Hsw. subst s'. congruence. }
  destruct (fi_sched w Hinv s i Hi) as [st Hs]. destruct st as [|f st].
  - assert (Hr : vl_fiber_yield me (on_cpu w !! me) (Some (Some s)) v w = Some (Refused None EPERM, w)).
    { unfold vl_fiber_yield. rewrite bind_run. cbn [default from_option id]. rewrite (is_owner_run me s i w Hi), bool_decide_true by done.
      rewrite (bind_Some _ _ _ _ _ (load_sched_run s i w Hi)), (so_current _ _ _ _ Hs). cbn.
      pose proof (so_cpu _ _ _ _ Hs) as Hc. rewrite Hme in Hc. by rewrite Hc. }
    rewrite Hr. eexists _, _. split; [done|]. split; [done|]. intros s' i' st' Hs' Hi' Hme' Hsw. cbn in Hsw. subst s'.
    assert (i' = i) as -> by congruence. rewrite (sched_stack_unique w s i [] st' Hi Hs Hs').
    eexists. split; [apply co_yield_root|by eapply sched_ok_abstracts].
  - destruct (top_facts w s i f st Hs Hi) as (fb & Hf & _).
    rewrite (yield_switch w me s i f fb st v _ Hs Hi Hme Hf). eexists _, _. split; [done|]. split; [apply left_inv; auto|].
    intros s' i' st' Hs' Hi' Hme' Hsw. cbn in Hsw. subst s'. assert (i' = i) as -> by congruence.
    rewrite (sched_stack_unique w s i (f :: st) st' Hi Hs Hs'). eexists. split; [apply co_yield|apply left_abstract; auto].
Qed.

Lemma return_call w me v : fworld_ok w -> is_Some (on_cpu w !! me) -> call_ok me (CReturn v) w.
Proof.
  intros Hw [f Hcpu]. pose proof Hw as [Hinv Hk]. destruct (fi_cpu w Hinv me f Hcpu) as [s Hth].
  destruct (fi_thread w Hinv me s Hth) as (i & Hi & Hme). destruct (fi_sched w Hinv s i Hi) as [st Hs].
  pose proof (so_cpu _ _ _ _ Hs) as Hc. rewrite Hme, Hcpu in Hc. destruct st as [|f' st]; [done|]. injection Hc as <-.
  destruct (top_facts w s i f st Hs Hi) as (fb & Hf & _).
  unfold call_ok, fiber_exec. rewrite bind_run. unfold gets. rewrite bind_run. unfold deref. rewrite Hth, bind_run, Hcpu, bind_run.
  rewrite (finish_switch w me s i f fb st v Hs Hi Hme Hf). eexists _, _. split; [done|]. split; [apply left_inv; auto|].
  intros s' i' st' Hs' Hi' Hme' _. destruct (same_sched w me s s' i i' Hinv Hi Hme Hi' Hme') as [-> ->].
  rewrite (sched_stack_unique w s i (f :: st) st' Hi Hs Hs'). eexists. split; [apply co_return|apply left_abstract; auto].
Qed.

(** Calls that do not switch only have to keep the invariants. *)
Lemma call_ok_other me call w o w' : fiber_exec me call w = Some (o, w') -> fworld_ok w' -> (forall s, ~ switches s call) -> call_ok me call w.
Proof. intros Hr Hw Hno. exists o, w'. split; [done|]. split; [done|]. intros s i st _ _ _ Hsw. by destruct (Hno s). Qed.

(** Growing a stack changes nothing about the switches. *)
Lemma grow_inv w f fb low rw : fiber_inv w -> fw_fibers w !! f = Some fb ->
  fiber_inv (set_fw_fibers (<[f := set_mapped_low low fb]> (fw_fibers w)) (set_fw_rw rw w)).
Proof.
  intros Hinv Hf. set (w' := set_fw_fibers _ _). pose proof Hinv as [I1 I2 I3 I4 I5].
  assert (Hfb : forall x xb', fw_fibers w' !! x = Some xb' -> exists xb, fw_fibers w !! x = Some xb /\ fb_owner xb' = fb_owner xb /\
    fb_caller xb' = fb_caller xb /\ fb_context xb' = fb_context xb /\ fb_state xb' = fb_state xb).
  { intros x xb'. cbn. rewrite lookup_insert. case_decide as E; [subst x; intros [= <-]; by exists fb|intros Hx; by exists xb']. }
  assert (Hbf : forall x xb, fw_fibers w !! x = Some xb -> exists xb', fw_fibers w' !! x = Some xb' /\ fb_owner xb' = fb_owner xb /\
    fb_caller xb' = fb_caller xb /\ fb_context xb' = fb_context xb /\ fb_state xb' = fb_state xb).
  { intros x xb Hx. cbn. rewrite lookup_insert. case_decide as E; [subst x; assert (xb = fb) as -> by congruence; by eexists|by exists xb]. }
  split; try done.
  - intros s i Hi. destruct (I1 s i Hi) as [st [O1 O2 O3 O4 O5 O6 O7 O8 O9]]. exists st. split; try done.
    + apply (frames_ext w); [done| | |done].
      * intros x xb _ Hx Hxo. destruct (Hbf x xb Hx) as (xb' & E & Eo & Ec & _). exists xb'. split_and!; congruence.
      * intros [s'|x] _ _; [done|]. unfold ctx_at. destruct (fw_fibers w !! x) as [xb|] eqn:Hx.
        -- destruct (Hbf x xb Hx) as (xb' & -> & _ & _ & Ec & _). done.
        -- destruct (fw_fibers w' !! x) as [xb'|] eqn:Hx'; [|done]. destruct (Hfb x xb' Hx') as (? & ? & _). congruence.
    + destruct st as [|g st]; [done|]. destruct O4 as (gb & Hg & Hst & Hc). destruct (Hbf g gb Hg) as (gb' & E & _ & _ & Ec & Es). exists gb'. split_and!; congruence.
    + intros g Hg. destruct (O5 g Hg) as (gb & Hgb & Hst). destruct (Hbf g gb Hgb) as (gb' & E & _ & _ & _ & Es). exists gb'. split; congruence.
    + intros x xb' Hx' Hxo Hxn. destruct (Hfb x xb' Hx') as (xb & Hx & Eo & Ec & Ek & Es).
      destruct (O6 x xb Hx ltac:(congruence) Hxn) as [P1 P2]. split; [congruence|]. rewrite Ek, Es. done.
    + rewrite O9. do 2 f_equal. symmetry. apply owned_ext. intros x. cbn. rewrite lookup_insert. case_decide; [subst; by rewrite Hf|done].
  - intros x xb' Hx'. destruct (Hfb x xb' Hx') as (xb & Hx & -> & _). by apply (I3 x).
  - cbn. assert (is_Some (fw_fibers w !! f)) as Hs by eauto. rewrite <- (size_dom (D := gset nat)), dom_insert_lookup_L by done. by rewrite size_dom.
Qed.

Lemma fault_call w me kernel mprotect fault : fworld_ok w -> call_ok me (CFault kernel mprotect fault) w.
Proof.
  intros Hw. pose proof Hw as [Hinv Hk]. unfold call_ok, fiber_exec. rewrite bind_run. unfold gets. rewrite bind_run.
  assert (Hr : exists b w', vl_stack_fault_handler me kernel mprotect fault w = Some (b, w') /\ fworld_ok w').
  { unfold vl_stack_fault_handler. rewrite bind_run. unfold gets. destruct (thread_sched w !! me) as [s|] eqn:Hth; [|by exists false, w].
    destruct (fi_thread w Hinv me s Hth) as (i & Hi & Hme). rewrite (bind_Some _ _ _ _ _ (load_sched_run s i w Hi)).
    destruct (fi_sched w Hinv s i Hi) as [st Hs]. rewrite (so_current _ _ _ _ Hs). destruct st as [|f st]; cbn [head]; [by exists false, w|].
    destruct (top_facts w s i f st Hs Hi) as (fb & Hf & _). rewrite (bind_Some _ _ _ _ _ (load_fiber_run f fb w Hf)).
    destruct (kernel && _ && _ && _) eqn:E; [|by exists false, w]. destruct mprotect; [|by exists false, w].
    rewrite !andb_true_iff, Z.leb_le, Z.ltb_lt in E. destruct E as [[_ Hlo] Hhi].
    rewrite (sk_page w Hk s i Hi). rewrite bind_run. unfold modify.
    rewrite (bind_Some _ _ _ _ _ (upd_fiber_run f fb _ (set_fw_rw ((Z.ldiff fault (sysconf_pagesize - 1), mapped_low fb - Z.ldiff fault (sysconf_pagesize - 1)) :: fw_rw w) w) Hf)).
    eexists _, _. split; [done|]. split; [exact (grow_inv w f fb _ _ Hinv Hf)|].
    destruct pagesize_law as (k & Hkk & Hps). rewrite Hps, ldiff_pow2 by lia. rewrite <- Hps. clear k Hkk Hps.
    pose proof (sk_fiber w Hk f fb Hf) as [L1 L2 L3 L4 L5]. pose proof page_bounds as [Hpb _].
    assert (Hp0 : 0 < sysconf_pagesize) by lia. pose proof (Z.mod_pos_bound fault sysconf_pagesize Hp0).
    assert (Hp1 : sysconf_pagesize <> 0) by lia. pose proof (Z.div_mod fault sysconf_pagesize Hp1) as Hdm.
    assert (Hal : (fault - fault mod sysconf_pagesize) mod sysconf_pagesize = 0).
    { replace (fault - fault mod sysconf_pagesize) with (fault / sysconf_pagesize * sysconf_pagesize) by lia. apply Z.mod_mul. lia. }
    refine (grow_ok w f fb _ Hk Hf _ Hal).
    pose proof (sk_maps w Hk _ _ (sk_user w Hk (inl f) (stack_base fb) (mapping_size fb) ltac:(cbn; by rewrite Hf))) as (_ & Hba & _).
    split; [|lia]. pose proof (Z.div_mod (stack_base fb) sysconf_pagesize Hp1) as Hb. rewrite Hba in Hb.
    assert (stack_base fb / sysconf_pagesize + 1 <= fault / sysconf_pagesize) by (apply Z.div_le_lower_bound; lia). nia. }
  destruct Hr as (b & w' & -> & Hw'). eexists _, _. split; [done|]. split; [done|]. by intros s i st _ _ _ [].
Qed.
(** ** Creation and destruction *)

Lemma owned_insert m f fb s : m !! f = None -> fb_owner fb = s -> size (owned (<[f := fb]> m) s) = S (size (owned m s)).
Proof.
  intros Hf Ho. assert (owned (<[f := fb]> m) s = {[f]} ∪ owned m s) as ->.
  { apply set_eq. intros x. rewrite elem_of_union, elem_of_singleton, !elem_of_owned. setoid_rewrite lookup_insert. case_decide; naive_solver. }
  rewrite size_union, size_singleton; [done|]. intros x ->%elem_of_singleton (fb' & E & _)%elem_of_owned. congruence.
Qed.

Lemma owned_delete m f fb s : m !! f = Some fb -> fb_owner fb = s -> size (owned m s) = S (size (owned (delete f m) s)).
Proof. intros Hf Ho. rewrite <- (insert_delete_id m f fb Hf) at 1. apply owned_insert; [apply lookup_delete_eq|done]. Qed.

Lemma owned_size m s : (size (owned m s) <= size m)%nat.
Proof.
  rewrite <- (size_dom (D := gset nat) m). apply subseteq_size. intros x (fb & E & _)%elem_of_owned. apply elem_of_dom. eauto.
Qed.

Lemma add_fiber_stacks w f base bytes fb : stacks_ok w -> fresh_map w base bytes -> fw_fibers w !! f = None ->
  stack_base fb = base -> mapping_size fb = bytes -> stack_low fb = base + sysconf_pagesize -> stack_top fb = base + bytes ->
  mapped_low fb = base + bytes - sysconf_pagesize -> bytes mod sysconf_pagesize = 0 -> 2 * sysconf_pagesize <= bytes ->
  stacks_ok (set_fw_fibers (<[f := fb]> (fw_fibers w))
    (set_fw_rw ((mapped_low fb, sysconf_pagesize) :: fw_rw w) (mapped_world base bytes false w))).
Proof.
  intros Hk Hf HN E1 E2 E3 E4 E5 Hal Hbig. pose proof page_bounds as [Hpb _]. assert (Hb : 0 < bytes) by lia.
  pose proof (mapped_world_ok w base bytes false Hk Hf Hb) as [K1 K2 K3 K4 K5 K6 K7].
  pose proof (fresh_not_accessible w base bytes) as Hna. set (w1 := mapped_world base bytes false w) in *.
  assert (Em : fw_maps w1 !! base = Some bytes) by apply lookup_insert_eq.
  assert (Hno : forall u k, stack_user w1 u <> Some (base, k)) by (intros u k; by apply fresh_no_user).
  assert (Hu : forall u x, stack_user (set_fw_fibers (<[f := fb]> (fw_fibers w)) (set_fw_rw ((mapped_low fb, sysconf_pagesize) :: fw_rw w) w1)) u = Some x ->
    (u = inl f /\ x = (base, bytes)) \/ stack_user w1 u = Some x).
  { intros [g|s] x; cbn; [|by right]. rewrite lookup_insert. case_decide as E; [subst g; cbn; intros [= <-]; left; by rewrite E1, E2|by right]. }
  split; try done.
  - intros r. cbn. intros [->|Hr]%elem_of_cons; [|by apply K3]. exists base, bytes. split; [done|]. cbn. lia.
  - intros u b k [[-> [= -> ->]]|E]%Hu; [done|by apply (K4 u)].
  - intros u u' b k k' [[-> [= -> ->]]|E]%Hu [[-> Ex]|E']%Hu; [done|by apply Hno in E'|injection Ex as -> ->; by apply Hno in E|by apply (K5 u u' b k k')].
  - intros g gb. cbn. rewrite lookup_insert. case_decide as E.
    + subst g. intros [= <-]. pose proof (K1 _ _ Em) as (_ & Hba & _). split; try lia.
      * rewrite E5. replace (base + bytes - sysconf_pagesize) with (base + (bytes + - 1 * sysconf_pagesize)) by lia.
        rewrite Z.add_mod, Z_mod_plus_full, Hal, Hba by lia. apply Z.mod_0_l. lia.
      * intros a Ha. split.
        -- intros (r & Hr & Hra). cbn in Hr. apply elem_of_cons in Hr as [->|Hr]; [cbn in Hra; lia|].
           exfalso. apply (Hna a Hk Hf); [lia|]. by exists r.
        -- intros Ha'. eexists (_, _). split; [left|]. cbn. lia.
    + intros Hg. destruct (K6 g gb Hg) as [M1 M2 M3 M4 M5]. split; try done. intros a Ha. rewrite <- M5 by done.
      pose proof (K4 (inl g) (stack_base gb) (mapping_size gb) ltac:(cbn; by rewrite Hg)) as Eg.
      assert (stack_base gb <> base) as Hne by (intros Eb; apply (Hno (inl g) (mapping_size gb)); cbn; rewrite Hg; cbn; by rewrite Eb).
      pose proof (K2 _ _ _ _ Eg Em Hne) as Hd. unfold accessible. cbn. split; intros (r & Hr & Hra); exists r; (split; [|done]); [|by right].
      apply elem_of_cons in Hr as [->|Hr]; [|done]. cbn in Hra. unfold disjoint_range in Hd. lia.
Qed.

(** The size of a stack mapping. *)
Lemma stack_mapping_size size : word size -> size <> 0 -> size <= SIZE_MAX - (sysconf_pagesize - 1) ->
  let usable := vl_round_up size sysconf_pagesize in usable <= SIZE_MAX - sysconf_pagesize ->
  sysconf_pagesize <= usable /\ w64 (usable + sysconf_pagesize) = usable + sysconf_pagesize /\
  (usable + sysconf_pagesize) mod sysconf_pagesize = 0.
Proof.
  intros Hw Hs Hle usable Hu. pose proof page_bounds as [Hpb _]. destruct pagesize_law as (k & Hk & Hps).
  destruct (round_up_pow2 size k ltac:(lia) ltac:(word_lia) ltac:(rewrite <- Hps; word_lia)) as [Hr Hm]. rewrite <- Hps in Hr, Hm.
  fold (vl_round_up size sysconf_pagesize) in Hr, Hm. fold usable in Hr, Hm. clear Hps.
  assert (Hp0 : sysconf_pagesize <> 0) by lia. pose proof (Z.div_mod usable sysconf_pagesize Hp0) as Hd. rewrite Hm in Hd.
  assert (0 < usable) by word_lia. assert (1 <= usable / sysconf_pagesize) by nia.
  split; [nia|]. split; [apply w64_small; word_lia|].
  rewrite Z.add_mod, Hm, Z.mod_same by lia. apply Z.mod_0_l. lia.
Qed.
Lemma create_call w me calloc mprotect sched out size fn : fworld_ok w ->
  fiber_allowed w me (CCreate calloc mprotect sched out size fn) -> call_ok me (CCreate calloc mprotect sched out size fn) w.
Proof.
  intros Hw (Hvs & Hsz & Hcal). pose proof Hw as [Hinv Hk].
  enough (Hr : exists r w', vl_fiber_create me calloc mprotect sched out size fn w = Some (r, w') /\ fworld_ok w').
  { destruct Hr as (r & w' & Hr & Hw'). eapply (call_ok_other me _ w _ w'); [|done|intros s []].
    unfold fiber_exec. rewrite bind_run. unfold gets. by rewrite bind_run, Hr. }
  unfold vl_fiber_create. destruct sched as [impl|]; [|eauto]. destruct out as [[?|]|]; [eauto| |eauto]. destruct fn; [|eauto].
  destruct (Z.eqb_spec size 0) as [|Hs0]; [eauto|]. destruct impl as [s|]; [|cbn; eauto]. destruct Hvs as [i Hi].
  rewrite bind_run, (is_owner_run me s i w Hi). destruct (decide (owner_thread i = me)) as [Hme|Hme];
    [rewrite bool_decide_true by done|rewrite bool_decide_false by done; eauto].
  rewrite (bind_Some _ _ _ _ _ (load_sched_run s i w Hi)), (sk_page w Hk s i Hi).
  destruct (Z.ltb_spec (SIZE_MAX - (sysconf_pagesize - 1)) size) as [|Hle]; [eauto|].
  set (usable := vl_round_up size sysconf_pagesize). destruct (Z.ltb_spec usable sysconf_pagesize) as [|Hge]; [cbn; eauto|].
  destruct (Z.ltb_spec (SIZE_MAX - sysconf_pagesize) usable) as [|Hus]; [cbn; eauto|]. cbn [orb].
  destruct (stack_mapping_size size Hsz Hs0 Hle Hus) as (Hge' & Ew & Hal). fold usable in Ew, Hal. rewrite Ew.
  pose proof page_bounds as [Hpb _]. set (bytes := usable + sysconf_pagesize) in *. assert (Hb : 2 * sysconf_pagesize <= bytes) by lia.
  destruct calloc as [f|]; [|eauto]. destruct Hcal as [HN Hcount].
  destruct (fw_mmap_spec w bytes false ltac:(lia)) as (o & w1 & Hr & Hcase). rewrite (bind_Some _ _ _ _ _ Hr).
  destruct Hcase as [[-> ->]|(base & -> & Hf & ->)].
  { eexists _, _. split; [done|]. split; [by apply (fiber_inv_ext w)|by apply (stacks_same w)]. }
  pose proof (mapped_world_ok w base bytes false Hk Hf ltac:(lia)) as Hk1.
  destruct mprotect; cbn [negb].
  - unfold modify. do 3 (rewrite bind_run; cbv beta iota).
    erewrite upd_sched_run by (cbn; exact Hi). cbv beta iota. cbn [fw_fibers set_fw_rw mapped_world set_fw_maps fw_tick set_fw_calls fw_rw].
    set (fb := mk_fiber _ _ _ _ _ _ _ _ _ _ _). eexists _, _. split; [done|].
    pose proof (add_fiber_stacks w f base bytes fb Hk Hf HN eq_refl eq_refl eq_refl eq_refl eq_refl Hal Hb) as Hk2.
    destruct (fi_sched w Hinv s i Hi) as [st Hs]. pose proof (so_live _ _ _ _ Hs) as Hlive.
    pose proof (owned_size (fw_fibers w) s). pose proof (owned_insert (fw_fibers w) f fb s HN eq_refl) as Hoi. split.
    + eapply (off_stack_inv w _ s i _ f (Some fb) Hinv Hi); try done.
      * intros fb' [= <-]. split; [done|]. split; [done|]. by left.
      * congruence.
      * intros st' Hs' Hin. destruct (frames_alive w s st' f (so_frames _ _ _ _ Hs') Hin) as (? & ? & _). congruence.
      * cbn [live_fibers set_live_fibers fw_fibers set_fw_scheds set_fw_fibers]. rewrite Hoi, Hlive, w64_small by (unfold word, W64; lia). lia.
      * cbn. rewrite map_size_insert_None by done. lia.
    + eapply stacks_same; [exact Hk2|done|done|done|]. intros x. cbn. rewrite lookup_insert. case_decide; [subst; by rewrite Hi|done].
  - assert (Em : fw_maps (mapped_world base bytes false w) !! base = Some bytes) by apply lookup_insert_eq.
    rewrite (bind_Some _ _ _ _ _ (fw_munmap_run _ base bytes Em)). eexists _, _. split; [done|].
    destruct (munmap _ _ _).
    + split; [by apply (fiber_inv_ext w)|]. apply unmapped_ok; [done|done|]. intros u k. apply fresh_no_user; [done|done|lia].
    + split; [by apply (fiber_inv_ext w)|by apply (stacks_same (mapped_world base bytes false w))].
Qed.
Lemma destroy_call w me fiber : fworld_ok w -> not_waiting w fiber -> call_ok me (CDestroy fiber) w.
Proof.
  intros Hw Hnw. pose proof Hw as [Hinv Hk].
  enough (Hr : exists w', vl_fiber_destroy me fiber w = Some (tt, w') /\ fworld_ok w').
  { destruct Hr as (w' & Hr & Hw'). eapply (call_ok_other me _ w _ w'); [|done|intros s []].
    unfold fiber_exec. rewrite bind_run. unfold gets. by rewrite bind_run, Hr. }
  destruct fiber as [f|]; [|by exists w]. destruct Hnw as (fb & Hf & Hctx). unfold vl_fiber_destroy.
  rewrite (bind_Some _ _ _ _ _ (load_fiber_run f fb w Hf)). destruct (decide (fb_state fb = VL_FIBER_RUNNING)) as [|Hst]; [by exists w|].
  destruct (fi_owner w Hinv f fb Hf) as [i Hi]. set (s := fb_owner fb) in *.
  rewrite bind_run, (is_owner_run me s i w Hi). destruct (decide (owner_thread i = me)) as [Hme|Hme];
    [rewrite bool_decide_true by done|rewrite bool_decide_false by done; by exists w]. cbn [negb].
  pose proof (sk_user w Hk (inl f) (stack_base fb) (mapping_size fb) ltac:(cbn; by rewrite Hf)) as Em.
  rewrite (bind_Some _ _ _ _ _ (fw_munmap_run w _ _ Em)). set (w1 := if munmap _ _ _ then _ else _).
  assert (E1 : fw_fibers w1 = fw_fibers w /\ fw_scheds w1 = fw_scheds w /\ thread_sched w1 = thread_sched w /\ on_cpu w1 = on_cpu w)
    by (unfold w1; by destruct (munmap _ _ _)). destruct E1 as (Ef & Es & Et & Ec).
  rewrite (bind_Some _ _ _ _ _ (upd_sched_run s i _ w1 ltac:(by rewrite Es))). eexists. split; [done|].
  destruct (fi_sched w Hinv s i Hi) as [st Hs]. pose proof (so_live _ _ _ _ Hs) as Hlive.
  pose proof (owned_size (fw_fibers w) s). pose proof (fi_count w Hinv). pose proof (owned_delete (fw_fibers w) f fb s Hf eq_refl) as Hod.
  split.
  - eapply (off_stack_inv w _ s i _ f None Hinv Hi); cbn; rewrite ?Ef, ?Es; try done.
    + intros fb' E. by assert (fb' = fb) as -> by congruence.
    + intros st' Hs'. by apply (free_fiber_off w s i st' f fb).
    + cbn. rewrite Hlive, Hod, w64_small by (unfold word, W64; lia). lia.
    + rewrite map_size_delete_Some by done. lia.
  - set (w0 := set_fw_fibers (delete f (fw_fibers w)) w).
    assert (Hk0 : stacks_ok w0) by (apply (stacks_fewer w); try done; cbn; apply delete_subseteq).
    assert (Hk1 : stacks_ok (if munmap (fw_calls w) (stack_base fb) (mapping_size fb) then unmapped_world (stack_base fb) (mapping_size fb) w0 else w0)).
    { destruct (munmap _ _ _); [|done]. apply unmapped_ok; [done|done|]. intros u k E.
      assert (u = inl f) as ->.
      { apply (sk_inj w Hk u (inl f) (stack_base fb) k (mapping_size fb)); [|cbn; by rewrite Hf].
        destruct u as [g|]; [|done]. cbn in E |- *. destruct (decide (g = f)) as [->|]; [by rewrite lookup_delete_eq in E|by rewrite lookup_delete_ne in E]. }
      cbn in E. by rewrite lookup_delete_eq in E. }
    eapply stacks_same; [exact Hk1|..]; unfold w1; destruct (munmap _ _ _); try done;
      intros x; cbn; rewrite lookup_insert; (case_decide; [subst x; by rewrite Hi|done]).
Qed.

Lemma sched_init_call w me env sched : fworld_ok w -> fiber_allowed w me (CSchedInit env sched) -> call_ok me (CSchedInit env sched) w.
Proof.
  intros Hw Hal. pose proof Hw as [Hinv Hk].
  enough (Hr : exists r w', vl_fiber_sched_init me env sched w = Some (r, w') /\ fworld_ok w').
  { destruct Hr as (r & w' & Hr & Hw'). eapply (call_ok_other me _ w _ w'); [|done|intros s []].
    unfold fiber_exec. rewrite bind_run. unfold gets. by rewrite bind_run, Hr. }
  unfold vl_fiber_sched_init. rewrite bind_run. unfold gets at 1. destruct sched as [[s'|]|]; [eauto| |eauto].
  destruct (thread_sched w !! me) as [|] eqn:Hth; [eauto|]. case_match; [eauto|]. destruct (handler_installed env); [|eauto]. cbn [negb].
  cbn in Hal. destruct (sched_calloc env) as [s|]; [|eauto].
  set (bytes := vl_round_up (64 * 1024) sysconf_pagesize). assert (Hb : 0 < bytes).
  { destruct pagesize_law as (k & Hk' & Hps). pose proof page_bounds as [Hpb _].
    destruct (round_up_pow2 (64 * 1024) k ltac:(lia) ltac:(lia) ltac:(rewrite <- Hps; unfold W64; lia)) as [Hr _]. rewrite <- Hps in Hr.
    unfold bytes, vl_round_up. lia. }
  clearbody bytes. destruct (fw_mmap_spec w bytes true Hb) as (o & w1 & Hr & Hcase). rewrite (bind_Some _ _ _ _ _ Hr).
  destruct Hcase as [[-> ->]|(base & -> & Hf & ->)].
  { eexists _, _. split; [done|]. split; [by apply (fiber_inv_ext w)|by apply (stacks_same w)]. }
  pose proof (mapped_world_ok w base bytes true Hk Hf Hb) as Hk1. rewrite bind_run. unfold gets.
  assert (Em : fw_maps (mapped_world base bytes true w) !! base = Some bytes) by apply lookup_insert_eq.
  assert (Hno : forall u k, stack_user (mapped_world base bytes true w) u <> Some (base, k)) by (intros u k; by apply fresh_no_user).
  set (w1 := mapped_world base bytes true w) in *. destruct (sigaltstack_old env && sigaltstack_new env); cbn [negb].
  2: { rewrite (bind_Some _ _ _ _ _ (fw_munmap_run _ base bytes Em)). eexists _, _. split; [done|]. destruct (munmap _ _ _).
       - split; [by apply (fiber_inv_ext w)|by apply unmapped_ok].
       - split; [by apply (fiber_inv_ext w)|by apply (stacks_same w1)]. }
  unfold modify. do 3 (rewrite bind_run; cbv beta iota). eexists _, _. split; [done|]. set (i := mk_sched _ _ _ _ _ _ _ _).
  assert (Hnone : forall f fb, fw_fibers w !! f = Some fb -> fb_owner fb <> s).
  { intros f fb E Eo. destruct (fi_owner w Hinv f fb E) as [x Hx]. congruence. }
  assert (Hcpu : on_cpu w !! me = None).
  { destruct (on_cpu w !! me) as [f|] eqn:E; [|done]. destruct (fi_cpu w Hinv me f E) as [x Hx]. congruence. }
  pose proof Hinv as [I1 I2 I3 I4 I5]. split; [split|]; cbn.
  - intros s2 i2. rewrite lookup_insert. case_decide as E.
    + intros [= <-]. subst s2. exists []. split; try done; cbn.
      * apply NoDup_nil_2.
      * intros g Hg. by apply not_elem_of_nil in Hg.
      * intros f fb Hfb Ho. by destruct (Hnone f fb Hfb).
      * apply lookup_insert_eq.
      * assert (owned (fw_fibers w) s = ∅) as ->; [|by rewrite size_empty].
        apply set_eq. intros f. rewrite elem_of_owned. split; [intros (fb & Hfb & Ho); by destruct (Hnone f fb Hfb)|set_solver].
    + intros E2. destruct (I1 s2 i2 E2) as [st Hs]. exists st. pose proof (so_thread _ _ _ _ Hs) as Ht.
      apply (sched_ok_frame w _ s2 i2 st Hs E2); cbn; [by rewrite lookup_insert_ne|by left|done|].
      rewrite lookup_insert_ne; [done|congruence].
  - intros t s2. rewrite lookup_insert. case_decide as E.
    + intros [= <-]. subst t. exists i. by rewrite lookup_insert_eq.
    + intros E2. destruct (I2 t s2 E2) as (i2 & E3 & E4). exists i2. rewrite lookup_insert_ne; [done|congruence].
  - intros f fb E. destruct (I3 f fb E) as [x Hx]. rewrite lookup_insert_ne by congruence. eauto.
  - intros t f E. destruct (I4 t f E) as [x Hx]. rewrite lookup_insert_ne by congruence. eauto.
  - done.
  - destruct Hk1 as [K1 K2 K3 K4 K5 K6 K7]. set (w2 := set_thread_sched _ _).
    assert (Hu : forall u x, stack_user w2 u = Some x -> (u = inr s /\ x = (base, bytes)) \/ stack_user w1 u = Some x).
    { intros [g|s2] x; [by right|]. cbn. rewrite lookup_insert. case_decide as E; [subst s2; intros [= <-]; by left|by right]. }
    split; try done.
    + intros u b k [[-> [= -> ->]]|E]%Hu; [done|by apply (K4 u)].
    + intros u u' b k k' [[-> [= -> ->]]|E]%Hu [[-> Ex]|E']%Hu; [done|by apply Hno in E'|injection Ex as -> ->; by apply Hno in E|by apply (K5 u u' b k k')].
    + intros f fb E. destruct (K6 f fb E). by split.
    + intros s2 i2. cbn. rewrite lookup_insert. case_decide; [by intros [= <-]|apply K7].
Qed.

Lemma sched_destroy_call w me restored sched : fworld_ok w -> valid_sched w sched -> call_ok me (CSchedDestroy restored sched) w.
Proof.
  intros Hw Hvs. pose proof Hw as [Hinv Hk].
  enough (Hr : exists r w', vl_fiber_sched_destroy me restored sched w = Some (r, w') /\ fworld_ok w').
  { destruct Hr as (r & w' & Hr & Hw'). eapply (call_ok_other me _ w _ w'); [|done|intros s []].
    unfold fiber_exec. rewrite bind_run. unfold gets. by rewrite bind_run, Hr. }
  unfold vl_fiber_sched_destroy. destruct sched as [[s|]|]; [|cbn; eauto..]. destruct Hvs as [i Hi].
  rewrite bind_run, (is_owner_run me s i w Hi). destruct (decide (owner_thread i = me)) as [Hme|Hme];
    [rewrite bool_decide_true by done|rewrite bool_decide_false by done; eauto].
  rewrite (bind_Some _ _ _ _ _ (load_sched_run s i w Hi)). destruct (decide _) as [|Hfree]; [eauto|].
  assert (Hcur : current i = None) by (destruct (current i); [exfalso; apply Hfree; by left|done]).
  assert (Hl : live_fibers i = 0) by (destruct (decide (live_fibers i = 0)); [done|exfalso; apply Hfree; by right]).
  pose proof (sk_user w Hk (inr s) (signal_stack i) (signal_stack_size i) ltac:(cbn; by rewrite Hi)) as Em.
  rewrite bind_run. unfold modify at 1. set (w1 := if restored then _ else _).
  assert (E1 : fw_fibers w1 = fw_fibers w /\ fw_scheds w1 = fw_scheds w /\ thread_sched w1 = thread_sched w /\ on_cpu w1 = on_cpu w /\
    fw_maps w1 = fw_maps w /\ fw_rw w1 = fw_rw w) by (unfold w1; by destruct restored). destruct E1 as (Ef & Es & Et & Ec & Eg & Er).
  rewrite (bind_Some _ _ _ _ _ (fw_munmap_run w1 _ _ ltac:(by rewrite Eg))). set (w2 := if munmap _ _ _ then _ else _).
  assert (E2 : fw_fibers w2 = fw_fibers w /\ fw_scheds w2 = fw_scheds w /\ thread_sched w2 = thread_sched w /\ on_cpu w2 = on_cpu w)
    by (unfold w2; by destruct (munmap _ _ _)). destruct E2 as (Ef2 & Es2 & Et2 & Ec2).
  unfold modify. do 2 (rewrite bind_run; cbv beta iota). eexists _, _. split; [done|].
  destruct (fi_sched w Hinv s i Hi) as [st Hs]. assert (st = []) as ->.
  { pose proof (so_current _ _ _ _ Hs) as E. rewrite Hcur in E. by destruct st. }
  pose proof (so_cpu _ _ _ _ Hs) as Hcpu. cbn in Hcpu. pose proof (so_thread _ _ _ _ Hs) as Hth. rewrite Hme in Hcpu, Hth.
  assert (Hnone : forall f fb, fw_fibers w !! f = Some fb -> fb_owner fb <> s).
  { intros f fb E Eo. pose proof (so_live _ _ _ _ Hs) as E'. rewrite Hl in E'. assert (Hz : size (owned (fw_fibers w) s) = 0%nat) by lia.
    apply size_empty_inv in Hz. apply (not_elem_of_empty (C := gset nat) f), Hz, elem_of_owned. by exists fb. }
  pose proof Hinv as [I1 I2 I3 I4 I5]. split; [split|]; cbn; rewrite ?Ef2, ?Es2, ?Et2, ?Ec2.
  - intros s2 i2 [Hne E2]%lookup_delete_Some. destruct (I1 s2 i2 E2) as [st Hs2]. exists st. pose proof (so_thread _ _ _ _ Hs2) as Ht2.
    apply (sched_ok_frame w _ s2 i2 st Hs2 E2); cbn; rewrite ?Ef2, ?Es2, ?Et2, ?Ec2; [by rewrite lookup_delete_ne|by left|done|].
    rewrite lookup_delete_ne; [done|]. intros E. rewrite <- E in Ht2. congruence.
  - intros t s2 [Hne E2]%lookup_delete_Some. destruct (I2 t s2 E2) as (i2 & E3 & E4). exists i2. rewrite lookup_delete_ne; [done|]. congruence.
  - intros f fb E. destruct (I3 f fb E) as [x Hx]. rewrite lookup_delete_ne; [eauto|]. intros E'. by apply (Hnone f fb).
  - intros t f E. destruct (I4 t f E) as [x Hx]. rewrite lookup_delete_ne; [eauto|]. congruence.
  - done.
  - set (w0 := set_fw_scheds (delete s (fw_scheds w)) w).
    assert (Hk0 : stacks_ok w0) by (apply (stacks_fewer w); try done; cbn; apply delete_subseteq).
    assert (Hk1 : stacks_ok (if munmap (fw_calls w1) (signal_stack i) (signal_stack_size i) then unmapped_world (signal_stack i) (signal_stack_size i) w0 else w0)).
    { destruct (munmap _ _ _); [|done]. apply unmapped_ok; [done|done|]. intros u k E.
      assert (u = inr s) as ->.
      { apply (sk_inj w Hk u (inr s) (signal_stack i) k (signal_stack_size i)); [|cbn; by rewrite Hi].
        destruct u as [g|s2]; [done|]. cbn in E |- *. destruct (decide (s2 = s)) as [->|]; [by rewrite lookup_delete_eq in E|by rewrite lookup_delete_ne in E]. }
      cbn in E. by rewrite lookup_delete_eq in E. }
    eapply stacks_same; [exact Hk1|..]; unfold w2; destruct (munmap _ _ _); cbn; rewrite ?Ef, ?Es, ?Eg, ?Er; done.
Qed.
Lemma call_step w me call : fworld_ok w -> fiber_allowed w me call -> call_ok me call w.
Proof.
  intros Hw Hal. destruct call.
  - by apply resume_call.
  - by apply yield_call.
  - by apply return_call.
  - cbn in Hal. destruct fiber as [f|]; [destruct Hal as [fb Hf]|]; (eapply call_ok_other; [|exact Hw|intros s []]); [|reflexivity].
    unfold fiber_exec. rewrite bind_run. unfold gets. rewrite bind_run. cbn [vl_fiber_get_state].
    by rewrite (bind_Some _ _ _ _ _ (load_fiber_run f fb w Hf)).
  - by apply create_call.
  - by apply destroy_call.
  - by apply sched_init_call.
  - by apply sched_destroy_call.
  - by apply fault_call.
Qed.

Lemma fiber_reach_ok w : fiber_reach w -> fworld_ok w.
Proof.
  induction 1 as [|w me call o w' _ IH Hal Hr].
  - split; split; cbn; try done; try (intros; by rewrite lookup_empty in * ).
    + by intros r ?%not_elem_of_nil.
    + intros [f|s] b k E; cbn in E; by rewrite lookup_empty in E.
    + intros [f|s] u' b k k' E; cbn in E; by rewrite lookup_empty in E.
  - destruct (call_step w me call IH Hal) as (o1 & w1 & Hr1 & Hw1 & _). rewrite Hr1 in Hr. by injection Hr as <- <-.
Qed.
End steps.

(** ** The theorems *)

(** C28: Fibers are coroutines.  In every state threads reach with the fiber interface,
    resuming or destroying no fiber that waits for one it resumed, each call is defined:
    no freed fiber is touched and no stale context is entered.  The fibers a thread has
    entered form a stack given by the [caller] links; the stack the processor is on is
    its top, which is the one fiber in state RUNNING; and a call moves along the stack
    as the abstract coroutines do: a resume enters the fiber or continues its yield with
    the value sent, a yield or a return continues the resume that entered the fiber, with
    the value given.  The counter of live fibers is exact. *)
Theorem fiber_stack_discipline `{os_memory_laws} w me call : fiber_reach w -> fiber_allowed w me call ->
  exists o w', fiber_exec me call w = Some (o, w') /\
    forall s i, fw_scheds w !! s = Some i -> owner_thread i = me ->
      exists st, callers (fw_fibers w) (current i) st /\ on_cpu w !! me = head st /\
        (forall f fb, fw_fibers w !! f = Some fb -> fb_owner fb = s -> fb_state fb = VL_FIBER_RUNNING <-> head st = Some f) /\
        live_fibers i = Z.of_nat (size (owned (fw_fibers w) s)) /\
        (switches s call -> exists co', co_step s call (mk_co st (states (fw_fibers w) s)) o co' /\ abstracts w' s co').
Proof.
  intros Hreach Hal. apply fiber_reach_ok in Hreach as Hw. destruct (call_step w me call Hw Hal) as (o & w' & Hr & _ & Habs).
  exists o, w'. split; [done|]. intros s i Hi Hme. destruct Hw as [Hinv _]. destruct (fi_sched w Hinv s i Hi) as [st Hs]. exists st.
  destruct (sched_ok_abstracts _ _ _ _ Hs Hi) as [_ (i' & Hi' & Hc)]. assert (i' = i) as -> by congruence. split; [exact Hc|].
  split; [rewrite <- Hme; apply Hs|]. split; [|split; [apply Hs|intros Hsw; by apply (Habs s i st)]].
  intros f fb Hf Ho. split.
  - intros Hst. destruct (decide (f ∈ st)) as [Hin|Hn].
    + destruct st as [|g st]; [by apply not_elem_of_nil in Hin|]. apply elem_of_cons in Hin as [->|Hin]; [done|].
      destruct (so_below _ _ _ _ Hs f Hin) as (fb' & Hf' & Hsu). congruence.
    + destruct (so_off _ _ _ _ Hs f fb Hf Ho Hn) as [_ [[E _]|[[E _]|[E _]]]]; congruence.
  - destruct st as [|g st]; [done|]. intros [= ->]. destruct (so_top _ _ _ _ Hs) as (fb' & Hf' & Hru & _). congruence.
Qed.

(** C34: Stacks grow on demand and the guard page stays out of reach.  In every reachable
    state the accessible bytes of a fiber's mapping are exactly those from [mapped_low]
    to [stack_top], a whole number of pages above the guard page.  A fault of the running
    fiber in the reserved part is handled when mprotect succeeds, after which the faulting
    address is accessible; a fault anywhere else in its mapping, the guard page included,
    is forwarded and changes nothing. *)
Theorem fiber_stack_growth `{os_memory_laws} w me s i f fb fault : fiber_reach w -> fw_scheds w !! s = Some i ->
  owner_thread i = me -> current i = Some f -> fw_fibers w !! f = Some fb ->
  (forall a, stack_base fb <= a < stack_top fb -> accessible w a <-> mapped_low fb <= a) /\
  stack_base fb + sysconf_pagesize = stack_low fb /\ stack_low fb <= mapped_low fb <= stack_top fb - sysconf_pagesize /\
  mapped_low fb mod sysconf_pagesize = 0 /\
  (stack_low fb <= fault < mapped_low fb -> exists w', vl_stack_fault_handler me true true fault w = Some (true, w') /\
     accessible w' fault /\ exists fb', fw_fibers w' !! f = Some fb' /\ mapped_low fb' <= fault < mapped_low fb' + sysconf_pagesize) /\
  (~ stack_low fb <= fault < mapped_low fb -> forall kernel mprotect,
     vl_stack_fault_handler me kernel mprotect fault w = Some (false, w)).
Proof.
  intros Hreach Hi Hme Hcur Hf. apply fiber_reach_ok in Hreach as Hw. pose proof Hw as [Hinv Hk].
  pose proof (sk_fiber w Hk f fb Hf) as [L1 L2 L3 L4 L5]. split; [done|]. split; [done|]. split; [done|]. split; [done|].
  destruct (fi_sched w Hinv s i Hi) as [st Hs]. pose proof (so_thread _ _ _ _ Hs) as Hth. rewrite Hme in Hth.
  pose proof (so_current _ _ _ _ Hs) as E. rewrite Hcur in E. destruct st as [|f' st]; [done|]. injection E as <-.
  destruct (top_facts w s i f st Hs Hi) as (fb' & Hf' & Hru & _). assert (fb' = fb) as -> by congruence.
  assert (Hrun : forall kernel mprotect, vl_stack_fault_handler me kernel mprotect fault w =
    if kernel && (stack_low fb <=? fault) && (fault <? mapped_low fb) then
      if mprotect then
        let new_low := Z.ldiff fault (sysconf_pagesize - 1) in
        Some (true, set_fw_fibers (<[f := set_mapped_low new_low fb]> (fw_fibers w)) (set_fw_rw ((new_low, mapped_low fb - new_low) :: fw_rw w) w))
      else Some (false, w)
    else Some (false, w)).
  { intros kernel mprotect. unfold vl_stack_fault_handler. rewrite bind_run. unfold gets. rewrite Hth.
    rewrite (bind_Some _ _ _ _ _ (load_sched_run s i w Hi)), Hcur, (bind_Some _ _ _ _ _ (load_fiber_run f fb w Hf)), (sk_page w Hk s i Hi).
    rewrite bool_decide_true, andb_true_r by done. destruct (kernel && _ && _); [|done]. destruct mprotect; [|done].
    rewrite bind_run. unfold modify. by rewrite (bind_Some _ _ _ _ _ (upd_fiber_run f fb _ (set_fw_rw _ w) Hf)). }
  split.
  - intros Hin. rewrite Hrun. destruct (Z.leb_spec (stack_low fb) fault), (Z.ltb_spec fault (mapped_low fb)); try lia. cbn [andb].
    destruct pagesize_law as (k & Hkk & Hps). rewrite Hps, ldiff_pow2 by lia. rewrite <- Hps. clear k Hkk Hps.
    pose proof page_bounds as [Hpb _]. assert (Hp0 : 0 < sysconf_pagesize) by lia. pose proof (Z.mod_pos_bound fault sysconf_pagesize Hp0).
    eexists. split; [done|]. split; [eexists (_, _); split; [left|]; cbn; lia|]. eexists. cbn. rewrite lookup_insert_eq. split; [done|]. cbn. lia.
  - intros Hout kernel mprotect. rewrite Hrun. destruct (Z.leb_spec (stack_low fb) fault), (Z.ltb_spec fault (mapped_low fb)); try lia;
      destruct kernel; cbn; done.
Qed.

(** ** Witnesses, on the operating system [bump_os] *)

Fixpoint fiber_run (calls : list (nat * fiber_call)) (w : fworld) : option (list outcome * fworld) :=
  match calls with
  | [] => Some ([], w)
  | (me, call) :: calls =>
      match @fiber_exec bump_os me call w with
      | Some (o, w') => match fiber_run calls w' with Some (l, w'') => Some (o :: l, w'') | None => None end
      | None => None
      end
  end.

Definition thread_up : nat * fiber_call := (0%nat, CSchedInit (mk_sched_env true (Some 0%nat) true true) (Some None)).
Definition new_fiber (f : nat) : nat * fiber_call := (0%nat, CCreate (Some f) true (Some (Some 0%nat)) (Some None) 10000 true).
Definition resume (f : nat) (v : Z) : nat * fiber_call := (0%nat, CResume (Some (Some 0%nat)) (Some f) v true).
Definition yield_with (v : Z) : nat * fiber_call := (0%nat, CYield (Some (Some 0%nat)) v).

(** Fiber 1 resumes fiber 2, which yields 7 to it; fiber 1 yields 8 to the root, is resumed
    with 9 and returns 10. *)
Example fiber_run_example : fst <$> fiber_run
    [thread_up; new_fiber 1; new_fiber 2; resume 1 5; resume 2 6; yield_with 7; yield_with 8; resume 1 9; (0%nat, CReturn 10); resume 1 11]
    fworld_boot =
  Some [Handle VL_OK (Some (Some 0%nat)); Created VL_OK (Some (Some 1%nat)); Created VL_OK (Some (Some 2%nat));
        Switch (Started 1); Switch (Started 2); Switch (Resumed (Some 1%nat) 7); Switch (Resumed None 8);
        Switch (Yielded 1 9); Switch (Resumed None 10); Switch (Answered None VL_ERROR_INVALID_STATE)].
Proof. vm_compute. reflexivity. Qed.

(** Outside the discipline: fiber 2 resumes fiber 1, which waits in its resume of fiber 2.
    That resume returns [VL_OK] with the value 0, although fiber 2 has neither yielded nor
    returned. *)
Example resume_of_waiting_fiber : fst <$> fiber_run
    [thread_up; new_fiber 1; new_fiber 2; resume 1 5; resume 2 6; resume 1 7] fworld_boot =
  Some [Handle VL_OK (Some (Some 0%nat)); Created VL_OK (Some (Some 1%nat)); Created VL_OK (Some (Some 2%nat));
        Switch (Started 1); Switch (Started 2); Switch (Resumed (Some 1%nat) 0)].
Proof. vm_compute. reflexivity. Qed.

Definition after (calls : list (nat * fiber_call)) : fworld := default fworld_boot (snd <$> fiber_run calls fworld_boot).

Lemma in_fiber_reach : @fiber_reach bump_os (after [thread_up; new_fiber 1; resume 1 5]).
Proof.
  eapply (fr_call (after [thread_up; new_fiber 1]) 0 (resume 1 5).2); [|split; [by eexists|by eexists]|vm_compute; reflexivity].
  eapply (fr_call (after [thread_up]) 0 (new_fiber 1).2); [|split; [by eexists|split; [word_lia|done]]|vm_compute; reflexivity].
  eapply (fr_call fworld_boot 0 thread_up.2); [constructor|done|vm_compute; reflexivity].
Qed.

Lemma fiber_stack_discipline_witness : exists o w',
  @fiber_exec bump_os 0 (CYield (Some (Some 0%nat)) 8) (after [thread_up; new_fiber 1; resume 1 5]) = Some (o, w').
Proof.
  destruct (@fiber_stack_discipline bump_os bump_os_laws _ 0 (CYield (Some (Some 0%nat)) 8) in_fiber_reach) as (o & w' & Hr & _).
  - by eexists.
  - exists o, w'. exact Hr.
Defined.

Definition in_fiber : fworld := after [thread_up; new_fiber 1; resume 1 5].
Definition its_sched : vl_fiber_sched_impl := default (mk_sched 0 None None 0 0 0 0 0) (fw_scheds in_fiber !! 0%nat).
Definition its_fiber : vl_fiber := default (mk_fiber None 0 None 0 0 0 0 0 VL_FIBER_DONE 0 0) (fw_fibers in_fiber !! 1%nat).

(** The fiber's stack is 12 KiB, of which the top page is accessible. *)
Lemma fiber_stack_growth_witness : stack_low its_fiber <= stack_low its_fiber + 100 < mapped_low its_fiber /\
  exists w', vl_stack_fault_handler 0 true true (stack_low its_fiber + 100) in_fiber = Some (true, w').
Proof.
  assert (Hin : stack_low its_fiber <= stack_low its_fiber + 100 < mapped_low its_fiber) by (vm_compute; split; congruence).
  destruct (@fiber_stack_growth bump_os bump_os_laws in_fiber 0 0 its_sched 1 its_fiber (stack_low its_fiber + 100) in_fiber_reach
    eq_refl eq_refl eq_refl eq_refl) as (_ & _ & _ & _ & Hgrow & _).
  destruct (Hgrow Hin) as (w' & Hr & _). split; [exact Hin|]. exists w'. exact Hr.
Defined.
