(* ===== verification/RunQueue.v ===== *)
(** * The Chase-Lev run queue of a P (src/runtime/run_queue.c, run_queue.h)

    The operations are modelled twice.  The functions [vl_run_queue_*] run one
    operation to completion on the queue's fields; they are what the scheduler
    model calls.  [Module Interleaved] splits the same operations at every
    atomic access, with one owner and any number of thieves, and states what
    the deque promises under every interleaving of those accesses.  The
    accesses are interleaved sequentially consistently; the release/acquire
    and fence annotations of the source, which make that view sound, are not
    modelled. *)

From S2P Require Import Prelude.
From stdpp Require Import options.

(** An item is a task identity; NULL is [None].  [slots = None] is the NULL
    array pointer of a queue that is not initialised. *)
Record vl_run_queue := mk_run_queue {
  top : Z;
  bottom : Z;
  slots : option (list (option nat));
  rq_capacity : Z;
  mask : Z }.

Definition set_top (v : Z) (q : vl_run_queue) : vl_run_queue :=
  mk_run_queue v (bottom q) (slots q) (rq_capacity q) (mask q).
Definition set_bottom (v : Z) (q : vl_run_queue) : vl_run_queue :=
  mk_run_queue (top q) v (slots q) (rq_capacity q) (mask q).
Definition set_slots (v : option (list (option nat))) (q : vl_run_queue) : vl_run_queue :=
  mk_run_queue (top q) (bottom q) v (rq_capacity q) (mask q).

(** [&queue->slots[i & queue->mask]]: load and store, undefined outside. *)
Definition slot_index (q : vl_run_queue) (i : Z) : nat := Z.to_nat (Z.land i (mask q)).
Definition slot_load (q : vl_run_queue) (i : Z) : option (option nat) :=
  l ← slots q; l !! slot_index q i.
Definition slot_store (q : vl_run_queue) (i : Z) (v : option nat) : option vl_run_queue :=
  l ← slots q;
  if decide (slot_index q i < length l)%nat
  then Some (set_slots (Some (<[slot_index q i := v]> l)) q) else None.

Definition vl_is_power_of_two (value : Z) : bool :=
  negb (value =? 0) && (Z.land value (w64 (value - 1)) =? 0).

Definition vl_run_queue_init (calloc_ok : bool) (capacity : Z) : C vl_run_queue vl_status :=
  q ← gets id;
  if bool_decide (slots q <> None) || (capacity <? 2) ||
     negb (vl_is_power_of_two capacity) || (SIZE_MAX / 8 <? capacity)
  then mret VL_ERROR_INVALID_ARGUMENT else
  if calloc_ok then
    _ ← modify (fun _ => mk_run_queue 0 0 (Some (replicate (Z.to_nat capacity) None))
                           capacity (w64 (capacity - 1)));
    mret VL_OK
  else mret VL_ERROR_OUT_OF_MEMORY.

Definition vl_run_queue_destroy : C vl_run_queue unit :=
  modify (fun _ => mk_run_queue 0 0 None 0 0).

Definition vl_run_queue_owner_push (item : option nat) : C vl_run_queue vl_status := fun q =>
  match slots q, item with
  | Some _, Some _ =>
      let b := bottom q in
      let t := top q in
      if rq_capacity q <=? w64 (b - t) then Some (VL_ERROR_WOULD_BLOCK, q) else
      match slot_store q b item with
      | Some q => Some (VL_OK, set_bottom (w64 (b + 1)) q)
      | None => None
      end
  | _, _ => Some (VL_ERROR_INVALID_ARGUMENT, q)
  end.

Definition vl_run_queue_owner_pop : C vl_run_queue (option nat) := fun q =>
  match slots q with
  | None => Some (None, q)
  | Some _ =>
      let b := bottom q in
      if b =? 0 then Some (None, q) else
      let b := b - 1 in
      let q := set_bottom b q in
      let t := top q in
      if b <? t then Some (None, set_bottom t q) else
      match slot_load q b with
      | None => None
      | Some item =>
          if t =? b then
            if top q =? t
            then Some (item, set_bottom (w64 (t + 1)) (set_top (w64 (t + 1)) q))
            else Some (None, set_bottom (w64 (t + 1)) q)
          else Some (item, q)
      end
  end.

Definition vl_run_queue_steal : C vl_run_queue (option nat) := fun q =>
  match slots q with
  | None => Some (None, q)
  | Some _ =>
      let t := top q in
      let b := bottom q in
      if b <=? t then Some (None, q) else
      match slot_load q t with
      | None => None
      | Some item =>
          if top q =? t then Some (item, set_top (w64 (t + 1)) q) else Some (None, q)
      end
  end.

Fixpoint vl_run_queue_steal_batch (maximum : nat) : C vl_run_queue (list nat) :=
  match maximum with
  | O => mret []
  | S maximum =>
      item ← vl_run_queue_steal;
      match item with
      | None => mret []
      | Some x => rest ← vl_run_queue_steal_batch maximum; mret (x :: rest)
      end
  end.

Definition vl_run_queue_length (q : vl_run_queue) : Z :=
  match slots q with
  | None => 0
  | Some _ => if top q <? bottom q then bottom q - top q else 0
  end.

(** ** Slots as a ring *)

(** The fields [vl_run_queue_init] sets up and no operation changes. *)
Record ring_wf (q : vl_run_queue) : Prop := {
  ring_pow2 : exists k, 0 <= k /\ rq_capacity q = 2 ^ k;
  ring_mask : mask q = rq_capacity q - 1;
  ring_bound : 2 <= rq_capacity q <= SIZE_MAX / 8;
  ring_slots : exists l, slots q = Some l /\ Z.of_nat (length l) = rq_capacity q }.

Lemma ring_index q i : ring_wf q -> slot_index q i = Z.to_nat (i mod rq_capacity q).
Proof.
  intros [(k & Hk & Hc) Hm _ _]. unfold slot_index.
  by rewrite Hm, Hc, land_pow2_minus_1.
Qed.

Lemma ring_index_lt q i : ring_wf q -> Z.of_nat (slot_index q i) < rq_capacity q.
Proof.
  intros H. rewrite ring_index by done. destruct H as [_ _ Hb _].
  pose proof (Z.mod_pos_bound i (rq_capacity q) ltac:(lia)). lia.
Qed.

Lemma ring_index_ne q i j : ring_wf q -> 0 < Z.abs (i - j) < rq_capacity q ->
  slot_index q i <> slot_index q j.
Proof.
  intros H Hij. rewrite !ring_index by done. destruct H as [_ _ Hb _].
  pose proof (Z.mod_pos_bound i (rq_capacity q) ltac:(lia)).
  pose proof (Z.mod_pos_bound j (rq_capacity q) ltac:(lia)).
  intros E. assert (Em : i mod rq_capacity q = j mod rq_capacity q) by lia.
  apply Z.cong_iff_0 in Em. apply Z.mod_divide in Em as [z Ez]; [|lia].
  assert (z = 0 \/ 1 <= Z.abs z) as [->|] by lia; nia.
Qed.

Lemma ring_load q i : ring_wf q -> exists v, slot_load q i = Some v.
Proof.
  intros H. pose proof (ring_index_lt q i H) as Hi.
  destruct (ring_slots _ H) as (l & Hl & Hlen). unfold slot_load. rewrite Hl. simpl.
  apply lookup_lt_is_Some_2. lia.
Qed.

Lemma ring_store q i v : ring_wf q -> exists l, slots q = Some l /\
  slot_store q i v = Some (set_slots (Some (<[slot_index q i := v]> l)) q).
Proof.
  intros H. pose proof (ring_index_lt q i H) as Hi.
  destruct (ring_slots _ H) as (l & Hl & Hlen). exists l. split; [done|].
  unfold slot_store. rewrite Hl. simpl. rewrite decide_True by lia. done.
Qed.

(** What a store leaves: the ring, the counters, and every other slot. *)
Lemma slot_store_spec q i v q' : ring_wf q -> slot_store q i v = Some q' ->
  ring_wf q' /\ top q' = top q /\ bottom q' = bottom q /\ rq_capacity q' = rq_capacity q /\
  slot_load q' i = Some v /\
  (forall j, 0 < Z.abs (i - j) < rq_capacity q -> slot_load q' j = slot_load q j).
Proof.
  intros H Hs. destruct (ring_store q i v H) as (l & Hl & E). rewrite Hs in E. simplify_eq.
  pose proof (ring_index_lt q i H) as Hi.
  destruct (ring_slots _ H) as (l' & Hl' & Hlen). assert (l' = l) as -> by congruence.
  split; [|split; [done|split; [done|split; [done|split]]]].
  - destruct H as [Hp Hm Hb _]. split; simpl; try done.
    exists (<[slot_index q i:=v]> l). by rewrite length_insert.
  - unfold slot_load. simpl. change (slot_index (set_slots _ q) i) with (slot_index q i).
    apply list_lookup_insert_eq. lia.
  - intros j Hj. unfold slot_load. simpl. rewrite Hl. simpl.
    change (slot_index (set_slots _ q) j) with (slot_index q j).
    apply list_lookup_insert_ne. by apply ring_index_ne.
Qed.

Lemma ring_wf_set_top v q : ring_wf q -> ring_wf (set_top v q).
Proof. intros [? ? ? ?]. by split. Qed.

Lemma ring_wf_set_bottom v q : ring_wf q -> ring_wf (set_bottom v q).
Proof. intros [? ? ? ?]. by split. Qed.

#[export] Hint Resolve ring_wf_set_top ring_wf_set_bottom : veloco.

Lemma slot_load_set_top v q i : slot_load (set_top v q) i = slot_load q i.
Proof. done. Qed.

Lemma slot_load_set_bottom v q i : slot_load (set_bottom v q) i = slot_load q i.
Proof. done. Qed.

#[export] Hint Rewrite slot_load_set_top slot_load_set_bottom : veloco_rw.

(** The slots [lo .. lo + length c) hold the items [c]. *)
Definition holds (q : vl_run_queue) (lo : Z) (c : list nat) : Prop :=
  forall i x, c !! i = Some x -> slot_load q (lo + Z.of_nat i) = Some (Some x).

Lemma holds_tail q lo x c : holds q lo (x :: c) -> holds q (lo + 1) c.
Proof.
  intros H i y Hy. specialize (H (S i) y Hy). rewrite <- H. f_equal. lia.
Qed.

Lemma holds_init q lo x c : holds q lo (c ++ [x]) -> holds q lo c.
Proof. intros H i y Hy. apply H. by apply lookup_app_l_Some. Qed.

Lemma holds_head q lo x c : holds q lo (x :: c) -> slot_load q lo = Some (Some x).
Proof. intros H. specialize (H 0%nat x eq_refl). by rewrite Z.add_0_r in H. Qed.

Lemma holds_last q lo x c : holds q lo (c ++ [x]) ->
  slot_load q (lo + Z.of_nat (length c)) = Some (Some x).
Proof. intros H. apply H. by rewrite lookup_app_r, Nat.sub_diag by lia. Qed.

Lemma holds_snoc q lo x c : holds q lo c ->
  slot_load q (lo + Z.of_nat (length c)) = Some (Some x) -> holds q lo (c ++ [x]).
Proof.
  intros H Hx i y Hy. apply lookup_app_Some in Hy as [Hy|[Hge Hy]]; [by apply H|].
  apply list_lookup_singleton_Some in Hy as [? <-].
  replace i with (length c) by lia. done.
Qed.

(** Storing just past a range that does not fill the ring keeps the range. *)
Lemma holds_store q q' lo c v : ring_wf q -> holds q lo c ->
  Z.of_nat (length c) < rq_capacity q ->
  slot_store q (lo + Z.of_nat (length c)) v = Some q' -> holds q' lo c.
Proof.
  intros Hw Hc Hlen Hs i x Hx. pose proof (lookup_lt_Some _ _ _ Hx).
  destruct (slot_store_spec _ _ _ _ Hw Hs) as (_ & _ & _ & _ & _ & Hother).
  rewrite Hother by lia. by apply Hc.
Qed.

(** ** The deque one operation at a time *)

(** [q] represents the deque [c]: thieves take from the head, the owner pushes
    and pops at the end. *)
Record rq_repr (q : vl_run_queue) (c : list nat) : Prop := {
  repr_ring : ring_wf q;
  repr_top : 0 <= top q;
  repr_bottom : bottom q = top q + Z.of_nat (length c);
  repr_word : bottom q < W64;
  repr_fits : Z.of_nat (length c) <= rq_capacity q;
  repr_holds : holds q (top q) c }.

Lemma owner_push_repr q c x : rq_repr q c -> bottom q + 1 < W64 ->
  exists st q', vl_run_queue_owner_push (Some x) q = Some (st, q') /\
    ((st = VL_OK /\ Z.of_nat (length c) < rq_capacity q /\ rq_repr q' (c ++ [x])) \/
     (st = VL_ERROR_WOULD_BLOCK /\ Z.of_nat (length c) = rq_capacity q /\ q' = q)) /\
    rq_capacity q' = rq_capacity q /\ bottom q' <= bottom q + 1.
Proof.
  intros [Hw Ht Hb Hwd Hf Hh] Hnext. unfold vl_run_queue_owner_push.
  destruct (ring_slots _ Hw) as (l & Hl & _). rewrite Hl.
  replace (bottom q - top q) with (Z.of_nat (length c)) by lia.
  pose proof (ring_bound _ Hw). change (SIZE_MAX / 8) with 2305843009213693951 in *.
  rewrite w64_small by word_lia.
  destruct (Z.leb_spec (rq_capacity q) (Z.of_nat (length c))).
  { exists VL_ERROR_WOULD_BLOCK, q. split; [done|]. split; [right|]; auto with lia. }
  destruct (ring_store q (bottom q) (Some x) Hw) as (l' & _ & Hs). rewrite Hs.
  destruct (slot_store_spec _ _ _ _ Hw Hs) as (Hw' & Ht' & Hb' & Hc' & Hx & _).
  rewrite Hb in Hs, Hx.
  pose proof (holds_store _ _ _ _ _ Hw Hh ltac:(lia) Hs) as Hh'.
  rewrite w64_small by word_lia. eexists VL_OK, _. split; [done|].
  split; [left|simpl in *; lia].
  split; [done|]. split; [lia|]. rewrite <- Hb in Hx, Hh'.
  split; simpl; rewrite ?length_app; simpl in *; auto with veloco; try lia.
  apply holds_snoc; [exact Hh'|]. by rewrite <- Hb.
Qed.

Lemma owner_pop_repr q c : rq_repr q c ->
  (c = [] /\ vl_run_queue_owner_pop q = Some (None, q)) \/
  exists c' x q', c = c' ++ [x] /\ vl_run_queue_owner_pop q = Some (Some x, q') /\
    rq_repr q' c' /\ rq_capacity q' = rq_capacity q /\ bottom q' <= bottom q.
Proof.
  intros [Hw Ht Hb Hwd Hf Hh]. unfold vl_run_queue_owner_pop.
  destruct (ring_slots _ Hw) as (l & Hl & _). rewrite Hl.
  destruct c as [|x c _] using rev_ind.
  - left. split; [done|]. simpl in *. destruct (Z.eqb_spec (bottom q) 0); [done|].
    destruct (Z.ltb_spec (bottom q - 1) (top q)); [|lia].
    assert (E : bottom q = top q) by lia. unfold set_bottom. destruct q; simpl in *. by rewrite E.
  - right. exists c, x. rewrite length_app in *. simpl in *.
    destruct (Z.eqb_spec (bottom q) 0); [lia|].
    destruct (Z.ltb_spec (bottom q - 1) (top q)); [lia|].
    rewrite slot_load_set_bottom.
    replace (bottom q - 1) with (top q + Z.of_nat (length c)) by lia.
    rewrite (holds_last _ _ _ _ Hh). rewrite Z.eqb_refl.
    destruct (Z.eqb_spec (top q) (top q + Z.of_nat (length c))) as [E|E].
    + assert (length c = 0%nat) as Hc0 by lia. apply nil_length_inv in Hc0 as ->.
      rewrite w64_small by word_lia. eexists. split; [done|]. split; [done|]. split; [|simpl in *; lia].
      split; simpl in *; auto with veloco; try lia. by intros ? ? ?.
    + eexists. split; [done|]. split; [done|]. split; [|simpl in *; lia].
      split; simpl in *; auto with veloco; try lia. by apply (holds_init _ _ x).
Qed.

Lemma steal_repr q c : rq_repr q c ->
  (c = [] /\ vl_run_queue_steal q = Some (None, q)) \/
  exists x c' q', c = x :: c' /\ vl_run_queue_steal q = Some (Some x, q') /\
    rq_repr q' c' /\ rq_capacity q' = rq_capacity q /\ bottom q' <= bottom q.
Proof.
  intros [Hw Ht Hb Hwd Hf Hh]. unfold vl_run_queue_steal.
  destruct (ring_slots _ Hw) as (l & Hl & _). rewrite Hl.
  destruct c as [|x c]; simpl in *.
  - left. destruct (Z.leb_spec (bottom q) (top q)); [done|lia].
  - right. exists x, c. destruct (Z.leb_spec (bottom q) (top q)); [lia|].
    rewrite (holds_head _ _ _ _ Hh), Z.eqb_refl, w64_small by word_lia.
    eexists. split; [done|]. split; [done|]. split; [|simpl in *; lia].
    split; simpl; auto with veloco; try lia. by apply (holds_tail _ _ x).
Qed.

Lemma steal_batch_repr n q c : rq_repr q c ->
  exists q', vl_run_queue_steal_batch n q = Some (take n c, q') /\
    rq_repr q' (drop n c) /\ rq_capacity q' = rq_capacity q /\ bottom q' <= bottom q.
Proof.
  revert q c. induction n as [|n IH]; intros q c H; [by exists q|].
  cbn [vl_run_queue_steal_batch].
  destruct (steal_repr q c H) as [[-> E]|(x & c' & q1 & -> & E & H1 & Hc & Hb)].
  - rewrite (bind_Some _ _ _ _ _ E). by exists q.
  - rewrite (bind_Some _ _ _ _ _ E). destruct (IH q1 c' H1) as (q2 & E2 & H2 & Hc2 & Hb2).
    rewrite (bind_Some _ _ _ _ _ E2). exists q2. split; [done|]. split; [done|]. split; [congruence|lia].
Qed.

Lemma run_queue_length_repr q c : rq_repr q c -> vl_run_queue_length q = Z.of_nat (length c).
Proof.
  intros [Hw Ht Hb Hwd Hf Hh]. unfold vl_run_queue_length.
  destruct (ring_slots _ Hw) as (l & Hl & _). rewrite Hl.
  destruct (Z.ltb_spec (top q) (bottom q)); lia.
Qed.

Lemma is_power_of_two_word capacity : word capacity ->
  vl_is_power_of_two capacity = is_power_of_two capacity.
Proof.
  intros Hw. unfold vl_is_power_of_two, is_power_of_two.
  destruct (Z.eqb_spec capacity 0); [done|]. simpl. rewrite w64_small; [done|]. word_lia.
Qed.

Lemma run_queue_init_repr q capacity : word capacity -> slots q = None ->
  exists st q', vl_run_queue_init true capacity q = Some (st, q') /\
    ((st = VL_OK /\ rq_repr q' [] /\ rq_capacity q' = capacity /\ bottom q' = 0) \/
     (st = VL_ERROR_INVALID_ARGUMENT /\ q' = q /\
      ((capacity < 2 \/ SIZE_MAX / 8 < capacity) \/ forall k, 0 <= k -> capacity <> 2 ^ k))).
Proof.
  intros Hw Hs. unfold vl_run_queue_init. crun. change (id q) with q. rewrite Hs.
  rewrite bool_decide_eq_false_2 by (intros []; done). simpl.
  rewrite is_power_of_two_word by done.
  destruct (Z.ltb_spec capacity 2).
  { exists VL_ERROR_INVALID_ARGUMENT, q. split; [done|]. right. auto. }
  destruct (Z.ltb_spec (SIZE_MAX / 8) capacity).
  { exists VL_ERROR_INVALID_ARGUMENT, q. split; [by rewrite orb_true_r|]. right. auto. }
  destruct (is_power_of_two capacity) eqn:E; simpl.
  - eexists VL_OK, _. split; [done|]. left. split; [done|]. split; [|done].
    apply is_power_of_two_spec in E; [|lia].
    split; simpl; try done; try lia.
    split; simpl; [done| |lia|].
    + apply w64_small. word_lia.
    + eexists. split; [done|]. rewrite length_replicate. lia.
  - exists VL_ERROR_INVALID_ARGUMENT, q. split; [done|]. right. split; [done|]. split; [done|].
    right. intros k Hk ->. rewrite (proj2 (is_power_of_two_spec (2 ^ k) ltac:(lia))) in E; [done|eauto].
Qed.

(** The specification: a bounded deque as a list, with the results the C
    operations return. *)
Inductive rq_op := OpPush (x : nat) | OpPop | OpSteal | OpStealBatch (n : nat) | OpLength.
Inductive rq_result :=
  | RStatus (st : vl_status) | RItem (x : option nat) | RItems (l : list nat) | RLength (n : Z).

Definition deque_step (cap : Z) (op : rq_op) (c : list nat) : rq_result * list nat :=
  match op with
  | OpPush x =>
      if Z.of_nat (length c) <? cap then (RStatus VL_OK, c ++ [x])
      else (RStatus VL_ERROR_WOULD_BLOCK, c)
  | OpPop => (RItem (list.last c), take (length c - 1) c)
  | OpSteal => (RItem (head c), tail c)
  | OpStealBatch n => (RItems (take n c), drop n c)
  | OpLength => (RLength (Z.of_nat (length c)), c)
  end.

Definition rq_step (op : rq_op) : C vl_run_queue rq_result :=
  match op with
  | OpPush x => st ← vl_run_queue_owner_push (Some x); mret (RStatus st)
  | OpPop => x ← vl_run_queue_owner_pop; mret (RItem x)
  | OpSteal => x ← vl_run_queue_steal; mret (RItem x)
  | OpStealBatch n => l ← vl_run_queue_steal_batch n; mret (RItems l)
  | OpLength => n ← gets vl_run_queue_length; mret (RLength n)
  end.

Fixpoint deque_trace (cap : Z) (ops : list rq_op) (c : list nat) : list rq_result :=
  match ops with
  | [] => []
  | op :: ops => let '(r, c') := deque_step cap op c in r :: deque_trace cap ops c'
  end.

Fixpoint rq_trace (ops : list rq_op) : C vl_run_queue (list rq_result) :=
  match ops with
  | [] => mret []
  | op :: ops => r ← rq_step op; rs ← rq_trace ops; mret (r :: rs)
  end.

Lemma rq_step_refines op q c : rq_repr q c -> bottom q + 1 < W64 ->
  exists q', rq_step op q = Some (fst (deque_step (rq_capacity q) op c), q') /\
    rq_repr q' (snd (deque_step (rq_capacity q) op c)) /\
    rq_capacity q' = rq_capacity q /\ bottom q' <= bottom q + 1.
Proof.
  intros H Hb. destruct op as [x| | |n|]; cbn [rq_step deque_step].
  - destruct (owner_push_repr q c x H Hb) as (st & q' & E & Hst & Hc & Hb').
    rewrite (bind_Some _ _ _ _ _ E).
    destruct Hst as [(-> & Hlt & Hr)|(-> & Heq & ->)];
      destruct (Z.ltb_spec (Z.of_nat (length c)) (rq_capacity q)); try lia; eauto with lia.
  - destruct (owner_pop_repr q c H) as [[-> E]|(c' & x & q' & -> & E & Hr & Hc & Hb')];
      rewrite (bind_Some _ _ _ _ _ E).
    + exists q. auto with lia.
    + exists q'. rewrite last_snoc, length_app. simpl.
      replace (length c' + 1 - 1)%nat with (length c') by lia.
      rewrite take_app_length. auto with lia.
  - destruct (steal_repr q c H) as [[-> E]|(x & c' & q' & -> & E & Hr & Hc & Hb')];
      rewrite (bind_Some _ _ _ _ _ E); eexists; simpl; auto with lia.
  - destruct (steal_batch_repr n q c H) as (q' & E & Hr & Hc & Hb').
    rewrite (bind_Some _ _ _ _ _ E). exists q'. auto with lia.
  - exists q. simpl. rewrite <- (run_queue_length_repr q c H). auto with lia.
Qed.

(** C18: the run queue refines a bounded deque: for every sequence of pushes,
    owner pops, steals, batch steals and length queries on an initialised
    queue, the C functions return exactly what the list specification returns
    (owner LIFO at one end, thieves FIFO at the other, VL_ERROR_WOULD_BLOCK
    exactly when [capacity] items are queued), with every slot access in
    bounds, as long as the 64-bit [bottom] counter has room for the sequence. *)
Theorem run_queue_refines_deque ops q c
    (Hq : rq_repr q c) (Hroom : bottom q + Z.of_nat (length ops) < W64) :
  exists q', rq_trace ops q = Some (deque_trace (rq_capacity q) ops c, q').
Proof.
  revert q c Hq Hroom. induction ops as [|op ops IH]; intros q c Hq Hroom; [by exists q|].
  simpl in Hroom. cbn [rq_trace deque_trace].
  destruct (rq_step_refines op q c Hq ltac:(lia)) as (q1 & E & H1 & Hc & Hb).
  destruct (deque_step (rq_capacity q) op c) as [r c1]. simpl in *.
  rewrite (bind_Some _ _ _ _ _ E).
  destruct (IH q1 c1 H1 ltac:(lia)) as (q2 & E2).
  rewrite (bind_Some _ _ _ _ _ E2). exists q2. by rewrite Hc.
Qed.

Definition fresh_queue (capacity : Z) : vl_run_queue :=
  mk_run_queue 0 0 (Some (replicate (Z.to_nat capacity) None)) capacity (capacity - 1).

Lemma fresh_queue_repr capacity : is_power_of_two capacity = true ->
  2 <= capacity <= SIZE_MAX / 8 -> rq_repr (fresh_queue capacity) [].
Proof.
  intros Hp Hc. destruct (run_queue_init_repr (mk_run_queue 0 0 None 0 0) capacity)
    as (st & q' & E & Hcase); [|done|].
  { change (SIZE_MAX / 8) with 2305843009213693951 in Hc. word_lia. }
  destruct Hcase as [(-> & Hr & _)|(-> & _ & [Hbad|Hbad])]; [|lia|].
  - assert (q' = fresh_queue capacity) as ->; [|done].
    revert E. unfold vl_run_queue_init. crun. simpl.
    rewrite is_power_of_two_word, Hp by (change (SIZE_MAX / 8) with 2305843009213693951 in Hc; word_lia).
    destruct (Z.ltb_spec capacity 2), (Z.ltb_spec (SIZE_MAX / 8) capacity); simpl; try lia.
    rewrite w64_small by (change (SIZE_MAX / 8) with 2305843009213693951 in Hc; word_lia).
    unfold fresh_queue. congruence.
  - apply is_power_of_two_spec in Hp as (k & Hk & ->); [|lia]. by destruct (Hbad k Hk).
Qed.

Lemma run_queue_refines_deque_witness :
  rq_trace [OpPush 1; OpPush 2; OpPush 3; OpSteal; OpPop; OpPop; OpPop] (fresh_queue 2) =
    Some ([RStatus VL_OK; RStatus VL_OK; RStatus VL_ERROR_WOULD_BLOCK;
           RItem (Some 1%nat); RItem (Some 2%nat); RItem None; RItem None],
          mk_run_queue 2 2 (Some [Some 1%nat; Some 2%nat]) 2 1) /\
  exists q', rq_trace [OpPush 1; OpSteal] (fresh_queue 2) =
    Some ([RStatus VL_OK; RItem (Some 1%nat)], q').
Proof.
  split; [reflexivity|].
  apply (run_queue_refines_deque [OpPush 1; OpSteal] (fresh_queue 2) []);
    [apply fresh_queue_repr; vm_compute; [reflexivity|split; discriminate]|reflexivity].
Defined.

(** ** Every interleaving of the atomic accesses *)

Module Interleaved.

(** Where the owner is between two atomic accesses, with the locals it holds.
    [push] and [pop] are [vl_run_queue_owner_push] and [vl_run_queue_owner_pop]. *)
Inductive owner_pc :=
  | O_idle
  | O_push_load_bottom (item : nat)
  | O_push_load_top (item : nat) (bottom : Z)
  | O_push_store_slot (item : nat) (bottom : Z)
  | O_push_store_bottom (item : nat) (bottom : Z)
  | O_pop_load_bottom
  | O_pop_store_bottom (bottom : Z)
  | O_pop_load_top (bottom : Z)
  | O_pop_restore (top : Z)
  | O_pop_load_slot (bottom top : Z)
  | O_pop_cas (top : Z) (item : option nat)
  | O_pop_publish (top : Z) (item : option nat).

(** A thief inside [vl_run_queue_steal]. *)
Inductive thief_pc :=
  | T_load_top
  | T_load_bottom (top : Z)
  | T_load_slot (top : Z)
  | T_cas (top : Z) (item : option nat).

(** The queue, where every thread is, and two histories: the items whose push
    was published, and the items some operation returned. *)
Record system := mk_system {
  queue : vl_run_queue;
  owner : owner_pc;
  thieves : gmap nat thief_pc;
  pushed : list nat;
  taken : list nat }.

Definition with_owner (pc : owner_pc) (q : vl_run_queue) (s : system) : system :=
  mk_system q pc (thieves s) (pushed s) (taken s).

(** An operation of the owner returns [item]. *)
Definition owner_return (item : option nat) (q : vl_run_queue) (s : system) : system :=
  mk_system q O_idle (thieves s) (pushed s) (option_list item ++ taken s).

(** One atomic access of the owner, and the local code up to the next one. *)
Definition owner_step (s : system) : option system :=
  let q := queue s in
  match owner s with
  | O_idle => None
  | O_push_load_bottom item => Some (with_owner (O_push_load_top item (bottom q)) q s)
  | O_push_load_top item b =>
      if rq_capacity q <=? w64 (b - top q) then Some (with_owner O_idle q s)
      else Some (with_owner (O_push_store_slot item b) q s)
  | O_push_store_slot item b =>
      q' ← slot_store q b (Some item); Some (with_owner (O_push_store_bottom item b) q' s)
  | O_push_store_bottom item b =>
      Some (mk_system (set_bottom (w64 (b + 1)) q) O_idle (thieves s) (item :: pushed s) (taken s))
  | O_pop_load_bottom =>
      if bottom q =? 0 then Some (owner_return None q s)
      else Some (with_owner (O_pop_store_bottom (bottom q - 1)) q s)
  | O_pop_store_bottom b => Some (with_owner (O_pop_load_top b) (set_bottom b q) s)
  | O_pop_load_top b =>
      if b <? top q then Some (with_owner (O_pop_restore (top q)) q s)
      else Some (with_owner (O_pop_load_slot b (top q)) q s)
  | O_pop_restore t => Some (owner_return None (set_bottom t q) s)
  | O_pop_load_slot b t =>
      item ← slot_load q b;
      if t =? b then Some (with_owner (O_pop_cas t item) q s)
      else Some (owner_return item q s)
  | O_pop_cas t item =>
      if top q =? t then Some (with_owner (O_pop_publish t item) (set_top (w64 (t + 1)) q) s)
      else Some (with_owner (O_pop_publish t None) q s)
  | O_pop_publish t item => Some (owner_return item (set_bottom (w64 (t + 1)) q) s)
  end.

Definition with_thief (i : nat) (pc : thief_pc) (s : system) : system :=
  mk_system (queue s) (owner s) (<[i := pc]> (thieves s)) (pushed s) (taken s).

Definition thief_return (i : nat) (item : option nat) (q : vl_run_queue) (s : system) : system :=
  mk_system q (owner s) (delete i (thieves s)) (pushed s) (option_list item ++ taken s).

Definition thief_step (i : nat) (s : system) : option system :=
  let q := queue s in
  pc ← thieves s !! i;
  match pc with
  | T_load_top => Some (with_thief i (T_load_bottom (top q)) s)
  | T_load_bottom t =>
      if bottom q <=? t then Some (thief_return i None q s)
      else Some (with_thief i (T_load_slot t) s)
  | T_load_slot t => item ← slot_load q t; Some (with_thief i (T_cas t item) s)
  | T_cas t item =>
      if top q =? t then Some (thief_return i item (set_top (w64 (t + 1)) q) s)
      else Some (thief_return i None q s)
  end.

(** The scheduler's choices: start an operation, or let a thread proceed. *)
Inductive label := L_push (item : nat) | L_pop | L_owner | L_steal (i : nat) | L_thief (i : nat).

Definition step (l : label) (s : system) : option system :=
  match l with
  | L_push item =>
      match owner s with
      | O_idle => Some (with_owner (O_push_load_bottom item) (queue s) s)
      | _ => None
      end
  | L_pop =>
      match owner s with
      | O_idle => Some (with_owner O_pop_load_bottom (queue s) s)
      | _ => None
      end
  | L_owner => owner_step s
  | L_steal i =>
      match thieves s !! i with
      | None => Some (with_thief i T_load_top s)
      | Some _ => None
      end
  | L_thief i => thief_step i s
  end.

Definition start (q : vl_run_queue) : system := mk_system q O_idle ∅ [] [].

Inductive reachable (q0 : vl_run_queue) : system -> Prop :=
  | reach_start : reachable q0 (start q0)
  | reach_step s l s' : reachable q0 s -> step l s = Some s' -> reachable q0 s'.

(** *** The invariant *)

(** One past the last index that is still in the deque: an owner that is
    popping has already lowered [bottom]. *)
Definition limit (s : system) : Z :=
  match owner s with
  | O_pop_load_top b => b + 1
  | O_pop_restore t => t
  | O_pop_load_slot b t => if t =? b then b + 1 else b
  | O_pop_cas t _ | O_pop_publish t _ => t + 1
  | _ => bottom (queue s)
  end.

(** An item the owner has taken out and not returned yet. *)
Definition in_hand (s : system) (held : list nat) : Prop :=
  match owner s with
  | O_pop_load_slot b t =>
      if t =? b then held = []
      else exists x, slot_load (queue s) b = Some (Some x) /\ held = [x]
  | O_pop_publish _ item => held = option_list item
  | _ => held = []
  end.

Definition owner_ok (s : system) : Prop :=
  let q := queue s in
  match owner s with
  | O_idle | O_push_load_bottom _ | O_pop_load_bottom => True
  | O_push_load_top _ b => b = bottom q
  | O_push_store_slot _ b => b = bottom q /\ b < top q + rq_capacity q
  | O_push_store_bottom x b =>
      b = bottom q /\ b < top q + rq_capacity q /\ slot_load q b = Some (Some x)
  | O_pop_store_bottom b => 0 <= b /\ bottom q = b + 1
  | O_pop_load_top b => bottom q = b /\ 0 <= b
  | O_pop_restore t => top q = t /\ bottom q < t
  | O_pop_load_slot b t => bottom q = b /\ 0 <= t <= b /\ t <= top q /\ b < top q + rq_capacity q
  | O_pop_cas t item => bottom q = t /\ 0 <= t <= top q /\ slot_load q t = Some item
  | O_pop_publish t _ => 0 <= t /\ top q = t + 1 /\ bottom q = t
  end.

(** A thief that still can win its CAS has seen an index below [limit] and, once
    it has read the slot, the item that is there. *)
Definition thief_ok (s : system) (pc : thief_pc) : Prop :=
  let q := queue s in
  match pc with
  | T_load_top => True
  | T_load_bottom t => 0 <= t <= top q
  | T_load_slot t => 0 <= t <= top q /\ (t = top q -> t < limit s)
  | T_cas t item =>
      0 <= t <= top q /\ (t = top q -> t < limit s /\ slot_load q t = Some item)
  end.

Record inv (s : system) : Prop := {
  inv_ring : ring_wf (queue s);
  inv_owner : owner_ok s;
  inv_thieves : forall i pc, thieves s !! i = Some pc -> thief_ok s pc;
  inv_top : 0 <= top (queue s);
  inv_count : limit s <= Z.of_nat (length (pushed s));
  inv_room : limit s <= top (queue s) + rq_capacity (queue s);
  inv_items : exists c held,
    limit s = top (queue s) + Z.of_nat (length c) /\
    holds (queue s) (top (queue s)) c /\ in_hand s held /\
    pushed s ≡ₚ taken s ++ c ++ held }.

Lemma thief_ok_mono s s' pc :
  top (queue s) <= top (queue s') ->
  (top (queue s') = top (queue s) -> top (queue s) < limit s ->
     top (queue s) < limit s' /\
     slot_load (queue s') (top (queue s)) = slot_load (queue s) (top (queue s))) ->
  thief_ok s pc -> thief_ok s' pc.
Proof.
  intros H1 H2. destruct pc as [|t|t|t item]; simpl; [done|lia| |].
  - intros [Hb Ht]. split; [lia|]. intros ->.
    assert (E : top (queue s') = top (queue s)) by lia. rewrite E in *. apply H2; auto.
  - intros [Hb Ht]. split; [lia|]. intros ->.
    assert (E : top (queue s') = top (queue s)) by lia. rewrite E in *.
    destruct (Ht eq_refl) as [Hl Hs]. destruct (H2 eq_refl Hl) as [Hl' Hs']. split; congruence.
Qed.

Lemma bottom_le_limit s : owner_ok s -> bottom (queue s) <= limit s.
Proof.
  unfold owner_ok, limit. destruct (owner s); try case_match; lia.
Qed.

Lemma inv_top_le_limit s : inv s -> top (queue s) <= limit s.
Proof. intros [_ _ _ _ _ _ (c & held & Hc & _)]. lia. Qed.

(** What a step of the owner has to show. *)
Lemma inv_owner_move s q' pc' pushed' taken' c' held' L :
  let q := queue s in
  let s' := mk_system q' pc' (thieves s) pushed' taken' in
  inv s -> ring_wf q' -> limit s' = L -> owner_ok s' -> top q <= top q' ->
  (top q' = top q -> top q < limit s ->
     top q < L /\ slot_load q' (top q) = slot_load q (top q)) ->
  L <= Z.of_nat (length pushed') -> L <= top q' + rq_capacity q' ->
  L = top q' + Z.of_nat (length c') -> holds q' (top q') c' -> in_hand s' held' ->
  pushed' ≡ₚ taken' ++ c' ++ held' -> inv s'.
Proof.
  intros q s' Hinv Hw <- Ho Htop Hth Hc Hr Hlen Hh Hin Hp.
  split; try done.
  - intros i pc Hi. apply (thief_ok_mono s); [done|exact Hth|].
    by eapply inv_thieves.
  - etrans; [by apply (inv_top s)|done].
  - by exists c', held'.
Qed.

(** Unfold the invariant at a known program point of the owner. *)
Ltac inv_at Hinv Hpc :=
  let Hle := fresh "Hle" in
  pose proof (inv_top_le_limit _ Hinv) as Hle;
  let Hinv' := fresh in pose proof Hinv as Hinv';
  destruct Hinv' as [Hw Ho Ht H0 Hc Hr (c & held & Hlen & Hh & Hin & Hp)];
  unfold owner_ok, limit, in_hand in Ho, Hle, Hc, Hr, Hlen, Hin;
  rewrite Hpc in Ho, Hle, Hc, Hr, Hlen, Hin.

(** The thieves' obligation when neither [limit], [top] nor the slots change. *)
Ltac same_thieves Hpc :=
  intros _; unfold limit; rewrite Hpc; intros; split; [lia|done].

Ltac owner_done Hpc :=
  auto with veloco; simpl; auto with veloco; try done; try lia;
  try (unfold owner_ok; simpl; auto with lia; fail); try (same_thieves Hpc).

Section OwnerSteps.
  #[local] Set Default Proof Using "Type*".
  Context (s : system) (Hinv : inv s).

Lemma push_load_bottom_inv item : owner s = O_push_load_bottom item ->
    inv (with_owner (O_push_load_top item (bottom (queue s))) (queue s) s).
Proof.
    intros Hpc. inv_at Hinv Hpc.
    apply (inv_owner_move s _ _ _ _ c held (bottom (queue s))); owner_done Hpc.
Qed.

Lemma push_load_top_inv item b s' : owner s = O_push_load_top item b ->
    owner_step s = Some s' -> inv s'.
Proof.
    intros Hpc. unfold owner_step. rewrite Hpc. inv_at Hinv Hpc. subst b.
    pose proof (ring_bound _ Hw). change (SIZE_MAX / 8) with 2305843009213693951 in *.
    rewrite w64_small by word_lia.
    destruct (Z.leb_spec (rq_capacity (queue s)) (bottom (queue s) - top (queue s)));
      intros [= <-];
      apply (inv_owner_move s _ _ _ _ c held (bottom (queue s))); owner_done Hpc.
Qed.

Lemma push_store_slot_inv item b q' : owner s = O_push_store_slot item b ->
    slot_store (queue s) b (Some item) = Some q' ->
    inv (with_owner (O_push_store_bottom item b) q' s).
Proof.
    intros Hpc Hs. inv_at Hinv Hpc. destruct Ho as [-> Hlt].
    destruct (slot_store_spec _ _ _ _ Hw Hs) as (Hw' & Ht' & Hb' & Hc' & Hx & Hother).
    apply (inv_owner_move s _ _ _ _ c held (bottom (queue s))); auto; try lia.
    - unfold owner_ok. simpl. rewrite Ht', Hb', Hc'. auto.
    - intros _. unfold limit. rewrite Hpc. intros Hlim. split; [lia|]. apply Hother. lia.
    - rewrite Ht'. apply (holds_store (queue s) q' _ c (Some item)); auto; [lia|].
      by rewrite <- Hlen.
Qed.

Lemma push_store_bottom_inv item b s' : owner s = O_push_store_bottom item b ->
    owner_step s = Some s' -> Z.of_nat (length (pushed s')) < W64 -> inv s'.
Proof.
    intros Hpc. unfold owner_step. rewrite Hpc. intros [= <-] Hbound. simpl in Hbound.
    inv_at Hinv Hpc. destruct Ho as (-> & Hlt & Hx). rewrite w64_small by word_lia.
    apply (inv_owner_move s _ _ _ _ (c ++ [item]) held (bottom (queue s) + 1));
      simpl; rewrite ?length_app; owner_done Hpc.
    - apply holds_snoc; [done|]. by rewrite <- Hlen.
    - rewrite Hp. rewrite <- app_assoc. simpl. by rewrite <- !Permutation_middle.
Qed.

Lemma pop_load_bottom_inv s' : owner s = O_pop_load_bottom ->
    owner_step s = Some s' -> inv s'.
Proof.
    intros Hpc. unfold owner_step. rewrite Hpc. inv_at Hinv Hpc.
    destruct (Z.eqb_spec (bottom (queue s)) 0); intros [= <-];
      apply (inv_owner_move s _ _ _ _ c held (bottom (queue s))); owner_done Hpc.
Qed.

Lemma pop_store_bottom_inv b : owner s = O_pop_store_bottom b ->
    inv (with_owner (O_pop_load_top b) (set_bottom b (queue s)) s).
Proof.
    intros Hpc. inv_at Hinv Hpc.
    apply (inv_owner_move s _ _ _ _ c held (b + 1)); owner_done Hpc.
Qed.

Lemma pop_load_top_inv b s' : owner s = O_pop_load_top b ->
    owner_step s = Some s' -> inv s'.
Proof.
    intros Hpc. unfold owner_step. rewrite Hpc. inv_at Hinv Hpc.
    destruct (Z.ltb_spec b (top (queue s))); intros [= <-].
    { apply (inv_owner_move s _ _ _ _ c held (top (queue s))); owner_done Hpc. }
    destruct (decide (top (queue s) = b)) as [E|E].
    - apply (inv_owner_move s _ _ _ _ c held (b + 1)); owner_done Hpc.
      + unfold limit. simpl. by rewrite E, Z.eqb_refl.
      + unfold in_hand. simpl. by rewrite E, Z.eqb_refl.
    - apply Z.eqb_neq in E as Eb. destruct c as [|x c _] using rev_ind; [simpl in Hlen; lia|].
      rewrite length_app in Hlen. simpl in Hlen.
      apply (inv_owner_move s _ _ _ _ c [x] b); owner_done Hpc.
      + unfold limit. simpl. by rewrite Eb.
      + by apply (holds_init _ _ x).
      + unfold in_hand. simpl. rewrite Eb.
        exists x. split; [|done]. replace b with (top (queue s) + Z.of_nat (length c)) by lia.
        by apply holds_last.
      + rewrite Hp, Hin. by rewrite app_nil_r.
Qed.

Lemma pop_restore_inv t : owner s = O_pop_restore t ->
    inv (owner_return None (set_bottom t (queue s)) s).
Proof.
    intros Hpc. inv_at Hinv Hpc.
    apply (inv_owner_move s _ _ _ _ c held t); owner_done Hpc.
Qed.

Lemma pop_load_slot_inv b t s' : owner s = O_pop_load_slot b t ->
    owner_step s = Some s' -> inv s'.
Proof.
    intros Hpc. unfold owner_step. rewrite Hpc. inv_at Hinv Hpc.
    destruct (slot_load (queue s) b) as [item|] eqn:Hi; [|done]. simpl.
    destruct (Z.eqb_spec t b) as [->|E]; intros [= <-].
    - apply (inv_owner_move s _ _ _ _ c held (b + 1)); owner_done Hpc.
      unfold limit. rewrite Hpc, Z.eqb_refl. intros _ ?. split; [lia|done].
    - apply Z.eqb_neq in E as Eb. destruct Hin as (x & Hx & ->). simplify_eq.
      apply (inv_owner_move s _ _ _ _ c [] (bottom (queue s))); owner_done Hpc.
      + unfold limit. rewrite Hpc, Eb. intros _ ?. split; [lia|done].
      + rewrite Hp. rewrite app_nil_r, app_assoc. by rewrite Permutation_app_comm.
Qed.

Lemma pop_cas_inv t item s' : owner s = O_pop_cas t item ->
    owner_step s = Some s' -> Z.of_nat (length (pushed s)) < W64 -> inv s'.
Proof.
    intros Hpc. unfold owner_step. rewrite Hpc. intros Hs Hbound. inv_at Hinv Hpc.
    revert Hs. destruct (Z.eqb_spec (top (queue s)) t) as [E|E]; intros [= <-].
    - rewrite w64_small by word_lia.
      assert (exists x, c = [x] /\ item = Some x) as (x & -> & ->).
      { destruct c as [|x [|y c]]; simpl in Hlen; try lia. exists x. split; [done|].
        pose proof (holds_head _ _ _ _ Hh) as Hx. rewrite E in Hx. naive_solver. }
      apply (inv_owner_move s _ _ _ _ [] [x] (t + 1)); owner_done Hpc.
      by rewrite Hp, Hin.
    - apply (inv_owner_move s _ _ _ _ c [] (t + 1)); owner_done Hpc.
      by rewrite Hp, Hin.
Qed.

Lemma pop_publish_inv t item s' : owner s = O_pop_publish t item ->
    owner_step s = Some s' -> Z.of_nat (length (pushed s)) < W64 -> inv s'.
Proof.
    intros Hpc. unfold owner_step. rewrite Hpc. intros [= <-] Hbound. inv_at Hinv Hpc.
    rewrite w64_small by word_lia.
    apply (inv_owner_move s _ _ _ _ c [] (t + 1)); owner_done Hpc.
    rewrite Hp, Hin, app_nil_r, (Permutation_app_comm c).
    by rewrite (Permutation_app_comm (option_list item) (taken s)), <- app_assoc.
Qed.
End OwnerSteps.

Lemma owner_step_pushed s s' : owner_step s = Some s' ->
  (length (pushed s) <= length (pushed s'))%nat.
Proof.
  unfold owner_step, with_owner, owner_return. intros Hs.
  repeat case_match; try discriminate Hs; simplify_option_eq; simpl; lia.
Qed.

Lemma owner_step_inv s s' : inv s -> owner_step s = Some s' ->
  Z.of_nat (length (pushed s')) < W64 -> inv s'.
Proof.
  intros Hinv Hs Hb.
  pose proof (owner_step_pushed _ _ Hs) as Hmono.
  destruct (owner s) eqn:Hpc.
  - unfold owner_step in Hs. by rewrite Hpc in Hs.
  - unfold owner_step in Hs. rewrite Hpc in Hs. injection Hs as <-. by apply push_load_bottom_inv.
  - by eapply push_load_top_inv.
  - unfold owner_step in Hs. rewrite Hpc in Hs. simplify_option_eq.
    by apply push_store_slot_inv.
  - by eapply push_store_bottom_inv.
  - by eapply pop_load_bottom_inv.
  - unfold owner_step in Hs. rewrite Hpc in Hs. injection Hs as <-. by apply pop_store_bottom_inv.
  - by eapply pop_load_top_inv.
  - unfold owner_step in Hs. rewrite Hpc in Hs. injection Hs as <-. by apply pop_restore_inv.
  - by eapply pop_load_slot_inv.
  - eapply pop_cas_inv; eauto with lia.
  - eapply pop_publish_inv; eauto with lia.
Qed.

(** A thief that moves without touching the queue. *)
Lemma thief_local_inv s thieves' : inv s ->
  (forall i pc, thieves' !! i = Some pc -> thief_ok s pc) ->
  inv (mk_system (queue s) (owner s) thieves' (pushed s) (taken s)).
Proof. intros [Hw Ho _ H0 Hc Hr Hi] Hth. by split. Qed.

(** A thief's successful CAS takes the oldest item. *)
Lemma thief_cas_inv s i t item : inv s -> thieves s !! i = Some (T_cas t item) ->
  top (queue s) = t -> Z.of_nat (length (pushed s)) < W64 ->
  inv (thief_return i item (set_top (w64 (t + 1)) (queue s)) s).
Proof.
  intros Hinv Hi E Hb. pose proof (inv_thieves s Hinv i _ Hi) as Hok. simpl in Hok.
  destruct Hok as [Ht0 Hok]. destruct (Hok (eq_sym E)) as [Hlim Hslot].
  destruct Hinv as [Hw Ho Hth H0 Hc Hr (c & held & Hlen & Hh & Hin & Hp)].
  rewrite w64_small by word_lia.
  destruct c as [|x c]; [simpl in Hlen; lia|]. simpl in Hlen.
  pose proof (holds_head _ _ _ _ Hh) as Hx. rewrite E in Hx.
  assert (item = Some x) as -> by congruence.
  assert (El : limit (thief_return i (Some x) (set_top (t + 1) (queue s)) s) = limit s) by done.
  split; rewrite ?El; simpl; auto with veloco; try lia.
  - unfold owner_ok, limit in *. simpl in *. destruct (owner s); simpl in *; try lia;
      try (destruct Ho as (? & ? & ?); split; [lia|]; split; [lia|done]).
    all: repeat case_match; simpl in *; try lia.
  - intros j pc Hj. apply lookup_delete_Some in Hj as [_ Hj].
    apply (thief_ok_mono s); [simpl; lia|simpl; lia|]. by eapply Hth.
  - exists c, held. split; [lia|]. split; [|split; [done|]].
    + apply (holds_tail _ _ x). by rewrite <- E.
    + rewrite Hp. simpl. by rewrite <- Permutation_middle.
Qed.

Lemma thief_step_inv i s s' : inv s -> thief_step i s = Some s' ->
  Z.of_nat (length (pushed s')) < W64 -> inv s'.
Proof.
  intros Hinv. unfold thief_step. destruct (thieves s !! i) as [pc|] eqn:Hi; [|done]. simpl.
  pose proof (inv_thieves s Hinv i _ Hi) as Hok.
  assert (Hins : forall pc', thief_ok s pc' -> inv (with_thief i pc' s)).
  { intros pc' Hpc'. apply thief_local_inv; [done|]. intros j pcj.
    rewrite lookup_insert_Some. intros [[_ <-]|[_ Hj]]; [done|]. by eapply inv_thieves. }
  assert (Hdel : inv (thief_return i None (queue s) s)).
  { apply thief_local_inv; [done|]. intros j pcj [_ Hj]%lookup_delete_Some.
    by eapply inv_thieves. }
  pose proof (inv_top s Hinv).
  destruct pc as [|t|t|t item]; simpl in Hok.
  - intros [= <-] _. apply Hins. simpl. lia.
  - destruct (Z.leb_spec (bottom (queue s)) t); intros [= <-] _; [done|].
    apply Hins. simpl. split; [done|]. intros _.
    pose proof (bottom_le_limit s (inv_owner s Hinv)). lia.
  - destruct (slot_load (queue s) t) as [item|] eqn:Hs; [|done]. intros [= <-] _.
    apply Hins. simpl. split; [lia|]. intros Ht. split; [by apply Hok|done].
  - destruct (Z.eqb_spec (top (queue s)) t) as [E|E]; intros [= <-] Hb; [|done].
    by apply thief_cas_inv.
Qed.

Lemma step_inv l s s' : inv s -> step l s = Some s' ->
  Z.of_nat (length (pushed s')) < W64 -> inv s'.
Proof.
  intros Hinv Hs Hb. destruct l as [item| | |i|i]; simpl in Hs.
  - destruct (owner s) eqn:Hpc; try done. injection Hs as <-. inv_at Hinv Hpc.
    apply (inv_owner_move s _ _ _ _ c held (bottom (queue s))); owner_done Hpc.
  - destruct (owner s) eqn:Hpc; try done. injection Hs as <-. inv_at Hinv Hpc.
    apply (inv_owner_move s _ _ _ _ c held (bottom (queue s))); owner_done Hpc.
  - by eapply owner_step_inv.
  - destruct (thieves s !! i) eqn:Hi; [done|]. injection Hs as <-.
    apply thief_local_inv; [done|]. intros j pcj.
    rewrite lookup_insert_Some. intros [[_ <-]|[_ Hj]]; [done|]. by eapply inv_thieves.
  - by eapply thief_step_inv.
Qed.

Lemma thief_step_pushed i s s' : thief_step i s = Some s' -> pushed s' = pushed s.
Proof.
  unfold thief_step. destruct (thieves s !! i) as [[|t|t|t x]|]; simpl; try done.
  - by intros [= <-].
  - case_match; by intros [= <-].
  - destruct (slot_load (queue s) t); simpl; [|done]. by intros [= <-].
  - case_match; by intros [= <-].
Qed.

Lemma step_pushed l s s' : step l s = Some s' -> (length (pushed s) <= length (pushed s'))%nat.
Proof.
  intros Hs. destruct l; simpl in Hs.
  - destruct (owner s); simplify_eq. done.
  - destruct (owner s); simplify_eq. done.
  - by apply owner_step_pushed.
  - destruct (thieves s !! i); simplify_eq. done.
  - by rewrite (thief_step_pushed _ _ _ Hs).
Qed.

Lemma reachable_inv q0 s : rq_repr q0 [] -> bottom q0 = 0 -> reachable q0 s ->
  Z.of_nat (length (pushed s)) < W64 -> inv s.
Proof.
  intros Hq Hb Hr. induction Hr as [|s l s' Hr IH Hs]; intros Hlen.
  - destruct Hq as [Hw Ht Hbt Hwd Hf Hh]. simpl in *. unfold start.
    split; unfold limit; simpl; auto; try lia.
    + unfold owner_ok. simpl. lia.
    + intros i pc Hi. by rewrite lookup_empty in Hi.
    + exists [], []. simpl. repeat split; [lia|done..].
  - pose proof (step_pushed _ _ _ Hs). eapply step_inv; eauto with lia.
Qed.

(** The items between [top] and [bottom]. *)
Definition contents (q : vl_run_queue) : list nat :=
  omap (fun i => mjoin (slot_load q (top q + Z.of_nat i))) (seq 0 (Z.to_nat (bottom q - top q))).

Lemma contents_holds q c : bottom q = top q + Z.of_nat (length c) -> holds q (top q) c ->
  contents q = c.
Proof.
  intros Hb Hh. unfold contents.
  replace (Z.to_nat (bottom q - top q)) with (length c) by lia. clear Hb.
  assert (Hgen : forall k c', (forall i x, c' !! i = Some x ->
      slot_load q (top q + Z.of_nat (k + i)) = Some (Some x)) ->
    omap (fun i => mjoin (slot_load q (top q + Z.of_nat i))) (seq k (length c')) = c').
  2: { apply (Hgen 0%nat). intros i x Hx. apply Hh, Hx. }
  intros k c'. revert k. induction c' as [|x c' IH]; intros k H; [done|].
  cbn [seq length omap list_omap]. pose proof (H 0%nat x eq_refl) as H0.
  rewrite Nat.add_0_r in H0. rewrite H0. cbn. f_equal. apply IH.
  intros i y Hy. specialize (H (S i) y Hy). by rewrite Nat.add_succ_r in H.
Qed.

(** C1: under every interleaving of the owner's pushes and pops with any number
    of concurrent thieves, the run queue neither loses nor duplicates a task:
    what the operations have returned is always a sub-multiset of what was
    pushed (so distinct items are returned at most once), and whenever the owner
    is between operations everything pushed has either been returned or is still
    in the queue. *)
Theorem steal_exactly_once capacity s
    (Hcap : is_power_of_two capacity = true) (Hb : 2 <= capacity <= SIZE_MAX / 8)
    (Hr : reachable (fresh_queue capacity) s)
    (Hlen : Z.of_nat (length (pushed s)) < W64) :
  (exists rest, pushed s ≡ₚ taken s ++ rest) /\
  (NoDup (pushed s) -> NoDup (taken s)) /\
  (owner s = O_idle -> pushed s ≡ₚ taken s ++ contents (queue s)).
Proof.
  pose proof (reachable_inv _ _ (fresh_queue_repr _ Hcap Hb) eq_refl Hr Hlen) as Hinv.
  destruct Hinv as [Hw Ho _ H0 _ _ (c & held & Hl & Hh & Hin & Hp)].
  split; [by eexists|]. split.
  { intros Hnd. rewrite Hp in Hnd. by apply list.NoDup_app in Hnd as (? & _). }
  intros Hpc. unfold limit, in_hand in *. rewrite Hpc in *. subst held.
  rewrite (contents_holds (queue s) c Hl Hh). by rewrite Hp, app_nil_r.
Qed.

(** How many of its own accesses an operation still has to make, at most. *)
Definition owner_rank (pc : owner_pc) : nat :=
  match pc with
  | O_idle => 0
  | O_push_load_bottom _ => 4 | O_push_load_top _ _ => 3
  | O_push_store_slot _ _ => 2 | O_push_store_bottom _ _ => 1
  | O_pop_load_bottom => 6 | O_pop_store_bottom _ => 5 | O_pop_load_top _ => 4
  | O_pop_restore _ => 1 | O_pop_load_slot _ _ => 3 | O_pop_cas _ _ => 2 | O_pop_publish _ _ => 1
  end.

Definition thief_rank (pc : option thief_pc) : nat :=
  match pc with
  | None => 0
  | Some T_load_top => 4 | Some (T_load_bottom _) => 3
  | Some (T_load_slot _) => 2 | Some (T_cas _ _) => 1
  end.

(** C40: the run queue is wait-free and memory safe under every interleaving: a
    thread that is inside an operation can always take its next step (every slot
    access is inside the array), each such step brings it strictly closer to
    returning whatever the other threads do, and no step of another thread sets
    it back: a push returns after at most 4 of its own accesses, a pop after 6,
    a steal after 4. *)
Theorem run_queue_wait_free capacity s
    (Hcap : is_power_of_two capacity = true) (Hb : 2 <= capacity <= SIZE_MAX / 8)
    (Hr : reachable (fresh_queue capacity) s)
    (Hlen : Z.of_nat (length (pushed s)) < W64) :
  (owner s <> O_idle -> exists s', step L_owner s = Some s' /\
     (owner_rank (owner s') < owner_rank (owner s))%nat /\ thieves s' = thieves s) /\
  (forall i, thieves s !! i <> None -> exists s', step (L_thief i) s = Some s' /\
     (thief_rank (thieves s' !! i) < thief_rank (thieves s !! i))%nat /\
     owner s' = owner s /\ forall j, j <> i -> thieves s' !! j = thieves s !! j).
Proof.
  pose proof (reachable_inv _ _ (fresh_queue_repr _ Hcap Hb) eq_refl Hr Hlen) as Hinv.
  pose proof (inv_ring s Hinv) as Hw. split.
  - intros Hne. simpl. unfold owner_step.
    destruct (owner s) as [|x|x b|x b|x b| |b|b|t|b t|t x|t x] eqn:Hpc; try done;
      try (eexists; split; [done|]; simpl; split; [lia|done]).
    + case_match; (eexists; split; [done|]; simpl; split; [lia|done]).
    + destruct (ring_store (queue s) b (Some x) Hw) as (l & _ & ->). simpl.
      eexists; split; [done|]; simpl; split; [lia|done].
    + case_match; (eexists; split; [done|]; simpl; split; [lia|done]).
    + case_match; (eexists; split; [done|]; simpl; split; [lia|done]).
    + destruct (ring_load (queue s) b Hw) as (v & ->). simpl.
      case_match; (eexists; split; [done|]; simpl; split; [lia|done]).
    + case_match; (eexists; split; [done|]; simpl; split; [lia|done]).
  - intros i Hi. simpl. unfold thief_step.
    destruct (thieves s !! i) as [pc|] eqn:Hpc; [|done]. simpl.
    assert (Hset : forall pc', (thief_rank (Some pc') < thief_rank (Some pc))%nat ->
      exists s', Some (with_thief i pc' s) = Some s' /\
        (thief_rank (thieves s' !! i) < thief_rank (Some pc))%nat /\
        owner s' = owner s /\ forall j, j <> i -> thieves s' !! j = thieves s !! j).
    { intros pc' Hlt. eexists; split; [done|]. cbn [thieves with_thief]. rewrite lookup_insert_eq.
      split; [done|]. split; [done|]. intros j Hj. by rewrite lookup_insert_ne. }
    assert (Hret : forall x q, exists s', Some (thief_return i x q s) = Some s' /\
        (thief_rank (thieves s' !! i) < thief_rank (Some pc))%nat /\
        owner s' = owner s /\ forall j, j <> i -> thieves s' !! j = thieves s !! j).
    { intros x q. eexists; split; [done|]. cbn [thieves thief_return]. rewrite lookup_delete_eq.
      split; [destruct pc; simpl; lia|]. split; [done|]. intros j Hj. by rewrite lookup_delete_ne. }
    destruct pc as [|t|t|t x].
    + apply Hset. simpl. lia.
    + case_match; [apply Hret|apply Hset; simpl; lia].
    + destruct (ring_load (queue s) t Hw) as (v & ->). simpl. apply Hset. simpl. lia.
    + case_match; apply Hret.
Qed.

(** *** A concrete race: one item, the owner's pop against a thief *)

Fixpoint run (ls : list label) (s : system) : option system :=
  match ls with
  | [] => Some s
  | l :: ls => s' ← step l s; run ls s'
  end.

Lemma run_reachable q0 ls s s' : reachable q0 s -> run ls s = Some s' -> reachable q0 s'.
Proof.
  revert s. induction ls as [|l ls IH]; intros s Hr Hrun; simpl in Hrun.
  - by simplify_eq.
  - destruct (step l s) as [s1|] eqn:E; [|done]. eapply IH; [|done]. by eapply reach_step.
Qed.

(** Push 7; the thief reads [top] and [bottom], the owner lowers [bottom], reads
    [top] and the slot, the thief wins the CAS, the owner loses it. *)
Definition race : list label :=
  [L_push 7; L_owner; L_owner; L_owner; L_owner;
   L_steal 1; L_thief 1; L_thief 1; L_pop; L_owner; L_owner; L_owner; L_owner;
   L_thief 1; L_thief 1; L_owner; L_owner].

Definition raced : system := default (start (fresh_queue 4)) (run race (start (fresh_queue 4))).

Lemma raced_reachable : reachable (fresh_queue 4) raced.
Proof.
  apply (run_reachable _ race (start (fresh_queue 4))); [constructor|]. reflexivity.
Qed.

Lemma steal_exactly_once_witness :
  taken raced = [7%nat] /\ owner raced = O_idle /\
  pushed raced ≡ₚ taken raced ++ contents (queue raced).
Proof.
  split; [reflexivity|]. split; [reflexivity|].
  apply (steal_exactly_once 4 raced eq_refl ltac:(vm_compute; split; discriminate)
    raced_reachable eq_refl). reflexivity.
Defined.

(** The same race just before both threads try their CAS on the last item. *)
Definition racing : system := default (start (fresh_queue 4)) (run (take 14 race) (start (fresh_queue 4))).

Lemma racing_reachable : reachable (fresh_queue 4) racing.
Proof.
  apply (run_reachable _ (take 14 race) (start (fresh_queue 4))); [constructor|]. reflexivity.
Qed.

Lemma run_queue_wait_free_witness :
  owner racing = O_pop_cas 0 (Some 7%nat) /\ thieves racing !! 1%nat = Some (T_cas 0 (Some 7%nat)) /\
  (exists s', step L_owner racing = Some s' /\ (owner_rank (owner s') < 2)%nat /\
     thieves s' !! 1%nat = Some (T_cas 0 (Some 7%nat))) /\
  (exists s', step (L_thief 1) racing = Some s' /\ thieves s' !! 1%nat = None /\
     owner s' = O_pop_cas 0 (Some 7%nat)).
Proof.
  assert (Ho : owner racing = O_pop_cas 0 (Some 7%nat)) by reflexivity.
  assert (Ht : thieves racing !! 1%nat = Some (T_cas 0 (Some 7%nat))) by reflexivity.
  destruct (run_queue_wait_free 4 racing eq_refl ltac:(vm_compute; split; discriminate)
    racing_reachable eq_refl) as [H1 H2].
  destruct H1 as (s1 & E1 & R1 & T1); [rewrite Ho; discriminate|].
  destruct (H2 1%nat) as (s2 & E2 & R2 & O2 & _); [rewrite Ht; discriminate|].
  rewrite Ho in R1, O2. rewrite Ht in R2. split; [exact Ho|]. split; [exact Ht|]. split.
  - exists s1. split; [exact E1|]. split; [exact R1|]. rewrite T1. exact Ht.
  - exists s2. split; [exact E2|]. split; [|exact O2].
    destruct (thieves s2 !! 1%nat) as [[]|]; simpl in R2; solve [lia|reflexivity].
Defined.
End Interleaved.
