(* ===== verification/TimerHeap.v ===== *)
(** * The binary min-heap of timers (src/time/timer_heap.c, timer_heap.h)

    A heap is an array of pointers to [vl_timer_node_t]s that the timers own;
    each node remembers its own index so that it can be removed from the
    middle.  The store keeps the nodes in a map from node identities, so the
    aliasing between the array and the nodes is explicit. *)

From S2P Require Import Prelude.
From stdpp Require Import options.

Record vl_timer_node := mk_timer_node {
  deadline_ns : Z;
  heap_index : nat;
  active : bool;
  node_owner : nat }.

(** [items] is the live prefix [items[0 .. length)] of the array, so the field
    [length] of the C struct is its length; the slots between [length] and
    [capacity] are never read before they are written.  [items_allocated] says
    that the array pointer is not NULL. *)
Record vl_timer_heap := mk_timer_heap {
  items : list nat;
  items_allocated : bool;
  heap_capacity : Z }.

Record timer_store := mk_timer_store {
  nodes : gmap nat vl_timer_node;
  heap : vl_timer_heap }.

Definition set_heap_index (i : nat) (n : vl_timer_node) : vl_timer_node :=
  mk_timer_node (deadline_ns n) i (active n) (node_owner n).
Definition set_active (b : bool) (n : vl_timer_node) : vl_timer_node :=
  mk_timer_node (deadline_ns n) (heap_index n) b (node_owner n).
Definition set_items (l : list nat) (s : timer_store) : timer_store :=
  mk_timer_store (nodes s)
    (mk_timer_heap l (items_allocated (heap s)) (heap_capacity (heap s))).
Definition set_node (id : nat) (n : vl_timer_node) (s : timer_store) : timer_store :=
  mk_timer_store (<[id := n]> (nodes s)) (heap s).
Definition heap_items (s : timer_store) : list nat := items (heap s).
Definition heap_length (s : timer_store) : nat := length (heap_items s).

(** Array and pointer accesses: out of bounds or dangling is undefined. *)
Definition get_item (i : nat) : C timer_store nat := deref (fun s => heap_items s !! i).
Definition put_item (i id : nat) : C timer_store unit := fun s =>
  if decide (i < heap_length s)%nat then Some (tt, set_items (<[i := id]> (heap_items s)) s)
  else None.
Definition get_node (id : nat) : C timer_store vl_timer_node := deref (fun s => nodes s !! id).
Definition update_node (id : nat) (f : vl_timer_node -> vl_timer_node) : C timer_store unit :=
  n ← get_node id; modify (set_node id (f n)).
Definition item_deadline (i : nat) : C timer_store Z :=
  id ← get_item i; n ← get_node id; mret (deadline_ns n).

Definition vl_timer_heap_swap (left right : nat) : C timer_store unit :=
  node ← get_item left;
  other ← get_item right;
  _ ← put_item left other;
  _ ← put_item right node;
  l ← get_item left;
  _ ← update_node l (set_heap_index left);
  r ← get_item right;
  update_node r (set_heap_index right).

Fixpoint vl_timer_heap_up (fuel : nat) (index : nat) : C timer_store unit :=
  match fuel with
  | O => ub
  | S fuel =>
      if (index =? 0)%nat then mret tt else
      let parent := ((index - 1) / 2)%nat in
      dp ← item_deadline parent;
      di ← item_deadline index;
      if dp <=? di then mret tt else
      _ ← vl_timer_heap_swap parent index;
      vl_timer_heap_up fuel parent
  end.

(** [i < length && items[i]->deadline_ns < items[smallest]->deadline_ns]. *)
Definition smaller_child (i smallest : nat) : C timer_store nat :=
  n ← gets heap_length;
  if decide (i < n)%nat then
    di ← item_deadline i;
    ds ← item_deadline smallest;
    mret (if di <? ds then i else smallest)
  else mret smallest.

Fixpoint vl_timer_heap_down (fuel : nat) (index : nat) : C timer_store unit :=
  match fuel with
  | O => ub
  | S fuel =>
      let left := (index * 2 + 1)%nat in
      let right := (left + 1)%nat in
      smallest ← smaller_child left index;
      smallest ← smaller_child right smallest;
      if (smallest =? index)%nat then mret tt else
      _ ← vl_timer_heap_swap index smallest;
      vl_timer_heap_down fuel smallest
  end.

Definition vl_timer_heap_init : C timer_store vl_status :=
  a ← gets (fun s => items_allocated (heap s));
  mret (if a : bool then VL_ERROR_INVALID_ARGUMENT else VL_OK).

Definition vl_timer_heap_destroy : C timer_store unit :=
  modify (fun s => mk_timer_store (nodes s) (mk_timer_heap [] false 0)).

(** The growth branch of push; [realloc_ok] is the outcome of [realloc]. *)
Definition vl_timer_heap_grow (realloc_ok : bool) : C timer_store vl_status :=
  s ← gets id;
  let cap := heap_capacity (heap s) in
  if Z.of_nat (heap_length s) =? cap then
    let capacity := if cap =? 0 then 16 else w64 (cap * 2) in
    if (capacity <? cap) || (SIZE_MAX / 8 <? capacity) then mret VL_ERROR_OUT_OF_MEMORY else
    if realloc_ok then
      _ ← modify (fun s => mk_timer_store (nodes s) (mk_timer_heap (heap_items s) true capacity));
      mret VL_OK
    else mret VL_ERROR_OUT_OF_MEMORY
  else mret VL_OK.

Definition vl_timer_heap_push (realloc_ok : bool) (node : option nat) : C timer_store vl_status :=
  match node with
  | None => mret VL_ERROR_INVALID_ARGUMENT
  | Some id =>
      n ← get_node id;
      if active n then mret VL_ERROR_INVALID_ARGUMENT else
      grown ← vl_timer_heap_grow realloc_ok;
      if decide (grown = VL_OK) then
        len ← gets heap_length;
        _ ← update_node id (set_active true);
        _ ← update_node id (set_heap_index len);
        _ ← modify (fun s => set_items (heap_items s ++ [id]) s);
        _ ← vl_timer_heap_up (S len) len;
        mret VL_OK
      else mret grown
  end.

Definition vl_timer_heap_peek : C timer_store (option nat) :=
  gets (fun s => heap_items s !! 0%nat).

Definition vl_timer_heap_pop : C timer_store (option nat) :=
  len ← gets heap_length;
  if (len =? 0)%nat then mret None else
  node ← get_item 0;
  _ ← update_node node (set_active false);
  let len := (len - 1)%nat in
  last ← get_item len;
  _ ← modify (fun s => set_items (take len (heap_items s)) s);
  if (len =? 0)%nat then mret (Some node) else
  _ ← put_item 0 last;
  _ ← update_node last (set_heap_index 0);
  _ ← vl_timer_heap_down (S len) 0;
  mret (Some node).

(** The tail of remove: the last item has taken the freed [index]; sift it
    towards the root or towards the leaves. *)
Definition vl_timer_heap_fix (index : nat) : C timer_store unit :=
  len ← gets heap_length;
  if (index =? 0)%nat then vl_timer_heap_down (S len) index else
  di ← item_deadline index;
  dp ← item_deadline ((index - 1) / 2);
  if di <? dp then vl_timer_heap_up (S index) index
  else vl_timer_heap_down (S len) index.

Definition vl_timer_heap_remove (node : option nat) : C timer_store unit :=
  match node with
  | None => mret tt
  | Some id =>
      n ← get_node id;
      len ← gets heap_length;
      if negb (active n) || (len <=? heap_index n)%nat then mret tt else
      let index := heap_index n in
      _ ← update_node id (set_active false);
      let len := (len - 1)%nat in
      last ← get_item len;
      _ ← modify (fun s => set_items (take len (heap_items s)) s);
      if (index =? len)%nat then mret tt else
      _ ← put_item index last;
      _ ← update_node last (set_heap_index index);
      vl_timer_heap_fix index
  end.

(** ** Heap order on index functions

    [f i] is the deadline at index [i] of a heap of [n] items. *)

Definition parent (j : nat) : nat := ((j - 1) / 2)%nat.

Definition heap_ord (f : nat -> Z) (n : nat) : Prop :=
  forall j, (0 < j < n)%nat -> f (parent j) <= f j.

(** Every edge is ordered but the one above [i], and [i]'s children are not
    below its parent: what sift-up maintains. *)
Definition up_ord (f : nat -> Z) (n i : nat) : Prop :=
  (forall j, (0 < j < n)%nat -> j <> i -> f (parent j) <= f j) /\
  (forall j, (0 < i)%nat -> (0 < j < n)%nat -> parent j = i -> f (parent i) <= f j).

(** Every edge is ordered but those below [i]: what sift-down maintains. *)
Definition down_ord (f : nat -> Z) (n i : nat) : Prop :=
  (forall j, (0 < j < n)%nat -> parent j <> i -> f (parent j) <= f j) /\
  (forall j, (0 < i)%nat -> (0 < j < n)%nat -> parent j = i -> f (parent i) <= f j).

Definition fswap (f : nat -> Z) (i j k : nat) : Z :=
  if decide (k = i) then f j else if decide (k = j) then f i else f k.

Lemma parent_lt j : (0 < j)%nat -> (parent j < j)%nat.
Proof. unfold parent. intros. apply Nat.Div0.div_lt_upper_bound. lia. Qed.

Lemma parent_children j i : (0 < j)%nat -> parent j = i -> j = (i * 2 + 1)%nat \/ j = (i * 2 + 2)%nat.
Proof.
  unfold parent. intros Hj <-. pose proof (Nat.div_mod_eq (j - 1) 2).
  pose proof (Nat.mod_upper_bound (j - 1) 2). lia.
Qed.

Lemma parent_left i : parent (i * 2 + 1) = i.
Proof. unfold parent. replace (i * 2 + 1 - 1)%nat with (i * 2)%nat by lia. by apply Nat.div_mul. Qed.

Lemma parent_right i : parent (i * 2 + 2) = i.
Proof.
  unfold parent. replace (i * 2 + 2 - 1)%nat with (1 + i * 2)%nat by lia.
  by rewrite Nat.div_add.
Qed.

(** Case split on the swapped indices of every [fswap] in the goal. *)
Ltac fswap_cases :=
  unfold fswap;
  repeat match goal with
         | |- context [decide (?a = ?b)] => destruct (decide (a = b)); subst
         end.

Lemma up_ord_done f n i :
  up_ord f n i -> (i = 0%nat \/ f (parent i) <= f i) -> heap_ord f n.
Proof.
  intros [H1 _] Hd j Hj. destruct (decide (j = i)) as [->|]; [|by apply H1].
  destruct Hd; [lia|done].
Qed.

Lemma up_ord_step f n i :
  up_ord f n i -> (0 < i < n)%nat -> f i < f (parent i) ->
  up_ord (fswap f (parent i) i) n (parent i).
Proof.
  intros [H1 H2] Hi Hlt. pose proof (parent_lt i ltac:(lia)) as Hpi. split.
  - intros j Hj Hne. pose proof (parent_lt j ltac:(lia)).
    destruct (decide (j = i)) as [->|Hji]; [fswap_cases; lia|].
    specialize (H1 j Hj Hji).
    destruct (decide (parent j = i)) as [E|E].
    { specialize (H2 j ltac:(lia) Hj E). rewrite E in *. fswap_cases; lia. }
    destruct (decide (parent j = parent i)) as [E'|E']; [rewrite E' in *|]; fswap_cases; lia.
  - intros j Hp Hj E. pose proof (parent_lt (parent i) Hp).
    pose proof (parent_lt j ltac:(lia)).
    assert (Hgp : f (parent (parent i)) <= f (parent i)) by (apply H1; lia).
    destruct (decide (j = i)) as [->|Hji]; [fswap_cases; lia|].
    specialize (H1 j Hj Hji). rewrite E in H1. fswap_cases; lia.
Qed.

Lemma down_ord_done f n i :
  down_ord f n i ->
  (forall j, (0 < j < n)%nat -> parent j = i -> f i <= f j) -> heap_ord f n.
Proof.
  intros [H1 _] H j Hj. destruct (decide (parent j = i)) as [<-|]; eauto.
Qed.

Lemma down_ord_step f n i s :
  down_ord f n i -> (0 < s < n)%nat -> parent s = i -> f s < f i ->
  (forall j, (0 < j < n)%nat -> parent j = i -> f s <= f j) ->
  down_ord (fswap f i s) n s.
Proof.
  intros [H1 H2] Hs Hps Hlt Hmin. pose proof (parent_lt s ltac:(lia)) as Hlt'.
  rewrite Hps in Hlt'. split.
  - intros j Hj Hne. pose proof (parent_lt j ltac:(lia)).
    destruct (decide (parent j = i)) as [E|E].
    { specialize (Hmin j Hj E). rewrite E in *. fswap_cases; lia. }
    specialize (H1 j Hj E).
    destruct (decide (j = i)) as [->|]; [|fswap_cases; lia].
    specialize (H2 s ltac:(lia) Hs Hps). fswap_cases; lia.
  - intros j _ Hj E. rewrite Hps. pose proof (parent_lt j ltac:(lia)).
    specialize (H1 j Hj). rewrite E in H1. specialize (H1 ltac:(lia)).
    fswap_cases; lia.
Qed.

(** ** The store invariant *)

(** Every item is an active node that knows its index. *)
Definition indexed (s : timer_store) : Prop :=
  forall i id, heap_items s !! i = Some id ->
    exists n, nodes s !! id = Some n /\ heap_index n = i /\ active n = true.

Definition deadline_of (s : timer_store) (id : nat) : Z :=
  default 0 (deadline_ns <$> nodes s !! id).
Definition deadline_at (s : timer_store) (i : nat) : Z :=
  default 0 (deadline_of s <$> heap_items s !! i).

Definition heap_wf (s : timer_store) : Prop :=
  indexed s /\ heap_ord (deadline_at s) (heap_length s) /\
  Z.of_nat (heap_length s) <= heap_capacity (heap s) <= SIZE_MAX / 8.

(** A node with its heap index forgotten: what sifting leaves alone. *)
Definition strip (n : vl_timer_node) : vl_timer_node := set_heap_index 0 n.

(** [s'] permutes the heap of [s] and changes nothing else: same deadlines,
    flags and owners, and the nodes outside the heap are untouched. *)
Record sifted (s s' : timer_store) : Prop := {
  sifted_items : heap_items s' ≡ₚ heap_items s;
  sifted_cap : heap_capacity (heap s') = heap_capacity (heap s);
  sifted_alloc : items_allocated (heap s') = items_allocated (heap s);
  sifted_strip : forall id, strip <$> nodes s' !! id = strip <$> nodes s !! id;
  sifted_frame : forall id, id ∉ heap_items s -> nodes s' !! id = nodes s !! id }.

#[export] Instance sifted_refl : Reflexive sifted.
Proof. intros s. by split. Qed.

#[export] Instance sifted_trans : Transitive sifted.
Proof.
  intros s1 s2 s3 [P1 C1 A1 S1 F1] [P2 C2 A2 S2 F2]. split.
  - by rewrite P2.
  - congruence.
  - congruence.
  - intros id. etrans; [apply S2|apply S1].
  - intros id Hid. rewrite F2; [by apply F1|]. by rewrite P1.
Qed.

Lemma sifted_length s s' : sifted s s' -> heap_length s' = heap_length s.
Proof. intros [P _ _ _ _]. unfold heap_length. by rewrite P. Qed.

Lemma sifted_deadline s s' id : sifted s s' -> deadline_of s' id = deadline_of s id.
Proof.
  intros H. pose proof (sifted_strip _ _ H id) as E. unfold deadline_of.
  apply (f_equal (fmap deadline_ns)) in E. rewrite <- !option_fmap_compose in E.
  by destruct (nodes s' !! id), (nodes s !! id); simplify_eq/=.
Qed.

Lemma indexed_NoDup s : indexed s -> NoDup (heap_items s).
Proof.
  intros H. apply NoDup_alt. intros i j id Hi Hj.
  destruct (H i id Hi) as (n & Hn & <- & _), (H j id Hj) as (n' & Hn' & <- & _).
  congruence.
Qed.

Lemma indexed_lookup s i : indexed s -> (i < heap_length s)%nat ->
  exists id n, heap_items s !! i = Some id /\ nodes s !! id = Some n /\
    heap_index n = i /\ active n = true /\ deadline_at s i = deadline_ns n.
Proof.
  intros H Hi. destruct (lookup_lt_is_Some_2 _ _ Hi) as [id Hid].
  destruct (H i id Hid) as (n & Hn & Hx & Ha). exists id, n.
  repeat split; try done. unfold deadline_at, deadline_of. by rewrite Hid; simpl; rewrite Hn.
Qed.

Lemma item_deadline_run s i : indexed s -> (i < heap_length s)%nat ->
  item_deadline i s = Some (deadline_at s i, s).
Proof.
  intros H Hi. destruct (indexed_lookup s i H Hi) as (id & n & Hid & Hn & _ & _ & ->).
  unfold item_deadline, get_item, get_node. crun. by rewrite Hid, Hn.
Qed.

(** The nodes after [swap]: each of the two items gets the other's index. *)
Lemma swap_run s i j a b na nb :
  (i <> j)%nat -> heap_items s !! i = Some a -> heap_items s !! j = Some b ->
  nodes s !! a = Some na -> nodes s !! b = Some nb -> a <> b ->
  vl_timer_heap_swap i j s = Some (tt, mk_timer_store
    (<[a := set_heap_index j na]> (<[b := set_heap_index i nb]> (nodes s)))
    (mk_timer_heap (<[j := a]> (<[i := b]> (heap_items s)))
       (items_allocated (heap s)) (heap_capacity (heap s)))).
Proof.
  intros Hij Ha Hb Hna Hnb Hab.
  pose proof (lookup_lt_Some _ _ _ Ha) as Hi. pose proof (lookup_lt_Some _ _ _ Hb) as Hj.
  unfold vl_timer_heap_swap, get_item, put_item, update_node, get_node. crun.
  rewrite Ha, Hb. cbv beta iota.
  rewrite decide_True by (unfold heap_length; lia). cbn.
  rewrite decide_True by (unfold heap_length, heap_items in *; simpl; rewrite length_insert; lia).
  cbn. rewrite list_lookup_insert_ne by done.
  rewrite list_lookup_insert_eq by done. cbn. rewrite Hnb. cbn.
  rewrite list_lookup_insert_eq by (rewrite length_insert; done). cbn.
  rewrite lookup_insert_ne by done. rewrite Hna. done.
Qed.

Lemma heap_items_mk ns l a c :
  heap_items (mk_timer_store ns (mk_timer_heap l a c)) = l.
Proof. done. Qed.

Lemma lookup_swap {A} (l : list A) i j a b k :
  l !! i = Some a -> l !! j = Some b ->
  <[j := a]> (<[i := b]> l) !! k =
    if decide (k = i) then Some b else if decide (k = j) then Some a else l !! k.
Proof.
  intros Ha Hb. pose proof (lookup_lt_Some _ _ _ Ha). pose proof (lookup_lt_Some _ _ _ Hb).
  destruct (decide (k = j)) as [->|].
  - rewrite list_lookup_insert_eq by (rewrite length_insert; done).
    case_decide; congruence.
  - rewrite list_lookup_insert_ne by done.
    case_decide; subst; [by rewrite list_lookup_insert_eq|by rewrite list_lookup_insert_ne].
Qed.

Lemma swap_permutation {A} (l : list A) i j a b :
  l !! i = Some a -> l !! j = Some b -> <[j := a]> (<[i := b]> l) ≡ₚ l.
Proof.
  intros Ha Hb. apply Permutation_inj. split; [by rewrite !length_insert|].
  exists (fun k => if decide (k = i) then j else if decide (k = j) then i else k). split.
  - intros x y. repeat case_decide; congruence.
  - intros k. rewrite (lookup_swap l i j a b) by done. by repeat case_decide; subst.
Qed.

Lemma swap_spec s i j : indexed s -> (i <> j)%nat ->
  (i < heap_length s)%nat -> (j < heap_length s)%nat ->
  exists s', vl_timer_heap_swap i j s = Some (tt, s') /\ indexed s' /\ sifted s s' /\
    forall k, deadline_at s' k = fswap (deadline_at s) i j k.
Proof.
  intros H Hij Hi Hj.
  destruct (indexed_lookup s i H Hi) as (a & na & Ha & Hna & Hia & Haa & Hda).
  destruct (indexed_lookup s j H Hj) as (b & nb & Hb & Hnb & Hjb & Hab & Hdb).
  assert (a <> b) by congruence.
  eexists. split; [by eapply swap_run|].
  assert (Hlk : forall id n', nodes s !! id = Some n' -> exists n,
    <[a := set_heap_index j na]> (<[b := set_heap_index i nb]> (nodes s)) !! id = Some n /\
    active n = active n' /\ deadline_ns n = deadline_ns n' /\ strip n = strip n' /\
    heap_index n = if decide (id = a) then j else if decide (id = b) then i else heap_index n').
  { intros id n' Hid. destruct (decide (id = a)) as [->|]; [|destruct (decide (id = b)) as [->|]];
      simplify_map_eq; eauto 10. }
  assert (Hsift : sifted s (mk_timer_store
    (<[a := set_heap_index j na]> (<[b := set_heap_index i nb]> (nodes s)))
    (mk_timer_heap (<[j := a]> (<[i := b]> (heap_items s)))
       (items_allocated (heap s)) (heap_capacity (heap s))))).
  { split; simpl; try done.
    - by apply swap_permutation.
    - intros id. destruct (decide (id = a)) as [->|]; [by simplify_map_eq|].
      destruct (decide (id = b)) as [->|]; by simplify_map_eq.
    - intros id Hid. rewrite !lookup_insert_ne; [done|..]; intros ->;
        apply Hid; eapply list_elem_of_lookup_2; eauto. }
  split; [|split; [done|]].
  - intros k id. rewrite heap_items_mk.
    rewrite (lookup_swap _ i j a b) by done. intros Hk.
    assert (exists n', nodes s !! id = Some n' /\ active n' = true /\
      (if decide (id = a) then j else if decide (id = b) then i else heap_index n') = k)
      as (n' & Hn' & Hact & Hix).
    { destruct (decide (k = i)) as [->|]; [|destruct (decide (k = j)) as [->|]]; simplify_eq.
      - exists nb. split; [done|]. rewrite decide_False by done. by rewrite decide_True.
      - exists na. by rewrite decide_True.
      - destruct (H k id Hk) as (n' & Hn' & <- & Hact). exists n'.
        rewrite !decide_False by congruence. done. }
    destruct (Hlk id n' Hn') as (n & Hn & ? & _ & _ & Hix'). exists n. split; [done|].
    split; congruence.
  - intros k. unfold deadline_at at 1. rewrite heap_items_mk.
    rewrite (lookup_swap _ i j a b) by done. unfold fswap.
    destruct (decide (k = i)) as [->|]; [|destruct (decide (k = j)) as [->|]]; simpl.
    + rewrite (sifted_deadline _ _ _ Hsift). unfold deadline_at. by rewrite Hb.
    + rewrite (sifted_deadline _ _ _ Hsift). unfold deadline_at. by rewrite Ha.
    + unfold deadline_at. destruct (heap_items s !! k) as [id|]; [|done]. simpl.
      by rewrite (sifted_deadline _ _ _ Hsift).
Qed.

Lemma heap_ord_ext f g n : (forall k, f k = g k) -> heap_ord f n -> heap_ord g n.
Proof. intros E H j Hj. rewrite <- !E. by apply H. Qed.

Lemma up_ord_ext f g n i : (forall k, f k = g k) -> up_ord f n i -> up_ord g n i.
Proof. intros E [H1 H2]. split; intros; rewrite <- !E; eauto. Qed.

Lemma down_ord_ext f g n i : (forall k, f k = g k) -> down_ord f n i -> down_ord g n i.
Proof. intros E [H1 H2]. split; intros; rewrite <- !E; eauto. Qed.

(** Sifting up from [index] terminates and restores the heap order. *)
Lemma up_spec fuel s index : indexed s ->
  (index < fuel)%nat -> (index < heap_length s)%nat ->
  up_ord (deadline_at s) (heap_length s) index ->
  exists s', vl_timer_heap_up fuel index s = Some (tt, s') /\ indexed s' /\ sifted s s' /\
    heap_ord (deadline_at s') (heap_length s').
Proof.
  revert s index. induction fuel as [|fuel IH]; intros s index H Hf Hi Ho; [lia|].
  cbn [vl_timer_heap_up]. destruct (Nat.eqb_spec index 0) as [->|Hne].
  { exists s. repeat (split; [done|]). apply (up_ord_done _ _ 0%nat); auto. }
  fold (parent index). pose proof (parent_lt index ltac:(lia)) as Hp.
  rewrite (bind_Some _ _ _ _ _ (item_deadline_run s (parent index) H ltac:(lia))).
  rewrite (bind_Some _ _ _ _ _ (item_deadline_run s index H Hi)).
  destruct (Z.leb_spec (deadline_at s (parent index)) (deadline_at s index)) as [Hle|Hgt].
  { exists s. repeat (split; [done|]). apply (up_ord_done _ _ index); auto. }
  destruct (swap_spec s (parent index) index H) as (s1 & Hrun & H1 & Hs1 & Hd1); [lia..|].
  rewrite (bind_Some _ _ _ _ _ Hrun).
  pose proof (sifted_length _ _ Hs1) as Hl.
  destruct (IH s1 (parent index)) as (s2 & Hr2 & H2 & Hs2 & Hh2); [done|lia|lia| |].
  { rewrite Hl. eapply up_ord_ext; [symmetry; apply Hd1|].
    apply up_ord_step; [done|lia|done]. }
  exists s2. split; [done|]. split; [done|]. split; [by etrans|done].
Qed.

Lemma smaller_child_run s i sm : indexed s -> (sm < heap_length s)%nat ->
  exists r, smaller_child i sm s = Some (r, s) /\ (r < heap_length s)%nat /\
    (r = sm \/ r = i) /\
    deadline_at s r <= deadline_at s sm /\
    ((i < heap_length s)%nat -> deadline_at s r <= deadline_at s i) /\
    (r <> sm -> deadline_at s r < deadline_at s sm).
Proof.
  intros H Hsm. unfold smaller_child.
  rewrite (bind_Some _ _ s (heap_length s) s) by done.
  destruct (decide (i < heap_length s)%nat) as [Hi|Hi].
  - rewrite (bind_Some _ _ _ _ _ (item_deadline_run s i H Hi)).
    rewrite (bind_Some _ _ _ _ _ (item_deadline_run s sm H Hsm)).
    destruct (Z.ltb_spec (deadline_at s i) (deadline_at s sm)); eexists; split; try done;
      repeat split; auto with lia.
  - exists sm. repeat split; auto with lia.
Qed.

(** Sifting down from [index] terminates and restores the heap order. *)
Lemma down_spec fuel s index : indexed s ->
  (heap_length s - index < fuel)%nat -> (index < heap_length s)%nat ->
  down_ord (deadline_at s) (heap_length s) index ->
  exists s', vl_timer_heap_down fuel index s = Some (tt, s') /\ indexed s' /\ sifted s s' /\
    heap_ord (deadline_at s') (heap_length s').
Proof.
  revert s index. induction fuel as [|fuel IH]; intros s index H Hf Hi Ho; [lia|].
  cbn [vl_timer_heap_down].
  destruct (smaller_child_run s (index * 2 + 1) index H Hi)
    as (l & Hl & Hll & Hlor & Hl1 & Hl2 & Hl3).
  rewrite (bind_Some _ _ _ _ _ Hl).
  destruct (smaller_child_run s (index * 2 + 1 + 1) l H Hll)
    as (r & Hr & Hrl & Hror & Hr1 & Hr2 & Hr3).
  rewrite (bind_Some _ _ _ _ _ Hr).
  assert (Hmin : forall j, (0 < j < heap_length s)%nat -> parent j = index ->
    deadline_at s r <= deadline_at s j).
  { intros j Hj E. destruct (parent_children j index) as [->|Ej]; [lia|done|lia|].
    replace (index * 2 + 1 + 1)%nat with j in * by lia. lia. }
  destruct (Nat.eqb_spec r index) as [->|Hne].
  { exists s. repeat (split; [done|]). by apply (down_ord_done _ _ index). }
  assert (Hpar : parent r = index /\ deadline_at s r < deadline_at s index).
  { destruct Hror as [->| ->].
    - destruct Hlor as [->| ->]; [done|]. rewrite parent_left. auto.
    - replace (index * 2 + 1 + 1)%nat with (index * 2 + 2)%nat in * by lia.
      rewrite parent_right. split; [done|].
      destruct Hlor as [->| ->]; [apply Hr3; lia|]. specialize (Hr3 ltac:(lia)). lia. }
  destruct Hpar as [Hpar Hlt].
  destruct (swap_spec s index r H) as (s1 & Hrun & H1 & Hs1 & Hd1); [lia..|].
  rewrite (bind_Some _ _ _ _ _ Hrun).
  pose proof (sifted_length _ _ Hs1) as Hlen.
  assert (index < r)%nat by (destruct (parent_children r index); lia || (destruct r; [|done]; unfold parent in Hpar; simpl in Hpar; lia)).
  destruct (IH s1 r) as (s2 & Hr2' & H2 & Hs2 & Hh2); [done|lia|lia| |].
  { rewrite Hlen. eapply down_ord_ext; [symmetry; apply Hd1|].
    apply down_ord_step; auto with lia. }
  exists s2. split; [done|]. split; [done|]. split; [by etrans|done].
Qed.

(** ** Replacing an item by the last one *)

Lemma insert_permutation {A} (l : list A) i x y :
  l !! i = Some x -> x :: <[i := y]> l ≡ₚ y :: l.
Proof.
  intros Hx. pose proof (lookup_lt_Some _ _ _ Hx).
  rewrite insert_take_drop by done. rewrite <- (take_drop_middle l i x Hx) at 3.
  rewrite <- !Permutation_middle. apply perm_swap.
Qed.

Lemma take_last_permutation {A} (l : list A) n x :
  length l = S n -> l !! n = Some x -> l = take n l ++ [x].
Proof.
  intros Hl Hx. rewrite <- (take_drop_middle l n x Hx) at 1.
  f_equal. f_equal. apply drop_ge. lia.
Qed.

(** The store in which [id], at [index], has been deactivated and the last
    item has taken its place. *)
Definition replaced (s : timer_store) (index len id last : nat)
    (n nl : vl_timer_node) : timer_store :=
  mk_timer_store
    (<[last := set_heap_index index nl]> (<[id := set_active false n]> (nodes s)))
    (mk_timer_heap (<[index := last]> (take len (heap_items s)))
       (items_allocated (heap s)) (heap_capacity (heap s))).

Section Replaced.
  #[local] Set Default Proof Using "Type*".
  Context (s : timer_store) (index len id last : nat) (n nl : vl_timer_node).
  Context (Hix : indexed s) (Hlen : heap_length s = S len) (Hlt : (index < len)%nat).
  Context (Hid : heap_items s !! index = Some id) (Hlast : heap_items s !! len = Some last).
  Context (Hn : nodes s !! id = Some n) (Hnl : nodes s !! last = Some nl).

Lemma replaced_ne : id <> last.
Proof.
    intros ->. pose proof (indexed_NoDup s Hix) as Hnd.
    rewrite NoDup_alt in Hnd. specialize (Hnd _ _ _ Hid Hlast). lia.
Qed.

Lemma replaced_length : heap_length (replaced s index len id last n nl) = len.
Proof.
    unfold heap_length, replaced. rewrite heap_items_mk, length_insert, length_take.
    unfold heap_length in Hlen. lia.
Qed.

Lemma replaced_lookup k : (k < len)%nat ->
    heap_items (replaced s index len id last n nl) !! k =
      if decide (k = index) then Some last else heap_items s !! k.
Proof.
    intros Hk. unfold replaced. rewrite heap_items_mk. unfold heap_length in Hlen.
    case_decide as E; [subst k|].
    - apply list_lookup_insert_eq. rewrite length_take. lia.
    - rewrite list_lookup_insert_ne by done. by rewrite lookup_take_lt.
Qed.

Lemma replaced_deadline_of j :
    deadline_of (replaced s index len id last n nl) j = deadline_of s j.
Proof.
    unfold deadline_of, replaced. simpl. pose proof replaced_ne.
    destruct (decide (j = last)) as [->|]; [by simplify_map_eq|].
    destruct (decide (j = id)) as [->|]; by simplify_map_eq.
Qed.

Lemma replaced_deadline k : (k < len)%nat ->
    deadline_at (replaced s index len id last n nl) k =
      if decide (k = index) then deadline_at s len else deadline_at s k.
Proof.
    intros Hk. unfold deadline_at at 1. rewrite replaced_lookup by done.
    case_decide as E.
    - simpl. rewrite replaced_deadline_of. unfold deadline_at. by rewrite Hlast.
    - unfold deadline_at. destruct (heap_items s !! k); [|done]. simpl.
      by rewrite replaced_deadline_of.
Qed.

Lemma replaced_indexed : indexed (replaced s index len id last n nl).
Proof.
    intros k j Hk. assert (Hkl : (k < len)%nat).
    { apply lookup_lt_Some in Hk. fold (heap_length (replaced s index len id last n nl)) in Hk.
      by rewrite replaced_length in Hk. }
    rewrite replaced_lookup in Hk by done. pose proof replaced_ne. simpl.
    destruct (Hix len last Hlast) as (nl' & Hnl' & _ & Hal).
    assert (nl' = nl) as -> by congruence.
    destruct (decide (k = index)) as [->|Hne].
    - injection Hk as <-. exists (set_heap_index index nl). by rewrite lookup_insert_eq.
    - destruct (Hix k j Hk) as (nj & Hnj & Hkj & Haj). exists nj.
      pose proof (indexed_NoDup s Hix) as Hnd. rewrite NoDup_alt in Hnd.
      rewrite !lookup_insert_ne; [done|..].
      + intros ->. apply Hne. by apply (Hnd _ _ j).
      + intros ->. specialize (Hnd _ _ _ Hk Hlast). lia.
Qed.

Lemma replaced_items :
    heap_items s ≡ₚ id :: heap_items (replaced s index len id last n nl).
Proof.
    unfold replaced. rewrite heap_items_mk.
    rewrite insert_permutation by (rewrite lookup_take_lt; done).
    rewrite (take_last_permutation (heap_items s) len last) at 1 by done.
    by rewrite Permutation_app_comm.
Qed.

Lemma replaced_up : heap_ord (deadline_at s) (heap_length s) ->
    deadline_at s len <= deadline_at s (parent index) ->
    up_ord (deadline_at (replaced s index len id last n nl)) len index.
Proof.
    intros Ho Hle. split.
    - intros j Hj Hne. pose proof (parent_lt j ltac:(lia)).
      pose proof (Ho j ltac:(lia)). rewrite !replaced_deadline by lia.
      rewrite (decide_False _ _ Hne). case_decide as E; [|done]. subst index.
      pose proof (parent_lt (parent j)).
      destruct (decide (parent j = 0%nat)) as [E0|E0].
      + rewrite E0 in *. change (parent 0) with 0%nat in Hle. lia.
      + pose proof (Ho (parent j) ltac:(lia)). lia.
    - intros j Hi Hj E. pose proof (parent_lt index Hi). pose proof (parent_lt j ltac:(lia)).
      rewrite !replaced_deadline by lia. rewrite !decide_False by lia.
      pose proof (Ho index ltac:(lia)). pose proof (Ho j ltac:(lia)). rewrite E in *. lia.
Qed.

Lemma replaced_down : heap_ord (deadline_at s) (heap_length s) ->
    (index = 0%nat \/ deadline_at s (parent index) <= deadline_at s len) ->
    down_ord (deadline_at (replaced s index len id last n nl)) len index.
Proof.
    intros Ho Hle. split.
    - intros j Hj Hne. pose proof (parent_lt j ltac:(lia)).
      specialize (Ho j ltac:(lia)). rewrite !replaced_deadline by lia.
      rewrite (decide_False _ _ Hne). case_decide; [subst|done]. destruct Hle; [lia|done].
    - intros j Hi Hj E. pose proof (parent_lt index Hi). pose proof (parent_lt j ltac:(lia)).
      rewrite !replaced_deadline by lia. rewrite !decide_False by lia.
      pose proof (Ho index ltac:(lia)). pose proof (Ho j ltac:(lia)). rewrite E in *. lia.
Qed.
End Replaced.

(** ** The operations *)

Lemma heap_ord_root f n i : heap_ord f n -> (i < n)%nat -> f 0%nat <= f i.
Proof.
  intros Ho. induction (lt_wf i) as [i _ IH]. intros Hi.
  destruct (decide (i = 0%nat)) as [->|Hne]; [done|].
  pose proof (parent_lt i ltac:(lia)). pose proof (Ho i ltac:(lia)).
  pose proof (IH (parent i) ltac:(lia) ltac:(lia)). lia.
Qed.

Lemma heap_root_min s id id' : indexed s -> heap_ord (deadline_at s) (heap_length s) ->
  heap_items s !! 0%nat = Some id -> id' ∈ heap_items s ->
  deadline_of s id <= deadline_of s id'.
Proof.
  intros Hix Ho H0 [k Hk]%list_elem_of_lookup.
  pose proof (heap_ord_root _ _ k Ho (lookup_lt_Some _ _ _ Hk)) as Hle.
  unfold deadline_at in Hle. by rewrite H0, Hk in Hle.
Qed.

Lemma sifted_wf s s' : sifted s s' -> indexed s' ->
  heap_ord (deadline_at s') (heap_length s') ->
  Z.of_nat (heap_length s) <= heap_capacity (heap s) <= SIZE_MAX / 8 -> heap_wf s'.
Proof.
  intros Hs Hi Ho Hc. split; [done|]. split; [done|].
  by rewrite (sifted_length _ _ Hs), (sifted_cap _ _ Hs).
Qed.

(** The frame of an operation on [id]: every other node keeps its deadline,
    its flag and its owner, and [id] only changes its flag. *)
Definition nodes_but (id : nat) (flag : bool) (s s' : timer_store) : Prop :=
  (forall j, j <> id -> strip <$> nodes s' !! j = strip <$> nodes s !! j) /\
  (strip <$> nodes s' !! id = strip ∘ set_active flag <$> nodes s !! id).

Lemma nodes_but_deadline id flag s s' j : nodes_but id flag s s' ->
  deadline_of s' j = deadline_of s j.
Proof.
  intros [H1 H2]. unfold deadline_of.
  destruct (decide (j = id)) as [->|Hne]; [|specialize (H1 j Hne)];
    destruct (nodes s' !! _), (nodes s !! _); simplify_eq/=; congruence.
Qed.

(** Removing the item at [index]: shared by pop and remove. *)
Lemma remove_at_spec s id index len n :
  heap_wf s -> heap_length s = S len -> heap_items s !! index = Some id ->
  nodes s !! id = Some n -> (index < len)%nat ->
  exists last nl, heap_items s !! len = Some last /\ nodes s !! last = Some nl /\
  last <> id /\
  let s1 := replaced s index len id last n nl in
  forall s2, sifted s1 s2 -> indexed s2 -> heap_ord (deadline_at s2) (heap_length s2) ->
    heap_wf s2 /\ heap_items s ≡ₚ id :: heap_items s2 /\ nodes_but id false s s2.
Proof.
  intros (Hix & Ho & Hcap) Hlen Hid Hn Hlt.
  destruct (indexed_lookup s len Hix ltac:(lia)) as (last & nl & Hlast & Hnl & _).
  assert (Hne : id <> last) by (eapply replaced_ne; eauto).
  exists last, nl. repeat (split; [done|]). intros s1 s2 Hs Hi Ho2. split; [|split].
  - apply (sifted_wf s1); try done. subst s1. rewrite (replaced_length s) by done. simpl. lia.
  - rewrite (sifted_items _ _ Hs). by apply replaced_items.
  - assert (Hst : forall j, strip <$> nodes s2 !! j = strip <$> nodes s1 !! j)
      by apply (sifted_strip _ _ Hs).
    split.
    + intros j Hj. rewrite Hst. subst s1. simpl.
      destruct (decide (j = last)) as [->|]; by simplify_map_eq.
    + rewrite Hst. subst s1. simpl. by simplify_map_eq.
Qed.

Lemma last_inactive_run s id len n : heap_wf s -> heap_length s = S len ->
  heap_items s !! len = Some id -> nodes s !! id = Some n ->
  let s' := set_items (take len (heap_items s)) (set_node id (set_active false n) s) in
  heap_wf s' /\ heap_items s ≡ₚ id :: heap_items s' /\ nodes_but id false s s'.
Proof.
  intros (Hix & Ho & Hcap) Hlen Hid Hn s'.
  assert (Hlk : forall k j, heap_items s' !! k = Some j ->
    (k < len)%nat /\ heap_items s !! k = Some j /\ j <> id).
  { intros k j. subst s'. unfold set_items. rewrite heap_items_mk. intros Hk.
    apply lookup_take_Some in Hk as [Hk Hlt]. repeat split; [done..|]. intros ->.
    pose proof (indexed_NoDup s Hix) as Hnd. rewrite NoDup_alt in Hnd.
    specialize (Hnd _ _ _ Hk Hid). lia. }
  assert (Hl' : heap_length s' = len).
  { unfold heap_length in *. subst s'. unfold set_items.
    rewrite heap_items_mk, length_take. lia. }
  assert (Hb : nodes_but id false s s').
  { split; [intros j Hj|]; simpl; by simplify_map_eq. }
  split; [split; [|split]|split; [|done]].
  - intros k j Hk. destruct (Hlk k j Hk) as (_ & Hk' & Hne).
    simpl. rewrite lookup_insert_ne by done. by apply Hix.
  - rewrite Hl'. assert (Hd : forall k, (k < len)%nat -> deadline_at s' k = deadline_at s k).
    { intros k Hk. unfold deadline_at. destruct (heap_items s' !! k) as [j|] eqn:Ek.
      - destruct (Hlk _ _ Ek) as (_ & -> & _). simpl. by rewrite (nodes_but_deadline id false s).
      - apply lookup_ge_None in Ek. unfold heap_length in Hl'. lia. }
    intros j Hj. pose proof (parent_lt j ltac:(lia)). rewrite !Hd by lia. apply Ho. lia.
  - rewrite Hl'. simpl. lia.
  - subst s'. unfold set_items. rewrite heap_items_mk.
    rewrite (take_last_permutation (heap_items s) len id) at 1 by done.
    by rewrite Permutation_app_comm.
Qed.

(** C22: popping from a well-formed timer heap never reads outside the array or
    through a dangling node, terminates, returns NULL exactly when the heap is
    empty, and otherwise returns an item whose deadline is minimal; exactly that
    item leaves the heap, it is marked inactive, no other node's deadline, flag
    or owner changes, and the heap is again well formed. *)
Theorem timer_heap_pop_min s (Hwf : heap_wf s) :
  (heap_items s = [] /\ vl_timer_heap_pop s = Some (None, s)) \/
  exists id s', vl_timer_heap_pop s = Some (Some id, s') /\ heap_wf s' /\
    heap_items s ≡ₚ id :: heap_items s' /\ nodes_but id false s s' /\
    (forall j, j ∈ heap_items s -> deadline_of s id <= deadline_of s j).
Proof.
  pose proof Hwf as (Hix & Ho & Hcap).
  destruct (heap_length s) as [|len] eqn:Hlen.
  { left. split; [by apply nil_length_inv|]. unfold vl_timer_heap_pop. crun. by rewrite Hlen. }
  right. destruct (indexed_lookup s 0 Hix ltac:(lia)) as (id & n & Hid & Hn & _).
  assert (Hmin : forall j, j ∈ heap_items s -> deadline_of s id <= deadline_of s j).
  { intros j Hj. apply (heap_root_min s); [done|by rewrite Hlen|done..]. }
  exists id. unfold vl_timer_heap_pop, update_node, get_item, get_node.
  destruct len as [|len].
  - destruct (last_inactive_run s id 0 n Hwf Hlen Hid Hn) as (H1 & H2 & H3).
    eexists. crun. rewrite Hlen. cbn. rewrite Hid, Hn. cbn.
    unfold heap_items in Hid |- *. simpl. rewrite Hid. by split.
  - destruct (remove_at_spec s id 0 (S len) n Hwf Hlen Hid Hn ltac:(lia))
      as (last & nl & Hlast & Hnl & Hne & Hall).
    rewrite <- Hlen in Ho.
    destruct (down_spec (S (S len)) (replaced s 0 (S len) id last n nl) 0)
      as (s2 & Hrun & Hi2 & Hs2 & Ho2).
    + eapply replaced_indexed; eauto with lia.
    + rewrite (replaced_length s) by eauto with lia. lia.
    + rewrite (replaced_length s) by eauto with lia. lia.
    + rewrite (replaced_length s) by eauto with lia. eapply replaced_down; eauto with lia.
    + destruct (Hall s2 Hs2 Hi2 Ho2) as (Hwf2 & Hp2 & Hb2).
      exists s2. split; [|done].
      crun. rewrite Hlen. cbn -[vl_timer_heap_down take]. rewrite Hid, Hn. cbv beta iota.
      change (heap_items (set_node id (set_active false n) s)) with (heap_items s).
      replace (S len - 0)%nat with (S len) by lia. rewrite Hlast. cbv beta iota.
      unfold put_item. rewrite decide_True.
      2: { unfold heap_length, set_items. rewrite heap_items_mk, length_take.
           unfold heap_length in Hlen.
           change (heap_items (set_node id (set_active false n) s)) with (heap_items s). lia. }
      cbn -[vl_timer_heap_down take]. rewrite lookup_insert_ne by done. rewrite Hnl.
      cbv beta iota.
      match goal with |- context [vl_timer_heap_down _ _ ?st] =>
        change st with (replaced s 0 (S len) id last n nl) end.
      by rewrite Hrun.
Qed.

(** Deciding between sift-up and sift-down after a replacement. *)
Lemma fix_spec s index len id last n nl :
  heap_wf s -> heap_length s = S len -> (index < len)%nat ->
  heap_items s !! index = Some id -> heap_items s !! len = Some last ->
  nodes s !! id = Some n -> nodes s !! last = Some nl ->
  exists s2, vl_timer_heap_fix index (replaced s index len id last n nl) = Some (tt, s2) /\
    indexed s2 /\ sifted (replaced s index len id last n nl) s2 /\
    heap_ord (deadline_at s2) (heap_length s2).
Proof.
  intros (Hix & Ho & Hcap) Hlen Hlt Hid Hlast Hn Hnl.
  set (s1 := replaced s index len id last n nl).
  assert (Hi1 : indexed s1) by (eapply replaced_indexed; eauto).
  assert (Hl1 : heap_length s1 = len) by (eapply replaced_length; eauto).
  unfold vl_timer_heap_fix. rewrite (bind_Some _ _ s1 len s1).
  2: { unfold gets. by rewrite Hl1. }
  destruct (Nat.eqb_spec index 0) as [E|E].
  { apply down_spec; rewrite ?Hl1; [done|lia|lia|]. eapply replaced_down; eauto. }
  fold (parent index). pose proof (parent_lt index ltac:(lia)).
  rewrite (bind_Some _ _ _ _ _ (item_deadline_run s1 index Hi1 ltac:(lia))).
  rewrite (bind_Some _ _ _ _ _ (item_deadline_run s1 (parent index) Hi1 ltac:(lia))).
  subst s1. rewrite !(replaced_deadline s index len id last n nl) by (eauto with lia).
  rewrite decide_True, decide_False by (done || lia).
  destruct (Z.ltb_spec (deadline_at s len) (deadline_at s (parent index))).
  - apply up_spec; rewrite ?Hl1; [done|lia|lia|]. eapply replaced_up; eauto with lia.
  - apply down_spec; rewrite ?Hl1; [done|lia|lia|]. eapply replaced_down; eauto with lia.
Qed.

(** C23: removing an item from anywhere in a well-formed heap (timer
    cancellation) removes exactly that node, marks it inactive, leaves every
    other node's deadline, flag and owner alone and re-establishes the heap;
    an inactive node or a NULL node is left alone. *)
Theorem timer_heap_remove_any s id n (Hwf : heap_wf s) (Hn : nodes s !! id = Some n) :
  vl_timer_heap_remove None s = Some (tt, s) /\
  (active n = false -> vl_timer_heap_remove (Some id) s = Some (tt, s)) /\
  (id ∈ heap_items s -> exists s', vl_timer_heap_remove (Some id) s = Some (tt, s') /\
     heap_wf s' /\ heap_items s ≡ₚ id :: heap_items s' /\ nodes_but id false s s').
Proof.
  split; [done|]. split.
  { intros Ha. unfold vl_timer_heap_remove, get_node. crun. by rewrite Hn, Ha. }
  intros [index Hid]%list_elem_of_lookup. pose proof Hwf as (Hix & Ho & Hcap).
  destruct (Hix index id Hid) as (n' & Hn' & Hxi & Ha). assert (n' = n) as -> by congruence.
  pose proof (lookup_lt_Some _ _ _ Hid) as Hlt. fold (heap_length s) in Hlt.
  destruct (heap_length s) as [|len] eqn:Hlen; [lia|].
  assert (Hlk : heap_items (set_node id (set_active false n) s) = heap_items s) by done.
  unfold vl_timer_heap_remove, update_node, get_item, get_node.
  destruct (decide (index = len)) as [->|Hne].
  - destruct (last_inactive_run s id len n Hwf Hlen Hid Hn) as (H1 & H2 & H3).
    eexists. split; [|split; [exact H1|split; [exact H2|exact H3]]].
    crun. rewrite Hn, Ha, Hlen, Hxi. destruct (Nat.leb_spec (S len) len); [lia|]. cbn -[take].
    replace (len - 0)%nat with len by lia. rewrite Hn. cbv beta iota. rewrite Hlk, Hid.
    by rewrite Nat.eqb_refl.
  - destruct (remove_at_spec s id index len n Hwf Hlen Hid Hn ltac:(lia))
      as (last & nl & Hlast & Hnl & Hnl' & Hall).
    destruct (fix_spec s index len id last n nl) as (s2 & Hrun & Hi2 & Hs2 & Ho2); [done|done|lia|done..|].
    destruct (Hall s2 Hs2 Hi2 Ho2) as (Hwf2 & Hp2 & Hb2). exists s2. split; [|done].
    crun. rewrite Hn, Ha, Hlen, Hxi. destruct (Nat.leb_spec (S len) index); [lia|]. cbn -[take].
    replace (len - 0)%nat with len by lia. rewrite Hn. cbv beta iota. rewrite Hlk, Hlast.
    cbv beta iota. destruct (Nat.eqb_spec index len); [lia|].
    unfold put_item. rewrite decide_True.
    2: { unfold heap_length, set_items. rewrite heap_items_mk, length_take, Hlk.
         unfold heap_length in Hlen. lia. }
    cbn -[vl_timer_heap_fix take]. rewrite lookup_insert_ne by done. rewrite Hnl. cbv beta iota.
    match goal with |- context [vl_timer_heap_fix _ ?st] =>
      change st with (replaced s index len id last n nl) end.
    by rewrite Hrun.
Qed.

(** The store after [push] has appended the node and before it sifts. *)
Definition appended (s : timer_store) (alloc : bool) (cap : Z) (id : nat) (n : vl_timer_node) :=
  mk_timer_store (<[id := set_heap_index (heap_length s) (set_active true n)]> (nodes s))
    (mk_timer_heap (heap_items s ++ [id]) alloc cap).

Lemma appended_spec s alloc cap id n : indexed s ->
  heap_ord (deadline_at s) (heap_length s) ->
  nodes s !! id = Some n -> active n = false ->
  let s1 := appended s alloc cap id n in
  indexed s1 /\ heap_length s1 = S (heap_length s) /\ nodes_but id true s s1 /\
  up_ord (deadline_at s1) (heap_length s1) (heap_length s).
Proof.
  intros Hix Ho Hn Ha s1.
  assert (Hni : id ∉ heap_items s).
  { intros [k Hk]%list_elem_of_lookup. destruct (Hix k id Hk) as (? & ? & _ & ?). congruence. }
  assert (Hlen : heap_length s1 = S (heap_length s)).
  { subst s1. unfold heap_length, appended. rewrite heap_items_mk, length_app. simpl. lia. }
  assert (Hb : nodes_but id true s s1).
  { split; [intros j Hj|]; subst s1; simpl; by simplify_map_eq. }
  assert (Hd : forall k, (k < heap_length s)%nat -> deadline_at s1 k = deadline_at s k).
  { intros k Hk. unfold deadline_at. subst s1. unfold appended at 2. rewrite heap_items_mk.
    rewrite lookup_app_l by done. destruct (heap_items s !! k); [|done]. simpl.
    by rewrite (nodes_but_deadline id true s). }
  split; [|split; [done|split; [done|split]]].
  - intros k j Hk. subst s1. unfold appended in Hk. rewrite heap_items_mk in Hk. simpl.
    apply lookup_app_Some in Hk as [Hk|[Hge Hk]].
    + rewrite lookup_insert_ne; [by apply Hix|]. intros <-. apply Hni.
      by eapply list_elem_of_lookup_2.
    + apply list_lookup_singleton_Some in Hk as [? <-]. rewrite lookup_insert_eq.
      eexists. split; [done|]. simpl. unfold heap_length. split; [lia|done].
  - intros j Hj Hne. pose proof (parent_lt j ltac:(lia)). rewrite !Hd by lia. apply Ho. lia.
  - intros j Hi Hj E. pose proof (parent_lt j ltac:(lia)). lia.
Qed.

Lemma grow_run s ok : heap_wf s ->
  exists st s1, vl_timer_heap_grow ok s = Some (st, s1) /\
    nodes s1 = nodes s /\ heap_items s1 = heap_items s /\
    ((st = VL_OK /\ Z.of_nat (heap_length s) < heap_capacity (heap s1) <= SIZE_MAX / 8) \/
     (st = VL_ERROR_OUT_OF_MEMORY /\ s1 = s /\ Z.of_nat (heap_length s) = heap_capacity (heap s) /\
      (ok = false \/ SIZE_MAX / 8 < 2 * heap_capacity (heap s)))).
Proof.
  intros (_ & _ & Hcap). change (SIZE_MAX / 8) with 2305843009213693951 in *.
  unfold vl_timer_heap_grow. crun. change (id s) with s. change (SIZE_MAX / 8) with 2305843009213693951.
  destruct (Z.eqb_spec (Z.of_nat (heap_length s)) (heap_capacity (heap s))) as [E|E].
  2: { exists VL_OK, s. repeat (split; [done|]). left. split; [done|]. lia. }
  assert (Hw : w64 (heap_capacity (heap s) * 2) = heap_capacity (heap s) * 2) by (apply w64_small; word_lia).
  rewrite Hw. destruct (Z.eqb_spec (heap_capacity (heap s)) 0) as [Hz|Hz].
  - destruct (Z.ltb_spec 16 (heap_capacity (heap s))); [lia|]. simpl.
    destruct ok; eexists _, _; (split; [done|]); (repeat (split; [done|])); [left|right];
      simpl; repeat split; auto; lia.
  - destruct (Z.ltb_spec (heap_capacity (heap s) * 2) (heap_capacity (heap s))); [lia|].
    destruct (Z.ltb_spec 2305843009213693951 (heap_capacity (heap s) * 2)); simpl.
    { exists VL_ERROR_OUT_OF_MEMORY, s. repeat (split; [done|]). right.
      repeat (split; [done|]). right. lia. }
    destruct ok; eexists _, _; (split; [done|]); (repeat (split; [done|])); [left|right];
      simpl; repeat split; auto; lia.
Qed.

(** Pushing an inactive timer node onto a well-formed heap terminates
    without touching memory outside the array; it either adds exactly that node,
    marks it active and keeps the heap well formed, or it reports
    VL_ERROR_OUT_OF_MEMORY with nothing changed, and the latter only when the
    array is full and either [realloc] failed or the doubled array would exceed
    the address space; the capacity arithmetic never wraps.  NULL and nodes that
    are already active are rejected with nothing changed. *)
Theorem timer_heap_push_correct s ok id n
    (Hwf : heap_wf s) (Hn : nodes s !! id = Some n) :
  vl_timer_heap_push ok None s = Some (VL_ERROR_INVALID_ARGUMENT, s) /\
  (active n = true -> vl_timer_heap_push ok (Some id) s = Some (VL_ERROR_INVALID_ARGUMENT, s)) /\
  (active n = false -> exists st s', vl_timer_heap_push ok (Some id) s = Some (st, s') /\
    ((st = VL_OK /\ heap_wf s' /\ heap_items s' ≡ₚ id :: heap_items s /\ nodes_but id true s s') \/
     (st = VL_ERROR_OUT_OF_MEMORY /\ s' = s /\
      Z.of_nat (heap_length s) = heap_capacity (heap s) /\
      (ok = false \/ SIZE_MAX / 8 < 2 * heap_capacity (heap s))))).
Proof.
  unfold vl_timer_heap_push, get_node. split; [done|]. split.
  { intros Ha. crun. by rewrite Hn, Ha. }
  intros Ha. destruct (grow_run s ok Hwf) as (st & s1 & Hg & Hns & His & Hcase).
  destruct Hwf as (Hix & Ho & Hcap).
  rewrite (bind_Some _ _ s n s) by (unfold deref; by rewrite Hn). rewrite Ha.
  rewrite (bind_Some _ _ _ _ _ Hg).
  destruct Hcase as [(-> & Hc)|(-> & -> & HC)].
  2: { exists VL_ERROR_OUT_OF_MEMORY, s. split; [done|]. by right. }
  assert (Hlen : heap_length s1 = heap_length s) by (unfold heap_length; by rewrite His).
  set (s2 := appended s (items_allocated (heap s1)) (heap_capacity (heap s1)) id n).
  destruct (appended_spec s (items_allocated (heap s1)) (heap_capacity (heap s1)) id n
              Hix Ho Hn Ha) as (Hi2 & Hl2 & Hb2 & Hu2). fold s2 in Hi2, Hl2, Hb2, Hu2.
  destruct (up_spec (S (heap_length s)) s2 (heap_length s)) as (s3 & Hrun & Hi3 & Hs3 & Ho3);
    [done|lia|lia|done|].
  exists VL_OK, s3. split.
  - rewrite decide_True by done. unfold update_node, get_node. crun. rewrite Hns, Hn, Hlen.
    cbn -[vl_timer_heap_up]. rewrite Hns, lookup_insert_eq. cbn -[vl_timer_heap_up].
    match goal with |- context [vl_timer_heap_up _ _ ?st] => assert (st = s2) as -> end.
    { subst s2. unfold appended, set_items, set_node, heap_items in *. simpl.
      by rewrite Hns, His, insert_insert_eq. }
    by rewrite Hrun.
  - left. split; [done|]. split; [|split].
    + apply (sifted_wf s2); [done..|]. rewrite Hl2. simpl. lia.
    + rewrite (sifted_items _ _ Hs3). subst s2. unfold appended. rewrite heap_items_mk.
      by rewrite Permutation_app_comm.
    + destruct Hb2 as [B1 B2]. pose proof (sifted_strip _ _ Hs3) as S.
      split; [intros j Hj; rewrite S; by apply B1|]. by rewrite S.
Qed.

(** ** A concrete heap *)

Definition example_store : timer_store := mk_timer_store
  {[ 1%nat := mk_timer_node 10 0 true 101; 2%nat := mk_timer_node 20 1 true 102;
     3%nat := mk_timer_node 5 0 false 103 ]}
  (mk_timer_heap [1%nat; 2%nat] true 16).

Lemma example_store_wf : heap_wf example_store.
Proof.
  split; [|split].
  - intros i id Hi. destruct i as [|[|i]]; simpl in Hi; simplify_eq; eexists; (split; [reflexivity|done]).
  - intros j Hj. assert (j = 1%nat) as -> by (unfold heap_length in Hj; simpl in Hj; lia).
    vm_compute. congruence.
  - split; vm_compute; congruence.
Qed.

Lemma timer_heap_pop_min_witness : exists s',
  vl_timer_heap_pop example_store = Some (Some 1%nat, s') /\ heap_wf s'.
Proof.
  destruct (timer_heap_pop_min example_store example_store_wf)
    as [[E _]|(id & s' & Hp & Hwf & _)]; [discriminate E|].
  exists s'. split; [|exact Hwf]. rewrite Hp. f_equal. f_equal.
  vm_compute in Hp. injection Hp as <- _. reflexivity.
Defined.

Lemma timer_heap_remove_any_witness : exists s',
  vl_timer_heap_remove (Some 1%nat) example_store = Some (tt, s') /\ heap_wf s' /\
  heap_items example_store ≡ₚ 1%nat :: heap_items s'.
Proof.
  destruct (timer_heap_remove_any example_store 1 (mk_timer_node 10 0 true 101)
    example_store_wf eq_refl) as (_ & _ & H).
  destruct (H ltac:(vm_compute; constructor)) as (s' & Hr & Hwf & Hp & _). eauto.
Defined.

Lemma timer_heap_push_correct_witness : exists s',
  vl_timer_heap_push true (Some 3%nat) example_store = Some (VL_OK, s') /\ heap_wf s'.
Proof.
  destruct (timer_heap_push_correct example_store true 3 (mk_timer_node 5 0 false 103)
    example_store_wf eq_refl) as (_ & _ & H).
  destruct (H eq_refl) as (st & s' & Hr & [(-> & Hwf & _)|(_ & _ & Hbad & _)]); [eauto|].
  vm_compute in Hbad. discriminate Hbad.
Defined.
