(* ===== verification/Intrusive.v ===== *)
(** * Intrusive FIFO lists

    The runtime links tasks into singly linked FIFO lists through fields of the
    tasks themselves: [queue_next] for the global run queue
    (src/runtime/scheduler.c), [waiter_next] for the wait queues of the
    synchronisation objects (src/sync/sync_internal.h) and of [vl_join]
    (src/runtime/task.c).  The operations are the same code over a different
    link field, so they are modelled once, over a [link]. *)

From S2P Require Import Prelude.
From stdpp Require Import options.

(** A link field of a struct [T]: its getter, its setter and the field laws. *)
Record link (T : Type) := mk_link {
  next : T -> option nat;
  set_next : option nat -> T -> T;
  next_set : forall v t, next (set_next v t) = v;
  set_set : forall v w t, set_next v (set_next w t) = set_next v t;
  set_same : forall t, set_next (next t) t = t }.
Arguments next {T} _ _.
Arguments set_next {T} _ _ _.

Record iqueue := mk_iqueue {
  q_head : option nat;
  q_tail : option nat;
  q_length : Z }.

Definition empty_queue : iqueue := mk_iqueue None None 0.

Section Operations.
  Context {T : Type} (K : link T).

(** [node->next = v]: undefined when [node] is not allocated. *)
Definition store_next (i : nat) (v : option nat) (m : gmap nat T) : option (gmap nat T) :=
  t ← m !! i; Some (<[i := set_next K v t]> m).

Definition iq_push (q : iqueue) (i : nat) (m : gmap nat T) : option (iqueue * gmap nat T) :=
  m ← store_next i None m;
  match q_tail q with
  | None => Some (mk_iqueue (Some i) (Some i) (w64 (q_length q + 1)), m)
  | Some tl =>
      m ← store_next tl (Some i) m;
      Some (mk_iqueue (q_head q) (Some i) (w64 (q_length q + 1)), m)
  end.

Definition iq_pop (q : iqueue) (m : gmap nat T) : option (option nat * iqueue * gmap nat T) :=
  match q_head q with
  | None => Some (None, q, m)
  | Some i =>
      t ← m !! i;
      let h := next K t in
      let tl := match h with None => None | Some _ => q_tail q end in
      m ← store_next i None m;
      Some (Some i, mk_iqueue h tl (w64 (q_length q - 1)), m)
  end.

(** ** Lists in the store *)

(** Following the link from [h] visits exactly [l] and ends in NULL. *)
Fixpoint chain (m : gmap nat T) (h : option nat) (l : list nat) : Prop :=
  match l with
  | [] => h = None
  | i :: l => h = Some i /\ exists t, m !! i = Some t /\ chain m (next K t) l
  end.

Record iq_repr (m : gmap nat T) (q : iqueue) (l : list nat) : Prop := {
  iq_chain : chain m (q_head q) l;
  iq_tail : q_tail q = list.last l;
  iq_nodup : NoDup l;
  iq_len : q_length q = w64 (Z.of_nat (length l)) }.

(** Two stores that differ at most in this link: the kernel of forgetting it. *)
Definition forget (t : T) : T := set_next K None t.
Definition upto (m m' : gmap nat T) : Prop := forget <$> m = forget <$> m'.

#[export] Instance upto_equivalence : Equivalence upto.
Proof. unfold upto. split; [done|by intros ? ?|intros ? ? ?; congruence]. Qed.

Lemma upto_lookup m m' i t : upto m m' -> m !! i = Some t ->
  exists v, m' !! i = Some (set_next K v t).
Proof.
  intros H Hi. apply (f_equal (lookup i)) in H. rewrite !lookup_fmap, Hi in H. simpl in H.
  destruct (m' !! i) as [t'|]; [|done]. injection H as H. exists (next K t').
  rewrite <- (set_same _ K t') at 1. f_equal. unfold forget in H.
  apply (f_equal (set_next K (next K t'))) in H. rewrite !set_set in H. congruence.
Qed.

Lemma upto_None m m' i : upto m m' -> m !! i = None <-> m' !! i = None.
Proof.
  intros H. apply (f_equal (lookup i)) in H. rewrite !lookup_fmap in H.
  destruct (m !! i), (m' !! i); naive_solver.
Qed.

Lemma store_next_run i v m t : m !! i = Some t ->
  store_next i v m = Some (<[i := set_next K v t]> m).
Proof. intros Hi. unfold store_next. by rewrite Hi. Qed.

Lemma upto_insert i v m t : m !! i = Some t -> upto m (<[i := set_next K v t]> m).
Proof.
  intros Hi. unfold upto. rewrite fmap_insert. unfold forget at 2. rewrite set_set.
  symmetry. apply insert_id. by rewrite lookup_fmap, Hi.
Qed.

(** Only the links of the members matter. *)
Lemma chain_frame m m' h l : chain m h l ->
  (forall i t, i ∈ l -> m !! i = Some t -> exists t', m' !! i = Some t' /\ next K t' = next K t) ->
  chain m' h l.
Proof.
  revert h. induction l as [|i l IH]; intros h; [done|]. intros (-> & t & Hi & Hc) Hf. split; [done|].
  destruct (Hf i t) as (t' & Ht' & Hn); [left|done|]. exists t'. split; [done|].
  rewrite Hn. apply IH; [done|]. intros j u Hj. apply Hf. by right.
Qed.

Lemma chain_insert m h l i t : chain m h l -> i ∉ l -> chain (<[i := t]> m) h l.
Proof.
  intros Hc Hi. eapply chain_frame; [done|]. intros j u Hj Hu. exists u. split; [|done].
  rewrite lookup_insert_ne; [done|]. by intros <-.
Qed.

Lemma chain_alive m h l i : chain m h l -> i ∈ l -> exists t, m !! i = Some t.
Proof.
  revert h. induction l as [|j l IH]; intros h; [by intros _ ?%elem_of_nil|].
  intros (-> & t & Ht & Hc) [->|Hi]%elem_of_cons; eauto.
Qed.

(** Appending [i]: the last link is redirected, [i]'s own link is cleared. *)
Lemma chain_snoc m h l j i tj ti : chain m h (l ++ [j]) -> NoDup (l ++ [j]) -> i ∉ l ++ [j] ->
  m !! j = Some tj -> m !! i = Some ti ->
  chain (<[j := set_next K (Some i) tj]> (<[i := set_next K None ti]> m)) h ((l ++ [j]) ++ [i]).
Proof.
  intros Hc Hnd Hi Hj Hti. assert (Hij : i <> j) by set_solver.
  revert h Hc. induction l as [|k l IH]; intros h; simpl.
  - intros (-> & t & Ht & Hn). split; [done|]. eexists. rewrite lookup_insert_eq. split; [done|].
    rewrite next_set. split; [done|]. eexists. rewrite lookup_insert_ne, lookup_insert_eq by done.
    split; [done|]. by rewrite next_set.
  - intros (-> & t & Ht & Hc). split; [done|]. apply list.NoDup_cons in Hnd as [Hk Hnd].
    exists t. rewrite !lookup_insert_ne by set_solver. split; [done|]. apply IH; set_solver.
Qed.

Lemma iq_repr_empty m : iq_repr m empty_queue [].
Proof. split; by try constructor. Qed.

Lemma iq_repr_frame m m' q l : iq_repr m q l ->
  (forall i t, i ∈ l -> m !! i = Some t -> exists t', m' !! i = Some t' /\ next K t' = next K t) ->
  iq_repr m' q l.
Proof. intros [Hc Ht Hn Hl] Hf. split; try done. by eapply chain_frame. Qed.

Lemma iq_push_spec m q l i t : iq_repr m q l -> i ∉ l -> m !! i = Some t ->
  exists q' m', iq_push q i m = Some (q', m') /\ iq_repr m' q' (l ++ [i]) /\ upto m m' /\
    forall j, j ∉ l -> j <> i -> m' !! j = m !! j.
Proof.
  intros [Hc Ht Hn Hl] Hi Hti. unfold iq_push. rewrite (store_next_run _ _ _ _ Hti). simpl.
  assert (Hlen : w64 (q_length q + 1) = w64 (Z.of_nat (length (l ++ [i])))).
  { rewrite Hl, w64_add_l, length_app. f_equal. simpl. lia. }
  assert (Hnd : NoDup (l ++ [i])) by (apply list.NoDup_app; set_solver by auto using NoDup_singleton).
  rewrite Ht. destruct l as [|j l _] using rev_ind; simpl.
  - eexists _, _. split; [done|]. split; [|split; [by apply upto_insert|]].
    + split; simpl; try done. split; [done|]. eexists. rewrite lookup_insert_eq. split; [done|].
      by rewrite next_set.
    + intros j _ Hj. by rewrite lookup_insert_ne.
  - rewrite last_snoc. destruct (chain_alive _ _ _ j Hc) as (tj & Htj); [set_solver|].
    assert (Hij : i <> j) by set_solver.
    rewrite (store_next_run j _ _ tj) by by rewrite lookup_insert_ne.
    simpl. eexists _, _. split; [done|]. split; [|split].
    + split; simpl; try done; [by apply chain_snoc|by rewrite last_snoc].
    + etrans; [by apply (upto_insert i None)|]. apply upto_insert. by rewrite lookup_insert_ne.
    + intros k Hk Hki. by rewrite !lookup_insert_ne by set_solver.
Qed.

Lemma iq_pop_nil m q : iq_repr m q [] -> iq_pop q m = Some (None, q, m).
Proof. intros [Hc _ _ _]. unfold iq_pop. simpl in Hc. by rewrite Hc. Qed.

Lemma iq_pop_cons m q i l : iq_repr m q (i :: l) ->
  exists q' m' t, iq_pop q m = Some (Some i, q', m') /\ iq_repr m' q' l /\ upto m m' /\
    m !! i = Some t /\ m' = <[i := set_next K None t]> m.
Proof.
  intros [(Hh & t & Hi & Hc) Ht Hn Hl]. unfold iq_pop. rewrite Hh, Hi. simpl.
  rewrite (store_next_run _ _ _ _ Hi). simpl. apply list.NoDup_cons in Hn as [Hil Hn].
  eexists _, _, t. split; [done|]. split; [|by auto using upto_insert]. split; simpl.
  - by apply chain_insert.
  - destruct l as [|k l]; simpl in Hc; [by rewrite Hc|]. destruct Hc as [-> _]. by rewrite Ht.
  - done.
  - rewrite Hl, w64_sub_l. f_equal. simpl. lia.
Qed.

Lemma iq_head_nil m q l : iq_repr m q l -> q_head q = head l.
Proof. intros [Hc _ _ _]. destruct l; simpl in *; [done|]. by destruct Hc. Qed.

(** The [length] field counts the list as long as the list fits the address space. *)
Lemma iq_length_zero m q l : iq_repr m q l -> Z.of_nat (length l) < W64 ->
  q_length q = 0 <-> l = [].
Proof.
  intros H Hb. rewrite (iq_len _ _ _ H), w64_small by word_lia.
  destruct l; simpl; [done|]. split; [lia|done].
Qed.

End Operations.
