(* ===== verification/RuntimeState.v ===== *)
(** * The state of the runtime (src/runtime/runtime_internal.h)

    One runtime instance: its tasks, its logical processors (P), the counters
    its mutex protects, and the timers armed on its P.  Pointers to tasks are
    identities in the map [tasks], pointers to P are indices into [ps], NULL is
    [None].  Fields the model leaves out: [fn] and [arg] of a task (the code the
    task runs is the environment of the model), [timer_node] and [timer_p] of a
    task (no function uses them), the pthread objects (a critical section under
    [mutex] is one step) and [task_stack_size] (only passed on). *)

From S2P Require Import Prelude Intrusive RunQueue TimerHeap.
From stdpp Require Import options.

(** [vl_task_state_t] of include/veloco/task.h. *)
Inductive vl_task_state :=
  | VL_TASK_NEW | VL_TASK_RUNNABLE | VL_TASK_RUNNING | VL_TASK_WAITING
  | VL_TASK_SLEEPING | VL_TASK_DONE | VL_TASK_CANCELLED.

#[export] Instance vl_task_state_eq_dec : EqDecision vl_task_state.
Proof. solve_decision. Defined.

(** [fiber] is the P whose fiber scheduler created the fiber: a fiber can only
    be resumed there.  [wait_output] is the cell a receiver waits to have
    filled, [wait_value] the pointer a sender waits to hand over. *)
Record vl_task := mk_task {
  fiber : option nat;
  state : vl_task_state;
  queued : bool;
  queue_next : option nat;
  all_next : option nat;
  waiters_head : option nat;
  waiters_tail : option nat;
  waiter_next : option nat;
  waiting_on : option nat;
  wait_value : Z;
  wait_output : option nat;
  wait_result : vl_status;
  timer_result : vl_status;
  last_p : option nat;
  executing : bool;
  wake_pending : bool;
  waiting_for_io : bool }.

Definition set_fiber (v : option nat) (t : vl_task) : vl_task :=
  mk_task v (state t) (queued t) (queue_next t) (all_next t) (waiters_head t)
    (waiters_tail t) (waiter_next t) (waiting_on t) (wait_value t) (wait_output t)
    (wait_result t) (timer_result t) (last_p t) (executing t) (wake_pending t)
    (waiting_for_io t).
Definition set_state (v : vl_task_state) (t : vl_task) : vl_task :=
  mk_task (fiber t) v (queued t) (queue_next t) (all_next t) (waiters_head t)
    (waiters_tail t) (waiter_next t) (waiting_on t) (wait_value t) (wait_output t)
    (wait_result t) (timer_result t) (last_p t) (executing t) (wake_pending t)
    (waiting_for_io t).
Definition set_queued (v : bool) (t : vl_task) : vl_task :=
  mk_task (fiber t) (state t) v (queue_next t) (all_next t) (waiters_head t)
    (waiters_tail t) (waiter_next t) (waiting_on t) (wait_value t) (wait_output t)
    (wait_result t) (timer_result t) (last_p t) (executing t) (wake_pending t)
    (waiting_for_io t).
Definition set_queue_next (v : option nat) (t : vl_task) : vl_task :=
  mk_task (fiber t) (state t) (queued t) v (all_next t) (waiters_head t) (waiters_tail
    t) (waiter_next t) (waiting_on t) (wait_value t) (wait_output t) (wait_result t)
    (timer_result t) (last_p t) (executing t) (wake_pending t) (waiting_for_io t).
Definition set_all_next (v : option nat) (t : vl_task) : vl_task :=
  mk_task (fiber t) (state t) (queued t) (queue_next t) v (waiters_head t) (waiters_tail
    t) (waiter_next t) (waiting_on t) (wait_value t) (wait_output t) (wait_result t)
    (timer_result t) (last_p t) (executing t) (wake_pending t) (waiting_for_io t).
Definition set_waiters_head (v : option nat) (t : vl_task) : vl_task :=
  mk_task (fiber t) (state t) (queued t) (queue_next t) (all_next t) v (waiters_tail t)
    (waiter_next t) (waiting_on t) (wait_value t) (wait_output t) (wait_result t)
    (timer_result t) (last_p t) (executing t) (wake_pending t) (waiting_for_io t).
Definition set_waiters_tail (v : option nat) (t : vl_task) : vl_task :=
  mk_task (fiber t) (state t) (queued t) (queue_next t) (all_next t) (waiters_head t) v
    (waiter_next t) (waiting_on t) (wait_value t) (wait_output t) (wait_result t)
    (timer_result t) (last_p t) (executing t) (wake_pending t) (waiting_for_io t).
Definition set_waiter_next (v : option nat) (t : vl_task) : vl_task :=
  mk_task (fiber t) (state t) (queued t) (queue_next t) (all_next t) (waiters_head t)
    (waiters_tail t) v (waiting_on t) (wait_value t) (wait_output t) (wait_result t)
    (timer_result t) (last_p t) (executing t) (wake_pending t) (waiting_for_io t).
Definition set_waiting_on (v : option nat) (t : vl_task) : vl_task :=
  mk_task (fiber t) (state t) (queued t) (queue_next t) (all_next t) (waiters_head t)
    (waiters_tail t) (waiter_next t) v (wait_value t) (wait_output t) (wait_result t)
    (timer_result t) (last_p t) (executing t) (wake_pending t) (waiting_for_io t).
Definition set_wait_value (v : Z) (t : vl_task) : vl_task :=
  mk_task (fiber t) (state t) (queued t) (queue_next t) (all_next t) (waiters_head t)
    (waiters_tail t) (waiter_next t) (waiting_on t) v (wait_output t) (wait_result t)
    (timer_result t) (last_p t) (executing t) (wake_pending t) (waiting_for_io t).
Definition set_wait_output (v : option nat) (t : vl_task) : vl_task :=
  mk_task (fiber t) (state t) (queued t) (queue_next t) (all_next t) (waiters_head t)
    (waiters_tail t) (waiter_next t) (waiting_on t) (wait_value t) v (wait_result t)
    (timer_result t) (last_p t) (executing t) (wake_pending t) (waiting_for_io t).
Definition set_wait_result (v : vl_status) (t : vl_task) : vl_task :=
  mk_task (fiber t) (state t) (queued t) (queue_next t) (all_next t) (waiters_head t)
    (waiters_tail t) (waiter_next t) (waiting_on t) (wait_value t) (wait_output t) v
    (timer_result t) (last_p t) (executing t) (wake_pending t) (waiting_for_io t).
Definition set_timer_result (v : vl_status) (t : vl_task) : vl_task :=
  mk_task (fiber t) (state t) (queued t) (queue_next t) (all_next t) (waiters_head t)
    (waiters_tail t) (waiter_next t) (waiting_on t) (wait_value t) (wait_output t)
    (wait_result t) v (last_p t) (executing t) (wake_pending t) (waiting_for_io t).
Definition set_last_p (v : option nat) (t : vl_task) : vl_task :=
  mk_task (fiber t) (state t) (queued t) (queue_next t) (all_next t) (waiters_head t)
    (waiters_tail t) (waiter_next t) (waiting_on t) (wait_value t) (wait_output t)
    (wait_result t) (timer_result t) v (executing t) (wake_pending t) (waiting_for_io t).
Definition set_executing (v : bool) (t : vl_task) : vl_task :=
  mk_task (fiber t) (state t) (queued t) (queue_next t) (all_next t) (waiters_head t)
    (waiters_tail t) (waiter_next t) (waiting_on t) (wait_value t) (wait_output t)
    (wait_result t) (timer_result t) (last_p t) v (wake_pending t) (waiting_for_io t).
Definition set_wake_pending (v : bool) (t : vl_task) : vl_task :=
  mk_task (fiber t) (state t) (queued t) (queue_next t) (all_next t) (waiters_head t)
    (waiters_tail t) (waiter_next t) (waiting_on t) (wait_value t) (wait_output t)
    (wait_result t) (timer_result t) (last_p t) (executing t) v (waiting_for_io t).
Definition set_waiting_for_io (v : bool) (t : vl_task) : vl_task :=
  mk_task (fiber t) (state t) (queued t) (queue_next t) (all_next t) (waiters_head t)
    (waiters_tail t) (waiter_next t) (waiting_on t) (wait_value t) (wait_output t)
    (wait_result t) (timer_result t) (last_p t) (executing t) (wake_pending t) v.

(** A task as [calloc] and [vl_spawn] leave it. *)
Definition new_task : vl_task :=
  mk_task None VL_TASK_NEW false None None None None None None 0 None VL_OK VL_OK None false false false.

(** ** Counters *)

Record vl_runtime_p_stats := mk_p_stats {
  executed : Z;
  local_pushes : Z;
  global_pulls : Z;
  steal_attempts : Z;
  p_steals : Z;
  p_parks : Z }.

Definition set_executed (v : Z) (c : vl_runtime_p_stats) : vl_runtime_p_stats :=
  mk_p_stats v (local_pushes c) (global_pulls c) (steal_attempts c) (p_steals c)
    (p_parks c).
Definition set_local_pushes (v : Z) (c : vl_runtime_p_stats) : vl_runtime_p_stats :=
  mk_p_stats (executed c) v (global_pulls c) (steal_attempts c) (p_steals c) (p_parks
    c).
Definition set_global_pulls (v : Z) (c : vl_runtime_p_stats) : vl_runtime_p_stats :=
  mk_p_stats (executed c) (local_pushes c) v (steal_attempts c) (p_steals c) (p_parks
    c).
Definition set_steal_attempts (v : Z) (c : vl_runtime_p_stats) : vl_runtime_p_stats :=
  mk_p_stats (executed c) (local_pushes c) (global_pulls c) v (p_steals c) (p_parks c).
Definition set_p_steals (v : Z) (c : vl_runtime_p_stats) : vl_runtime_p_stats :=
  mk_p_stats (executed c) (local_pushes c) (global_pulls c) (steal_attempts c) v
    (p_parks c).
Definition set_p_parks (v : Z) (c : vl_runtime_p_stats) : vl_runtime_p_stats :=
  mk_p_stats (executed c) (local_pushes c) (global_pulls c) (steal_attempts c) (p_steals
    c) v.

Record vl_runtime_stats := mk_stats {
  spawned : Z;
  completed : Z;
  cancelled : Z;
  steals : Z;
  parks : Z;
  task_switches : Z }.

Definition set_spawned (v : Z) (c : vl_runtime_stats) : vl_runtime_stats :=
  mk_stats v (completed c) (cancelled c) (steals c) (parks c) (task_switches c).
Definition set_completed (v : Z) (c : vl_runtime_stats) : vl_runtime_stats :=
  mk_stats (spawned c) v (cancelled c) (steals c) (parks c) (task_switches c).
Definition set_cancelled (v : Z) (c : vl_runtime_stats) : vl_runtime_stats :=
  mk_stats (spawned c) (completed c) v (steals c) (parks c) (task_switches c).
Definition set_steals (v : Z) (c : vl_runtime_stats) : vl_runtime_stats :=
  mk_stats (spawned c) (completed c) (cancelled c) v (parks c) (task_switches c).
Definition set_parks (v : Z) (c : vl_runtime_stats) : vl_runtime_stats :=
  mk_stats (spawned c) (completed c) (cancelled c) (steals c) v (task_switches c).
Definition set_task_switches (v : Z) (c : vl_runtime_stats) : vl_runtime_stats :=
  mk_stats (spawned c) (completed c) (cancelled c) (steals c) (parks c) v.

Definition bump {T} (get : T -> Z) (set : Z -> T -> T) (n : Z) (t : T) : T :=
  set (w64 (get t + n)) t.

(** ** Logical processors

    [event_fd] is the counter of the P's eventfd; [runtime], [id] (the index in
    [ps]), [fiber_sched] and [thread] are left out. *)

Record vl_p := mk_p {
  runnable : vl_run_queue;
  event_fd : Z;
  thread_started : bool;
  init_status : vl_status;
  idle : bool;
  current : option nat;
  p_stats : vl_runtime_p_stats;
  timers : vl_timer_heap }.

Definition set_runnable (v : vl_run_queue) (p : vl_p) : vl_p :=
  mk_p v (event_fd p) (thread_started p) (init_status p) (idle p) (current p) (p_stats
    p) (timers p).
Definition set_event_fd (v : Z) (p : vl_p) : vl_p :=
  mk_p (runnable p) v (thread_started p) (init_status p) (idle p) (current p) (p_stats
    p) (timers p).
Definition set_thread_started (v : bool) (p : vl_p) : vl_p :=
  mk_p (runnable p) (event_fd p) v (init_status p) (idle p) (current p) (p_stats p)
    (timers p).
Definition set_init_status (v : vl_status) (p : vl_p) : vl_p :=
  mk_p (runnable p) (event_fd p) (thread_started p) v (idle p) (current p) (p_stats p)
    (timers p).
Definition set_idle (v : bool) (p : vl_p) : vl_p :=
  mk_p (runnable p) (event_fd p) (thread_started p) (init_status p) v (current p)
    (p_stats p) (timers p).
Definition set_current (v : option nat) (p : vl_p) : vl_p :=
  mk_p (runnable p) (event_fd p) (thread_started p) (init_status p) (idle p) v (p_stats
    p) (timers p).
Definition set_p_stats (v : vl_runtime_p_stats) (p : vl_p) : vl_p :=
  mk_p (runnable p) (event_fd p) (thread_started p) (init_status p) (idle p) (current p)
    v (timers p).
Definition set_timers (v : vl_timer_heap) (p : vl_p) : vl_p :=
  mk_p (runnable p) (event_fd p) (thread_started p) (init_status p) (idle p) (current p)
    (p_stats p) v.

(** [vl_timer_impl_t] of src/time/timer.c; its embedded node is
    [timer_nodes !! i] under the same identity. *)
Record vl_timer_impl := mk_timer_impl {
  ti_task : option nat;
  ti_p : option nat }.

(** ** The runtime

    [cells] is the memory the [void **out] arguments of tasks point to. *)

Record vl_runtime_impl := mk_runtime {
  global_runnable : iqueue;
  all_tasks : option nat;
  tasks : gmap nat vl_task;
  ps : list vl_p;
  owner_thread : nat;
  workers_ready : Z;
  live_tasks : Z;
  active_workers : Z;
  idle_workers : Z;
  timer_count : Z;
  io_driver : option nat;
  io_waiting : Z;
  running : bool;
  run_status : vl_status;
  shutdown_requested : bool;
  stop_workers : bool;
  stats : vl_runtime_stats;
  timer_nodes : gmap nat vl_timer_node;
  timer_impls : gmap nat vl_timer_impl;
  cells : gmap nat Z }.

Definition set_global_runnable (v : iqueue) (r : vl_runtime_impl) : vl_runtime_impl :=
  mk_runtime v (all_tasks r) (tasks r) (ps r) (owner_thread r) (workers_ready r)
    (live_tasks r) (active_workers r) (idle_workers r) (timer_count r) (io_driver r)
    (io_waiting r) (running r) (run_status r) (shutdown_requested r) (stop_workers r)
    (stats r) (timer_nodes r) (timer_impls r) (cells r).
Definition set_all_tasks (v : option nat) (r : vl_runtime_impl) : vl_runtime_impl :=
  mk_runtime (global_runnable r) v (tasks r) (ps r) (owner_thread r) (workers_ready r)
    (live_tasks r) (active_workers r) (idle_workers r) (timer_count r) (io_driver r)
    (io_waiting r) (running r) (run_status r) (shutdown_requested r) (stop_workers r)
    (stats r) (timer_nodes r) (timer_impls r) (cells r).
Definition set_tasks (v : gmap nat vl_task) (r : vl_runtime_impl) : vl_runtime_impl :=
  mk_runtime (global_runnable r) (all_tasks r) v (ps r) (owner_thread r) (workers_ready
    r) (live_tasks r) (active_workers r) (idle_workers r) (timer_count r) (io_driver r)
    (io_waiting r) (running r) (run_status r) (shutdown_requested r) (stop_workers r)
    (stats r) (timer_nodes r) (timer_impls r) (cells r).
Definition set_ps (v : list vl_p) (r : vl_runtime_impl) : vl_runtime_impl :=
  mk_runtime (global_runnable r) (all_tasks r) (tasks r) v (owner_thread r)
    (workers_ready r) (live_tasks r) (active_workers r) (idle_workers r) (timer_count r)
    (io_driver r) (io_waiting r) (running r) (run_status r) (shutdown_requested r)
    (stop_workers r) (stats r) (timer_nodes r) (timer_impls r) (cells r).
Definition set_owner_thread (v : nat) (r : vl_runtime_impl) : vl_runtime_impl :=
  mk_runtime (global_runnable r) (all_tasks r) (tasks r) (ps r) v (workers_ready r)
    (live_tasks r) (active_workers r) (idle_workers r) (timer_count r) (io_driver r)
    (io_waiting r) (running r) (run_status r) (shutdown_requested r) (stop_workers r)
    (stats r) (timer_nodes r) (timer_impls r) (cells r).
Definition set_workers_ready (v : Z) (r : vl_runtime_impl) : vl_runtime_impl :=
  mk_runtime (global_runnable r) (all_tasks r) (tasks r) (ps r) (owner_thread r) v
    (live_tasks r) (active_workers r) (idle_workers r) (timer_count r) (io_driver r)
    (io_waiting r) (running r) (run_status r) (shutdown_requested r) (stop_workers r)
    (stats r) (timer_nodes r) (timer_impls r) (cells r).
Definition set_live_tasks (v : Z) (r : vl_runtime_impl) : vl_runtime_impl :=
  mk_runtime (global_runnable r) (all_tasks r) (tasks r) (ps r) (owner_thread r)
    (workers_ready r) v (active_workers r) (idle_workers r) (timer_count r) (io_driver r)
    (io_waiting r) (running r) (run_status r) (shutdown_requested r) (stop_workers r)
    (stats r) (timer_nodes r) (timer_impls r) (cells r).
Definition set_active_workers (v : Z) (r : vl_runtime_impl) : vl_runtime_impl :=
  mk_runtime (global_runnable r) (all_tasks r) (tasks r) (ps r) (owner_thread r)
    (workers_ready r) (live_tasks r) v (idle_workers r) (timer_count r) (io_driver r)
    (io_waiting r) (running r) (run_status r) (shutdown_requested r) (stop_workers r)
    (stats r) (timer_nodes r) (timer_impls r) (cells r).
Definition set_idle_workers (v : Z) (r : vl_runtime_impl) : vl_runtime_impl :=
  mk_runtime (global_runnable r) (all_tasks r) (tasks r) (ps r) (owner_thread r)
    (workers_ready r) (live_tasks r) (active_workers r) v (timer_count r) (io_driver r)
    (io_waiting r) (running r) (run_status r) (shutdown_requested r) (stop_workers r)
    (stats r) (timer_nodes r) (timer_impls r) (cells r).
Definition set_timer_count (v : Z) (r : vl_runtime_impl) : vl_runtime_impl :=
  mk_runtime (global_runnable r) (all_tasks r) (tasks r) (ps r) (owner_thread r)
    (workers_ready r) (live_tasks r) (active_workers r) (idle_workers r) v (io_driver r)
    (io_waiting r) (running r) (run_status r) (shutdown_requested r) (stop_workers r)
    (stats r) (timer_nodes r) (timer_impls r) (cells r).
Definition set_io_driver (v : option nat) (r : vl_runtime_impl) : vl_runtime_impl :=
  mk_runtime (global_runnable r) (all_tasks r) (tasks r) (ps r) (owner_thread r)
    (workers_ready r) (live_tasks r) (active_workers r) (idle_workers r) (timer_count r) v
    (io_waiting r) (running r) (run_status r) (shutdown_requested r) (stop_workers r)
    (stats r) (timer_nodes r) (timer_impls r) (cells r).
Definition set_io_waiting (v : Z) (r : vl_runtime_impl) : vl_runtime_impl :=
  mk_runtime (global_runnable r) (all_tasks r) (tasks r) (ps r) (owner_thread r)
    (workers_ready r) (live_tasks r) (active_workers r) (idle_workers r) (timer_count r)
    (io_driver r) v (running r) (run_status r) (shutdown_requested r) (stop_workers r)
    (stats r) (timer_nodes r) (timer_impls r) (cells r).
Definition set_running (v : bool) (r : vl_runtime_impl) : vl_runtime_impl :=
  mk_runtime (global_runnable r) (all_tasks r) (tasks r) (ps r) (owner_thread r)
    (workers_ready r) (live_tasks r) (active_workers r) (idle_workers r) (timer_count r)
    (io_driver r) (io_waiting r) v (run_status r) (shutdown_requested r) (stop_workers r)
    (stats r) (timer_nodes r) (timer_impls r) (cells r).
Definition set_run_status (v : vl_status) (r : vl_runtime_impl) : vl_runtime_impl :=
  mk_runtime (global_runnable r) (all_tasks r) (tasks r) (ps r) (owner_thread r)
    (workers_ready r) (live_tasks r) (active_workers r) (idle_workers r) (timer_count r)
    (io_driver r) (io_waiting r) (running r) v (shutdown_requested r) (stop_workers r)
    (stats r) (timer_nodes r) (timer_impls r) (cells r).
Definition set_shutdown_requested (v : bool) (r : vl_runtime_impl) : vl_runtime_impl :=
  mk_runtime (global_runnable r) (all_tasks r) (tasks r) (ps r) (owner_thread r)
    (workers_ready r) (live_tasks r) (active_workers r) (idle_workers r) (timer_count r)
    (io_driver r) (io_waiting r) (running r) (run_status r) v (stop_workers r) (stats r)
    (timer_nodes r) (timer_impls r) (cells r).
Definition set_stop_workers (v : bool) (r : vl_runtime_impl) : vl_runtime_impl :=
  mk_runtime (global_runnable r) (all_tasks r) (tasks r) (ps r) (owner_thread r)
    (workers_ready r) (live_tasks r) (active_workers r) (idle_workers r) (timer_count r)
    (io_driver r) (io_waiting r) (running r) (run_status r) (shutdown_requested r) v
    (stats r) (timer_nodes r) (timer_impls r) (cells r).
Definition set_stats (v : vl_runtime_stats) (r : vl_runtime_impl) : vl_runtime_impl :=
  mk_runtime (global_runnable r) (all_tasks r) (tasks r) (ps r) (owner_thread r)
    (workers_ready r) (live_tasks r) (active_workers r) (idle_workers r) (timer_count r)
    (io_driver r) (io_waiting r) (running r) (run_status r) (shutdown_requested r)
    (stop_workers r) v (timer_nodes r) (timer_impls r) (cells r).
Definition set_timer_nodes (v : gmap nat vl_timer_node) (r : vl_runtime_impl) : vl_runtime_impl :=
  mk_runtime (global_runnable r) (all_tasks r) (tasks r) (ps r) (owner_thread r)
    (workers_ready r) (live_tasks r) (active_workers r) (idle_workers r) (timer_count r)
    (io_driver r) (io_waiting r) (running r) (run_status r) (shutdown_requested r)
    (stop_workers r) (stats r) v (timer_impls r) (cells r).
Definition set_timer_impls (v : gmap nat vl_timer_impl) (r : vl_runtime_impl) : vl_runtime_impl :=
  mk_runtime (global_runnable r) (all_tasks r) (tasks r) (ps r) (owner_thread r)
    (workers_ready r) (live_tasks r) (active_workers r) (idle_workers r) (timer_count r)
    (io_driver r) (io_waiting r) (running r) (run_status r) (shutdown_requested r)
    (stop_workers r) (stats r) (timer_nodes r) v (cells r).
Definition set_cells (v : gmap nat Z) (r : vl_runtime_impl) : vl_runtime_impl :=
  mk_runtime (global_runnable r) (all_tasks r) (tasks r) (ps r) (owner_thread r)
    (workers_ready r) (live_tasks r) (active_workers r) (idle_workers r) (timer_count r)
    (io_driver r) (io_waiting r) (running r) (run_status r) (shutdown_requested r)
    (stop_workers r) (stats r) (timer_nodes r) (timer_impls r) v.

Definition worker_count (r : vl_runtime_impl) : nat := length (ps r).

(** The calling thread: its identity and its thread-local [vl_tls_p]. *)
Record thread := mk_thread { th_self : nat; th_p : option nat }.

(** ** Accesses *)

Notation R := (C vl_runtime_impl).

Definition load_task (i : nat) : R vl_task := deref (fun r => tasks r !! i).
Definition upd_task (i : nat) (f : vl_task -> vl_task) : R unit := fun r =>
  match tasks r !! i with
  | Some t => Some (tt, set_tasks (<[i := f t]> (tasks r)) r)
  | None => None
  end.
Definition load_p (p : nat) : R vl_p := deref (fun r => ps r !! p).
Definition upd_p (p : nat) (f : vl_p -> vl_p) : R unit := fun r =>
  match ps r !! p with
  | Some x => Some (tt, set_ps (<[p := f x]> (ps r)) r)
  | None => None
  end.
Definition bump_stat (get : vl_runtime_stats -> Z) (set : Z -> vl_runtime_stats -> vl_runtime_stats)
    (n : Z) : R unit :=
  modify (fun r => set_stats (bump get set n (stats r)) r).
Definition bump_p_stat (p : nat) (get : vl_runtime_p_stats -> Z)
    (set : Z -> vl_runtime_p_stats -> vl_runtime_p_stats) (n : Z) : R unit :=
  upd_p p (fun x => set_p_stats (bump get set n (p_stats x)) x).

(** A run-queue operation on [&ps[p].runnable]. *)
Definition on_run_queue {A} (p : nat) (op : C vl_run_queue A) : R A := fun r =>
  match ps r !! p with
  | None => None
  | Some x =>
      match op (runnable x) with
      | Some (a, q) => Some (a, set_ps (<[p := set_runnable q x]> (ps r)) r)
      | None => None
      end
  end.

(** ** Link fields *)

Definition queue_link : link vl_task.
Proof. by refine (mk_link _ queue_next set_queue_next _ _ _); repeat intros []. Defined.
Definition all_link : link vl_task.
Proof. by refine (mk_link _ all_next set_all_next _ _ _); repeat intros []. Defined.
Definition waiter_link : link vl_task.
Proof. by refine (mk_link _ waiter_next set_waiter_next _ _ _); repeat intros []. Defined.

(** ** Running and inverting accesses *)

Lemma load_task_run i r t : tasks r !! i = Some t -> load_task i r = Some (t, r).
Proof. intros H. unfold load_task, deref. by rewrite H. Qed.

Lemma upd_task_run i f r t : tasks r !! i = Some t ->
  upd_task i f r = Some (tt, set_tasks (<[i := f t]> (tasks r)) r).
Proof. intros H. unfold upd_task. by rewrite H. Qed.

Lemma upd_p_run p f r x : ps r !! p = Some x ->
  upd_p p f r = Some (tt, set_ps (<[p := f x]> (ps r)) r).
Proof. intros H. unfold upd_p. by rewrite H. Qed.

Lemma load_task_inv i r t r' : load_task i r = Some (t, r') -> tasks r !! i = Some t /\ r' = r.
Proof. unfold load_task, deref. destruct (tasks r !! i); naive_solver. Qed.

Lemma upd_task_inv i f r u r' : upd_task i f r = Some (u, r') ->
  exists t, tasks r !! i = Some t /\ r' = set_tasks (<[i := f t]> (tasks r)) r.
Proof. unfold upd_task. destruct (tasks r !! i); naive_solver. Qed.

Lemma load_p_inv p r x r' : load_p p r = Some (x, r') -> ps r !! p = Some x /\ r' = r.
Proof. unfold load_p, deref. destruct (ps r !! p); naive_solver. Qed.

Lemma upd_p_inv p f r u r' : upd_p p f r = Some (u, r') ->
  exists x, ps r !! p = Some x /\ r' = set_ps (<[p := f x]> (ps r)) r.
Proof. unfold upd_p. destruct (ps r !! p); naive_solver. Qed.

Lemma gets_inv {S A} (f : S -> A) r a r' : gets f r = Some (a, r') -> a = f r /\ r' = r.
Proof. unfold gets. naive_solver. Qed.

Lemma modify_inv {S} (f : S -> S) r u r' : modify f r = Some (u, r') -> r' = f r.
Proof. unfold modify. naive_solver. Qed.

Lemma mret_inv {S A} (a b : A) (r r' : S) : (mret a : C S A) r = Some (b, r') -> b = a /\ r' = r.
Proof. unfold mret, C_ret. naive_solver. Qed.

(** Take a successful run apart, one access at a time. *)
Ltac minv_step :=
  match goal with
  | H : (_ ≫= _) _ = Some _ |- _ =>
      let E := fresh "E" in apply bind_inv in H as (? & ? & E & H)
  | H : load_task _ _ = Some _ |- _ => apply load_task_inv in H as [? ->]
  | H : load_p _ _ = Some _ |- _ => apply load_p_inv in H as [? ->]
  | H : upd_task _ _ _ = Some _ |- _ => apply upd_task_inv in H as (? & ? & ->)
  | H : upd_p _ _ _ = Some _ |- _ => apply upd_p_inv in H as (? & ? & ->)
  | H : gets _ _ = Some _ |- _ => apply gets_inv in H as [-> ->]
  | H : modify _ _ = Some _ |- _ => apply modify_inv in H as ->
  | H : mret _ _ = Some _ |- _ => apply mret_inv in H as [-> ->]
  | H : ub _ = Some _ |- _ => by discriminate H
  end.
Ltac minv := repeat minv_step.
