(* ===== verification/Task.v ===== *)
(** * Tasks (src/runtime/task.c, context.c and the task half of scheduler.c)

    Each function is the code between the lock and the unlock of the runtime's
    mutex, with the reads around it.  An operation that suspends its task ends in
    [Suspend] where the code calls [vl_fiber_yield]; what it does after the fiber
    is resumed is the function of the same name with [_resumed]. *)

From S2P Require Import Prelude Intrusive RunQueue TimerHeap RuntimeState.
From stdpp Require Import options.

Inductive outcome (A : Type) := Return (a : A) | Suspend.
Arguments Return {A} _.
Arguments Suspend {A}.

(** ** scheduler.c: queues and wake-ups *)

Definition vl_task_queue_push (task : nat) : R unit := fun r =>
  match iq_push queue_link (global_runnable r) task (tasks r) with
  | Some (q, m) => Some (tt, set_global_runnable q (set_tasks m r))
  | None => None
  end.

Definition vl_task_queue_pop : R (option nat) := fun r =>
  match iq_pop queue_link (global_runnable r) (tasks r) with
  | Some (task, q, m) => Some (task, set_global_runnable q (set_tasks m r))
  | None => None
  end.

Definition vl_runtime_is_owner (th : thread) (r : vl_runtime_impl) : bool :=
  (owner_thread r =? th_self th)%nat.

(** A nonblocking eventfd refuses (EAGAIN) a write that would overflow it. *)
Definition eventfd_write (count : Z) : Z :=
  if count + 1 <=? UINT64_MAX - 1 then count + 1 else count.

Definition vl_runtime_wake_workers : R unit :=
  modify (fun r => set_ps ((fun p => set_event_fd (eventfd_write (event_fd p)) p) <$> ps r) r).

(** The compare-and-swap of [queued] from 0 to 1. *)
Definition vl_task_mark_queued (task : nat) : R bool :=
  t ← load_task task;
  if queued t then mret false else
  _ ← upd_task task (set_queued true);
  mret true.

Definition vl_task_enqueue_global_locked (task : option nat) : R unit :=
  match task with
  | None => mret tt
  | Some task =>
      t ← load_task task;
      if decide (state t = VL_TASK_RUNNABLE) then
        marked ← vl_task_mark_queued task;
        if marked : bool then vl_task_queue_push task else mret tt
      else mret tt
  end.

Definition vl_task_enqueue_local_locked (p : nat) (task : option nat) : R unit :=
  match task with
  | None => mret tt
  | Some task =>
      t ← load_task task;
      if decide (state t = VL_TASK_RUNNABLE) then
        marked ← vl_task_mark_queued task;
        if marked : bool then
          n ← gets worker_count;
          if (n =? 1)%nat || bool_decide (fiber t <> None) then vl_task_queue_push task else
          pushed ← on_run_queue p (vl_run_queue_owner_push (Some task));
          if decide (pushed = VL_OK) then bump_p_stat p local_pushes set_local_pushes 1
          else vl_task_queue_push task
        else mret tt
      else mret tt
  end.

Definition vl_task_wake_locked (task : option nat) : R unit :=
  match task with
  | None => mret tt
  | Some i =>
      t ← load_task i;
      if bool_decide (state t <> VL_TASK_WAITING) && bool_decide (state t <> VL_TASK_SLEEPING)
      then mret tt else
      if executing t then upd_task i (set_wake_pending true) else
      _ ← upd_task i (set_state VL_TASK_RUNNABLE);
      vl_task_enqueue_global_locked task
  end.

(** [if (x != 0) --x] on a counter. *)
Definition dec_guarded (get : vl_runtime_impl -> Z) (set : Z -> vl_runtime_impl -> vl_runtime_impl)
    : R unit :=
  modify (fun r => if get r =? 0 then r else set (w64 (get r - 1)) r).

Definition terminal (st : vl_task_state) : bool :=
  bool_decide (st = VL_TASK_DONE) || bool_decide (st = VL_TASK_CANCELLED).

Definition vl_task_is_terminal (task : option nat) : R bool :=
  match task with
  | None => mret (terminal VL_TASK_CANCELLED)
  | Some i => t ← load_task i; mret (terminal (state t))
  end.

(** The loop of [vl_task_cancel_all] from [task] along [all_next]. *)
Fixpoint cancel_from (fuel : nat) (task : option nat) : R unit :=
  match task with
  | None => mret tt
  | Some i =>
      match fuel with
      | O => ub
      | S fuel =>
          term ← vl_task_is_terminal task;
          t ← load_task i;
          _ ← (if negb term && negb (executing t) then
                 _ ← upd_task i (set_state VL_TASK_CANCELLED);
                 w ← gets io_waiting;
                 _ ← (if waiting_for_io t && negb (w =? 0) then
                        _ ← upd_task i (set_waiting_for_io false);
                        modify (fun r => set_io_waiting (w64 (io_waiting r - 1)) r)
                      else mret tt);
                 _ ← dec_guarded live_tasks set_live_tasks;
                 bump_stat cancelled set_cancelled 1
               else mret tt);
          cancel_from fuel (all_next t)
      end
  end.

Definition vl_task_cancel_all : R unit :=
  n ← gets (fun r => size (tasks r));
  first ← gets all_tasks;
  cancel_from n first.

(** ** context.c *)

Definition vl_current_p (th : thread) : option nat := th_p th.

(** [vl_tls_p->current] of the calling thread. *)
Definition vl_task_current (th : thread) : R (option nat) :=
  match vl_current_p th with
  | None => mret None
  | Some p => x ← load_p p; mret (current x)
  end.

Definition vl_context_set_current (p : option nat) (task : option nat) : R unit :=
  match p with
  | None => mret tt
  | Some p => upd_p p (set_current task)
  end.

Definition vl_task_prepare_park (th : thread) (st : vl_task_state) : R vl_status :=
  task ← vl_task_current th;
  match vl_current_p th, task with
  | Some p, Some i =>
      if bool_decide (st <> VL_TASK_WAITING) && bool_decide (st <> VL_TASK_SLEEPING)
      then mret VL_ERROR_INVALID_STATE else
      t ← load_task i;
      if bool_decide (state t <> VL_TASK_RUNNING) || negb (executing t)
      then mret VL_ERROR_INVALID_STATE else
      _ ← upd_task i (set_state st);
      _ ← bump_stat parks set_parks 1;
      _ ← bump_p_stat p p_parks set_p_parks 1;
      mret VL_OK
  | _, _ => mret VL_ERROR_INVALID_STATE
  end.

Definition vl_task_commit_park (th : thread) : R (outcome unit) :=
  task ← vl_task_current th;
  match task with
  | None => mret (Return tt)
  | Some _ => mret Suspend
  end.

(** ** task.c *)

(** [calloc] is the address it returned; it is fresh, or the allocator is broken. *)
Definition vl_spawn (th : thread) (fn_given : bool) (calloc : option nat) : R (option nat) :=
  if negb fn_given then mret None else
  owner ← gets (vl_runtime_is_owner th);
  if negb owner && bool_decide (vl_current_p th = None) then mret None else
  match calloc with
  | None => mret None
  | Some task =>
      stopping ← gets shutdown_requested;
      if stopping : bool then mret None else
      m ← gets tasks;
      if decide (m !! task = None) then
        first ← gets all_tasks;
        _ ← modify (fun r => set_tasks (<[task := set_all_next first new_task]> (tasks r)) r);
        _ ← modify (set_all_tasks (Some task));
        _ ← upd_task task (set_state VL_TASK_RUNNABLE);
        _ ← vl_task_enqueue_global_locked (Some task);
        _ ← modify (fun r => set_live_tasks (w64 (live_tasks r + 1)) r);
        _ ← bump_stat spawned set_spawned 1;
        _ ← vl_runtime_wake_workers;
        mret (Some task)
      else ub
  end.

Definition vl_yield (th : thread) : R (outcome unit) :=
  task ← vl_task_current th;
  match task with
  | None => mret (Return tt)
  | Some i =>
      t ← load_task i;
      if bool_decide (state t <> VL_TASK_RUNNING) || negb (executing t) then mret (Return tt) else
      _ ← upd_task i (set_state VL_TASK_RUNNABLE);
      _ ← bump_stat task_switches set_task_switches 1;
      mret Suspend
  end.

Definition vl_task_state_of (task : option nat) : R vl_task_state :=
  match task with
  | None => mret VL_TASK_CANCELLED
  | Some i => t ← load_task i; mret (state t)
  end.

(** Append [current] to the joiners of [task]. *)
Definition join_enqueue (task current : nat) : R unit :=
  _ ← upd_task current (set_waiting_on (Some task));
  _ ← upd_task current (set_waiter_next None);
  t ← load_task task;
  _ ← match waiters_tail t with
      | None => upd_task task (set_waiters_head (Some current))
      | Some tl => upd_task tl (set_waiter_next (Some current))
      end;
  upd_task task (set_waiters_tail (Some current)).

Definition vl_join (th : thread) (task : option nat) : R (outcome vl_status) :=
  match task with
  | None => mret (Return VL_ERROR_INVALID_ARGUMENT)
  | Some task =>
      t ← load_task task;
      if decide (state t = VL_TASK_DONE) then mret (Return VL_OK) else
      current ← vl_task_current th;
      match vl_current_p th, current with
      | Some p, Some cur =>
          if decide (cur = task) then mret (Return VL_ERROR_INVALID_STATE) else
          c ← load_task cur;
          if bool_decide (state t = VL_TASK_CANCELLED) || bool_decide (state c <> VL_TASK_RUNNING)
          then mret (Return VL_ERROR_INVALID_STATE) else
          _ ← upd_task cur (set_state VL_TASK_WAITING);
          _ ← join_enqueue task cur;
          _ ← bump_stat parks set_parks 1;
          _ ← bump_p_stat p p_parks set_p_parks 1;
          _ ← bump_stat task_switches set_task_switches 1;
          mret Suspend
      | _, _ => mret (Return VL_ERROR_INVALID_STATE)
      end
  end.

Definition vl_join_resumed (task : nat) : R vl_status :=
  t ← load_task task;
  mret (if decide (state t = VL_TASK_DONE) then VL_OK else VL_ERROR_INVALID_STATE).

(** The loop of [vl_task_complete_locked] from [waiter] along [waiter_next]. *)
Fixpoint wake_joiners (fuel : nat) (waiter : option nat) : R unit :=
  match waiter with
  | None => mret tt
  | Some i =>
      match fuel with
      | O => ub
      | S fuel =>
          t ← load_task i;
          _ ← upd_task i (set_waiter_next None);
          _ ← upd_task i (set_waiting_on None);
          _ ← vl_task_wake_locked waiter;
          wake_joiners fuel (waiter_next t)
      end
  end.

Definition vl_task_complete_locked (task : nat) : R unit :=
  t ← load_task task;
  n ← gets (fun r => size (tasks r));
  _ ← upd_task task (set_waiters_head None);
  _ ← upd_task task (set_waiters_tail None);
  _ ← wake_joiners n (waiters_head t);
  _ ← dec_guarded live_tasks set_live_tasks;
  bump_stat completed set_completed 1.

Definition vl_task_can_park_for_io (th : thread) (task : option nat) (io : option nat)
    : R vl_status :=
  cur ← vl_task_current th;
  match task, io, vl_current_p th with
  | Some i, Some drv, Some p =>
      if negb (p =? 0)%nat || bool_decide (cur <> task) then mret VL_ERROR_INVALID_STATE else
      t ← load_task i;
      if bool_decide (state t <> VL_TASK_RUNNING) || waiting_for_io t
      then mret VL_ERROR_INVALID_STATE else
      w ← gets io_waiting;
      d ← gets io_driver;
      if negb (w =? 0) && bool_decide (d <> io) then mret VL_ERROR_INVALID_STATE
      else mret VL_OK
  | _, _, _ => mret VL_ERROR_INVALID_STATE
  end.

Definition vl_task_park_for_io (th : thread) (task : option nat) (io : option nat)
    : R (outcome vl_status) :=
  can ← vl_task_can_park_for_io th task io;
  match can, task, vl_current_p th with
  | VL_OK, Some i, Some p =>
      _ ← modify (set_io_driver io);
      _ ← upd_task i (set_waiting_for_io true);
      _ ← upd_task i (set_state VL_TASK_WAITING);
      _ ← modify (fun r => set_io_waiting (w64 (io_waiting r + 1)) r);
      _ ← bump_stat parks set_parks 1;
      _ ← bump_p_stat p p_parks set_p_parks 1;
      _ ← bump_stat task_switches set_task_switches 1;
      mret Suspend
  | _, _, _ => mret (Return VL_ERROR_INVALID_STATE)
  end.

Definition vl_task_park_for_io_resumed (task : nat) : R vl_status :=
  t ← load_task task;
  mret (if decide (state t = VL_TASK_RUNNING) then VL_OK else VL_ERROR_INVALID_STATE).

Definition vl_task_complete_io (task : option nat) (completion_given : bool) : R vl_status :=
  match task, completion_given with
  | Some i, true =>
      t ← load_task i;
      w ← gets io_waiting;
      if bool_decide (state t <> VL_TASK_WAITING) || negb (waiting_for_io t) || (w =? 0)
      then mret VL_ERROR_INVALID_STATE else
      _ ← upd_task i (set_waiting_for_io false);
      _ ← modify (fun r => set_io_waiting (w64 (io_waiting r - 1)) r);
      _ ← modify (fun r => if io_waiting r =? 0 then set_io_driver None r else r);
      _ ← vl_task_wake_locked task;
      _ ← vl_runtime_wake_workers;
      mret VL_OK
  | _, _ => mret VL_ERROR_INVALID_STATE
  end.

(** Free every task on the [all_next] list. *)
Fixpoint free_from (fuel : nat) (task : option nat) : R unit :=
  match task with
  | None => mret tt
  | Some i =>
      match fuel with
      | O => ub
      | S fuel =>
          t ← load_task i;
          _ ← modify (fun r => set_tasks (delete i (tasks r)) r);
          free_from fuel (all_next t)
      end
  end.

Definition vl_runtime_destroy_tasks : R unit :=
  n ← gets (fun r => size (tasks r));
  first ← gets all_tasks;
  _ ← free_from n first;
  modify (set_all_tasks None).
