(* ===== verification/Timer.v ===== *)
(** * Timers (src/time/timer.c)

    A timer parks the task that arms it on the heap of the task's P until the
    deadline passes or another task cancels it.  A [vl_timer_t] is the pointer
    it holds ([None] for a NULL [timer] or a NULL [impl]); [now] is what
    [vl_runtime_now_ns] returned at that call. *)

From S2P Require Import Prelude Intrusive RunQueue TimerHeap RuntimeState Task.
From stdpp Require Import options.

(** A timer-heap operation on [&ps[p].timers]; the nodes are shared. *)
Definition on_timer_heap {A} (p : nat) (op : C timer_store A) : R A := fun r =>
  match ps r !! p with
  | None => None
  | Some x =>
      match op (mk_timer_store (timer_nodes r) (timers x)) with
      | Some (a, st) =>
          Some (a, set_timer_nodes (nodes st) (set_ps (<[p := set_timers (heap st) x]> (ps r)) r))
      | None => None
      end
  end.

Definition load_timer (i : nat) : R vl_timer_impl := deref (fun r => timer_impls r !! i).
Definition store_timer (i : nat) (v : vl_timer_impl) : R unit := fun r =>
  match timer_impls r !! i with
  | Some _ => Some (tt, set_timer_impls (<[i := v]> (timer_impls r)) r)
  | None => None
  end.
Definition load_timer_node (i : nat) : R vl_timer_node := deref (fun r => timer_nodes r !! i).
Definition upd_timer_node (i : nat) (f : vl_timer_node -> vl_timer_node) : R unit := fun r =>
  match timer_nodes r !! i with
  | Some n => Some (tt, set_timer_nodes (<[i := f n]> (timer_nodes r)) r)
  | None => None
  end.
Definition set_deadline (d : Z) (n : vl_timer_node) : vl_timer_node :=
  mk_timer_node d (heap_index n) (active n) (node_owner n).

Definition vl_timer_current (th : thread) : R (option (nat * nat)) :=
  task ← vl_task_current th;
  mret (match vl_current_p th, task with
        | Some p, Some i => Some (p, i)
        | _, _ => None
        end).

(** [impl] is what [timer->impl] holds, [calloc] the address calloc returned. *)
Definition vl_timer_init (impl : option nat) (calloc : option nat)
    : R (vl_status * option nat) :=
  match impl, calloc with
  | Some _, _ => mret (VL_ERROR_INVALID_ARGUMENT, impl)
  | None, None => mret (VL_ERROR_OUT_OF_MEMORY, None)
  | None, Some i =>
      m ← gets timer_impls;
      if decide (m !! i = None) then
        _ ← modify (fun r => set_timer_impls (<[i := mk_timer_impl None None]> (timer_impls r)) r);
        _ ← modify (fun r => set_timer_nodes (<[i := mk_timer_node 0 0 false i]> (timer_nodes r)) r);
        mret (VL_OK, Some i)
      else ub
  end.

Definition vl_timer_arm (th : thread) (timer : option nat) (delay_ns now : Z) (realloc_ok : bool)
    : R (outcome vl_status) :=
  cur ← vl_timer_current th;
  match timer, cur with
  | Some tm, Some (p, task) =>
      if UINT64_MAX - now <? delay_ns then mret (Return VL_ERROR_INVALID_ARGUMENT) else
      node ← load_timer_node tm;
      impl ← load_timer tm;
      t ← load_task task;
      if active node || bool_decide (ti_task impl <> None) ||
         bool_decide (state t <> VL_TASK_RUNNING) || negb (executing t)
      then mret (Return VL_ERROR_INVALID_STATE) else
      _ ← upd_task task (set_state VL_TASK_SLEEPING);
      _ ← upd_task task (set_timer_result VL_OK);
      _ ← store_timer tm (mk_timer_impl (Some task) (Some p));
      _ ← upd_timer_node tm (set_deadline (w64 (now + delay_ns)));
      result ← on_timer_heap p (vl_timer_heap_push realloc_ok (Some tm));
      if decide (result = VL_OK) then
        _ ← modify (fun r => set_timer_count (w64 (timer_count r + 1)) r);
        _ ← bump_stat parks set_parks 1;
        _ ← bump_p_stat p p_parks set_p_parks 1;
        mret Suspend
      else
        _ ← store_timer tm (mk_timer_impl None None);
        _ ← upd_task task (set_state VL_TASK_RUNNING);
        mret (Return result)
  | _, _ => mret (Return VL_ERROR_INVALID_STATE)
  end.

(** After [vl_task_commit_park] returns. *)
Definition vl_timer_arm_resumed (tm task : nat) : R vl_status :=
  t ← load_task task;
  _ ← store_timer tm (mk_timer_impl None None);
  mret (timer_result t).

Definition vl_timer_cancel (timer : option nat) : R vl_status :=
  match timer with
  | None => mret VL_ERROR_INVALID_ARGUMENT
  | Some tm =>
      node ← load_timer_node tm;
      impl ← load_timer tm;
      match active node, ti_p impl, ti_task impl with
      | true, Some p, Some task =>
          _ ← on_timer_heap p (vl_timer_heap_remove (Some tm));
          _ ← store_timer tm (mk_timer_impl None None);
          _ ← dec_guarded timer_count set_timer_count;
          _ ← upd_task task (set_timer_result VL_ERROR_CANCELLED);
          _ ← vl_task_wake_locked (Some task);
          _ ← vl_runtime_wake_workers;
          mret VL_OK
      | _, _, _ => mret VL_ERROR_INVALID_STATE
      end
  end.

(** Returns the status and the new value of [timer->impl]. *)
Definition vl_timer_destroy (timer : option nat) : R (vl_status * option nat) :=
  match timer with
  | None => mret (VL_ERROR_INVALID_ARGUMENT, None)
  | Some tm =>
      node ← load_timer_node tm;
      impl ← load_timer tm;
      if active node || bool_decide (ti_task impl <> None)
      then mret (VL_ERROR_INVALID_STATE, timer) else
      _ ← modify (fun r => set_timer_impls (delete tm (timer_impls r)) r);
      _ ← modify (fun r => set_timer_nodes (delete tm (timer_nodes r)) r);
      mret (VL_OK, None)
  end.

(** [vl_sleep_ns] up to the point where its timer parks the task, with the timer
    it parks on. *)
Definition vl_sleep_ns (th : thread) (delay_ns now : Z) (calloc : option nat) (realloc_ok : bool)
    : R (outcome vl_status * option nat) :=
  match vl_current_p th with
  | None => mret (Return VL_ERROR_INVALID_STATE, None)
  | Some _ =>
      init ← vl_timer_init None calloc;
      match init with
      | (VL_OK, timer) =>
          armed ← vl_timer_arm th timer delay_ns now realloc_ok;
          match armed with
          | Suspend => mret (Suspend, timer)
          | Return result => _ ← vl_timer_destroy timer; mret (Return result, None)
          end
      | (failed, timer) => mret (Return failed, timer)
      end
  end.

Definition vl_sleep_ns_resumed (timer task : nat) : R vl_status :=
  result ← vl_timer_arm_resumed timer task;
  _ ← vl_timer_destroy (Some timer);
  mret result.

(** The loop of [vl_timers_expire]; it pops a node per turn, so the length of
    the heap is enough fuel. *)
Fixpoint expire_loop (fuel : nat) (p : nat) (now_ns : Z) : R unit :=
  first ← on_timer_heap p vl_timer_heap_peek;
  match first with
  | None => mret tt
  | Some top_node =>
      n ← load_timer_node top_node;
      if deadline_ns n <=? now_ns then
        match fuel with
        | O => ub
        | S fuel =>
            popped ← on_timer_heap p vl_timer_heap_pop;
            match popped with
            | None => ub
            | Some id =>
                node ← load_timer_node id;
                let tm := node_owner node in
                impl ← load_timer tm;
                _ ← store_timer tm (mk_timer_impl None None);
                _ ← dec_guarded timer_count set_timer_count;
                _ ← match ti_task impl with
                    | None => mret tt
                    | Some task =>
                        _ ← upd_task task (set_timer_result VL_OK);
                        vl_task_wake_locked (Some task)
                    end;
                expire_loop fuel p now_ns
            end
        end
      else mret tt
  end.

Definition vl_timers_expire (p : nat) (now_ns : Z) : R unit :=
  x ← load_p p;
  expire_loop (length (items (timers x))) p now_ns.

Definition vl_timers_timeout_ms (p : option nat) (now : Z) : R Z :=
  match p with
  | None => mret (-1)
  | Some p =>
      first ← on_timer_heap p vl_timer_heap_peek;
      match first with
      | None => mret 0
      | Some id =>
          node ← load_timer_node id;
          if deadline_ns node <=? now then mret 0 else
          let remaining := w64 (deadline_ns node - now) in
          if INT_MAX <=? remaining / 1000000 then mret INT_MAX
          else mret (w64 (remaining + 999999) / 1000000)
      end
  end.
