(* ===== verification/Worker.v ===== *)
(** * Workers (src/runtime/worker.c)

    A worker is the thread of one P.  Its functions are modelled as the
    sequence of critical sections the code goes through; [Scheduler.v] interleaves
    these sections of all workers.  The fiber of a task is the environment: what
    [vl_fiber_create] and [vl_fiber_resume] returned is an argument. *)

From S2P Require Import Prelude Intrusive RunQueue TimerHeap RuntimeState Task Timer.
From stdpp Require Import options.

Definition VL_STEAL_BATCH_MAX : nat := 8.

(** [read] on a nonblocking eventfd resets its counter. *)
Definition vl_worker_drain_eventfd (p : nat) : R unit := upd_p p (set_event_fd 0).

(** First loop of [vl_worker_take_global]: look at each of the [n] queued tasks
    once for one that this P may run. *)
Fixpoint take_candidate (n : nat) (p : nat) : R (option nat) :=
  match n with
  | O => mret None
  | S n =>
      candidate ← vl_task_queue_pop;
      match candidate with
      | None => ub
      | Some i =>
          t ← load_task i;
          if bool_decide (fiber t = None) || bool_decide (last_p t = Some p) then
            _ ← upd_task i (set_queued false);
            mret (Some i)
          else
            _ ← vl_task_queue_push i;
            take_candidate n p
      end
  end.

(** Second loop: move unstarted tasks to the P's own queue; returns [pulled]. *)
Fixpoint pull_extras (n : nat) (p : nat) (pulled : nat) : R nat :=
  match n with
  | O => mret pulled
  | S n =>
      workers ← gets worker_count;
      if (1 <? workers)%nat && (pulled <? VL_STEAL_BATCH_MAX)%nat then
        extra ← vl_task_queue_pop;
        match extra with
        | None => ub
        | Some i =>
            t ← load_task i;
            if bool_decide (fiber t <> None) then
              _ ← vl_task_queue_push i;
              pull_extras n p pulled
            else
              pushed ← on_run_queue p (vl_run_queue_owner_push (Some i));
              if decide (pushed = VL_OK) then
                _ ← bump_p_stat p local_pushes set_local_pushes 1;
                pull_extras n p (S pulled)
              else
                _ ← vl_task_queue_push i;
                mret pulled
        end
      else mret pulled
  end.

Definition vl_worker_take_global (p : nat) : R (option nat) :=
  candidates ← gets (fun r => q_length (global_runnable r));
  task ← take_candidate (Z.to_nat candidates) p;
  candidates ← gets (fun r => q_length (global_runnable r));
  pulled ← pull_extras (Z.to_nat candidates) p (match task with Some _ => 1%nat | None => 0%nat end);
  _ ← bump_p_stat p global_pulls set_global_pulls (Z.of_nat pulled);
  mret task.

(** One victim: count the attempt and take a batch. *)
Definition steal_from (p victim : nat) : R (list nat) :=
  _ ← bump_p_stat p steal_attempts set_steal_attempts 1;
  on_run_queue victim (vl_run_queue_steal_batch VL_STEAL_BATCH_MAX).

(** Keep all but the first of a stolen batch. *)
Fixpoint keep_stolen (p : nat) (items : list nat) : R unit :=
  match items with
  | [] => mret tt
  | i :: items =>
      pushed ← on_run_queue p (vl_run_queue_owner_push (Some i));
      _ ← (if decide (pushed = VL_OK) then bump_p_stat p local_pushes set_local_pushes 1
           else vl_task_queue_push i);
      keep_stolen p items
  end.

Definition steal_commit (p first : nat) (rest : list nat) : R nat :=
  let count := Z.of_nat (S (length rest)) in
  _ ← bump_p_stat p p_steals set_p_steals count;
  _ ← bump_stat steals set_steals count;
  _ ← keep_stolen p rest;
  _ ← upd_task first (set_queued false);
  mret first.

(** The loop over [offset]; [remaining] counts the victims that remain. *)
Fixpoint steal_loop (remaining offset p : nat) : R (option nat) :=
  match remaining with
  | O => mret None
  | S remaining =>
      n ← gets worker_count;
      items ← steal_from p ((p + offset) mod n)%nat;
      match items with
      | [] => steal_loop remaining (S offset) p
      | first :: rest => task ← steal_commit p first rest; mret (Some task)
      end
  end.

Definition vl_worker_steal (p : nat) : R (option nat) :=
  n ← gets worker_count;
  steal_loop (n - 1) 1 p.

(** Pop from the P's own queue. *)
Definition take_local (p : nat) : R (option nat) :=
  task ← on_run_queue p vl_run_queue_owner_pop;
  match task with
  | None => mret None
  | Some i => _ ← upd_task i (set_queued false); mret (Some i)
  end.

Definition vl_worker_next_task (p : nat) : R (option nat) :=
  task ← take_local p;
  match task with
  | Some _ => mret task
  | None =>
      task ← vl_worker_take_global p;
      match task with
      | Some _ => mret task
      | None => vl_worker_steal p
      end
  end.

Definition vl_worker_stop_run_locked (status : vl_status) : R unit :=
  modify (fun r => if running r then set_running false (set_run_status status r) else r).

(** [state = CANCELLED] with the counters that go with it. *)
Definition cancel_task (task : nat) : R unit :=
  _ ← upd_task task (set_state VL_TASK_CANCELLED);
  _ ← dec_guarded live_tasks set_live_tasks;
  bump_stat cancelled set_cancelled 1.

Inductive entered := Skip | CancelledBeforeResume | Entered.

(** First critical section of [vl_worker_execute]. *)
Definition execute_enter (p task : nat) : R entered :=
  t ← load_task task;
  run ← gets running;
  if bool_decide (state t <> VL_TASK_RUNNABLE) || negb run then mret Skip else
  stopping ← gets shutdown_requested;
  if stopping : bool then
    _ ← cancel_task task;
    mret CancelledBeforeResume
  else
    _ ← upd_task task (set_executing true);
    _ ← upd_task task (set_last_p (Some p));
    _ ← upd_task task (set_state VL_TASK_RUNNING);
    _ ← modify (fun r => set_active_workers (w64 (active_workers r + 1)) r);
    mret Entered.

(** The branch [cancelled_before_resume]. *)
Definition execute_cancelled : R unit :=
  live ← gets live_tasks;
  _ ← (if live =? 0 then vl_worker_stop_run_locked VL_OK else mret tt);
  vl_runtime_wake_workers.

(** Give the task a fiber on this P if it has none; [created] is the status of
    [vl_fiber_create].  On success the worker is ready to resume it. *)
Definition execute_prepare (p task : nat) (created : vl_status) : R vl_status :=
  t ← load_task task;
  status ← match fiber t with
           | Some _ => mret VL_OK
           | None =>
               _ ← (if decide (created = VL_OK) then upd_task task (set_fiber (Some p)) else mret tt);
               mret created
           end;
  if decide (status = VL_OK) then
    _ ← bump_stat task_switches set_task_switches 1;
    _ ← vl_context_set_current (Some p) (Some task);
    mret VL_OK
  else mret status.

(** What the last critical section of [vl_worker_execute] does with the task,
    from the status of the resume and whether the fiber is done. *)
Definition execute_settle (p task : nat) (resume_status : vl_status) (fiber_done : bool) : R unit :=
  t ← load_task task;
  if decide (resume_status <> VL_OK) then
    _ ← cancel_task task;
    upd_task task (set_fiber None)
  else if fiber_done then
    _ ← upd_task task (set_state VL_TASK_DONE);
    _ ← vl_task_complete_locked task;
    upd_task task (set_fiber None)
  else
    let woken := wake_pending t &&
      (bool_decide (state t = VL_TASK_WAITING) || bool_decide (state t = VL_TASK_SLEEPING)) in
    _ ← (if woken then
           _ ← upd_task task (set_wake_pending false);
           upd_task task (set_state VL_TASK_RUNNABLE)
         else mret tt);
    let task_state := if woken then VL_TASK_RUNNABLE else state t in
    if decide (task_state = VL_TASK_RUNNABLE) then vl_task_enqueue_local_locked p (Some task)
    else if decide (task_state = VL_TASK_RUNNING) then
      _ ← cancel_task task;
      upd_task task (set_fiber None)
    else mret tt.

(** Last critical section of [vl_worker_execute]. *)
Definition execute_leave (p task : nat) (resume_status : vl_status) (fiber_done : bool) : R unit :=
  _ ← upd_task task (set_executing false);
  _ ← modify (fun r => set_active_workers (w64 (active_workers r - 1)) r);
  _ ← bump_p_stat p executed set_executed 1;
  _ ← execute_settle p task resume_status fiber_done;
  live ← gets live_tasks;
  _ ← (if live =? 0 then vl_worker_stop_run_locked VL_OK else mret tt);
  vl_runtime_wake_workers.

(** The whole function; [resume] is the run of the task's code between
    [vl_fiber_resume] and its return, with the status it returned and whether the
    fiber is done. *)
Definition vl_worker_execute (p task : nat) (created : vl_status) (resume : R (vl_status * bool))
    : R unit :=
  e ← execute_enter p task;
  match e with
  | Skip => mret tt
  | CancelledBeforeResume => execute_cancelled
  | Entered =>
      status ← execute_prepare p task created;
      result ← (if decide (status = VL_OK) then
                  result ← resume;
                  _ ← vl_context_set_current (Some p) None;
                  mret result
                else mret (status, false));
      execute_leave p task (fst result) (snd result)
  end.

(** [vl_io_poll] on the runtime's driver: a parameter until the I/O layer is
    in scope. *)
Definition vl_worker_poll_io (vl_io_poll : nat -> R vl_status) (p : nat) : R vl_status :=
  if negb (p =? 0)%nat then mret VL_ERROR_WOULD_BLOCK else
  w ← gets io_waiting;
  d ← gets io_driver;
  match (if w =? 0 then None else d) with
  | Some io => vl_io_poll io
  | None => mret VL_ERROR_WOULD_BLOCK
  end.

(** First critical section of [vl_worker_idle]; [None] is its early return,
    otherwise [should_wait] and the timeout for [poll]. *)
Definition idle_enter (p : nat) (now : Z) : R (option (bool * Z)) :=
  run ← gets running;
  if negb run then mret None else
  x ← load_p p;
  _ ← (if idle x then mret tt else
       _ ← upd_p p (set_idle true);
       _ ← modify (fun r => set_idle_workers (w64 (idle_workers r + 1)) r);
       bump_p_stat p p_parks set_p_parks 1);
  r ← gets id;
  _ ← (if (idle_workers r =? Z.of_nat (worker_count r)) &&
          (q_length (global_runnable r) =? 0) && negb (live_tasks r =? 0) &&
          (timer_count r =? 0) && (io_waiting r =? 0) then
         let local_work := existsb (fun x => negb (vl_run_queue_length (runnable x) =? 0)) (ps r) in
         if negb local_work then vl_worker_stop_run_locked VL_ERROR_INVALID_STATE else mret tt
       else mret tt);
  should_wait ← gets running;
  timeout ← vl_timers_timeout_ms (Some p) now;
  w ← gets io_waiting;
  let timeout := if negb (w =? 0) && (p =? 0)%nat && ((timeout <? 0) || (10 <? timeout))
                 then 10 else timeout in
  mret (Some (should_wait, timeout)).

(** Last critical section of [vl_worker_idle]. *)
Definition idle_leave (p : nat) : R unit :=
  x ← load_p p;
  if idle x then
    _ ← upd_p p (set_idle false);
    dec_guarded idle_workers set_idle_workers
  else mret tt.

Definition vl_worker_idle (p : nat) (now : Z) : R unit :=
  e ← idle_enter p now;
  match e with
  | None => mret tt
  | Some (should_wait, _) =>
      _ ← (if should_wait : bool then vl_worker_drain_eventfd p else vl_runtime_wake_workers);
      idle_leave p
  end.

(** Destroy the suspended fibers this P created; the list is [all_next]. *)
Fixpoint destroy_fibers_from (fuel : nat) (p : nat) (task : option nat) : R unit :=
  match task with
  | None => mret tt
  | Some i =>
      match fuel with
      | O => ub
      | S fuel =>
          t ← load_task i;
          _ ← (if bool_decide (fiber t <> None) && bool_decide (last_p t = Some p)
               then upd_task i (set_fiber None) else mret tt);
          destroy_fibers_from fuel p (all_next t)
      end
  end.

Definition vl_worker_destroy_owned_fibers (p : nat) : R unit :=
  n ← gets (fun r => size (tasks r));
  first ← gets all_tasks;
  destroy_fibers_from n p first.
