(* ===== verification/Scheduler.v ===== *)
(** * The runtime's entry points and its interleaved execution
    (src/runtime/scheduler.c, worker.c)

    [system] puts one program counter per worker next to the runtime's state.  A
    step is one critical section of a worker, one operation of a running task, or
    one operation of a thread outside the runtime; between two steps any other
    worker may run.  Operations on a P's own run queue are single steps here:
    [RunQueue.Interleaved] splits them further. *)

From S2P Require Import Prelude Intrusive RunQueue TimerHeap RuntimeState Task Timer Worker.
From stdpp Require Import options.

(** ** scheduler.c: statistics, run and shutdown requests *)

Definition vl_runtime_runnable_count (r : vl_runtime_impl) : Z :=
  fold_left (fun count x => w64 (count + vl_run_queue_length (runnable x))) (ps r)
    (q_length (global_runnable r)).

(** The runtime counters together with [runnable] and [worker_count]. *)
Definition vl_runtime_get_stats (r : vl_runtime_impl) : vl_runtime_stats * Z * Z :=
  (stats r, vl_runtime_runnable_count r, Z.of_nat (worker_count r)).

Definition vl_runtime_get_p_stats (p_index : nat) (out_given : bool) (r : vl_runtime_impl)
    : vl_status * option vl_runtime_p_stats :=
  match ps r !! p_index, out_given with
  | Some x, true => (VL_OK, Some (p_stats x))
  | _, _ => (VL_ERROR_INVALID_ARGUMENT, None)
  end.

(** [vl_runtime_run] up to the call of [vl_worker_run]: [Return] with its early
    result, or [Suspend] when P0 goes on to its worker loop. *)
Definition vl_runtime_run_begin (th : thread) : R (outcome vl_status) :=
  owner ← gets (vl_runtime_is_owner th);
  if negb owner || bool_decide (vl_current_p th <> None)
  then mret (Return VL_ERROR_INVALID_STATE) else
  run ← gets running;
  if run : bool then mret (Return VL_ERROR_INVALID_STATE) else
  live ← gets live_tasks;
  if live =? 0 then mret (Return VL_OK) else
  _ ← modify (set_run_status VL_OK);
  _ ← modify (set_idle_workers 0);
  _ ← modify (set_running true);
  _ ← vl_runtime_wake_workers;
  mret Suspend.

(** The rest of [vl_runtime_run], once no worker is executing a task. *)
Definition vl_runtime_run_finish : R vl_status :=
  status ← gets run_status;
  stopping ← gets shutdown_requested;
  if stopping : bool then _ ← vl_task_cancel_all; mret VL_OK
  else mret status.

Definition vl_runtime_request_shutdown : R unit :=
  _ ← modify (set_shutdown_requested true);
  _ ← modify (set_running false);
  vl_runtime_wake_workers.

(** ** Workers as processes *)

Inductive worker_pc :=
  | W_out                                    (* not inside vl_worker_run *)
  | W_join                                   (* P0 waits for active_workers == 0 *)
  | W_top                                    (* the test of the worker loop *)
  | W_expire                                 (* vl_timers_expire *)
  | W_local | W_global | W_steal (offset : nat)        (* vl_worker_next_task *)
  | W_stolen (first : nat) (rest : list nat)           (* a batch in the worker's hands *)
  | W_have (task : nat)                      (* about to execute [task] *)
  | W_cancelled                              (* vl_worker_execute, cancelled_before_resume *)
  | W_prepare (task : nat)                   (* before the fiber is created and resumed *)
  | W_running (task : nat)                   (* the task's code runs *)
  | W_leave (task : nat) (status : vl_status) (done : bool)   (* the resume has returned *)
  | W_idle | W_wait (should_wait : bool).    (* vl_worker_idle, before and at poll *)

(** [skipped] is history, not state: the runnable tasks a worker took from a queue and
    then did not execute, because it found the runtime not running. *)
Record system := mk_system {
  rt : vl_runtime_impl;
  pcs : list worker_pc;
  skipped : list nat }.

Definition pc_at (l : list worker_pc) (p : nat) : worker_pc := default W_out (l !! p).

(** What the clock and the fiber layer answer in a step. *)
Record input := mk_input { now : Z; created : vl_status; resumed : vl_status }.

Definition goto (p : nat) (pc : worker_pc) (s : system) (r : vl_runtime_impl) : option system :=
  Some (mk_system r (<[p := pc]> (pcs s)) (skipped s)).

(** Run [m], then go to [k] of its result. *)
Definition then_goto {A} (p : nat) (m : R A) (k : A -> worker_pc) (s : system) : option system :=
  match m (rt s) with
  | Some (a, r) => goto p (k a) s r
  | None => None
  end.

Definition have_or (task : option nat) (pc : worker_pc) : worker_pc :=
  match task with Some t => W_have t | None => pc end.

Definition worker_step (p : nat) (inp : input) (s : system) : option system :=
  let r := rt s in
  match pcs s !! p with
  | None | Some (W_running _) => None
  | Some W_out =>
      if negb (p =? 0)%nat && running r
      then then_goto p (vl_context_set_current (Some p) None) (fun _ => W_top) s else None
  | Some W_join =>
      if active_workers r =? 0 then then_goto p vl_runtime_run_finish (fun _ => W_out) s else None
  | Some W_top =>
      if running r then goto p W_expire s r
      else goto p (if (p =? 0)%nat then W_join else W_out) s r
  | Some W_expire => then_goto p (vl_timers_expire p (now inp)) (fun _ => W_local) s
  | Some W_local => then_goto p (take_local p) (fun t => have_or t W_global) s
  | Some W_global => then_goto p (vl_worker_take_global p) (fun t => have_or t (W_steal 1)) s
  | Some (W_steal offset) =>
      if (offset <? worker_count r)%nat then
        then_goto p (steal_from p ((p + offset) mod worker_count r)%nat)
          (fun items => match items with
                        | [] => W_steal (S offset)
                        | first :: rest => W_stolen first rest
                        end) s
      else goto p W_idle s r
  | Some (W_stolen first rest) => then_goto p (steal_commit p first rest) W_have s
  | Some (W_have task) =>
      match execute_enter p task r with
      | Some (Skip, r) =>
          Some (mk_system r (<[p := W_top]> (pcs s))
            (if decide (state <$> tasks r !! task = Some VL_TASK_RUNNABLE)
             then task :: skipped s else skipped s))
      | Some (CancelledBeforeResume, r) => goto p W_cancelled s r
      | Some (Entered, r) => goto p (W_prepare task) s r
      | None => None
      end
  | Some W_cancelled => then_goto p execute_cancelled (fun _ => W_top) s
  | Some (W_prepare task) =>
      then_goto p
        (status ← execute_prepare p task (created inp);
         if bool_decide (status = VL_OK) && bool_decide (resumed inp <> VL_OK) then
           _ ← vl_context_set_current (Some p) None;
           mret (resumed inp)
         else mret status)
        (fun st => if decide (st = VL_OK) then W_running task else W_leave task st false) s
  | Some (W_leave task st done) => then_goto p (execute_leave p task st done) (fun _ => W_top) s
  | Some W_idle =>
      then_goto p (idle_enter p (now inp))
        (fun e => match e with None => W_top | Some (sw, _) => W_wait sw end) s
  | Some (W_wait sw) =>
      then_goto p
        (_ ← (if sw : bool then vl_worker_drain_eventfd p else vl_runtime_wake_workers);
         idle_leave p) (fun _ => W_top) s
  end.

(** What the code of a running task may do. *)
Inductive task_op :=
  | Op_spawn (fn_given : bool) (calloc : option nat)
  | Op_yield
  | Op_join (task : option nat)
  | Op_prepare_park (st : vl_task_state)
  | Op_arm (timer : option nat) (delay now : Z) (realloc_ok : bool)
  | Op_park_io (task io : option nat)
  | Op_suspend                    (* vl_task_commit_park, or vl_fiber_yield itself *)
  | Op_return.                    (* the task function returns *)

(** The operation, and whether the fiber gives control back. *)
Definition run_op (th : thread) (op : task_op) : R (outcome unit) :=
  let stay {A} (m : R A) : R (outcome unit) := _ ← m; mret (Return tt) in
  let park {A} (m : R (outcome A)) : R (outcome unit) :=
    o ← m; mret (match o with Return _ => Return tt | Suspend => Suspend end) in
  match op with
  | Op_spawn fn calloc => stay (vl_spawn th fn calloc)
  | Op_yield => park (vl_yield th)
  | Op_join task => park (vl_join th task)
  | Op_prepare_park st => stay (vl_task_prepare_park th st)
  | Op_arm timer delay now ok => park (vl_timer_arm th timer delay now ok)
  | Op_park_io task io => park (vl_task_park_for_io th task io)
  | Op_suspend | Op_return => mret Suspend
  end.

Definition is_return (op : task_op) : bool := match op with Op_return => true | _ => false end.

Definition task_step (p : nat) (op : task_op) (s : system) : option system :=
  match pcs s !! p with
  | Some (W_running task) =>
      then_goto p
        (o ← run_op (mk_thread 0 (Some p)) op;
         match o with
         | Return _ => mret true
         | Suspend => _ ← vl_context_set_current (Some p) None; mret false
         end)
        (fun stays : bool => if stays then W_running task else W_leave task VL_OK (is_return op)) s
  | _ => None
  end.

(** What any thread may do, running tasks included: the synchronisation
    objects and the I/O layer wake tasks and write the fields a task waits on. *)
Inductive external_op :=
  | X_spawn (th : thread) (fn_given : bool) (calloc : option nat)
  | X_wake (task : nat)
  | X_wait_fields (task : nat) (next : option nat) (value : Z) (output : option nat) (result : vl_status)
  | X_complete_io (task : option nat)
  | X_timer_init (calloc : option nat) | X_timer_cancel (timer : option nat)
  | X_timer_resumed (timer task : nat) | X_timer_destroy (timer : option nat)
  | X_request_shutdown
  | X_run (th : thread).

Definition run_external (op : external_op) : R (outcome unit) :=
  let stay {A} (m : R A) : R (outcome unit) := _ ← m; mret (Return tt) in
  match op with
  | X_spawn th fn calloc => stay (vl_spawn th fn calloc)
  | X_wake i => stay (vl_task_wake_locked (Some i))
  | X_wait_fields i n v o res =>
      stay (upd_task i (fun t => set_waiter_next n (set_wait_value v (set_wait_output o (set_wait_result res t)))))
  | X_complete_io i => stay (vl_task_complete_io i true)
  | X_timer_init calloc => stay (vl_timer_init None calloc)
  | X_timer_cancel timer => stay (vl_timer_cancel timer)
  | X_timer_resumed timer task => stay (vl_timer_arm_resumed timer task)
  | X_timer_destroy timer => stay (vl_timer_destroy timer)
  | X_request_shutdown => stay vl_runtime_request_shutdown
  | X_run th => o ← vl_runtime_run_begin th; mret (match o with Return _ => Return tt | Suspend => Suspend end)
  end.

(** Only [X_run] answers [Suspend]: P0 enters its loop, so the owner thread must
    not be inside a run already. *)
Definition external_step (op : external_op) (s : system) : option system :=
  match run_external op (rt s) with
  | Some (Return _, r) => Some (mk_system r (pcs s) (skipped s))
  | Some (Suspend, r) =>
      match pcs s !! 0%nat with
      | Some W_out => goto 0 W_top s r
      | _ => None
      end
  | None => None
  end.

Inductive label :=
  | L_worker (p : nat) (inp : input) | L_task (p : nat) (op : task_op) | L_external (op : external_op).

Definition step (l : label) (s : system) : option system :=
  match l with
  | L_worker p inp => worker_step p inp s
  | L_task p op => task_step p op s
  | L_external op => external_step op s
  end.

(** A runtime as [vl_runtime_init_with_config] leaves it, every worker waiting. *)
Definition VL_P_RUN_QUEUE_CAPACITY : Z := 1024.
Definition VL_RUNTIME_MAX_WORKERS : Z := 64.

Definition initial_p (p : nat) : vl_p :=
  mk_p (fresh_queue VL_P_RUN_QUEUE_CAPACITY) 0 (0 <? p)%nat VL_OK false None
    (mk_p_stats 0 0 0 0 0 0) (mk_timer_heap [] false 0).

Definition initial_runtime (workers owner : nat) : vl_runtime_impl :=
  mk_runtime empty_queue None ∅ (initial_p <$> seq 0 workers) owner (Z.of_nat workers - 1) 0 0 0 0 None 0
    false VL_OK false false (mk_stats 0 0 0 0 0 0) ∅ ∅ ∅.

Definition initial (workers owner : nat) : system :=
  mk_system (initial_runtime workers owner) (replicate workers W_out) [].

(** [s] is reachable in [n] steps. *)
Inductive reachable (workers owner : nat) : nat -> system -> Prop :=
  | reach_init : reachable workers owner 0 (initial workers owner)
  | reach_step n l s s' :
      reachable workers owner n s -> step l s = Some s' -> reachable workers owner (S n) s'.

Fixpoint run_labels (ls : list label) (s : system) : option system :=
  match ls with
  | [] => Some s
  | l :: ls => s' ← step l s; run_labels ls s'
  end.
