(* ===== verification/SchedulerFrames.v ===== *)
(** * Fields of the runtime an operation leaves alone

    [running] and [shutdown_requested] are written by a handful of operations only.
    A field is a [Bystander] when it is none of the fields the task, timer and queue
    operations write; [frames] says that an operation leaves it alone. *)

From S2P Require Import Prelude Intrusive RunQueue TimerHeap RuntimeState Task Timer Worker Scheduler.
From stdpp Require Import options.

Class Bystander {X} (f : vl_runtime_impl -> X) : Prop := {
  by_global : forall v r, f (set_global_runnable v r) = f r;
  by_all : forall v r, f (set_all_tasks v r) = f r;
  by_tasks : forall v r, f (set_tasks v r) = f r;
  by_ps : forall v r, f (set_ps v r) = f r;
  by_live : forall v r, f (set_live_tasks v r) = f r;
  by_active : forall v r, f (set_active_workers v r) = f r;
  by_idle : forall v r, f (set_idle_workers v r) = f r;
  by_timer_count : forall v r, f (set_timer_count v r) = f r;
  by_io_driver : forall v r, f (set_io_driver v r) = f r;
  by_io_waiting : forall v r, f (set_io_waiting v r) = f r;
  by_stats : forall v r, f (set_stats v r) = f r;
  by_nodes : forall v r, f (set_timer_nodes v r) = f r;
  by_impls : forall v r, f (set_timer_impls v r) = f r }.

#[export] Instance running_bystander : Bystander running.
Proof. by split. Qed.
#[export] Instance run_status_bystander : Bystander run_status.
Proof. by split. Qed.
#[export] Instance shutdown_bystander : Bystander shutdown_requested.
Proof. by split. Qed.

Definition frames {X A} (f : vl_runtime_impl -> X) (m : R A) : Prop :=
  forall r a r', m r = Some (a, r') -> f r' = f r.

Create HintDb frames.

Section Frames.
  #[local] Set Default Proof Using "Type".
  Context {X : Type} {f : vl_runtime_impl -> X} `{!Bystander f}.

Lemma frames_bind {A B} (m : R A) (k : A -> R B) :
  frames f m -> (forall a, frames f (k a)) -> frames f (m ≫= k).
Proof. intros Hm Hk r a r' (b & r1 & E1 & E2)%bind_inv. apply Hm in E1 as <-. by eapply Hk. Qed.

Lemma frames_ret {A} (a : A) : frames f (mret a).
Proof. intros r b r' E. by minv. Qed.

Lemma frames_gets {A} (g : vl_runtime_impl -> A) : frames f (gets g).
Proof. intros r b r' E. by minv. Qed.

Lemma frames_load i : frames f (load_task i).
Proof. intros r b r' E. by minv. Qed.

Lemma frames_load_p i : frames f (load_p i).
Proof. intros r b r' E. by minv. Qed.

Lemma frames_deref {A} (g : vl_runtime_impl -> option A) : frames f (deref g).
Proof. intros r b r' E. unfold deref in E. by case_match; simplify_eq. Qed.

Lemma frames_ub {A} : frames f (ub (A := A)).
Proof. by intros r b r'. Qed.

Lemma frames_upd i g : frames f (upd_task i g).
Proof using Type*. intros r b r' (t & _ & ->)%upd_task_inv. apply by_tasks. Qed.

Lemma frames_upd_p p g : frames f (upd_p p g).
Proof using Type*. intros r b r' (t & _ & ->)%upd_p_inv. apply by_ps. Qed.

Lemma frames_modify g : (forall r, f (g r) = f r) -> frames f (modify g).
Proof. intros Hg r b r' ->%modify_inv. apply Hg. Qed.

Lemma frames_push i : frames f (vl_task_queue_push i).
Proof using Type*.
  intros r b r' E. unfold vl_task_queue_push in E. destruct (iq_push _ _ _ _) as [[]|]; simplify_eq.
  by rewrite by_global, by_tasks.
Qed.

Lemma frames_pop : frames f vl_task_queue_pop.
Proof using Type*.
  intros r b r' E. unfold vl_task_queue_pop in E. destruct (iq_pop _ _ _) as [[[] ?]|]; simplify_eq.
  by rewrite by_global, by_tasks.
Qed.

Lemma frames_queue {A} p (op : C vl_run_queue A) : frames f (on_run_queue p op).
Proof using Type*.
  intros r b r' E. unfold on_run_queue in E. destruct (ps r !! p); [|done].
  destruct (op _) as [[]|]; simplify_eq. apply by_ps.
Qed.

Lemma frames_timer_heap {A} p (op : C timer_store A) : frames f (on_timer_heap p op).
Proof using Type*.
  intros r b r' E. unfold on_timer_heap in E. destruct (ps r !! p); [|done].
  destruct (op _) as [[]|]; simplify_eq. by rewrite by_nodes, by_ps.
Qed.

Lemma frames_store_timer i v : frames f (store_timer i v).
Proof using Type*. intros r b r' E. unfold store_timer in E. case_match; simplify_eq. apply by_impls. Qed.

Lemma frames_upd_node i v : frames f (upd_timer_node i v).
Proof using Type*. intros r b r' E. unfold upd_timer_node in E. case_match; simplify_eq. apply by_nodes. Qed.

End Frames.

#[export] Hint Resolve running_bystander run_status_bystander shutdown_bystander : frames.
#[export] Hint Resolve frames_ret frames_gets frames_load frames_load_p frames_deref frames_ub frames_upd
  frames_upd_p frames_push frames_pop frames_queue frames_timer_heap frames_store_timer frames_upd_node : frames.

Ltac frames_solve :=
  unfold bump_stat, bump_p_stat, dec_guarded, load_timer, load_timer_node;
  repeat first [progress (intros; cbn beta zeta) | solve [auto with frames nocore]
    | apply frames_bind
    | apply frames_modify; intros; repeat case_match;
      rewrite ?by_global, ?by_all, ?by_tasks, ?by_ps, ?by_live, ?by_active, ?by_idle, ?by_timer_count,
        ?by_io_driver, ?by_io_waiting, ?by_stats, ?by_nodes, ?by_impls; done
    | case_match].

Section Operations.
  #[local] Set Default Proof Using "Type*".
  Context {X : Type} {f : vl_runtime_impl -> X} `{!Bystander f}.

Lemma frames_wake_workers : frames f vl_runtime_wake_workers.
Proof. unfold vl_runtime_wake_workers. frames_solve. Qed.

Lemma frames_wake i : frames f (vl_task_wake_locked i).
Proof. unfold vl_task_wake_locked, vl_task_enqueue_global_locked, vl_task_mark_queued. frames_solve. Qed.

#[local] Hint Resolve frames_wake frames_wake_workers : frames.

Lemma frames_joiners fuel w : frames f (wake_joiners fuel w).
Proof. revert w. induction fuel as [|fuel IH]; intros w; cbn [wake_joiners]; frames_solve. Qed.

#[local] Hint Resolve frames_joiners : frames.

Lemma frames_settle p i st d : frames f (execute_settle p i st d).
Proof.
  unfold execute_settle, cancel_task, vl_task_complete_locked, vl_task_enqueue_local_locked, vl_task_mark_queued.
  frames_solve.
Qed.

Lemma frames_expire p now : frames f (vl_timers_expire p now).
Proof.
  unfold vl_timers_expire. apply frames_bind; [auto with frames|]. intros x.
  generalize (length (items (timers x))) as fuel. induction fuel as [|fuel IH]; cbn [expire_loop]; frames_solve.
Qed.

Lemma frames_current th : frames f (vl_task_current th).
Proof. unfold vl_task_current. frames_solve. Qed.

Lemma frames_spawn th fn c : frames f (vl_spawn th fn c).
Proof. unfold vl_spawn, vl_task_enqueue_global_locked, vl_task_mark_queued. frames_solve. Qed.

#[local] Hint Resolve frames_current frames_spawn frames_settle : frames.

Lemma frames_run_op th op : frames f (run_op th op).
Proof.
  destruct op; cbn [run_op];
    unfold vl_yield, vl_join, join_enqueue, vl_task_prepare_park, vl_timer_arm, vl_timer_current, vl_task_park_for_io,
      vl_task_can_park_for_io; frames_solve.
Qed.

Lemma frames_set_current p c : frames f (vl_context_set_current p c).
Proof. unfold vl_context_set_current. frames_solve. Qed.

Lemma frames_take_local p : frames f (take_local p).
Proof. unfold take_local. frames_solve. Qed.

Lemma frames_take_candidate n p : frames f (take_candidate n p).
Proof. induction n as [|n IH]; cbn [take_candidate]; frames_solve. Qed.

Lemma frames_pull_extras n p k : frames f (pull_extras n p k).
Proof. revert k. induction n as [|n IH]; intros k; cbn [pull_extras]; frames_solve. Qed.

Lemma frames_take_global p : frames f (vl_worker_take_global p).
Proof.
  unfold vl_worker_take_global.
  pose proof frames_take_candidate. pose proof frames_pull_extras. frames_solve.
Qed.

Lemma frames_steal_from p v : frames f (steal_from p v).
Proof. unfold steal_from. frames_solve. Qed.

Lemma frames_steal_commit p first rest : frames f (steal_commit p first rest).
Proof.
  unfold steal_commit. assert (Hk : forall l, frames f (keep_stolen p l)); [|frames_solve].
  induction l as [|i l IH]; cbn [keep_stolen]; frames_solve.
Qed.

Lemma frames_enter p i : frames f (execute_enter p i).
Proof. unfold execute_enter, cancel_task. frames_solve. Qed.

Lemma frames_prepare p i st : frames f (execute_prepare p i st).
Proof. unfold execute_prepare. pose proof frames_set_current. frames_solve. Qed.

Lemma frames_cancel_all : frames f vl_task_cancel_all.
Proof.
  unfold vl_task_cancel_all.
  assert (Hk : forall fuel i, frames f (cancel_from fuel i)); [|frames_solve].
  unfold vl_task_is_terminal.
  induction fuel as [|fuel IH]; intros i; cbn [cancel_from]; unfold vl_task_is_terminal; frames_solve.
Qed.

Lemma frames_timeout_ms p now : frames f (vl_timers_timeout_ms p now).
Proof. unfold vl_timers_timeout_ms. frames_solve. Qed.

End Operations.
