(* ===== verification/SchedulerInv.v ===== *)
(** * The invariant of the scheduler and what it gives

    [placed] assigns every task one place: a queue, the hands of a worker, a
    worker that executes it, or nowhere (parked or finished).  [sched_inv]
    connects that assignment with the flags in the tasks and the counters in the
    runtime, and holds in every reachable state. *)

From S2P Require Import Prelude Intrusive RunQueue TimerHeap RuntimeState Task Timer Worker Scheduler.
From stdpp Require Import options.

(** ** Places *)

Inductive place :=
  | P_none | P_global | P_local (p : nat) | P_batch (p : nat) | P_hand (p : nat) | P_exec (p : nat).

#[export] Instance place_eq_dec : EqDecision place.
Proof. solve_decision. Defined.

Definition pc_batch (pc : worker_pc) : list nat :=
  match pc with W_stolen first rest => first :: rest | _ => [] end.
Definition pc_hand (pc : worker_pc) : list nat :=
  match pc with W_have t => [t] | _ => [] end.
Definition pc_exec (pc : worker_pc) : list nat :=
  match pc with W_prepare t | W_running t | W_leave t _ _ => [t] | _ => [] end.

(** The tasks at each place. *)
Definition holdings (G : list nat) (L : nat -> list nat) (l : list worker_pc) (pl : place) : list nat :=
  match pl with
  | P_none => []
  | P_global => G
  | P_local p => L p
  | P_batch p => pc_batch (pc_at l p)
  | P_hand p => pc_hand (pc_at l p)
  | P_exec p => pc_exec (pc_at l p)
  end.

(** [loc] says where each task is: no task is at two places, nor twice at one. *)
Definition placed (h : place -> list nat) (loc : nat -> place) : Prop :=
  forall pl, pl <> P_none -> NoDup (h pl) /\ forall i, i ∈ h pl <-> loc i = pl.

Definition move (ts : list nat) (to : place) (loc : nat -> place) (j : nat) : place :=
  if decide (j ∈ ts) then to else loc j.

Lemma placed_move h h' loc ts from to : placed h loc -> NoDup ts ->
  (forall i, i ∈ ts -> loc i = from) -> from <> to ->
  (forall pl, pl <> P_none -> pl <> from -> pl <> to -> h' pl = h pl) ->
  (from <> P_none -> h from ≡ₚ ts ++ h' from) ->
  (to <> P_none -> h' to ≡ₚ ts ++ h to) ->
  placed h' (move ts to loc).
Proof.
  intros Hp Hnd Hfrom Hne Hother Hf Ht pl Hpl. unfold move.
  destruct (decide (pl = to)) as [->|Hto].
  - destruct (Hp to Hpl) as [Hnto Hin]. rewrite (Ht Hpl). split.
    + apply list.NoDup_app. split; [done|]. split; [|done]. intros i Hi Hto.
      apply Hin in Hto. specialize (Hfrom i Hi). congruence.
    + intros i. rewrite (Ht Hpl), elem_of_app, Hin. destruct (decide (i ∈ ts)); naive_solver.
  - destruct (decide (pl = from)) as [->|Hfr].
    + destruct (Hp from Hpl) as [Hnf Hin]. rewrite (Hf Hpl) in Hnf.
      apply list.NoDup_app in Hnf as (_ & Hdis & Hnf). split; [done|]. intros i.
      destruct (decide (i ∈ ts)) as [Hi|Hi].
      * split; [|naive_solver]. intros Hi'. by destruct (Hdis i Hi).
      * rewrite <- Hin, (Hf Hpl), elem_of_app. naive_solver.
    + rewrite (Hother pl Hpl Hfr Hto). destruct (Hp pl Hpl) as [Hn Hin]. split; [done|].
      intros i. rewrite Hin. destruct (decide (i ∈ ts)) as [Hi|Hi]; [|done].
      specialize (Hfrom i Hi). split; [congruence|naive_solver].
Qed.

Lemma placed_permutation h h' loc : placed h loc ->
  (forall pl, pl <> P_none -> h' pl ≡ₚ h pl) -> placed h' loc.
Proof.
  intros Hp He pl Hpl. destruct (Hp pl Hpl) as [Hn Hin]. rewrite (He pl Hpl). split; [done|].
  intros i. by rewrite (He pl Hpl).
Qed.

(** ** Tasks *)

Definition parked (st : vl_task_state) : Prop := st = VL_TASK_WAITING \/ st = VL_TASK_SLEEPING.

(** The test [state != WAITING && state != SLEEPING]. *)
Lemma parked_dec st :
  (bool_decide (st <> VL_TASK_WAITING) && bool_decide (st <> VL_TASK_SLEEPING) = true /\ ~ parked st) \/
  (bool_decide (st <> VL_TASK_WAITING) && bool_decide (st <> VL_TASK_SLEEPING) = false /\ parked st).
Proof. unfold parked. destruct st; [left|left|left|right|right|left|left]; (split; [done|]); naive_solver. Qed.

(** The flags of a task at a place.  [lost] is history: a worker dequeued the task,
    found the runtime not running and dropped it. *)
Record task_ok (lost : bool) (pl : place) (t : vl_task) : Prop := {
  ok_queued : queued t = true <-> match pl with P_global | P_local _ | P_batch _ => True | _ => False end;
  ok_executing : executing t = true <-> match pl with P_exec _ => True | _ => False end;
  ok_state : match pl with
             | P_none => (state t = VL_TASK_RUNNABLE /\ lost = true) \/ parked (state t) \/
                         terminal (state t) = true
             | P_exec _ => state t = VL_TASK_RUNNABLE \/ state t = VL_TASK_RUNNING \/ parked (state t)
             | _ => state t = VL_TASK_RUNNABLE \/ state t = VL_TASK_CANCELLED
             end;
  ok_fiber : match pl with
             | P_local _ | P_batch _ => fiber t = None
             | P_hand p | P_exec p => fiber t = None \/ fiber t = Some p
             | _ => True
             end;
  ok_last : match pl with P_exec p => last_p t = Some p | _ => True end;
  ok_pinned : fiber t <> None -> last_p t = fiber t;
  ok_wake : wake_pending t = true ->
            terminal (state t) = true \/ (executing t = true /\ parked (state t)) }.

(** What [task_ok] reads. *)
Definition core (t : vl_task) := (fiber t, state t, queued t, last_p t, executing t, wake_pending t).

Lemma task_ok_core lost pl t t' : core t' = core t -> task_ok lost pl t -> task_ok lost pl t'.
Proof. unfold core. intros [= E1 E2 E3 E4 E5 E6] [? ? ? ? ? ? ?]. split; rewrite ?E1, ?E2, ?E3, ?E4, ?E5, ?E6; done. Qed.

Definition live_b (t : vl_task) : bool := negb (terminal (state t)).
Definition live_count (m : gmap nat vl_task) : nat := size (filter (fun kt => live_b kt.2 = true) m).

Lemma live_count_insert m i t t' : m !! i = Some t ->
  (live_count (<[i := t']> m) + Nat.b2n (live_b t) = live_count m + Nat.b2n (live_b t'))%nat.
Proof.
  intros Hi. unfold live_count.
  set (P := fun kt : nat * vl_task => live_b kt.2 = true).
  assert (Hl : forall u (m' : gmap nat vl_task), m' !! i = None -> size (filter P (<[i := u]> m')) = (size (filter P m') + Nat.b2n (live_b u))%nat).
  { intros u m' Hm'. destruct (live_b u) eqn:E; simpl.
    - rewrite map_filter_insert_True by done. rewrite map_size_insert_None; [lia|].
      rewrite map_lookup_filter, Hm'. done.
    - rewrite map_filter_insert_False by (unfold P; simpl; congruence).
      rewrite delete_id by done. lia. }
  rewrite <- (insert_delete_id m i t Hi) at 2.
  rewrite <- (insert_delete_eq m i t').
  rewrite !Hl by apply lookup_delete_eq. lia.
Qed.

Lemma live_count_new m i t : m !! i = None -> live_b t = true ->
  live_count (<[i := t]> m) = S (live_count m).
Proof.
  intros Hi Ht. unfold live_count. rewrite map_filter_insert_True by done.
  apply map_size_insert_None. by rewrite map_lookup_filter, Hi.
Qed.

Lemma live_count_le m : (live_count m <= size m)%nat.
Proof. unfold live_count. apply map_size_filter. Qed.

(** ** The invariant *)

(** What the invariant reads of a P. *)
Definition p_view : Type := vl_run_queue * bool * option nat.
Definition view_p (x : vl_p) : p_view := (runnable x, idle x, current x).
Definition idle_weight (v : p_view) : nat := Nat.b2n v.1.2.
Definition exec_weight (pc : worker_pc) : nat := length (pc_exec pc).
Definition pc_running (pc : worker_pc) : option nat :=
  match pc with W_running t => Some t | _ => None end.
Definition is_wait (pc : worker_pc) : Prop := exists sw, pc = W_wait sw.

Record p_ok (B : Z) (pc : worker_pc) (c : list nat) (v : p_view) : Prop := {
  p_queue : rq_repr v.1.1 c;
  p_bound : bottom v.1.1 <= B;
  p_idle : v.1.2 = true -> is_wait pc;
  p_current : v.2 = pc_running pc }.

(** [E] is a task in transit between two places, whose flags are in flux; [B]
    bounds the run queues' indices and the number of tasks; [lost] are the tasks
    that were dropped. *)
Record sched_inv (E : option nat) (B : Z) (l : list worker_pc)
    (m : gmap nat vl_task) (q : iqueue) (xs : list p_view) (lost : nat -> bool) (live act idl : Z)
    (G : list nat) (L : nat -> list nat) (loc : nat -> place) : Prop := {
  inv_len : length l = length xs;
  inv_workers : (length xs <= 64)%nat;
  inv_global : iq_repr queue_link m q G;
  inv_ps : forall p v, xs !! p = Some v -> p_ok B (pc_at l p) (L p) v;
  inv_placed : placed (holdings G L l) loc;
  inv_alive : forall i, loc i <> P_none -> is_Some (m !! i);
  inv_transit : forall i, E = Some i -> loc i = P_none /\ is_Some (m !! i);
  inv_tasks : forall i t, m !! i = Some t -> E <> Some i -> task_ok (lost i) (loc i) t;
  inv_live : live = Z.of_nat (live_count m);
  inv_active : act = Z.of_nat (sum_list_with exec_weight l);
  inv_idle : 0 <= idl <= Z.of_nat (sum_list_with idle_weight xs);
  inv_size : Z.of_nat (size m) <= B;
  inv_out : forall p, xs !! p = None -> L p = [] }.

Definition Inv_at (lost : nat -> bool) (E : option nat) (B : Z) (l : list worker_pc) (r : vl_runtime_impl) G L loc : Prop :=
  sched_inv E B l (tasks r) (global_runnable r) (view_p <$> ps r) lost
    (live_tasks r) (active_workers r) (idle_workers r) G L loc.

Definition Inv (lost : nat -> bool) (B : Z) (l : list worker_pc) (r : vl_runtime_impl) : Prop :=
  exists G L loc, Inv_at lost None B l r G L loc.

(** ** Moves of one task *)

Lemma pc_at_insert l p pc p' : (p < length l)%nat ->
  pc_at (<[p := pc]> l) p' = if decide (p' = p) then pc else pc_at l p'.
Proof.
  intros Hp. unfold pc_at. destruct (decide (p' = p)) as [->|].
  - by rewrite list_lookup_insert_eq.
  - by rewrite list_lookup_insert_ne.
Qed.

Lemma holdings_other G L G' L' l pl : (pl <> P_global) -> (forall p, pl = P_local p -> L' p = L p) ->
  holdings G' L' l pl = holdings G L l pl.
Proof. intros Hg HL. destruct pl; simpl; naive_solver. Qed.

Section Moves.
  #[local] Set Default Proof Using "Type".
  Context {B : Z} {l : list worker_pc} {m : gmap nat vl_task} {q : iqueue} {xs : list p_view}.
  Context {lost : nat -> bool} {live act idl : Z} {G : list nat} {L : nat -> list nat} {loc : nat -> place}.

Local Notation inv E := (sched_inv E B l m q xs lost live act idl G L loc).

Lemma inv_at_global E i : inv E -> i ∈ G <-> loc i = P_global.
Proof. intros H. apply (proj2 (inv_placed _ _ _ _ _ _ _ _ _ _ _ _ _ H P_global ltac:(done))). Qed.

Lemma inv_at_local E p i : inv E -> i ∈ L p <-> loc i = P_local p.
Proof. intros H. apply (proj2 (inv_placed _ _ _ _ _ _ _ _ _ _ _ _ _ H (P_local p) ltac:(done))). Qed.

(** A task that is nowhere may enter transit. *)
Lemma transit_open i t : inv None -> m !! i = Some t -> loc i = P_none -> inv (Some i).
Proof.
  intros H Hi Hl. destruct H as [H1 H2 H3 H4 H5 H6 H7 H8 H9 H10 H11 H12 H13]. split; try done.
  - intros j [= <-]. split; eauto.
  - intros j u Hj _. by apply H8.
Qed.

Lemma transit_close i t : inv (Some i) -> m !! i = Some t -> task_ok (lost i) P_none t -> inv None.
Proof.
  intros H Hi Hok. destruct H as [H1 H2 H3 H4 H5 H6 H7 H8 H9 H10 H11 H12 H13]. split; try done.
  intros j u Hj _. destruct (decide (i = j)) as [<-|]; [|apply H8; congruence].
  destruct (H7 i eq_refl) as [-> _]. congruence.
Qed.

(** In transit a task may be changed at will. *)
Lemma transit_update i t t' live' : inv (Some i) -> m !! i = Some t ->
  live' = live + Z.of_nat (Nat.b2n (live_b t')) - Z.of_nat (Nat.b2n (live_b t)) ->
  sched_inv (Some i) B l (<[i := t']> m) q xs lost live' act idl G L loc.
Proof.
  intros H Hi Hlive. pose proof (inv_at_global _ i H) as Hg.
  destruct H as [H1 H2 H3 H4 H5 H6 H7 H8 H9 H10 H11 H12 H13].
  destruct (H7 i eq_refl) as [Hnone _]. rewrite Hnone in Hg.
  split; try done.
  - eapply iq_repr_frame; [done|]. intros j u Hj Hu. exists u. split; [|done].
    rewrite lookup_insert_ne; [done|]. naive_solver.
  - intros j Hj. destruct (decide (i = j)) as [<-|]; [rewrite lookup_insert_eq; eauto|].
    rewrite lookup_insert_ne by done. by apply H6.
  - intros j [= <-]. split; [done|]. rewrite lookup_insert_eq. eauto.
  - intros j u. destruct (decide (i = j)) as [<-|]; [done|]. rewrite lookup_insert_ne by done. apply H8.
  - pose proof (live_count_insert m i t t' Hi). lia.
  - by rewrite map_size_insert_Some by eauto.
Qed.

(** A change outside transit that the flags at the task's place allow. *)
Lemma task_update i t t' live' : inv None -> m !! i = Some t ->
  queue_next t' = queue_next t -> task_ok (lost i) (loc i) t' ->
  live' = live + Z.of_nat (Nat.b2n (live_b t')) - Z.of_nat (Nat.b2n (live_b t)) ->
  sched_inv None B l (<[i := t']> m) q xs lost live' act idl G L loc.
Proof.
  intros H Hi Hq Hok Hlive.
  destruct H as [H1 H2 H3 H4 H5 H6 H7 H8 H9 H10 H11 H12 H13]. split; try done.
  - eapply iq_repr_frame; [done|]. intros j u Hj Hu.
    destruct (decide (i = j)) as [<-|]; [|rewrite lookup_insert_ne by done; eauto].
    exists t'. rewrite lookup_insert_eq. split; [done|]. simpl. congruence.
  - intros j Hj. destruct (decide (i = j)) as [<-|]; [rewrite lookup_insert_eq; eauto|].
    rewrite lookup_insert_ne by done. by apply H6.
  - intros j u. destruct (decide (i = j)) as [<-|].
    + rewrite lookup_insert_eq. by intros [= <-] _.
    + rewrite lookup_insert_ne by done. apply H8.
  - pose proof (live_count_insert m i t t' Hi). lia.
  - by rewrite map_size_insert_Some by eauto.
Qed.

Lemma live_count_upto m' : upto queue_link m m' -> live_count m' = live_count m.
Proof.
  intros Hu. unfold live_count.
  assert (Hs : forall m0 : gmap nat vl_task, size (filter (fun kt => live_b kt.2 = true) m0) =
    size (filter (fun kt => live_b kt.2 = true) (forget queue_link <$> m0))).
  { intros m0. rewrite map_filter_fmap, map_size_fmap. done. }
  rewrite (Hs m), (Hs m'). unfold upto in Hu. by rewrite Hu.
Qed.

Lemma upto_is_Some m' i : upto queue_link m m' -> is_Some (m !! i) -> is_Some (m' !! i).
Proof. intros Hu [t Ht]. destruct (upto_lookup _ _ _ _ _ Hu Ht) as [v ->]. eauto. Qed.

Lemma upto_tasks_ok m' E loc' : upto queue_link m m' ->
  (forall i t, m !! i = Some t -> E <> Some i -> task_ok (lost i) (loc' i) t) ->
  forall i t, m' !! i = Some t -> E <> Some i -> task_ok (lost i) (loc' i) t.
Proof.
  intros Hu H i t Hi HE. assert (Hu' : upto queue_link m' m) by done.
  destruct (upto_lookup _ _ _ _ _ Hu' Hi) as [v Hv].
  specialize (H i _ Hv HE). by eapply task_ok_core, H.
Qed.

Lemma upto_size m' : upto queue_link m m' -> size m' = size m.
Proof. intros Hu. rewrite <- (map_size_fmap (forget queue_link) m), <- (map_size_fmap (forget queue_link) m'). unfold upto in Hu. by rewrite Hu. Qed.

(** From transit to the end of the global queue. *)
Lemma transit_push i t : inv (Some i) -> m !! i = Some t -> task_ok (lost i) P_global t ->
  exists q' m', iq_push queue_link q i m = Some (q', m') /\ upto queue_link m m' /\
    sched_inv None B l m' q' xs lost live act idl (G ++ [i]) L (move [i] P_global loc).
Proof.
  intros H Hi Hok. pose proof (inv_at_global _ i H) as Hg.
  destruct H as [H1 H2 H3 H4 H5 H6 H7 H8 H9 H10 H11 H12 H13].
  destruct (H7 i eq_refl) as [Hnone _]. rewrite Hnone in Hg.
  destruct (iq_push_spec queue_link m q G i t H3) as (q' & m' & Hp & Hr & Hu & _); [naive_solver|done|].
  exists q', m'. split; [done|]. split; [done|]. split; try done.
  - eapply (placed_move _ _ _ [i] P_none P_global); try done.
    + apply NoDup_singleton.
    + by intros j ->%list_elem_of_singleton.
    + intros pl _ _ Hpl. by apply holdings_other.
    + intros _. simpl. by rewrite Permutation_app_comm.
  - intros j Hj. apply (upto_is_Some m'); [done|]. unfold move in Hj.
    destruct (decide (j ∈ [i])) as [->%list_elem_of_singleton|]; [eauto|by apply H6].
  - eapply upto_tasks_ok; [done|]. intros j u Hj _. unfold move.
    destruct (decide (j ∈ [i])) as [->%list_elem_of_singleton|Hji]; [congruence|].
    apply H8; [done|]. set_solver.
  - by rewrite live_count_upto.
  - by rewrite upto_size.
Qed.

(** From the head of the global queue into transit. *)
Lemma pop_transit i G' : inv None -> G = i :: G' ->
  exists q' m' t, iq_pop queue_link q m = Some (Some i, q', m') /\ upto queue_link m m' /\
    m' !! i = Some t /\ task_ok (lost i) P_global t /\
    sched_inv (Some i) B l m' q' xs lost live act idl G' L (move [i] P_none loc).
Proof.
  intros H HG. pose proof (inv_at_global _ i H) as Hg.
  destruct H as [H1 H2 H3 H4 H5 H6 H7 H8 H9 H10 H11 H12 H13].
  rewrite HG in H3. destruct (iq_pop_cons queue_link m q i G' H3) as (q' & m' & t & Hp & Hr & Hu & Hi & Hm').
  assert (Hloc : loc i = P_global) by (apply Hg; rewrite HG; left).
  exists q', m', (set_queue_next None t). split; [done|]. split; [done|].
  split; [by rewrite Hm', lookup_insert_eq|].
  split. { apply (task_ok_core _ _ t); [done|]. rewrite <- Hloc. by apply H8. }
  split; try done.
  - eapply (placed_move _ _ _ [i] P_global P_none); try done.
    + apply NoDup_singleton.
    + by intros j ->%list_elem_of_singleton.
    + intros pl _ Hpl _. by apply holdings_other.
    + intros _. simpl. by rewrite HG.
  - intros j Hj. apply (upto_is_Some m'); [done|]. unfold move in Hj.
    destruct (decide (j ∈ [i])); [done|by apply H6].
  - intros j [= <-]. unfold move. rewrite decide_True by set_solver. split; [done|].
    apply (upto_is_Some m'); eauto.
  - eapply upto_tasks_ok; [done|]. intros j u Hj HE. unfold move.
    rewrite decide_False by set_solver. by apply H8.
  - by rewrite live_count_upto.
  - by rewrite upto_size.
Qed.

(** ** Moves through a P's own queue *)

Definition with_queue (rq : vl_run_queue) (v : p_view) : p_view := (rq, v.1.2, v.2).
Definition set_local (p : nat) (c : list nat) (f : nat -> list nat) (p' : nat) : list nat :=
  if decide (p' = p) then c else f p'.

Lemma p_ok_mono B1 B2 pc c v : p_ok B1 pc c v -> B1 <= B2 -> p_ok B2 pc c v.
Proof. intros [? ? ? ?] ?. split; auto. lia. Qed.

Lemma inv_queue_ps p v rq c B' : inv None \/ (exists i, inv (Some i)) -> xs !! p = Some v -> B <= B' ->
  rq_repr rq c -> bottom rq <= B' ->
  forall p' v', <[p := with_queue rq v]> xs !! p' = Some v' ->
    p_ok B' (pc_at l p') (set_local p c L p') v'.
Proof.
  intros H Hv HB Hr Hb p' v' Hv'. assert (Hps : forall p v, xs !! p = Some v -> p_ok B (pc_at l p) (L p) v).
  { destruct H as [H|[i H]]; apply H. }
  unfold set_local. apply list_lookup_insert_Some in Hv' as [(-> & <- & _)|(Hne & Hv')].
  - rewrite decide_True by done. destruct (Hps p' v Hv) as [_ _ Hi Hc]. by split.
  - rewrite decide_False by done. eapply p_ok_mono; [by apply Hps|done].
Qed.

Lemma out_insert p v w c : xs !! p = Some v -> (forall p, xs !! p = None -> L p = []) ->
  forall p', <[p := w]> xs !! p' = None -> set_local p c L p' = [] /\ L p' = [].
Proof.
  intros Hv Hout p' Hp'. unfold set_local. destruct (decide (p' = p)) as [->|Hne].
  - rewrite list_lookup_insert_eq in Hp'; [done|]. by eapply lookup_lt_Some.
  - rewrite list_lookup_insert_ne in Hp' by done. auto.
Qed.

Lemma idle_with_queue p v rq : xs !! p = Some v ->
  sum_list_with idle_weight (<[p := with_queue rq v]> xs) = sum_list_with idle_weight xs.
Proof.
  intros Hv. pose proof (sum_list_with_insert idle_weight xs p v (with_queue rq v) Hv) as E.
  unfold idle_weight in *. simpl in E. lia.
Qed.

Lemma transit_local i t p v rq : inv (Some i) -> m !! i = Some t -> xs !! p = Some v ->
  task_ok (lost i) (P_local p) t -> rq_repr rq (L p ++ [i]) -> bottom rq <= B + 1 ->
  sched_inv None (B + 1) l m q (<[p := with_queue rq v]> xs) lost live act idl
    G (set_local p (L p ++ [i]) L) (move [i] (P_local p) loc).
Proof.
  intros H Hi Hv Hok Hr Hb. pose proof (inv_queue_ps p v rq _ (B + 1) (or_intror (ex_intro _ i H)) Hv ltac:(lia) Hr Hb) as Hps.
  destruct H as [H1 H2 H3 H4 H5 H6 H7 H8 H9 H10 H11 H12 H13].
  destruct (H7 i eq_refl) as [Hnone _].
  split; rewrite ?length_insert, ?idle_with_queue by done; try done; try lia.
  - eapply (placed_move _ _ _ [i] P_none (P_local p)); try done.
    + apply NoDup_singleton.
    + by intros j ->%list_elem_of_singleton.
    + intros [] _ _ Hpl; simpl; try done. unfold set_local. rewrite decide_False; congruence.
    + intros _. simpl. unfold set_local. rewrite decide_True by done. by rewrite Permutation_app_comm.
  - intros j Hj. unfold move in Hj.
    destruct (decide (j ∈ [i])) as [->%list_elem_of_singleton|]; [eauto|by apply H6].
  - intros j u Hj _. unfold move.
    destruct (decide (j ∈ [i])) as [->%list_elem_of_singleton|Hji]; [congruence|].
    apply H8; [done|]. set_solver.
  - intros p'. by eapply out_insert.
Qed.

Lemma local_transit i p v rq c : inv None -> xs !! p = Some v -> L p = c ++ [i] ->
  rq_repr rq c -> bottom rq <= B ->
  exists t, m !! i = Some t /\ task_ok (lost i) (P_local p) t /\
  sched_inv (Some i) B l m q (<[p := with_queue rq v]> xs) lost live act idl
    G (set_local p c L) (move [i] P_none loc).
Proof.
  intros H Hv HL Hr Hb. pose proof (inv_queue_ps p v rq _ B (or_introl H) Hv ltac:(lia) Hr Hb) as Hps.
  assert (Hloc : loc i = P_local p) by (apply (inv_at_local _ p i H); rewrite HL; set_solver).
  destruct H as [H1 H2 H3 H4 H5 H6 H7 H8 H9 H10 H11 H12 H13].
  destruct (H6 i) as [t Ht]; [congruence|]. exists t. split; [done|].
  split; [rewrite <- Hloc; by apply H8|].
  split; rewrite ?length_insert, ?idle_with_queue by done; try done; try lia.
  - eapply (placed_move _ _ _ [i] (P_local p) P_none); try done.
    + apply NoDup_singleton.
    + by intros j ->%list_elem_of_singleton.
    + intros [] _ Hpl _; simpl; try done. unfold set_local. rewrite decide_False; congruence.
    + intros _. simpl. unfold set_local. rewrite decide_True by done. rewrite HL. by rewrite Permutation_app_comm.
  - intros j Hj. unfold move in Hj. destruct (decide (j ∈ [i])); [done|by apply H6].
  - intros j [= <-]. unfold move. rewrite decide_True by set_solver. eauto.
  - intros j u Hj HE. unfold move. rewrite decide_False by set_solver. by apply H8.
  - intros p'. by eapply out_insert.
Qed.

(** ** Changes of a worker's program counter *)

Lemma pc_change E E' p v v' pc' loc' act' idl' :
  inv E -> xs !! p = Some v -> v'.1.1 = v.1.1 -> (v'.1.2 = true -> is_wait pc') ->
  v'.2 = pc_running pc' ->
  act' = act + Z.of_nat (exec_weight pc') - Z.of_nat (exec_weight (pc_at l p)) ->
  0 <= idl' <= Z.of_nat (sum_list_with idle_weight (<[p := v']> xs)) ->
  placed (holdings G L (<[p := pc']> l)) loc' ->
  (forall i, loc' i <> P_none -> is_Some (m !! i)) ->
  (forall i, E' = Some i -> loc' i = P_none /\ is_Some (m !! i)) ->
  (forall i t, m !! i = Some t -> E' <> Some i -> task_ok (lost i) (loc' i) t) ->
  sched_inv E' B (<[p := pc']> l) m q (<[p := v']> xs) lost live act' idl' G L loc'.
Proof.
  intros H Hv Hq Hid Hc Hact Hidl Hpl Ha Ht Hok.
  destruct H as [H1 H2 H3 H4 H5 H6 H7 H8 H9 H10 H11 H12 H13].
  assert (Hp : (p < length l)%nat) by (rewrite H1; by eapply lookup_lt_Some).
  split; rewrite ?length_insert; try done.
  - intros p' w Hw. rewrite pc_at_insert by done.
    apply list_lookup_insert_Some in Hw as [(-> & <- & _)|(Hne & Hw)].
    + rewrite decide_True by done. destruct (H4 p' v Hv) as [Hr Hb _ _]. by split; rewrite ?Hq.
    + rewrite decide_False by done. by apply H4.
  - assert (Hpc : l !! p = Some (pc_at l p)).
    { unfold pc_at. destruct (lookup_lt_is_Some_2 l p Hp) as [pc ->]. done. }
    pose proof (sum_list_with_insert exec_weight l p _ pc' Hpc). lia.
  - intros p' Hp'. by eapply (out_insert p v v' []).
Qed.

End Moves.

(** Case split on which worker's holdings are looked at. *)
Ltac pc_holdings :=
  intros; simpl;
  repeat match goal with
  | |- forall _ : place, _ => intros []; intros; simpl; try done
  end;
  rewrite ?pc_at_insert by done; repeat case_decide; subst; simpl; try done; try congruence.

Section PcMoves.
  #[local] Set Default Proof Using "Type".
  Context {B : Z} {l : list worker_pc} {m : gmap nat vl_task} {q : iqueue} {xs : list p_view}.
  Context {lost : nat -> bool} {live act idl : Z} {G : list nat} {L : nat -> list nat} {loc : nat -> place}.

Local Notation inv E := (sched_inv E B l m q xs lost live act idl G L loc).

(** The worker's new view suits its new program counter. *)
Definition fits (v v' : p_view) (pc' : worker_pc) : Prop :=
  v'.1.1 = v.1.1 /\ (v'.1.2 = true -> is_wait pc') /\ v'.2 = pc_running pc'.

Lemma inv_pc_lt E p v : inv E -> xs !! p = Some v -> (p < length l)%nat.
Proof. intros H Hv. rewrite (inv_len _ _ _ _ _ _ _ _ _ _ _ _ _ H). by eapply lookup_lt_Some. Qed.

(** The worker keeps what it holds. *)
Lemma pc_keep E p v v' pc' idl' : inv E -> xs !! p = Some v -> fits v v' pc' ->
  pc_batch pc' = pc_batch (pc_at l p) -> pc_hand pc' = pc_hand (pc_at l p) ->
  pc_exec pc' = pc_exec (pc_at l p) ->
  0 <= idl' <= Z.of_nat (sum_list_with idle_weight (<[p := v']> xs)) ->
  sched_inv E B (<[p := pc']> l) m q (<[p := v']> xs) lost live act idl' G L loc.
Proof.
  intros H Hv (Hq & Hid & Hc) Eb Eh Ee Hidl. pose proof (inv_pc_lt _ p v H Hv) as Hp.
  eapply (pc_change E E); try done; try apply H.
  - unfold exec_weight. rewrite Ee. lia.
  - eapply placed_permutation; [apply H|]. intros pl Hpl. apply reflexive_eq.
    destruct pl; pc_holdings.
Qed.

Lemma pc_out p v v' pc' i from act' idl' : inv None -> xs !! p = Some v -> fits v v' pc' ->
  from <> P_none ->
  (forall pl, pl <> from -> holdings G L (<[p := pc']> l) pl = holdings G L l pl) ->
  holdings G L l from ≡ₚ [i] ++ holdings G L (<[p := pc']> l) from ->
  act' = act + Z.of_nat (exec_weight pc') - Z.of_nat (exec_weight (pc_at l p)) ->
  0 <= idl' <= Z.of_nat (sum_list_with idle_weight (<[p := v']> xs)) ->
  exists t, m !! i = Some t /\ task_ok (lost i) from t /\ loc i = from /\
    sched_inv (Some i) B (<[p := pc']> l) m q (<[p := v']> xs) lost live act' idl' G L
      (move [i] P_none loc).
Proof.
  intros H Hv (Hq & Hid & Hc) Hfrom Hother Hperm Hact Hidl.
  assert (Hloc : loc i = from).
  { apply (inv_placed _ _ _ _ _ _ _ _ _ _ _ _ _ H from Hfrom). rewrite Hperm. set_solver. }
  destruct (inv_alive _ _ _ _ _ _ _ _ _ _ _ _ _ H i) as [t Ht]; [congruence|].
  pose proof (inv_tasks _ _ _ _ _ _ _ _ _ _ _ _ _ H) as Hok.
  exists t. split; [done|]. split; [rewrite <- Hloc; by apply Hok|]. split; [done|].
  eapply (pc_change None); try done.
  - eapply (placed_move _ _ _ [i] from P_none); [apply H|apply NoDup_singleton| |done| |done|done].
    + by intros j ->%list_elem_of_singleton.
    + intros pl _ Hpl _. by apply Hother.
  - intros j Hj. unfold move in Hj. destruct (decide (j ∈ [i])); [done|]. by apply H.
  - intros j [= <-]. unfold move. rewrite decide_True by set_solver. eauto.
  - intros j u Hj HE. unfold move. rewrite decide_False by set_solver. by apply Hok.
Qed.

Lemma pc_in p v v' pc' i t to act' idl' : inv (Some i) -> xs !! p = Some v -> fits v v' pc' ->
  m !! i = Some t -> task_ok (lost i) to t -> to <> P_none ->
  (forall pl, pl <> to -> holdings G L (<[p := pc']> l) pl = holdings G L l pl) ->
  holdings G L (<[p := pc']> l) to ≡ₚ [i] ++ holdings G L l to ->
  act' = act + Z.of_nat (exec_weight pc') - Z.of_nat (exec_weight (pc_at l p)) ->
  0 <= idl' <= Z.of_nat (sum_list_with idle_weight (<[p := v']> xs)) ->
  sched_inv None B (<[p := pc']> l) m q (<[p := v']> xs) lost live act' idl' G L
    (move [i] to loc).
Proof.
  intros H Hv (Hq & Hid & Hc) Ht Hokt Hto Hother Hperm Hact Hidl.
  destruct (inv_transit _ _ _ _ _ _ _ _ _ _ _ _ _ H i eq_refl) as [Hloc _].
  pose proof (inv_tasks _ _ _ _ _ _ _ _ _ _ _ _ _ H) as Hok.
  eapply (pc_change (Some i)); try done.
  - eapply (placed_move _ _ _ [i] P_none to); [apply H|apply NoDup_singleton| |done| |done|done].
    + by intros j ->%list_elem_of_singleton.
    + intros pl _ _ Hpl. by apply Hother.
  - intros j Hj. unfold move in Hj.
    destruct (decide (j ∈ [i])) as [->%list_elem_of_singleton|]; [eauto|by apply H].
  - intros j u Hj HE. unfold move.
    destruct (decide (j ∈ [i])) as [->%list_elem_of_singleton|]; [congruence|].
    apply Hok; [done|]. set_solver.
Qed.

End PcMoves.

(** ** Runtime operations *)

(** Changes of a P the invariant does not see. *)
Lemma view_p_insert (xs : list vl_p) p x x' : xs !! p = Some x -> view_p x' = view_p x ->
  view_p <$> <[p := x']> xs = view_p <$> xs.
Proof.
  intros Hx E. rewrite list_fmap_insert, E. apply list_insert_id. by rewrite list_lookup_fmap, Hx.
Qed.

Lemma view_p_wake (xs : list vl_p) f : (forall x, view_p (f x) = view_p x) ->
  view_p <$> (f <$> xs) = view_p <$> xs.
Proof. intros E. rewrite <- list_fmap_compose. apply list_fmap_ext. intros i x _. apply E. Qed.

(** A task about to become runnable: in no queue, not executing. *)
Record waking (t : vl_task) : Prop := {
  wk_state : state t = VL_TASK_RUNNABLE;
  wk_queued : queued t = false;
  wk_executing : executing t = false;
  wk_pending : wake_pending t = false;
  wk_pinned : fiber t <> None -> last_p t = fiber t }.

Lemma mark_queued_run i r t : tasks r !! i = Some t -> queued t = false ->
  vl_task_mark_queued i r = Some (true, set_tasks (<[i := set_queued true t]> (tasks r)) r).
Proof.
  intros H Hq. unfold vl_task_mark_queued. rewrite (bind_Some _ _ _ _ _ (load_task_run _ _ _ H)), Hq.
  by rewrite (bind_Some _ _ _ _ _ (upd_task_run _ _ _ _ H)).
Qed.

(** A queued waking task is fit for the global queue. *)
Lemma waking_global lost t : waking t -> task_ok lost P_global (set_queued true t).
Proof. intros [? ? E ? ?]. split; simpl; try done; [by rewrite E|tauto|congruence]. Qed.

Lemma waking_local lost p t : waking t -> fiber t = None ->
  task_ok lost (P_local p) (set_queued true t).
Proof. intros [? ? E ? ?] Hf. split; simpl; try done; [by rewrite E|tauto|congruence]. Qed.

Lemma queue_push_run {lost} B l r G L loc i t : Inv_at lost (Some i) B l r G L loc -> tasks r !! i = Some t ->
  task_ok (lost i) P_global t ->
  exists q m, vl_task_queue_push i r = Some (tt, set_global_runnable q (set_tasks m r)) /\
    upto queue_link (tasks r) m /\
    Inv_at lost None B l (set_global_runnable q (set_tasks m r)) (G ++ [i]) L (move [i] P_global loc).
Proof.
  intros H Hi Hok. destruct (transit_push i t H Hi Hok) as (q & m & E & Hu & H').
  exists q, m. unfold vl_task_queue_push. rewrite E. done.
Qed.

Lemma transit_set {lost} B l r G L loc i t t' : Inv_at lost (Some i) B l r G L loc -> tasks r !! i = Some t ->
  live_b t' = live_b t -> Inv_at lost (Some i) B l (set_tasks (<[i := t']> (tasks r)) r) G L loc.
Proof. intros H Hi E. eapply transit_update; [exact H|done|]. rewrite E. simpl. lia. Qed.

Lemma enqueue_global_run {lost} B l r G L loc i t : Inv_at lost (Some i) B l r G L loc -> tasks r !! i = Some t ->
  waking t ->
  exists q m, vl_task_enqueue_global_locked (Some i) r =
      Some (tt, set_global_runnable q (set_tasks m r)) /\
    upto queue_link (<[i := set_queued true t]> (tasks r)) m /\
    Inv_at lost None B l (set_global_runnable q (set_tasks m r)) (G ++ [i]) L (move [i] P_global loc).
Proof.
  intros H Hi Hw. unfold vl_task_enqueue_global_locked.
  rewrite (bind_Some _ _ _ _ _ (load_task_run _ _ _ Hi)).
  rewrite decide_True by apply Hw.
  rewrite (bind_Some _ _ _ _ _ (mark_queued_run _ _ _ Hi (wk_queued _ Hw))).
  set (r1 := set_tasks (<[i := set_queued true t]> (tasks r)) r).
  assert (H1 : Inv_at lost (Some i) B l r1 G L loc).
  { by apply (transit_set _ _ _ _ _ _ _ t). }
  destruct (queue_push_run B l r1 G L loc i (set_queued true t) H1) as (q & m & E & Hu & H').
  - apply lookup_insert_eq.
  - by apply waking_global.
  - exists q, m. done.
Qed.

(** [vl_task_wake_locked]: never undefined, and afterwards a parked task is
    either marked [wake_pending] (its worker still executes it) or at the end of
    the global queue. *)
Lemma wake_run {lost} B l r G L loc i t : Inv_at lost None B l r G L loc -> tasks r !! i = Some t ->
  exists r', vl_task_wake_locked (Some i) r = Some (tt, r') /\
    ((~ parked (state t) /\ r' = r) \/
     (parked (state t) /\ executing t = true /\
      r' = set_tasks (<[i := set_wake_pending true t]> (tasks r)) r /\ Inv_at lost None B l r' G L loc) \/
     (parked (state t) /\ executing t = false /\
      exists q m, r' = set_global_runnable q (set_tasks m r) /\
        upto queue_link (<[i := set_queued true (set_state VL_TASK_RUNNABLE t)]> (tasks r)) m /\
        Inv_at lost None B l r' (G ++ [i]) L (move [i] P_global loc))).
Proof.
  intros H Hi. pose proof (inv_tasks _ _ _ _ _ _ _ _ _ _ _ _ _ H i t Hi ltac:(done)) as Hok.
  unfold vl_task_wake_locked. rewrite (bind_Some _ _ _ _ _ (load_task_run _ _ _ Hi)).
  destruct (parked_dec (state t)) as [[-> Hp]|[-> Hp]].
  { exists r. split; [done|]. by left. }
  destruct (executing t) eqn:Ee.
  - rewrite (upd_task_run _ _ _ _ Hi). eexists. split; [done|]. right; left.
    split; [done|]. split; [done|]. split; [done|].
    eapply task_update; [exact H|done|done| |unfold live_b; simpl; lia].
    destruct Hok as [? ? ? ? ? ? ?]. split; simpl; auto.
  - rewrite (bind_Some _ _ _ _ _ (upd_task_run _ _ _ _ Hi)).
    set (t1 := set_state VL_TASK_RUNNABLE t). set (r1 := set_tasks (<[i := t1]> (tasks r)) r).
    assert (Hloc : loc i = P_none).
    { destruct Hok as [_ Hex Hst _ _ _ _]. destruct (loc i) eqn:El; try done;
        [destruct Hp, Hst; congruence..|]. rewrite (proj2 Hex I) in Ee. done. }
    assert (H1 : Inv_at lost (Some i) B l r1 G L loc).
    { apply (transit_set _ _ _ _ _ _ _ t); [by eapply transit_open|done|].
      unfold live_b. simpl. by destruct Hp as [-> | ->]. }
    destruct (enqueue_global_run B l r1 G L loc i t1 H1) as (q & m & E & Hu & H').
    + apply lookup_insert_eq.
    + rewrite Hloc in Hok. destruct Hok as [Hq _ _ _ _ Hpin Hwk]. split; simpl; try done.
      * destruct (queued t); [|done]. by destruct (proj1 Hq).
      * destruct (wake_pending t); [|done]. destruct (Hwk eq_refl) as [Ht|[? _]]; [|congruence].
        by destruct Hp as [Hs | Hs]; rewrite Hs in Ht.
    + exists (set_global_runnable q (set_tasks m r1)). split; [done|]. right; right.
      split; [done|]. split; [done|]. exists q, m. split; [done|]. split; [|done].
      etrans; [|exact Hu]. unfold r1. simpl. by rewrite insert_insert_eq.
Qed.

Lemma Inv_wake {lost} B l r i a r' : Inv lost B l r -> vl_task_wake_locked (Some i) r = Some (a, r') -> Inv lost B l r'.
Proof.
  intros (G & L & loc & H) E. destruct (tasks r !! i) as [t|] eqn:Hi.
  - destruct (wake_run B l r G L loc i t H Hi) as (r'' & E' & Hc). rewrite E in E'. simplify_eq.
    destruct Hc as [[_ ->]|[(_ & _ & _ & H')|(_ & _ & q & m & _ & _ & H')]];
      [by exists G, L, loc|by exists G, L, loc|by eexists _, _, _].
  - unfold vl_task_wake_locked in E. apply bind_inv in E as (? & ? & E & _).
    unfold load_task, deref in E. by rewrite Hi in E.
Qed.
