(* ===== verification/SchedulerSteps.v ===== *)
(** * Every step keeps the scheduler's invariant

    [keeps] collects the operations that keep it whatever the workers are doing;
    the worker's own steps, which change its program counter, follow. *)

From S2P Require Import Prelude Intrusive RunQueue TimerHeap RuntimeState Task Timer Worker Scheduler SchedulerInv.
From stdpp Require Import options.

(** ** Operations that keep the invariant *)

Definition keeps {A} (m : R A) : Prop :=
  forall lost B l r a r', Inv lost B l r -> m r = Some (a, r') -> Inv lost B l r'.

Create HintDb keeps.

Lemma keeps_ret {A} (a : A) : keeps (mret a).
Proof. intros lost B l r b r' H E. by minv. Qed.

Lemma keeps_bind {A B} (m : R A) (f : A -> R B) : keeps m -> (forall a, keeps (f a)) -> keeps (m ≫= f).
Proof. intros Hm Hf lost b l r a r' H E. minv. eapply Hf; [|done]. by eapply Hm. Qed.

Lemma keeps_gets {A} (f : vl_runtime_impl -> A) : keeps (gets f).
Proof. intros lost B l r b r' H E. by minv. Qed.

Lemma keeps_load_task i : keeps (load_task i).
Proof. intros lost B l r b r' H E. by minv. Qed.

Lemma keeps_load_p p : keeps (load_p p).
Proof. intros lost B l r b r' H E. by minv. Qed.

Lemma keeps_deref {A} (f : vl_runtime_impl -> option A) : keeps (deref f).
Proof. intros lost B l r b r' H E. unfold deref in E. by case_match; simplify_eq. Qed.

Lemma keeps_ub {A} : keeps (ub (A := A)).
Proof. intros lost B l r b r' H E. by minv. Qed.

Lemma keeps_modify f : (forall lost B l r, Inv lost B l r -> Inv lost B l (f r)) -> keeps (modify f).
Proof. intros Hf lost B l r b r' H E. minv. by apply Hf. Qed.

(** Fields of a task outside [core] and the queue link. *)
Lemma keeps_upd_task i f : (forall t, core (f t) = core t) -> (forall t, queue_next (f t) = queue_next t) ->
  keeps (upd_task i f).
Proof.
  intros Hc Hq lost B l r b r' (G & L & loc & H) E. minv. exists G, L, loc.
  match goal with H : tasks r !! i = Some ?t |- _ => rename H into Hi, t into t0 end.
  eapply task_update; [exact H|exact Hi|apply Hq| |].
  - apply (task_ok_core _ _ t0); [apply Hc|]. by apply H.
  - assert (El : live_b (f t0) = live_b t0).
    { specialize (Hc t0). unfold core in Hc. injection Hc as _ Es _ _ _ _. unfold live_b. by rewrite Es. }
    rewrite El. simpl. lia.
Qed.

Lemma keeps_upd_p p f : (forall x, view_p (f x) = view_p x) -> keeps (upd_p p f).
Proof.
  intros Hf lost B l r b r' (G & L & loc & H) E. minv. exists G, L, loc. unfold Inv_at. simpl.
  erewrite view_p_insert by done. exact H.
Qed.

Lemma keeps_bump_stat get set n : keeps (bump_stat get set n).
Proof. by apply keeps_modify. Qed.

Lemma keeps_bump_p_stat p get set n : keeps (bump_p_stat p get set n).
Proof. by apply keeps_upd_p. Qed.

Lemma keeps_wake_workers : keeps vl_runtime_wake_workers.
Proof.
  apply keeps_modify. intros lost B l r (G & L & loc & H). exists G, L, loc. unfold Inv_at. simpl.
  by rewrite view_p_wake.
Qed.

Lemma keeps_wake i : keeps (vl_task_wake_locked i).
Proof.
  intros lost B l r a r' H E. destruct i as [i|]; [by eapply Inv_wake|]. simpl in E. by minv.
Qed.

Lemma keeps_dec_guarded get set : (forall lost B l v r, Inv lost B l r -> Inv lost B l (set v r)) ->
  keeps (dec_guarded get set).
Proof. intros Hs. apply keeps_modify. intros lost B l r H. case_match; auto. Qed.

Lemma keeps_on_timer_heap {A} p (op : C timer_store A) : keeps (on_timer_heap p op).
Proof.
  intros lost B l r a r' (G & L & loc & H) E. unfold on_timer_heap in E.
  destruct (ps r !! p) as [x|] eqn:Hx; [|done].
  destruct (op _) as [[b st]|]; [|done]. simplify_eq. exists G, L, loc. unfold Inv_at. simpl.
  by rewrite (view_p_insert _ _ x).
Qed.

Lemma keeps_store_timer i v : keeps (store_timer i v).
Proof. intros lost B l r a r' H E. unfold store_timer in E. case_match; [|done]. by simplify_eq. Qed.

Lemma keeps_upd_timer_node i f : keeps (upd_timer_node i f).
Proof. intros lost B l r a r' H E. unfold upd_timer_node in E. case_match; [|done]. by simplify_eq. Qed.

Lemma keeps_load_timer i : keeps (load_timer i).
Proof. apply keeps_deref. Qed.

Lemma keeps_load_timer_node i : keeps (load_timer_node i).
Proof. apply keeps_deref. Qed.

#[export] Hint Resolve keeps_load_timer keeps_load_timer_node : keeps.
#[export] Hint Resolve keeps_ret keeps_gets keeps_load_task keeps_load_p keeps_deref keeps_ub
  keeps_bump_stat keeps_bump_p_stat keeps_wake_workers keeps_wake keeps_on_timer_heap
  keeps_store_timer keeps_upd_timer_node : keeps.

(** Walk through a computation, splitting its branches. *)
Ltac keeps_solve :=
  repeat first
    [ progress (intros; cbn beta zeta)
    | solve [auto with keeps nocore]
    | apply keeps_bind
    | apply keeps_modify; intros; case_match; done
    | apply keeps_modify; done
    | apply keeps_dec_guarded; done
    | apply keeps_upd_task; done
    | apply keeps_upd_p; done
    | case_match ].

Lemma keeps_complete_io i b : keeps (vl_task_complete_io i b).
Proof. unfold vl_task_complete_io. keeps_solve. Qed.

Lemma keeps_timer_init i c : keeps (vl_timer_init i c).
Proof. unfold vl_timer_init. keeps_solve. Qed.

Lemma keeps_timer_cancel i : keeps (vl_timer_cancel i).
Proof. unfold vl_timer_cancel. keeps_solve. Qed.

Lemma keeps_timer_destroy i : keeps (vl_timer_destroy i).
Proof. unfold vl_timer_destroy. keeps_solve. Qed.

Lemma keeps_timer_arm_resumed i t : keeps (vl_timer_arm_resumed i t).
Proof. unfold vl_timer_arm_resumed. keeps_solve. Qed.

Lemma keeps_expire p n : keeps (vl_timers_expire p n).
Proof.
  unfold vl_timers_expire. apply keeps_bind; [auto with keeps|]. intros x.
  generalize (length (items (timers x))) as fuel. induction fuel as [|fuel IH]; cbn [expire_loop]; keeps_solve.
Qed.

Lemma keeps_wake_joiners fuel w : keeps (wake_joiners fuel w).
Proof. revert w. induction fuel as [|fuel IH]; intros w; cbn [wake_joiners]; keeps_solve. Qed.

Lemma keeps_join_enqueue t c : keeps (join_enqueue t c).
Proof. unfold join_enqueue. keeps_solve. Qed.

Lemma keeps_timeout_ms p n : keeps (vl_timers_timeout_ms p n).
Proof. unfold vl_timers_timeout_ms. keeps_solve. Qed.

#[export] Hint Resolve keeps_complete_io keeps_timer_init keeps_timer_cancel keeps_timer_destroy
  keeps_timer_arm_resumed keeps_expire keeps_wake_joiners keeps_join_enqueue keeps_timeout_ms : keeps.

(** ** Parking *)

Lemma Inv_set_state {lost} B l r i t st : Inv lost B l r -> tasks r !! i = Some t -> state t = VL_TASK_RUNNING ->
  st = VL_TASK_RUNNABLE \/ parked st ->
  Inv lost B l (set_tasks (<[i := set_state st t]> (tasks r)) r).
Proof.
  intros (G & L & loc & H) Hi Hs Hst. exists G, L, loc.
  pose proof (inv_tasks _ _ _ _ _ _ _ _ _ _ _ _ _ H i t Hi ltac:(done)) as [Hq He Hstate Hf Hla Hp Hw].
  assert (Hex : exists p, loc i = P_exec p).
  { destruct (loc i); eauto; rewrite Hs in Hstate; unfold parked in Hstate; naive_solver. }
  destruct Hex as [p Hloc]. rewrite Hloc in *.
  eapply task_update; [exact H|done|done| |].
  - rewrite Hloc. split; simpl; try done; [tauto|].
    intros E. destruct (Hw E) as [Ht|[_ [Hp'|Hp']]]; rewrite Hs in *; done.
  - assert (live_b (set_state st t) = live_b t) as ->; [|simpl; lia]. unfold live_b. simpl. rewrite Hs.
    by destruct Hst as [->|[->| ->]].
Qed.

(** [state = st] on the running task, then code that keeps the invariant. *)
Lemma Inv_park {lost} {A} B l r i t st (rest : unit -> R A) a r' : Inv lost B l r -> tasks r !! i = Some t ->
  state t = VL_TASK_RUNNING -> st = VL_TASK_RUNNABLE \/ parked st -> keeps (rest tt) ->
  (upd_task i (set_state st) ≫= rest) r = Some (a, r') -> Inv lost B l r'.
Proof.
  intros H Hi Hs Hst Hrest E. rewrite (bind_Some _ _ _ _ _ (upd_task_run _ _ _ _ Hi)) in E.
  eapply Hrest; [|exact E]. by apply Inv_set_state.
Qed.

Lemma not_running_false st : bool_decide (st <> VL_TASK_RUNNING) = false -> st = VL_TASK_RUNNING.
Proof. by destruct st. Qed.

Lemma keeps_task_current th : keeps (vl_task_current th).
Proof. unfold vl_task_current. keeps_solve. Qed.

Lemma keeps_set_current_none p : keeps (vl_context_set_current None p).
Proof. apply keeps_ret. Qed.

#[export] Hint Resolve keeps_task_current keeps_set_current_none : keeps.

Lemma keeps_yield th : keeps (vl_yield th).
Proof.
  unfold vl_yield. apply keeps_bind; [auto with keeps|]. intros [i|]; [|keeps_solve].
  intros lost B l r a r' HI E. minv_step. minv_step. case_match; [by minv|].
  match goal with H : _ || _ = false |- _ => apply orb_false_iff in H as [Hs%not_running_false _] end.
  eapply Inv_park in E; eauto. keeps_solve.
Qed.

Lemma keeps_prepare_park th st : keeps (vl_task_prepare_park th st).
Proof.
  unfold vl_task_prepare_park. apply keeps_bind; [auto with keeps|]. intros [i|]; [|keeps_solve].
  case_match; [|keeps_solve]. destruct (parked_dec st) as [[-> _]|[-> Hp]]; [keeps_solve|].
  intros lost B l r a r' HI E. minv_step. minv_step. case_match; [by minv|].
  match goal with H : _ || _ = false |- _ => apply orb_false_iff in H as [Hs%not_running_false _] end.
  eapply Inv_park in E; eauto. keeps_solve.
Qed.

Lemma keeps_join th i : keeps (vl_join th i).
Proof.
  unfold vl_join. destruct i as [i|]; [|keeps_solve]. apply keeps_bind; [auto with keeps|]. intros t.
  case_match; [keeps_solve|]. apply keeps_bind; [auto with keeps|]. intros [c|]; [|keeps_solve].
  case_match; [|keeps_solve]. case_match; [keeps_solve|].
  intros lost B l r a r' HI E. minv_step. minv_step. case_match; [by minv|].
  match goal with H : _ || _ = false |- _ => apply orb_false_iff in H as [_ Hs%not_running_false] end.
  eapply Inv_park in E; eauto; [by right; left|]. keeps_solve.
Qed.

Lemma task_current_inv th r c r' : vl_task_current th r = Some (c, r') -> r' = r.
Proof. unfold vl_task_current. destruct (vl_current_p th); intros E; by minv. Qed.

Lemma can_park_for_io_inv th i io r c r' : vl_task_can_park_for_io th i io r = Some (c, r') ->
  r' = r /\ (c = VL_OK -> exists j t, i = Some j /\ tasks r !! j = Some t /\ state t = VL_TASK_RUNNING).
Proof.
  unfold vl_task_can_park_for_io. intros E. apply bind_inv in E as (cur & r1 & Ec & E).
  apply task_current_inv in Ec as ->.
  destruct i as [j|], io as [d|], (vl_current_p th) as [p|]; try by minv.
  destruct (negb _ || _); [by minv|].
  apply bind_inv in E as (t & r1 & [Ht ->]%load_task_inv & E).
  destruct (bool_decide _ || _) eqn:Es; [by minv|].
  apply orb_false_iff in Es as [Es%not_running_false _].
  do 2 minv_step. do 2 minv_step. case_match; minv; naive_solver.
Qed.

Lemma keeps_park_for_io th i io : keeps (vl_task_park_for_io th i io).
Proof.
  intros lost B l r a r' H E. unfold vl_task_park_for_io in E. apply bind_inv in E as (x & r1 & Ec & E).
  apply can_park_for_io_inv in Ec as [-> Hc]. destruct x; try by minv.
  destruct (Hc eq_refl) as (j & t & -> & Hj & Hs). destruct (vl_current_p th) as [p|]; [|by minv].
  apply bind_inv in E as (? & ? & ->%modify_inv & E).
  apply bind_inv in E as (? & ? & (t' & Ht' & ->)%upd_task_inv & E).
  assert (t' = t) as -> by (simpl in Ht'; congruence).
  eapply (Inv_park _ _ _ j (set_waiting_for_io true t)) in E; eauto.
  - change (Inv lost B l (set_tasks (<[j := set_waiting_for_io true t]> (tasks r)) r)).
    eapply (keeps_upd_task j (set_waiting_for_io true)); [done|done|exact H|]. by apply upd_task_run.
  - apply lookup_insert_eq.
  - by right; left.
  - keeps_solve.
Qed.

(** [vl_timer_arm] parks the task before it pushes the timer and takes that back
    when the push fails. *)
Lemma Inv_unpark {lost} B l r i t : Inv lost B l r -> tasks r !! i = Some t ->
  parked (state t) -> executing t = true -> wake_pending t = false ->
  Inv lost B l (set_tasks (<[i := set_state VL_TASK_RUNNING t]> (tasks r)) r).
Proof.
  intros (G & L & loc & H) Hi Hs Hex Hwp. exists G, L, loc.
  pose proof (inv_tasks _ _ _ _ _ _ _ _ _ _ _ _ _ H i t Hi ltac:(done)) as [Hq He Hstate Hf Hla Hp Hw].
  apply He in Hex. destruct (loc i) eqn:Hloc; try done.
  eapply task_update; [exact H|done|done| |].
  - rewrite Hloc. split; simpl; try done; [tauto|congruence].
  - assert (live_b (set_state VL_TASK_RUNNING t) = live_b t) as ->; [|simpl; lia].
    unfold live_b. by destruct Hs as [-> | ->].
Qed.

Lemma running_no_wake {lost} B l r i t : Inv lost B l r -> tasks r !! i = Some t -> state t = VL_TASK_RUNNING ->
  wake_pending t = false /\ executing t = true.
Proof.
  intros (G & L & loc & H) Hi Hs.
  pose proof (inv_tasks _ _ _ _ _ _ _ _ _ _ _ _ _ H i t Hi ltac:(done)) as [Hq He Hstate Hf Hla Hp Hw].
  rewrite Hs in *. split.
  - destruct (wake_pending t); [|done]. unfold parked in Hw. naive_solver.
  - apply He. destruct (loc i); unfold parked in Hstate; naive_solver.
Qed.

Lemma store_timer_tasks i v r u r' : store_timer i v r = Some (u, r') -> tasks r' = tasks r.
Proof. unfold store_timer. case_match; naive_solver. Qed.

Lemma upd_timer_node_tasks i f r u r' : upd_timer_node i f r = Some (u, r') -> tasks r' = tasks r.
Proof. unfold upd_timer_node. case_match; naive_solver. Qed.

Lemma on_timer_heap_tasks {A} p (op : C timer_store A) r a r' :
  on_timer_heap p op r = Some (a, r') -> tasks r' = tasks r.
Proof. unfold on_timer_heap. repeat case_match; naive_solver. Qed.

Lemma keeps_timer_arm th tm delay n ok : keeps (vl_timer_arm th tm delay n ok).
Proof.
  unfold vl_timer_arm. apply keeps_bind; [unfold vl_timer_current; keeps_solve|].
  intros cur. destruct tm as [tm|]; [|keeps_solve]. destruct cur as [[p task]|]; [|keeps_solve].
  case_match; [keeps_solve|]. apply keeps_bind; [auto with keeps|]. intros node.
  apply keeps_bind; [auto with keeps|]. intros impl.
  intros lost B l r a r' HI E. apply bind_inv in E as (t & r1 & [Ht ->]%load_task_inv & E).
  case_match eqn:Es; [by minv|]. apply orb_false_iff in Es as [Es _].
  apply orb_false_iff in Es as [_ Es%not_running_false].
  destruct (running_no_wake _ _ _ _ _ HI Ht Es) as [Hwp Hex].
  apply bind_inv in E as (? & r1 & (t' & Ht' & ->)%upd_task_inv & E). simplify_eq.
  apply (Inv_set_state _ _ _ _ _ VL_TASK_SLEEPING HI) in Ht as H1; [|done|by right; right].
  apply bind_inv in E as (? & r2 & E2 & E).
  eapply keeps_upd_task in E2 as H2; [|done..|exact H1]. apply upd_task_inv in E2 as (t2 & Ht2 & ->).
  simpl in Ht2. rewrite lookup_insert_eq in Ht2. injection Ht2 as <-.
  apply bind_inv in E as (? & r3 & E3 & E). eapply keeps_store_timer in E3 as H3; [|exact H2].
  apply store_timer_tasks in E3.
  apply bind_inv in E as (? & r4 & E4 & E). eapply keeps_upd_timer_node in E4 as H4; [|exact H3].
  apply upd_timer_node_tasks in E4.
  apply bind_inv in E as (res & r5 & E5 & E). eapply keeps_on_timer_heap in E5 as H5; [|exact H4].
  apply on_timer_heap_tasks in E5. case_match.
  - match type of E with ?m _ = _ => assert (Hk : keeps m) by keeps_solve end. by eapply Hk.
  - apply bind_inv in E as (? & r6 & E6 & E). eapply keeps_store_timer in E6 as H6; [|exact H5].
    apply store_timer_tasks in E6. minv. eapply Inv_unpark; [exact H6|eassumption|..];
    match goal with H : tasks r6 !! task = Some ?u |- _ =>
      rewrite E6, E5, E4, E3 in H; simpl in H; rewrite lookup_insert_eq in H; injection H as <- end; [by right|done|done].
Qed.

#[export] Hint Resolve keeps_yield keeps_prepare_park keeps_join keeps_park_for_io keeps_timer_arm : keeps.

(** ** Spawning *)

Lemma transit_new B l m q xs lost live act idl G L loc i t :
  sched_inv None B l m q xs lost live act idl G L loc -> m !! i = None -> live_b t = true ->
  sched_inv (Some i) (B + 1) l (<[i := t]> m) q xs lost (live + 1) act idl G L loc.
Proof.
  intros H Hi Ht. pose proof (inv_at_global _ i H) as Hg.
  destruct H as [H1 H2 H3 H4 H5 H6 H7 H8 H9 H10 H11 H12 H13].
  assert (Hl : loc i = P_none).
  { destruct (decide (loc i = P_none)) as [|Hne]; [done|]. destruct (H6 i Hne). congruence. }
  rewrite Hl in Hg. split; try done.
  - eapply iq_repr_frame; [done|]. intros j u Hj Hu. exists u. split; [|done].
    rewrite lookup_insert_ne; [done|]. naive_solver.
  - intros p v Hv. eapply p_ok_mono; [by apply H4|lia].
  - intros j Hj. destruct (decide (i = j)) as [<-|]; [rewrite lookup_insert_eq; eauto|].
    rewrite lookup_insert_ne by done. by apply H6.
  - intros j [= <-]. split; [done|]. rewrite lookup_insert_eq. eauto.
  - intros j u. destruct (decide (i = j)) as [<-|]; [done|]. rewrite lookup_insert_ne by done. intros. by apply H8.
  - rewrite live_count_new by done. lia.
  - rewrite map_size_insert_None by done. lia.
Qed.

Lemma enqueue_global_eq i r t : tasks r !! i = Some t -> state t = VL_TASK_RUNNABLE -> queued t = false ->
  vl_task_enqueue_global_locked (Some i) r =
  match iq_push queue_link (global_runnable r) i (<[i := set_queued true t]> (tasks r)) with
  | Some (q, m) => Some (tt, set_global_runnable q (set_tasks m r))
  | None => None
  end.
Proof.
  intros Hi Hs Hq. unfold vl_task_enqueue_global_locked.
  rewrite (bind_Some _ _ _ _ _ (load_task_run _ _ _ Hi)), decide_True by done.
  by rewrite (bind_Some _ _ _ _ _ (mark_queued_run _ _ _ Hi Hq)).
Qed.

(** What [vl_spawn] does when it does not refuse. *)
Lemma spawn_run {lost} B l r G L loc i : Inv_at lost None B l r G L loc -> tasks r !! i = None ->
  exists q m, vl_task_enqueue_global_locked (Some i)
      (set_tasks (<[i := set_state VL_TASK_RUNNABLE (set_all_next (all_tasks r) new_task)]> (tasks r))
         (set_all_tasks (Some i) r)) =
    Some (tt, set_global_runnable q (set_tasks m (set_all_tasks (Some i) r))) /\
    sched_inv None (B + 1) l m q (view_p <$> ps r) lost (live_tasks r + 1)
      (active_workers r) (idle_workers r) (G ++ [i]) L (move [i] P_global loc).
Proof.
  intros H Hi. set (t0 := set_state VL_TASK_RUNNABLE (set_all_next (all_tasks r) new_task)).
  erewrite enqueue_global_eq; [|apply lookup_insert_eq|done|done]. simpl.
  rewrite insert_insert_eq.
  eapply (transit_new _ _ _ _ _ _ _ _ _ _ _ _ i (set_queued true t0)) in H; [|done|done].
  eapply transit_push in H as (q & m & E & Hu & H'); [|apply lookup_insert_eq|by apply waking_global].
  rewrite E. by exists q, m.
Qed.

Lemma Inv_mono {lost} B B' l r : Inv lost B l r -> B <= B' -> Inv lost B' l r.
Proof.
  intros (G & L & loc & H) HB. exists G, L, loc. destruct H as [H1 H2 H3 H4 H5 H6 H7 H8 H9 H10 H11 H12 H13].
  split; try done; [|lia]. intros p v Hv. eapply p_ok_mono; [by apply H4|done].
Qed.

Lemma Inv_live_word {lost} B l r : Inv lost B l r -> 0 <= live_tasks r <= B.
Proof.
  intros (G & L & loc & H). destruct H as [_ _ _ _ _ _ _ _ H9 _ _ H12 _].
  pose proof (live_count_le (tasks r)). lia.
Qed.

Lemma Inv_spawn {lost} th fn c B l r a r' : Inv lost B l r -> B + 1 < W64 ->
  vl_spawn th fn c r = Some (a, r') -> Inv lost (B + 1) l r'.
Proof.
  intros HI HB E. pose proof (Inv_live_word _ _ _ HI) as Hlive.
  assert (HI' : Inv lost (B + 1) l r) by (eapply Inv_mono; [done|lia]).
  unfold vl_spawn in E. case_match; [by minv|]. minv_step. minv_step.
  case_match; [by minv|]. destruct c as [i|]; [|by minv]. do 2 minv_step.
  case_match; [by minv|]. do 2 minv_step. case_match; [|by minv].
  destruct HI as (G & L & loc & HI).
  destruct (spawn_run B l r G L loc i HI) as (q & m & Es & H'); [done|].
  apply bind_inv in E as (? & ? & [-> ->]%gets_inv & E).
  apply bind_inv in E as (? & ? & ->%modify_inv & E).
  apply bind_inv in E as (? & ? & ->%modify_inv & E).
  apply bind_inv in E as (? & ? & (t & Ht & ->)%upd_task_inv & E).
  simpl in Ht. rewrite lookup_insert_eq in Ht. injection Ht as <-.
  apply bind_inv in E as (? & ? & E1 & E).
  match type of E1 with vl_task_enqueue_global_locked _ ?r1 = _ =>
    replace r1 with (set_tasks (<[i := set_state VL_TASK_RUNNABLE (set_all_next (all_tasks r) new_task)]> (tasks r))
         (set_all_tasks (Some i) r)) in E1 by (unfold set_tasks at 2 3; simpl; by rewrite insert_insert_eq) end.
  rewrite Es in E1. injection E1 as _ <-.
  apply bind_inv in E as (? & ? & ->%modify_inv & E).
  match type of E with ?k _ = _ => assert (Hk : keeps k) by keeps_solve end.
  eapply Hk; [|exact E]. exists (G ++ [i]), L, (move [i] P_global loc).
  unfold Inv_at. simpl. rewrite w64_small by word_lia. exact H'.
Qed.

(** ** Cancelling *)

Lemma cancel_update {lost} B l r G L loc i t t' : Inv_at lost None B l r G L loc -> tasks r !! i = Some t ->
  live_b t = true -> executing t = false -> core t' = core (set_state VL_TASK_CANCELLED t) ->
  queue_next t' = queue_next t ->
  sched_inv None B l (<[i := t']> (tasks r)) (global_runnable r) (view_p <$> ps r)
    lost (live_tasks r - 1) (active_workers r) (idle_workers r) G L loc.
Proof.
  intros H Hi Hl He Hc Hq. unfold core in Hc. injection Hc as Ef Es Eq El Ee Ew. simpl in *.
  pose proof (inv_tasks _ _ _ _ _ _ _ _ _ _ _ _ _ H i t Hi ltac:(done)) as [Hoq Hoe Hos Hof Hol Hop How].
  eapply task_update; [exact H|done|done| |].
  - split; rewrite ?Ef, ?Eq, ?El, ?Ee, ?Ew, ?Es; try done.
    + destruct (loc i); auto. rewrite (proj2 Hoe I) in He. done.
    + intros _. by left.
  - unfold live_b at 1. rewrite Es, Hl. simpl. lia.
Qed.

Lemma Inv_cancel_from {lost} fuel i B l r a r' : Inv lost B l r -> B < W64 ->
  cancel_from fuel i r = Some (a, r') -> Inv lost B l r'.
Proof.
  revert i r. induction fuel as [|fuel IH]; intros i r HI HB E.
  { destruct i; cbn [cancel_from] in E; by minv. }
  destruct i as [i|]; cbn [cancel_from] in E; [|by minv].
  apply bind_inv in E as (term & r1 & E1 & E).
  cbn [vl_task_is_terminal] in E1. apply bind_inv in E1 as (t & ? & [Ht ->]%load_task_inv & [-> ->]%mret_inv).
  apply bind_inv in E as (t' & ? & [Ht' ->]%load_task_inv & E). simplify_eq.
  apply bind_inv in E as (? & r2 & E2 & E). eapply IH; [|done|exact E].
  destruct (negb (terminal (state t)) && negb (executing t)) eqn:Ec; [|by minv].
  apply andb_true_iff in Ec as [Hl He%negb_true_iff].
  pose proof (Inv_live_word _ _ _ HI) as Hlive. destruct HI as (G & L & loc & HI).
  assert (Hpos : 0 < live_tasks r).
  { pose proof (cancel_update _ _ _ _ _ _ _ _ (set_state VL_TASK_CANCELLED t) HI Ht Hl He eq_refl eq_refl) as H'.
    apply inv_live in H'. lia. }
  assert (Hw : w64 (live_tasks r - 1) = live_tasks r - 1) by (apply w64_small; word_lia).
  exists G, L, loc. apply bind_inv in E2 as (? & r3 & (t2 & Ht2 & ->)%upd_task_inv & E2).
  assert (t2 = t) as -> by congruence.
  apply bind_inv in E2 as (w & ? & [-> ->]%gets_inv & E2).
  apply bind_inv in E2 as (? & r4 & E3 & E2).
  apply bind_inv in E2 as (? & r5 & E4%modify_inv & E5%modify_inv). subst r5 r2.
  destruct (waiting_for_io t && _).
  - apply bind_inv in E3 as (? & r6 & (t3 & Ht3 & ->)%upd_task_inv & ->%modify_inv).
    simpl in Ht3. rewrite lookup_insert_eq in Ht3. injection Ht3 as <-.
    unfold Inv_at. simpl. destruct (Z.eqb_spec (live_tasks r) 0); [lia|]. simpl. rewrite Hw, insert_insert_eq.
    by eapply cancel_update.
  - minv. unfold Inv_at. simpl. destruct (Z.eqb_spec (live_tasks r) 0); [lia|]. simpl. rewrite Hw.
    by eapply cancel_update.
Qed.

Lemma Inv_cancel_all {lost} B l r a r' : Inv lost B l r -> B < W64 -> vl_task_cancel_all r = Some (a, r') -> Inv lost B l r'.
Proof. intros HI HB E. unfold vl_task_cancel_all in E. do 4 minv_step. by eapply Inv_cancel_from. Qed.

(** ** Taking a task *)

Lemma on_run_queue_inv {A} p (op : C vl_run_queue A) r a r' : on_run_queue p op r = Some (a, r') ->
  exists x q, ps r !! p = Some x /\ op (runnable x) = Some (a, q) /\
    r' = set_ps (<[p := set_runnable q x]> (ps r)) r.
Proof. unfold on_run_queue. repeat case_match; naive_solver. Qed.

Lemma view_set_runnable (xs : list vl_p) p q x :
  view_p <$> <[p := set_runnable q x]> xs = <[p := with_queue q (view_p x)]> (view_p <$> xs).
Proof. by rewrite list_fmap_insert. Qed.

Lemma view_lookup r p x : ps r !! p = Some x -> (view_p <$> ps r) !! p = Some (view_p x).
Proof. intros H. by rewrite list_lookup_fmap, H. Qed.

Lemma Inv_at_p {lost} E B l r G L loc p x : Inv_at lost E B l r G L loc -> ps r !! p = Some x ->
  p_ok B (pc_at l p) (L p) (view_p x).
Proof. intros H Hx. by apply H, view_lookup. Qed.

Definition is_waiting (pc : worker_pc) : bool := match pc with W_wait _ => true | _ => false end.

(** A worker that is not in its poll is not counted idle. *)
Lemma not_idle {lost} E B l r G L loc p x : Inv_at lost E B l r G L loc -> ps r !! p = Some x ->
  is_waiting (pc_at l p) = false -> idle x = false.
Proof.
  intros H Hx Hw. destruct (idle x) eqn:Hi; [|done].
  destruct (p_idle _ _ _ _ (Inv_at_p _ _ _ _ _ _ _ _ _ H Hx) Hi) as [sw Hs]. by rewrite Hs in Hw.
Qed.

(** A change of program counter that keeps what the worker holds. *)
Lemma Inv_pc {lost} B l r p pc' : Inv lost B l r -> (p < length l)%nat -> is_waiting (pc_at l p) = false ->
  pc_batch pc' = pc_batch (pc_at l p) -> pc_hand pc' = pc_hand (pc_at l p) ->
  pc_exec pc' = pc_exec (pc_at l p) -> pc_running pc' = pc_running (pc_at l p) ->
  Inv lost B (<[p := pc']> l) r.
Proof.
  intros (G & L & loc & H) Hp Hw Eb Eh Ee Er. exists G, L, loc.
  assert (Hlen := inv_len _ _ _ _ _ _ _ _ _ _ _ _ _ H). rewrite length_fmap in Hlen.
  destruct (lookup_lt_is_Some_2 (ps r) p) as [x Hx]; [lia|].
  pose proof (not_idle _ _ _ _ _ _ _ _ _ H Hx Hw) as Hid.
  pose proof (Inv_at_p _ _ _ _ _ _ _ _ _ H Hx) as [_ _ _ Hc].
  unfold Inv_at. rewrite <- (list_insert_id (view_p <$> ps r) p (view_p x)) by by apply view_lookup.
  eapply pc_keep; [exact H|by apply view_lookup| |done..|].
  - split; [done|]. simpl in *. split; congruence.
  - rewrite list_insert_id by by apply view_lookup. apply H.
Qed.

(** Dequeuing: the flag is cleared, the worker holds the task. *)
Lemma ok_hand lost p t pl : task_ok lost pl t -> match pl with P_local _ | P_batch _ => True | _ => False end ->
  task_ok lost (P_hand p) (set_queued false t).
Proof.
  intros [Hq He Hs Hf Hla Hp Hw] Hpl. destruct pl; try done; split; simpl; auto; try tauto;
    (split; [|done]); intros E; first [discriminate|by apply He in E].
Qed.

(** From transit into the worker's hand. *)
Lemma transit_hand {lost} B l r G L loc p x i t : Inv_at lost (Some i) B l r G L loc -> ps r !! p = Some x ->
  tasks r !! i = Some t -> task_ok (lost i) (P_hand p) t ->
  pc_batch (pc_at l p) = [] -> pc_hand (pc_at l p) = [] -> pc_exec (pc_at l p) = [] ->
  pc_running (pc_at l p) = None -> is_waiting (pc_at l p) = false ->
  Inv lost B (<[p := W_have i]> l) r.
Proof.
  intros H Hx Hi Hok Eb Eh Ee Er Hw. eexists G, L, _.
  pose proof (not_idle _ _ _ _ _ _ _ _ _ H Hx Hw) as Hid.
  pose proof (Inv_at_p _ _ _ _ _ _ _ _ _ H Hx) as [_ _ _ Hc].
  pose proof (inv_pc_lt _ p _ H (view_lookup _ _ _ Hx)) as Hp.
  unfold Inv_at. rewrite <- (list_insert_id (view_p <$> ps r) p (view_p x)) by by apply view_lookup.
  eapply (pc_in p _ _ _ i t (P_hand p)); [exact H|by apply view_lookup| |done|done|done| | | |].
  - split; [done|]. simpl in *. rewrite Hid, Hc, Er. done.
  - intros pl Hpl. destruct pl; pc_holdings.
  - simpl. rewrite pc_at_insert, decide_True by done. by rewrite Eh.
  - unfold exec_weight. rewrite Ee. simpl. lia.
  - rewrite list_insert_id by by apply view_lookup. apply H.
Qed.

(** The program counters of a worker that holds nothing. *)
Definition empty_handed (pc : worker_pc) : Prop :=
  pc_batch pc = [] /\ pc_hand pc = [] /\ pc_exec pc = [] /\ pc_running pc = None /\ is_waiting pc = false.

Lemma Inv_take_local {lost} B l r p a r' : Inv lost B l r -> pc_at l p = W_local ->
  take_local p r = Some (a, r') -> Inv lost B (<[p := have_or a W_global]> l) r'.
Proof.
  intros (G & L & loc & H) Hpc E. unfold take_local in E.
  apply bind_inv in E as (i & r1 & (x & q & Hx & Eop & ->)%on_run_queue_inv & E).
  pose proof (Inv_at_p _ _ _ _ _ _ _ _ _ H Hx) as [Hr Hb _ _]. simpl in *.
  pose proof (inv_pc_lt _ p _ H (view_lookup _ _ _ Hx)) as Hp.
  destruct (owner_pop_repr _ _ Hr) as [[Hnil E']|(c & j & q' & Hc & E' & Hr' & _ & Hb')];
    rewrite E' in Eop; simplify_eq.
  - minv. simpl. apply Inv_pc; rewrite ?Hpc; try done. exists G, L, loc. unfold Inv_at. simpl.
    erewrite view_p_insert; [exact H|exact Hx|]. by destruct x.
  - apply bind_inv in E as (? & ? & (t & Ht & ->)%upd_task_inv & [-> ->]%mret_inv). simpl in Ht. cbn [have_or].
    destruct (local_transit j p (view_p x) q c H) as (t' & Ht' & Hok & H'); [by apply view_lookup|done|done|lia|].
    simplify_eq.
    eapply (transit_hand _ _ _ _ _ _ p _ j); rewrite ?Hpc; try done.
    + eapply transit_set; [|exact Ht|done]. unfold Inv_at. simpl. rewrite view_set_runnable. exact H'.
    + simpl. apply list_lookup_insert_eq. by eapply lookup_lt_Some.
    + apply lookup_insert_eq.
    + by eapply ok_hand.
Qed.

Lemma queue_pop_inv {lost} B l r G L loc a r' : Inv_at lost None B l r G L loc ->
  vl_task_queue_pop r = Some (a, r') ->
  (a = None /\ r' = r /\ G = []) \/
  exists i G' t loc', a = Some i /\ G = i :: G' /\ tasks r' !! i = Some t /\
    task_ok (lost i) P_global t /\ Inv_at lost (Some i) B l r' G' L loc' /\ ps r' = ps r.
Proof.
  intros H E. unfold vl_task_queue_pop in E. destruct G as [|i G'].
  - left. rewrite (iq_pop_nil _ _ _ (inv_global _ _ _ _ _ _ _ _ _ _ _ _ _ H)) in E. simplify_eq.
    split; [done|]. split; [|done]. by destruct r.
  - right. destruct (pop_transit i G' H eq_refl) as (q & m & t & E' & Hu & Ht & Hok & H').
    rewrite E' in E. simplify_eq. exists i, G', t, (move [i] P_none loc). done.
Qed.

Lemma queue_push_inv {lost} B l r G L loc i t u r' : Inv_at lost (Some i) B l r G L loc -> tasks r !! i = Some t ->
  task_ok (lost i) P_global t -> vl_task_queue_push i r = Some (u, r') ->
  Inv lost B l r' /\ ps r' = ps r.
Proof.
  intros H Hi Hok E. destruct (queue_push_run _ _ _ _ _ _ _ _ H Hi Hok) as (q & m & E' & _ & H').
  rewrite E in E'. simplify_eq. split; [by eexists _, _, _|done].
Qed.

(** A task of the global queue this P may run. *)
Lemma ok_global_hand lost p t : task_ok lost P_global t ->
  bool_decide (fiber t = None) || bool_decide (last_p t = Some p) = true ->
  task_ok lost (P_hand p) (set_queued false t).
Proof.
  intros [Hq He Hs Hf Hla Hp Hw] E. split; simpl; auto.
  - done.
  - apply orb_true_iff in E as [E%bool_decide_eq_true|E%bool_decide_eq_true]; [by left|].
    destruct (fiber t) as [p'|]; [|by left]. right. rewrite <- Hp by done. done.
Qed.

Lemma ok_global_local lost p t : task_ok lost P_global t -> fiber t = None ->
  task_ok lost (P_local p) t.
Proof. intros [Hq He Hs Hf Hla Hp Hw] E. by split. Qed.

Lemma Inv_take_candidate {lost} n p B l r a r' : Inv lost B l r -> pc_at l p = W_global -> (p < length l)%nat ->
  take_candidate n p r = Some (a, r') -> Inv lost B (<[p := have_or a (W_steal 1)]> l) r'.
Proof.
  revert r. induction n as [|n IH]; intros r HI Hpc Hp E; cbn [take_candidate] in E.
  { minv. simpl. apply Inv_pc; rewrite ?Hpc; done. }
  destruct HI as (G & L & loc & H). apply bind_inv in E as (c & r1 & Ec & E).
  destruct (queue_pop_inv _ _ _ _ _ _ _ _ H Ec) as [(-> & _)|(i & G' & t & loc' & -> & HG & Ht & Hok & H' & Hps)];
    [by minv|].
  apply bind_inv in E as (t' & ? & [Ht' ->]%load_task_inv & E).
  assert (t' = t) as -> by congruence.
  assert (Hlen := inv_len _ _ _ _ _ _ _ _ _ _ _ _ _ H). rewrite length_fmap in Hlen.
  destruct (bool_decide _ || _) eqn:Eb.
  - apply bind_inv in E as (? & ? & (t2 & Ht2 & ->)%upd_task_inv & [-> ->]%mret_inv).
    assert (t2 = t) as -> by congruence.
    destruct (lookup_lt_is_Some_2 (ps r) p) as [xp Hxp]; [lia|]. cbn [have_or].
    eapply (transit_hand _ _ _ _ _ _ p _ i); rewrite ?Hpc; try done.
    + by eapply transit_set.
    + simpl. by rewrite Hps.
    + apply lookup_insert_eq.
    + by apply ok_global_hand.
  - apply bind_inv in E as (? & r2 & E2 & E).
    destruct (queue_push_inv _ _ _ _ _ _ _ _ _ _ H' Ht Hok E2) as [H2 _]. by eapply IH.
Qed.

(** A push to the P's own queue from transit, with the global queue as overflow. *)
Lemma transit_owner_push {lost} B l r G L loc p i t st r' : Inv_at lost (Some i) B l r G L loc -> B + 1 < W64 ->
  tasks r !! i = Some t -> task_ok (lost i) (P_local p) t ->
  on_run_queue p (vl_run_queue_owner_push (Some i)) r = Some (st, r') ->
  (st = VL_OK /\ Inv lost (B + 1) l r') \/ (st <> VL_OK /\ Inv_at lost (Some i) B l r' G L loc /\
    tasks r' = tasks r).
Proof.
  intros H HB Hi Hok E. apply on_run_queue_inv in E as (x & q & Hx & Eop & ->).
  pose proof (Inv_at_p _ _ _ _ _ _ _ _ _ H Hx) as [Hr Hb _ _]. simpl in Hr, Hb.
  destruct (owner_push_repr _ _ i Hr) as (st' & q' & E' & Hcase & _ & Hb'); [lia|].
  rewrite E' in Eop. simplify_eq. destruct Hcase as [(-> & _ & Hr')|(-> & _ & ->)].
  - left. split; [done|]. eexists G, _, _. unfold Inv_at. simpl. rewrite view_set_runnable.
    eapply transit_local; [exact H|done|by apply view_lookup|done|done|lia].
  - right. split; [done|]. split; [|done]. unfold Inv_at. simpl.
    erewrite view_p_insert; [exact H|exact Hx|]. by destruct x.
Qed.

Lemma Inv_pull_extras {lost} n p pulled B l r a r' : Inv lost B l r -> (pulled <= 8)%nat ->
  B + Z.of_nat (8 - pulled) < W64 ->
  pull_extras n p pulled r = Some (a, r') -> Inv lost (B + Z.of_nat (8 - pulled)) l r'.
Proof.
  revert B r pulled. induction n as [|n IH]; intros B r pulled HI Hle HB E; cbn [pull_extras] in E.
  { minv. eapply Inv_mono; [done|lia]. }
  apply bind_inv in E as (w & ? & [-> ->]%gets_inv & E).
  destruct (_ && (pulled <? VL_STEAL_BATCH_MAX)%nat) eqn:Eg; [|minv; eapply Inv_mono; [done|lia]].
  apply andb_true_iff in Eg as [_ Hlt%Nat.ltb_lt]. unfold VL_STEAL_BATCH_MAX in Hlt.
  destruct HI as (G & L & loc & H). apply bind_inv in E as (c & r1 & Ec & E).
  destruct (queue_pop_inv _ _ _ _ _ _ _ _ H Ec) as [(-> & _)|(i & G' & t & loc' & -> & HG & Ht & Hok & H' & Hps)];
    [by minv|].
  apply bind_inv in E as (t' & ? & [Ht' ->]%load_task_inv & E).
  assert (t' = t) as -> by congruence.
  destruct (bool_decide (fiber t <> None)) eqn:Ef.
  - apply bind_inv in E as (? & r2 & E2 & E).
    destruct (queue_push_inv _ _ _ _ _ _ _ _ _ _ H' Ht Hok E2) as [H2 _]. by eapply IH.
  - apply bool_decide_eq_false in Ef. apply dec_stable in Ef.
    apply bind_inv in E as (st & r2 & E2 & E).
    destruct (transit_owner_push _ _ _ _ _ _ _ _ _ _ _ H' ltac:(lia) Ht (ok_global_local _ _ _ Hok Ef) E2)
      as [[-> H2]|(Hst & H2 & Hts)].
    + rewrite decide_True in E by done. apply bind_inv in E as (? & r3 & E3 & E).
      eapply keeps_bump_p_stat in E3; [|exact H2].
      replace (B + Z.of_nat (8 - pulled)) with (B + 1 + Z.of_nat (8 - S pulled)) by lia.
      eapply IH; [exact E3|lia|lia|exact E].
    + rewrite decide_False in E by done. apply bind_inv in E as (? & r3 & E3 & E). minv.
      rewrite <- Hts in Ht.
      destruct (queue_push_inv _ _ _ _ _ _ _ _ _ _ H2 Ht Hok E3) as [H3 _].
      eapply Inv_mono; [exact H3|lia].
Qed.

Lemma Inv_take_global {lost} p B l r a r' : Inv lost B l r -> pc_at l p = W_global -> (p < length l)%nat ->
  B + 8 < W64 -> vl_worker_take_global p r = Some (a, r') ->
  Inv lost (B + 8) (<[p := have_or a (W_steal 1)]> l) r'.
Proof.
  intros HI Hpc Hp HB E. unfold vl_worker_take_global in E.
  apply bind_inv in E as (n1 & ? & [-> ->]%gets_inv & E).
  apply bind_inv in E as (task & r1 & E1 & E). apply (Inv_take_candidate (lost := lost) _ _ B l) in E1; [|done..].
  apply bind_inv in E as (n2 & ? & [-> ->]%gets_inv & E).
  apply bind_inv in E as (pulled & r2 & E2 & E).
  apply bind_inv in E as (? & r3 & E3 & [-> ->]%mret_inv).
  eapply keeps_bump_p_stat; [|exact E3]. eapply Inv_mono.
  - eapply Inv_pull_extras; [exact E1| | |exact E2]; destruct task; lia.
  - lia.
Qed.

(** ** Stealing *)

Lemma batch_move B l m q xs lost live act idl G L loc p vp victim v rq items first rest :
  sched_inv None B l m q xs lost live act idl G L loc ->
  xs !! p = Some vp -> empty_handed (pc_at l p) -> xs !! victim = Some v ->
  items = first :: rest -> L victim = items ++ drop (length items) (L victim) ->
  rq_repr rq (drop (length items) (L victim)) -> bottom rq <= B ->
  sched_inv None B (<[p := W_stolen first rest]> l) m q (<[victim := with_queue rq v]> xs) lost
    live act idl G (set_local victim (drop (length items) (L victim)) L) (move items (P_batch p) loc).
Proof.
  intros H Hvp (Eb & Eh & Ee & Er & Ew) Hv Hit HL Hr Hb.
  pose proof (inv_queue_ps victim v rq _ B (or_introl H) Hv ltac:(lia) Hr Hb) as Hps.
  pose proof (inv_pc_lt _ p _ H Hvp) as Hp.
  assert (Hin : forall i, i ∈ items -> loc i = P_local victim).
  { intros i Hi. apply (inv_at_local _ victim i H). rewrite HL. set_solver. }
  assert (Hnd : NoDup items).
  { destruct (inv_placed _ _ _ _ _ _ _ _ _ _ _ _ _ H (P_local victim)) as [Hnd _]; [done|].
    simpl in Hnd. rewrite HL in Hnd. by apply list.NoDup_app in Hnd as (? & _). }
  destruct H as [H1 H2 H3 H4 H5 H6 H7 H8 H9 H10 H11 H12 H13].
  split; rewrite ?length_insert, ?idle_with_queue by done; try done.
  - intros p' w Hw. specialize (Hps p' w Hw). rewrite pc_at_insert by done. case_decide as Hd; [|done].
    subst p'. destruct Hps as [Hq1 Hb1 Hi1 Hc1]. split; try done.
    + intros E. destruct (Hi1 E) as [sw Hsw]. by rewrite Hsw in Ew.
    + by rewrite Hc1, Er.
  - eapply (placed_move _ _ _ items (P_local victim) (P_batch p)); try done.
    + intros pl _ Hpl Hpl'. destruct pl; simpl; try done; unfold set_local;
        rewrite ?pc_at_insert by done; case_decide; subst; simpl; try done; congruence.
    + intros _. simpl. unfold set_local. rewrite decide_True by done. by rewrite <- HL.
    + intros _. simpl. rewrite pc_at_insert, decide_True, Eb by done. simpl. rewrite Hit. by rewrite app_nil_r.
  - intros j Hj. unfold move in Hj. destruct (decide (j ∈ items)) as [Hji|]; [|by apply H6].
    apply H6. by rewrite Hin.
  - intros j t Hj _. unfold move. specialize (H8 j t Hj ltac:(done)).
    destruct (decide (j ∈ items)) as [Hji|]; [|done]. rewrite (Hin j Hji) in H8.
    destruct H8 as [? ? ? ? ? ? ?]. by split.
  - assert (Hpc : l !! p = Some (pc_at l p)).
    { unfold pc_at. destruct (lookup_lt_is_Some_2 l p Hp) as [pc ->]. done. }
    pose proof (sum_list_with_insert exec_weight l p _ (W_stolen first rest) Hpc) as Hs.
    unfold exec_weight at 2 4 in Hs. rewrite Ee in Hs. simpl in Hs. lia.
  - intros p' Hp'. exact (proj1 (out_insert victim v _ _ Hv H13 p' Hp')).
Qed.

Lemma Inv_steal_from {lost} p victim offset B l r items r' : Inv lost B l r -> pc_at l p = W_steal offset ->
  (p < length l)%nat -> steal_from p victim r = Some (items, r') ->
  Inv lost B (<[p := match items with [] => W_steal (S offset) | first :: rest => W_stolen first rest end]> l) r'.
Proof.
  intros HI Hpc Hp E. unfold steal_from in E. apply bind_inv in E as (? & r1 & E1 & E).
  eapply keeps_bump_p_stat in E1; [|exact HI]. destruct E1 as (G & L & loc & H).
  apply on_run_queue_inv in E as (xv & q & Hx & Eop & ->).
  pose proof (Inv_at_p _ _ _ _ _ _ _ _ _ H Hx) as [Hr Hb _ _]. simpl in Hr, Hb.
  destruct (steal_batch_repr VL_STEAL_BATCH_MAX _ _ Hr) as (q' & E' & Hr' & _ & Hb').
  rewrite E' in Eop. injection Eop as Hitems <-.
  destruct items as [|first rest].
  - apply Inv_pc; rewrite ?Hpc; try done. exists G, (set_local victim (drop VL_STEAL_BATCH_MAX (L victim)) L), loc.
    assert (HL : drop VL_STEAL_BATCH_MAX (L victim) = L victim).
    { destruct (L victim); [done|]. simpl in Hitems. done. }
    pose proof (inv_queue_ps victim (view_p xv) q' _ B (or_introl H) (view_lookup _ _ _ Hx) ltac:(lia) Hr' ltac:(lia)) as Hps.
    unfold Inv_at. simpl. rewrite view_set_runnable.
    destruct H as [H1 H2 H3 H4 H5 H6 H7 H8 H9 H10 H11 H12 H13].
    pose proof (view_lookup _ _ _ Hx) as Hvx.
    split; rewrite ?length_insert, ?idle_with_queue by done; try done.
    + eapply placed_permutation; [exact H5|]. intros pl _. destruct pl; simpl; try done.
      unfold set_local. case_decide; [|done]. subst. by rewrite HL.
    + intros p' Hp'. exact (proj1 (out_insert victim _ _ _ Hvx H13 p' Hp')).
  - eexists G, _, _. unfold Inv_at. simpl. rewrite view_set_runnable.
    assert (Hlen := inv_len _ _ _ _ _ _ _ _ _ _ _ _ _ H). rewrite length_fmap in Hlen.
    destruct (lookup_lt_is_Some_2 (ps r1) p) as [xp Hxp]; [lia|].
    assert (Hdrop : drop (length (first :: rest)) (L victim) = drop VL_STEAL_BATCH_MAX (L victim)).
    { rewrite <- Hitems. rewrite length_take.
      destruct (Nat.le_gt_cases VL_STEAL_BATCH_MAX (length (L victim))); [by rewrite Nat.min_l by lia|].
      rewrite Nat.min_r by lia. rewrite drop_all, drop_ge by lia. done. }
    eapply (batch_move _ _ _ _ _ _ _ _ _ _ _ _ p (view_p xp) victim _ _ (first :: rest)); [exact H|by apply view_lookup| |by apply view_lookup|done|..].
    + by rewrite Hpc.
    + rewrite Hdrop, <- Hitems. by rewrite take_drop.
    + by rewrite Hdrop.
    + lia.
Qed.

(** The worker lets go of a task; [from] is what it held it as. *)
Lemma Inv_let_go {lost} B l r p pc' i from : Inv lost B l r -> (p < length l)%nat ->
  is_waiting (pc_at l p) = false -> pc_running pc' = pc_running (pc_at l p) -> from <> P_none ->
  pc_exec pc' = pc_exec (pc_at l p) ->
  (forall G L pl, pl <> from -> holdings G L (<[p := pc']> l) pl = holdings G L l pl) ->
  (forall G L, holdings G L l from ≡ₚ [i] ++ holdings G L (<[p := pc']> l) from) ->
  exists G L loc t, tasks r !! i = Some t /\ task_ok (lost i) from t /\
    Inv_at lost (Some i) B (<[p := pc']> l) r G L loc.
Proof.
  intros (G & L & loc & H) Hp Hw Er Hf Ee Ho Hperm.
  assert (Hlen := inv_len _ _ _ _ _ _ _ _ _ _ _ _ _ H). rewrite length_fmap in Hlen.
  destruct (lookup_lt_is_Some_2 (ps r) p) as [x Hx]; [lia|].
  pose proof (not_idle _ _ _ _ _ _ _ _ _ H Hx Hw) as Hid.
  pose proof (Inv_at_p _ _ _ _ _ _ _ _ _ H Hx) as [_ _ _ Hc].
  destruct (pc_out p (view_p x) (view_p x) pc' i from (active_workers r) (idle_workers r) H)
    as (t & Ht & Hok & _ & H'); try done.
  - by apply view_lookup.
  - split; [done|]. simpl in *. split; congruence.
  - intros pl Hpl. by apply Ho.
  - unfold exec_weight. rewrite Ee. lia.
  - rewrite list_insert_id by by apply view_lookup. apply H.
  - exists G, L, (move [i] P_none loc), t. split; [done|]. split; [done|].
    unfold Inv_at. rewrite (list_insert_id (view_p <$> ps r)) in H' by by apply view_lookup. exact H'.
Qed.

Lemma Inv_keep_stolen {lost} p first rest B l r a r' : Inv lost B l r -> pc_at l p = W_stolen first rest ->
  (p < length l)%nat -> B + Z.of_nat (length rest) < W64 ->
  keep_stolen p rest r = Some (a, r') ->
  Inv lost (B + Z.of_nat (length rest)) (<[p := W_stolen first []]> l) r'.
Proof.
  revert B l r. induction rest as [|i rest IH]; intros B l r HI Hpc Hp HB E; cbn [keep_stolen] in E.
  { minv. simpl. rewrite Z.add_0_r. apply Inv_pc; rewrite ?Hpc; done. }
  destruct (Inv_let_go B l r p (W_stolen first rest) i (P_batch p) HI Hp) as (G & L & loc & t & Ht & Hok & H);
    rewrite ?Hpc; try done.
  { intros G L pl Hpl. destruct pl; pc_holdings; rewrite Hpc; done. }
  { intros G L. simpl. rewrite pc_at_insert, decide_True, Hpc by done. simpl. apply Permutation_swap. }
  apply bind_inv in E as (st & r1 & E1 & E). apply bind_inv in E as (? & r2 & E2 & E).
  assert (Hlen : length (<[p := W_stolen first rest]> l) = length l) by apply length_insert.
  assert (Hpc' : pc_at (<[p := W_stolen first rest]> l) p = W_stolen first rest)
    by (rewrite pc_at_insert, decide_True by done; done).
  replace (B + Z.of_nat (length (i :: rest))) with (B + 1 + Z.of_nat (length rest)) by (simpl; lia).
  rewrite <- (list_insert_insert_eq l p (W_stolen first []) (W_stolen first rest)).
  eapply IH; [|done|lia|simpl in HB; lia|exact E].
  assert (Hok' : task_ok (lost i) (P_local p) t) by (destruct Hok; by split).
  destruct (transit_owner_push _ _ _ _ _ _ p _ _ _ _ H ltac:(simpl in HB; lia) Ht Hok' E1)
    as [[-> H2]|(Hst & H2 & Hts)].
  - rewrite decide_True in E2 by done. by eapply keeps_bump_p_stat.
  - rewrite decide_False in E2 by done. eapply Inv_mono; [|instantiate (1 := B); lia].
    eapply queue_push_inv; [exact H2|by rewrite Hts| |exact E2].
    destruct Hok as [? ? ? ? ? ? ?]. by split.
Qed.

Lemma Inv_steal_commit {lost} p first rest B l r a r' : Inv lost B l r -> pc_at l p = W_stolen first rest ->
  (p < length l)%nat -> B + Z.of_nat (length rest) < W64 ->
  steal_commit p first rest r = Some (a, r') ->
  a = first /\ Inv lost (B + Z.of_nat (length rest)) (<[p := W_have first]> l) r'.
Proof.
  intros HI Hpc Hp HB E. unfold steal_commit in E.
  apply bind_inv in E as (? & r1 & E1 & E). eapply keeps_bump_p_stat in E1; [|exact HI].
  apply bind_inv in E as (? & r2 & E2 & E). eapply keeps_bump_stat in E2; [|exact E1].
  apply bind_inv in E as (? & r3 & E3 & E).
  eapply Inv_keep_stolen in E3; [|exact E2|done..].
  apply bind_inv in E as (? & r4 & E4 & [-> ->]%mret_inv). split; [done|].
  assert (Hlen : length (<[p := W_stolen first []]> l) = length l) by apply length_insert.
  destruct (Inv_let_go _ _ _ p W_local first (P_batch p) E3) as (G & L & loc & t & Ht & Hok & H);
    rewrite ?pc_at_insert, ?decide_True by done; try done; [lia|..].
  { intros G L pl Hpl. rewrite list_insert_insert_eq. destruct pl; pc_holdings. }
  { intros G L. simpl. rewrite !pc_at_insert, !decide_True by (rewrite ?length_insert; done). done. }
  apply upd_task_inv in E4 as (t' & Ht' & ->). assert (t' = t) as -> by congruence.
  rewrite list_insert_insert_eq in H.
  assert (Hlen2 := inv_len _ _ _ _ _ _ _ _ _ _ _ _ _ H). rewrite length_fmap, length_insert in Hlen2.
  destruct (lookup_lt_is_Some_2 (ps r3) p) as [xp Hxp]; [lia|].
  rewrite <- (list_insert_insert_eq l p (W_have first) W_local).
  eapply (transit_hand _ _ _ _ _ _ p xp first (set_queued false t)); rewrite ?pc_at_insert, ?decide_True by done; try done.
  - by eapply transit_set.
  - apply lookup_insert_eq.
  - by eapply ok_hand.
Qed.
