(* ===== verification/SchedulerExecute.v ===== *)
(** * Executing, idling and the invariant of the whole system

    The steps of [vl_worker_execute] and [vl_worker_idle], and the theorem that
    every reachable state of the interleaved runtime satisfies the invariant. *)

From S2P Require Import Prelude Intrusive RunQueue TimerHeap RuntimeState Task Timer Worker Scheduler SchedulerInv SchedulerSteps.
From stdpp Require Import options.

Lemma lost_mono (b b' : bool) pl t : (b = true -> b' = true) -> task_ok b pl t -> task_ok b' pl t.
Proof. intros Hb [Hq He Hs Hf Hla Hp Hw]. split; auto. destruct pl; naive_solver. Qed.

Lemma Inv_at_lost lost lost' E B l r G L loc : (forall i, lost i = true -> lost' i = true) ->
  Inv_at lost E B l r G L loc -> Inv_at lost' E B l r G L loc.
Proof.
  intros Hl H. destruct H as [H1 H2 H3 H4 H5 H6 H7 H8 H9 H10 H11 H12 H13]. split; try done.
  intros i t Hi HE. eapply lost_mono; [apply Hl|by apply H8].
Qed.

Lemma Inv_close {lost} B l r G L loc i t : Inv_at lost (Some i) B l r G L loc -> tasks r !! i = Some t ->
  task_ok (lost i) P_none t -> Inv lost B l r.
Proof. intros H Hi Hok. exists G, L, loc. by eapply transit_close. Qed.

(** [Inv_let_go] for the task in the worker's hand. *)
Lemma Inv_open_hand {lost} B l r p i pc' : Inv lost B l r -> (p < length l)%nat -> pc_at l p = W_have i ->
  empty_handed pc' ->
  exists G L loc t, tasks r !! i = Some t /\ task_ok (lost i) (P_hand p) t /\
    Inv_at lost (Some i) B (<[p := pc']> l) r G L loc.
Proof.
  intros H Hp Hpc (Eb & Eh & Ee & Er & Ew).
  eapply (Inv_let_go _ _ _ p pc' i (P_hand p)); rewrite ?Hpc; try done.
  - intros G L pl Hpl. destruct pl; simpl; try done; rewrite pc_at_insert by done; case_decide; subst; try done;
      rewrite Hpc; simpl; try done; congruence.
  - intros G L. simpl. rewrite pc_at_insert, decide_True, Hpc, Eh by done. done.
Qed.

(** ** vl_worker_execute: entering *)

Definition lose (i : nat) (lost : nat -> bool) (j : nat) : bool := lost j || (j =? i)%nat.

Lemma Inv_execute_skip {lost} B l r p i t : Inv lost B l r -> (p < length l)%nat -> pc_at l p = W_have i ->
  tasks r !! i = Some t ->
  Inv (if decide (state t = VL_TASK_RUNNABLE) then lose i lost else lost) B (<[p := W_top]> l) r.
Proof.
  intros H Hp Hpc Ht. destruct (Inv_open_hand _ _ _ p i W_top H Hp Hpc) as (G & L & loc & t' & Ht' & Hok & H');
    [done|]. simplify_eq. destruct Hok as [Hq He Hs Hf Hla Hpi Hw].
  eapply Inv_close; [eapply Inv_at_lost; [|exact H']|exact Ht|].
  - intros j Hj. case_decide; [|done]. unfold lose. by rewrite Hj.
  - split; simpl in *; auto. case_decide as Hd.
    + left. unfold lose. by rewrite Nat.eqb_refl, orb_true_r.
    + right; right. destruct Hs as [Hs|Hs]; [done|]. by rewrite Hs.
Qed.

(** [cancel_task] on a task in transit. *)
Lemma Inv_cancel_transit {lost} B l r G L loc i t u r' : Inv_at lost (Some i) B l r G L loc ->
  tasks r !! i = Some t -> live_b t = true -> B < W64 -> cancel_task i r = Some (u, r') ->
  Inv_at lost (Some i) B l r' G L loc /\ tasks r' !! i = Some (set_state VL_TASK_CANCELLED t) /\
  0 < live_tasks r.
Proof.
  intros H Hi Hl HB E. unfold cancel_task in E.
  apply bind_inv in E as (? & ? & (t' & Ht' & ->)%upd_task_inv & E).
  assert (t' = t) as -> by congruence.
  apply bind_inv in E as (? & ? & E1%modify_inv & E2%modify_inv). subst. simpl.
  assert (H' : sched_inv (Some i) B l (<[i := set_state VL_TASK_CANCELLED t]> (tasks r)) (global_runnable r)
    (view_p <$> ps r) lost (live_tasks r - 1) (active_workers r) (idle_workers r) G L loc).
  { eapply transit_update; [exact H|done|]. rewrite Hl. unfold live_b. simpl. lia. }
  pose proof (inv_live _ _ _ _ _ _ _ _ _ _ _ _ _ H') as Hlive.
  pose proof (inv_live _ _ _ _ _ _ _ _ _ _ _ _ _ H) as Hlive0.
  pose proof (inv_size _ _ _ _ _ _ _ _ _ _ _ _ _ H). pose proof (live_count_le (tasks r)).
  destruct (Z.eqb_spec (live_tasks r) 0); [lia|]. simpl.
  split; [|split; [apply lookup_insert_eq|lia]].
  unfold Inv_at. simpl. rewrite w64_small by word_lia. exact H'.
Qed.

Lemma cancelled_ok lost pl t : task_ok lost (P_hand pl) t ->
  task_ok lost P_none (set_state VL_TASK_CANCELLED t).
Proof. intros [Hq He Hs Hf Hla Hpi Hw]. split; simpl in *; auto. Qed.

Lemma Inv_active {lost E} B l r G L loc : Inv_at lost E B l r G L loc -> 0 <= active_workers r <= 64.
Proof.
  intros H. rewrite (inv_active _ _ _ _ _ _ _ _ _ _ _ _ _ H).
  pose proof (sum_list_with_bound exec_weight l 1) as Hb.
  assert (Hw : forall pc, (exec_weight pc <= 1)%nat) by (unfold exec_weight; intros []; simpl; lia).
  specialize (Hb Hw). pose proof (inv_len _ _ _ _ _ _ _ _ _ _ _ _ _ H).
  pose proof (inv_workers _ _ _ _ _ _ _ _ _ _ _ _ _ H). lia.
Qed.

Lemma entered_ok lost p t : task_ok lost (P_hand p) t -> state t = VL_TASK_RUNNABLE ->
  task_ok lost (P_exec p) (set_state VL_TASK_RUNNING (set_last_p (Some p) (set_executing true t))).
Proof.
  intros [Hq He Hs Hf Hla Hpi Hw] Hst. split; simpl in *; auto.
  - naive_solver.
  - intros Hn. destruct Hf; congruence.
  - intros E. destruct (Hw E) as [Ht|[Hx _]]; [by rewrite Hst in Ht|]. by apply He in Hx.
Qed.

Lemma Inv_execute_enter {lost} B l r p i e r' : Inv lost B l r -> (p < length l)%nat ->
  pc_at l p = W_have i -> B < W64 -> execute_enter p i r = Some (e, r') ->
  match e with
  | Skip => r' = r /\ exists t, tasks r !! i = Some t /\
      Inv (if decide (state t = VL_TASK_RUNNABLE) then lose i lost else lost) B (<[p := W_top]> l) r
  | CancelledBeforeResume => Inv lost B (<[p := W_cancelled]> l) r'
  | Entered => Inv lost B (<[p := W_prepare i]> l) r'
  end.
Proof.
  intros H Hp Hpc HB E. unfold execute_enter in E.
  apply bind_inv in E as (t & ? & [Ht ->]%load_task_inv & E).
  apply bind_inv in E as (run & ? & [-> ->]%gets_inv & E).
  destruct (bool_decide (state t <> VL_TASK_RUNNABLE) || negb (running r)) eqn:Eg.
  { apply mret_inv in E as [-> ->]. split; [done|]. exists t. split; [done|]. by apply Inv_execute_skip. }
  apply orb_false_iff in Eg as [Est%bool_decide_eq_false _]. apply dec_stable in Est.
  apply bind_inv in E as (stop & ? & [-> ->]%gets_inv & E).
  destruct (shutdown_requested r).
  - destruct (Inv_open_hand _ _ _ p i W_cancelled H Hp Hpc) as (G & L & loc & t' & Ht' & Hok & H'); [done|].
    assert (t' = t) as -> by congruence.
    apply bind_inv in E as (? & r1 & E1 & [-> ->]%mret_inv).
    assert (Hl : live_b t = true) by (unfold live_b; by rewrite Est).
    destruct (Inv_cancel_transit _ _ _ _ _ _ _ _ _ _ H' Ht Hl HB E1) as (H1 & Ht1 & _).
    by eapply Inv_close, cancelled_ok.
  - destruct (Inv_open_hand _ _ _ p i W_top H Hp Hpc) as (G & L & loc & t' & Ht' & Hok & H'); [done|].
    assert (t' = t) as -> by congruence.
    apply bind_inv in E as (? & ? & (t1 & Ht1 & ->)%upd_task_inv & E).
    assert (t1 = t) as -> by congruence.
    apply bind_inv in E as (? & ? & (t2 & Ht2 & ->)%upd_task_inv & E).
    simpl in Ht2. rewrite lookup_insert_eq in Ht2. injection Ht2 as <-.
    apply bind_inv in E as (? & ? & (t3 & Ht3 & ->)%upd_task_inv & E).
    simpl in Ht3. rewrite lookup_insert_eq in Ht3. injection Ht3 as <-.
    apply bind_inv in E as (? & ? & ->%modify_inv & [-> ->]%mret_inv).
    pose proof (Inv_active _ _ _ _ _ _ H') as Hact.
    assert (Hlen := inv_len _ _ _ _ _ _ _ _ _ _ _ _ _ H'). rewrite length_fmap, length_insert in Hlen.
    destruct (lookup_lt_is_Some_2 (ps r) p) as [xp Hxp]; [lia|].
    assert (Hpc' : pc_at (<[p := W_top]> l) p = W_top) by (by rewrite pc_at_insert, decide_True).
    assert (Hw : is_waiting (pc_at (<[p := W_top]> l) p) = false) by by rewrite Hpc'.
    pose proof (not_idle _ _ _ _ _ _ _ _ _ H' Hxp Hw) as Hid.
    pose proof (Inv_at_p _ _ _ _ _ _ _ _ _ H' Hxp) as [_ _ _ Hc]. rewrite Hpc' in Hc.
    rewrite <- (list_insert_insert_eq l p (W_prepare i) W_top).
    exists G, L, (move [i] (P_exec p) loc). unfold Inv_at. simpl. rewrite !insert_insert_eq.
    rewrite <- (list_insert_id (view_p <$> ps r) p (view_p xp)) by by apply view_lookup.
    eapply (pc_in p (view_p xp) _ _ i _ (P_exec p)).
    + eapply transit_update; [exact H'|exact Ht|]. unfold live_b. simpl. rewrite Est. simpl. lia.
    + by apply view_lookup.
    + split; [done|]. simpl in *. rewrite Hid, Hc. done.
    + apply lookup_insert_eq.
    + by apply entered_ok.
    + done.
    + intros pl Hpl. rewrite list_insert_insert_eq.
      destruct pl; simpl; try done; rewrite !pc_at_insert by done; case_decide; subst; done.
    + simpl. by rewrite list_insert_insert_eq, !pc_at_insert, !decide_True by done.
    + rewrite Hpc'. unfold exec_weight. simpl. rewrite w64_small by word_lia. lia.
    + rewrite list_insert_id by by apply view_lookup. apply H'.
Qed.

(** ** vl_worker_execute: resuming *)

(** [p->current] follows the program counter. *)
Lemma Inv_set_current {lost} B l r p pc' c u r' : Inv lost B l r -> (p < length l)%nat ->
  is_waiting (pc_at l p) = false ->
  pc_batch pc' = pc_batch (pc_at l p) -> pc_hand pc' = pc_hand (pc_at l p) ->
  pc_exec pc' = pc_exec (pc_at l p) -> pc_running pc' = c ->
  vl_context_set_current (Some p) c r = Some (u, r') -> Inv lost B (<[p := pc']> l) r'.
Proof.
  intros (G & L & loc & H) Hp Hw Eb Eh Ee Er E. apply upd_p_inv in E as (x & Hx & ->).
  exists G, L, loc. unfold Inv_at. simpl. rewrite list_fmap_insert.
  pose proof (not_idle _ _ _ _ _ _ _ _ _ H Hx Hw) as Hid.
  eapply pc_keep; [exact H|by apply view_lookup| |done..|].
  - split; [done|]. simpl. rewrite Hid. done.
  - pose proof (sum_list_with_insert idle_weight _ p _ (view_p (set_current c x)) (view_lookup _ _ _ Hx)) as Hs.
    unfold idle_weight at 2 4 in Hs. simpl in Hs. rewrite Hid in Hs. simpl in Hs.
    pose proof (inv_idle _ _ _ _ _ _ _ _ _ _ _ _ _ H). lia.
Qed.

(** The worker executes the task its program counter names. *)
Lemma Inv_exec_task {lost} B l r p i : Inv lost B l r -> pc_exec (pc_at l p) = [i] ->
  exists t, tasks r !! i = Some t /\ task_ok (lost i) (P_exec p) t.
Proof.
  intros (G & L & loc & H) Ee.
  assert (Hloc : loc i = P_exec p).
  { apply (inv_placed _ _ _ _ _ _ _ _ _ _ _ _ _ H (P_exec p)); [done|]. simpl. rewrite Ee. set_solver. }
  destruct (inv_alive _ _ _ _ _ _ _ _ _ _ _ _ _ H i) as [t Ht]; [congruence|].
  exists t. split; [done|]. rewrite <- Hloc. by apply H.
Qed.

Lemma Inv_new_fiber {lost} B l r p i t : Inv lost B l r -> pc_exec (pc_at l p) = [i] ->
  tasks r !! i = Some t -> Inv lost B l (set_tasks (<[i := set_fiber (Some p) t]> (tasks r)) r).
Proof.
  intros HI Ee Ht. destruct (Inv_exec_task _ _ _ _ _ HI Ee) as (t' & Ht' & Hok). simplify_eq.
  destruct HI as (G & L & loc & H).
  assert (Hloc : loc i = P_exec p).
  { apply (inv_placed _ _ _ _ _ _ _ _ _ _ _ _ _ H (P_exec p)); [done|]. simpl. rewrite Ee. set_solver. }
  exists G, L, loc. eapply task_update; [exact H|done|done| |unfold live_b; simpl; lia].
  rewrite Hloc. destruct Hok as [Hq He Hs Hf Hla Hpi Hw]. split; simpl in *; auto.
Qed.

Lemma Inv_execute_prepare {lost} B l r p i created resumed st r' : Inv lost B l r -> (p < length l)%nat ->
  pc_at l p = W_prepare i ->
  (status ← execute_prepare p i created;
   if bool_decide (status = VL_OK) && bool_decide (resumed <> VL_OK) then
     _ ← vl_context_set_current (Some p) None;
     mret resumed
   else mret status) r = Some (st, r') ->
  Inv lost B (<[p := if decide (st = VL_OK) then W_running i else W_leave i st false]> l) r'.
Proof.
  intros HI Hp Hpc E. apply bind_inv in E as (status & r1 & E1 & E).
  assert (H1 : (status = VL_OK /\ Inv lost B (<[p := W_running i]> l) r1) \/
               (status <> VL_OK /\ r1 = r)).
  { unfold execute_prepare in E1. apply bind_inv in E1 as (t & ? & [Ht ->]%load_task_inv & E1).
    apply bind_inv in E1 as (st1 & r2 & E2 & E1).
    assert (H2 : Inv lost B l r2 /\ (st1 <> VL_OK -> r2 = r)).
    { destruct (fiber t); [by minv|]. apply bind_inv in E2 as (? & r3 & E3 & [-> ->]%mret_inv).
      destruct (decide (created = VL_OK)).
      - apply upd_task_inv in E3 as (t' & Ht' & ->). split; [|done].
        eapply Inv_new_fiber; [done|by rewrite Hpc|done].
      - apply mret_inv in E3 as [_ ->]. done. }
    destruct H2 as [H2 Hsame]. destruct (decide (st1 = VL_OK)) as [->|Hne].
    - apply bind_inv in E1 as (? & r3 & E3 & E1). eapply keeps_bump_stat in E3; [|exact H2].
      apply bind_inv in E1 as (? & r4 & E4 & [-> ->]%mret_inv). left. split; [done|].
      eapply Inv_set_current; [exact E3|done|by rewrite Hpc..|done|exact E4].
    - apply mret_inv in E1 as [-> ->]. right. auto. }
  destruct H1 as [[-> H1]|[Hne ->]].
  - simpl in E. destruct (decide (resumed = VL_OK)) as [->|Hr].
    + apply mret_inv in E as [-> ->]. by rewrite decide_True.
    + rewrite bool_decide_eq_true_2 in E by done. apply bind_inv in E as (? & r2 & E2 & [-> ->]%mret_inv).
      rewrite decide_False by done. rewrite <- (list_insert_insert_eq l p _ (W_running i)).
      assert (Hpc' : pc_at (<[p := W_running i]> l) p = W_running i) by (by rewrite pc_at_insert, decide_True).
      eapply Inv_set_current; [exact H1|by rewrite length_insert|by rewrite Hpc'..|done|exact E2].
  - rewrite bool_decide_eq_false_2 in E by done. apply mret_inv in E as [-> ->].
    rewrite decide_False by done. apply Inv_pc; rewrite ?Hpc; done.
Qed.

(** ** vl_worker_execute: leaving *)

(** [m] neither reads nor writes [live_tasks]. *)
Definition live_blind {A} (m : R A) : Prop := forall v r,
  m (set_live_tasks v r) = match m r with Some (a, r') => Some (a, set_live_tasks v r') | None => None end.

Lemma live_blind_bind {A B} (m : R A) (f : A -> R B) :
  live_blind m -> (forall a, live_blind (f a)) -> live_blind (m ≫= f).
Proof.
  intros Hm Hf v r. rewrite !bind_run, Hm. destruct (m r) as [[a r']|]; [|done]. apply Hf.
Qed.

Lemma live_blind_upd i f : live_blind (upd_task i f).
Proof. intros v r. unfold upd_task. simpl. by destruct (tasks r !! i). Qed.

Lemma live_blind_load i : live_blind (load_task i).
Proof. intros v r. unfold load_task, deref. simpl. by destruct (tasks r !! i). Qed.

Lemma live_blind_push i : live_blind (vl_task_queue_push i).
Proof. intros v r. unfold vl_task_queue_push. simpl. by destruct (iq_push _ _ _ _) as [[]|]. Qed.

Lemma live_blind_ret {A} (a : A) : live_blind (mret a).
Proof. by intros v r. Qed.

Lemma live_blind_wake i : live_blind (vl_task_wake_locked i).
Proof.
  unfold vl_task_wake_locked, vl_task_enqueue_global_locked, vl_task_mark_queued.
  repeat first [apply live_blind_bind; intros | apply live_blind_load | apply live_blind_upd
               | apply live_blind_push | apply live_blind_ret | case_match].
Qed.

Lemma live_blind_joiners fuel i : live_blind (wake_joiners fuel i).
Proof.
  revert i. induction fuel as [|fuel IH]; intros [i|]; cbn [wake_joiners]; try apply live_blind_ret; [done|].
  repeat first [apply live_blind_wake | apply IH | apply live_blind_load | apply live_blind_upd
               | apply live_blind_bind; intros].
Qed.

(** The joiners of a finished task are woken while [live_tasks] still counts it. *)
Lemma Inv_wake_joiners {lost} B l r v fuel w u r' : Inv lost B l (set_live_tasks v r) ->
  wake_joiners fuel w r = Some (u, r') -> Inv lost B l (set_live_tasks v r') /\ live_tasks r' = live_tasks r.
Proof.
  intros H E. split.
  - eapply keeps_wake_joiners; [exact H|]. by rewrite live_blind_joiners, E.
  - pose proof (live_blind_joiners fuel w (live_tasks r) r) as Hb. rewrite E in Hb.
    replace (set_live_tasks (live_tasks r) r) with r in Hb by by destruct r. rewrite E in Hb.
    injection Hb as Hb. rewrite Hb. done.
Qed.

Lemma Inv_enqueue_local {lost} B l r G L loc p i t u r' : Inv_at lost (Some i) B l r G L loc ->
  B + 1 < W64 -> tasks r !! i = Some t -> waking t ->
  vl_task_enqueue_local_locked p (Some i) r = Some (u, r') -> Inv lost (B + 1) l r'.
Proof.
  intros H HB Hi Hw E. unfold vl_task_enqueue_local_locked in E.
  apply bind_inv in E as (t0 & ? & [Ht0 ->]%load_task_inv & E). assert (t0 = t) as -> by congruence.
  rewrite decide_True in E by apply Hw.
  rewrite (bind_Some _ _ _ _ _ (mark_queued_run _ _ _ Hi (wk_queued _ Hw))) in E.
  set (r1 := set_tasks (<[i := set_queued true t]> (tasks r)) r) in *.
  assert (H1 : Inv_at lost (Some i) B l r1 G L loc) by by eapply transit_set.
  assert (Hi1 : tasks r1 !! i = Some (set_queued true t)) by apply lookup_insert_eq.
  apply bind_inv in E as (n & ? & [-> ->]%gets_inv & E).
  destruct (_ || bool_decide (fiber t <> None)) eqn:Ef.
  - eapply Inv_mono; [|instantiate (1 := B); lia].
    eapply queue_push_inv; [exact H1|exact Hi1|by apply waking_global|exact E].
  - apply orb_false_iff in Ef as [_ Ef%bool_decide_eq_false]. apply dec_stable in Ef.
    apply bind_inv in E as (st & r2 & E2 & E).
    destruct (transit_owner_push _ _ _ _ _ _ _ _ _ _ _ H1 HB Hi1 (waking_local _ p _ Hw Ef) E2)
      as [[-> H2]|(Hst & H2 & Hts)].
    + rewrite decide_True in E by done. by eapply keeps_bump_p_stat.
    + rewrite decide_False in E by done. eapply Inv_mono; [|instantiate (1 := B); lia].
      eapply queue_push_inv; [exact H2|by rewrite Hts|by apply waking_global|exact E].
Qed.

Lemma keeps_drop_fiber i : keeps (upd_task i (set_fiber None)).
Proof.
  intros lost B l r u r' (G & L & loc & H) (t & Ht & ->)%upd_task_inv. exists G, L, loc.
  eapply task_update; [exact H|done|done| |unfold live_b; simpl; lia].
  destruct (inv_tasks _ _ _ _ _ _ _ _ _ _ _ _ _ H i t Ht ltac:(done)) as [Hq He Hs Hf Hla Hpi Hw].
  split; simpl; auto; [|done]. destruct (loc i); auto.
Qed.

(** A task whose worker has just stopped executing it. *)
Record leaving (t : vl_task) : Prop := {
  lv_queued : queued t = false;
  lv_executing : executing t = false;
  lv_state : state t = VL_TASK_RUNNABLE \/ state t = VL_TASK_RUNNING \/ parked (state t);
  lv_pinned : fiber t <> None -> last_p t = fiber t;
  lv_wake : wake_pending t = true -> parked (state t) }.

Lemma leaving_live t : leaving t -> live_b t = true.
Proof. intros [_ _ Hs _ _]. unfold live_b, parked in *. by destruct Hs as [-> |[->|[->| ->]]]. Qed.

Lemma leaving_terminal lost t st : leaving t -> terminal st = true -> task_ok lost P_none (set_state st t).
Proof.
  intros [Hq He Hs Hp Hw] Ht. split; simpl; auto; try (split; [congruence|done]).
Qed.

Lemma Inv_settle_cancel {lost} B l r G L loc i t u r' : Inv_at lost (Some i) B l r G L loc ->
  tasks r !! i = Some t -> leaving t -> B < W64 ->
  (_ ← cancel_task i; upd_task i (set_fiber None)) r = Some (u, r') -> Inv lost B l r'.
Proof.
  intros H Hi Hl HB E. apply bind_inv in E as (? & r1 & E1 & E).
  destruct (Inv_cancel_transit _ _ _ _ _ _ _ _ _ _ H Hi (leaving_live _ Hl) HB E1) as (H1 & Hi1 & _).
  eapply keeps_drop_fiber; [|exact E]. eapply Inv_close; [exact H1|exact Hi1|]. by apply leaving_terminal.
Qed.

Lemma Inv_settle_done {lost} B l r G L loc i t u r' : Inv_at lost (Some i) B l r G L loc ->
  tasks r !! i = Some t -> leaving t -> B < W64 ->
  (_ ← upd_task i (set_state VL_TASK_DONE); _ ← vl_task_complete_locked i; upd_task i (set_fiber None)) r
    = Some (u, r') -> Inv lost B l r'.
Proof.
  intros H Hi Hl HB E. apply bind_inv in E as (? & r1 & (t1 & Ht1 & ->)%upd_task_inv & E).
  assert (t1 = t) as -> by congruence. apply bind_inv in E as (? & r2 & E2 & E).
  eapply keeps_drop_fiber; [|exact E]. clear E.
  unfold vl_task_complete_locked in E2.
  apply bind_inv in E2 as (t2 & ? & [Ht2 ->]%load_task_inv & E2).
  apply bind_inv in E2 as (n & ? & [-> ->]%gets_inv & E2).
  apply bind_inv in E2 as (? & ? & (t3 & Ht3 & ->)%upd_task_inv & E2).
  apply bind_inv in E2 as (? & ? & (t4 & Ht4 & ->)%upd_task_inv & E2).
  simpl in Ht3, Ht4. rewrite lookup_insert_eq in Ht3. injection Ht3 as <-.
  rewrite lookup_insert_eq in Ht4. injection Ht4 as <-.
  apply bind_inv in E2 as (? & r3 & E3 & E2). apply bind_inv in E2 as (? & r4 & E4%modify_inv & E5).
  set (td := set_waiters_tail None (set_waiters_head None (set_state VL_TASK_DONE t))) in *.
  assert (H1 : sched_inv (Some i) B l (<[i := td]> (tasks r)) (global_runnable r) (view_p <$> ps r) lost
    (live_tasks r - 1) (active_workers r) (idle_workers r) G L loc).
  { eapply transit_update; [exact H|exact Hi|]. rewrite (leaving_live _ Hl). unfold live_b. simpl. lia. }
  pose proof (inv_live _ _ _ _ _ _ _ _ _ _ _ _ _ H1). pose proof (inv_live _ _ _ _ _ _ _ _ _ _ _ _ _ H).
  pose proof (inv_size _ _ _ _ _ _ _ _ _ _ _ _ _ H). pose proof (live_count_le (tasks r)).
  eapply (Inv_wake_joiners _ _ _ (live_tasks r - 1)) in E3 as [HI3 Hlive].
  - simpl in Hlive. subst r4. destruct (Z.eqb_spec (live_tasks r3) 0); [lia|].
    eapply keeps_bump_stat; [|exact E5]. rewrite Hlive, w64_small by word_lia. exact HI3.
  - exists G, L, loc. unfold Inv_at. simpl. rewrite !insert_insert_eq.
    eapply transit_close; [exact H1|apply lookup_insert_eq|]. fold td.
    destruct (leaving_terminal (lost i) t VL_TASK_DONE Hl eq_refl) as [Hq He Hs Hf Hla Hpi Hw]. by split.
Qed.

Lemma woken_spec t : leaving t ->
  let woken := wake_pending t &&
    (bool_decide (state t = VL_TASK_WAITING) || bool_decide (state t = VL_TASK_SLEEPING)) in
  woken = wake_pending t.
Proof.
  intros [_ _ _ _ Hw]. simpl. destruct (wake_pending t); [|done].
  by destruct (Hw eq_refl) as [-> | ->].
Qed.

Lemma Inv_settle {lost} B l r G L loc p i t st fd u r' : Inv_at lost (Some i) B l r G L loc ->
  tasks r !! i = Some t -> leaving t -> B + 1 < W64 ->
  execute_settle p i st fd r = Some (u, r') -> Inv lost (B + 1) l r'.
Proof.
  intros H Hi Hl HB E. unfold execute_settle in E.
  apply bind_inv in E as (t0 & ? & [Ht0 ->]%load_task_inv & E). assert (t0 = t) as -> by congruence.
  destruct (decide (st <> VL_OK)).
  { eapply Inv_mono; [by eapply Inv_settle_cancel; [exact H|..|exact E]; eauto with lia|lia]. }
  destruct fd.
  { eapply Inv_mono; [by eapply Inv_settle_done; [exact H|..|exact E]; eauto with lia|lia]. }
  cbv zeta in E. rewrite (woken_spec t Hl) in E.
  apply bind_inv in E as (? & r1 & E1 & E). destruct (wake_pending t) eqn:Ew.
  - apply bind_inv in E1 as (? & ? & (t1 & Ht1 & ->)%upd_task_inv & (t2 & Ht2 & ->)%upd_task_inv).
    assert (t1 = t) as -> by congruence. simpl in Ht2. rewrite lookup_insert_eq in Ht2. injection Ht2 as <-.
    rewrite decide_True in E by done.
    eapply Inv_enqueue_local; [|done| | |exact E].
    + eapply (transit_set _ _ _ _ _ _ _ (set_wake_pending false t));
        [eapply transit_set; [exact H|exact Hi|done]|apply lookup_insert_eq|].
      transitivity (live_b t); [|done]. by rewrite (leaving_live t Hl).
    + apply lookup_insert_eq.
    + destruct Hl. by split.
  - apply mret_inv in E1 as [_ ->]. destruct (decide (state t = VL_TASK_RUNNABLE)) as [Es|Es].
    { eapply Inv_enqueue_local; [exact H|done|exact Hi| |exact E]. destruct Hl. by split. }
    destruct (decide (state t = VL_TASK_RUNNING)) as [Es'|Es'].
    { eapply Inv_mono; [by eapply Inv_settle_cancel; [exact H|..|exact E]; eauto with lia|lia]. }
    apply mret_inv in E as [_ ->]. eapply Inv_mono; [|instantiate (1 := B); lia].
    eapply Inv_close; [exact H|exact Hi|]. destruct Hl as [Hq He Hs Hp Hw].
    split; simpl; auto; try (split; [congruence|done]).
    + right; left. naive_solver.
    + congruence.
Qed.

Lemma keeps_stop_run st : keeps (vl_worker_stop_run_locked st).
Proof. apply keeps_modify. intros. by case_match. Qed.

#[export] Hint Resolve keeps_stop_run keeps_drop_fiber : keeps.

Lemma keeps_execute_cancelled : keeps execute_cancelled.
Proof. unfold execute_cancelled. keeps_solve. Qed.

Lemma exec_leaving lost p t : task_ok lost (P_exec p) t -> leaving (set_executing false t).
Proof.
  intros [Hq He Hs Hf Hla Hpi Hw]. split; simpl; auto.
  - destruct (queued t); [|done]. by destruct (proj1 Hq).
  - intros E. destruct (Hw E) as [Ht|[_ ?]]; [|done].
    unfold parked in Hs. destruct Hs as [Es|[Es|[Es|Es]]]; by rewrite Es in Ht.
Qed.

(** The worker gives up the task it executed. *)
Lemma Inv_open_exec {lost} B l r p i : Inv lost B l r -> (p < length l)%nat ->
  (exists st d, pc_at l p = W_leave i st d) ->
  exists G L loc t, tasks r !! i = Some t /\ task_ok (lost i) (P_exec p) t /\ 1 <= active_workers r <= 64 /\
    sched_inv (Some i) B (<[p := W_top]> l) (tasks r) (global_runnable r) (view_p <$> ps r) lost
      (live_tasks r) (active_workers r - 1) (idle_workers r) G L loc.
Proof.
  intros (G & L & loc & H) Hp (st & d & Hpc).
  pose proof (Inv_active _ _ _ _ _ _ H) as Hact.
  assert (Hlen := inv_len _ _ _ _ _ _ _ _ _ _ _ _ _ H). rewrite length_fmap in Hlen.
  destruct (lookup_lt_is_Some_2 (ps r) p) as [x Hx]; [lia|].
  assert (Hw : is_waiting (pc_at l p) = false) by by rewrite Hpc.
  pose proof (not_idle _ _ _ _ _ _ _ _ _ H Hx Hw) as Hid.
  pose proof (Inv_at_p _ _ _ _ _ _ _ _ _ H Hx) as [_ _ _ Hc]. rewrite Hpc in Hc.
  destruct (pc_out p (view_p x) (view_p x) W_top i (P_exec p) (active_workers r - 1) (idle_workers r) H)
    as (t & Ht & Hok & _ & H'); try done.
  - by apply view_lookup.
  - split; [done|]. simpl in *. rewrite Hid. done.
  - intros pl Hpl. destruct pl; simpl; try done; rewrite pc_at_insert by done; case_decide; subst; try done;
      rewrite Hpc; simpl; try done; congruence.
  - simpl. rewrite pc_at_insert, decide_True, Hpc by done. done.
  - rewrite Hpc. unfold exec_weight. simpl. lia.
  - rewrite list_insert_id by by apply view_lookup. apply H.
  - exists G, L, (move [i] P_none loc), t. rewrite (list_insert_id (view_p <$> ps r)) in H' by by apply view_lookup.
    split; [done|]. split; [done|]. split; [|exact H'].
    pose proof (inv_active _ _ _ _ _ _ _ _ _ _ _ _ _ H'). lia.
Qed.

Lemma Inv_execute_leave {lost} B l r p i st d u r' : Inv lost B l r -> (p < length l)%nat ->
  pc_at l p = W_leave i st d -> B + 1 < W64 ->
  execute_leave p i st d r = Some (u, r') -> Inv lost (B + 1) (<[p := W_top]> l) r'.
Proof.
  intros HI Hp Hpc HB E. unfold execute_leave in E.
  destruct (Inv_open_exec _ _ _ p i HI Hp) as (G & L & loc & t & Ht & Hok & Hact & H); [by eauto|].
  apply bind_inv in E as (? & r1 & (t1 & Ht1 & ->)%upd_task_inv & E). assert (t1 = t) as -> by congruence.
  apply bind_inv in E as (? & r2 & ->%modify_inv & E).
  apply bind_inv in E as (? & r3 & (xp & Hxp & ->)%upd_p_inv & E).
  apply bind_inv in E as (? & r4 & E4 & E).
  eapply (Inv_settle B (<[p := W_top]> l) _ G L loc p i (set_executing false t)) in E4.
  - match type of E with ?k _ = _ => assert (Hk : keeps k) by keeps_solve end. by eapply Hk.
  - unfold Inv_at. simpl. rewrite (view_p_insert _ _ xp) by done. simpl in Hxp.
    rewrite w64_small by word_lia.
    eapply transit_update; [exact H|exact Ht|]. unfold live_b. simpl. lia.
  - apply lookup_insert_eq.
  - by eapply exec_leaving.
  - done.
Qed.

(** ** vl_worker_idle *)

Lemma idle_sum_set xs p v v' : xs !! p = Some v ->
  (sum_list_with idle_weight (<[p := v']> xs) + idle_weight v = sum_list_with idle_weight xs + idle_weight v')%nat.
Proof. apply sum_list_with_insert. Qed.

Lemma Inv_idle_bound {lost E} B l r G L loc : Inv_at lost E B l r G L loc -> 0 <= idle_workers r <= 64.
Proof.
  intros H. pose proof (inv_idle _ _ _ _ _ _ _ _ _ _ _ _ _ H).
  pose proof (sum_list_with_bound idle_weight (view_p <$> ps r) 1) as Hb.
  assert (Hw : forall v, (idle_weight v <= 1)%nat) by (unfold idle_weight; intros [[? []] ?]; simpl; lia).
  specialize (Hb Hw). pose proof (inv_workers _ _ _ _ _ _ _ _ _ _ _ _ _ H). lia.
Qed.

(** The marking of a worker as idle. *)
Lemma Inv_idle_mark {lost} B l r p x u r1 sw : Inv lost B l r -> (p < length l)%nat -> pc_at l p = W_idle ->
  ps r !! p = Some x ->
  (if idle x then mret tt else
     _ ← upd_p p (set_idle true);
     _ ← modify (fun r => set_idle_workers (w64 (idle_workers r + 1)) r);
     bump_p_stat p p_parks set_p_parks 1) r = Some (u, r1) ->
  Inv lost B (<[p := W_wait sw]> l) r1 /\ tasks r1 = tasks r /\ running r1 = running r.
Proof.
  intros (G & L & loc & H) Hp Hpc Hx E1.
  assert (Hw : is_waiting (pc_at l p) = false) by by rewrite Hpc.
  pose proof (not_idle _ _ _ _ _ _ _ _ _ H Hx Hw) as Hid. rewrite Hid in E1.
  pose proof (Inv_at_p _ _ _ _ _ _ _ _ _ H Hx) as [_ _ _ Hc]. rewrite Hpc in Hc.
  apply bind_inv in E1 as (? & ? & (x' & Hx' & ->)%upd_p_inv & E1).
  assert (x' = x) as -> by congruence.
  apply bind_inv in E1 as (? & ? & ->%modify_inv & E1).
  split; [|by apply upd_p_inv in E1 as (x' & _ & ->)].
  eapply keeps_bump_p_stat; [|exact E1]. exists G, L, loc. unfold Inv_at. simpl.
  rewrite list_fmap_insert. pose proof (Inv_idle_bound _ _ _ _ _ _ H) as Hb.
  rewrite w64_small by word_lia.
  eapply pc_keep; [exact H|by apply view_lookup| | | | |]; rewrite ?Hpc; try done.
  - split; [done|]. simpl in *. split; [|done]. intros _. by exists sw.
  - pose proof (idle_sum_set _ p _ (view_p (set_idle true x)) (view_lookup _ _ _ Hx)) as Hs.
    unfold idle_weight at 2 4 in Hs. simpl in Hs. rewrite Hid in Hs. simpl in Hs.
    pose proof (inv_idle _ _ _ _ _ _ _ _ _ _ _ _ _ H). lia.
Qed.

Lemma Inv_idle_enter {lost} B l r p n e r' : Inv lost B l r -> (p < length l)%nat -> pc_at l p = W_idle ->
  idle_enter p n r = Some (e, r') ->
  Inv lost B (<[p := match e with None => W_top | Some (sw, _) => W_wait sw end]> l) r'.
Proof.
  intros HI Hp Hpc E. unfold idle_enter in E. apply bind_inv in E as (run & ? & [-> ->]%gets_inv & E).
  destruct (negb (running r)).
  { apply mret_inv in E as [-> ->]. apply Inv_pc; rewrite ?Hpc; done. }
  apply bind_inv in E as (x & ? & [Hx ->]%load_p_inv & E). apply bind_inv in E as (? & r1 & E1 & E).
  apply bind_inv in E as (r1' & ? & [-> ->]%gets_inv & E).
  apply bind_inv in E as (? & r2 & E2 & E). apply bind_inv in E as (sw & ? & [-> ->]%gets_inv & E).
  assert (Hk2 : forall sw, Inv lost B (<[p := W_wait sw]> l) r2).
  { intros sw. match type of E2 with ?k _ = _ => assert (Hk2 : keeps k) by keeps_solve end.
    eapply Hk2; [by eapply Inv_idle_mark|exact E2]. }
  apply bind_inv in E as (tmo & r3 & E3 & E). apply bind_inv in E as (w & ? & [-> ->]%gets_inv & E).
  apply mret_inv in E as [-> ->]. eapply keeps_timeout_ms; [apply Hk2|exact E3].
Qed.

Lemma keeps_drain p : keeps (vl_worker_drain_eventfd p).
Proof. by apply keeps_upd_p. Qed.

#[export] Hint Resolve keeps_drain : keeps.

Lemma Inv_idle_leave {lost} B l r p sw u r' : Inv lost B l r -> (p < length l)%nat -> pc_at l p = W_wait sw ->
  idle_leave p r = Some (u, r') -> Inv lost B (<[p := W_top]> l) r'.
Proof.
  intros (G & L & loc & H) Hp Hpc E. unfold idle_leave in E.
  apply bind_inv in E as (x & ? & [Hx ->]%load_p_inv & E).
  pose proof (Inv_at_p _ _ _ _ _ _ _ _ _ H Hx) as [_ _ _ Hc]. rewrite Hpc in Hc. simpl in Hc.
  pose proof (inv_idle _ _ _ _ _ _ _ _ _ _ _ _ _ H) as Hidl.
  pose proof (Inv_idle_bound _ _ _ _ _ _ H) as Hb.
  exists G, L, loc. destruct (idle x) eqn:Hid.
  - apply bind_inv in E as (? & ? & (x' & Hx' & ->)%upd_p_inv & ->%modify_inv).
    assert (x' = x) as -> by congruence.
    pose proof (idle_sum_set _ p _ (view_p (set_idle false x)) (view_lookup _ _ _ Hx)) as Hs.
    unfold idle_weight at 2 4 in Hs. simpl in Hs. rewrite Hid in Hs. simpl in Hs.
    unfold Inv_at. simpl. destruct (Z.eqb_spec (idle_workers r) 0) as [E0|E0]; simpl; rewrite list_fmap_insert;
      rewrite ?w64_small by word_lia;
      (eapply pc_keep; [exact H|by apply view_lookup| | | | |]; rewrite ?Hpc; try done; lia).
  - apply mret_inv in E as [_ ->]. unfold Inv_at.
    rewrite <- (list_insert_id (view_p <$> ps r) p (view_p x)) by by apply view_lookup.
    eapply pc_keep; [exact H|by apply view_lookup| | | | |]; rewrite ?Hpc; try done.
    + split; [done|]. simpl. rewrite Hid. done.
    + by rewrite list_insert_id by by apply view_lookup.
Qed.

(** ** The whole system *)

Definition lost_in (s : system) (i : nat) : bool := bool_decide (i ∈ skipped s).

Record sys_inv (n : nat) (s : system) : Prop := {
  si_inv : Inv (lost_in s) (8 * Z.of_nat n) (pcs s) (rt s);
  si_batch : Forall (fun pc => (length (pc_batch pc) <= 8)%nat) (pcs s) }.

Lemma lookup_pc_at l p pc : l !! p = Some pc -> pc_at l p = pc /\ (p < length l)%nat.
Proof. intros H. unfold pc_at. rewrite H. split; [done|]. by eapply lookup_lt_Some. Qed.

Lemma Inv_weaken {lost lost'} B B' l r : Inv lost B l r -> (forall i, lost i = true -> lost' i = true) ->
  B <= B' -> Inv lost' B' l r.
Proof.
  intros H Hl HB. eapply Inv_mono in H; [|exact HB]. destruct H as (G & L & loc & H).
  exists G, L, loc. by eapply Inv_at_lost.
Qed.

Lemma goto_inv n p pc s r s' : Inv (lost_in s) (8 * Z.of_nat n) (<[p := pc]> (pcs s)) r ->
  Forall (fun pc => (length (pc_batch pc) <= 8)%nat) (pcs s) -> (length (pc_batch pc) <= 8)%nat ->
  goto p pc s r = Some s' -> sys_inv n s'.
Proof. intros H Hb Hpc [= <-]. split; [exact H|]. simpl. by apply Forall_insert. Qed.

Lemma then_goto_inv {A} n p (m : R A) k s s' :
  (forall a r, m (rt s) = Some (a, r) ->
     Inv (lost_in s) (8 * Z.of_nat n) (<[p := k a]> (pcs s)) r /\ (length (pc_batch (k a)) <= 8)%nat) ->
  Forall (fun pc => (length (pc_batch pc) <= 8)%nat) (pcs s) ->
  then_goto p m k s = Some s' -> sys_inv n s'.
Proof.
  intros H Hb E. unfold then_goto in E. destruct (m (rt s)) as [[a r]|] eqn:Em; [|done].
  destruct (H a r eq_refl). by eapply goto_inv.
Qed.

Lemma keeps_run_begin th : keeps (vl_runtime_run_begin th).
Proof.
  unfold vl_runtime_run_begin.
  assert (Hi : keeps (modify (set_idle_workers 0))).
  { apply keeps_modify. intros lost B l r (G & L & loc & H). exists G, L, loc.
    destruct H as [H1 H2 H3 H4 H5 H6 H7 H8 H9 H10 H11 H12 H13]. split; try done. simpl. lia. }
  keeps_solve.
Qed.

Lemma keeps_request_shutdown : keeps vl_runtime_request_shutdown.
Proof. unfold vl_runtime_request_shutdown. keeps_solve. Qed.

Lemma Inv_run_finish {lost} B l r a r' : Inv lost B l r -> B < W64 ->
  vl_runtime_run_finish r = Some (a, r') -> Inv lost B l r'.
Proof.
  intros HI HB E. unfold vl_runtime_run_finish in E.
  apply bind_inv in E as (st & ? & [-> ->]%gets_inv & E).
  apply bind_inv in E as (stop & ? & [-> ->]%gets_inv & E).
  destruct (shutdown_requested r); [|by minv].
  apply bind_inv in E as (? & r1 & E1 & [-> ->]%mret_inv). by eapply Inv_cancel_all.
Qed.

Lemma Inv_run_op {lost} th op B l r a r' : Inv lost B l r -> B + 1 < W64 ->
  run_op th op r = Some (a, r') -> Inv lost (B + 1) l r'.
Proof.
  intros HI HB E. assert (HI' : Inv lost (B + 1) l r) by (eapply Inv_mono; [done|lia]).
  destruct op; cbn [run_op] in E;
    try (match type of E with ?k _ = _ => assert (Hk : keeps k) by keeps_solve end; by eapply Hk).
  apply bind_inv in E as (? & r1 & E1 & [-> ->]%mret_inv). by eapply Inv_spawn.
Qed.

Lemma Inv_run_external {lost} op B l r a r' : Inv lost B l r -> B + 1 < W64 ->
  run_external op r = Some (a, r') -> Inv lost (B + 1) l r'.
Proof.
  intros HI HB E. assert (HI' : Inv lost (B + 1) l r) by (eapply Inv_mono; [done|lia]).
  pose proof keeps_request_shutdown. pose proof keeps_run_begin.
  destruct op; cbn [run_external] in E;
    try (match type of E with ?k _ = _ => assert (Hk : keeps k) by keeps_solve end; by eapply Hk).
  apply bind_inv in E as (? & r1 & E1 & [-> ->]%mret_inv). by eapply Inv_spawn.
Qed.

Lemma task_step_inv n p op s s' : sys_inv n s -> 8 * Z.of_nat (S n) < W64 ->
  task_step p op s = Some s' -> sys_inv (S n) s'.
Proof.
  intros [HI Hb] HB E. unfold task_step in E.
  destruct (pcs s !! p) as [pc|] eqn:Hp; [|done]. destruct pc as [| | | | | | | | | | | i | | |]; try done.
  apply lookup_pc_at in Hp as [Hpc Hp]. eapply then_goto_inv; [|done|exact E].
  intros stays r Em. apply bind_inv in Em as (o & r1 & E1 & Em).
  eapply Inv_run_op in E1; [|exact HI|lia].
  eapply Inv_mono in E1; [|instantiate (1 := 8 * Z.of_nat (S n)); lia].
  destruct o as [?|].
  - apply mret_inv in Em as [-> ->]. split; [|simpl; lia]. apply Inv_pc; rewrite ?Hpc; done.
  - apply bind_inv in Em as (? & r2 & E2 & [-> ->]%mret_inv). split; [|simpl; lia].
    eapply Inv_set_current; [exact E1|done|by rewrite Hpc..|done|exact E2].
Qed.

Lemma external_step_inv n op s s' : sys_inv n s -> 8 * Z.of_nat (S n) < W64 ->
  external_step op s = Some s' -> sys_inv (S n) s'.
Proof.
  intros [HI Hb] HB E. unfold external_step in E.
  destruct (run_external op (rt s)) as [[o r]|] eqn:Em; [|done].
  eapply Inv_run_external in Em; [|exact HI|lia].
  eapply Inv_mono in Em; [|instantiate (1 := 8 * Z.of_nat (S n)); lia].
  destruct o; [by simplify_eq|]. destruct (pcs s !! 0%nat) as [pc|] eqn:Hp; [|done]. destruct pc; try done.
  apply lookup_pc_at in Hp as [Hpc Hp]. eapply goto_inv; [|done| |exact E]; [|simpl; lia].
  apply Inv_pc; rewrite ?Hpc; done.
Qed.

Lemma steal_from_length p v r items r' : steal_from p v r = Some (items, r') -> (length items <= 8)%nat.
Proof.
  intros E. unfold steal_from in E. apply bind_inv in E as (? & r1 & _ & E).
  apply on_run_queue_inv in E as (xv & q & _ & E & _).
  assert (Hgen : forall k q items q', vl_run_queue_steal_batch k q = Some (items, q') -> (length items <= k)%nat).
  { induction k as [|k IH]; intros q0 it q' E0; cbn [vl_run_queue_steal_batch] in E0.
    - apply mret_inv in E0 as [-> _]. done.
    - apply bind_inv in E0 as ([y|] & q1 & _ & E0); [|by apply mret_inv in E0 as [-> _]; simpl; lia].
      apply bind_inv in E0 as (rest & q2 & E1 & [-> _]%mret_inv). apply IH in E1. simpl. lia. }
  by apply Hgen in E.
Qed.

Lemma worker_step_inv n p inp s s' : sys_inv n s -> 8 * Z.of_nat (S n) < W64 ->
  worker_step p inp s = Some s' -> sys_inv (S n) s'.
Proof.
  intros [HI Hb] HB E. unfold worker_step in E.
  destruct (pcs s !! p) as [pc|] eqn:Hlk; [|done].
  pose proof (lookup_pc_at _ _ _ Hlk) as [Hpc Hp].
  assert (HI' : Inv (lost_in s) (8 * Z.of_nat (S n)) (pcs s) (rt s)) by (eapply Inv_mono; [exact HI|lia]).
  assert (Hmove : forall pc', pc_batch pc' = pc_batch pc -> pc_hand pc' = pc_hand pc -> pc_exec pc' = pc_exec pc ->
    pc_running pc' = pc_running pc -> is_waiting pc = false ->
    forall r, Inv (lost_in s) (8 * Z.of_nat (S n)) (pcs s) r ->
    Inv (lost_in s) (8 * Z.of_nat (S n)) (<[p := pc']> (pcs s)) r).
  { intros pc' ? ? ? ? ? r Hr. apply Inv_pc; rewrite ?Hpc; done. }
  destruct pc as [| | | | | |offset|first rest|i| |i|i|i st d| |sw].
  - destruct (negb _ && _); [|done]. eapply then_goto_inv; [|done|exact E].
    intros a r Em. split; [|simpl; lia]. eapply Inv_set_current; [exact HI'|done|by rewrite Hpc..|done|exact Em].
  - destruct (_ =? 0); [|done]. eapply then_goto_inv; [|done|exact E].
    intros a r Em. split; [|simpl; lia]. apply Hmove; try done. eapply Inv_run_finish; [exact HI'|lia|exact Em].
  - destruct (running (rt s)).
    + eapply goto_inv; [|done| |exact E]; [by apply Hmove|simpl; lia].
    + eapply goto_inv; [|done| |exact E]; case_match; (by apply Hmove) || (simpl; lia).
  - eapply then_goto_inv; [|done|exact E]. intros a r Em. split; [|simpl; lia].
    apply Hmove; try done. by eapply keeps_expire.
  - eapply then_goto_inv; [|done|exact E]. intros a r Em. split; [|destruct a; simpl; lia].
    by eapply Inv_take_local.
  - eapply then_goto_inv; [|done|exact E]. intros a r Em. split; [|destruct a; simpl; lia].
    eapply Inv_mono; [eapply Inv_take_global; [exact HI|done|done|lia|exact Em]|lia].
  - destruct (offset <? _)%nat.
    + eapply then_goto_inv; [|done|exact E]. intros a r Em. split; [by eapply Inv_steal_from|].
      apply steal_from_length in Em. destruct a; simpl in *; lia.
    + eapply goto_inv; [|done| |exact E]; [by apply Hmove|simpl; lia].
  - eapply then_goto_inv; [|done|exact E]. intros a r Em. split; [|simpl; lia].
    rewrite Forall_lookup in Hb. specialize (Hb p _ Hlk). simpl in Hb.
    destruct (Inv_steal_commit p first rest _ _ _ _ _ HI Hpc Hp ltac:(lia) Em) as [-> H'].
    eapply Inv_mono; [exact H'|lia].
  - destruct (execute_enter p i (rt s)) as [[e r]|] eqn:Em; [|done].
    apply (Inv_execute_enter _ _ _ _ _ _ _ HI' Hp Hpc) in Em; [|lia]. destruct e.
    + destruct Em as (-> & t & Ht & Em). rewrite Ht in E. injection E as <-.
      split; [|simpl; by apply Forall_insert; [|simpl; lia]]. simpl.
      eapply Inv_weaken; [exact Em| |done]. intros j. unfold lose, lost_in. simpl.
      destruct (decide (state t = VL_TASK_RUNNABLE)) as [Es|Es].
      * rewrite decide_True by by rewrite Es.
        rewrite orb_true_iff, !bool_decide_eq_true, Nat.eqb_eq. set_solver.
      * rewrite decide_False; [done|]. simpl. congruence.
    + eapply goto_inv; [exact Em|done| |exact E]. simpl; lia.
    + eapply goto_inv; [exact Em|done| |exact E]. simpl; lia.
  - eapply then_goto_inv; [|done|exact E]. intros a r Em. split; [|simpl; lia].
    apply Hmove; try done. by eapply keeps_execute_cancelled.
  - eapply then_goto_inv; [|done|exact E]. intros a r Em. split; [|case_match; simpl; lia].
    by eapply Inv_execute_prepare.
  - done.
  - eapply then_goto_inv; [|done|exact E]. intros a r Em. split; [|simpl; lia].
    eapply Inv_mono; [eapply Inv_execute_leave; [exact HI|done|done|lia|exact Em]|lia].
  - eapply then_goto_inv; [|done|exact E]. intros a r Em. split; [|repeat case_match; simpl; lia].
    by eapply Inv_idle_enter.
  - eapply then_goto_inv; [|done|exact E]. intros a r Em. split; [|simpl; lia].
    apply bind_inv in Em as (? & r1 & E1 & Em).
    eapply Inv_idle_leave; [|done|done|exact Em].
    destruct sw; [by eapply keeps_drain|by eapply keeps_wake_workers].
Qed.
