(* ===== verification/SchedulerProps.v ===== *)
(** * What the scheduler guarantees in every reachable state *)

From S2P Require Import Prelude Intrusive RunQueue TimerHeap RuntimeState Task Timer Worker Scheduler SchedulerFrames SchedulerInv SchedulerSteps SchedulerExecute.
From stdpp Require Import options.

Lemma system_step_inv n l s s' : sys_inv n s -> 8 * Z.of_nat (S n) < W64 -> step l s = Some s' -> sys_inv (S n) s'.
Proof.
  intros H HB E. destruct l; [by eapply worker_step_inv|by eapply task_step_inv|by eapply external_step_inv].
Qed.

Lemma pc_at_replicate n p : pc_at (replicate n W_out) p = W_out.
Proof.
  unfold pc_at. destruct (replicate n W_out !! p) as [pc|] eqn:E; [|done].
  by apply lookup_replicate in E as [-> _].
Qed.

Lemma initial_inv workers owner : (workers <= 64)%nat -> sys_inv 0 (initial workers owner).
Proof.
  intros Hw. split; [|simpl; apply Forall_replicate; simpl; lia].
  exists [], (fun _ => []), (fun _ => P_none). unfold Inv_at. simpl.
  assert (Hv : view_p <$> (initial_p <$> seq 0 workers) =
    replicate workers (fresh_queue VL_P_RUN_QUEUE_CAPACITY, false, None)).
  { clear Hw. generalize 0%nat. induction workers as [|k IH]; intros j; [done|]. simpl. by rewrite IH. }
  rewrite Hv. split; rewrite ?length_replicate; try done.
  - apply iq_repr_empty.
  - intros p v Hp. apply lookup_replicate in Hp as [-> _]. rewrite pc_at_replicate.
    split; simpl; try done. by apply fresh_queue_repr.
  - intros pl Hpl. assert (holdings [] (fun _ => []) (replicate workers W_out) pl = []) as ->.
    { destruct pl; simpl; rewrite ?pc_at_replicate; done. }
    split; [constructor|]. intros i. split; [by intros ?%elem_of_nil|done].
  - clear. induction workers; simpl; [done|]. rewrite IHworkers. done.
  - split; [done|]. lia.
Qed.

Lemma system_reachable_inv workers owner n s : (workers <= 64)%nat -> reachable workers owner n s ->
  8 * Z.of_nat n < W64 -> sys_inv n s.
Proof.
  intros Hw Hr. induction Hr as [|n l s s' Hr IH Hs]; intros HB; [by apply initial_inv|].
  eapply system_step_inv; [apply IH; lia|done|done].
Qed.

(** A task a worker is executing. *)
Definition executes (s : system) (p i : nat) : Prop := i ∈ pc_exec (pc_at (pcs s) p).

Section Reachable.
  #[local] Set Default Proof Using "Type*".
  Context (workers owner n : nat) (s : system).
  Context (Hw : (workers <= 64)%nat) (Hr : reachable workers owner n s) (Hn : 8 * Z.of_nat n < W64).

Lemma reached : exists G L loc, Inv_at (lost_in s) None (8 * Z.of_nat n) (pcs s) (rt s) G L loc.
Proof. by destruct (system_reachable_inv _ _ _ _ Hw Hr Hn). Qed.

End Reachable.

(** C2: a task is never executed by two workers at once, never while it sits in a
    run queue, and its fiber is only ever resumed on the P that created it: in
    every state the interleaved workers, running tasks and outside threads can
    reach, two workers executing the same task are the same worker, and the task
    is marked executing, not queued, not terminal, and pinned to that P. *)
Theorem execution_exclusive workers owner n s p i
    (Hw : (workers <= 64)%nat) (Hr : reachable workers owner n s) (Hn : 8 * Z.of_nat n < W64)
    (Hp : executes s p i) :
  (forall p', executes s p' i -> p' = p) /\
  exists t, tasks (rt s) !! i = Some t /\ executing t = true /\ queued t = false /\
    terminal (state t) = false /\ last_p t = Some p /\ (fiber t = None \/ fiber t = Some p).
Proof.
  destruct (reached _ _ _ _ Hw Hr Hn) as (G & L & loc & H). unfold executes in *.
  assert (Hloc : forall p', i ∈ pc_exec (pc_at (pcs s) p') -> loc i = P_exec p').
  { intros p' Hi. by apply (inv_placed _ _ _ _ _ _ _ _ _ _ _ _ _ H (P_exec p')). }
  split. { intros p' Hp'%Hloc. apply Hloc in Hp. congruence. }
  apply Hloc in Hp. destruct (inv_alive _ _ _ _ _ _ _ _ _ _ _ _ _ H i) as [t Ht]; [congruence|].
  exists t. split; [done|].
  destruct (inv_tasks _ _ _ _ _ _ _ _ _ _ _ _ _ H i t Ht ltac:(done)) as [Hq He Hs Hf Hla Hpi _].
  rewrite Hp in *. split; [by apply He|]. split; [destruct (queued t); [by destruct (proj1 Hq)|done]|].
  split; [|done]. unfold parked in Hs. by destruct Hs as [-> |[->|[->| ->]]].
Qed.



(** ** Reports that end a run *)

(** The global queue's length field counts it. *)
Lemma global_length E B l r lost G L loc : Inv_at lost E B l r G L loc -> B < W64 ->
  q_length (global_runnable r) = 0 -> G = [].
Proof.
  intros H HB H0. pose proof (inv_global _ _ _ _ _ _ _ _ _ _ _ _ _ H) as Hg.
  apply (iq_length_zero queue_link _ _ _ Hg); [|done].
  assert (Hsub : (list_to_set G : gset nat) ⊆ dom (tasks r)).
  { intros i Hi%elem_of_list_to_set. apply elem_of_dom.
    apply (inv_alive _ _ _ _ _ _ _ _ _ _ _ _ _ H). rewrite (proj1 (inv_at_global _ i H) Hi). done. }
  apply subseteq_size in Hsub. rewrite size_dom, size_list_to_set in Hsub by apply Hg.
  pose proof (inv_size _ _ _ _ _ _ _ _ _ _ _ _ _ H). lia.
Qed.

(** When every worker is counted idle, every worker is in its poll. *)
Lemma all_idle B l r lost G L loc p x : Inv_at lost None B l r G L loc ->
  idle_workers r = Z.of_nat (worker_count r) -> ps r !! p = Some x -> is_wait (pc_at l p).
Proof.
  intros H He Hx. pose proof (inv_idle _ _ _ _ _ _ _ _ _ _ _ _ _ H) as [_ Hi].
  apply (p_idle _ _ _ _ (Inv_at_p _ _ _ _ _ _ _ _ _ H Hx)).
  assert (Hf : forall v, (idle_weight v <= 1)%nat) by (unfold idle_weight; intros [[? []] ?]; simpl; lia).
  pose proof (sum_list_with_full idle_weight (view_p <$> ps r) Hf) as Hfull.
  specialize (Hfull ltac:(rewrite length_fmap; unfold worker_count in He; lia) p _ (view_lookup _ _ _ Hx)).
  unfold idle_weight in Hfull. by destruct ((view_p x).1.2).
Qed.

(** Nothing queued and every worker in its poll: every live task is parked, or was
    skipped. *)
Lemma quiet_parked B l r lost G L loc : Inv_at lost None B l r G L loc -> B < W64 ->
  idle_workers r = Z.of_nat (worker_count r) -> q_length (global_runnable r) = 0 ->
  existsb (fun x => negb (vl_run_queue_length (runnable x) =? 0)) (ps r) = false ->
  forall i t, tasks r !! i = Some t -> live_b t = true ->
    parked (state t) \/ (state t = VL_TASK_RUNNABLE /\ lost i = true).
Proof.
  intros H HB Hidle Hg Hl i t Ht Hlive.
  pose proof (global_length _ _ _ _ _ _ _ _ H HB Hg) as ->.
  assert (HL : forall p, L p = []).
  { intros p. destruct (ps r !! p) as [x|] eqn:Hx.
    - pose proof (p_queue _ _ _ _ (Inv_at_p _ _ _ _ _ _ _ _ _ H Hx)) as Hr. simpl in Hr.
      assert (Hz : vl_run_queue_length (runnable x) = 0).
      { destruct (Z.eqb_spec (vl_run_queue_length (runnable x)) 0); [done|exfalso].
        assert (Hex : existsb (fun x => negb (vl_run_queue_length (runnable x) =? 0)) (ps r) = true); [|congruence].
        apply existsb_exists. exists x. split; [by eapply list_elem_of_In, list_elem_of_lookup_2|].
        by apply negb_true_iff, Z.eqb_neq. }
      rewrite (run_queue_length_repr _ _ Hr) in Hz. destruct (L p); [done|simpl in Hz; lia].
    - apply (inv_out _ _ _ _ _ _ _ _ _ _ _ _ _ H). by rewrite list_lookup_fmap, Hx. }
  assert (Hloc : loc i = P_none).
  { destruct (decide (loc i = P_none)) as [|Hne]; [done|exfalso].
    pose proof (proj2 (proj2 (inv_placed _ _ _ _ _ _ _ _ _ _ _ _ _ H _ Hne) i) eq_refl) as Hin.
    assert (Hpc : forall p, pc_at l p = W_out \/ is_wait (pc_at l p)).
    { intros p. destruct (ps r !! p) as [x|] eqn:Hx; [right; by eapply all_idle|left].
      unfold pc_at. apply lookup_ge_None_1 in Hx.
      pose proof (inv_len _ _ _ _ _ _ _ _ _ _ _ _ _ H) as Hlen. rewrite length_fmap in Hlen.
      by rewrite lookup_ge_None_2 by lia. }
    destruct (loc i) as [| |p|p|p|p]; simpl in Hin; try rewrite HL in Hin; try by apply elem_of_nil in Hin.
    all: destruct (Hpc p) as [E|[sw E]]; rewrite E in Hin; by apply elem_of_nil in Hin. }
  destruct (inv_tasks _ _ _ _ _ _ _ _ _ _ _ _ _ H i t Ht ltac:(done)) as [_ _ Hs _ _ _ _].
  rewrite Hloc in Hs. unfold live_b in Hlive. destruct Hs as [Hs|[Hs|Hs]]; [by right|by left|].
  by rewrite Hs in Hlive.
Qed.

(** Computing the timeout only rewrites the P's heap with itself. *)
Lemma timeout_ms_inv p n r a r' : vl_timers_timeout_ms (Some p) n r = Some (a, r') ->
  exists xs, length xs = length (ps r) /\ r' = set_timer_nodes (timer_nodes r) (set_ps xs r).
Proof.
  intros E. unfold vl_timers_timeout_ms in E. apply bind_inv in E as (f & r1 & E1 & E).
  assert (r' = r1) as ->.
  { destruct f as [id|]; [|by minv]. apply bind_inv in E as (nd & r2 & E2 & E).
    unfold load_timer_node, deref in E2. destruct (timer_nodes r1 !! id); [|done]. simplify_eq.
    destruct (_ <=? n); [by minv|]. destruct (INT_MAX <=? _); by minv. }
  unfold on_timer_heap in E1. destruct (ps r !! p) as [x|]; [|done]. simpl in E1. simplify_eq.
  eexists. split; [|done]. apply length_insert.
Qed.

(** When an idle worker stops the run, nothing is left to run but tasks that were skipped. *)
Lemma idle_stop_sound workers owner n s p now e r'
    (Hw : (workers <= 64)%nat) (Hr : reachable workers owner n s) (Hn : 8 * Z.of_nat n < W64)
    (Hpc : pcs s !! p = Some W_idle) (Hrun : running (rt s) = true)
    (Hstep : idle_enter p now (rt s) = Some (e, r')) (Hstop : running r' = false) :
  run_status r' = VL_ERROR_INVALID_STATE /\ live_tasks r' <> 0 /\ timer_count r' = 0 /\ io_waiting r' = 0 /\
  (forall p' x, ps r' !! p' = Some x -> p' = p \/ is_wait (pc_at (pcs s) p')) /\
  (forall i t, tasks r' !! i = Some t -> terminal (state t) = false ->
     parked (state t) \/ (state t = VL_TASK_RUNNABLE /\ i ∈ skipped s)).
Proof.
  destruct (system_reachable_inv _ _ _ _ Hw Hr Hn) as [HI _]. apply lookup_pc_at in Hpc as [Hpc Hp].
  unfold idle_enter in Hstep. apply bind_inv in Hstep as (run & ? & [-> ->]%gets_inv & E).
  rewrite Hrun in E. simpl in E. apply bind_inv in E as (x & ? & [Hx ->]%load_p_inv & E).
  apply bind_inv in E as (? & r1 & E1 & E).
  destruct (Inv_idle_mark _ _ _ p x _ _ true HI Hp Hpc Hx E1) as ((G & L & loc & H) & Htasks & Hrun1).
  apply bind_inv in E as (r1' & ? & [-> ->]%gets_inv & E). change (id r1) with r1 in E.
  apply bind_inv in E as (? & r2 & E2 & E). apply bind_inv in E as (sw & ? & [-> ->]%gets_inv & E).
  apply bind_inv in E as (tmo & r3 & E3 & E). apply bind_inv in E as (w & ? & [-> ->]%gets_inv & E).
  apply mret_inv in E as [-> ->].
  assert (Hr3 : running r3 = running r2 /\ run_status r3 = run_status r2 /\ tasks r3 = tasks r2 /\
    live_tasks r3 = live_tasks r2 /\ timer_count r3 = timer_count r2 /\ io_waiting r3 = io_waiting r2 /\
    length (ps r3) = length (ps r2)).
  { apply timeout_ms_inv in E3 as (xs & Hlen & ->). done. }
  destruct Hr3 as (R1 & R2 & R3 & R4 & R5 & R6 & R7). rewrite R1, R2, R3, R4, R5, R6 in *.
  destruct (_ && _) eqn:Ec in E2; [|apply mret_inv in E2 as [_ ->]; congruence].
  apply andb_true_iff in Ec as [Ec Eio%Z.eqb_eq]. apply andb_true_iff in Ec as [Ec Etm%Z.eqb_eq].
  apply andb_true_iff in Ec as [Ec Elv%negb_true_iff%Z.eqb_neq].
  apply andb_true_iff in Ec as [Eid%Z.eqb_eq Egl%Z.eqb_eq].
  cbv zeta in E2. destruct (existsb _ _) eqn:El in E2; [apply mret_inv in E2 as [_ ->]; congruence|].
  apply modify_inv in E2. rewrite Hrun1, Hrun in E2. subst r2. simpl in *.
  split; [done|]. split; [done|]. split; [done|]. split; [done|]. split.
  - intros p' x' Hx'. destruct (decide (p' = p)) as [|Hne]; [by left|right].
    destruct (lookup_lt_is_Some_2 (ps r1) p') as [y Hy]; [rewrite <- R7; by eapply lookup_lt_Some|].
    pose proof (all_idle _ _ _ _ _ _ _ _ _ H Eid Hy) as Hwait.
    by rewrite pc_at_insert, decide_False in Hwait.
  - intros i t Ht Hlv. destruct (quiet_parked _ _ _ _ _ _ _ H ltac:(lia) Eid Egl El i t Ht) as [?|[? Hl]];
      [unfold live_b; by rewrite Hlv|by left|right].
    split; [done|]. by apply bool_decide_eq_true in Hl.
Qed.

(** C16: a run that ends normally has finished its work: in every reachable state
    [live_tasks] is exactly the number of tasks that are neither done nor cancelled
    and [active_workers] the number of workers executing one, and when a worker that
    leaves a task stops the run, it reports VL_OK and every task is done or
    cancelled. *)
Theorem run_completion_sound workers owner n s
    (Hw : (workers <= 64)%nat) (Hr : reachable workers owner n s) (Hn : 8 * Z.of_nat (S n) < W64) :
  live_tasks (rt s) = Z.of_nat (live_count (tasks (rt s))) /\
  active_workers (rt s) = Z.of_nat (length (filter (fun pc => pc_exec pc <> []) (pcs s))) /\
  (forall p i st d u r', pcs s !! p = Some (W_leave i st d) -> running (rt s) = true ->
     execute_leave p i st d (rt s) = Some (u, r') -> running r' = false ->
     run_status r' = VL_OK /\ forall j t, tasks r' !! j = Some t -> terminal (state t) = true).
Proof.
  destruct (system_reachable_inv _ _ _ _ Hw Hr ltac:(lia)) as [HI _]. split; [|split].
  - destruct HI as (G & L & loc & H). apply H.
  - destruct HI as (G & L & loc & H). rewrite (inv_active _ _ _ _ _ _ _ _ _ _ _ _ _ H). f_equal.
    clear. induction (pcs s) as [|pc l' IH]; [done|]. cbn [sum_list_with]. rewrite IH, filter_cons.
    unfold exec_weight. by destruct pc.
  - intros p i st d u r' Hpc Hrun E Hstop. apply lookup_pc_at in Hpc as [Hpc Hp].
    pose proof E as E'. eapply (Inv_execute_leave _ _ _ p i) in E' as (G & L & loc & H); [|exact HI|done|done|lia].
    unfold execute_leave in E.
    apply bind_inv in E as (? & r1 & E1 & E). apply (frames_upd (f := running)) in E1 as R1.
    apply bind_inv in E as (? & r2 & ->%modify_inv & E).
    apply bind_inv in E as (? & r3 & E3 & E). apply (frames_upd_p (f := running)) in E3 as R3. simpl in R3.
    apply bind_inv in E as (? & r4 & E4 & E). apply (frames_settle (f := running)) in E4 as R4.
    apply bind_inv in E as (live & ? & [-> ->]%gets_inv & E).
    apply bind_inv in E as (? & r5 & E5 & ->%modify_inv). simpl in *.
    assert (Hrun4 : running r4 = true) by congruence.
    destruct (Z.eqb_spec (live_tasks r4) 0) as [E0|E0]; [|apply mret_inv in E5 as [_ ->]; congruence].
    apply modify_inv in E5. rewrite Hrun4 in E5. subst r5. split; [done|]. simpl in *.
    intros j t Hj. destruct (terminal (state t)) eqn:Ht; [done|exfalso].
    pose proof (inv_live _ _ _ _ _ _ _ _ _ _ _ _ _ H) as Hlive. simpl in Hlive.
    assert (Hsz : live_count (tasks r4) = 0%nat) by lia. unfold live_count in Hsz.
    apply map_size_empty_inv in Hsz. assert (Hin : filter (fun kt => live_b kt.2 = true) (tasks r4) !! j = Some t).
    { apply map_lookup_filter_Some. split; [done|]. unfold live_b. simpl. by rewrite Ht. }
    rewrite Hsz, lookup_empty in Hin. done.
Qed.

(** ** Concrete runs *)

Lemma run_labels_reachable workers owner ls n s s' : reachable workers owner n s ->
  run_labels ls s = Some s' -> reachable workers owner (n + length ls) s'.
Proof.
  revert n s. induction ls as [|l ls IH]; intros n s Hr E; simpl in E.
  - injection E as <-. by rewrite Nat.add_0_r.
  - destruct (step l s) as [s1|] eqn:Es; [|done]. simpl. rewrite Nat.add_succ_r, <- Nat.add_succ_l.
    eapply IH; [|exact E]. by eapply reach_step.
Qed.

Definition go (p : nat) : label := L_worker p (mk_input 0 VL_OK VL_OK).
Definition outside : thread := mk_thread 0 None.
Definition spawns (i : nat) : label := L_external (X_spawn outside true (Some i)).
Definition starts : label := L_external (X_run outside).

(** The state a list of labels leads to. *)
Definition after (workers : nat) (ls : list label) : system :=
  default (initial workers 0) (run_labels ls (initial workers 0)).

(** Two tasks are spawned, the run starts, P0 takes task 1 and moves task 2 to its
    own deque, P1 steals it; both are executing. *)
Definition two_workers : list label :=
  [spawns 1; spawns 2; starts; go 1; go 1; go 0; go 0; go 0; go 0; go 0; go 0;
   go 1; go 1; go 1; go 1; go 1; go 1; go 1].

Lemma two_workers_reachable : reachable 2 0 18 (after 2 two_workers).
Proof.
  change 18%nat with (0 + length two_workers)%nat.
  apply (run_labels_reachable _ _ two_workers 0 (initial 2 0)); [constructor|]. vm_compute. reflexivity.
Qed.

Lemma two_workers_pcs : pcs (after 2 two_workers) = [W_running 1; W_running 2].
Proof. vm_compute. reflexivity. Qed.

Lemma execution_exclusive_witness :
  executes (after 2 two_workers) 1 2 /\
  (forall p', executes (after 2 two_workers) p' 2 -> p' = 1%nat).
Proof.
  assert (He : executes (after 2 two_workers) 1 2).
  { unfold executes. rewrite two_workers_pcs. simpl. set_solver. }
  split; [exact He|].
  destruct (execution_exclusive 2 0 18 (after 2 two_workers) 1 2) as [H _];
    [lia|exact two_workers_reachable|unfold W64; lia|exact He|exact H].
Defined.


Lemma run_completion_sound_witness :
  live_tasks (rt (after 2 two_workers)) = Z.of_nat (live_count (tasks (rt (after 2 two_workers)))) /\
  live_tasks (rt (after 2 two_workers)) = 2 /\ active_workers (rt (after 2 two_workers)) = 2.
Proof.
  destruct (run_completion_sound 2 0 18 (after 2 two_workers)) as [H _];
    [lia|exact two_workers_reachable|unfold W64; lia|].
  split; [exact H|]. split; vm_compute; reflexivity.
Defined.

(** One worker, one task that joins nothing and parks for ever. *)
Definition stuck_run : list label :=
  [spawns 1; starts; go 0; go 0; go 0; go 0; go 0; go 0;
   L_task 0 (Op_prepare_park VL_TASK_WAITING); L_task 0 Op_suspend; go 0;
   go 0; go 0; go 0; go 0; go 0].

(** ** A task spawned between two runs can be dropped

    P1 tests [running] while P0 executes the last task; P0 ends the run and the
    owner spawns task 2; P1 takes it from the global queue, finds the runtime not
    running, and returns without putting it back. *)
Definition late_spawn : list label :=
  [spawns 1; starts; go 1; go 1;
   go 0; go 0; go 0; go 0; go 0; go 0; L_task 0 Op_return; go 0; go 0; go 0;
   spawns 2; go 1; go 1; go 1; go 1; go 1].

(** The owner runs the runtime again; both workers go idle. *)
Definition second_run : list label :=
  late_spawn ++ [starts; go 1; go 1; go 1; go 1; go 1; go 1; go 1; go 1;
    go 0; go 0; go 0; go 0; go 0; go 0; go 0].

(** With two workers a task spawned after a run has ended can be lost: there is
    a reachable state in which the task is RUNNABLE and live but marked not queued,
    in no queue and held by no worker, and the next run then ends in
    VL_ERROR_INVALID_STATE, the deadlock report, without executing it. *)
Theorem late_spawn_lost :
  exists s1 s2,
    run_labels late_spawn (initial 2 0) = Some s1 /\ run_labels second_run (initial 2 0) = Some s2 /\
    (state <$> tasks (rt s1) !! 2%nat) = Some VL_TASK_RUNNABLE /\
    (queued <$> tasks (rt s1) !! 2%nat) = Some false /\
    global_runnable (rt s1) = empty_queue /\
    (vl_run_queue_length ∘ runnable) <$> ps (rt s1) = [0; 0] /\
    pcs s1 = [W_out; W_out] /\ live_tasks (rt s1) = 1 /\ shutdown_requested (rt s1) = false /\
    running (rt s2) = false /\ run_status (rt s2) = VL_ERROR_INVALID_STATE /\
    (state <$> tasks (rt s2) !! 2%nat) = Some VL_TASK_RUNNABLE.
Proof. eexists _, _. vm_compute. repeat split; reflexivity. Qed.

(** ** One worker, the default configuration *)

(** Between the test of the loop and the end of the iteration. *)
Definition in_loop (pc : worker_pc) : bool :=
  match pc with W_out | W_join | W_top | W_cancelled | W_wait _ => false | _ => true end.

Definition single_inv (s : system) : Prop :=
  shutdown_requested (rt s) = true \/
  (skipped s = [] /\ exists pc, pcs s = [pc] /\ (in_loop pc = true -> running (rt s) = true)).

Lemma then_goto_frames {A} (m : R A) k s s' p :
  then_goto p m k s = Some s' -> frames shutdown_requested m ->
  shutdown_requested (rt s') = shutdown_requested (rt s) /\ skipped s' = skipped s /\
  exists a r, m (rt s) = Some (a, r) /\ rt s' = r /\ pcs s' = <[p := k a]> (pcs s).
Proof.
  unfold then_goto, goto. destruct (m (rt s)) as [[a r]|] eqn:E; [|done]. intros [= <-] Hf. simpl.
  split; [by eapply Hf|]. split; [done|]. eauto.
Qed.

(** A step that leaves [shutdown_requested] alone and keeps [running] as long as the
    worker stays in its loop. *)
Lemma single_then_goto {A} (m : R A) k s s' pc :
  shutdown_requested (rt s) = true \/ (skipped s = [] /\ (in_loop pc = true -> running (rt s) = true)) ->
  pcs s = [pc] -> then_goto 0 m k s = Some s' -> frames shutdown_requested m ->
  (forall a r, m (rt s) = Some (a, r) -> in_loop (k a) = true -> in_loop pc = true /\ running r = running (rt s)) ->
  single_inv s'.
Proof.
  intros Hi Hpc E Hf Hk. destruct (then_goto_frames _ _ _ _ _ E Hf) as (E1 & E2 & a & r & Em & E3 & E4).
  destruct Hi as [Hi|[Hsk Hi]]; [left; congruence|right]. split; [congruence|].
  exists (k a). rewrite E4, Hpc, E3. split; [done|]. intros Hl.
  destruct (Hk a r Em Hl) as [Hl' ->]. by apply Hi.
Qed.

Ltac single_op Hi Hpc E :=
  eapply (single_then_goto _ _ _ _ _ Hi Hpc E);
  [|intros ? ? Hm _; split; [done|]; revert Hm].

Lemma frames_stop_run st : frames shutdown_requested (vl_worker_stop_run_locked st).
Proof. apply frames_modify. intros. by case_match. Qed.

Lemma frames_execute_leave p i st d : frames shutdown_requested (execute_leave p i st d).
Proof.
  pose proof frames_stop_run. unfold execute_leave.
  pose proof (frames_settle (f := shutdown_requested)).
  pose proof (frames_wake_workers (f := shutdown_requested)). frames_solve.
Qed.

Lemma frames_idle_enter p now : frames shutdown_requested (idle_enter p now).
Proof.
  pose proof frames_stop_run. unfold idle_enter.
  pose proof (frames_timeout_ms (f := shutdown_requested)). frames_solve.
Qed.

Lemma enter_skip_running p i r r' : execute_enter p i r = Some (Skip, r') -> running r = true ->
  r' = r /\ state <$> tasks r !! i <> Some VL_TASK_RUNNABLE.
Proof.
  intros E Hrun. unfold execute_enter in E. apply bind_inv in E as (t & ? & [Ht ->]%load_task_inv & E).
  apply bind_inv in E as (b & ? & [-> ->]%gets_inv & E). rewrite Hrun, orb_false_r in E.
  destruct (bool_decide (state t <> VL_TASK_RUNNABLE)) eqn:Eb.
  - apply mret_inv in E as [_ ->]. split; [done|]. rewrite Ht. simpl. intros [= Es].
    by apply bool_decide_eq_true in Eb.
  - apply bind_inv in E as (b & ? & [-> ->]%gets_inv & E). destruct (shutdown_requested r); minv; done.
Qed.

Lemma single_worker_step p inp s s' : single_inv s -> length (pcs s) = 1%nat ->
  worker_step p inp s = Some s' -> single_inv s'.
Proof.
  intros Hi Hlen E. destruct (pcs s) as [|pc [|]] eqn:Hpc; try done.
  unfold worker_step in E. rewrite Hpc in E. destruct p; [|done]. cbn [lookup list_lookup] in E.
  assert (Hi' : shutdown_requested (rt s) = true \/ (skipped s = [] /\ (in_loop pc = true -> running (rt s) = true))).
  { destruct Hi as [Hi|(Hsk & pc' & Hpc' & Hi)]; [by left|right]. split; [done|].
    rewrite Hpc in Hpc'. by injection Hpc' as <-. }
  clear Hi. rename Hi' into Hi.
  destruct pc as [| | | | | |offset|first rest|i| |i|i|i st d| |sw].
  - done.
  - destruct (_ =? 0); [|done]. eapply single_then_goto; [exact Hi|done|exact E| |done].
    unfold vl_runtime_run_finish. pose proof (frames_cancel_all (f := shutdown_requested)). frames_solve.
  - simpl in E. destruct (running (rt s)) eqn:Hr; injection E as <-; destruct Hi as [Hi|[Hsk Hi]]; [by left|right|by left|right];
      (split; [done|]; eexists; simpl; rewrite Hpc; split; [done|]; done).
  - single_op Hi Hpc E; [apply frames_expire|]. intros Hm. by apply (frames_expire (f := running)) in Hm.
  - single_op Hi Hpc E; [apply frames_take_local|]. intros Hm. by apply (frames_take_local (f := running)) in Hm.
  - single_op Hi Hpc E; [apply frames_take_global|]. intros Hm. by apply (frames_take_global (f := running)) in Hm.
  - destruct (offset <? _)%nat.
    + single_op Hi Hpc E; [apply frames_steal_from|]. intros Hm. by apply (frames_steal_from (f := running)) in Hm.
    + injection E as <-. destruct Hi as [Hi|[Hsk Hi]]; [by left|right]. split; [done|]. eexists. simpl. rewrite Hpc.
      split; [done|]. auto.
  - single_op Hi Hpc E; [apply frames_steal_commit|]. intros Hm. by apply (frames_steal_commit (f := running)) in Hm.
  - destruct (execute_enter 0 i (rt s)) as [[e r]|] eqn:Ee; [|done].
    pose proof (frames_enter (f := shutdown_requested) _ _ _ _ _ Ee) as Es.
    pose proof (frames_enter (f := running) _ _ _ _ _ Ee) as Er.
    destruct e; injection E as <-; (destruct Hi as [Hi|[Hsk Hi]]; [left; simpl; congruence|right]); simpl; rewrite ?Hpc.
    + destruct (enter_skip_running _ _ _ _ Ee (Hi eq_refl)) as [-> Hns]. rewrite decide_False by done.
      split; [done|]. by exists W_top.
    + split; [done|]. by exists W_cancelled.
    + split; [done|]. exists (W_prepare i). split; [done|]. intros _. rewrite Er. by apply Hi.
  - eapply single_then_goto; [exact Hi|done|exact E| |done]. unfold execute_cancelled.
    pose proof frames_stop_run. pose proof (frames_wake_workers (f := shutdown_requested)). frames_solve.
  - assert (Hf : forall (Y : Type) (f : vl_runtime_impl -> Y) `{!Bystander f}, frames f
      (status ← execute_prepare 0 i (created inp);
       if bool_decide (status = VL_OK) && bool_decide (resumed inp <> VL_OK) then
         _ ← vl_context_set_current (Some 0%nat) None; mret (resumed inp)
       else mret status)).
    { intros Y f Hf. pose proof (frames_prepare (f := f)). pose proof (frames_set_current (f := f)). frames_solve. }
    single_op Hi Hpc E; [by apply Hf|]. intros Hm. by apply (Hf _ running) in Hm.
  - done.
  - eapply single_then_goto; [exact Hi|done|exact E|apply frames_execute_leave|done].
  - eapply single_then_goto; [exact Hi|done|exact E|apply frames_idle_enter|]. intros a r _. by destruct a as [[]|].
  - eapply single_then_goto; [exact Hi|done|exact E| |done]. unfold idle_leave.
    pose proof (frames_wake_workers (f := shutdown_requested)). unfold vl_worker_drain_eventfd. frames_solve.
Qed.

Lemma step_length l s s' : step l s = Some s' -> length (pcs s') = length (pcs s).
Proof.
  assert (Hg : forall {A} p (m : R A) k, then_goto p m k s = Some s' -> length (pcs s') = length (pcs s)).
  { intros A p m k E. unfold then_goto, goto in E. repeat case_match; simplify_eq. simpl. apply length_insert. }
  intros E. destruct l as [p inp|p op|op]; simpl in E.
  - unfold worker_step, goto in E. repeat case_match; try done; try (by eapply Hg); simplify_eq;
      simpl; apply length_insert.
  - unfold task_step in E. repeat case_match; try done. by eapply Hg.
  - unfold external_step, goto in E. repeat case_match; try done; simplify_eq; simpl; [done|apply length_insert].
Qed.

Lemma single_task_step p op s s' : single_inv s -> length (pcs s) = 1%nat ->
  task_step p op s = Some s' -> single_inv s'.
Proof.
  intros Hi Hlen E. destruct (pcs s) as [|pc [|]] eqn:Hpc; try done.
  unfold task_step in E. rewrite Hpc in E. destruct p; [|done]. cbn [lookup list_lookup] in E.
  destruct pc as [| | | | | | | | | | |i| | |]; try done.
  assert (Hf : forall (Y : Type) (f : vl_runtime_impl -> Y) `{!Bystander f}, frames f
    (o ← run_op (mk_thread 0 (Some 0%nat)) op;
     match o with
     | Return _ => mret true
     | Suspend => _ ← vl_context_set_current (Some 0%nat) None; mret false
     end)).
  { intros Y f Hf. pose proof (frames_run_op (f := f)). pose proof (frames_set_current (f := f)). frames_solve. }
  eapply (single_then_goto _ _ _ _ (W_running i)); [|done|exact E|by apply Hf|].
  - destruct Hi as [Hi|(Hsk & pc' & Hpc' & Hi)]; [by left|right]. split; [done|].
    rewrite Hpc in Hpc'. by injection Hpc' as <-.
  - intros a r Hm _. split; [done|]. by apply (Hf _ running) in Hm.
Qed.

Lemma external_flags op r o r' : run_external op r = Some (o, r') ->
  shutdown_requested r' = true \/
  (shutdown_requested r' = shutdown_requested r /\ (o <> Suspend -> running r' = running r)).
Proof.
  intros E. pose proof (frames_spawn (f := running)). pose proof (frames_spawn (f := shutdown_requested)).
  pose proof (frames_wake (f := running)). pose proof (frames_wake (f := shutdown_requested)).
  pose proof (frames_wake_workers (f := running)). pose proof (frames_wake_workers (f := shutdown_requested)).
  destruct op; cbn [run_external] in E;
    try (right; split; [|intros _];
      match type of E with ?m _ = _ =>
        match goal with |- ?f _ = _ => assert (Hf : frames f m);
          [solve [unfold vl_task_complete_io, vl_timer_init, vl_timer_cancel, vl_timer_arm_resumed,
             vl_timer_destroy; frames_solve]
          |by apply Hf in E] end end).
  - left. unfold vl_runtime_request_shutdown in E. minv.
    match goal with H : vl_runtime_wake_workers _ = Some _ |- _ => apply H4 in H end. done.
  - right. apply bind_inv in E as (o' & r1 & E1 & [-> ->]%mret_inv).
    unfold vl_runtime_run_begin in E1. apply bind_inv in E1 as (b & ? & [-> ->]%gets_inv & E1).
    destruct (_ || _); [by minv|]. apply bind_inv in E1 as (b & ? & [-> ->]%gets_inv & E1).
    destruct (running r) eqn:Hr; [by minv|]. apply bind_inv in E1 as (b & ? & [-> ->]%gets_inv & E1).
    destruct (_ =? 0); [by minv|]. minv.
    match goal with H : vl_runtime_wake_workers _ = Some _ |- _ => apply H4 in H end. done.
Qed.

Lemma single_external_step op s s' : single_inv s -> external_step op s = Some s' -> single_inv s'.
Proof.
  intros Hi E. unfold external_step, goto in E. destruct (run_external op (rt s)) as [[o r]|] eqn:Em; [|done].
  assert (Hr : rt s' = r) by (destruct o; [by simplify_eq|repeat case_match; by simplify_eq]).
  destruct (external_flags _ _ _ _ Em) as [Hs|[Hs Hrun]]; [left; congruence|].
  destruct Hi as [Hi|(Hsk & pc & Hpc & Hi)]; [left; congruence|right].
  destruct o as [?|].
  - injection E as <-. simpl. split; [done|]. exists pc. split; [done|]. by rewrite Hrun.
  - rewrite Hpc in E. simpl in E. destruct pc; try done. injection E as <-. simpl. split; [done|].
    by exists W_top.
Qed.

(** With one worker, the default, no runnable task is ever dropped unless a
    shutdown was requested: in every reachable state either shutdown was requested,
    or no worker has ever skipped a runnable task and, whenever the worker is inside
    an iteration of its loop, the runtime is running. *)
Theorem single_worker_skips_none owner n s (Hr : reachable 1 owner n s) :
  shutdown_requested (rt s) = true \/
  (skipped s = [] /\ exists pc, pcs s = [pc] /\ (in_loop pc = true -> running (rt s) = true)).
Proof.
  assert (H : single_inv s /\ length (pcs s) = 1%nat); [|by destruct H].
  induction Hr as [|k l s s' Hr [IH Hlen] Hs].
  - split; [|done]. right. split; [done|]. by exists W_out.
  - split.
    + destruct l; [by eapply single_worker_step|by eapply single_task_step|by eapply single_external_step].
    + rewrite <- Hlen. by eapply step_length.
Qed.

(** C15: a reported deadlock is one: when the idle worker of a reachable state stops
    the run, it reports VL_ERROR_INVALID_STATE, there is a live task, no timer is
    armed, no task waits for I/O, every other worker is in its poll too, and every
    task that is not finished is parked, except for RUNNABLE tasks that a worker had
    taken from a queue and skipped because the runtime was not running.  With one
    worker, and unless a shutdown was requested, there are no such tasks and every
    unfinished task is parked. *)
Theorem deadlock_report_sound workers owner n s p now e r'
    (Hw : (workers <= 64)%nat) (Hr : reachable workers owner n s) (Hn : 8 * Z.of_nat n < W64)
    (Hpc : pcs s !! p = Some W_idle) (Hrun : running (rt s) = true)
    (Hstep : idle_enter p now (rt s) = Some (e, r')) (Hstop : running r' = false) :
  run_status r' = VL_ERROR_INVALID_STATE /\ live_tasks r' <> 0 /\ timer_count r' = 0 /\ io_waiting r' = 0 /\
  (forall p' x, ps r' !! p' = Some x -> p' = p \/ is_wait (pc_at (pcs s) p')) /\
  (forall i t, tasks r' !! i = Some t -> terminal (state t) = false ->
     parked (state t) \/ (state t = VL_TASK_RUNNABLE /\ i ∈ skipped s)) /\
  (workers = 1%nat -> shutdown_requested (rt s) = false ->
     forall i t, tasks r' !! i = Some t -> terminal (state t) = false -> parked (state t)).
Proof.
  destruct (idle_stop_sound workers owner n s p now e r' Hw Hr Hn Hpc Hrun Hstep Hstop) as (H1 & H2 & H3 & H4 & H5 & H6).
  split_and!; [done..|]. intros -> Hsh i t Ht Hnt. destruct (H6 i t Ht Hnt) as [Hp|[_ Hsk]]; [done|].
  destruct (single_worker_skips_none owner n s Hr) as [?|[Hno _]]; [congruence|]. rewrite Hno in Hsk. by apply not_elem_of_nil in Hsk.
Qed.

Lemma deadlock_report_sound_witness :
  exists e r', idle_enter 0 0 (rt (after 1 stuck_run)) = Some (e, r') /\ running r' = false /\
    run_status r' = VL_ERROR_INVALID_STATE /\
    forall i t, tasks r' !! i = Some t -> terminal (state t) = false -> parked (state t).
Proof.
  destruct (idle_enter 0 0 (rt (after 1 stuck_run))) as [[e r']|] eqn:E; [|exfalso; vm_compute in E; discriminate].
  exists e, r'. split; [reflexivity|].
  assert (Hstop : running r' = false) by (vm_compute in E; injection E as <- <-; reflexivity).
  split; [exact Hstop|].
  destruct (deadlock_report_sound 1 0 16 (after 1 stuck_run) 0 0 e r') as (Hst & _ & _ & _ & _ & _ & Hone).
  - lia.
  - change 16%nat with (0 + length stuck_run)%nat.
    apply (run_labels_reachable _ _ stuck_run 0 (initial 1 0)); [constructor|]. vm_compute. reflexivity.
  - unfold W64; lia.
  - vm_compute. reflexivity.
  - vm_compute. reflexivity.
  - exact E.
  - exact Hstop.
  - split; [exact Hst|]. apply Hone; [reflexivity|vm_compute; reflexivity].
Defined.

(** ** Wake-ups are not lost *)





