(* ===== verification/Lifecycle.v ===== *)
(** * Creating and destroying a runtime (src/runtime/scheduler.c, worker.c)

    [vl_runtime_init_with_config] acquires what a runtime is made of one piece at a time
    and gives it all back when a piece is refused; [vl_runtime_shutdown] gives it back at
    the end.  [lf_held] is what has been acquired: acquiring what is held and releasing
    what is not are undefined behaviour.  The state of the scheduler itself is the
    [vl_runtime_impl] of [RuntimeState], on which the tasks and their fibers are destroyed.

    [lf_fds] are the numbers of the P's eventfds (0 in the array that calloc returns),
    [lf_written] the descriptors that [vl_runtime_wake_workers] has written to.  A P's
    fiber scheduler is held while it exists and is not destroyed while it has fibers
    ([vl_fiber_sched_destroy] returns then, see [Fiber]).

    The thread of a worker touches its own P, and counters under the mutex that the
    creating thread reads after it has waited for them.  It starts at once or when the
    creating thread waits for it ([en_early]), and finishes when it is joined. *)

From S2P Require Import Prelude Intrusive RunQueue TimerHeap RuntimeState Task Timer Worker Scheduler.
From stdpp Require Import options.

Inductive resource :=
  | R_impl | R_mutex | R_condition | R_ps
  | R_slots (p : nat) | R_event_fd (p : nat) | R_fiber_sched (p : nat) | R_thread (p : nat).

#[export] Instance resource_eq_dec : EqDecision resource.
Proof. solve_decision. Defined.
#[export] Instance resource_countable : Countable resource.
Proof.
  refine (inj_countable'
    (fun x => match x with
              | R_impl => (0, 0) | R_mutex => (1, 0) | R_condition => (2, 0) | R_ps => (3, 0)
              | R_slots p => (4, p) | R_event_fd p => (5, p) | R_fiber_sched p => (6, p) | R_thread p => (7, p)
              end%nat)
    (fun c => match c with
              | (0, _) => R_impl | (1, _) => R_mutex | (2, _) => R_condition | (3, _) => R_ps
              | (4, p) => R_slots p | (5, p) => R_event_fd p | (6, p) => R_fiber_sched p | (_, p) => R_thread p
              end%nat) _).
  by intros [].
Defined.

Record life := mk_life {
  lf_handle : bool;
  lf_allocator : bool;
  lf_held : gset resource;
  lf_fds : list Z;
  lf_begun : gset nat;
  lf_written : list Z;
  lf_rt : vl_runtime_impl }.

Definition set_lf_handle (v : bool) (w : life) : life :=
  mk_life v (lf_allocator w) (lf_held w) (lf_fds w) (lf_begun w) (lf_written w) (lf_rt w).
Definition set_lf_allocator (v : bool) (w : life) : life :=
  mk_life (lf_handle w) v (lf_held w) (lf_fds w) (lf_begun w) (lf_written w) (lf_rt w).
Definition set_lf_held (v : gset resource) (w : life) : life :=
  mk_life (lf_handle w) (lf_allocator w) v (lf_fds w) (lf_begun w) (lf_written w) (lf_rt w).
Definition set_lf_fds (v : list Z) (w : life) : life :=
  mk_life (lf_handle w) (lf_allocator w) (lf_held w) v (lf_begun w) (lf_written w) (lf_rt w).
Definition set_lf_begun (v : gset nat) (w : life) : life :=
  mk_life (lf_handle w) (lf_allocator w) (lf_held w) (lf_fds w) v (lf_written w) (lf_rt w).
Definition set_lf_written (v : list Z) (w : life) : life :=
  mk_life (lf_handle w) (lf_allocator w) (lf_held w) (lf_fds w) (lf_begun w) v (lf_rt w).
Definition set_lf_rt (v : vl_runtime_impl) (w : life) : life :=
  mk_life (lf_handle w) (lf_allocator w) (lf_held w) (lf_fds w) (lf_begun w) (lf_written w) v.

Notation LC := (C life).

Definition acquire (x : resource) : LC unit := fun w =>
  if decide (x ∈ lf_held w) then None else Some (tt, set_lf_held ({[x]} ∪ lf_held w) w).
Definition release_held (x : resource) : LC unit := fun w =>
  if decide (x ∈ lf_held w) then Some (tt, set_lf_held (lf_held w ∖ {[x]}) w) else None.
Definition on_rt {A} (m : R A) : LC A := fun w =>
  match m (lf_rt w) with
  | Some (a, r) => Some (a, set_lf_rt r w)
  | None => None
  end.
Definition rt_get {A} (f : vl_runtime_impl -> A) : LC A := gets (fun w => f (lf_rt w)).

(** The loops over the P's: [from], [from + 1], ... *)
Fixpoint for_ps (from n : nat) (body : nat -> LC unit) : LC unit :=
  match n with
  | O => mret tt
  | S n => _ ← body from; for_ps (S from) n body
  end.

(** What libc and the kernel answer. *)
Record init_env := mk_init_env {
  en_page_size : bool;
  en_calloc_impl : bool;
  en_mutex : bool;
  en_condition : bool;
  en_calloc_ps : bool;
  en_slots : nat -> bool;
  en_event_fd : nat -> Z;
  en_sched : nat -> bool;
  en_thread : nat -> bool;
  en_early : nat -> bool }.

(** The allocator is global: initialised once, whoever asks, and shut down likewise. *)
Definition allocator_init (env : init_env) : LC vl_status :=
  on ← gets lf_allocator;
  if on : bool then mret VL_OK else
  if en_page_size env then _ ← modify (set_lf_allocator true); mret VL_OK else mret VL_ERROR_SYSTEM.
Definition allocator_shutdown : LC unit := modify (set_lf_allocator false).

(** [vl_runtime_wake_workers], with the descriptors it writes to. *)
Definition wake_workers : LC unit :=
  _ ← on_rt vl_runtime_wake_workers;
  modify (fun w => set_lf_written (lf_written w ++ lf_fds w) w).

(** ** Fiber schedulers *)

Definition sched_init (ok : bool) (p : nat) : LC vl_status :=
  if ok then _ ← acquire (R_fiber_sched p); mret VL_OK else mret VL_ERROR_SYSTEM.

Definition owned_fibers (p : nat) (r : vl_runtime_impl) : gmap nat vl_task := filter (fun kt => fiber kt.2 = Some p) (tasks r).

(** [vl_fiber_sched_destroy] of a P that is not running a fiber. *)
Definition sched_destroy (p : nat) : LC unit :=
  owned ← rt_get (owned_fibers p);
  if decide (owned = ∅) then release_held (R_fiber_sched p) else mret tt.

(** ** Worker threads *)

(** [vl_worker_thread_main] up to its loop. *)
Definition thread_begin (env : init_env) (p : nat) : LC unit :=
  _ ← modify (fun w => set_lf_begun ({[p]} ∪ lf_begun w) w);
  status ← sched_init (en_sched env p) p;
  _ ← on_rt (upd_p p (set_init_status (if decide (status = VL_OK) then VL_OK else VL_ERROR_SYSTEM)));
  on_rt (modify (fun r => set_workers_ready (w64 (workers_ready r + 1)) r)).

(** Its end: a thread that got no fiber scheduler has returned, another leaves its loop
    when [stop_workers] is set. *)
Definition thread_end (p : nat) : LC unit :=
  held ← gets lf_held;
  if decide (R_fiber_sched p ∉ held) then mret tt else
  stop ← rt_get stop_workers;
  if negb stop then ub else
  _ ← on_rt (vl_worker_destroy_owned_fibers p);
  sched_destroy p.

Definition begin_if_new (env : init_env) (p : nat) : LC unit :=
  begun ← gets lf_begun;
  if decide (p ∈ begun) then mret tt else thread_begin env p.

Definition vl_worker_start (env : init_env) (p : nat) : LC vl_status :=
  x ← on_rt (load_p p);
  if thread_started x then mret VL_ERROR_INVALID_ARGUMENT else
  if negb (en_thread env p) then mret VL_ERROR_SYSTEM else
  _ ← acquire (R_thread p);
  _ ← (if en_early env p then thread_begin env p else mret tt);
  _ ← on_rt (upd_p p (set_thread_started true));
  mret VL_OK.

(** [pthread_join] waits for the whole of the thread. *)
Definition vl_worker_stop (env : init_env) (p : nat) : LC unit :=
  x ← on_rt (load_p p);
  if negb (thread_started x) then mret tt else
  _ ← begin_if_new env p;
  _ ← thread_end p;
  _ ← release_held (R_thread p);
  on_rt (upd_p p (set_thread_started false)).

(** ** Cleaning up *)

(** [free(queue->slots)] of a NULL pointer does nothing. *)
Definition run_queue_destroy (p : nat) : LC unit :=
  x ← on_rt (load_p p);
  _ ← (if decide (slots (runnable x) = None) then mret tt else release_held (R_slots p));
  on_rt (on_run_queue p vl_run_queue_destroy).

Definition timer_heap_destroy (p : nat) : LC unit :=
  on_rt (upd_p p (set_timers (mk_timer_heap [] false 0))).

Definition fd_of (p : nat) (w : life) : Z := default (-1) (lf_fds w !! p).

Definition destroy_p (p : nat) : LC unit :=
  fd ← gets (fd_of p);
  _ ← (if 0 <=? fd then release_held (R_event_fd p) else mret tt);
  _ ← run_queue_destroy p;
  timer_heap_destroy p.

Definition free_runtime : LC unit :=
  n ← rt_get worker_count;
  _ ← (if decide (n = 0%nat) then mret tt else release_held R_ps);
  _ ← release_held R_condition;
  _ ← release_held R_mutex;
  release_held R_impl.

Definition vl_runtime_cleanup_partial (env : init_env) (initialized_ps : nat) : LC unit :=
  _ ← on_rt (modify (set_stop_workers true));
  _ ← wake_workers;
  _ ← for_ps 1 (initialized_ps - 1) (vl_worker_stop env);
  held ← gets lf_held;
  _ ← (if bool_decide (initialized_ps <> 0%nat) && bool_decide (R_fiber_sched 0 ∈ held) then sched_destroy 0 else mret tt);
  _ ← for_ps 0 initialized_ps destroy_p;
  free_runtime.

(** ** Initialisation *)

Definition VL_RUNTIME_DEFAULT_WORKER_COUNT : nat := 1.

(** What [calloc] returns. *)
Definition zero_p : vl_p :=
  mk_p (mk_run_queue 0 0 None 0 0) 0 false VL_OK false None (mk_p_stats 0 0 0 0 0 0) (mk_timer_heap [] false 0).
Definition zero_runtime : vl_runtime_impl :=
  mk_runtime empty_queue None ∅ [] 0 0 0 0 0 0 None 0 false VL_OK false false (mk_stats 0 0 0 0 0 0) ∅ ∅ ∅.

Definition set_fd (p : nat) (fd : Z) : LC unit := modify (fun w => set_lf_fds (<[p := fd]> (lf_fds w)) w).

Definition timer_heap_init (p : nat) : LC vl_status :=
  x ← on_rt (load_p p);
  mret (if items_allocated (timers x) then VL_ERROR_INVALID_ARGUMENT else VL_OK).

(** The end of a round of the loop over the P's: P 0 gets its fiber scheduler, another P
    its thread.  The result is the error and the number of P's to clean up, or nothing. *)
Definition start_p (env : init_env) (p : nat) : LC (option (vl_status * nat)) :=
  if decide (p = 0%nat) then
    status ← sched_init (en_sched env 0) 0;
    if decide (status <> VL_OK) then mret (Some (VL_ERROR_SYSTEM, S p)) else
    _ ← on_rt (upd_p 0 (set_init_status VL_OK));
    mret None
  else
    status ← vl_worker_start env p;
    if decide (status <> VL_OK) then mret (Some (VL_ERROR_SYSTEM, S p)) else mret None.

(** The whole round. *)
Definition init_p (env : init_env) (p : nat) : LC (option (vl_status * nat)) :=
  _ ← set_fd p (-1);
  _ ← on_rt (upd_p p (set_init_status VL_ERROR_SYSTEM));
  heap ← timer_heap_init p;
  if decide (heap <> VL_OK) then mret (Some (VL_ERROR_SYSTEM, p)) else
  queue ← on_rt (on_run_queue p (vl_run_queue_init (en_slots env p) VL_P_RUN_QUEUE_CAPACITY));
  if decide (queue <> VL_OK) then mret (Some (VL_ERROR_OUT_OF_MEMORY, p)) else
  _ ← acquire (R_slots p);
  let fd := en_event_fd env p in
  _ ← set_fd p fd;
  if fd <? 0 then mret (Some (VL_ERROR_SYSTEM, S p)) else
  _ ← acquire (R_event_fd p);
  start_p env p.

Fixpoint init_ps (env : init_env) (p n : nat) : LC (option (vl_status * nat)) :=
  match n with
  | O => mret None
  | S n =>
      r ← init_p env p;
      match r with
      | Some e => mret (Some e)
      | None => init_ps env (S p) n
      end
  end.

(** The wait on the condition variable: it ends when every thread has begun. *)
Definition await_workers (env : init_env) (n : nat) : LC unit :=
  _ ← for_ps 1 (n - 1) (begin_if_new env);
  ready ← rt_get workers_ready;
  if ready + 1 <? Z.of_nat n then ub else mret tt.

(** Has a worker failed to create its fiber scheduler? *)
Definition worker_failed (r : vl_runtime_impl) : bool := existsb (fun x => bool_decide (init_status x <> VL_OK)) (tail (ps r)).

(** The number of workers asked for; the stack size is only passed on. *)
Definition requested_workers (config : option nat) : nat :=
  match config with
  | Some n => if (n =? 0)%nat then VL_RUNTIME_DEFAULT_WORKER_COUNT else n
  | None => VL_RUNTIME_DEFAULT_WORKER_COUNT
  end.

(** The parts of [vl_runtime_init_with_config]: from the loop over the P's on, *)
Definition init_workers (env : init_env) (n : nat) : LC vl_status :=
  failed ← init_ps env 0 n;
  match failed with
  | Some (status, k) => _ ← vl_runtime_cleanup_partial env k; _ ← allocator_shutdown; mret status
  | None =>
      _ ← await_workers env n;
      bad ← rt_get worker_failed;
      if bad : bool then _ ← vl_runtime_cleanup_partial env n; _ ← allocator_shutdown; mret VL_ERROR_SYSTEM else
      _ ← modify (set_lf_handle true);
      mret VL_OK
  end.

(** from the first calloc on, *)
Definition init_impl (env : init_env) (th : thread) (n : nat) : LC vl_status :=
  if negb (en_calloc_impl env) then _ ← allocator_shutdown; mret VL_ERROR_OUT_OF_MEMORY else
  _ ← acquire R_impl;
  _ ← modify (set_lf_rt zero_runtime);
  _ ← modify (set_lf_fds []);
  _ ← modify (set_lf_begun ∅);
  if negb (en_mutex env) then _ ← release_held R_impl; _ ← allocator_shutdown; mret VL_ERROR_SYSTEM else
  _ ← acquire R_mutex;
  if negb (en_condition env) then
    _ ← release_held R_mutex; _ ← release_held R_impl; _ ← allocator_shutdown; mret VL_ERROR_SYSTEM else
  _ ← acquire R_condition;
  if negb (en_calloc_ps env) then
    _ ← vl_runtime_cleanup_partial env 0; _ ← allocator_shutdown; mret VL_ERROR_OUT_OF_MEMORY else
  _ ← acquire R_ps;
  _ ← on_rt (modify (set_ps (replicate n zero_p)));
  _ ← modify (set_lf_fds (replicate n 0%Z));
  _ ← on_rt (modify (set_owner_thread (th_self th)));
  init_workers env n.

(** and all of it.  [runtime_given]: the argument is not NULL; [config]: its
    [worker_count], if given. *)
Definition vl_runtime_init_with_config (env : init_env) (th : thread) (runtime_given : bool) (config : option nat) : LC vl_status :=
  handle ← gets lf_handle;
  if negb runtime_given || handle then mret VL_ERROR_INVALID_ARGUMENT else
  let n := requested_workers config in
  if (n =? 0)%nat || (VL_RUNTIME_MAX_WORKERS <? Z.of_nat n) then mret VL_ERROR_INVALID_ARGUMENT else
  allocator ← allocator_init env;
  if decide (allocator <> VL_OK) then mret VL_ERROR_INVALID_STATE else
  init_impl env th n.

Definition vl_runtime_init (env : init_env) (th : thread) (runtime_given : bool) : LC vl_status :=
  vl_runtime_init_with_config env th runtime_given None.

(** ** Shutdown *)

(** [io_open]: the driver registered with the runtime is still initialised. *)
Definition vl_runtime_shutdown (env : init_env) (th : thread) (io_open : bool) : LC unit :=
  handle ← gets lf_handle;
  if negb handle then mret tt else
  owner ← rt_get (vl_runtime_is_owner th);
  io ← rt_get io_driver;
  if negb owner || bool_decide (vl_current_p th <> None) || (bool_decide (io <> None) && io_open) then mret tt else
  _ ← on_rt (modify (set_running false));
  _ ← on_rt (modify (set_stop_workers true));
  _ ← wake_workers;
  n ← rt_get worker_count;
  _ ← for_ps 1 (n - 1) (vl_worker_stop env);
  _ ← on_rt vl_task_cancel_all;
  _ ← on_rt (vl_worker_destroy_owned_fibers 0);
  _ ← sched_destroy 0;
  _ ← on_rt vl_runtime_destroy_tasks;
  _ ← for_ps 0 n destroy_p;
  _ ← free_runtime;
  _ ← modify (set_lf_handle false);
  allocator_shutdown.
