(* ===== verification/LifecycleClean.v ===== *)
(** * Cleaning up a runtime

    [partial] describes what is held when [vl_runtime_cleanup_partial] is called, in every
    place it is called from; the clean-up then releases all of it, once. *)

From S2P Require Import Prelude Intrusive RunQueue TimerHeap RuntimeState Task Timer Worker Scheduler Lifecycle.
From stdpp Require Import options.

(** ** Runs *)

Lemma acquire_run x w : x ∉ lf_held w -> acquire x w = Some (tt, set_lf_held ({[x]} ∪ lf_held w) w).
Proof. intros H. unfold acquire. by rewrite decide_False. Qed.
Lemma release_held_run x w : x ∈ lf_held w -> release_held x w = Some (tt, set_lf_held (lf_held w ∖ {[x]}) w).
Proof. intros H. unfold release_held. by rewrite decide_True. Qed.
Lemma on_rt_run {A} (m : R A) w a r : m (lf_rt w) = Some (a, r) -> on_rt m w = Some (a, set_lf_rt r w).
Proof. intros H. unfold on_rt. by rewrite H. Qed.

Lemma for_ps_run (I : nat -> life -> Prop) body n : forall from w, I from w ->
  (forall p v, (from <= p < from + n)%nat -> I p v -> exists v', body p v = Some (tt, v') /\ I (S p) v') ->
  exists w', for_ps from n body w = Some (tt, w') /\ I (from + n)%nat w'.
Proof.
  induction n as [|n IH]; intros from w Hw Hb; cbn [for_ps].
  { exists w. by rewrite Nat.add_0_r. }
  destruct (Hb from w ltac:(lia) Hw) as (w1 & Hrun & Hw1). rewrite (bind_Some _ _ _ _ _ Hrun).
  destruct (IH (S from) w1 Hw1) as (w' & Hrun' & Hw'); [intros p v Hp; apply Hb; lia|].
  exists w'. by rewrite Nat.add_succ_r.
Qed.

(** ** The clean-up *)

Definition is_base (x : resource) : bool := match x with R_impl | R_mutex | R_condition | R_ps => true | _ => false end.

Record partial (n k : nat) (w : life) : Prop := {
  pa_bounds : (0 < n /\ k <= n)%nat;
  pa_ps : length (ps (lf_rt w)) = n;
  pa_base : forall x, is_base x = true -> x ∈ lf_held w;
  pa_slots : forall p, R_slots p ∈ lf_held w <-> (p < k)%nat;
  pa_queues : forall p x, ps (lf_rt w) !! p = Some x -> slots (runnable x) <> None <-> (p < k)%nat;
  pa_event_fds : forall p, R_event_fd p ∈ lf_held w <-> (p < k)%nat /\ 0 <= fd_of p w;
  pa_started : forall p x, ps (lf_rt w) !! p = Some x -> thread_started x = true <-> R_thread p ∈ lf_held w;
  pa_threads : forall p, R_thread p ∈ lf_held w -> (0 < p < k)%nat;
  pa_scheds : forall p, R_fiber_sched p ∈ lf_held w -> (p = 0 /\ 0 < k)%nat \/ (R_thread p ∈ lf_held w /\ p ∈ lf_begun w);
  pa_tasks : tasks (lf_rt w) = ∅ /\ all_tasks (lf_rt w) = None }.

(** What the clean-up leaves alone. *)
Definition outer (w : life) := (lf_handle w, lf_allocator w).

Lemma load_p_run p r x : ps r !! p = Some x -> load_p p r = Some (x, r).
Proof. intros H. unfold load_p, deref. by rewrite H. Qed.

Lemma destroy_fibers_none p r : tasks r = ∅ -> all_tasks r = None -> vl_worker_destroy_owned_fibers p r = Some (tt, r).
Proof. intros Ht Ha. unfold vl_worker_destroy_owned_fibers. rewrite bind_run. cbn [gets]. rewrite bind_run. cbn [gets]. by rewrite Ht, Ha. Qed.

Lemma sched_destroy_run p w : tasks (lf_rt w) = ∅ -> R_fiber_sched p ∈ lf_held w ->
  sched_destroy p w = Some (tt, set_lf_held (lf_held w ∖ {[R_fiber_sched p]}) w).
Proof.
  intros Ht Hin. unfold sched_destroy. rewrite bind_run. cbn [rt_get gets]. rewrite decide_True; [by apply release_held_run|].
  unfold owned_fibers. rewrite Ht. apply map_filter_empty.
Qed.

Lemma thread_begin_run env p w x : ps (lf_rt w) !! p = Some x -> R_fiber_sched p ∉ lf_held w ->
  exists r, thread_begin env p w = Some (tt, mk_life (lf_handle w) (lf_allocator w)
    (if en_sched env p then {[R_fiber_sched p]} ∪ lf_held w else lf_held w) (lf_fds w) ({[p]} ∪ lf_begun w) (lf_written w) r) /\
    r = set_workers_ready (w64 (workers_ready (lf_rt w) + 1))
          (set_ps (<[p := set_init_status (if en_sched env p then VL_OK else VL_ERROR_SYSTEM) x]> (ps (lf_rt w))) (lf_rt w)).
Proof.
  intros Hx Hn. eexists. split; [|reflexivity]. unfold thread_begin. rewrite bind_run. cbn [modify]. unfold sched_init. destruct (en_sched env p).
  - rewrite bind_run, bind_run, acquire_run by done. cbn [mret C_ret]. rewrite decide_True by done.
    erewrite bind_Some; [|apply on_rt_run, upd_p_run; exact Hx]. reflexivity.
  - rewrite bind_run. cbn [mret C_ret]. rewrite decide_False by done.
    erewrite bind_Some; [|apply on_rt_run, upd_p_run; exact Hx]. reflexivity.
Qed.

(** A P changes in fields the clean-up does not look at. *)
Lemma partial_frame n k w w' : partial n k w -> length (ps (lf_rt w')) = n -> (forall p, (p < k)%nat -> fd_of p w' = fd_of p w) ->
  (forall p x', ps (lf_rt w') !! p = Some x' -> exists x, ps (lf_rt w) !! p = Some x /\ runnable x' = runnable x /\
     (thread_started x' = true <-> R_thread p ∈ lf_held w')) ->
  (forall x, match x with R_thread _ | R_fiber_sched _ => True | _ => x ∈ lf_held w' <-> x ∈ lf_held w end) ->
  (forall p, R_thread p ∈ lf_held w' -> R_thread p ∈ lf_held w) ->
  (forall p, R_fiber_sched p ∈ lf_held w' -> (p = 0 /\ 0 < k)%nat \/ (R_thread p ∈ lf_held w' /\ p ∈ lf_begun w')) ->
  tasks (lf_rt w') = tasks (lf_rt w) -> all_tasks (lf_rt w') = all_tasks (lf_rt w) -> partial n k w'.
Proof.
  intros [A1 A2 A3 A4 A5 A6 A7 A8 A9 A10] Hlen Hfds Hps Hheld Hth Hsc Ht Ha. split; try done.
  - intros x Hx. specialize (Hheld x). destruct x; try done; by apply Hheld, A3.
  - intros p. rewrite (Hheld (R_slots p)). apply A4.
  - intros p x' Hx'. destruct (Hps p x' Hx') as (x & Hx & -> & _). by apply A5.
  - intros p. rewrite (Hheld (R_event_fd p)), A6. split; intros [Hp ?]; (split; [done|]); by rewrite ?Hfds in *.
  - intros p x' Hx'. by destruct (Hps p x' Hx') as (x & Hx & _ & H).
  - intros p Hp. by apply A8, Hth.
  - by rewrite Ht, Ha.
Qed.

Lemma insert_p (l : list vl_p) p x y q z : l !! p = Some x -> <[p := y]> l !! q = Some z -> (q = p /\ z = y) \/ (q <> p /\ l !! q = Some z).
Proof.
  intros Hx Hz. destruct (decide (q = p)) as [->|Hne].
  - rewrite list_lookup_insert_eq in Hz by (by eapply lookup_lt_Some). left. split; congruence.
  - rewrite list_lookup_insert_ne in Hz by done. by right.
Qed.

Lemma begin_ok env n k w p : partial n k w -> R_thread p ∈ lf_held w ->
  exists w', begin_if_new env p w = Some (tt, w') /\ partial n k w' /\ outer w' = outer w /\ stop_workers (lf_rt w') = stop_workers (lf_rt w) /\
    R_thread p ∈ lf_held w' /\ forall x, x ∈ lf_held w' -> x = R_fiber_sched p \/ x ∈ lf_held w.
Proof.
  intros Hp Hth. unfold begin_if_new. rewrite bind_run. cbn [gets]. case_decide as Hb; [by exists w; eauto 10|].
  pose proof (pa_threads _ _ _ Hp p Hth) as Hpk. pose proof (pa_bounds _ _ _ Hp) as Hkn.
  destruct (lookup_lt_is_Some_2 (ps (lf_rt w)) p) as [x Hx]; [rewrite (pa_ps _ _ _ Hp); lia|].
  assert (Hns : R_fiber_sched p ∉ lf_held w). { intros Hin. destruct (pa_scheds _ _ _ Hp p Hin) as [?|[_ ?]]; [lia|done]. }
  destruct (thread_begin_run env p w x Hx Hns) as (r & Hrun & ->). eexists. split; [exact Hrun|]. cbn. split_and!; try done.
  - eapply partial_frame; [exact Hp|..]; cbn; try done.
    + by rewrite length_insert, (pa_ps _ _ _ Hp).
    + intros q z Hz. assert (Heq : R_thread q ∈ (if en_sched env p then {[R_fiber_sched p]} ∪ lf_held w else lf_held w) <-> R_thread q ∈ lf_held w).
      { destruct (en_sched env p); set_solver. }
      apply (insert_p _ _ _ _ _ _ Hx) in Hz as [[-> ->]|[Hne Hz]]; eexists; (split; [done|]); (split; [done|]); rewrite Heq; first [exact (pa_started _ _ _ Hp _ _ Hx)|exact (pa_started _ _ _ Hp _ _ Hz)].
    + intros []; try done; destruct (en_sched env p); set_solver.
    + intros q. destruct (en_sched env p); set_solver.
    + intros q Hq. assert (Hq' : q = p \/ R_fiber_sched q ∈ lf_held w) by (destruct (en_sched env p); set_solver).
      destruct Hq' as [->|Hq']; [right; split; [destruct (en_sched env p); set_solver|set_solver]|].
      destruct (pa_scheds _ _ _ Hp q Hq') as [?|[? ?]]; [by left|]. right. split; [destruct (en_sched env p); set_solver|set_solver].
  - destruct (en_sched env p); set_solver.
  - intros y Hy. destruct (en_sched env p); set_solver.
Qed.

Lemma end_ok n k w p : partial n k w -> stop_workers (lf_rt w) = true ->
  exists w', thread_end p w = Some (tt, w') /\ partial n k w' /\ outer w' = outer w /\ lf_rt w' = lf_rt w /\
    lf_held w' = lf_held w ∖ {[R_fiber_sched p]}.
Proof.
  intros Hp Hs. destruct (pa_tasks _ _ _ Hp) as [Ht Ha]. unfold thread_end. rewrite bind_run. cbn [gets]. case_decide as Hin.
  { exists w. split_and!; try done. set_solver. }
  rewrite bind_run. cbn [rt_get gets]. rewrite Hs. cbn [negb].
  erewrite bind_Some; [|apply on_rt_run, destroy_fibers_none; done]. rewrite sched_destroy_run by done. eexists. split; [done|]. cbn. split_and!; try done.
  eapply partial_frame; [exact Hp|..]; cbn; try done; [by apply Hp| | | |].
  - intros q z Hz. exists z. split; [done|]. split; [done|]. rewrite (pa_started _ _ _ Hp q z Hz). set_solver.
  - intros []; try done; set_solver.
  - set_solver.
  - intros q Hq. destruct (pa_scheds _ _ _ Hp q) as [?|[? ?]]; [set_solver|by left|right; set_solver].
Qed.

(** The thread of P [p] has ended and was joined. *)
Lemma stop_worker_ok env n k w p : partial n k w -> stop_workers (lf_rt w) = true -> (p < n)%nat ->
  exists w', vl_worker_stop env p w = Some (tt, w') /\ partial n k w' /\ outer w' = outer w /\ stop_workers (lf_rt w') = true /\
    R_thread p ∉ lf_held w' /\ forall x, x ∈ lf_held w' -> x ∈ lf_held w.
Proof.
  intros Hp Hs Hpn. destruct (lookup_lt_is_Some_2 (ps (lf_rt w)) p) as [x Hx]; [by rewrite (pa_ps _ _ _ Hp)|].
  unfold vl_worker_stop. erewrite bind_Some; [|apply on_rt_run, load_p_run; exact Hx].
  assert (E0 : set_lf_rt (lf_rt w) w = w) by (by destruct w). rewrite E0. destruct (thread_started x) eqn:Est; cbn [negb].
  2: { exists w. split_and!; try done. rewrite <- (pa_started _ _ _ Hp p x Hx). by rewrite Est. }
  assert (Hth : R_thread p ∈ lf_held w) by (by apply (pa_started _ _ _ Hp p x Hx)).
  destruct (begin_ok env n k w p Hp Hth) as (w1 & Hr1 & Hp1 & Ho1 & Hs1 & Hth1 & Hsub1). rewrite (bind_Some _ _ _ _ _ Hr1).
  destruct (end_ok n k w1 p Hp1 ltac:(congruence)) as (w2 & Hr2 & Hp2 & Ho2 & Hrt2 & Hh2). rewrite (bind_Some _ _ _ _ _ Hr2).
  assert (Hth2 : R_thread p ∈ lf_held w2) by (rewrite Hh2; set_solver). erewrite bind_Some; [|by apply release_held_run].
  destruct (lookup_lt_is_Some_2 (ps (lf_rt w2)) p) as [x2 Hx2]; [by rewrite (pa_ps _ _ _ Hp2)|].
  eexists. split; [apply on_rt_run, upd_p_run; exact Hx2|]. cbn. split_and!.
  - eapply partial_frame; [exact Hp2|..]; cbn; try done.
    + by rewrite length_insert, (pa_ps _ _ _ Hp2).
    + intros q z Hz. apply (insert_p _ _ _ _ _ _ Hx2) in Hz as [[-> ->]|[Hne Hz]]; eexists; (split; [done|]); (split; [done|]); cbn.
      * split; [done|set_solver].
      * rewrite (pa_started _ _ _ Hp2 q z Hz). set_solver.
    + intros []; try done; set_solver.
    + set_solver.
    + intros q Hq. destruct (decide (q = p)) as [->|Hne]; [exfalso; rewrite Hh2 in Hq; set_solver|].
      destruct (pa_scheds _ _ _ Hp2 q) as [?|[? ?]]; [set_solver|by left|right]. split; [set_solver|done].
  - by rewrite <- Ho1, <- Ho2.
  - by rewrite Hrt2, Hs1.
  - set_solver.
  - intros y Hy. rewrite Hh2 in Hy. destruct (Hsub1 y) as [?|?]; set_solver.
Qed.

(** ** Destroying the P's and the runtime *)

(** The P's below [p] are gone, those from [p] to [k] are whole. *)
Record unbuilding (n k p : nat) (w : life) : Prop := {
  un_bounds : (0 < n /\ k <= n)%nat;
  un_ps : length (ps (lf_rt w)) = n;
  un_held : forall x, x ∈ lf_held w <-> match x with
    | R_slots q => (p <= q < k)%nat
    | R_event_fd q => (p <= q < k)%nat /\ 0 <= fd_of q w
    | R_fiber_sched _ | R_thread _ => False
    | _ => True
    end;
  un_queues : forall q x, (p <= q)%nat -> ps (lf_rt w) !! q = Some x -> slots (runnable x) <> None <-> (q < k)%nat }.

Lemma destroy_p_ok n k p w : unbuilding n k p w -> (p < k)%nat ->
  exists w', destroy_p p w = Some (tt, w') /\ unbuilding n k (S p) w' /\ outer w' = outer w /\ tasks (lf_rt w') = tasks (lf_rt w).
Proof.
  intros [B1 B2 B3 B4] Hpk. destruct (lookup_lt_is_Some_2 (ps (lf_rt w)) p) as [x Hx]; [rewrite B2; lia|].
  assert (Hsl : slots (runnable x) <> None) by (by apply (B4 p x)). unfold destroy_p. rewrite bind_run. cbn [gets].
  set (w1 := if 0 <=? fd_of p w then set_lf_held (lf_held w ∖ {[R_event_fd p]}) w else w).
  assert (Hr1 : (if 0 <=? fd_of p w then release_held (R_event_fd p) else mret tt) w = Some (tt, w1)).
  { unfold w1. destruct (Z.leb_spec 0 (fd_of p w)); [|done]. apply release_held_run, B3. lia. }
  assert (Hsame : lf_rt w1 = lf_rt w /\ lf_fds w1 = lf_fds w /\ outer w1 = outer w) by (unfold w1; by case_match).
  destruct Hsame as (Ert & Efd & Eo). rewrite (bind_Some _ _ _ _ _ Hr1). unfold run_queue_destroy. rewrite bind_run.
  rewrite <- Ert in Hx. erewrite bind_Some; [|apply on_rt_run, load_p_run; exact Hx]. rewrite decide_False by done.
  assert (Hin : R_slots p ∈ lf_held w1).
  { assert (R_slots p ∈ lf_held w) by (apply B3; lia). unfold w1. case_match; [set_solver|done]. }
  assert (E0 : set_lf_rt (lf_rt w1) w1 = w1) by (by destruct w1). rewrite E0. erewrite bind_Some; [|by apply release_held_run].
  unfold on_rt at 1, on_run_queue. cbn [lf_rt set_lf_held]. rewrite Hx. cbn [vl_run_queue_destroy modify]. unfold timer_heap_destroy.
  eexists. split; [apply on_rt_run, upd_p_run; cbn; rewrite list_lookup_insert_eq; [done|by eapply lookup_lt_Some]|]. cbn. rewrite list_insert_insert_eq, Ert.
  split; [|split; [exact Eo|done]]. split; cbn; [done|by rewrite length_insert| |].
  - intros y. assert (Hy : y ∈ lf_held w1 <-> y ∈ lf_held w /\ ~ (y = R_event_fd p /\ 0 <= fd_of p w)).
    { unfold w1. destruct (Z.leb_spec 0 (fd_of p w)); set_unfold; naive_solver lia. }
    rewrite elem_of_difference, elem_of_singleton, Hy, B3. unfold fd_of. cbn. rewrite Efd. clear -Hpk. destruct y as [| | | |q|q|q|q]; try naive_solver.
    + split; [|intros ?; split; [split|]; [lia| |intros [= ->]; lia]; intros [? _]; done]. intros [[? _] Hne]. destruct (decide (q = p)) as [->|]; [done|lia].
    + split; [|intros [? ?]; split; [split; [split; [lia|done]|]|done]; intros [[= ->] _]; lia]. intros [[[? ?] Hne] _]. split; [|done].
      destruct (decide (q = p)) as [->|]; [|lia]. exfalso. apply Hne. split; [done|]. done.
  - intros q y Hq Hy. rewrite list_lookup_insert_ne in Hy by lia. apply (B4 q y); [lia|done].
Qed.

Lemma free_runtime_ok n k w : unbuilding n k k w ->
  exists w', free_runtime w = Some (tt, w') /\ lf_held w' = ∅ /\ outer w' = outer w /\ lf_rt w' = lf_rt w.
Proof.
  intros [B1 B2 B3 B4]. unfold free_runtime. rewrite bind_run. cbn [rt_get gets]. unfold worker_count. rewrite B2, decide_False by lia.
  assert (Hin : forall x, is_base x = true -> x ∈ lf_held w) by (intros [] Hx; try done; by apply B3).
  erewrite bind_Some; [|apply release_held_run; by apply Hin]. erewrite bind_Some; [|apply release_held_run; specialize (Hin R_condition eq_refl); set_solver].
  erewrite bind_Some; [|apply release_held_run; specialize (Hin R_mutex eq_refl); set_solver].
  eexists. split; [apply release_held_run; specialize (Hin R_impl eq_refl); set_solver|]. cbn. split; [|by split].
  apply set_eq. intros x. rewrite !elem_of_difference, !elem_of_singleton, B3. destruct x; try (split; [|set_solver]; intros; exfalso); try tauto; lia.
Qed.

(** Without its threads and fiber schedulers, what [partial] describes is taken down. *)
Lemma partial_unbuild n k w : partial n k w -> (forall p, R_thread p ∉ lf_held w) -> (forall p, R_fiber_sched p ∉ lf_held w) -> unbuilding n k 0 w.
Proof.
  intros [A1 A2 A3 A4 A5 A6 A7 A8 A9 A10] Ht Hs. split; try done.
  - intros [| | | |q|q|q|q]; try (split; [done|]; intros _; by apply A3).
    + rewrite A4. lia.
    + rewrite A6. intuition lia.
    + split; [apply Hs|done].
    + split; [apply Ht|done].
  - intros q x _ Hx. by apply A5.
Qed.

Lemma unbuild_ok n k w : unbuilding n k 0 w -> exists w1 w2, for_ps 0 k destroy_p w = Some (tt, w1) /\ free_runtime w1 = Some (tt, w2) /\
  lf_held w2 = ∅ /\ outer w2 = outer w /\ tasks (lf_rt w2) = tasks (lf_rt w).
Proof.
  intros Hu. destruct (for_ps_run (fun p v => unbuilding n k p v /\ outer v = outer w /\ tasks (lf_rt v) = tasks (lf_rt w)) destroy_p k 0 w)
    as (w1 & Hr1 & Hu1 & Ho1 & Ht1); [done|..].
  { intros p v Hp (Hv & Hov & Htv). destruct (destroy_p_ok n k p v Hv ltac:(lia)) as (v' & Hr & Hv' & Hov' & Htv'). exists v'. split; [done|]. split; [done|]. split; congruence. }
  cbn in Hu1. destruct (free_runtime_ok n k w1 Hu1) as (w2 & Hr2 & Hh & Ho2 & Hrt). exists w1, w2. split_and!; congruence.
Qed.

Lemma wake_workers_ok n k w : partial n k w -> exists w', wake_workers w = Some (tt, w') /\ partial n k w' /\ outer w' = outer w /\
  stop_workers (lf_rt w') = stop_workers (lf_rt w).
Proof.
  intros Hp. eexists. split; [reflexivity|]. cbn. split_and!; try done. eapply partial_frame; [exact Hp|..]; cbn; try done.
  - rewrite length_fmap. apply Hp.
  - intros p z Hz. rewrite list_lookup_fmap in Hz. destruct (ps (lf_rt w) !! p) as [x|] eqn:Hx; [|done]. injection Hz as <-.
    exists x. split; [done|]. split; [done|]. cbn. by apply (pa_started _ _ _ Hp).
  - intros []; done.
  - apply Hp.
Qed.

Lemma cleanup_ok env n k w : partial n k w ->
  exists w', vl_runtime_cleanup_partial env k w = Some (tt, w') /\ lf_held w' = ∅ /\ outer w' = outer w.
Proof.
  intros Hp. unfold vl_runtime_cleanup_partial. rewrite bind_run. cbn [on_rt modify]. set (w0 := set_lf_rt _ w).
  assert (Hp0 : partial n k w0) by (destruct Hp; by split). destruct (wake_workers_ok n k w0 Hp0) as (w1 & Hr1 & Hp1 & Ho1 & Hs1). rewrite (bind_Some _ _ _ _ _ Hr1).
  destruct (for_ps_run (fun p v => partial n k v /\ outer v = outer w /\ stop_workers (lf_rt v) = true /\ forall q, (0 < q < p)%nat -> R_thread q ∉ lf_held v)
    (vl_worker_stop env) (k - 1) 1 w1) as (w2 & Hr2 & Hp2 & Ho2 & Hs2 & Ht2).
  { split_and!; try done. intros q Hq. lia. }
  { intros p v Hpk (Hpv & Hov & Hsv & Htv). destruct (pa_bounds _ _ _ Hpv). destruct (stop_worker_ok env n k v p Hpv Hsv ltac:(lia)) as (v' & Hr & Hpv' & Hov' & Hsv' & Hn & Hsub).
    exists v'. split; [done|]. split_and!; [done|congruence|done|]. intros q Hq Hin. destruct (decide (q = p)) as [->|]; [done|]. apply (Htv q); [lia|by apply Hsub]. }
  rewrite (bind_Some _ _ _ _ _ Hr2), bind_run. cbn [gets].
  assert (Hnt : forall q, R_thread q ∉ lf_held w2). { intros q Hq. pose proof (pa_threads _ _ _ Hp2 q Hq). by apply (Ht2 q); [lia|]. }
  assert (Hns : forall q, R_fiber_sched q ∈ lf_held w2 -> (q = 0 /\ 0 < k)%nat). { intros q Hq. destruct (pa_scheds _ _ _ Hp2 q Hq) as [?|[? _]]; [done|]. by destruct (Hnt q). }
  destruct (decide (R_fiber_sched 0 ∈ lf_held w2)) as [Hin|Hin].
  - destruct (Hns 0%nat Hin) as [_ Hk]. rewrite bool_decide_true, bool_decide_true by (done || lia). cbn [andb].
    erewrite bind_Some; [|apply sched_destroy_run; [apply Hp2|done]]. destruct (unbuild_ok n k (set_lf_held (lf_held w2 ∖ {[R_fiber_sched 0]}) w2)) as (w3 & w4 & Hr3 & Hr4 & Hh3 & Ho3 & _).
    { apply partial_unbuild; cbn; [|intros q; specialize (Hnt q); set_solver|intros q Hq; destruct (Hns q); set_solver].
      eapply partial_frame; [exact Hp2|..]; cbn; try done; [by apply Hp2| | | |].
      - intros q z Hz. exists z. split; [done|]. split; [done|]. rewrite (pa_started _ _ _ Hp2 q z Hz). set_solver.
      - intros []; try done; set_solver.
      - set_solver.
      - intros q Hq. left. apply Hns. set_solver. }
    exists w4. rewrite (bind_Some _ _ _ _ _ Hr3). split; [exact Hr4|]. split; [done|]. by rewrite Ho3.
  - rewrite (bool_decide_false _ Hin), andb_false_r. rewrite bind_run. cbn [mret C_ret].
    destruct (unbuild_ok n k w2) as (w3 & w4 & Hr3 & Hr4 & Hh3 & Ho3 & _). { apply partial_unbuild; [done|done|]. intros q Hq. destruct (Hns q Hq) as [-> _]. done. }
    exists w4. rewrite (bind_Some _ _ _ _ _ Hr3). split; [exact Hr4|]. split; [done|]. congruence.
Qed.
