(* ===== verification/LifecycleInit.v ===== *)
(** * Creating a runtime, one P at a time

    [building] is the invariant of the loop of [vl_runtime_init_with_config] over the P's
    and of the wait for their threads. *)

From S2P Require Import Prelude Intrusive RunQueue TimerHeap RuntimeState Task Timer Worker Scheduler Lifecycle LifecycleClean.
From stdpp Require Import options.

(** ** The loop over the P's *)

(** P [k] joins the P's that are cleaned up. *)
Lemma partial_extend n k w w' x' : partial n k w -> (k < n)%nat -> length (ps (lf_rt w')) = n ->
  (forall p, p <> k -> ps (lf_rt w') !! p = ps (lf_rt w) !! p) -> ps (lf_rt w') !! k = Some x' ->
  slots (runnable x') <> None -> (thread_started x' = true <-> R_thread k ∈ lf_held w') ->
  (forall p, p <> k -> fd_of p w' = fd_of p w) ->
  (forall x, x ∈ lf_held w' <-> x ∈ lf_held w \/ x = R_slots k \/ (x = R_event_fd k /\ 0 <= fd_of k w') \/
     (x = R_fiber_sched k /\ R_fiber_sched k ∈ lf_held w') \/ (x = R_thread k /\ R_thread k ∈ lf_held w')) ->
  (R_thread k ∈ lf_held w' -> (0 < k)%nat) ->
  (R_fiber_sched k ∈ lf_held w' -> k = 0%nat \/ (R_thread k ∈ lf_held w' /\ k ∈ lf_begun w')) -> lf_begun w ⊆ lf_begun w' ->
  tasks (lf_rt w') = tasks (lf_rt w) -> all_tasks (lf_rt w') = all_tasks (lf_rt w) -> partial n (S k) w'.
Proof.
  intros [A1 A2 A3 A4 A5 A6 A7 A8 A9 A10] Hk Hlen Hps Hx' Hsl Hst Hfd Hh Hth Hsc Hb Ht Ha. split; try done.
  - lia.
  - intros x Hx. rewrite Hh. left. by apply A3.
  - intros p. rewrite Hh, A4. split; [|intros ?; destruct (decide (p = k)) as [->|]; [auto|left; lia]].
    intros [?|[[= ->]|[[[=] _]|[[[=] _]|[[=] _]]]]]; lia.
  - intros p x Hx. destruct (decide (p = k)) as [->|Hne]; [split; [lia|]; congruence|]. rewrite Hps in Hx by done. rewrite (A5 p x Hx). lia.
  - intros p. rewrite Hh, A6. split.
    + intros [[? ?]|[[=]|[[[= ->] ?]|[[[=] _]|[[=] _]]]]]; [|split; [lia|done]]. split; [lia|]. by rewrite Hfd by lia.
    + intros [? ?]. destruct (decide (p = k)) as [->|Hne]; [by auto|]. left. split; [lia|]. by rewrite <- Hfd.
  - intros p x Hx. destruct (decide (p = k)) as [->|Hne]; [by simplify_eq|]. rewrite Hps in Hx by done. rewrite (A7 p x Hx), Hh. split; [by left|].
    intros [?|[[=]|[[[=] _]|[[[=] _]|[[= ->] _]]]]]; done.
  - intros p Hp. destruct (decide (p = k)) as [->|Hne]; [specialize (Hth Hp); lia|]. apply Hh in Hp as [Hp|[[=]|[[[=] _]|[[[=] _]|[[= ->] _]]]]]; [|done].
    specialize (A8 p Hp). lia.
  - intros p Hp. destruct (decide (p = k)) as [->|Hne]; [destruct (Hsc Hp) as [->|?]; [left; lia|by right]|].
    apply Hh in Hp as [Hp|[[=]|[[[=] _]|[[[= ->] _]|[[=] _]]]]]; [|done]. destruct (A9 p Hp) as [?|[? ?]]; [left; lia|]. right. split; [apply Hh; by left|set_solver].
  - by rewrite Ht, Ha.
Qed.

(** No thread but the early ones. *)
Definition never (p : nat) : bool := false.

(** P [p] when the threads of [late] and the early ones have begun. *)
Definition expected_p (env : init_env) (late : nat -> bool) (p : nat) : vl_p :=
  mk_p (fresh_queue VL_P_RUN_QUEUE_CAPACITY) 0 (0 <? p)%nat
    (if (p =? 0)%nat then VL_OK else if (late p || en_early env p) && en_sched env p then VL_OK else VL_ERROR_SYSTEM)
    false None (mk_p_stats 0 0 0 0 0 0) (mk_timer_heap [] false 0).

Record building (env : init_env) (n owner k : nat) (late : nat -> bool) (w : life) : Prop := {
  bu_partial : partial n k w;
  bu_max : (n <= 64)%nat;
  bu_fds : length (lf_fds w) = n;
  bu_threads : forall p, (0 < p < k)%nat -> R_thread p ∈ lf_held w;
  bu_begun : forall p, p ∈ lf_begun w <-> (0 < p < k)%nat /\ late p || en_early env p = true;
  bu_scheds : forall p, R_fiber_sched p ∈ lf_held w <-> (p < k)%nat /\ (p = 0%nat \/ p ∈ lf_begun w) /\ en_sched env p = true;
  bu_ps : forall p x, ps (lf_rt w) !! p = Some x -> x = if (p <? k)%nat then expected_p env late p else zero_p;
  bu_rest : set_ps [] (set_workers_ready 0 (lf_rt w)) = set_owner_thread owner zero_runtime;
  bu_ready : workers_ready (lf_rt w) = Z.of_nat (size (lf_begun w));
  bu_open : forall p, (p < k)%nat -> 0 <= fd_of p w;
  bu_first : (0 < k)%nat -> en_sched env 0 = true }.

(** The world when P [k] has come as far as [x']. *)
Definition grown (k : nat) (x' : vl_p) (fd : Z) (held' : gset resource) (begun' : gset nat) (ready' : Z) (w : life) : life :=
  mk_life (lf_handle w) (lf_allocator w) held' (<[k := fd]> (lf_fds w)) begun' (lf_written w)
    (set_workers_ready ready' (set_ps (<[k := x']> (ps (lf_rt w))) (lf_rt w))).

(** A P with its run queue, before it is started. *)
Definition queued_p : vl_p := set_runnable (fresh_queue VL_P_RUN_QUEUE_CAPACITY) (set_init_status VL_ERROR_SYSTEM zero_p).

Lemma grown_queue k w : ps (lf_rt w) !! k = Some zero_p ->
  on_rt (on_run_queue k (vl_run_queue_init true VL_P_RUN_QUEUE_CAPACITY))
    (set_lf_rt (set_ps (<[k := set_init_status VL_ERROR_SYSTEM zero_p]> (ps (lf_rt w))) (lf_rt w)) (set_lf_fds (<[k := -1]> (lf_fds w)) w)) =
  Some (VL_OK, grown k queued_p (-1) (lf_held w) (lf_begun w) (workers_ready (lf_rt w)) w).
Proof.
  intros Hk. unfold on_rt, on_run_queue. cbn [lf_rt set_lf_rt set_lf_fds ps set_ps]. rewrite list_lookup_insert_eq by (by eapply lookup_lt_Some).
  change (vl_run_queue_init true VL_P_RUN_QUEUE_CAPACITY (runnable (set_init_status VL_ERROR_SYSTEM zero_p))) with (Some (VL_OK, fresh_queue VL_P_RUN_QUEUE_CAPACITY)).
  cbv iota beta. rewrite list_insert_insert_eq. by destruct w as [? ? ? ? ? ? []].
Qed.

Lemma grown_set_fd k x fd fd' held' begun' ready' w : set_fd k fd' (grown k x fd held' begun' ready' w) = Some (tt, grown k x fd' held' begun' ready' w).
Proof. unfold set_fd, modify, grown. cbn. by rewrite list_insert_insert_eq. Qed.
Lemma grown_acquire k x fd held' begun' ready' y w : y ∉ held' ->
  acquire y (grown k x fd held' begun' ready' w) = Some (tt, grown k x fd ({[y]} ∪ held') begun' ready' w).
Proof. intros Hy. by rewrite acquire_run. Qed.
Lemma grown_lookup k x fd held' begun' ready' w : (k < length (ps (lf_rt w)))%nat -> ps (lf_rt (grown k x fd held' begun' ready' w)) !! k = Some x.
Proof. intros Hk. cbn. by rewrite list_lookup_insert_eq. Qed.
Lemma grown_p k x f fd held' begun' ready' w : (k < length (ps (lf_rt w)))%nat ->
  on_rt (upd_p k f) (grown k x fd held' begun' ready' w) = Some (tt, grown k (f x) fd held' begun' ready' w).
Proof.
  intros Hk. rewrite (on_rt_run _ _ _ _ (upd_p_run k f _ x (grown_lookup k x fd held' begun' ready' w Hk))).
  unfold grown. cbn. by rewrite list_insert_insert_eq.
Qed.
Lemma grown_load k x fd held' begun' ready' w : (k < length (ps (lf_rt w)))%nat ->
  on_rt (load_p k) (grown k x fd held' begun' ready' w) = Some (x, grown k x fd held' begun' ready' w).
Proof. intros Hk. by rewrite (on_rt_run _ _ _ _ (load_p_run k _ x (grown_lookup k x fd held' begun' ready' w Hk))). Qed.

(** A round up to the start of the P. *)
Lemma init_p_run env k w : ps (lf_rt w) !! k = Some zero_p -> R_slots k ∉ lf_held w -> R_event_fd k ∉ lf_held w ->
  let held' := {[R_slots k]} ∪ lf_held w in
  let at_start held' := grown k queued_p (en_event_fd env k) held' (lf_begun w) (workers_ready (lf_rt w)) w in
  init_p env k w =
    if en_slots env k then
      if en_event_fd env k <? 0 then Some (Some (VL_ERROR_SYSTEM, S k), at_start held')
      else start_p env k (at_start ({[R_event_fd k]} ∪ held'))
    else Some (Some (VL_ERROR_OUT_OF_MEMORY, k),
      set_lf_rt (set_ps (<[k := set_init_status VL_ERROR_SYSTEM zero_p]> (ps (lf_rt w))) (lf_rt w)) (set_lf_fds (<[k := -1]> (lf_fds w)) w)).
Proof.
  intros Hk Hs He held' at_start. pose proof (lookup_lt_Some _ _ _ Hk) as Hlt. unfold init_p. rewrite bind_run. cbn [set_fd modify].
  erewrite bind_Some; [|apply on_rt_run, upd_p_run; exact Hk]. set (w1 := set_lf_rt _ _).
  assert (Hk1 : ps (lf_rt w1) !! k = Some (set_init_status VL_ERROR_SYSTEM zero_p)) by (cbn; by rewrite list_lookup_insert_eq).
  unfold timer_heap_init. rewrite bind_run, (bind_Some _ _ _ _ _ (on_rt_run _ _ _ _ (load_p_run k _ _ Hk1))). cbn [mret C_ret].
  assert (E : set_lf_rt (lf_rt w1) w1 = w1) by done. rewrite E. rewrite decide_False by (intros Hn; by apply Hn). destruct (en_slots env k).
  - rewrite (bind_Some _ _ _ _ _ (grown_queue k w Hk)). rewrite decide_False by (intros Hn; by apply Hn).
    rewrite (bind_Some _ _ _ _ _ (grown_acquire k _ _ _ _ _ _ w Hs)), (bind_Some _ _ _ _ _ (grown_set_fd k _ _ _ _ _ _ w)). fold held'.
    destruct (en_event_fd env k <? 0); [done|]. assert (He' : R_event_fd k ∉ held') by (unfold held'; set_solver).
    by rewrite (bind_Some _ _ _ _ _ (grown_acquire k _ _ _ _ _ (R_event_fd k) w He')).
  - assert (Hr : on_rt (on_run_queue k (vl_run_queue_init false VL_P_RUN_QUEUE_CAPACITY)) w1 = Some (VL_ERROR_OUT_OF_MEMORY, w1)).
    { unfold on_rt, on_run_queue. rewrite Hk1.
      change (vl_run_queue_init false VL_P_RUN_QUEUE_CAPACITY (runnable (set_init_status VL_ERROR_SYSTEM zero_p))) with
        (Some (VL_ERROR_OUT_OF_MEMORY, runnable zero_p)). cbv iota beta.
      assert (<[k := set_runnable (runnable zero_p) (set_init_status VL_ERROR_SYSTEM zero_p)]> (ps (lf_rt w1)) = ps (lf_rt w1)) as ->; [|done].
      by apply list_insert_id. }
    rewrite (bind_Some _ _ _ _ _ Hr). by rewrite decide_True.
Qed.

(** The start of the P. *)
Lemma start_p_run env k fd held' w : (k < length (ps (lf_rt w)))%nat -> R_fiber_sched k ∉ held' -> R_thread k ∉ held' ->
  let ready := workers_ready (lf_rt w) in
  let start x held'' begun' ready' := grown k x fd held'' begun' ready' w in
  start_p env k (start queued_p held' (lf_begun w) ready) =
    if decide (k = 0%nat) then
      if en_sched env k then Some (None, start (expected_p env never k) ({[R_fiber_sched k]} ∪ held') (lf_begun w) ready)
      else Some (Some (VL_ERROR_SYSTEM, S k), start queued_p held' (lf_begun w) ready)
    else if en_thread env k then
      Some (None, if en_early env k
                  then start (expected_p env never k) (if en_sched env k then {[R_fiber_sched k]} ∪ ({[R_thread k]} ∪ held') else {[R_thread k]} ∪ held')
                         ({[k]} ∪ lf_begun w) (w64 (ready + 1))
                  else start (expected_p env never k) ({[R_thread k]} ∪ held') (lf_begun w) ready)
    else Some (Some (VL_ERROR_SYSTEM, S k), start queued_p held' (lf_begun w) ready).
Proof.
  intros Hlt Hs Ht ready start. unfold start_p. destruct (decide (k = 0%nat)) as [->|Hne].
  { unfold sched_init. destruct (en_sched env 0); [|done]. unfold start. rewrite bind_run, (bind_Some _ _ _ _ _ (grown_acquire _ _ _ _ _ _ _ w Hs)).
    cbn [mret C_ret]. rewrite decide_False by (intros Hn; by apply Hn). by rewrite (bind_Some _ _ _ _ _ (grown_p _ _ _ _ _ _ _ w Hlt)). }
  unfold vl_worker_start. unfold start at 1. rewrite bind_run, (bind_Some _ _ _ _ _ (grown_load _ _ _ _ _ _ w Hlt)). cbn [thread_started queued_p set_runnable set_init_status zero_p].
  destruct (en_thread env k); cbn [negb]; [|done]. rewrite (bind_Some _ _ _ _ _ (grown_acquire _ _ _ _ _ _ _ w Ht)). unfold start. destruct (en_early env k) eqn:Ee.
  - assert (Hs' : R_fiber_sched k ∉ {[R_thread k]} ∪ held') by set_solver.
    destruct (thread_begin_run env k _ _ (grown_lookup k queued_p fd ({[R_thread k]} ∪ held') (lf_begun w) ready w Hlt) Hs') as (r & Hr & ->).
    rewrite (bind_Some _ _ _ _ _ Hr). cbn [lf_handle lf_allocator lf_held lf_fds lf_begun lf_written lf_rt grown ps set_ps workers_ready set_workers_ready].
    rewrite list_insert_insert_eq. set (x1 := set_init_status _ _).
    assert (Hx : expected_p env never k = set_thread_started true x1).
    { unfold expected_p, x1. rewrite Ee. destruct (Nat.eqb_spec k 0), (Nat.ltb_spec 0 k); try lia. cbn. by destruct (en_sched env k). }
    rewrite Hx. set (held'' := if en_sched env k then _ else _).
    change (mk_life _ _ held'' _ _ _ _) with (grown k x1 fd held'' ({[k]} ∪ lf_begun w) (w64 (ready + 1)) w).
    by rewrite (bind_Some _ _ _ _ _ (grown_p _ _ _ _ _ _ _ w Hlt)).
  - rewrite bind_run. cbn [mret C_ret]. rewrite (bind_Some _ _ _ _ _ (grown_p _ _ _ _ _ _ _ w Hlt)). cbn [mret C_ret].
    assert (Hx : expected_p env never k = set_thread_started true queued_p); [|by rewrite Hx].
    unfold expected_p. rewrite Ee. by destruct (Nat.eqb_spec k 0), (Nat.ltb_spec 0 k); try lia.
Qed.

Lemma building_fresh env n owner k late w : building env n owner k late w ->
  R_slots k ∉ lf_held w /\ R_event_fd k ∉ lf_held w /\ R_fiber_sched k ∉ lf_held w /\ R_thread k ∉ lf_held w.
Proof.
  intros Hb. destruct (bu_partial _ _ _ _ _ _ Hb) as [A1 A2 A3 A4 A5 A6 A7 A8 A9 A10]. split_and!; intros Hin.
  - apply A4 in Hin. lia.
  - apply A6 in Hin. lia.
  - apply (bu_scheds _ _ _ _ _ _ Hb) in Hin. lia.
  - apply A8 in Hin. lia.
Qed.

(** What a round may add to the resources. *)
Definition adds (k : nat) (fd : Z) (held held' : gset resource) : Prop := forall x, x ∈ held' <->
  x ∈ held \/ x = R_slots k \/ (x = R_event_fd k /\ 0 <= fd) \/
  (x = R_fiber_sched k /\ R_fiber_sched k ∈ held') \/ (x = R_thread k /\ R_thread k ∈ held').

Lemma fd_of_insert k fd l p w : lf_fds w = l -> (k < length l)%nat -> fd_of p (set_lf_fds (<[k := fd]> l) w) = if decide (p = k) then fd else fd_of p w.
Proof.
  intros <- Hk. unfold fd_of. cbn. case_decide as E; [subst p; by rewrite list_lookup_insert_eq|by rewrite list_lookup_insert_ne].
Qed.

Lemma grown_partial env n owner k w x' fd held' begun' ready' : building env n owner k never w -> (k < n)%nat ->
  slots (runnable x') <> None -> (thread_started x' = true <-> R_thread k ∈ held') -> adds k fd (lf_held w) held' ->
  (R_thread k ∈ held' -> (0 < k)%nat) -> (R_fiber_sched k ∈ held' -> k = 0%nat \/ (R_thread k ∈ held' /\ k ∈ begun')) -> lf_begun w ⊆ begun' ->
  partial n (S k) (grown k x' fd held' begun' ready' w).
Proof.
  intros Hb Hk Hsl Hst Hadd Hth Hsc Hbg. pose proof (bu_partial _ _ _ _ _ _ Hb) as Hp. pose proof (pa_ps _ _ _ Hp) as Hlen. pose proof (bu_fds _ _ _ _ _ _ Hb) as Hf.
  assert (Hfd : forall p, fd_of p (grown k x' fd held' begun' ready' w) = if decide (p = k) then fd else fd_of p w).
  { intros p. rewrite <- (fd_of_insert k fd (lf_fds w) p w eq_refl) by lia. done. }
  apply (partial_extend n k w _ x' Hp); cbn; try done.
  - by rewrite length_insert.
  - intros p Hne. by rewrite list_lookup_insert_ne.
  - by rewrite list_lookup_insert_eq by lia.
  - intros p Hne. rewrite Hfd. by rewrite decide_False.
  - rewrite Hfd, decide_True by done. exact Hadd.
Qed.

Lemma grown_building env n owner k w fd held' begun' ready' : building env n owner k never w -> (k < n)%nat -> 0 <= fd -> adds k fd (lf_held w) held' ->
  (R_thread k ∈ held' <-> (0 < k)%nat) -> (forall p, p ∈ begun' <-> p ∈ lf_begun w \/ (p = k /\ (0 < k)%nat /\ en_early env k = true)) ->
  (R_fiber_sched k ∈ held' <-> (k = 0%nat \/ k ∈ begun') /\ en_sched env k = true) -> ready' = Z.of_nat (size begun') ->
  (k = 0%nat -> en_sched env 0 = true) -> building env n owner (S k) never (grown k (expected_p env never k) fd held' begun' ready' w).
Proof.
  intros Hb Hk Hfd Hadd Hth Hbg Hsc Hr H0. pose proof (bu_partial _ _ _ _ _ _ Hb) as Hp. pose proof (building_fresh _ _ _ _ _ _ Hb) as (F1 & F2 & F3 & F4).
  assert (Hst : thread_started (expected_p env never k) = true <-> R_thread k ∈ held'). { change (thread_started (expected_p env never k)) with (0 <? k)%nat. by rewrite Hth, Nat.ltb_lt. }
  pose proof Hb as [_ B2 B3 B4 B5 B6 B7 B8 B9 B10 B11]. split; cbn; try done.
  - eapply grown_partial; [exact Hb|done|done|exact Hst|done|by rewrite Hth| |intros p Hp'; apply Hbg; by left].
    intros Hin. apply Hsc in Hin as [[->|Hin] _]; [by left|]. right. split; [|done]. apply Hth. apply Hbg in Hin as [Hin|Hin]; [|tauto]. apply B5 in Hin. lia.
  - by rewrite length_insert.
  - intros p Hpk. apply Hadd. destruct (decide (p = k)) as [->|]; [right; right; right; right; split; [done|apply Hth; lia]|]. left. apply B4. lia.
  - intros p. rewrite Hbg, B5. cbn. split; [intros [[? ?]|(-> & ? & ?)]; (split; [lia|done])|]. intros [Hpk He]. destruct (decide (p = k)) as [->|]; [right; split_and!; [done|lia|done]|].
    left. split; [lia|done].
  - intros p. rewrite (Hadd (R_fiber_sched p)). destruct (decide (p = k)) as [->|Hne].
    + split; [|intros (_ & H1 & H2); right; right; right; left; split; [done|]; by apply Hsc].
      intros [?|[[=]|[[[=] _]|[[_ Hin]|[[=] _]]]]]; [done|]. apply Hsc in Hin. split; [lia|done].
    + rewrite B6. assert (Hpb : p ∈ begun' <-> p ∈ lf_begun w) by (rewrite Hbg; naive_solver). rewrite Hpb. split.
      * intros [(? & ? & ?)|[[=]|[[[=] _]|[[[= ->] _]|[[=] _]]]]]; [|done]. split; [lia|done].
      * intros (? & ? & ?). left. split; [lia|done].
  - intros p x Hx. destruct (decide (p = k)) as [->|Hne].
    + rewrite list_lookup_insert_eq in Hx by (rewrite (pa_ps _ _ _ Hp); lia). injection Hx as <-. destruct (Nat.leb_spec k k); [done|lia].
    + rewrite list_lookup_insert_ne in Hx by done. rewrite (B7 p x Hx). destruct (Nat.ltb_spec p k), (Nat.leb_spec p k); try done; lia.
  - intros p Hpk. unfold fd_of. cbn. destruct (decide (p = k)) as [->|Hne]; [by rewrite list_lookup_insert_eq by lia|].
    rewrite list_lookup_insert_ne by done. apply B10. lia.
  - intros _. destruct (decide (k = 0%nat)); [by apply H0|]. apply B11. lia.
Qed.

Definition init_outcome env n owner (w : life) (r : option (vl_status * nat)) (k' : nat) (w' : life) : Prop :=
  outer w' = outer w /\ match r with Some (status, j) => status <> VL_OK /\ partial n j w' | None => building env n owner k' never w' end.

Lemma adds_slots k fd held : fd < 0 -> adds k fd held ({[R_slots k]} ∪ held).
Proof.
  intros Hfd x. rewrite elem_of_union, elem_of_singleton. split; [tauto|]. intros [?|[?|[[_ ?]|[[-> H]|[-> H]]]]]; [tauto|tauto|lia|..];
    by apply elem_of_union in H as [H%elem_of_singleton|H]; [|right].
Qed.

Lemma adds_event_fd k fd held : 0 <= fd -> adds k fd held ({[R_event_fd k]} ∪ ({[R_slots k]} ∪ held)).
Proof.
  intros Hfd x. rewrite !elem_of_union, !elem_of_singleton. split; [tauto|].
  intros [?|[?|[?|[[-> H]|[-> H]]]]]; [tauto|tauto|tauto|..]; naive_solver.
Qed.

Lemma adds_more k fd held held' y : adds k fd held held' -> y = R_fiber_sched k \/ y = R_thread k -> adds k fd held ({[y]} ∪ held').
Proof.
  intros Ha Hy x. rewrite !elem_of_union, !elem_of_singleton. pose proof (Ha x) as Hx. split.
  - intros [->|Hin]; [destruct Hy as [->| ->]; tauto|]. apply Hx in Hin. tauto.
  - intros [?|[?|[?|[[-> H]|[-> H]]]]]; tauto.
Qed.

Lemma size_begun env n owner k late w : building env n owner k late w -> (size (lf_begun w) <= n)%nat.
Proof.
  intros Hb. pose proof (pa_bounds _ _ _ (bu_partial _ _ _ _ _ _ Hb)) as Hk.
  assert (Hsub : lf_begun w ⊆ list_to_set (seq 0 n)).
  { intros p Hp. apply elem_of_list_to_set, elem_of_seq. apply (bu_begun _ _ _ _ _ _ Hb) in Hp. lia. }
  apply subseteq_size in Hsub. rewrite size_list_to_set in Hsub by apply NoDup_seq. by rewrite length_seq in Hsub.
Qed.

Lemma ready_next env n owner k late w p : building env n owner k late w -> p ∉ lf_begun w ->
  w64 (workers_ready (lf_rt w) + 1) = Z.of_nat (size ({[p]} ∪ lf_begun w)).
Proof.
  intros Hb Hp. pose proof (size_begun _ _ _ _ _ _ Hb). pose proof (bu_max _ _ _ _ _ _ Hb). rewrite (bu_ready _ _ _ _ _ _ Hb), size_union, size_singleton by set_solver.
  rewrite w64_small by (unfold word, W64; lia). lia.
Qed.

Lemma init_p_ok env n owner k w : building env n owner k never w -> (k < n)%nat ->
  exists r w', init_p env k w = Some (r, w') /\ init_outcome env n owner w r (S k) w'.
Proof.
  intros Hb Hk. pose proof (bu_partial _ _ _ _ _ _ Hb) as Hp. pose proof (pa_ps _ _ _ Hp) as Hlen. destruct (building_fresh _ _ _ _ _ _ Hb) as (F1 & F2 & F3 & F4).
  assert (Hz : ps (lf_rt w) !! k = Some zero_p).
  { destruct (lookup_lt_is_Some_2 (ps (lf_rt w)) k) as [x Hx]; [lia|]. rewrite Hx, (bu_ps _ _ _ _ _ _ Hb k x Hx). by destruct (Nat.ltb_spec k k); [lia|]. }
  rewrite (init_p_run env k w Hz F1 F2). destruct (en_slots env k).
  2: { eexists _, _. split; [done|]. split; [done|]. split; [done|]. eapply partial_frame; [exact Hp|..]; cbn; try done.
       - by rewrite length_insert.
       - intros p Hpk. unfold fd_of. cbn. by rewrite list_lookup_insert_ne by lia.
       - intros q z Hq. apply (insert_p _ _ _ _ _ _ Hz) in Hq as [[-> ->]|[Hne Hq]]; eexists; (split; [done|]); (split; [done|]).
         + exact (pa_started _ _ _ Hp _ _ Hz).
         + exact (pa_started _ _ _ Hp _ _ Hq).
       - by intros [].
       - apply Hp. }
  destruct (Z.ltb_spec (en_event_fd env k) 0) as [Hfd|Hfd].
  { eexists _, _. split; [done|]. split; [done|]. split; [done|]. eapply grown_partial; [exact Hb|done|done|..]; [cbn; set_solver|by apply adds_slots|set_solver..]. }
  assert (Hns : R_fiber_sched k ∉ {[R_event_fd k]} ∪ ({[R_slots k]} ∪ lf_held w)) by set_solver.
  assert (Hnt : R_thread k ∉ {[R_event_fd k]} ∪ ({[R_slots k]} ∪ lf_held w)) by set_solver.
  pose proof (adds_event_fd k _ (lf_held w) Hfd) as Hadds.
  assert (Hfail : forall st : vl_status, st <> VL_OK -> init_outcome env n owner w (Some (st, S k)) (S k)
    (grown k queued_p (en_event_fd env k) ({[R_event_fd k]} ∪ ({[R_slots k]} ∪ lf_held w)) (lf_begun w) (workers_ready (lf_rt w)) w)).
  { intros st Hst. split; [done|]. split; [done|]. eapply grown_partial; [exact Hb|done|done|..]; [cbn; set_solver|exact Hadds|set_solver..]. }
  assert (Hkl : (k < length (ps (lf_rt w)))%nat) by lia. rewrite (start_p_run env k _ _ w Hkl Hns Hnt).
  assert (Hnb : k ∉ lf_begun w) by (rewrite (bu_begun _ _ _ _ _ _ Hb); lia).
  case_decide as Ek; [subst k; destruct (en_sched env 0) eqn:Es|destruct (en_thread env k); [destruct (en_early env k) eqn:Ee|]].
  - eexists _, _. split; [done|]. split; [done|]. eapply grown_building; [exact Hb|done|done|by apply adds_more; [|left]|split; [set_solver|lia]| |set_solver|apply Hb|done].
    intros p. split; [by left|]. intros [?|?]; [done|lia].
  - eexists _, _. split; [done|]. by apply Hfail.
  - eexists _, _. split; [done|]. split; [done|]. eapply grown_building; [exact Hb|done|done|destruct (en_sched env k); repeat (apply adds_more; [|tauto]); exact Hadds| | | |by eapply ready_next|lia].
    + split; [lia|]. intros _. case_match; set_solver.
    + intros p. rewrite elem_of_union, elem_of_singleton. split; [intros [->|?]; [right; split_and!; [done|lia|done]|by left]|]. intros [?|(-> & _)]; [by right|by left].
    + destruct (en_sched env k); set_solver.
  - eexists _, _. split; [done|]. split; [done|]. eapply grown_building; [exact Hb|done|done|by apply adds_more; [|right]|split; [lia|set_solver]| | |apply Hb|lia].
    + intros p. split; [by left|]. intros [?|(_ & _ & [=])]; [done|congruence].
    + set_solver.
  - eexists _, _. split; [done|]. by apply Hfail.
Qed.

Lemma init_ps_ok env n owner m : forall k w, building env n owner k never w -> (k + m = n)%nat ->
  exists r w', init_ps env k m w = Some (r, w') /\ init_outcome env n owner w r n w'.
Proof.
  induction m as [|m IH]; intros k w Hb Hk; cbn [init_ps].
  { eexists None, w. split; [done|]. split; [done|]. assert (k = n) as -> by lia. done. }
  destruct (init_p_ok env n owner k w Hb ltac:(lia)) as (r & w1 & Hr & Ho & Hout). rewrite (bind_Some _ _ _ _ _ Hr).
  destruct r as [[st j]|]; [by eexists _, _|]. destruct (IH (S k) w1 Hout ltac:(lia)) as (r & w' & Hr' & Ho' & Hout').
  exists r, w'. split; [done|]. split; [congruence|done].
Qed.

(** ** Waiting for the threads *)

Lemma building_late env n owner k late late' w : building env n owner k late w ->
  (forall p, (0 < p < k)%nat -> late p || en_early env p = late' p || en_early env p) -> building env n owner k late' w.
Proof.
  intros [B1 B2 B3 B4 B5 B6 B7 B8 B9 B10 B11] Hl. split; try done.
  - intros p. rewrite B5. split; intros [Hp E]; (split; [done|]); specialize (Hl p Hp); congruence.
  - intros p x Hx. rewrite (B7 p x Hx). destruct (Nat.ltb_spec p k); [|done]. unfold expected_p. destruct (Nat.eqb_spec p 0); [done|]. by rewrite (Hl p) by lia.
Qed.

Lemma begin_building env n owner j w : building env n owner n (fun p => p <? j)%nat w -> (0 < j < n)%nat ->
  exists w', begin_if_new env j w = Some (tt, w') /\ building env n owner n (fun p => p <? S j)%nat w' /\ outer w' = outer w.
Proof.
  intros Hb Hj. pose proof Hb as [B1 B2 B3 B4 B5 B6 B7 B8 B9 B10 B11]. unfold begin_if_new. rewrite bind_run. cbn [gets].
  assert (Hother : forall p, p <> j -> (p <? j)%nat = (p <? S j)%nat) by (intros p Hne; destruct (Nat.ltb_spec p j), (Nat.ltb_spec p (S j)); lia).
  assert (Hjj : (j <? j)%nat = false /\ (j <? S j)%nat = true) by (split; [apply Nat.ltb_irrefl|apply Nat.ltb_lt; lia]). destruct Hjj as [Hj1 Hj2].
  case_decide as Hin.
  { exists w. split; [done|]. split; [|done]. eapply building_late; [exact Hb|]. cbv beta. intros p _. destruct (decide (p = j)) as [->|Hne]; [|by rewrite Hother].
    apply B5 in Hin as [_ E]. cbv beta in E. rewrite Hj1 in E. cbn [orb] in E. by rewrite E, !orb_true_r. }
  destruct (lookup_lt_is_Some_2 (ps (lf_rt w)) j) as [x Hx]; [rewrite (pa_ps _ _ _ B1); lia|].
  assert (Hns : R_fiber_sched j ∉ lf_held w). { rewrite B6. intros (_ & [?|?] & _); [lia|done]. }
  assert (Hne : en_early env j = false). { destruct (en_early env j) eqn:E; [|done]. exfalso. apply Hin, B5. split; [lia|]. by rewrite E, orb_true_r. }
  destruct (begin_ok env n n w j B1 (B4 j Hj)) as (w1 & Hr1 & Hp1 & Ho1 & _). unfold begin_if_new in Hr1. rewrite bind_run in Hr1. cbn [gets] in Hr1.
  rewrite decide_False in Hr1 by done. exists w1. split; [done|]. split; [|done].
  destruct (thread_begin_run env j w x Hx Hns) as (r & Hr & ->). rewrite Hr in Hr1. injection Hr1 as <-. split; cbn [lf_handle lf_allocator lf_held lf_fds lf_begun lf_written lf_rt ps set_ps workers_ready set_workers_ready]; try done.
  - intros p Hp. specialize (B4 p Hp). case_match; set_solver.
  - intros p. rewrite elem_of_union, elem_of_singleton, B5. cbv beta. destruct (decide (p = j)) as [->|Hnp]; [|rewrite <- Hother by done; naive_solver].
    rewrite Hj2. split; [by split; [lia|]|by left].
  - intros p. destruct (decide (p = j)) as [->|Hnp]; [|].
    { destruct (en_sched env j) eqn:E; split.
      - intros _. split; [lia|]. split; [right; set_solver|done].
      - set_solver.
      - intros ?. done.
      - by intros (_ & _ & ?). }
    assert (Heq : R_fiber_sched p ∈ (if en_sched env j then {[R_fiber_sched j]} ∪ lf_held w else lf_held w) <-> R_fiber_sched p ∈ lf_held w) by (case_match; set_solver).
    rewrite Heq, B6. set_solver.
  - intros p z Hz. apply (insert_p _ _ _ _ _ _ Hx) in Hz as [[-> ->]|[Hnp Hz]].
    + rewrite (B7 j x Hx). destruct (Nat.ltb_spec j n); [|lia]. unfold expected_p. cbv beta. rewrite Hj2. destruct (Nat.eqb_spec j 0); [lia|]. cbn [orb]. by destruct (en_sched env j).
    + rewrite (B7 p z Hz). destruct (Nat.ltb_spec p n); [|done]. unfold expected_p. cbv beta. by rewrite (Hother p Hnp).
  - by eapply ready_next.
Qed.
