(* ===== verification/LifecycleTasks.v ===== *)
(** * The list of all tasks

    [tidy] is what the destruction of a runtime relies on, in every state the scheduler
    reaches: the list through [all_next] visits every task once, a fiber belongs to a P of
    the runtime, and no step of the scheduler starts or stops a thread. *)

From S2P Require Import Prelude Intrusive RunQueue TimerHeap RuntimeState Task Timer Worker Scheduler.
From stdpp Require Import options.

Record tidy (n : nat) (r : vl_runtime_impl) : Prop := {
  td_length : length (ps r) = n;
  td_started : forall p x, ps r !! p = Some x -> thread_started x = (0 <? p)%nat;
  td_all : exists l, chain all_link (tasks r) (all_tasks r) l /\ NoDup l /\ forall i, i ∈ l <-> is_Some (tasks r !! i);
  td_fiber : forall i t p, tasks r !! i = Some t -> fiber t = Some p -> (p < n)%nat }.

Definition tidies {A} (n : nat) (m : R A) : Prop := forall r a r', tidy n r -> m r = Some (a, r') -> tidy n r'.

Create HintDb tidies.

(** ** Changes of the tasks and of the P's *)

Definition same_links (m m' : gmap nat vl_task) : Prop := forall i,
  match m !! i, m' !! i with
  | Some t, Some t' => all_next t' = all_next t /\ (fiber t' = None \/ fiber t' = fiber t)
  | None, None => True
  | _, _ => False
  end.

Lemma tidy_tasks n r m' : tidy n r -> same_links (tasks r) m' -> tidy n (set_tasks m' r).
Proof.
  intros [T1 T2 (l & Hc & Hnd & Hl) T4] Hs. split; try done; cbn.
  - exists l. split; [|split; [done|]].
    + eapply chain_frame; [exact Hc|]. intros i t _ Ht. specialize (Hs i). rewrite Ht in Hs. destruct (m' !! i) as [t'|]; [|done]. exists t'. by destruct Hs.
    + intros i. rewrite Hl. specialize (Hs i). destruct (tasks r !! i), (m' !! i); try done; split; by eauto.
  - intros i t' p Ht' Hf. specialize (Hs i). rewrite Ht' in Hs. destruct (tasks r !! i) as [t|] eqn:Ht; [|done]. destruct Hs as [_ [E|E]]; [congruence|].
    apply (T4 i t p Ht). congruence.
Qed.

Lemma same_links_insert m i t t' : m !! i = Some t -> all_next t' = all_next t -> fiber t' = None \/ fiber t' = fiber t -> same_links m (<[i := t']> m).
Proof.
  intros Ht E1 E2 j. rewrite lookup_insert. case_decide as E; [subst j; by rewrite Ht|]. destruct (m !! j); by auto.
Qed.

Lemma same_links_upto m m' : upto queue_link m m' -> same_links m m'.
Proof.
  intros Hu i. destruct (m !! i) as [t|] eqn:Ht.
  - destruct (upto_lookup _ _ _ _ _ Hu Ht) as [v ->]. by split; [|right].
  - by rewrite (proj1 (upto_None _ _ _ i Hu) Ht).
Qed.

Lemma tidy_ps n r l : tidy n r -> (thread_started <$> l) = (thread_started <$> ps r) -> tidy n (set_ps l r).
Proof.
  intros [T1 T2 T3 T4] E. split; try done; cbn.
  - apply (f_equal length) in E. rewrite !length_fmap in E. congruence.
  - intros p x Hx. apply (f_equal (lookup p)) in E. rewrite !list_lookup_fmap, Hx in E. destruct (ps r !! p) as [y|] eqn:Hy; [|done]. injection E as ->. by apply T2.
Qed.

Lemma started_insert (l : list vl_p) p x y : l !! p = Some x -> thread_started y = thread_started x -> thread_started <$> <[p := y]> l = thread_started <$> l.
Proof. intros Hx E. rewrite list_fmap_insert, E. apply list_insert_id. by rewrite list_lookup_fmap, Hx. Qed.

(** ** The basic operations *)

Section tidies.
  Context {n : nat}.

Lemma tidies_ret {A} (a : A) : tidies n (mret a).
Proof. by intros r b r' Hr [= <- <-]. Qed.
Lemma tidies_ub {A} : tidies n (ub (A := A)).
Proof. by intros r b r'. Qed.
Lemma tidies_bind {A B} (m : R A) (f : A -> R B) : tidies n m -> (forall a, tidies n (f a)) -> tidies n (m ≫= f).
Proof. intros Hm Hf r b r' Hr (a & r1 & E1 & E2)%bind_inv. eapply Hf; [|exact E2]. by eapply Hm. Qed.
Lemma tidies_gets {A} (g : vl_runtime_impl -> A) : tidies n (gets g).
Proof. by intros r b r' Hr [= <- <-]. Qed.
Lemma tidies_deref {A} (g : vl_runtime_impl -> option A) : tidies n (deref g).
Proof. intros r b r' Hr E. unfold deref in E. by case_match; simplify_eq. Qed.
Lemma tidies_load i : tidies n (load_task i).
Proof. apply tidies_deref. Qed.
Lemma tidies_load_p p : tidies n (load_p p).
Proof. apply tidies_deref. Qed.
Lemma tidies_modify g : (forall r, tidy n r -> tidy n (g r)) -> tidies n (modify g).
Proof. intros Hg r b r' Hr [= <- <-]. by apply Hg. Qed.
Lemma tidies_upd i f : (forall t, all_next (f t) = all_next t) -> (forall t, fiber (f t) = None \/ fiber (f t) = fiber t) -> tidies n (upd_task i f).
Proof. intros H1 H2 r b r' Hr (t & Ht & ->)%upd_task_inv. apply tidy_tasks; [done|]. by eapply same_links_insert. Qed.
Lemma tidies_upd_p p f : (forall x, thread_started (f x) = thread_started x) -> tidies n (upd_p p f).
Proof. intros H1 r b r' Hr (x & Hx & ->)%upd_p_inv. apply tidy_ps; [done|]. by eapply started_insert. Qed.

Lemma tidies_push i : tidies n (vl_task_queue_push i).
Proof.
  intros r b r' Hr E. unfold vl_task_queue_push, iq_push, store_next in E. destruct (tasks r !! i) as [t|] eqn:Hi; cbn in E; [|done].
  assert (Hu : upto queue_link (tasks r) (<[i := set_queue_next None t]> (tasks r))) by (by apply (upto_insert queue_link)).
  destruct (q_tail (global_runnable r)) as [tl|]; cbn in E.
  - destruct (<[i := set_queue_next None t]> (tasks r) !! tl) as [tt'|] eqn:Htl; cbn in E; [|done]. injection E as <- <-.
    apply (tidy_tasks n (set_global_runnable _ r)); [by destruct Hr|]. apply same_links_upto. etrans; [exact Hu|]. by apply (upto_insert queue_link).
  - injection E as <- <-. apply (tidy_tasks n (set_global_runnable _ r)); [by destruct Hr|]. by apply same_links_upto.
Qed.

Lemma tidies_pop : tidies n vl_task_queue_pop.
Proof.
  intros r b r' Hr E. unfold vl_task_queue_pop, iq_pop, store_next in E. destruct (q_head (global_runnable r)) as [h|]; cbn in E; [|by injection E as <- <-; destruct Hr].
  destruct (tasks r !! h) as [t|] eqn:Hi; cbn in E; [|done]. injection E as <- <-.
  apply (tidy_tasks n (set_global_runnable _ r)); [by destruct Hr|]. apply same_links_upto. by apply (upto_insert queue_link).
Qed.

Lemma tidies_queue {A} p (op : C vl_run_queue A) : tidies n (on_run_queue p op).
Proof.
  intros r b r' Hr E. unfold on_run_queue in E. destruct (ps r !! p) as [x|] eqn:Hx; [|done]. destruct (op _) as [[]|]; simplify_eq.
  apply tidy_ps; [done|]. by eapply started_insert.
Qed.

Lemma tidies_timer_heap {A} p (op : C timer_store A) : tidies n (on_timer_heap p op).
Proof.
  intros r b r' Hr E. unfold on_timer_heap in E. destruct (ps r !! p) as [x|] eqn:Hx; [|done]. destruct (op _) as [[]|]; simplify_eq.
  apply (tidy_ps n (set_timer_nodes _ r)); [by destruct Hr|]. by eapply started_insert.
Qed.

Lemma tidies_store_timer i v : tidies n (store_timer i v).
Proof. intros r b r' Hr E. unfold store_timer in E. case_match; simplify_eq. by destruct Hr. Qed.
Lemma tidies_upd_node i v : tidies n (upd_timer_node i v).
Proof. intros r b r' Hr E. unfold upd_timer_node in E. case_match; simplify_eq. by destruct Hr. Qed.

Lemma tidies_wake_workers : tidies n vl_runtime_wake_workers.
Proof. apply tidies_modify. intros r Hr. apply tidy_ps; [done|]. by rewrite <- list_fmap_compose. Qed.

End tidies.

#[export] Hint Resolve tidies_ret tidies_ub tidies_gets tidies_deref tidies_load tidies_load_p tidies_push tidies_pop
  tidies_queue tidies_timer_heap tidies_store_timer tidies_upd_node tidies_wake_workers : tidies.

Ltac tidies_solve :=
  unfold bump_stat, bump_p_stat, dec_guarded, load_timer, load_timer_node;
  repeat first [progress (intros; cbn beta zeta) | solve [auto with tidies nocore]
    | apply tidies_bind
    | apply tidies_upd; intros []; by auto
    | apply tidies_upd_p; intros []; done
    | apply tidies_modify; intros ? []; repeat case_match; by split
    | case_match].

(** ** The operations of the runtime *)

Section operations.
  Context {n : nat}.

Lemma tidies_wake i : tidies n (vl_task_wake_locked i).
Proof. unfold vl_task_wake_locked, vl_task_enqueue_global_locked, vl_task_mark_queued. tidies_solve. Qed.
#[local] Hint Resolve tidies_wake : tidies.

Lemma tidies_joiners fuel : forall w, tidies n (wake_joiners fuel w).
Proof. induction fuel as [|fuel IH]; intros w; cbn [wake_joiners]; tidies_solve. Qed.
#[local] Hint Resolve tidies_joiners : tidies.

Lemma tidies_settle p i st d : tidies n (execute_settle p i st d).
Proof. unfold execute_settle, cancel_task, vl_task_complete_locked, vl_task_enqueue_local_locked, vl_task_mark_queued. tidies_solve. Qed.

Lemma tidies_stop_run st : tidies n (vl_worker_stop_run_locked st).
Proof. unfold vl_worker_stop_run_locked. tidies_solve. Qed.
#[local] Hint Resolve tidies_settle tidies_stop_run : tidies.

Lemma tidies_leave p i st d : tidies n (execute_leave p i st d).
Proof. unfold execute_leave. tidies_solve. Qed.

Lemma tidies_expire p now : tidies n (vl_timers_expire p now).
Proof.
  unfold vl_timers_expire. apply tidies_bind; [auto with tidies|]. intros x.
  generalize (length (items (timers x))) as fuel. induction fuel as [|fuel IH]; cbn [expire_loop]; tidies_solve.
Qed.

Lemma tidies_current th : tidies n (vl_task_current th).
Proof. unfold vl_task_current. tidies_solve. Qed.

Lemma tidies_set_current p c : tidies n (vl_context_set_current p c).
Proof. unfold vl_context_set_current. tidies_solve. Qed.

Lemma tidies_take_candidate k p : tidies n (take_candidate k p).
Proof. induction k as [|k IH]; cbn [take_candidate]; tidies_solve. Qed.
Lemma tidies_pull_extras m p : forall k, tidies n (pull_extras m p k).
Proof. induction m as [|m IH]; intros k; cbn [pull_extras]; tidies_solve. Qed.
#[local] Hint Resolve tidies_current tidies_set_current tidies_take_candidate tidies_pull_extras : tidies.

Lemma tidies_take_global p : tidies n (vl_worker_take_global p).
Proof. unfold vl_worker_take_global. tidies_solve. Qed.
Lemma tidies_take_local p : tidies n (take_local p).
Proof. unfold take_local. tidies_solve. Qed.
Lemma tidies_steal_from p v : tidies n (steal_from p v).
Proof. unfold steal_from. tidies_solve. Qed.
Lemma tidies_keep_stolen p l : tidies n (keep_stolen p l).
Proof. induction l as [|i l IH]; cbn [keep_stolen]; tidies_solve. Qed.
#[local] Hint Resolve tidies_keep_stolen : tidies.
Lemma tidies_steal_commit p first rest : tidies n (steal_commit p first rest).
Proof. unfold steal_commit. tidies_solve. Qed.
Lemma tidies_enter p i : tidies n (execute_enter p i).
Proof. unfold execute_enter, cancel_task. tidies_solve. Qed.

Lemma tidies_cancel_from fuel : forall i, tidies n (cancel_from fuel i).
Proof. induction fuel as [|fuel IH]; intros i; cbn [cancel_from]; unfold vl_task_is_terminal; tidies_solve. Qed.
#[local] Hint Resolve tidies_cancel_from : tidies.
Lemma tidies_cancel_all : tidies n vl_task_cancel_all.
Proof. unfold vl_task_cancel_all. tidies_solve. Qed.
#[local] Hint Resolve tidies_cancel_all : tidies.
Lemma tidies_finish : tidies n vl_runtime_run_finish.
Proof. unfold vl_runtime_run_finish. tidies_solve. Qed.
Lemma tidies_timeout_ms p now : tidies n (vl_timers_timeout_ms p now).
Proof. unfold vl_timers_timeout_ms. tidies_solve. Qed.
#[local] Hint Resolve tidies_timeout_ms : tidies.
Lemma tidies_idle_enter p now : tidies n (idle_enter p now).
Proof. unfold idle_enter. tidies_solve. Qed.
Lemma tidies_idle_leave p : tidies n (idle_leave p).
Proof. unfold idle_leave. tidies_solve. Qed.
Lemma tidies_drain p : tidies n (vl_worker_drain_eventfd p).
Proof. unfold vl_worker_drain_eventfd. tidies_solve. Qed.

(** A fiber is created on the P of the worker. *)
Lemma tidies_new_fiber p i : (p < n)%nat -> tidies n (upd_task i (set_fiber (Some p))).
Proof.
  intros Hp r b r' [T1 T2 (l & Hc & Hnd & Hl) T4] (t & Ht & ->)%upd_task_inv. split; try done; cbn.
  - exists l. split; [|split; [done|]].
    + eapply chain_frame; [exact Hc|]. intros j tj _ Hj. rewrite lookup_insert. case_decide as E; [|by exists tj].
      subst j. assert (tj = t) as -> by congruence. by exists (set_fiber (Some p) t).
    + intros j. rewrite Hl, lookup_insert. case_decide as E; [subst j; rewrite Ht|done]. split; by eauto.
  - intros j t' q. rewrite lookup_insert. case_decide as E; [intros [= <-] [= <-]; done|apply T4].
Qed.

Lemma tidies_prepare p i st : (p < n)%nat -> tidies n (execute_prepare p i st).
Proof. intros Hp. unfold execute_prepare. pose proof (tidies_new_fiber p i Hp). tidies_solve. Qed.

(** A new task becomes the head of the list. *)
Lemma tidy_new_task r i : tidy n r -> tasks r !! i = None ->
  tidy n (set_all_tasks (Some i) (set_tasks (<[i := set_all_next (all_tasks r) new_task]> (tasks r)) r)).
Proof.
  intros [T1 T2 (l & Hc & Hnd & Hl) T4] Hi. split; try done; cbn.
  - assert (Hni : i ∉ l) by (rewrite Hl, Hi; by intros []). exists (i :: l). split; [|split; [by apply list.NoDup_cons|]].
    + split; [done|]. exists (set_all_next (all_tasks r) new_task). rewrite lookup_insert_eq. split; [done|].
      eapply chain_frame; [exact Hc|]. intros j t Hj Ht. exists t. rewrite lookup_insert_ne by congruence. done.
    + intros j. rewrite elem_of_cons, lookup_insert. case_decide as E; [subst j; split; by eauto|]. rewrite Hl. split; [intros [->|?]; done|by right].
  - intros j t p. rewrite lookup_insert. case_decide; [intros [= <-]; done|apply T4].
Qed.

Lemma tidies_spawn th fn c : tidies n (vl_spawn th fn c).
Proof.
  assert (Hrest : forall task, tidies n (_ ← upd_task task (set_state VL_TASK_RUNNABLE); _ ← vl_task_enqueue_global_locked (Some task);
    _ ← modify (fun r => set_live_tasks (w64 (live_tasks r + 1)) r); _ ← bump_stat spawned set_spawned 1; _ ← vl_runtime_wake_workers; mret (Some task))).
  { intros task. unfold vl_task_enqueue_global_locked, vl_task_mark_queued. tidies_solve. }
  unfold vl_spawn. destruct fn; cbn [negb]; [|apply tidies_ret]. apply tidies_bind; [apply tidies_gets|]. intros owner.
  case_match; [apply tidies_ret|]. destruct c as [task|]; [|apply tidies_ret]. apply tidies_bind; [apply tidies_gets|]. intros []; [apply tidies_ret|].
  intros r b r' Hr E. rewrite bind_run in E. cbn [gets] in E. case_decide as Hf; [|done].
  rewrite bind_run in E. cbn [gets] in E. rewrite bind_run in E. cbn [modify] in E. rewrite bind_run in E. cbn [modify] in E.
  eapply Hrest; [|exact E]. by apply tidy_new_task.
Qed.
#[local] Hint Resolve tidies_spawn : tidies.

Lemma tidies_run_op th op : tidies n (run_op th op).
Proof.
  destruct op; cbn [run_op];
    unfold vl_yield, vl_join, join_enqueue, vl_task_prepare_park, vl_timer_arm, vl_timer_current, vl_task_park_for_io,
      vl_task_can_park_for_io; tidies_solve.
Qed.

Lemma tidies_external op : tidies n (run_external op).
Proof.
  destruct op; cbn [run_external];
    unfold vl_task_complete_io, vl_timer_init, vl_timer_cancel, vl_timer_arm_resumed, vl_timer_destroy, vl_runtime_request_shutdown,
      vl_runtime_run_begin; tidies_solve.
Qed.

End operations.

(** ** Every reachable state *)

Definition tidy_system (n : nat) (s : system) : Prop := tidy n (rt s) /\ length (pcs s) = n.

Lemma tidy_goto n p pc s r s' : goto p pc s r = Some s' -> length (pcs s) = n -> tidy n r -> tidy_system n s'.
Proof. intros E Hl Hr. unfold goto in E. repeat case_match; simplify_eq; split; cbn; by rewrite ?length_insert. Qed.

Lemma tidy_then_goto {A} n p (m : R A) k s s' : tidies n m -> then_goto p m k s = Some s' -> tidy_system n s -> tidy_system n s'.
Proof.
  intros Hm E [Hr Hl]. unfold then_goto in E. destruct (m (rt s)) as [[a r]|] eqn:Em; [|done]. eapply tidy_goto; [exact E|done|]. by eapply Hm.
Qed.

Lemma worker_step_tidy n p inp s s' : worker_step p inp s = Some s' -> tidy_system n s -> tidy_system n s'.
Proof.
  intros E Hs. pose proof Hs as [Hr Hl]. unfold worker_step in E. destruct (pcs s !! p) as [pc|] eqn:Hpc; [|done].
  assert (Hp : (p < n)%nat) by (rewrite <- Hl; by eapply lookup_lt_Some).
  destruct pc; try done; try (eapply tidy_then_goto; [|exact E|exact Hs]);
    try solve [apply tidies_expire | apply tidies_take_local | apply tidies_take_global | apply tidies_steal_commit | apply tidies_leave | apply tidies_idle_enter].
  - case_match; [|done]. eapply tidy_then_goto; [apply tidies_set_current|exact E|exact Hs].
  - case_match; [|done]. eapply tidy_then_goto; [apply tidies_finish|exact E|exact Hs].
  - case_match; by eapply tidy_goto.
  - case_match; [eapply tidy_then_goto; [apply tidies_steal_from|exact E|exact Hs]|by eapply tidy_goto].
  - destruct (execute_enter p task (rt s)) as [[[| |] r]|] eqn:Ee; try done; pose proof (tidies_enter p task _ _ _ Hr Ee) as Hr'.
    + injection E as <-. split; cbn; [done|by rewrite length_insert].
    + by eapply tidy_goto.
    + by eapply tidy_goto.
  - unfold execute_cancelled. pose proof (tidies_stop_run (n := n)). tidies_solve.
  - apply tidies_bind; [by apply tidies_prepare|]. intros st. pose proof (tidies_set_current (n := n)). tidies_solve.
  - apply tidies_bind; [|intros _; apply tidies_idle_leave]. case_match; [apply tidies_drain|apply tidies_wake_workers].
Qed.

Lemma step_tidy n l s s' : step l s = Some s' -> tidy_system n s -> tidy_system n s'.
Proof.
  intros E Hs. pose proof Hs as [Hr Hl]. destruct l as [p inp|p op|op]; cbn [step] in E.
  - by eapply worker_step_tidy.
  - unfold task_step in E. destruct (pcs s !! p) as [[]|]; try done. eapply tidy_then_goto; [|exact E|exact Hs].
    apply tidies_bind; [apply tidies_run_op|]. intros o. pose proof (tidies_set_current (n := n)). tidies_solve.
  - unfold external_step in E. destruct (run_external op (rt s)) as [[[|] r]|] eqn:Eo; [|..|done]; pose proof (tidies_external op _ _ _ Hr Eo) as Hr'.
    + by injection E as <-.
    + destruct (pcs s !! 0%nat) as [[]|]; try done. by eapply tidy_goto.
Qed.

Lemma reachable_tidy workers owner k s : reachable workers owner k s -> tidy_system workers s.
Proof.
  induction 1 as [|k l s s' _ IH E]; [|by eapply step_tidy]. split; cbn; [|by rewrite length_replicate]. split; cbn.
  - by rewrite length_fmap, length_seq.
  - intros p x Hx. rewrite list_lookup_fmap in Hx. destruct (seq 0 workers !! p) as [q|] eqn:Hq; [|done]. injection Hx as <-. apply lookup_seq in Hq as [-> _]. done.
  - exists []. split; [done|]. split; [constructor|]. intros i. rewrite lookup_empty. split; [by intros ?%not_elem_of_nil|by intros []].
  - intros i t p. by rewrite lookup_empty.
Qed.
