(* ===== verification/LifecycleProps.v ===== *)
(** * A runtime is created whole or not at all, and destroyed whole *)

From S2P Require Import Prelude Intrusive RunQueue TimerHeap RuntimeState Task Timer Worker Scheduler SchedulerInv SchedulerProps.
From S2P Require Import Lifecycle LifecycleClean LifecycleInit LifecycleTasks.
From stdpp Require Import options.

(** What a runtime of [n] workers holds. *)
Definition whole (n : nat) (x : resource) : Prop :=
  match x with
  | R_impl | R_mutex | R_condition | R_ps => True
  | R_slots p | R_event_fd p | R_fiber_sched p => (p < n)%nat
  | R_thread p => (0 < p < n)%nat
  end.

(** A runtime that was created and not destroyed: its eventfds are open and its threads
    have begun. *)
Record built (n : nat) (w : life) : Prop := {
  bt_handle : lf_handle w = true;
  bt_held : forall x, x ∈ lf_held w <-> whole n x;
  bt_fds : forall p, (p < n)%nat -> 0 <= fd_of p w;
  bt_begun : forall p, (0 < p < n)%nat -> p ∈ lf_begun w }.

(** ** The end of the initialisation *)

(** Every thread has begun. *)
Lemma all_ready env n owner w : building env n owner n (fun _ => true) w -> workers_ready (lf_rt w) = Z.of_nat n - 1.
Proof.
  intros Hb. pose proof (pa_bounds _ _ _ (bu_partial _ _ _ _ _ _ Hb)) as Hn. rewrite (bu_ready _ _ _ _ _ _ Hb).
  assert (Hset : lf_begun w = list_to_set (seq 1 (n - 1))).
  { apply set_eq. intros p. rewrite (bu_begun _ _ _ _ _ _ Hb), elem_of_list_to_set, elem_of_seq. cbn. split; [intros [? _]; lia|]. intros ?. split; [lia|done]. }
  rewrite Hset, size_list_to_set by apply NoDup_seq. rewrite length_seq. lia.
Qed.

Lemma await_ok env n owner w : building env n owner n never w ->
  exists w', await_workers env n w = Some (tt, w') /\ building env n owner n (fun _ => true) w' /\ outer w' = outer w.
Proof.
  intros Hb. pose proof (pa_bounds _ _ _ (bu_partial _ _ _ _ _ _ Hb)) as Hn.
  destruct (for_ps_run (fun j v => building env n owner n (fun p => p <? j)%nat v /\ outer v = outer w) (begin_if_new env) (n - 1) 1 w) as (w' & Hr & Hb' & Ho).
  { split; [|done]. eapply building_late; [exact Hb|]. intros p Hp. cbv beta. destruct (Nat.ltb_spec p 1); [lia|done]. }
  { intros j v Hj [Hv Hov]. destruct (begin_building env n owner j v Hv ltac:(lia)) as (v' & Hrv & Hv' & Hov'). exists v'. split; [done|]. split; [done|congruence]. }
  assert (Hb1 : building env n owner n (fun _ => true) w').
  { eapply building_late; [exact Hb'|]. intros p Hp. cbv beta. destruct (Nat.ltb_spec p (1 + (n - 1))); [done|lia]. }
  exists w'. split; [|by split]. unfold await_workers. rewrite (bind_Some _ _ _ _ _ Hr), bind_run. cbn [rt_get gets]. rewrite (all_ready _ _ _ _ Hb1).
  by destruct (Z.ltb_spec (Z.of_nat n - 1 + 1) (Z.of_nat n)); [lia|].
Qed.

Lemma existsb_ps (f : vl_p -> bool) l p x : existsb f l = false -> l !! p = Some x -> f x = false.
Proof.
  intros E Hx. apply not_true_iff_false. intros Hf. assert (existsb f l = true); [|congruence]. apply existsb_exists. exists x.
  split; [|done]. apply list_elem_of_In. by eapply list_elem_of_lookup_2.
Qed.

(** When no worker failed, the runtime is the initial one of the scheduler. *)
Lemma built_ok env n owner w : building env n owner n (fun _ => true) w -> worker_failed (lf_rt w) = false ->
  lf_rt w = initial_runtime n owner /\ (forall x, x ∈ lf_held w <-> whole n x).
Proof.
  intros Hb Hf. pose proof Hb as [B1 B2 B3 B4 B5 B6 B7 B8 B9 B10 B11]. pose proof B1 as [A1 A2 A3 A4 A5 A6 A7 A8 A9 A10].
  assert (Hsched : forall p, (0 < p < n)%nat -> en_sched env p = true).
  { intros p Hp. destruct (lookup_lt_is_Some_2 (ps (lf_rt w)) p) as [x Hx]; [lia|].
    assert (Hx' : tail (ps (lf_rt w)) !! (p - 1)%nat = Some x). { destruct (ps (lf_rt w)) as [|y l]; [done|]. cbn. destruct p as [|p]; [lia|]. cbn in Hx. by replace (S p - 1)%nat with p by lia. }
    pose proof (existsb_ps _ _ _ _ Hf Hx') as Hi. apply bool_decide_eq_false in Hi. rewrite (B7 p x Hx) in Hi. destruct (Nat.ltb_spec p n); [|lia].
    unfold expected_p in Hi. cbn in Hi. destruct (Nat.eqb_spec p 0); [lia|]. destruct (en_sched env p); [done|]. by destruct Hi. }
  assert (Hps : ps (lf_rt w) = initial_p <$> seq 0 n).
  { apply list_eq. intros p. rewrite list_lookup_fmap. destruct (decide (p < n)%nat) as [Hp|Hp].
    - rewrite lookup_seq_lt by done. destruct (lookup_lt_is_Some_2 (ps (lf_rt w)) p) as [x Hx]; [lia|]. rewrite Hx, (B7 p x Hx).
      destruct (Nat.ltb_spec p n); [|lia]. unfold expected_p, initial_p. destruct (Nat.eqb_spec p 0) as [->|]; [done|]. by rewrite Hsched by lia.
    - rewrite lookup_ge_None_2 by lia. rewrite lookup_ge_None_2; [done|]. rewrite length_seq. lia. }
  pose proof (all_ready _ _ _ _ Hb) as Hready. split.
  - destruct (lf_rt w). cbn in *. injection B8 as -> -> -> -> -> -> -> -> -> -> -> -> -> -> -> -> -> ->. by rewrite Hps, Hready.
  - intros [| | | |p|p|p|p]; cbn [whole]; try (split; [done|]; intros _; by apply A3).
    + apply A4.
    + rewrite A6. split; [tauto|]. intros Hp. split; [done|by apply B10].
    + rewrite B6. split; [tauto|]. intros Hp. split; [done|]. destruct (decide (p = 0%nat)) as [->|].
      * split; [by left|by apply B11].
      * split; [right; apply B5; split; [lia|done]|]. apply Hsched. lia.
    + split; [apply A8|apply B4].
Qed.

(** ** The whole of it *)

Lemma base_held_in x held : is_base x = true -> x ∈ ({[R_ps]} ∪ ({[R_condition]} ∪ ({[R_mutex]} ∪ ({[R_impl]} ∪ held))) : gset resource).
Proof. destruct x; try done; set_solver. Qed.

Lemma start_building env n owner on written : (0 < n <= 64)%nat ->
  building env n owner 0 never (mk_life false on ({[R_ps]} ∪ ({[R_condition]} ∪ ({[R_mutex]} ∪ ({[R_impl]} ∪ ∅)))) (replicate n 0) ∅ written
    (set_owner_thread owner (set_ps (replicate n zero_p) zero_runtime))).
Proof.
  intros Hn. split; cbn [lf_fds lf_begun lf_held lf_rt ps workers_ready set_owner_thread set_ps zero_runtime]; try done; try lia.
  - split; cbn [lf_fds lf_begun lf_held lf_rt ps set_owner_thread set_ps zero_runtime]; try done.
    + lia.
    + by rewrite length_replicate.
    + intros x. apply base_held_in.
    + intros p. split; [set_solver|lia].
    + intros p x [-> _]%lookup_replicate. split; [done|lia].
    + intros p. split; [set_solver|lia].
    + intros p x [-> _]%lookup_replicate. split; [done|set_solver].
    + set_solver.
    + set_solver.
  - by rewrite length_replicate.
  - intros p. split; [set_solver|lia].
  - intros p. split; [set_solver|lia].
  - intros p x [-> _]%lookup_replicate. done.
Qed.

Definition init_result (n owner : nat) (status : vl_status) (w' : life) : Prop :=
  (status = VL_OK -> built n w' /\ lf_allocator w' = true /\ lf_rt w' = initial_runtime n owner) /\
  (status <> VL_OK -> lf_handle w' = false /\ lf_held w' = ∅) /\
  (status <> VL_OK -> status <> VL_ERROR_INVALID_ARGUMENT -> lf_allocator w' = false).

Lemma init_workers_ok env n owner v : building env n owner 0 never v -> lf_handle v = false -> lf_allocator v = true ->
  exists status w', init_workers env n v = Some (status, w') /\ init_result n owner status w'.
Proof.
  intros Hb Hh Ha. unfold init_workers. destruct (init_ps_ok env n owner n 0 v Hb eq_refl) as (r & v1 & Hr & Ho & Hout). rewrite (bind_Some _ _ _ _ _ Hr). unfold outer in Ho.
  assert (Hclean : forall k u (st : vl_status), partial n k u -> outer u = outer v -> st <> VL_OK -> exists w',
    (_ ← vl_runtime_cleanup_partial env k; _ ← allocator_shutdown; mret st) u = Some (st, w') /\ init_result n owner st w').
  { intros k u st Hp Hu Hst. destruct (cleanup_ok env n k u Hp) as (u' & Hr' & Hh' & Ho'). rewrite (bind_Some _ _ _ _ _ Hr'). eexists. split; [done|].
    split; [done|]. split; [|done]. intros _. unfold outer in *. cbn. split; [|done]. congruence. }
  destruct r as [[st k]|]; [destruct Hout as [Hst Hp]; destruct (Hclean k v1 st Hp Ho Hst) as (w' & ? & ?); by eexists _, _|].
  destruct (await_ok env n owner v1 Hout) as (v2 & Hr2 & Hb2 & Ho2). rewrite (bind_Some _ _ _ _ _ Hr2), bind_run. cbn [rt_get gets]. unfold outer in Ho2.
  destruct (worker_failed (lf_rt v2)) eqn:Hf.
  - destruct (Hclean n v2 VL_ERROR_SYSTEM (bu_partial _ _ _ _ _ _ Hb2)) as (w' & ? & ?); [unfold outer; congruence|done|]. by eexists _, _.
  - destruct (built_ok env n owner v2 Hb2 Hf) as [Hrt Hheld]. eexists _, _. split; [done|]. split; [|by split]. intros _. split_and!; [|cbn; congruence|done].
    split; cbn; try done; [by apply (bu_open _ _ _ _ _ _ Hb2)|]. intros p Hp. apply (bu_begun _ _ _ _ _ _ Hb2). by split.
Qed.

(** The clean-up of a runtime whose array of P's could not be had. *)
Lemma cleanup_none env w : ps (lf_rt w) = [] -> lf_held w = {[R_condition]} ∪ ({[R_mutex]} ∪ ({[R_impl]} ∪ ∅)) ->
  exists w', vl_runtime_cleanup_partial env 0 w = Some (tt, w') /\ lf_held w' = ∅ /\ outer w' = outer w.
Proof.
  intros Hp Hh. unfold vl_runtime_cleanup_partial. erewrite bind_Some by reflexivity. erewrite bind_Some by reflexivity. erewrite bind_Some by reflexivity.
  erewrite bind_Some by reflexivity. rewrite bool_decide_false by (intros Hn; by apply Hn). cbn [andb]. erewrite bind_Some by reflexivity. erewrite bind_Some by reflexivity.
  unfold free_runtime. erewrite bind_Some by reflexivity. unfold worker_count. cbn [lf_rt set_lf_written set_lf_rt ps set_ps set_stop_workers]. rewrite length_fmap, Hp.
  rewrite decide_True by done. erewrite bind_Some by reflexivity. erewrite bind_Some; [|apply release_held_run; cbn; set_solver].
  erewrite bind_Some; [|apply release_held_run; cbn; set_solver]. eexists. split; [apply release_held_run; cbn; set_solver|]. cbn. split; [set_solver|done].
Qed.

Lemma init_impl_ok env th n v : (0 < n <= 64)%nat -> lf_handle v = false -> lf_held v = ∅ -> lf_allocator v = true ->
  exists status w', init_impl env th n v = Some (status, w') /\ init_result n (th_self th) status w'.
Proof.
  intros Hn Hh Hheld Ha. assert (Hbad : forall (st : vl_status) u, st <> VL_OK -> lf_handle u = false -> lf_held u = ∅ -> lf_allocator u = false ->
    exists status w', Some (st, u) = Some (status, w') /\ init_result n (th_self th) status w') by (intros; by eexists _, _).
  unfold init_impl. destruct (en_calloc_impl env); cbn [negb]; [|by apply Hbad].
  rewrite (bind_Some _ _ _ _ _ (acquire_run R_impl v ltac:(rewrite Hheld; set_solver))). do 3 (rewrite bind_run; cbn [modify]).
  rewrite Hheld. destruct (en_mutex env); cbn [negb].
  2: { erewrite bind_Some; [|apply release_held_run; cbn; set_solver]. apply Hbad; [done|done|cbn; set_solver|done]. }
  erewrite bind_Some; [|apply acquire_run; cbn; set_solver]. destruct (en_condition env); cbn [negb].
  2: { erewrite bind_Some; [|apply release_held_run; cbn; set_solver]. erewrite bind_Some; [|apply release_held_run; cbn; set_solver]. apply Hbad; [done|done|cbn; set_solver|done]. }
  erewrite bind_Some; [|apply acquire_run; cbn; set_solver]. destruct (en_calloc_ps env); cbn [negb].
  2: { match goal with |- context [vl_runtime_cleanup_partial env 0] => idtac end. edestruct (cleanup_none env) as (u & Hr & Hhu & Hou); [| |rewrite (bind_Some _ _ _ _ _ Hr)]; [done|done|].
       apply Hbad; [done| |done|done]. unfold outer in Hou. cbn in *. congruence. }
  erewrite bind_Some; [|apply acquire_run; cbn; set_solver]. do 3 (rewrite bind_run; cbn [on_rt modify]).
  apply init_workers_ok; [|done|done]. pose proof (start_building env n (th_self th) true (lf_written v) Hn) as Hb. rewrite <- Ha, <- Hh in Hb. exact Hb.
Qed.

(** C30: [vl_runtime_init_with_config] on a handle that is not initialised always returns,
    whatever libc, the kernel and the threads do: with VL_OK the runtime holds exactly the
    resources of its workers and is the state the scheduler starts from; with an error it
    holds nothing, every piece that had been acquired was released once, and the handle is
    still NULL; but unless the error is VL_ERROR_INVALID_ARGUMENT the allocator is shut
    down, even one that was in use before. *)
Theorem runtime_init_or_nothing env th config w : lf_handle w = false -> lf_held w = ∅ ->
  exists status w', vl_runtime_init_with_config env th true config w = Some (status, w') /\
    (status = VL_OK -> built (requested_workers config) w' /\ lf_allocator w' = true /\
       lf_rt w' = initial_runtime (requested_workers config) (th_self th)) /\
    (status <> VL_OK -> lf_handle w' = false /\ lf_held w' = ∅) /\
    (status <> VL_OK -> status <> VL_ERROR_INVALID_ARGUMENT -> lf_allocator w' = false).
Proof.
  intros Hh Hheld. set (n := requested_workers config).
  assert (Hbad : forall (st : vl_status) v, st <> VL_OK -> lf_handle v = false -> lf_held v = ∅ -> (st <> VL_ERROR_INVALID_ARGUMENT -> lf_allocator v = false) ->
    exists status w', Some (st, v) = Some (status, w') /\ init_result n (th_self th) status w').
  { intros st v H1 H2 H3 H4. eexists _, _. split; [done|]. split; [done|]. split; [done|]. intros _. exact H4. }
  unfold vl_runtime_init_with_config. fold n. rewrite bind_run. cbn [gets]. rewrite Hh. cbn [negb orb].
  destruct ((n =? 0)%nat || (VL_RUNTIME_MAX_WORKERS <? Z.of_nat n)) eqn:Hn; [by apply Hbad|].
  apply orb_false_iff in Hn as [Hn1%Nat.eqb_neq Hn2%Z.ltb_ge]. unfold VL_RUNTIME_MAX_WORKERS in Hn2.
  rewrite bind_run. unfold allocator_init. rewrite bind_run. cbn [gets]. destruct (lf_allocator w) eqn:Ha.
  - cbn [mret C_ret]. rewrite decide_False by (intros Hne; by apply Hne). by apply init_impl_ok; [lia|..].
  - destruct (en_page_size env); [|by apply Hbad]. rewrite bind_run. cbn [modify mret C_ret]. rewrite decide_False by (intros Hne; by apply Hne). by apply init_impl_ok; [lia|..].
Qed.

(** ** Witness and what a failed initialisation does to others *)

(** Every call succeeds but the eventfd of P [bad]. *)
Definition demo_answers (bad : nat) : init_env :=
  mk_init_env true true true true true (fun _ => true) (fun p => if (p =? bad)%nat then -1 else 5 + Z.of_nat p)
    (fun _ => true) (fun _ => true) (fun _ => true).
Definition no_runtime (allocator : bool) : life := mk_life false allocator ∅ [] ∅ [] zero_runtime.

Lemma runtime_init_or_nothing_witness :
  exists w', vl_runtime_init_with_config (demo_answers 9) (mk_thread 0 None) true (Some 2%nat) (no_runtime false) = Some (VL_OK, w') /\ built 2 w'.
Proof.
  destruct (runtime_init_or_nothing (demo_answers 9) (mk_thread 0 None) (Some 2%nat) (no_runtime false)) as (st & w' & Hrun & Hok & _); [reflexivity|reflexivity|].
  assert (Hst : fst <$> vl_runtime_init_with_config (demo_answers 9) (mk_thread 0 None) true (Some 2%nat) (no_runtime false) = Some VL_OK) by (vm_compute; reflexivity).
  rewrite Hrun in Hst. cbn in Hst. injection Hst as ->. exists w'. split; [exact Hrun|]. exact (proj1 (Hok eq_refl)).
Defined.

(** When the eventfd of P 1 is refused, the clean-up writes to the descriptors of every P
    of the array: 5 and -1, and 0, the standard input, for the P it has not come to.  And
    the allocator, which was in use before, is shut down. *)
Example failed_init_side_effects :
  match vl_runtime_init_with_config (demo_answers 1) (mk_thread 0 None) true (Some 3%nat) (no_runtime true) with
  | Some (status, w') => status = VL_ERROR_SYSTEM /\ lf_written w' = [5; -1; 0] /\ lf_allocator w' = false
  | None => False
  end.
Proof. vm_compute. auto. Qed.
