(* ===== verification/LifecycleShutdown.v ===== *)
(** * Destroying a runtime

    In a state the scheduler reaches, [vl_runtime_shutdown] joins the workers, each of
    which destroys the fibers it created, cancels and frees every task, and releases
    everything the runtime holds. *)

From S2P Require Import Prelude Intrusive RunQueue TimerHeap RuntimeState Task Timer Worker Scheduler SchedulerInv SchedulerProps.
From S2P Require Import Lifecycle LifecycleClean LifecycleInit LifecycleTasks LifecycleProps.
From stdpp Require Import options.

(** ** Along the list of all tasks *)

(** The list visits the tasks, each once. *)
Definition all_listed (r : vl_runtime_impl) (l : list nat) : Prop :=
  chain all_link (tasks r) (all_tasks r) l /\ NoDup l /\ forall i, i ∈ l <-> is_Some (tasks r !! i).

Lemma listed_length r l : all_listed r l -> length l = size (tasks r).
Proof.
  intros (_ & Hnd & Hl). rewrite <- size_dom. assert (E : dom (tasks r) = list_to_set l :> gset nat).
  { apply set_eq. intros i. rewrite elem_of_dom, elem_of_list_to_set. by rewrite Hl. }
  rewrite E. symmetry. by apply size_list_to_set.
Qed.

(** [vl_worker_destroy_owned_fibers] on one task. *)
Definition clear (p : nat) (t : vl_task) : vl_task :=
  if bool_decide (fiber t <> None) && bool_decide (last_p t = Some p) then set_fiber None t else t.

Lemma clear_next p t : all_next (clear p t) = all_next t.
Proof. unfold clear. by case_match. Qed.

Lemma destroy_from_run p l : forall fuel h r, chain all_link (tasks r) h l -> NoDup l -> (length l <= fuel)%nat ->
  exists m', destroy_fibers_from fuel p h r = Some (tt, set_tasks m' r) /\
    forall i, m' !! i = if decide (i ∈ l) then clear p <$> tasks r !! i else tasks r !! i.
Proof.
  induction l as [|i l IH]; intros fuel h r Hc Hnd Hf.
  { cbn in Hc. subst h. exists (tasks r). destruct fuel; (split; [by destruct r|]); intros j; by rewrite decide_False by apply not_elem_of_nil. }
  destruct Hc as (-> & t & Ht & Hc). apply list.NoDup_cons in Hnd as [Hni Hnd]. destruct fuel as [|fuel]; [cbn in Hf; lia|]. cbn [destroy_fibers_from].
  rewrite (bind_Some _ _ _ _ _ (load_task_run i r t Ht)).
  set (r1 := set_tasks (<[i := clear p t]> (tasks r)) r).
  assert (Hr1 : (if bool_decide (fiber t <> None) && bool_decide (last_p t = Some p) then upd_task i (set_fiber None) else mret tt) r = Some (tt, r1)).
  { unfold r1, clear. case_match; [by rewrite (upd_task_run i _ r t Ht)|]. rewrite insert_id by done. by destruct r. }
  rewrite (bind_Some _ _ _ _ _ Hr1). destruct (IH fuel (all_next t) r1) as (m' & Hrun & Hm').
  { eapply chain_frame; [exact Hc|]. intros j tj Hj Htj. exists tj. cbn. rewrite lookup_insert_ne by congruence. done. }
  { done. }
  { cbn in Hf. lia. }
  exists m'. split; [exact Hrun|]. intros j. rewrite Hm'. cbn. rewrite lookup_insert. destruct (decide (i = j)) as [<-|Hne].
  - rewrite decide_False by done. rewrite decide_True by left. by rewrite Ht.
  - destruct (decide (j ∈ l)); [rewrite decide_True by (by right); done|]. rewrite decide_False; [done|]. rewrite elem_of_cons. naive_solver.
Qed.

Lemma destroy_owned_run p r l : all_listed r l -> vl_worker_destroy_owned_fibers p r = Some (tt, set_tasks (clear p <$> tasks r) r).
Proof.
  intros Hl. pose proof Hl as (Hc & Hnd & Hin). unfold vl_worker_destroy_owned_fibers. rewrite bind_run. cbn [gets]. rewrite bind_run. cbn [gets].
  destruct (destroy_from_run p l (size (tasks r)) (all_tasks r) r Hc Hnd) as (m' & -> & Hm'); [by rewrite (listed_length r l Hl)|].
  assert (m' = clear p <$> tasks r) as ->; [|done]. apply map_eq. intros i. rewrite Hm', lookup_fmap. case_decide as Hi; [done|].
  rewrite Hin in Hi. destruct (tasks r !! i); [|done]. by destruct Hi.
Qed.

Lemma all_listed_clear p r l : all_listed r l -> all_listed (set_tasks (clear p <$> tasks r) r) l.
Proof.
  intros (Hc & Hnd & Hin). split; [|split; [done|]]; cbn.
  - eapply chain_frame; [exact Hc|]. intros i t _ Ht. exists (clear p t). rewrite lookup_fmap, Ht. split; [done|apply clear_next].
  - intros i. by rewrite Hin, lookup_fmap, fmap_is_Some.
Qed.

Lemma free_from_run l : forall fuel h r, chain all_link (tasks r) h l -> NoDup l -> (length l <= fuel)%nat ->
  exists m', free_from fuel h r = Some (tt, set_tasks m' r) /\ forall i, m' !! i = if decide (i ∈ l) then None else tasks r !! i.
Proof.
  induction l as [|i l IH]; intros fuel h r Hc Hnd Hf.
  { cbn in Hc. subst h. exists (tasks r). destruct fuel; (split; [by destruct r|]); intros j; by rewrite decide_False by apply not_elem_of_nil. }
  destruct Hc as (-> & t & Ht & Hc). apply list.NoDup_cons in Hnd as [Hni Hnd]. destruct fuel as [|fuel]; [cbn in Hf; lia|]. cbn [free_from].
  rewrite (bind_Some _ _ _ _ _ (load_task_run i r t Ht)), bind_run. cbn [modify].
  destruct (IH fuel (all_next t) (set_tasks (delete i (tasks r)) r)) as (m' & Hrun & Hm').
  { eapply chain_frame; [exact Hc|]. intros j tj Hj Htj. exists tj. cbn. rewrite lookup_delete_ne by congruence. done. }
  { done. }
  { cbn in Hf. lia. }
  exists m'. split; [exact Hrun|]. intros j. rewrite Hm'. cbn. rewrite lookup_delete. repeat case_decide; set_solver.
Qed.

Lemma destroy_tasks_run r l : all_listed r l -> vl_runtime_destroy_tasks r = Some (tt, set_all_tasks None (set_tasks ∅ r)).
Proof.
  intros Hl. pose proof Hl as (Hc & Hnd & Hin). unfold vl_runtime_destroy_tasks. rewrite bind_run. cbn [gets]. rewrite bind_run. cbn [gets].
  destruct (free_from_run l (size (tasks r)) (all_tasks r) r Hc Hnd) as (m' & Hrun & Hm'); [by rewrite (listed_length r l Hl)|].
  rewrite (bind_Some _ _ _ _ _ Hrun). assert (m' = ∅) as ->; [|done]. apply map_empty. intros i. rewrite Hm'. case_decide as Hi; [done|].
  rewrite Hin in Hi. destruct (tasks r !! i); [|done]. by destruct Hi.
Qed.

(** ** Cancelling *)

(** What cancelling leaves alone. *)
Record quiet (r r' : vl_runtime_impl) : Prop := {
  qt_ps : ps r' = ps r;
  qt_stop : stop_workers r' = stop_workers r;
  qt_all : all_tasks r' = all_tasks r;
  qt_tasks : forall i, (fun t => (all_next t, fiber t, last_p t)) <$> tasks r' !! i = (fun t => (all_next t, fiber t, last_p t)) <$> tasks r !! i }.

#[local] Instance quiet_preorder : PreOrder quiet.
Proof.
  split; [by intros r; split|]. intros r1 r2 r3 [Q1 Q2 Q3 Q4] [S1 S2 S3 S4]. split; [congruence..|]. intros i. by rewrite S4, Q4.
Qed.

Definition quiets {A} (m : R A) : Prop := forall r a r', m r = Some (a, r') -> quiet r r'.

Lemma quiets_bind {A B} (m : R A) (f : A -> R B) : quiets m -> (forall a, quiets (f a)) -> quiets (m ≫= f).
Proof. intros Hm Hf r b r' (a & r1 & E1 & E2)%bind_inv. etrans; [by eapply Hm|by eapply Hf]. Qed.
Lemma quiets_ret {A} (a : A) : quiets (mret a).
Proof. by intros r b r' [= <- <-]. Qed.
Lemma quiets_gets {A} (g : vl_runtime_impl -> A) : quiets (gets g).
Proof. by intros r b r' [= <- <-]. Qed.
Lemma quiets_modify g : (forall r, quiet r (g r)) -> quiets (modify g).
Proof. intros Hg r b r' [= <- <-]. apply Hg. Qed.
Lemma quiets_upd i f : (forall t, (all_next (f t), fiber (f t), last_p (f t)) = (all_next t, fiber t, last_p t)) -> quiets (upd_task i f).
Proof.
  intros Hf r b r' (t & Ht & ->)%upd_task_inv. split; try done. intros j. cbn. rewrite lookup_insert. case_decide as E; [|done]. subst j. rewrite Ht. cbn. by rewrite Hf.
Qed.

(** The body of the loop of [vl_task_cancel_all]. *)
Definition cancel_one (i : nat) (term : bool) (t : vl_task) : R unit :=
  if negb term && negb (executing t) then
    _ ← upd_task i (set_state VL_TASK_CANCELLED);
    w ← gets io_waiting;
    _ ← (if waiting_for_io t && negb (w =? 0) then
           _ ← upd_task i (set_waiting_for_io false);
           modify (fun r => set_io_waiting (w64 (io_waiting r - 1)) r)
         else mret tt);
    _ ← dec_guarded live_tasks set_live_tasks;
    bump_stat cancelled set_cancelled 1
  else mret tt.

Lemma cancel_one_quiet i term t : quiets (cancel_one i term t).
Proof.
  unfold cancel_one, dec_guarded, bump_stat.
  repeat first [progress intros | apply quiets_bind | apply quiets_ret | apply quiets_gets | (apply quiets_upd; by intros []) | (apply quiets_modify; intros r; repeat case_match; by split) | case_match].
Qed.

Lemma cancel_one_run i term t u r : tasks r !! i = Some u -> exists r', cancel_one i term t r = Some (tt, r').
Proof.
  intros Hu. unfold cancel_one. case_match; [|by eexists]. rewrite (bind_Some _ _ _ _ _ (upd_task_run i _ r u Hu)), bind_run. cbn [gets].
  case_match; [|by eexists]. rewrite bind_run. erewrite bind_Some; [|apply upd_task_run; cbn; by rewrite lookup_insert_eq]. by eexists.
Qed.

Lemma chain_quiet r r' h l : quiet r r' -> chain all_link (tasks r) h l -> chain all_link (tasks r') h l.
Proof.
  intros [_ _ _ Hq] Hc. eapply chain_frame; [exact Hc|]. intros i t _ Ht. specialize (Hq i). rewrite Ht in Hq. destruct (tasks r' !! i) as [t'|]; [|done].
  exists t'. split; [done|]. cbn in Hq. change (all_next t' = all_next t). congruence.
Qed.

Lemma cancel_from_run l : forall fuel h r, chain all_link (tasks r) h l -> (length l <= fuel)%nat ->
  exists r', cancel_from fuel h r = Some (tt, r') /\ quiet r r'.
Proof.
  induction l as [|i l IH]; intros fuel h r Hc Hf.
  { cbn in Hc. subst h. exists r. by destruct fuel. }
  destruct Hc as (-> & t & Ht & Hc). destruct fuel as [|fuel]; [cbn in Hf; lia|]. cbn [cancel_from].
  unfold vl_task_is_terminal. rewrite bind_run, (bind_Some _ _ _ _ _ (load_task_run i r t Ht)). cbn [mret C_ret].
  rewrite (bind_Some _ _ _ _ _ (load_task_run i r t Ht)). destruct (cancel_one_run i (terminal (state t)) t t r Ht) as (r1 & Hr1).
  pose proof (cancel_one_quiet _ _ _ _ _ _ Hr1) as Hq. fold (cancel_one i (terminal (state t)) t). rewrite (bind_Some _ _ _ _ _ Hr1).
  destruct (IH fuel (all_next t) r1) as (r' & Hrun & Hq'); [by eapply chain_quiet|cbn in Hf; lia|]. exists r'. split; [done|by etrans].
Qed.

Lemma cancel_all_run r l : all_listed r l -> exists r', vl_task_cancel_all r = Some (tt, r') /\ quiet r r' /\ all_listed r' l.
Proof.
  intros Hl. pose proof Hl as (Hc & Hnd & Hin). unfold vl_task_cancel_all. rewrite bind_run. cbn [gets]. rewrite bind_run. cbn [gets].
  destruct (cancel_from_run l (size (tasks r)) (all_tasks r) r Hc) as (r' & Hrun & Hq); [by rewrite (listed_length r l Hl)|]. exists r'. split; [done|]. split; [done|].
  split; [|split; [done|]].
  - rewrite (qt_all _ _ Hq). by eapply chain_quiet.
  - intros i. rewrite Hin. pose proof (qt_tasks _ _ Hq i) as E. destruct (tasks r !! i), (tasks r' !! i); try done; split; by eauto.
Qed.

(** ** Joining the workers *)

(** The workers below [j] have been joined; none of their fibers is left. *)
Record closing (n j : nat) (w : life) : Prop := {
  cg_length : (0 < n)%nat /\ length (ps (lf_rt w)) = n;
  cg_started : forall p x, ps (lf_rt w) !! p = Some x -> thread_started x = (0 <? p)%nat && (j <=? p)%nat;
  cg_slots : forall p x, ps (lf_rt w) !! p = Some x -> slots (runnable x) <> None;
  cg_listed : exists l, all_listed (lf_rt w) l;
  cg_pinned : forall i t, tasks (lf_rt w) !! i = Some t -> fiber t <> None -> last_p t = fiber t;
  cg_fibers : forall i t p, tasks (lf_rt w) !! i = Some t -> fiber t = Some p -> (p < n)%nat /\ (p = 0 \/ j <= p)%nat;
  cg_stop : stop_workers (lf_rt w) = true;
  cg_held : forall x, x ∈ lf_held w <-> whole n x /\ match x with R_thread p => (j <= p)%nat | R_fiber_sched p => (p = 0 \/ j <= p)%nat | _ => True end;
  cg_fds : forall p, (p < n)%nat -> 0 <= fd_of p w;
  cg_begun : forall p, (0 < p < n)%nat -> p ∈ lf_begun w }.

(** No fiber of P [p] survives [vl_worker_destroy_owned_fibers]. *)
Lemma cleared p r i t' : (forall i t, tasks r !! i = Some t -> fiber t <> None -> last_p t = fiber t) ->
  (clear p <$> tasks r) !! i = Some t' -> fiber t' <> Some p /\ last_p t' = default (last_p t') (last_p <$> tasks r !! i) /\
  (fiber t' <> None -> exists t, tasks r !! i = Some t /\ fiber t' = fiber t /\ last_p t' = last_p t).
Proof.
  intros Hpin Ht'. rewrite lookup_fmap in Ht'. destruct (tasks r !! i) as [t|] eqn:Ht; [|done]. injection Ht' as <-. specialize (Hpin i t Ht).
  unfold clear. destruct (bool_decide (fiber t <> None)) eqn:E1, (bool_decide (last_p t = Some p)) eqn:E2; cbn [andb];
    rewrite ?bool_decide_eq_true, ?bool_decide_eq_false in E1; rewrite ?bool_decide_eq_true, ?bool_decide_eq_false in E2; cbn.
  - split; [done|]. split; [done|]. done.
  - split; [|split; [done|by exists t]]. intros E. apply E2. by rewrite Hpin.
  - apply dec_stable in E1. rewrite E1. split; [done|]. by split.
  - apply dec_stable in E1. rewrite E1. split; [done|]. by split.
Qed.

Lemma owned_cleared p r : (forall i t, tasks r !! i = Some t -> fiber t <> None -> last_p t = fiber t) -> owned_fibers p (set_tasks (clear p <$> tasks r) r) = ∅.
Proof.
  intros Hpin. unfold owned_fibers. apply map_empty. intros i. apply map_lookup_filter_None. right. intros t' Ht' E. cbn in *.
  by destruct (cleared p r i t' Hpin Ht') as [? _].
Qed.

(** The end of a worker's thread, or of P 0. *)
Lemma fibers_destroyed p w l : all_listed (lf_rt w) l -> (forall i t, tasks (lf_rt w) !! i = Some t -> fiber t <> None -> last_p t = fiber t) ->
  R_fiber_sched p ∈ lf_held w ->
  (_ ← on_rt (vl_worker_destroy_owned_fibers p); sched_destroy p) w =
    Some (tt, set_lf_held (lf_held w ∖ {[R_fiber_sched p]}) (set_lf_rt (set_tasks (clear p <$> tasks (lf_rt w)) (lf_rt w)) w)).
Proof.
  intros Hl Hpin Hin. erewrite bind_Some; [|apply on_rt_run; by eapply destroy_owned_run]. unfold sched_destroy. rewrite bind_run. cbn [rt_get gets lf_rt set_lf_rt].
  rewrite owned_cleared by done. rewrite decide_True by done. by rewrite release_held_run.
Qed.

Lemma stop_step env n j w : closing n j w -> (0 < j < n)%nat -> exists w', vl_worker_stop env j w = Some (tt, w') /\ closing n (S j) w' /\ outer w' = outer w.
Proof.
  intros [G1 G2 G3 (l & G4) G5 G6 G7 G8 G9 G10] Hj. destruct (lookup_lt_is_Some_2 (ps (lf_rt w)) j) as [x Hx]; [lia|].
  assert (Hst : thread_started x = true). { rewrite (G2 j x Hx). by destruct (Nat.ltb_spec 0 j), (Nat.leb_spec j j); try lia. }
  unfold vl_worker_stop. erewrite bind_Some; [|apply on_rt_run, load_p_run; exact Hx]. rewrite Hst. cbn [negb].
  assert (E0 : set_lf_rt (lf_rt w) w = w) by (by destruct w). rewrite E0. unfold begin_if_new. rewrite bind_run, bind_run. cbn [gets].
  rewrite decide_True by (apply G10; lia). cbn [mret C_ret]. unfold thread_end. rewrite bind_run, bind_run. cbn [gets].
  assert (Hs : R_fiber_sched j ∈ lf_held w) by (apply G8; cbn; lia). rewrite decide_False by (intros Hn; by apply Hn).
  rewrite bind_run. cbn [rt_get gets]. rewrite G7. cbn [negb]. rewrite (fibers_destroyed j w l G4 G5 Hs).
  assert (Ht : R_thread j ∈ lf_held w) by (apply G8; cbn; lia). erewrite bind_Some; [|apply release_held_run; cbn; set_solver].
  eexists. split; [apply on_rt_run, upd_p_run; exact Hx|]. split; [|done]. split; cbn; try done.
  - by rewrite length_insert.
  - intros p z Hz. apply (insert_p _ _ _ _ _ _ Hx) in Hz as [[-> ->]|[Hne Hz]]; cbn.
    + destruct j; [lia|]. destruct (Nat.leb_spec (S j) j); [lia|]. done.
    + rewrite (G2 p z Hz). destruct (Nat.ltb_spec 0 p), (Nat.leb_spec j p), p as [|p']; try done; try lia; destruct (Nat.leb_spec j p'); try done; lia.
  - intros p z Hz. apply (insert_p _ _ _ _ _ _ Hx) in Hz as [[-> ->]|[Hne Hz]]; [exact (G3 j x Hx)|exact (G3 p z Hz)].
  - exists l. destruct (all_listed_clear j _ _ G4) as (A1 & A2 & A3). by split.
  - intros i t Hti Hf. destruct (cleared j (lf_rt w) i t G5 Hti) as (_ & _ & H). destruct (H Hf) as (t0 & Ht0 & E1 & E2). rewrite E1, E2 in *. by apply (G5 i t0).
  - intros i t p Hti Hf. destruct (cleared j (lf_rt w) i t G5 Hti) as (Hne & _ & H). destruct H as (t0 & Ht0 & E1 & _); [by rewrite Hf|].
    destruct (G6 i t0 p Ht0) as [? [?|?]]; [congruence|split; [done|by left]|]. split; [done|]. right. destruct (decide (p = j)) as [->|]; [done|lia].
  - intros y. rewrite !elem_of_difference, !elem_of_singleton, G8. destruct y as [| | | |q|q|q|q]; cbn; try (split; [tauto|]; intros; split; [split; [tauto|]|]; done).
    + split; [intros [[[? ?] Hne] _]|intros [? ?]]; [|split; [split; [lia|intros [= ->]; lia]|done]]. split; [done|]. destruct (decide (q = j)) as [->|]; [done|lia].
    + split; [intros [[[? ?] _] Hne]|intros [? ?]]; [|split; [split; [lia|done]|intros [= ->]; lia]]. split; [done|]. destruct (decide (q = j)) as [->|]; [done|lia].
Qed.

(** ** Shutdown *)

Lemma reached_closing workers owner k s w : (0 < workers <= 64)%nat -> reachable workers owner k s -> 8 * Z.of_nat k < W64 -> lf_rt w = rt s -> built workers w ->
  closing workers 1 (set_lf_written (lf_written w ++ lf_fds w)
    (set_lf_rt (set_ps ((fun p => set_event_fd (eventfd_write (event_fd p)) p) <$> ps (rt s)) (set_stop_workers true (set_running false (rt s)))) w)).
Proof.
  intros Hw Hr Hk Hrt [U1 U2 U3 U4]. destruct (reachable_tidy _ _ _ _ Hr) as [[T1 T2 (l & T3) T4] _].
  assert (Hw' : (workers <= 64)%nat) by lia. destruct (reached _ _ _ _ Hw' Hr Hk) as (G & L & loc & HI). unfold Inv_at in HI.
  split; cbn [lf_rt lf_held lf_begun set_lf_written set_lf_rt ps tasks all_tasks stop_workers set_ps set_stop_workers set_running]; try done.
  - rewrite length_fmap. split; [lia|done].
  - intros p x Hx. rewrite list_lookup_fmap in Hx. destruct (ps (rt s) !! p) as [y|] eqn:Hy; [|done]. injection Hx as <-. cbn [thread_started set_event_fd]. rewrite (T2 p y Hy).
    by destruct (Nat.ltb_spec 0 p), (Nat.leb_spec 1 p); try lia.
  - intros p x Hx. rewrite list_lookup_fmap in Hx. destruct (ps (rt s) !! p) as [y|] eqn:Hy; [|done]. injection Hx as <-. cbn [runnable set_event_fd].
    destruct (inv_ps _ _ _ _ _ _ _ _ _ _ _ _ _ HI p (view_p y)) as [Hq _ _ _]; [by rewrite list_lookup_fmap, Hy|]. cbn in Hq. by destruct (ring_slots _ (repr_ring _ _ Hq)) as (sl & -> & _).
  - exists l. exact T3.
  - intros i t Ht Hf. by apply (ok_pinned _ _ _ (inv_tasks _ _ _ _ _ _ _ _ _ _ _ _ _ HI i t Ht ltac:(done))).
  - intros i t p Ht Hf. specialize (T4 i t p Ht Hf). split; [done|]. lia.
  - intros x. rewrite U2. destruct x; cbn; intuition lia.
Qed.

(** C29: In every state the scheduler reaches, [vl_runtime_shutdown] by the owner is
    defined: once the workers have been joined every fiber was destroyed by the P that
    created it, so that no fiber scheduler survives, every task is freed, every resource
    the runtime holds is released exactly once, and the handle is NULL again. *)
Theorem runtime_shutdown_reclaims workers owner k s env th io_open w :
  (0 < workers <= 64)%nat -> reachable workers owner k s -> 8 * Z.of_nat k < W64 -> lf_rt w = rt s -> built workers w ->
  vl_runtime_is_owner th (rt s) = true -> vl_current_p th = None -> io_driver (rt s) = None \/ io_open = false ->
  exists w', vl_runtime_shutdown env th io_open w = Some (tt, w') /\
    lf_held w' = ∅ /\ tasks (lf_rt w') = ∅ /\ lf_handle w' = false /\ lf_allocator w' = false.
Proof.
  intros Hw Hr Hk Hrt Hb Hown Hcur Hio. pose proof (reached_closing _ _ _ _ _ Hw Hr Hk Hrt Hb) as Hc. unfold vl_runtime_shutdown.
  rewrite bind_run. cbn [gets]. rewrite (bt_handle _ _ Hb). cbn [negb]. rewrite bind_run. cbn [rt_get gets]. rewrite bind_run. cbn [rt_get gets]. rewrite Hrt, Hown, Hcur.
  rewrite (bool_decide_false (None <> None)) by (intros Hn; by apply Hn). cbn [negb orb].
  assert (E : bool_decide (io_driver (rt s) <> None) && io_open = false).
  { destruct Hio as [-> | ->]; [|apply andb_false_r]. by rewrite bool_decide_false by (intros Hn; by apply Hn). }
  rewrite E, bind_run. cbn [on_rt modify]. rewrite Hrt. rewrite bind_run. cbn [on_rt modify lf_rt set_lf_rt]. rewrite bind_run. unfold wake_workers. rewrite bind_run.
  cbn [on_rt vl_runtime_wake_workers modify lf_rt set_lf_rt]. set (w1 := set_lf_written _ _) in *.
  change (set_lf_written _ _) with w1. rewrite bind_run. cbn [rt_get gets].
  destruct (cg_length _ _ _ Hc) as [_ Hlen]. unfold worker_count. rewrite Hlen.
  destruct (for_ps_run (fun j v => closing workers j v /\ outer v = outer w1) (vl_worker_stop env) (workers - 1) 1 w1) as (w2 & Hr2 & Hc2 & Ho2); [done|..].
  { intros j v Hj [Hv Hov]. destruct (stop_step env workers j v Hv ltac:(lia)) as (v' & Hrv & Hv' & Hov'). exists v'. split; [done|]. split; [done|congruence]. }
  rewrite (bind_Some _ _ _ _ _ Hr2). replace (1 + (workers - 1))%nat with workers in Hc2 by lia. destruct Hc2 as [G1 G2 G3 (l & G4) G5 G6 G7 G8 G9 G10].
  destruct (cancel_all_run (lf_rt w2) l G4) as (r3 & Hr3 & Hq & G4'). erewrite bind_Some; [|by apply on_rt_run].
  set (w3 := set_lf_rt r3 w2). assert (G5' : forall i t, tasks (lf_rt w3) !! i = Some t -> fiber t <> None -> last_p t = fiber t).
  { intros i t Ht Hf. pose proof (qt_tasks _ _ Hq i) as Eq. cbn in Ht. rewrite Ht in Eq. destruct (tasks (lf_rt w2) !! i) as [t0|] eqn:Ht0; [|done]. cbn in Eq.
    injection Eq as E1 E2 E3. rewrite E2, E3 in *. by apply (G5 i t0). }
  assert (Hin : R_fiber_sched 0 ∈ lf_held w3) by (apply G8; cbn; lia).
  pose proof (fibers_destroyed 0 w3 l G4' G5' Hin) as Hfd. apply bind_inv in Hfd as ([] & w4 & Hf1 & Hf2). rewrite (bind_Some _ _ _ _ _ Hf1), (bind_Some _ _ _ _ _ Hf2).
  erewrite bind_Some; [|apply on_rt_run; apply (destroy_tasks_run _ l); cbn; by apply all_listed_clear]. set (w5 := set_lf_rt _ _).
  assert (Hu : unbuilding workers workers 0 w5).
  { pose proof (qt_ps _ _ Hq) as Eps. split; [lia|cbn; rewrite Eps; lia| |].
    - intros x. change (lf_held w5) with (lf_held w2 ∖ {[R_fiber_sched 0]}). rewrite elem_of_difference, elem_of_singleton, G8. destruct x as [| | | |q|q|q|q]; cbn; try (by split; [|split]).
      + split; [intros [[? _] _]; lia|]. intros ?. split; [split; [lia|done]|done].
      + split; [|intros [? _]; split; [split; [lia|done]|done]]. intros [[? _] _]. split; [lia|by apply G9].
      + split; [|done]. intros [[? [->|?]] Hne]; [done|lia].
      + split; [|done]. intros [[? ?] _]. lia.
    - intros q x _ Hx. cbn in Hx. rewrite Eps in Hx. split; [|intros _; by eapply G3]. intros _. apply lookup_lt_Some in Hx. lia. }
  destruct (unbuild_ok workers workers w5 Hu) as (w6 & w7 & Hr6 & Hr7 & Hh & Ho & Ht). rewrite (bind_Some _ _ _ _ _ Hr6), (bind_Some _ _ _ _ _ Hr7).
  eexists. split; [done|]. cbn. split_and!; [done| |done|done]. by rewrite Ht.
Qed.

(** ** Witness: two workers, a parked task with a fiber on each *)

Definition both_parked : list label :=
  two_workers ++ [L_task 0 (Op_prepare_park VL_TASK_WAITING); L_task 0 Op_suspend; go 0;
                  L_task 1 (Op_prepare_park VL_TASK_WAITING); L_task 1 Op_suspend; go 1].

Definition parked_life : life :=
  mk_life true true {[R_impl; R_mutex; R_condition; R_ps; R_slots 0; R_slots 1; R_event_fd 0; R_event_fd 1; R_fiber_sched 0; R_fiber_sched 1; R_thread 1]}
    [4; 5] {[1%nat]} [] (rt (after 2 both_parked)).

Lemma both_parked_reachable : reachable 2 0 24 (after 2 both_parked).
Proof.
  change 24%nat with (0 + length both_parked)%nat.
  apply (run_labels_reachable _ _ both_parked 0 (initial 2 0)); [constructor|]. vm_compute. reflexivity.
Qed.

Lemma parked_life_built : built 2 parked_life.
Proof.
  split.
  - done.
  - intros x. unfold parked_life. cbn [lf_held]. destruct x as [| | | |p|p|p|p]; cbn [whole]; try (split; [done|]; intros _; set_solver);
      destruct p as [|[|p]]; set_unfold; split; intros; try lia; naive_solver.
  - intros [|[|p]] Hp; [vm_compute; discriminate..|lia].
  - intros [|[|p]] Hp; [lia|set_solver|lia].
Qed.

Lemma runtime_shutdown_reclaims_witness :
  (fiber <$> tasks (rt (after 2 both_parked)) !! 1%nat = Some (Some 0%nat) /\ fiber <$> tasks (rt (after 2 both_parked)) !! 2%nat = Some (Some 1%nat)) /\
  exists w', vl_runtime_shutdown (mk_init_env true true true true true (fun _ => true) (fun _ => 4) (fun _ => true) (fun _ => true) (fun _ => true))
    outside false parked_life = Some (tt, w') /\ lf_held w' = ∅ /\ tasks (lf_rt w') = ∅.
Proof.
  split; [split; vm_compute; reflexivity|].
  destruct (runtime_shutdown_reclaims 2 0 24 (after 2 both_parked)
    (mk_init_env true true true true true (fun _ => true) (fun _ => 4) (fun _ => true) (fun _ => true) (fun _ => true)) outside false parked_life)
    as (w' & Hr & Hh & Ht & _).
  - lia.
  - exact both_parked_reachable.
  - unfold W64; lia.
  - reflexivity.
  - exact parked_life_built.
  - vm_compute. reflexivity.
  - reflexivity.
  - right. reflexivity.
  - exists w'. split; [exact Hr|]. split; [exact Hh|exact Ht].
Defined.
