(* ===== verification/Sync.v ===== *)
(** * Synchronisation objects (src/sync/)

    Semaphores, task mutexes, wait groups and channels park the calling task on
    an intrusive wait queue and hand over to the longest waiting task.  An
    operation takes the object ([None] where the handle or its [impl] is NULL),
    runs the critical section under the runtime's mutex and returns the object
    with the result.  [Suspend] is the place where the code calls
    [vl_sync_resume_result]: the task parks, and once resumed the call returns
    the task's [wait_result] ([vl_sync_resume_result] below).  The [runtime] an
    object belongs to is the one runtime of the model. *)

From S2P Require Import Prelude Intrusive RunQueue TimerHeap RuntimeState Task.
From stdpp Require Import options.

(** ** sync_internal.h *)

Definition vl_sync_wait_push (q : iqueue) (task : nat) : R iqueue := fun r =>
  match iq_push waiter_link q task (tasks r) with
  | Some (q, m) => Some (q, set_tasks m r)
  | None => None
  end.

Definition vl_sync_wait_pop (q : iqueue) : R (option nat * iqueue) := fun r =>
  match iq_pop waiter_link q (tasks r) with
  | Some (task, q, m) => Some ((task, q), set_tasks m r)
  | None => None
  end.

(** [None] is VL_ERROR_INVALID_STATE. *)
Definition vl_sync_current (th : thread) : R (option (nat * nat)) :=
  match vl_current_p th with
  | None => mret None
  | Some p =>
      x ← load_p p;
      match current x with
      | None => mret None
      | Some task => _ ← load_task task; mret (Some (p, task))
      end
  end.

Definition vl_sync_park_locked (p task : nat) : R vl_status :=
  t ← load_task task;
  if bool_decide (state t <> VL_TASK_RUNNING) || negb (executing t)
  then mret VL_ERROR_INVALID_STATE else
  _ ← upd_task task (set_state VL_TASK_WAITING);
  _ ← upd_task task (set_wait_result VL_OK);
  _ ← bump_stat parks set_parks 1;
  _ ← bump_p_stat p p_parks set_p_parks 1;
  mret VL_OK.

(** After [vl_task_commit_park] has returned. *)
Definition vl_sync_resume_result (task : nat) : R vl_status :=
  t ← load_task task;
  mret (wait_result t).

(** What every hand-over does to the task it releases. *)
Definition release (task : nat) (f : vl_task -> vl_task) (result : vl_status) : R unit :=
  _ ← upd_task task f;
  _ ← upd_task task (set_wait_result result);
  vl_task_wake_locked (Some task).

(** [while ((waiter = vl_sync_wait_pop(q)) != NULL) ...]: returns whether a task was released. *)
Fixpoint release_all (fuel : nat) (f : vl_task -> vl_task) (result : vl_status) (wake : bool) (q : iqueue)
    : R (iqueue * bool) :=
  popped ← vl_sync_wait_pop q;
  match popped with
  | (None, q) => mret (q, wake)
  | (Some waiter, q) =>
      match fuel with
      | O => ub
      | S fuel =>
          _ ← release waiter f result;
          release_all fuel f result true q
      end
  end.

Definition drain (f : vl_task -> vl_task) (result : vl_status) (wake : bool) (q : iqueue) : R (iqueue * bool) :=
  n ← gets (fun r => size (tasks r));
  release_all n f result wake q.

(** [init]: the handle is given and unused, the runtime is given, [calloc] succeeds or not. *)
Definition init_object {O} (handle_given : bool) (handle : option O) (runtime_given calloc_ok : bool) (fresh : O)
    : vl_status * option O :=
  if negb handle_given || bool_decide (is_Some handle) || negb runtime_given
  then (VL_ERROR_INVALID_ARGUMENT, handle) else
  if negb calloc_ok then (VL_ERROR_OUT_OF_MEMORY, handle) else (VL_OK, Some fresh).

(** ** semaphore.c *)

Record vl_semaphore_impl := mk_semaphore { permits : Z; sem_waiters : iqueue }.

Definition vl_semaphore_init (handle_given : bool) (handle : option vl_semaphore_impl)
    (runtime_given calloc_ok : bool) (n : Z) : vl_status * option vl_semaphore_impl :=
  init_object handle_given handle runtime_given calloc_ok (mk_semaphore n empty_queue).

Definition vl_semaphore_wait (th : thread) (semaphore : option vl_semaphore_impl)
    : R (outcome vl_status * option vl_semaphore_impl) :=
  match semaphore with
  | None => mret (Return VL_ERROR_INVALID_STATE, semaphore)
  | Some impl =>
      cur ← vl_sync_current th;
      match cur with
      | None => mret (Return VL_ERROR_INVALID_STATE, semaphore)
      | Some (p, task) =>
          if negb (permits impl =? 0) then
            mret (Return VL_OK, Some (mk_semaphore (w64 (permits impl - 1)) (sem_waiters impl)))
          else
          parked ← vl_sync_park_locked p task;
          if bool_decide (parked <> VL_OK) then mret (Return VL_ERROR_INVALID_STATE, semaphore) else
          q ← vl_sync_wait_push (sem_waiters impl) task;
          mret (Suspend, Some (mk_semaphore (permits impl) q))
      end
  end.

Definition vl_semaphore_post (semaphore : option vl_semaphore_impl)
    : R (vl_status * option vl_semaphore_impl) :=
  match semaphore with
  | None => mret (VL_ERROR_INVALID_ARGUMENT, semaphore)
  | Some impl =>
      popped ← vl_sync_wait_pop (sem_waiters impl);
      match popped with
      | (Some waiter, q) =>
          _ ← release waiter id VL_OK;
          _ ← vl_runtime_wake_workers;
          mret (VL_OK, Some (mk_semaphore (permits impl) q))
      | (None, q) =>
          if permits impl =? SIZE_MAX then mret (VL_ERROR_INVALID_STATE, Some (mk_semaphore (permits impl) q))
          else mret (VL_OK, Some (mk_semaphore (w64 (permits impl + 1)) q))
      end
  end.

Definition vl_semaphore_destroy (semaphore : option vl_semaphore_impl) : vl_status * option vl_semaphore_impl :=
  match semaphore with
  | None => (VL_ERROR_INVALID_ARGUMENT, None)
  | Some impl =>
      if negb (q_length (sem_waiters impl) =? 0) then (VL_ERROR_INVALID_STATE, semaphore)
      else (VL_OK, None)
  end.

(** ** task_mutex.c *)

Record vl_task_mutex_impl := mk_task_mutex { owner : option nat; mutex_waiters : iqueue }.

Definition vl_task_mutex_init (handle_given : bool) (handle : option vl_task_mutex_impl)
    (runtime_given calloc_ok : bool) : vl_status * option vl_task_mutex_impl :=
  init_object handle_given handle runtime_given calloc_ok (mk_task_mutex None empty_queue).

Definition vl_task_mutex_lock (th : thread) (mutex : option vl_task_mutex_impl)
    : R (outcome vl_status * option vl_task_mutex_impl) :=
  match mutex with
  | None => mret (Return VL_ERROR_INVALID_STATE, mutex)
  | Some impl =>
      cur ← vl_sync_current th;
      match cur with
      | None => mret (Return VL_ERROR_INVALID_STATE, mutex)
      | Some (p, task) =>
          match owner impl with
          | None => mret (Return VL_OK, Some (mk_task_mutex (Some task) (mutex_waiters impl)))
          | Some o =>
              if decide (o = task) then mret (Return VL_ERROR_INVALID_STATE, mutex) else
              parked ← vl_sync_park_locked p task;
              if bool_decide (parked <> VL_OK) then mret (Return VL_ERROR_INVALID_STATE, mutex) else
              q ← vl_sync_wait_push (mutex_waiters impl) task;
              mret (Suspend, Some (mk_task_mutex (owner impl) q))
          end
      end
  end.

Definition vl_task_mutex_unlock (th : thread) (mutex : option vl_task_mutex_impl)
    : R (vl_status * option vl_task_mutex_impl) :=
  match mutex with
  | None => mret (VL_ERROR_INVALID_STATE, mutex)
  | Some impl =>
      cur ← vl_sync_current th;
      match cur with
      | None => mret (VL_ERROR_INVALID_STATE, mutex)
      | Some (_, task) =>
          if bool_decide (owner impl <> Some task) then mret (VL_ERROR_INVALID_STATE, mutex) else
          popped ← vl_sync_wait_pop (mutex_waiters impl);
          _ ← match popped.1 with
              | Some next => _ ← release next id VL_OK; vl_runtime_wake_workers
              | None => mret tt
              end;
          mret (VL_OK, Some (mk_task_mutex popped.1 popped.2))
      end
  end.

Definition vl_task_mutex_destroy (mutex : option vl_task_mutex_impl) : vl_status * option vl_task_mutex_impl :=
  match mutex with
  | None => (VL_ERROR_INVALID_ARGUMENT, None)
  | Some impl =>
      if bool_decide (owner impl <> None) || negb (q_length (mutex_waiters impl) =? 0)
      then (VL_ERROR_INVALID_STATE, mutex) else (VL_OK, None)
  end.

(** ** wait_group.c *)

Record vl_wait_group_impl := mk_wait_group { wg_count : Z; wg_waiters : iqueue }.

Definition vl_wait_group_init (handle_given : bool) (handle : option vl_wait_group_impl)
    (runtime_given calloc_ok : bool) : vl_status * option vl_wait_group_impl :=
  init_object handle_given handle runtime_given calloc_ok (mk_wait_group 0 empty_queue).

(** [(size_t)(-(delta + 1)) + 1]. *)
Definition magnitude (delta : Z) : Z := w64 (w64 (- (delta + 1)) + 1).

Definition vl_wait_group_add (delta : Z) (group : option vl_wait_group_impl)
    : R (vl_status * option vl_wait_group_impl) :=
  match group with
  | None => mret (VL_ERROR_INVALID_ARGUMENT, group)
  | Some impl =>
      if ((delta <? 0) && (wg_count impl <? magnitude delta)) ||
         ((0 <? delta) && (w64 (SIZE_MAX - wg_count impl) <? w64 delta)) ||
         ((0 <? delta) && negb (q_length (wg_waiters impl) =? 0))
      then mret (VL_ERROR_INVALID_STATE, group) else
      let count := if delta <? 0 then w64 (wg_count impl - magnitude delta)
                   else w64 (wg_count impl + w64 delta) in
      drained ← (if count =? 0 then drain id VL_OK false (wg_waiters impl)
                 else mret (wg_waiters impl, false));
      _ ← (if (drained.2 : bool) then vl_runtime_wake_workers else mret tt);
      mret (VL_OK, Some (mk_wait_group count drained.1))
  end.

Definition vl_wait_group_done (group : option vl_wait_group_impl) : R (vl_status * option vl_wait_group_impl) :=
  vl_wait_group_add (-1) group.

Definition vl_wait_group_wait (th : thread) (group : option vl_wait_group_impl)
    : R (outcome vl_status * option vl_wait_group_impl) :=
  match group with
  | None => mret (Return VL_ERROR_INVALID_STATE, group)
  | Some impl =>
      cur ← vl_sync_current th;
      match cur with
      | None => mret (Return VL_ERROR_INVALID_STATE, group)
      | Some (p, task) =>
          if wg_count impl =? 0 then mret (Return VL_OK, group) else
          parked ← vl_sync_park_locked p task;
          if bool_decide (parked <> VL_OK) then mret (Return VL_ERROR_INVALID_STATE, group) else
          q ← vl_sync_wait_push (wg_waiters impl) task;
          mret (Suspend, Some (mk_wait_group (wg_count impl) q))
      end
  end.

Definition vl_wait_group_destroy (group : option vl_wait_group_impl) : vl_status * option vl_wait_group_impl :=
  match group with
  | None => (VL_ERROR_INVALID_ARGUMENT, None)
  | Some impl =>
      if negb (wg_count impl =? 0) || negb (q_length (wg_waiters impl) =? 0)
      then (VL_ERROR_INVALID_STATE, group) else (VL_OK, None)
  end.

(** ** channel.c

    [buffer] holds [capacity] pointers ([] for the NULL buffer of capacity 0). *)

Record vl_channel_impl := mk_channel {
  buffer : list Z;
  ch_capacity : Z;
  ch_head : Z;
  ch_length : Z;
  closed : bool;
  senders : iqueue;
  receivers : iqueue }.

Definition with_buffer (b : list Z) (head len : Z) (c : vl_channel_impl) : vl_channel_impl :=
  mk_channel b (ch_capacity c) head len (closed c) (senders c) (receivers c).
Definition set_senders (q : iqueue) (c : vl_channel_impl) : vl_channel_impl :=
  mk_channel (buffer c) (ch_capacity c) (ch_head c) (ch_length c) (closed c) q (receivers c).
Definition set_receivers (q : iqueue) (c : vl_channel_impl) : vl_channel_impl :=
  mk_channel (buffer c) (ch_capacity c) (ch_head c) (ch_length c) (closed c) (senders c) q.
Definition set_closed (b : bool) (c : vl_channel_impl) : vl_channel_impl :=
  mk_channel (buffer c) (ch_capacity c) (ch_head c) (ch_length c) b (senders c) (receivers c).

(** [None]: a division by zero or an access outside the buffer. *)
Definition vl_channel_buffer_push (c : vl_channel_impl) (value : Z) : option vl_channel_impl :=
  if ch_capacity c =? 0 then None else
  let tail := w64 (ch_head c + ch_length c) mod ch_capacity c in
  _ ← buffer c !! Z.to_nat tail;
  Some (with_buffer (<[Z.to_nat tail := value]> (buffer c)) (ch_head c) (w64 (ch_length c + 1)) c).

Definition vl_channel_buffer_pop (c : vl_channel_impl) : option (Z * vl_channel_impl) :=
  value ← buffer c !! Z.to_nat (ch_head c);
  if ch_capacity c =? 0 then None else
  Some (value, with_buffer (buffer c) (w64 (ch_head c + 1) mod ch_capacity c) (w64 (ch_length c - 1)) c).

Definition lift {A} (o : option A) : R A := fun r =>
  match o with Some a => Some (a, r) | None => None end.

(** [*out = value]. *)
Definition store_cell (out : option nat) (value : Z) : R unit := fun r =>
  match out with
  | Some c =>
      match cells r !! c with
      | Some _ => Some (tt, set_cells (<[c := value]> (cells r)) r)
      | None => None
      end
  | None => None
  end.

Definition vl_channel_init (handle_given : bool) (handle : option vl_channel_impl)
    (runtime_given calloc_ok buffer_ok : bool) (capacity : Z) : vl_status * option vl_channel_impl :=
  if negb handle_given || bool_decide (is_Some handle) || negb runtime_given || (SIZE_MAX / 8 <? capacity)
  then (VL_ERROR_INVALID_ARGUMENT, handle) else
  if negb calloc_ok then (VL_ERROR_OUT_OF_MEMORY, handle) else
  if negb (capacity =? 0) && negb buffer_ok then (VL_ERROR_OUT_OF_MEMORY, handle) else
  (VL_OK, Some (mk_channel (replicate (Z.to_nat capacity) 0) capacity 0 0 false empty_queue empty_queue)).

Definition vl_channel_send (th : thread) (value : Z) (channel : option vl_channel_impl)
    : R (outcome vl_status * option vl_channel_impl) :=
  match channel with
  | None => mret (Return VL_ERROR_INVALID_STATE, channel)
  | Some impl =>
      cur ← vl_sync_current th;
      match cur with
      | None => mret (Return VL_ERROR_INVALID_STATE, channel)
      | Some (p, task) =>
          if closed impl then mret (Return VL_ERROR_CLOSED, channel) else
          popped ← vl_sync_wait_pop (receivers impl);
          match popped with
          | (Some receiver, q) =>
              t ← load_task receiver;
              _ ← store_cell (wait_output t) value;
              _ ← release receiver (set_wait_output None) VL_OK;
              _ ← vl_runtime_wake_workers;
              mret (Return VL_OK, Some (set_receivers q impl))
          | (None, q) =>
              let impl := set_receivers q impl in
              if ch_length impl <? ch_capacity impl then
                impl ← lift (vl_channel_buffer_push impl value);
                mret (Return VL_OK, Some impl)
              else
              parked ← vl_sync_park_locked p task;
              if bool_decide (parked <> VL_OK) then mret (Return VL_ERROR_INVALID_STATE, Some impl) else
              _ ← upd_task task (set_wait_value value);
              q ← vl_sync_wait_push (senders impl) task;
              mret (Suspend, Some (set_senders q impl))
          end
      end
  end.

Definition vl_channel_receive (th : thread) (out : option nat) (channel : option vl_channel_impl)
    : R (outcome vl_status * option vl_channel_impl) :=
  match channel, out with
  | None, _ | _, None => mret (Return VL_ERROR_INVALID_STATE, channel)
  | Some impl, Some _ =>
      cur ← vl_sync_current th;
      match cur with
      | None => mret (Return VL_ERROR_INVALID_STATE, channel)
      | Some (p, task) =>
          if negb (ch_length impl =? 0) then
            got ← lift (vl_channel_buffer_pop impl);
            _ ← store_cell out got.1;
            popped ← vl_sync_wait_pop (senders got.2);
            match popped with
            | (Some sender, q) =>
                t ← load_task sender;
                impl ← lift (vl_channel_buffer_push (set_senders q got.2) (wait_value t));
                _ ← release sender (set_wait_value 0) VL_OK;
                _ ← vl_runtime_wake_workers;
                mret (Return VL_OK, Some impl)
            | (None, q) => mret (Return VL_OK, Some (set_senders q got.2))
            end
          else
          popped ← vl_sync_wait_pop (senders impl);
          match popped with
          | (Some sender, q) =>
              t ← load_task sender;
              _ ← store_cell out (wait_value t);
              _ ← release sender (set_wait_value 0) VL_OK;
              _ ← vl_runtime_wake_workers;
              mret (Return VL_OK, Some (set_senders q impl))
          | (None, q) =>
              let impl := set_senders q impl in
              if closed impl then mret (Return VL_ERROR_CLOSED, Some impl) else
              parked ← vl_sync_park_locked p task;
              if bool_decide (parked <> VL_OK) then mret (Return VL_ERROR_INVALID_STATE, Some impl) else
              _ ← upd_task task (set_wait_output out);
              q ← vl_sync_wait_push (receivers impl) task;
              mret (Suspend, Some (set_receivers q impl))
          end
      end
  end.

Definition vl_channel_close (channel : option vl_channel_impl) : R (vl_status * option vl_channel_impl) :=
  match channel with
  | None => mret (VL_ERROR_INVALID_ARGUMENT, channel)
  | Some impl =>
      if closed impl then mret (VL_ERROR_CLOSED, channel) else
      let impl := set_closed true impl in
      s ← drain (set_wait_value 0) VL_ERROR_CLOSED false (senders impl);
      v ← drain (set_wait_output None) VL_ERROR_CLOSED s.2 (receivers impl);
      _ ← (if (v.2 : bool) then vl_runtime_wake_workers else mret tt);
      mret (VL_OK, Some (set_receivers v.1 (set_senders s.1 impl)))
  end.

Definition vl_channel_destroy (channel : option vl_channel_impl) : vl_status * option vl_channel_impl :=
  match channel with
  | None => (VL_ERROR_INVALID_ARGUMENT, None)
  | Some impl =>
      if negb (q_length (senders impl) =? 0) || negb (q_length (receivers impl) =? 0)
      then (VL_ERROR_INVALID_STATE, channel) else (VL_OK, None)
  end.
