(* ===== verification/SyncWait.v ===== *)
(** * Wait queues, parking and hand-over

    The lemmas the four synchronisation objects share: what parking on a wait
    queue and releasing a waiter do to the tasks, and that they keep the
    scheduler's invariant. *)

From S2P Require Import Prelude Intrusive RunQueue TimerHeap RuntimeState Task Timer Worker Scheduler SchedulerInv SchedulerSteps Sync.
From stdpp Require Import options.

(** [W] waits on the queue [q], longest waiting first. *)
Record waits (r : vl_runtime_impl) (q : iqueue) (W : list nat) : Prop := {
  waits_repr : iq_repr waiter_link (tasks r) q W;
  waits_parked : forall i, i ∈ W -> exists t, tasks r !! i = Some t /\ state t = VL_TASK_WAITING }.

(** The calling thread runs task [i] on P [p]. *)
Record runs (th : thread) (p i : nat) (t : vl_task) (r : vl_runtime_impl) : Prop := {
  runs_p : th_p th = Some p;
  runs_current : current <$> ps r !! p = Some (Some i);
  runs_task : tasks r !! i = Some t;
  runs_state : state t = VL_TASK_RUNNING;
  runs_exec : executing t = true }.

(** What waking makes of a waiting task. *)
Definition wake_of (t : vl_task) : vl_task :=
  if executing t then set_wake_pending true t else set_queued true (set_state VL_TASK_RUNNABLE t).

Definition released (f : vl_task -> vl_task) (result : vl_status) (t : vl_task) : vl_task :=
  wake_of (set_wait_result result (f (set_waiter_next None t))).

Definition parked_as (g : vl_task -> vl_task) (t : vl_task) : vl_task :=
  set_waiter_next None (g (set_wait_result VL_OK (set_state VL_TASK_WAITING t))).

(** A task up to its run-queue link, and up to both links. *)
Definition sans_queue (t : vl_task) : vl_task := forget queue_link t.
Definition sans_links (t : vl_task) : vl_task := forget waiter_link (forget queue_link t).

(** Only the tasks of [X] changed, apart from links; the wait links of tasks
    outside [X] and [W] did not change either. *)
Record touched (X W : list nat) (r r' : vl_runtime_impl) : Prop := {
  touched_view : forall j, j ∉ X -> sans_links <$> tasks r' !! j = sans_links <$> tasks r !! j;
  touched_wait : forall j, j ∉ X -> j ∉ W -> sans_queue <$> tasks r' !! j = sans_queue <$> tasks r !! j }.

(** The tasks of [ws] were released with [result]. *)
Definition handed (f : vl_task -> vl_task) (result : vl_status) (ws : list nat) (r r' : vl_runtime_impl) : Prop :=
  forall w t, w ∈ ws -> tasks r !! w = Some t ->
  exists t', tasks r' !! w = Some t' /\ sans_queue t' = sans_queue (released f result t).

(** An update that neither the scheduler nor the wait queues see. *)
Record quiet (f : vl_task -> vl_task) : Prop := {
  quiet_core : forall t, core (f t) = core t;
  quiet_queue : forall t, queue_next (f t) = queue_next t;
  quiet_wait : forall t, waiter_next (f t) = waiter_next t;
  quiet_sans : forall t t', sans_queue t = sans_queue t' -> sans_queue (f t) = sans_queue (f t') }.

#[local] Ltac quiet_solve :=
  split; [by intros []..|]; intros [] [];
  unfold sans_queue, forget; simpl; intros [=]; subst; reflexivity.

Lemma quiet_id : quiet id.
Proof. quiet_solve. Qed.
Lemma quiet_value v : quiet (set_wait_value v).
Proof. quiet_solve. Qed.
Lemma quiet_output v : quiet (set_wait_output v).
Proof. quiet_solve. Qed.
Lemma quiet_result v : quiet (set_wait_result v).
Proof. quiet_solve. Qed.

#[export] Hint Resolve quiet_id quiet_value quiet_output quiet_result : veloco.

Lemma touched_refl X W r : touched X W r r.
Proof. by split. Qed.

Lemma touched_trans X Y W r1 r2 r3 : touched X W r1 r2 -> touched Y W r2 r3 -> touched (X ++ Y) W r1 r3.
Proof.
  intros [A1 A2] [B1 B2]. split.
  - intros j Hj. rewrite B1, A1; set_solver.
  - intros j Hj Hw. rewrite B2, A2; set_solver.
Qed.

Lemma sans_queue_eq t t' : sans_queue t' = sans_queue t ->
  state t' = state t /\ waiter_next t' = waiter_next t /\ wait_value t' = wait_value t /\
  wait_output t' = wait_output t /\ wait_result t' = wait_result t /\ executing t' = executing t.
Proof. destruct t, t'. unfold sans_queue, forget. simpl. intros [=]. subst. repeat split. Qed.

(** A wait queue none of whose members changed. *)
Lemma waits_frame r r' q W : waits r q W ->
  (forall j, j ∈ W -> sans_queue <$> tasks r' !! j = sans_queue <$> tasks r !! j) -> waits r' q W.
Proof.
  intros [Hr Hp] Hf.
  assert (Hf' : forall j t, j ∈ W -> tasks r !! j = Some t ->
    exists t', tasks r' !! j = Some t' /\ sans_queue t' = sans_queue t).
  { intros j t Hj Ht. specialize (Hf j Hj). rewrite Ht in Hf. simpl in Hf.
    apply fmap_Some in Hf as (t' & E & Ht'). eauto. }
  split.
  - eapply iq_repr_frame; [done|]. intros j t Hj Ht. destruct (Hf' j t Hj Ht) as (t' & E & Ht').
    exists t'. split; [done|]. apply sans_queue_eq in Ht' as (_ & Hn & _). exact Hn.
  - intros j Hj. destruct (Hp j Hj) as (t & Ht & Hs). destruct (Hf' j t Hj Ht) as (t' & E & Ht').
    exists t'. split; [done|]. apply sans_queue_eq in Ht' as [-> _]. done.
Qed.

Lemma waits_touched X r r' q W : waits r q W -> touched X [] r r' -> (forall j, j ∈ W -> j ∉ X) -> waits r' q W.
Proof. intros H [_ Ht] Hd. eapply waits_frame; [done|]. intros j Hj. apply Ht; [by apply Hd|by intros ?%elem_of_nil]. Qed.

Lemma waits_empty r : waits r empty_queue [].
Proof. split; [apply iq_repr_empty|]. by intros i ?%elem_of_nil. Qed.

Lemma waits_not_running r q W i t : waits r q W -> tasks r !! i = Some t -> state t = VL_TASK_RUNNING -> i ∉ W.
Proof. intros [_ Hp] Ht Hs Hi. destruct (Hp i Hi) as (t' & Ht' & Hs'). congruence. Qed.

(** ** Calls of the helpers *)

Lemma sync_current_run th p i t r : runs th p i t r -> vl_sync_current th r = Some (Some (p, i), r).
Proof.
  intros [Hp Hc Ht _ _]. unfold vl_sync_current, vl_current_p. rewrite Hp.
  destruct (ps r !! p) as [x|] eqn:Hx; simplify_eq/=.
  unfold load_p. rewrite (bind_Some (deref _) _ r x r) by (unfold deref; by rewrite Hx).
  rewrite Hc. by rewrite (bind_Some _ _ _ _ _ (load_task_run _ _ _ Ht)).
Qed.

Lemma keeps_wait_push q i : keeps (vl_sync_wait_push q i).
Proof.
  intros lost B l r q' r' HI E. unfold vl_sync_wait_push, iq_push, store_next in E.
  destruct (tasks r !! i) as [t|] eqn:Ht; [|done]. simpl in E.
  set (r1 := set_tasks (<[i := set_waiter_next None t]> (tasks r)) r).
  assert (H1 : Inv lost B l r1).
  { eapply (keeps_upd_task i (set_waiter_next None)); [by intros []..|exact HI|]. by apply upd_task_run. }
  destruct (q_tail q) as [tl|]; [|by simplify_eq].
  destruct (_ !! tl) as [u|] eqn:Hu; [|done]. simplify_eq/=.
  eapply (keeps_upd_task tl (set_waiter_next (Some i))); [by intros []..|exact H1|].
  by rewrite (upd_task_run _ _ _ u).
Qed.

Lemma keeps_wait_pop q : keeps (vl_sync_wait_pop q).
Proof.
  intros lost B l r [w q'] r' HI E. unfold vl_sync_wait_pop, iq_pop, store_next in E.
  destruct (q_head q) as [i|]; [|by simplify_eq; destruct r]. destruct (tasks r !! i) as [t|] eqn:Ht; [|done].
  simplify_eq/=. eapply (keeps_upd_task i (set_waiter_next None)); [by intros []..|exact HI|]. by apply upd_task_run.
Qed.

Lemma Inv_sync_park {lost} B l r p i a r' : Inv lost B l r -> vl_sync_park_locked p i r = Some (a, r') -> Inv lost B l r'.
Proof.
  intros HI E. unfold vl_sync_park_locked in E. minv_step. minv_step. case_match; [by minv|].
  match goal with H : _ || _ = false |- _ => apply orb_false_iff in H as [Hs%not_running_false _] end.
  eapply Inv_park in E; eauto; [by right; left|]. keeps_solve.
Qed.

Lemma keeps_sync_park p i : keeps (vl_sync_park_locked p i).
Proof. intros lost B l r a r'. apply Inv_sync_park. Qed.

Lemma keeps_quiet i f : quiet f -> keeps (upd_task i f).
Proof. intros [? ? ? ?]. by apply keeps_upd_task. Qed.

Lemma sync_park_run th p i t r : runs th p i t r ->
  exists r', vl_sync_park_locked p i r = Some (VL_OK, r') /\
    tasks r' = <[i := set_wait_result VL_OK (set_state VL_TASK_WAITING t)]> (tasks r) /\
    cells r' = cells r.
Proof.
  intros [Hp Hc Ht Hs He]. destruct (ps r !! p) as [x|] eqn:Hx; simplify_eq/=. unfold vl_sync_park_locked.
  rewrite (bind_Some _ _ _ _ _ (load_task_run _ _ _ Ht)), Hs, He. simpl.
  rewrite (bind_Some _ _ _ _ _ (upd_task_run _ _ _ _ Ht)).
  erewrite bind_Some by (apply upd_task_run, lookup_insert_eq).
  unfold bump_stat, bump_p_stat. erewrite bind_Some by done.
  erewrite bind_Some by (by apply upd_p_run). eexists. split; [done|]. simpl.
  by rewrite insert_insert_eq.
Qed.

(** Parking the running task at the end of a wait queue. *)
Lemma park_push_run {lost} th p i t r B l q W g : Inv lost B l r -> runs th p i t r -> waits r q W -> quiet g ->
  exists r1 r2 q' r', vl_sync_park_locked p i r = Some (VL_OK, r1) /\
    upd_task i g r1 = Some (tt, r2) /\
    vl_sync_wait_push q i r2 = Some (q', r') /\
    Inv lost B l r' /\ waits r' q' (W ++ [i]) /\ touched [i] W r r' /\ cells r' = cells r /\
    tasks r' !! i = Some (parked_as g t).
Proof.
  intros HI Hr Hw Hg. pose proof (waits_not_running _ _ _ _ _ Hw (runs_task _ _ _ _ _ Hr) (runs_state _ _ _ _ _ Hr)) as Hi.
  destruct (sync_park_run _ _ _ _ _ Hr) as (r1 & E1 & Hm1 & Hc1).
  assert (HI1 : Inv lost B l r1) by by eapply Inv_sync_park.
  set (t1 := set_wait_result VL_OK (set_state VL_TASK_WAITING t)) in *.
  assert (Ht1 : tasks r1 !! i = Some t1) by by rewrite Hm1, lookup_insert_eq.
  pose proof (upd_task_run i g r1 t1 Ht1) as E2. rewrite Hm1 in E2. rewrite insert_insert_eq in E2.
  set (r2 := set_tasks (<[i := g t1]> (tasks r)) r1) in *.
  assert (HI2 : Inv lost B l r2) by (by eapply (keeps_quiet i g)).
  assert (Hw2 : iq_repr waiter_link (tasks r2) q W).
  { eapply iq_repr_frame; [apply Hw|]. intros j u Hj Hu. exists u. split; [|done]. simpl.
    rewrite lookup_insert_ne; [done|]. by intros <-. }
  destruct (iq_push_spec waiter_link (tasks r2) q W i (g t1) Hw2 Hi) as (q' & m' & E3 & Hrep & Hup & Hfr).
  { apply lookup_insert_eq. }
  exists r1, r2, q', (set_tasks m' r2). split; [done|]. split; [done|].
  assert (E3' : vl_sync_wait_push q i r2 = Some (q', set_tasks m' r2)) by (unfold vl_sync_wait_push; by rewrite E3).
  split; [done|]. split; [by eapply keeps_wait_push|].
  assert (Hview : forall j u, tasks r2 !! j = Some u -> exists v, m' !! j = Some (set_waiter_next v u)).
  { intros j u Hj. by destruct (upto_lookup waiter_link _ _ _ _ Hup Hj) as (v & Hv); exists v. }
  assert (Hlast : m' !! i = Some (parked_as g t)).
  { destruct (Hview i (g t1)) as (v & Hv); [apply lookup_insert_eq|]. rewrite Hv. f_equal.
    unfold iq_push, store_next in E3. unfold parked_as. fold t1.
    simpl in E3. rewrite lookup_insert_eq in E3. simpl in E3. rewrite insert_insert_eq in E3.
    destruct (q_tail q) as [tl|] eqn:Htl.
    - destruct (_ !! tl) as [u|] eqn:Hu; simplify_eq/=.
      destruct (decide (tl = i)) as [->|Hne].
      + rewrite (iq_tail _ _ _ _ Hw2) in Htl. apply last_Some in Htl as (W' & ->). set_solver.
      + rewrite lookup_insert_ne, lookup_insert_eq in Hv by done. congruence.
    - simplify_eq/=. rewrite lookup_insert_eq in Hv. congruence. }
  split; [|split; [|done]].
  - split; simpl; [done|]. intros j Hj. apply elem_of_app in Hj as [Hj|Hj].
    + destruct (waits_parked _ _ _ Hw j Hj) as (u & Hu & Hsu).
      destruct (Hview j u) as (v & Hv); [|by exists (set_waiter_next v u)].
      simpl. rewrite lookup_insert_ne; [done|]. by intros <-.
    + apply list_elem_of_singleton in Hj as ->. exists (parked_as g t). split; [done|].
      unfold parked_as. simpl. pose proof (quiet_core _ Hg t1) as Hq. unfold core in Hq. by simplify_eq.
  - assert (Hold : forall j, j ∉ [i] -> tasks r2 !! j = tasks r !! j).
    { intros j Hj. simpl. rewrite lookup_insert_ne; [done|]. intros <-. set_solver. }
    split; simpl; intros j Hj; rewrite <- (Hold j Hj).
    + destruct (tasks r2 !! j) as [u|] eqn:Hu.
      * destruct (Hview j u Hu) as (v & ->). simpl. by destruct u.
      * by rewrite (proj1 (upto_None waiter_link _ _ j Hup)).
    + intros Hj'. f_equal. apply Hfr; set_solver.
Qed.

(** ** Release *)

Lemma keeps_release w f res : quiet f -> keeps (release w f res).
Proof.
  intros Hf. unfold release. apply keeps_bind; [by apply keeps_quiet|]. intros _.
  apply keeps_bind; [apply keeps_quiet; auto with veloco|]. intros _. apply keeps_wake.
Qed.

(** Waking a waiting task: the task itself, everything else, and the rest of the runtime. *)
Lemma wake_effect {lost} B l r w t : Inv lost B l r -> tasks r !! w = Some t -> state t = VL_TASK_WAITING ->
  exists r' t', vl_task_wake_locked (Some w) r = Some (tt, r') /\
    tasks r' !! w = Some t' /\ sans_queue t' = sans_queue (wake_of t) /\
    (forall j, j <> w -> sans_queue <$> tasks r' !! j = sans_queue <$> tasks r !! j) /\
    size (tasks r') = size (tasks r) /\ cells r' = cells r /\ ps r' = ps r.
Proof.
  intros (G & L & loc & HI) Ht Hs. destruct (wake_run B l r G L loc w t HI Ht) as (r' & E & H).
  destruct H as [[Hp _]|[(_ & Hex & -> & _)|(_ & Hex & q & m & -> & Hup & _)]].
  - destruct Hp. by left.
  - eexists _, _. split; [exact E|]. split; [apply lookup_insert_eq|]. unfold wake_of. rewrite Hex.
    split; [done|]. split; [|split; [|done]].
    + intros j Hj. simpl. by rewrite lookup_insert_ne.
    + simpl. by rewrite map_size_insert_Some by by rewrite Ht.
  - destruct (upto_lookup queue_link _ _ w _ Hup (lookup_insert_eq _ _ _)) as (v & Hv).
    eexists _, _. split; [exact E|]. split; [exact Hv|]. unfold wake_of. rewrite Hex.
    split; [by destruct t|]. split; [|split; [|done]].
    + intros j Hj. unfold upto in Hup. apply (f_equal (lookup j)) in Hup. rewrite !lookup_fmap in Hup.
      change sans_queue with (forget queue_link). simpl. rewrite <- Hup. by rewrite lookup_insert_ne.
    + simpl. apply (f_equal size) in Hup. rewrite !map_size_fmap in Hup. rewrite <- Hup.
      by rewrite map_size_insert_Some by by rewrite Ht.
Qed.

Lemma wake_of_sans t t' : sans_queue t = sans_queue t' -> sans_queue (wake_of t) = sans_queue (wake_of t').
Proof.
  destruct t, t'. unfold sans_queue, wake_of, forget. simpl. intros [=]. subst. by destruct executing0.
Qed.

Lemma release_run {lost} B l r w t f res : Inv lost B l r -> tasks r !! w = Some t -> state t = VL_TASK_WAITING ->
  quiet f -> waiter_next t = None ->
  exists r', release w f res r = Some (tt, r') /\ Inv lost B l r' /\ handed f res [w] r r' /\ touched [w] [] r r' /\
    size (tasks r') = size (tasks r) /\ cells r' = cells r /\ ps r' = ps r.
Proof.
  intros HI Ht Hs Hf Hn. unfold release.
  pose proof (upd_task_run w f r t Ht) as E1. set (r1 := set_tasks _ r) in E1.
  assert (Ht1 : tasks r1 !! w = Some (f t)) by apply lookup_insert_eq.
  pose proof (upd_task_run w (set_wait_result res) r1 (f t) Ht1) as E2.
  simpl in E2. rewrite insert_insert_eq in E2. set (r2 := set_tasks _ r1) in E2.
  assert (HI2 : Inv lost B l r2).
  { eapply (keeps_quiet w (set_wait_result res)); [auto with veloco| |exact E2].
    by eapply (keeps_quiet w f). }
  assert (Ht2 : tasks r2 !! w = Some (set_wait_result res (f t))) by apply lookup_insert_eq.
  assert (Hs2 : state (set_wait_result res (f t)) = VL_TASK_WAITING).
  { simpl. pose proof (quiet_core _ Hf t) as Hq. unfold core in Hq. congruence. }
  destruct (wake_effect B l r2 w _ HI2 Ht2 Hs2) as (r' & t' & E3 & Ht' & Hv & Hfr & Hsz & Hc & Hps).
  exists r'. rewrite (bind_Some _ _ _ _ _ E1), (bind_Some _ _ _ _ _ E2). split; [done|].
  split; [by eapply keeps_wake|]. split; [|split; [|split; [|done]]].
  - intros w' u Hw Hu. apply list_elem_of_singleton in Hw as ->. exists t'. split; [done|].
    rewrite Ht in Hu. injection Hu as <-. rewrite Hv. unfold released. f_equal. f_equal. f_equal. f_equal.
    rewrite <- (set_same _ waiter_link t) at 1. simpl. by rewrite Hn.
  - assert (Ho : forall j, j ∉ [w] -> sans_queue <$> tasks r' !! j = sans_queue <$> tasks r !! j).
    { intros j Hj. rewrite Hfr by set_solver. simpl. by rewrite lookup_insert_ne by set_solver. }
    split; [|auto]. intros j Hj. specialize (Ho j Hj).
    apply (f_equal (fmap (forget waiter_link))) in Ho. by rewrite <- !option_fmap_compose in Ho.
  - rewrite Hsz. simpl. by rewrite map_size_insert_Some by by rewrite Ht.
Qed.

Lemma wait_pop_nil r q : waits r q [] -> vl_sync_wait_pop q r = Some ((None, q), r).
Proof.
  intros [Hr _]. unfold vl_sync_wait_pop. rewrite (iq_pop_nil _ _ _ Hr). by destruct r.
Qed.

Lemma touched_pop w t r : tasks r !! w = Some t ->
  touched [w] [] r (set_tasks (<[w := set_waiter_next None t]> (tasks r)) r).
Proof. intros Ht. split; intros j Hj; simpl; by rewrite lookup_insert_ne by set_solver. Qed.

(** Popping takes the longest waiting task and leaves it waiting, unlinked. *)
Lemma wait_pop_cons {lost} B l r q w W : Inv lost B l r -> waits r q (w :: W) ->
  exists q1 t, let r1 := set_tasks (<[w := set_waiter_next None t]> (tasks r)) r in
    vl_sync_wait_pop q r = Some ((Some w, q1), r1) /\ tasks r !! w = Some t /\ state t = VL_TASK_WAITING /\
    Inv lost B l r1 /\ waits r1 q1 W /\ w ∉ W.
Proof.
  intros HI [Hr Hp]. destruct (iq_pop_cons _ _ _ _ _ Hr) as (q1 & m1 & t & E & Hr1 & Hup & Ht & ->).
  destruct (Hp w) as (t' & Ht' & Hs); [by left|]. rewrite Ht in Ht'. injection Ht' as <-.
  assert (HwW : w ∉ W) by (pose proof (iq_nodup _ _ _ _ Hr) as Hnd; by apply list.NoDup_cons in Hnd as [? _]).
  exists q1, t. cbn zeta.
  assert (E' : vl_sync_wait_pop q r = Some (Some w, q1, set_tasks (<[w:=set_waiter_next None t]> (tasks r)) r)).
  { unfold vl_sync_wait_pop. by rewrite E. }
  split; [done|]. split; [done|]. split; [done|]. split; [by eapply keeps_wait_pop|]. split; [|done].
  split; [done|]. intros i Hi. destruct (Hp i) as (u & Hu & Hsu); [by right|]. exists u. simpl.
  rewrite lookup_insert_ne; [done|]. by intros <-.
Qed.

Lemma handed_pop f res w t r r' : tasks r !! w = Some t ->
  handed f res [w] (set_tasks (<[w := set_waiter_next None t]> (tasks r)) r) r' -> handed f res [w] r r'.
Proof.
  intros Ht H w' u Hw Hu. pose proof Hw as Hw'. apply list_elem_of_singleton in Hw' as ->.
  rewrite Ht in Hu. injection Hu as <-.
  destruct (H w (set_waiter_next None t) Hw) as (t' & Ht' & E); [apply lookup_insert_eq|].
  exists t'. split; [done|]. rewrite E. by destruct t.
Qed.

Lemma touched_weaken X Y W r r' : touched X W r r' -> (forall j, j ∈ X -> j ∈ Y) -> touched Y W r r'.
Proof. intros [A B] H. split; intros j Hj; [apply A|apply B]; auto. Qed.

(** A hand-over to the longest waiting task, after the popping. *)
Lemma release_popped {lost} B l r q w W f res t : let r1 := set_tasks (<[w := set_waiter_next None t]> (tasks r)) r in
  Inv lost B l r1 -> waits r1 q W -> w ∉ W -> tasks r !! w = Some t -> state t = VL_TASK_WAITING -> quiet f ->
  forall r2, tasks r2 = tasks r1 -> Inv lost B l r2 ->
  exists r', release w f res r2 = Some (tt, r') /\ Inv lost B l r' /\ waits r' q W /\
    handed f res [w] r r' /\ touched [w] [] r r' /\ size (tasks r') = size (tasks r) /\
    cells r' = cells r2 /\ ps r' = ps r2.
Proof.
  intros r1 HI Hw HwW Ht Hs Hf r2 Em HI2.
  assert (Ht2 : tasks r2 !! w = Some (set_waiter_next None t)) by (rewrite Em; apply lookup_insert_eq).
  destruct (release_run B l r2 w _ f res HI2 Ht2 Hs Hf eq_refl) as (r' & E & HI' & Hh & Hto & Hsz & Hc & Hps).
  exists r'. split; [done|]. split; [done|].
  assert (Hto1 : touched [w] [] r1 r').
  { destruct Hto as [A1 A2]. split; [intros j Hj|intros j Hj Hj']; rewrite <- Em; auto. }
  split; [|split; [|split; [|split; [|done]]]].
  - eapply waits_touched; [exact Hw|exact Hto1|]. intros j Hj ->%list_elem_of_singleton. done.
  - eapply handed_pop; [exact Ht|]. intros w' u Hw' Hu. apply Hh; [done|]. by rewrite Em.
  - eapply touched_weaken; [eapply touched_trans; [by apply touched_pop|exact Hto1]|]. set_solver.
  - rewrite Hsz, Em. unfold r1. simpl. by rewrite map_size_insert_Some by by rewrite Ht.
Qed.

Lemma handed_later f res ws W r r1 r' : handed f res ws r r1 -> touched W [] r1 r' ->
  (forall w, w ∈ ws -> w ∉ W) -> handed f res ws r r'.
Proof.
  intros H [_ Ht] Hd w t Hw Htw. destruct (H w t Hw Htw) as (t1 & Ht1 & E).
  specialize (Ht w (Hd w Hw) ltac:(set_solver)). rewrite Ht1 in Ht. simpl in Ht.
  apply fmap_Some in Ht as (t' & Ht' & E'). exists t'. split; [done|]. congruence.
Qed.

Lemma released_sans f res t t' : quiet f -> sans_queue t = sans_queue t' ->
  sans_queue (released f res t) = sans_queue (released f res t').
Proof.
  intros Hf E. unfold released. apply wake_of_sans, (quiet_sans _ (quiet_result res)), (quiet_sans _ Hf).
  destruct t, t'. unfold sans_queue, forget in *. simpl in *. injection E as ->; subst; reflexivity.
Qed.

Lemma handed_earlier f res ws X r r1 r' : quiet f -> handed f res ws r1 r' -> touched X [] r r1 ->
  (forall w, w ∈ ws -> w ∉ X) -> handed f res ws r r'.
Proof.
  intros Hf H [_ Ht] Hd w t Hw Htw. specialize (Ht w (Hd w Hw) ltac:(set_solver)). rewrite Htw in Ht. simpl in Ht.
  apply fmap_Some in Ht as (t1 & Ht1 & E). destruct (H w t1 Hw Ht1) as (t' & Ht' & E'). exists t'. split; [done|].
  rewrite E'. by apply released_sans.
Qed.

(** ** Releasing every waiter *)

Lemma release_all_run {lost} B l f res : quiet f -> forall W fuel r q wake, Inv lost B l r -> waits r q W ->
  (length W <= fuel)%nat ->
  exists q' r', release_all fuel f res wake q r = Some ((q', wake || negb (length W =? 0)%nat), r') /\
    Inv lost B l r' /\ waits r' q' [] /\ handed f res W r r' /\ touched W [] r r' /\
    cells r' = cells r /\ ps r' = ps r.
Proof.
  intros Hf. induction W as [|w W IH]; intros fuel r q wake HI Hw Hfuel.
  - exists q, r. destruct fuel; cbn [release_all]; rewrite (bind_Some _ _ _ _ _ (wait_pop_nil _ _ Hw)), orb_false_r;
      (split; [done|]); (split; [done|]); (split; [done|]); (split; [by intros ? ? ?%elem_of_nil|]);
      (split; [apply touched_refl|done]).
  - destruct fuel as [|fuel]; [simpl in Hfuel; lia|]. cbn [release_all].
    destruct (wait_pop_cons B l r q w W HI Hw) as (q1 & t & E1 & Ht & Hs & HI1 & Hw1 & HwW).
    rewrite (bind_Some _ _ _ _ _ E1).
    destruct (release_popped B l r q1 w W f res t HI1 Hw1 HwW Ht Hs Hf _ eq_refl HI1)
      as (r2 & E2 & HI2 & Hw2 & Hh2 & Ht2 & _ & Hc2 & Hp2).
    rewrite (bind_Some _ _ _ _ _ E2).
    destruct (IH fuel r2 q1 true HI2 Hw2 ltac:(simpl in Hfuel; lia)) as (q' & r' & E & HI' & Hw' & Hh & Hto & Hc & Hp).
    exists q', r'. rewrite E. split; [by destruct wake|]. split; [done|]. split; [done|].
    split; [|split; [by apply (touched_trans [w] W _ _ r2)|]].
    + intros u v [->|Hu]%elem_of_cons Hv.
      * eapply handed_later; [exact Hh2|exact Hto| |by left|done]. intros ? ->%list_elem_of_singleton. done.
      * eapply handed_earlier; [done|exact Hh|exact Ht2| |done|done]. intros x Hx ->%list_elem_of_singleton. done.
    + rewrite Hc, Hp, Hc2, Hp2. done.
Qed.

Lemma waits_length r q W : waits r q W -> (length W <= size (tasks r))%nat.
Proof.
  intros [Hr Hp]. rewrite <- (size_list_to_set (C := gset nat)) by apply Hr.
  rewrite <- size_dom. apply subseteq_size. intros i Hi%elem_of_list_to_set. apply elem_of_dom.
  destruct (Hp i Hi) as (t & -> & _). eauto.
Qed.

(** The loop releases all waiters in the fuel it is given. *)
Lemma drain_run {lost} B l f res r q W wake : quiet f -> Inv lost B l r -> waits r q W ->
  exists q' r', drain f res wake q r = Some ((q', wake || negb (length W =? 0)%nat), r') /\
    Inv lost B l r' /\ waits r' q' [] /\ handed f res W r r' /\ touched W [] r r' /\
    cells r' = cells r /\ ps r' = ps r.
Proof.
  intros Hf HI Hw. unfold drain. erewrite bind_Some by reflexivity.
  apply release_all_run; [done..|]. by eapply waits_length.
Qed.

Lemma wake_workers_run {lost} B l r : Inv lost B l r ->
  exists r', vl_runtime_wake_workers r = Some (tt, r') /\ tasks r' = tasks r /\ cells r' = cells r /\ Inv lost B l r'.
Proof.
  intros HI. eexists. split; [reflexivity|]. split; [done|]. split; [done|].
  eapply keeps_wake_workers; [exact HI|reflexivity].
Qed.

(** The relations only look at the tasks. *)
Lemma waits_tasks r r' q W : tasks r' = tasks r -> waits r q W -> waits r' q W.
Proof. intros E [A B]. split; by rewrite E. Qed.
Lemma touched_tasks X W r r' r'' : tasks r'' = tasks r' -> touched X W r r' -> touched X W r r''.
Proof. intros E [A B]. split; by rewrite E. Qed.
Lemma handed_tasks f res ws r r' r'' : tasks r'' = tasks r' -> handed f res ws r r' -> handed f res ws r r''.
Proof. intros E H w t Hw Ht. rewrite E. eauto. Qed.
