(* ===== verification/SyncProps.v ===== *)
(** * Semaphores, task mutexes and wait groups implement their specifications

    Each object has an abstract state (a counter or an owner, and the list of
    waiting tasks), an abstract step, and a refinement theorem: in a runtime that
    satisfies the scheduler's invariant, the C operation never is undefined,
    returns what the abstract step returns, leaves an object that represents the
    abstract successor, releases exactly the tasks the abstract step releases and
    changes no other task. *)

From S2P Require Import Prelude Intrusive RunQueue TimerHeap RuntimeState Task Timer Worker Scheduler SchedulerInv SchedulerSteps SchedulerExecute SchedulerProps Sync SyncWait.
From stdpp Require Import options.

(** The tasks after an operation of task [i]: [ws] are released with [result], and
    if the operation suspends, [i] is parked; nothing else changed. *)
Record effect (i : nat) (t : vl_task) (W ws : list nat) (f g : vl_task -> vl_task) (result : vl_status)
    (o : outcome vl_status) (r r' : vl_runtime_impl) : Prop := {
  eff_handed : handed f result ws r r';
  eff_parked : o = Suspend -> tasks r' !! i = Some (parked_as g t);
  eff_rest : touched (match o with Suspend => i :: ws | Return _ => ws end) W r r' }.

Lemma handed_nil f res r r' : handed f res [] r r'.
Proof. by intros ? ? ?%elem_of_nil. Qed.
#[export] Hint Resolve handed_nil touched_refl : veloco.

Lemma effect_nothing i t W f g res a r : effect i t W [] f g res (Return a) r r.
Proof. split; auto with veloco. done. Qed.

(** Suspend: the caller is parked at the end of the queue. *)
Lemma effect_park i t W f g res r r' : touched [i] W r r' -> tasks r' !! i = Some (parked_as g t) ->
  effect i t W [] f g res Suspend r r'.
Proof. split; auto with veloco. Qed.

Lemma touched_wider X W W' r r' : touched X W r r' -> (forall j, j ∈ W -> j ∈ W') -> touched X W' r r'.
Proof. intros [A B] H. split; [done|]. intros j Hj Hj'. apply B; auto. Qed.

Lemma effect_hand i t W ws f g res a r r' : handed f res ws r r' -> touched ws [] r r' ->
  effect i t W ws f g res (Return a) r r'.
Proof. split; [done|done|]. eapply touched_wider; [done|]. by intros ? ?%elem_of_nil. Qed.

(** Pop the longest waiting task, release it, wake the workers. *)
Lemma hand_over_run {lost} B l r q w W f res : Inv lost B l r -> waits r q (w :: W) -> quiet f ->
  exists q' r1 r2 r', vl_sync_wait_pop q r = Some ((Some w, q'), r1) /\ release w f res r1 = Some (tt, r2) /\
    vl_runtime_wake_workers r2 = Some (tt, r') /\ Inv lost B l r' /\ waits r' q' W /\
    handed f res [w] r r' /\ touched [w] [] r r'.
Proof.
  intros HI Hw Hf. destruct (wait_pop_cons B l r q w W HI Hw) as (q1 & t & E1 & Ht & Hs & HI1 & Hw1 & HwW).
  destruct (release_popped B l r q1 w W f res t HI1 Hw1 HwW Ht Hs Hf _ eq_refl HI1)
    as (r2 & E2 & HI2 & Hw2 & Hh2 & Ht2 & _).
  destruct (wake_workers_run B l r2 HI2) as (r' & E3 & Em & _ & HI').
  eexists q1, _, r2, r'. split; [exact E1|]. split; [exact E2|]. split; [exact E3|]. split; [done|].
  split; [by eapply waits_tasks|]. split; [by eapply handed_tasks|by eapply touched_tasks].
Qed.

Lemma upd_id_inv i r u r' : upd_task i id r = Some (u, r') -> r' = r.
Proof. intros (t & Ht & ->)%upd_task_inv. unfold id. rewrite insert_id by done. by destruct r. Qed.

(** ** Semaphores *)

Inductive semaphore_op := Sem_wait | Sem_post.

Definition semaphore_run (th : thread) (op : semaphore_op) (s : option vl_semaphore_impl)
    : R (outcome vl_status * option vl_semaphore_impl) :=
  match op with
  | Sem_wait => vl_semaphore_wait th s
  | Sem_post => res ← vl_semaphore_post s; mret (Return res.1, res.2)
  end.

(** The specification: [n] permits and the waiting tasks [W]; the result, the
    successor and the tasks released. *)
Definition semaphore_spec (i : nat) (op : semaphore_op) (n : Z) (W : list nat)
    : outcome vl_status * (Z * list nat) * list nat :=
  match op with
  | Sem_wait => if decide (n = 0) then (Suspend, (n, W ++ [i]), []) else (Return VL_OK, (n - 1, W), [])
  | Sem_post =>
      match W with
      | w :: W => (Return VL_OK, (n, W), [w])
      | [] => if decide (n = SIZE_MAX) then (Return VL_ERROR_INVALID_STATE, (n, []), [])
              else (Return VL_OK, (n + 1, []), [])
      end
  end.

Record semaphore_rep (n : Z) (W : list nat) (s : vl_semaphore_impl) (r : vl_runtime_impl) : Prop := {
  sem_permits : permits s = n;
  sem_word : word n;
  sem_queue : waits r (sem_waiters s) W;
  sem_full : W <> [] -> n = 0 }.

(** C20: A semaphore implements its specification: a wait takes a permit when there is
    one and otherwise parks the caller behind all earlier waiters; a post hands the
    permit to the longest waiting task, which becomes runnable with result VL_OK, and
    counts it only when nobody waits, refusing to overflow SIZE_MAX.  A permit is thus
    never free while a task waits, and no operation is undefined or touches another task. *)
Theorem semaphore_refines lost B l th p i t r op n W s :
  Inv lost B l r -> runs th p i t r -> semaphore_rep n W s r ->
  let '(o, (n', W'), ws) := semaphore_spec i op n W in
  exists s' r', semaphore_run th op (Some s) r = Some ((o, Some s'), r') /\
    Inv lost B l r' /\ semaphore_rep n' W' s' r' /\ effect i t W ws id id VL_OK o r r'.
Proof.
  intros HI Hr [Hn Hwd Hw Hf]. destruct op; cbn [semaphore_spec semaphore_run].
  - unfold vl_semaphore_wait. rewrite (bind_Some _ _ _ _ _ (sync_current_run _ _ _ _ _ Hr)), Hn.
    destruct (decide (n = 0)) as [->|Hne]; simpl.
    + destruct (park_push_run th p i t r B l _ _ id HI Hr Hw quiet_id)
        as (r1 & r2 & q' & r' & E1 & E2 & E3 & HI' & Hw' & Ht' & _ & Hi').
      rewrite (bind_Some _ _ _ _ _ E1). simpl.
      rewrite (upd_id_inv _ _ _ _ E2) in E3.
      rewrite (bind_Some _ _ _ _ _ E3). eexists _, _. split; [done|]. split; [done|].
      split; [by split|]. by apply effect_park.
    + rewrite (proj2 (Z.eqb_neq n 0)) by done. simpl. eexists _, _. split; [done|]. split; [done|].
      split; [|apply effect_nothing]. split; simpl; [apply w64_small; word_lia|word_lia|done|].
      intros HW. by destruct Hne, (Hf HW).
  - unfold vl_semaphore_post. destruct W as [|w W].
    + rewrite bind_run, (bind_Some _ _ _ _ _ (wait_pop_nil _ _ Hw)), Hn.
      destruct (decide (n = SIZE_MAX)) as [->|Hne]; simpl.
      * eexists _, _. split; [done|]. split; [done|]. split; [|apply effect_nothing]. by split.
      * rewrite (proj2 (Z.eqb_neq _ _) Hne). eexists _, _. split; [done|]. split; [done|].
        split; [|apply effect_nothing]. split; simpl; [apply w64_small; word_lia|word_lia|done|done].
    + destruct (hand_over_run B l r _ w W id VL_OK HI Hw quiet_id)
        as (q' & r1 & r2 & r' & E1 & E2 & E3 & HI' & Hw' & Hh & Ht).
      rewrite bind_run, (bind_Some _ _ _ _ _ E1), (bind_Some _ _ _ _ _ E2), (bind_Some _ _ _ _ _ E3).
      eexists _, _. split; [done|]. split; [done|]. split; [|by apply effect_hand].
      split; simpl; [done..|]. intros _. by apply Hf.
Qed.

(** ** Task mutexes *)

Inductive mutex_op := Mutex_lock | Mutex_unlock.

Definition mutex_run (th : thread) (op : mutex_op) (s : option vl_task_mutex_impl)
    : R (outcome vl_status * option vl_task_mutex_impl) :=
  match op with
  | Mutex_lock => vl_task_mutex_lock th s
  | Mutex_unlock => res ← vl_task_mutex_unlock th s; mret (Return res.1, res.2)
  end.

Definition mutex_spec (i : nat) (op : mutex_op) (o : option nat) (W : list nat)
    : outcome vl_status * (option nat * list nat) * list nat :=
  match op with
  | Mutex_lock =>
      match o with
      | None => (Return VL_OK, (Some i, W), [])
      | Some h => if decide (h = i) then (Return VL_ERROR_INVALID_STATE, (o, W), [])
                  else (Suspend, (o, W ++ [i]), [])
      end
  | Mutex_unlock =>
      if decide (o = Some i) then
        match W with
        | [] => (Return VL_OK, (None, []), [])
        | w :: W => (Return VL_OK, (Some w, W), [w])
        end
      else (Return VL_ERROR_INVALID_STATE, (o, W), [])
  end.

Record mutex_rep (o : option nat) (W : list nat) (s : vl_task_mutex_impl) (r : vl_runtime_impl) : Prop := {
  mx_owner : owner s = o;
  mx_queue : waits r (mutex_waiters s) W;
  mx_held : W <> [] -> o <> None;
  mx_apart : forall h, o = Some h -> h ∉ W }.

(** C19: A task mutex implements its specification: locking takes a free mutex, fails on
    a mutex the caller already holds and otherwise parks the caller behind all earlier
    waiters; only the owner can unlock, and unlocking hands the mutex to the longest
    waiting task, which becomes runnable as the owner, so that the mutex is never free
    while a task waits and the owner never waits for itself. *)
Theorem task_mutex_refines lost B l th p i t r op o W s :
  Inv lost B l r -> runs th p i t r -> mutex_rep o W s r ->
  let '(res, (o', W'), ws) := mutex_spec i op o W in
  exists s' r', mutex_run th op (Some s) r = Some ((res, Some s'), r') /\
    Inv lost B l r' /\ mutex_rep o' W' s' r' /\ effect i t W ws id id VL_OK res r r'.
Proof.
  intros HI Hr [Ho Hw Hh Ha].
  assert (HiW : i ∉ W) by (eapply waits_not_running; [exact Hw|apply Hr..]).
  destruct op; cbn [mutex_spec mutex_run].
  - unfold vl_task_mutex_lock. rewrite (bind_Some _ _ _ _ _ (sync_current_run _ _ _ _ _ Hr)), Ho.
    destruct o as [h|].
    + destruct (decide (h = i)) as [->|Hne].
      { eexists _, _. split; [done|]. split; [done|]. split; [by split|apply effect_nothing]. }
      destruct (park_push_run th p i t r B l _ _ id HI Hr Hw quiet_id)
        as (r1 & r2 & q' & r' & E1 & E2 & E3 & HI' & Hw' & Ht' & _ & Hi').
      rewrite (bind_Some _ _ _ _ _ E1). simpl.
      rewrite (upd_id_inv _ _ _ _ E2) in E3. rewrite (bind_Some _ _ _ _ _ E3). eexists _, _. split; [done|]. split; [done|].
      split; [|by apply effect_park]. split; simpl; [done..|]. intros h' [= <-]. set_solver.
    + eexists _, _. split; [done|]. split; [done|]. split; [|apply effect_nothing].
      split; simpl; [done|done|done|]. by intros h [= <-].
  - unfold vl_task_mutex_unlock. rewrite bind_run, (bind_Some _ _ _ _ _ (sync_current_run _ _ _ _ _ Hr)), Ho.
    destruct (decide (o = Some i)) as [->|Hne].
    + rewrite bool_decide_eq_false_2 by (intros H; by apply H). destruct W as [|w W].
      * rewrite (bind_Some _ _ _ _ _ (wait_pop_nil _ _ Hw)). eexists _, _. split; [done|]. split; [done|].
        split; [|apply effect_nothing]. by split.
      * destruct (hand_over_run B l r _ w W id VL_OK HI Hw quiet_id)
          as (q' & r1 & r2 & r' & E1 & E2 & E3 & HI' & Hw' & Hhd & Ht).
        rewrite (bind_Some _ _ _ _ _ E1). cbn [fst snd].
        rewrite bind_run, (bind_Some _ _ _ _ _ E2), E3.
        eexists _, _. split; [done|]. split; [done|]. split; [|by apply effect_hand].
        split; simpl; [done|done|done|]. intros h [= <-].
        pose proof (iq_nodup _ _ _ _ (waits_repr _ _ _ Hw)) as Hnd. by apply list.NoDup_cons in Hnd as [? _].
    + rewrite bool_decide_eq_true_2 by done. eexists _, _. split; [done|]. split; [done|].
      split; [by split|apply effect_nothing].
Qed.

(** ** Wait groups *)

Inductive wait_group_op := Wg_add (delta : Z) | Wg_wait.

Definition wait_group_run (th : thread) (op : wait_group_op) (s : option vl_wait_group_impl)
    : R (outcome vl_status * option vl_wait_group_impl) :=
  match op with
  | Wg_add delta => res ← vl_wait_group_add delta s; mret (Return res.1, res.2)
  | Wg_wait => vl_wait_group_wait th s
  end.

(** [ptrdiff_t] arguments. *)
Definition wg_arg (op : wait_group_op) : Prop :=
  match op with Wg_add delta => - 2 ^ 63 <= delta < 2 ^ 63 | Wg_wait => True end.

Definition wait_group_spec (i : nat) (op : wait_group_op) (n : Z) (W : list nat)
    : outcome vl_status * (Z * list nat) * list nat :=
  match op with
  | Wg_add delta =>
      if bool_decide (n + delta < 0) || bool_decide (SIZE_MAX < n + delta) ||
         bool_decide (0 < delta) && bool_decide (W <> [])
      then (Return VL_ERROR_INVALID_STATE, (n, W), [])
      else if decide (n + delta = 0) then (Return VL_OK, (0, []), W)
      else (Return VL_OK, (n + delta, W), [])
  | Wg_wait => if decide (n = 0) then (Return VL_OK, (n, W), []) else (Suspend, (n, W ++ [i]), [])
  end.

Record wait_group_rep (n : Z) (W : list nat) (s : vl_wait_group_impl) (r : vl_runtime_impl) : Prop := {
  wg_counts : wg_count s = n;
  wg_word : word n;
  wg_queue : waits r (wg_waiters s) W;
  wg_pending : W <> [] -> n <> 0 }.

(** The magnitude of a negative [ptrdiff_t], without signed overflow. *)
Lemma magnitude_neg d : - 2 ^ 63 <= d < 0 -> magnitude d = - d.
Proof. intros Hd. unfold magnitude. rewrite (w64_small (- (d + 1))) by word_lia. rewrite w64_small; word_lia. Qed.

Lemma waits_zero {lost} B l r q W : Inv lost B l r -> B < W64 -> waits r q W -> q_length q = 0 <-> W = [].
Proof.
  intros (G & L & loc & HI) HB Hw. apply (iq_length_zero waiter_link (tasks r)); [apply Hw|].
  pose proof (waits_length _ _ _ Hw). pose proof (inv_size _ _ _ _ _ _ _ _ _ _ _ _ _ HI). lia.
Qed.

(** The guard of [vl_wait_group_add] is the range check of the specification. *)
Lemma wait_group_guard n d W qlen : word n -> - 2 ^ 63 <= d < 2 ^ 63 -> qlen = 0 <-> W = [] ->
  ((d <? 0) && (n <? magnitude d)) || ((0 <? d) && (w64 (SIZE_MAX - n) <? w64 d)) ||
    ((0 <? d) && negb (qlen =? 0)) =
  bool_decide (n + d < 0) || bool_decide (SIZE_MAX < n + d) || bool_decide (0 < d) && bool_decide (W <> ([] : list nat)).
Proof.
  intros Hn Hd Hq. rewrite (w64_small (SIZE_MAX - n)) by word_lia.
  assert (Eq : negb (qlen =? 0) = bool_decide (W <> [])).
  { destruct (decide (W = [])) as [HW|HW].
    - rewrite bool_decide_eq_false_2 by (intros H; by apply H). by rewrite (proj2 Hq HW).
    - rewrite bool_decide_eq_true_2 by done. destruct (Z.eqb_spec qlen 0) as [->|]; [by destruct HW, (proj1 Hq)|done]. }
  rewrite Eq. destruct (Z.ltb_spec d 0) as [Hneg|Hpos].
  - rewrite magnitude_neg by lia. rewrite (proj2 (Z.ltb_ge 0 d)) by lia. simpl. rewrite !orb_false_r.
    rewrite (bool_decide_eq_false_2 (SIZE_MAX < n + d)), (bool_decide_eq_false_2 (0 < d)) by word_lia.
    rewrite !orb_false_r.
    destruct (Z.ltb_spec n (- d)); symmetry; [apply bool_decide_eq_true_2|apply bool_decide_eq_false_2]; lia.
  - rewrite (w64_small d) by word_lia. rewrite (bool_decide_eq_false_2 (n + d < 0)) by word_lia. simpl.
    destruct (Z.ltb_spec 0 d).
    + rewrite (bool_decide_eq_true_2 (0 < d)) by done. simpl. f_equal.
      destruct (Z.ltb_spec (SIZE_MAX - n) d); symmetry; [apply bool_decide_eq_true_2|apply bool_decide_eq_false_2]; lia.
    + rewrite (bool_decide_eq_false_2 (0 < d)), (bool_decide_eq_false_2 (SIZE_MAX < n + d)) by word_lia. done.
Qed.

(** C21: A wait group implements its specification for every [ptrdiff_t] argument: adding
    fails exactly when the count would leave 0..SIZE_MAX or would grow under waiting
    tasks, and otherwise changes the count by the exact amount; the addition that brings
    it to zero releases all waiting tasks, in order, each with result VL_OK; waiting
    returns at once on a zero count and parks the caller otherwise. *)
Theorem wait_group_refines lost B l th p i t r op n W s :
  Inv lost B l r -> B < W64 -> runs th p i t r -> wait_group_rep n W s r -> wg_arg op ->
  let '(o, (n', W'), ws) := wait_group_spec i op n W in
  exists s' r', wait_group_run th op (Some s) r = Some ((o, Some s'), r') /\
    Inv lost B l r' /\ wait_group_rep n' W' s' r' /\ effect i t W ws id id VL_OK o r r'.
Proof.
  intros HI HB Hr [Hn Hwd Hw Hp] Harg. destruct op as [d|]; cbn [wait_group_spec wait_group_run].
  - unfold vl_wait_group_add. rewrite bind_run, Hn.
    rewrite (wait_group_guard n d W) by (try done; by eapply waits_zero).
    destruct (bool_decide (n + d < 0) || bool_decide (SIZE_MAX < n + d) ||
              bool_decide (0 < d) && bool_decide (W <> [])) eqn:Eg.
    { eexists _, _. split; [done|]. split; [done|]. split; [by split|apply effect_nothing]. }
    apply orb_false_iff in Eg as [Eg Eg3]. apply orb_false_iff in Eg as [Eg1%bool_decide_eq_false_1 Eg2%bool_decide_eq_false_1].
    assert (Ec : (if d <? 0 then w64 (n - magnitude d) else w64 (n + w64 d)) = n + d).
    { simpl in Harg. destruct (Z.ltb_spec d 0).
      - rewrite magnitude_neg, w64_small by word_lia. lia.
      - rewrite (w64_small d), w64_small by word_lia. lia. }
    cbn zeta. rewrite Ec. destruct (decide (n + d = 0)) as [E0|E0].
    + rewrite E0. simpl. destruct (drain_run B l id VL_OK r _ W false quiet_id HI Hw)
        as (q' & r1 & E1 & HI1 & Hw1 & Hh & Ht & _).
      rewrite (bind_Some _ _ _ _ _ E1). cbn [fst snd].
      assert (Hwk : exists r', (if false || negb (length W =? 0)%nat then vl_runtime_wake_workers else mret tt) r1 = Some (tt, r') /\
        tasks r' = tasks r1 /\ Inv lost B l r').
      { destruct (false || negb (length W =? 0)%nat); [|by exists r1]. destruct (wake_workers_run B l r1 HI1) as (r' & E & Em & _ & H'). eauto. }
      destruct Hwk as (r' & E2 & Em & HI'). rewrite (bind_Some _ _ _ _ _ E2).
      eexists _, _. split; [done|]. split; [done|]. split.
      * split; simpl; [done|word_lia|by eapply waits_tasks|done].
      * apply effect_hand; [by eapply handed_tasks|by eapply touched_tasks].
    + rewrite (proj2 (Z.eqb_neq _ _) E0). eexists _, _. split; [done|]. split; [done|].
      split; [|apply effect_nothing]. split; simpl; [done|word_lia|done|done].
  - unfold vl_wait_group_wait. rewrite (bind_Some _ _ _ _ _ (sync_current_run _ _ _ _ _ Hr)), Hn.
    destruct (decide (n = 0)) as [->|Hne]; simpl.
    { eexists _, _. split; [done|]. split; [done|]. split; [by split|apply effect_nothing]. }
    rewrite (proj2 (Z.eqb_neq _ _) Hne).
    destruct (park_push_run th p i t r B l _ _ id HI Hr Hw quiet_id)
      as (r1 & r2 & q' & r' & E1 & E2 & E3 & HI' & Hw' & Ht' & _ & Hi').
    rewrite (bind_Some _ _ _ _ _ E1). simpl.
    rewrite (upd_id_inv _ _ _ _ E2) in E3. rewrite (bind_Some _ _ _ _ _ E3). eexists _, _. split; [done|]. split; [done|].
    split; [by split|]. by apply effect_park.
Qed.

(** ** Witnesses: tasks 1 and 2 run on P0 and P1, one waits and the other releases it *)

Definition demo : vl_runtime_impl := rt (after 2 two_workers).
Definition demo_lost : nat -> bool := lost_in (after 2 two_workers).
Definition demo_pcs : list worker_pc := pcs (after 2 two_workers).
Definition on_p (p : nat) : thread := mk_thread p (Some p).
Definition demo_task (i : nat) : vl_task := default new_task (tasks demo !! i).

Lemma demo_inv : Inv demo_lost 144 demo_pcs demo.
Proof. apply (si_inv 18). by eapply system_reachable_inv; [|apply two_workers_reachable|]; [lia|]. Qed.

Lemma demo_runs i : i = 1%nat \/ i = 2%nat -> runs (on_p (i - 1)) (i - 1) i (demo_task i) demo.
Proof. by intros [-> | ->]; split; vm_compute. Qed.

Lemma demo_waits : waits demo empty_queue [].
Proof. apply waits_empty. Qed.

(** The state after the first operation. *)
Definition ran {A} (m : R A) (r : vl_runtime_impl) : vl_runtime_impl :=
  match m r with Some (_, r) => r | None => r end.

Definition waited : vl_runtime_impl :=
  ran (vl_semaphore_wait (on_p 0) (Some (mk_semaphore 0 empty_queue))) demo.

Lemma runs_compute p i r : current <$> ps r !! p = Some (Some i) ->
  state <$> tasks r !! i = Some VL_TASK_RUNNING -> executing <$> tasks r !! i = Some true ->
  runs (on_p p) p i (default new_task (tasks r !! i)) r.
Proof.
  intros Hc Hs He. destruct (tasks r !! i) as [t|] eqn:Ht; [|done]. simplify_eq/=. by split.
Qed.

Lemma semaphore_refines_witness : exists s' r',
  semaphore_run (on_p 1) Sem_post (Some (mk_semaphore 0 (mk_iqueue (Some 1%nat) (Some 1%nat) 1))) waited =
    Some ((Return VL_OK, Some s'), r') /\ semaphore_rep 0 [] s' r'.
Proof.
  destruct (semaphore_refines demo_lost 144 demo_pcs (on_p 0) 0 1 (demo_task 1) demo Sem_wait 0 []
    (mk_semaphore 0 empty_queue) demo_inv (demo_runs 1 (or_introl eq_refl)))
    as (s1 & r1 & E1 & HI1 & Hs1 & _); [split; [reflexivity|unfold word, W64; lia|apply demo_waits|done]|].
  assert (Er : r1 = waited) by (unfold waited, ran; cbn [semaphore_run] in E1; rewrite E1; reflexivity).
  subst r1.
  assert (Es : s1 = mk_semaphore 0 (mk_iqueue (Some 1%nat) (Some 1%nat) 1)).
  { vm_compute in E1. injection E1 as <-. reflexivity. }
  subst s1.
  destruct (semaphore_refines demo_lost 144 demo_pcs (on_p 1) 1 2 (default new_task (tasks waited !! 2%nat)) waited
    Sem_post 0 [1%nat] (mk_semaphore 0 (mk_iqueue (Some 1%nat) (Some 1%nat) 1)) HI1) as (s' & r' & E & _ & Hs' & _).
  - apply runs_compute; vm_compute; reflexivity.
  - exact Hs1.
  - exists s', r'. split; assumption.
Defined.

Lemma task_mutex_refines_witness : exists s' r',
  mutex_run (on_p 0) Mutex_lock (Some (mk_task_mutex (Some 2%nat) empty_queue)) demo =
    Some ((Suspend, Some s'), r') /\ mutex_rep (Some 2%nat) [1%nat] s' r'.
Proof.
  destruct (task_mutex_refines demo_lost 144 demo_pcs (on_p 0) 0 1 (demo_task 1) demo Mutex_lock (Some 2%nat) []
    (mk_task_mutex (Some 2%nat) empty_queue) demo_inv (demo_runs 1 (or_introl eq_refl)))
    as (s' & r' & E & _ & Hs & _).
  - split; [reflexivity|apply demo_waits|done|]. intros h _. apply not_elem_of_nil.
  - exists s', r'. split; assumption.
Defined.

Lemma wait_group_refines_witness : exists s' r',
  wait_group_run (on_p 0) (Wg_add (- 2 ^ 63)) (Some (mk_wait_group (2 ^ 63) empty_queue)) demo =
    Some ((Return VL_OK, Some s'), r') /\ wait_group_rep 0 [] s' r'.
Proof.
  destruct (wait_group_refines demo_lost 144 demo_pcs (on_p 0) 0 1 (demo_task 1) demo (Wg_add (- 2 ^ 63)) (2 ^ 63) []
    (mk_wait_group (2 ^ 63) empty_queue) demo_inv)
    as (s' & r' & E & _ & Hs & _).
  - unfold W64. lia.
  - apply (demo_runs 1). left. reflexivity.
  - split; [reflexivity|unfold word, W64; lia|apply demo_waits|done].
  - simpl. lia.
  - exists s', r'. split; assumption.
Defined.
