(* ===== verification/ChannelProps.v ===== *)
(** * Channels are FIFO

    The ring buffer represents a list; the C operations refine an abstract
    channel (buffered values, waiting senders with their values, waiting
    receivers with the cells they want filled), and along every history the
    values received are, in order, the values offered. *)

From S2P Require Import Prelude Intrusive RunQueue TimerHeap RuntimeState Task Timer Worker Scheduler SchedulerInv SchedulerSteps SchedulerExecute SchedulerProps Sync SyncWait SyncProps.
From stdpp Require Import options.

(** ** The ring buffer *)

Record ring (c : vl_channel_impl) (vals : list Z) : Prop := {
  ring_size : Z.of_nat (length (buffer c)) = ch_capacity c;
  ring_cap : ch_capacity c <= SIZE_MAX / 8;
  ring_head : 0 <= ch_head c /\ (0 < ch_capacity c -> ch_head c < ch_capacity c);
  ring_length : ch_length c = Z.of_nat (length vals);
  ring_room : ch_length c <= ch_capacity c;
  ring_at : forall k v, vals !! k = Some v ->
    buffer c !! Z.to_nat ((ch_head c + Z.of_nat k) mod ch_capacity c) = Some v }.

Lemma ring_slot_inj h k k' cap : 0 <= h < cap -> 0 <= k < cap -> 0 <= k' < cap ->
  (h + k) mod cap = (h + k') mod cap -> k = k'.
Proof.
  intros Hh Hk Hk' E.
  assert (Hm : forall x, 0 <= x < cap -> (h + x) mod cap = if h + x <? cap then h + x else h + x - cap).
  { intros x Hx. destruct (Z.ltb_spec (h + x) cap).
    - apply Z.mod_small. lia.
    - replace (h + x) with (h + x - cap + 1 * cap) at 1 by lia. rewrite Z.mod_add by lia. apply Z.mod_small. lia. }
  rewrite !Hm in E by done. destruct (Z.ltb_spec (h + k) cap), (Z.ltb_spec (h + k') cap); lia.
Qed.

(** Pushing with room appends the value. *)
Lemma buffer_push_run c vals v : ring c vals -> ch_length c < ch_capacity c ->
  exists c', vl_channel_buffer_push c v = Some c' /\ ring c' (vals ++ [v]) /\
    ch_capacity c' = ch_capacity c /\ closed c' = closed c /\ senders c' = senders c /\ receivers c' = receivers c.
Proof.
  intros [Hs Hc Hh Hl Hr Ha] Hroom. unfold vl_channel_buffer_push.
  assert (Hb : SIZE_MAX / 8 = 2305843009213693951) by reflexivity.
  assert (Hcap : 0 < ch_capacity c) by lia. destruct Hh as [Hh0 Hh]. specialize (Hh Hcap).
  rewrite (proj2 (Z.eqb_neq _ _)) by lia. rewrite (w64_small (ch_head c + ch_length c)) by word_lia.
  set (tl := (ch_head c + ch_length c) mod ch_capacity c).
  assert (Htl : 0 <= tl < ch_capacity c) by (apply Z.mod_pos_bound; lia).
  destruct (lookup_lt_is_Some_2 (buffer c) (Z.to_nat tl)) as [old Hold]; [lia|]. rewrite Hold. simpl.
  eexists. split; [done|]. split; [|done]. split; simpl.
  - by rewrite length_insert.
  - done.
  - done.
  - rewrite w64_small by word_lia. rewrite length_app. simpl. lia.
  - rewrite w64_small by word_lia. lia.
  - intros k x Hk. apply lookup_app_Some in Hk as [Hk|[Hge Hk]].
    + pose proof (lookup_lt_Some _ _ _ Hk). rewrite list_lookup_insert_ne; [by apply Ha|].
      intros E. assert (Hm : 0 <= (ch_head c + Z.of_nat k) mod ch_capacity c) by (apply Z.mod_pos_bound; lia).
      apply Z2Nat.inj in E; [|lia..]. unfold tl in E. apply ring_slot_inj in E; lia.
    + apply list_lookup_singleton_Some in Hk as [Hk ->].
      replace (Z.of_nat k) with (ch_length c) by lia. fold tl. rewrite list_lookup_insert_eq; [done|]. lia.
Qed.

(** Popping takes the first value. *)
Lemma buffer_pop_run c v vals : ring c (v :: vals) ->
  exists c', vl_channel_buffer_pop c = Some (v, c') /\ ring c' vals /\
    ch_capacity c' = ch_capacity c /\ closed c' = closed c /\ senders c' = senders c /\ receivers c' = receivers c.
Proof.
  intros [Hs Hc Hh Hl Hr Ha]. unfold vl_channel_buffer_pop. simpl in Hl.
  assert (Hb : SIZE_MAX / 8 = 2305843009213693951) by reflexivity.
  assert (Hcap : 0 < ch_capacity c) by lia. destruct Hh as [Hh0 Hh]. specialize (Hh Hcap).
  pose proof (Ha 0%nat v eq_refl) as H0. rewrite Z.add_0_r, Z.mod_small in H0 by lia. rewrite H0. simpl.
  rewrite (proj2 (Z.eqb_neq _ _)) by lia. eexists. split; [done|]. split; [|done].
  assert (Hw : w64 (ch_head c + 1) = ch_head c + 1) by (apply w64_small; word_lia).
  split; simpl; rewrite ?Hw.
  - done.
  - done.
  - pose proof (Z.mod_pos_bound (ch_head c + 1) (ch_capacity c)). lia.
  - rewrite w64_small by word_lia. lia.
  - rewrite w64_small by word_lia. lia.
  - intros k x Hk. rewrite Zplus_mod_idemp_l. rewrite <- (Ha (S k) x Hk). do 3 f_equal. lia.
Qed.

Lemma ring_set_senders q c vals : ring c vals -> ring (set_senders q c) vals.
Proof. intros [? ? ? ? ? ?]. by split. Qed.
Lemma ring_set_receivers q c vals : ring c vals -> ring (set_receivers q c) vals.
Proof. intros [? ? ? ? ? ?]. by split. Qed.
Lemma ring_set_closed b c vals : ring c vals -> ring (set_closed b c) vals.
Proof. intros [? ? ? ? ? ?]. by split. Qed.
#[export] Hint Resolve ring_set_senders ring_set_receivers ring_set_closed : veloco.

(** ** The abstract channel *)

Record channel := mk_chan {
  c_cap : Z;
  c_vals : list Z;
  c_send : list (nat * Z);       (* waiting senders and what they offer *)
  c_recv : list (nat * nat);     (* waiting receivers and the cells to fill *)
  c_closed : bool }.

Inductive channel_op := Ch_send (v : Z) | Ch_receive (out : nat) | Ch_close.

#[export] Instance channel_op_eq_dec : EqDecision channel_op.
Proof. solve_decision. Defined.

Definition channel_run (th : thread) (op : channel_op) (s : option vl_channel_impl)
    : R (outcome vl_status * option vl_channel_impl) :=
  match op with
  | Ch_send v => vl_channel_send th v s
  | Ch_receive out => vl_channel_receive th (Some out) s
  | Ch_close => res ← vl_channel_close s; mret (Return res.1, res.2)
  end.

(** What an operation does: its result, the successor, the cell it writes, the
    senders and receivers it releases and with which result. *)
Record response := mk_response {
  rsp_outcome : outcome vl_status;
  rsp_chan : channel;
  rsp_write : option (nat * Z);
  rsp_senders : list nat;
  rsp_receivers : list nat;
  rsp_result : vl_status }.

Definition quiet_response (o : outcome vl_status) (c : channel) : response := mk_response o c None [] [] VL_OK.

Definition channel_spec (i : nat) (op : channel_op) (c : channel) : response :=
  match op with
  | Ch_send v =>
      if c_closed c then quiet_response (Return VL_ERROR_CLOSED) c else
      match c_recv c with
      | (w, cell) :: V =>
          mk_response (Return VL_OK) (mk_chan (c_cap c) (c_vals c) (c_send c) V (c_closed c))
            (Some (cell, v)) [] [w] VL_OK
      | [] =>
          if Z.of_nat (length (c_vals c)) <? c_cap c
          then quiet_response (Return VL_OK) (mk_chan (c_cap c) (c_vals c ++ [v]) (c_send c) [] (c_closed c))
          else quiet_response Suspend (mk_chan (c_cap c) (c_vals c) (c_send c ++ [(i, v)]) [] (c_closed c))
      end
  | Ch_receive out =>
      match c_vals c, c_send c with
      | x :: vals, (w, y) :: Q =>
          mk_response (Return VL_OK) (mk_chan (c_cap c) (vals ++ [y]) Q (c_recv c) (c_closed c))
            (Some (out, x)) [w] [] VL_OK
      | x :: vals, [] =>
          mk_response (Return VL_OK) (mk_chan (c_cap c) vals [] (c_recv c) (c_closed c)) (Some (out, x)) [] [] VL_OK
      | [], (w, y) :: Q =>
          mk_response (Return VL_OK) (mk_chan (c_cap c) [] Q (c_recv c) (c_closed c)) (Some (out, y)) [w] [] VL_OK
      | [], [] =>
          if c_closed c then quiet_response (Return VL_ERROR_CLOSED) c
          else quiet_response Suspend (mk_chan (c_cap c) [] [] (c_recv c ++ [(i, out)]) (c_closed c))
      end
  | Ch_close =>
      if c_closed c then quiet_response (Return VL_ERROR_CLOSED) c else
      mk_response (Return VL_OK) (mk_chan (c_cap c) (c_vals c) [] [] true) None (c_send c).*1 (c_recv c).*1
        VL_ERROR_CLOSED
  end.

(** ** Representation *)

Record channel_rep (c : channel) (s : vl_channel_impl) (r : vl_runtime_impl) : Prop := {
  ch_cap_eq : ch_capacity s = c_cap c;
  ch_ring : ring s (c_vals c);
  ch_closed_eq : closed s = c_closed c;
  ch_senders : waits r (senders s) (c_send c).*1;
  ch_values : forall w v, (w, v) ∈ c_send c -> wait_value <$> tasks r !! w = Some v;
  ch_receivers : waits r (receivers s) (c_recv c).*1;
  ch_outputs : forall w out, (w, out) ∈ c_recv c ->
    wait_output <$> tasks r !! w = Some (Some out) /\ is_Some (cells r !! out);
  ch_full : c_send c <> [] -> Z.of_nat (length (c_vals c)) = c_cap c;
  ch_hungry : c_recv c <> [] -> c_vals c = [] /\ c_send c = [];
  ch_over : c_closed c = true -> c_send c = [] /\ c_recv c = [] }.

Definition out_alive (op : channel_op) (r : vl_runtime_impl) : Prop :=
  match op with Ch_receive out => is_Some (cells r !! out) | _ => True end.

(** The parked fields of the caller. *)
Definition parks_with (op : channel_op) (t : vl_task) : vl_task :=
  match op with
  | Ch_send v => set_wait_value v t
  | Ch_receive out => set_wait_output (Some out) t
  | Ch_close => t
  end.

Record channel_effect (i : nat) (t : vl_task) (op : channel_op) (c : channel) (rsp : response) (r r' : vl_runtime_impl)
    : Prop := {
  ce_senders : handed (set_wait_value 0) (rsp_result rsp) (rsp_senders rsp) r r';
  ce_receivers : handed (set_wait_output None) (rsp_result rsp) (rsp_receivers rsp) r r';
  ce_parked : rsp_outcome rsp = Suspend -> tasks r' !! i = Some (parked_as (parks_with op) t);
  ce_cells : cells r' = match rsp_write rsp with Some (out, v) => <[out := v]> (cells r) | None => cells r end;
  ce_rest : touched (match rsp_outcome rsp with Suspend => [i] | Return _ => rsp_senders rsp ++ rsp_receivers rsp end)
    ((c_send c).*1 ++ (c_recv c).*1) r r' }.

Lemma touched_field {A} (f : vl_task -> A) X W r r' w : (forall t, f (sans_links t) = f t) ->
  touched X W r r' -> w ∉ X -> f <$> tasks r' !! w = f <$> tasks r !! w.
Proof.
  intros Hf [Ht _] Hw. specialize (Ht w Hw). apply (f_equal (fmap f)) in Ht.
  rewrite <- !option_fmap_compose in Ht. etrans; [|etrans; [exact Ht|]]; apply option_fmap_ext; intros x; simpl;
    by rewrite Hf.
Qed.

Lemma value_sans t : wait_value (sans_links t) = wait_value t.
Proof. by destruct t. Qed.
Lemma output_sans t : wait_output (sans_links t) = wait_output t.
Proof. by destruct t. Qed.

Lemma elem_of_fst {A B} (a : A) (b : B) l : (a, b) ∈ l -> a ∈ l.*1.
Proof. intros H. apply list_elem_of_fmap. by exists (a, b). Qed.

(** The waiters of one queue, with the values or cells they wait with, are framed. *)
Lemma values_frame X W r r' (Q : list (nat * Z)) :
  (forall w v, (w, v) ∈ Q -> wait_value <$> tasks r !! w = Some v) -> touched X W r r' ->
  (forall w, w ∈ Q.*1 -> w ∉ X) -> forall w v, (w, v) ∈ Q -> wait_value <$> tasks r' !! w = Some v.
Proof.
  intros H Ht Hd w v Hw. rewrite (touched_field _ _ _ _ _ _ value_sans Ht); [by apply H|].
  apply Hd. by eapply elem_of_fst.
Qed.

Lemma outputs_frame X W r r' (V : list (nat * nat)) :
  (forall w out, (w, out) ∈ V -> wait_output <$> tasks r !! w = Some (Some out) /\ is_Some (cells r !! out)) ->
  touched X W r r' -> (forall w, w ∈ V.*1 -> w ∉ X) -> (forall o, is_Some (cells r !! o) -> is_Some (cells r' !! o)) ->
  forall w out, (w, out) ∈ V -> wait_output <$> tasks r' !! w = Some (Some out) /\ is_Some (cells r' !! out).
Proof.
  intros H Ht Hd Hc w o Hw. destruct (H w o Hw) as [H1 H2]. split; [|by apply Hc].
  rewrite (touched_field _ _ _ _ _ _ output_sans Ht); [done|]. apply Hd. by eapply elem_of_fst.
Qed.

Lemma insert_alive (m : gmap nat Z) k v o : is_Some (m !! o) -> is_Some (<[k := v]> m !! o).
Proof. intros H. destruct (decide (o = k)) as [->|]; [rewrite lookup_insert_eq; eauto|by rewrite lookup_insert_ne]. Qed.

Lemma store_cell_run r o v : is_Some (cells r !! o) ->
  store_cell (Some o) v r = Some (tt, set_cells (<[o := v]> (cells r)) r).
Proof. intros [x Hx]. unfold store_cell. by rewrite Hx. Qed.

Lemma lift_run {A} (o : option A) a r : o = Some a -> lift o r = Some (a, r).
Proof. unfold lift. by intros ->. Qed.

Lemma Inv_set_cells lost B l m r : Inv lost B l r -> Inv lost B l (set_cells m r).
Proof. done. Qed.

Lemma load_popped w t r : load_task w (set_tasks (<[w := set_waiter_next None t]> (tasks r)) r) =
  Some (set_waiter_next None t, set_tasks (<[w := set_waiter_next None t]> (tasks r)) r).
Proof. apply load_task_run, lookup_insert_eq. Qed.

Lemma waits_cells m r q W : waits r q W -> waits (set_cells m r) q W.
Proof. intros [? ?]. by split. Qed.

Lemma waits_cons_apart r q w W : waits r q (w :: W) -> w ∉ W.
Proof. intros [H _]. pose proof (iq_nodup _ _ _ _ H) as Hn. by apply list.NoDup_cons in Hn as [? _]. Qed.

(** ** The operations refine the abstract channel *)

(** Popping a waiter, then (after writing cells) releasing it and waking the workers. *)
Lemma hand_over_cell {lost} B l r q w W f res : Inv lost B l r -> waits r q (w :: W) -> quiet f ->
  exists q' t, let r1 := set_tasks (<[w := set_waiter_next None t]> (tasks r)) r in
    vl_sync_wait_pop q r = Some ((Some w, q'), r1) /\ tasks r !! w = Some t /\ Inv lost B l r1 /\
    forall r2, tasks r2 = tasks r1 -> Inv lost B l r2 ->
    exists r3 r', release w f res r2 = Some (tt, r3) /\ vl_runtime_wake_workers r3 = Some (tt, r') /\
      Inv lost B l r' /\ waits r' q' W /\ handed f res [w] r r' /\ touched [w] [] r r' /\ cells r' = cells r2.
Proof.
  intros HI Hw Hf. destruct (wait_pop_cons B l r q w W HI Hw) as (q1 & t & E1 & Ht & Hs & HI1 & Hw1 & HwW).
  exists q1, t. cbn zeta. split; [exact E1|]. split; [done|]. split; [done|]. intros r2 Em HI2.
  destruct (release_popped B l r q1 w W f res t HI1 Hw1 HwW Ht Hs Hf r2 Em HI2)
    as (r3 & E2 & HI3 & Hw3 & Hh & Hto & _ & Hc & _).
  destruct (wake_workers_run B l r3 HI3) as (r' & E3 & Em' & Hc' & HI').
  exists r3, r'. split; [done|]. split; [done|]. split; [done|]. split; [by eapply waits_tasks|].
  split; [by eapply handed_tasks|]. split; [by eapply touched_tasks|congruence].
Qed.

Section Refinement.
  #[local] Set Default Proof Using "Type*".
  Context (lost : nat -> bool) (B : Z) (l : list worker_pc) (th : thread) (p i : nat) (t : vl_task).
  Context (r : vl_runtime_impl) (c : channel) (s : vl_channel_impl).
  Context (HI : Inv lost B l r) (Hr : runs th p i t r) (Hc : channel_rep c s r).

Definition refined (op : channel_op) : Prop :=
  let rsp := channel_spec i op c in
  exists s' r', channel_run th op (Some s) r = Some ((rsp_outcome rsp, Some s'), r') /\
    Inv lost B l r' /\ channel_rep (rsp_chan rsp) s' r' /\ channel_effect i t op c rsp r r'.

Lemma caller_apart : i ∉ (c_send c).*1 /\ i ∉ (c_recv c).*1.
Proof. split; (eapply waits_not_running; [apply Hc|apply Hr|apply Hr]). Qed.

Lemma quiet_refined op s' o : channel_spec i op c = quiet_response (Return o) c ->
  channel_run th op (Some s) r = Some ((Return o, Some s'), r) -> channel_rep c s' r -> refined op.
Proof.
  intros Es Er Hrep. unfold refined. rewrite Es. exists s', r. split; [done|]. split; [done|]. split; [done|].
  split; simpl; auto with veloco. done.
Qed.

Lemma rep_same_queues s' : senders s' = senders s -> receivers s' = receivers s -> closed s' = closed s ->
  ch_capacity s' = ch_capacity s -> ring s' (c_vals c) -> channel_rep c s' r.
Proof. intros E1 E2 E3 E4 Hg. destruct Hc. split; rewrite ?E1, ?E2, ?E3, ?E4; done. Qed.

(** *** Sending *)

Lemma send_buffers v : c_closed c = false -> c_recv c = [] -> Z.of_nat (length (c_vals c)) < c_cap c -> refined (Ch_send v).
Proof.
  intros Ecl Erc Hlt. destruct Hc as [Hcap Hring Hcl Hsnd Hval Hrcv Hout Hfull Hhun Hover].
  unfold refined. cbn [channel_run channel_spec]. unfold vl_channel_send. rewrite Ecl, Erc in *.
  rewrite (bind_Some _ _ _ _ _ (sync_current_run _ _ _ _ _ Hr)), Hcl.
  rewrite (bind_Some _ _ _ _ _ (wait_pop_nil _ _ Hrcv)). cbn zeta.
  destruct (buffer_push_run (set_receivers (receivers s) s) (c_vals c) v) as (s' & E & Hring' & E1 & E2 & E3 & E4);
    [by apply ring_set_receivers|simpl; rewrite (ring_length _ _ Hring), Hcap; done|].
  simpl. rewrite (ring_length _ _ Hring), Hcap, (proj2 (Z.ltb_lt _ _) Hlt).
  rewrite (bind_Some _ _ _ _ _ (lift_run _ _ _ E)). exists s', r. split; [done|]. split; [done|].
  split; [|split; simpl; auto with veloco; done].
  split; simpl; rewrite ?E1, ?E2, ?E3, ?E4; simpl; try done.
  intros HS. specialize (Hfull HS). lia.
Qed.

Lemma send_parks v : c_closed c = false -> c_recv c = [] -> c_cap c <= Z.of_nat (length (c_vals c)) -> refined (Ch_send v).
Proof.
  intros Ecl Erc Hge. pose proof caller_apart as [His _].
  destruct Hc as [Hcap Hring Hcl Hsnd Hval Hrcv Hout Hfull Hhun Hover].
  unfold refined. cbn [channel_run channel_spec]. unfold vl_channel_send. rewrite Ecl, Erc in *.
  rewrite (bind_Some _ _ _ _ _ (sync_current_run _ _ _ _ _ Hr)), Hcl.
  rewrite (bind_Some _ _ _ _ _ (wait_pop_nil _ _ Hrcv)). cbn zeta. simpl.
  rewrite (ring_length _ _ Hring), Hcap, (proj2 (Z.ltb_ge _ _) Hge).
  destruct (park_push_run th p i t r B l (senders s) _ (set_wait_value v) HI Hr Hsnd (quiet_value v))
    as (r1 & r2 & q' & r' & P1 & P2 & P3 & HI' & Hw' & Ht' & Hce & Hi').
  rewrite (bind_Some _ _ _ _ _ P1). simpl. rewrite (bind_Some _ _ _ _ _ P2), (bind_Some _ _ _ _ _ P3).
  eexists _, r'. split; [done|]. split; [done|]. split; [split; simpl|split; simpl]; auto with veloco; try congruence.
  - by rewrite fmap_app.
  - intros w x [Hin|Hin]%elem_of_app.
    + eapply values_frame; [exact Hval|exact Ht'| |exact Hin]. intros u Hu ->%list_elem_of_singleton. done.
    + apply list_elem_of_singleton in Hin. simplify_eq. rewrite Hi'. by destruct t.
  - destruct Hrcv as [[] _]. split; [by split|by intros ? ?%elem_of_nil].
  - by intros ? ? ?%elem_of_nil.
  - intros _. pose proof (ring_room _ _ Hring) as Hrm. rewrite (ring_length _ _ Hring), Hcap in Hrm. lia.
  - rewrite Erc. simpl. by rewrite app_nil_r.
Qed.

Lemma send_hands v w out V : c_closed c = false -> c_recv c = (w, out) :: V -> refined (Ch_send v).
Proof.
  intros Ecl Erc. destruct Hc as [Hcap Hring Hcl Hsnd Hval Hrcv Hout Hfull Hhun Hover].
  unfold refined. cbn [channel_run channel_spec]. unfold vl_channel_send. rewrite Ecl, Erc in *.
  rewrite (bind_Some _ _ _ _ _ (sync_current_run _ _ _ _ _ Hr)), Hcl.
  destruct (hand_over_cell B l r _ w V.*1 (set_wait_output None) VL_OK HI Hrcv (quiet_output None))
    as (q' & u & E1 & Hu & HI1 & Hk). cbn zeta in *.
  rewrite (bind_Some _ _ _ _ _ E1), (bind_Some _ _ _ _ _ (load_popped w u r)).
  destruct (Hout w out) as [Ho Hal]; [by left|]. rewrite Hu in Ho. simpl in Ho. injection Ho as Ho. simpl. rewrite Ho.
  erewrite bind_Some by (apply store_cell_run; exact Hal).
  destruct (Hk (set_cells (<[out := v]> (cells r)) (set_tasks (<[w := set_waiter_next None u]> (tasks r)) r)))
    as (r3 & r' & E2 & E3 & HI' & Hw' & Hh & Hto & Hce); [done|done|]. simpl in E2, Hce |- *.
  rewrite (bind_Some _ _ _ _ _ E2), (bind_Some _ _ _ _ _ E3). destruct Hhun as [Hv0 Hs0]; [done|]. rewrite Hs0 in *.
  eexists _, r'. split; [done|]. split; [done|].
  split; [split; simpl|split; simpl]; auto with veloco; try congruence.
  - eapply waits_touched; [exact Hsnd|exact Hto|]. by intros ? ?%elem_of_nil.
  - by intros ? ? ?%elem_of_nil.
  - eapply outputs_frame; [|exact Hto| |].
    + intros w' o' Hin. apply Hout. by right.
    + intros w' Hin ->%list_elem_of_singleton. by apply (waits_cons_apart _ _ _ _ Hrcv).
    + intros o Hal'. rewrite Hce. by apply insert_alive.
  - eapply touched_wider; [exact Hto|]. by intros ? ?%elem_of_nil.
Qed.

Lemma send_refined v : refined (Ch_send v).
Proof.
  destruct (c_closed c) eqn:Ecl.
  - apply (quiet_refined _ s VL_ERROR_CLOSED); [simpl; by rewrite Ecl| |done]. simpl. unfold vl_channel_send.
    by rewrite (bind_Some _ _ _ _ _ (sync_current_run _ _ _ _ _ Hr)), (ch_closed_eq _ _ _ Hc), Ecl.
  - destruct (c_recv c) as [|[w out] V] eqn:Erc; [|by eapply send_hands].
    destruct (Z.ltb_spec (Z.of_nat (length (c_vals c))) (c_cap c)); [by apply send_buffers|by apply send_parks].
Qed.

(** *** Receiving *)

Lemma recv_nil_of_send w v Q : c_send c = (w, v) :: Q -> c_recv c = [].
Proof. intros E. destruct (c_recv c) eqn:Er; [done|]. destruct (ch_hungry _ _ _ Hc); [by rewrite Er|congruence]. Qed.

Lemma recv_nil_of_vals x vals : c_vals c = x :: vals -> c_recv c = [].
Proof. intros E. destruct (c_recv c) eqn:Er; [done|]. destruct (ch_hungry _ _ _ Hc); [by rewrite Er|congruence]. Qed.

(** A buffered value, nobody waiting to send. *)
Lemma receive_buffered out x vals : c_vals c = x :: vals -> c_send c = [] -> is_Some (cells r !! out) ->
  refined (Ch_receive out).
Proof.
  intros Ev Es Hal. pose proof (recv_nil_of_vals _ _ Ev) as Erc.
  destruct Hc as [Hcap Hring Hcl Hsnd Hval Hrcv Hout Hfull Hhun Hover].
  unfold refined. cbn [channel_run channel_spec]. unfold vl_channel_receive. rewrite Ev, Es, Erc in *.
  rewrite (bind_Some _ _ _ _ _ (sync_current_run _ _ _ _ _ Hr)), (ring_length _ _ Hring). cbn [length negb].
  destruct (buffer_pop_run s x vals Hring) as (s1 & E & Hring' & E1 & E2 & E3 & E4).
  rewrite (proj2 (Z.eqb_neq _ _)) by lia. simpl.
  rewrite (bind_Some _ _ _ _ _ (lift_run _ _ _ E)). simpl.
  erewrite bind_Some by (apply store_cell_run; exact Hal). rewrite E3.
  rewrite (bind_Some _ _ _ _ _ (wait_pop_nil _ _ (waits_cells _ _ _ _ Hsnd))).
  eexists _, _. split; [done|]. split; [done|].
  split; [split; simpl|split; simpl]; rewrite ?E1, ?E2, ?E3, ?E4; auto with veloco; try congruence;
    try (by intros ? ? ?%elem_of_nil); try (by apply waits_cells); done.
Qed.

(** A buffered value; the longest waiting sender's value takes the freed slot. *)
Lemma receive_refills out x vals w y Q : c_vals c = x :: vals -> c_send c = (w, y) :: Q -> is_Some (cells r !! out) ->
  refined (Ch_receive out).
Proof.
  intros Ev Es Hal. pose proof (recv_nil_of_vals _ _ Ev) as Erc.
  destruct Hc as [Hcap Hring Hcl Hsnd Hval Hrcv Hout Hfull Hhun Hover].
  unfold refined. cbn [channel_run channel_spec]. unfold vl_channel_receive. rewrite Ev, Es, Erc in *.
  rewrite (bind_Some _ _ _ _ _ (sync_current_run _ _ _ _ _ Hr)), (ring_length _ _ Hring). cbn [length negb].
  destruct (buffer_pop_run s x vals Hring) as (s1 & E & Hring' & E1 & E2 & E3 & E4).
  rewrite (proj2 (Z.eqb_neq _ _)) by lia. simpl.
  rewrite (bind_Some _ _ _ _ _ (lift_run _ _ _ E)). simpl.
  erewrite bind_Some by (apply store_cell_run; exact Hal). rewrite E3. set (r0 := set_cells _ r).
  destruct (hand_over_cell B l r0 _ w Q.*1 (set_wait_value 0) VL_OK (Inv_set_cells _ _ _ _ _ HI) (waits_cells _ _ _ _ Hsnd) (quiet_value 0))
    as (q' & u & P1 & Hu & HI1 & Hk). cbn zeta in *.
  rewrite (bind_Some _ _ _ _ _ P1), (bind_Some _ _ _ _ _ (load_popped w u r0)).
  pose proof (Hval w y ltac:(by left)) as Hy. simpl in Hu. rewrite Hu in Hy. simpl in Hy. injection Hy as Hy. simpl. rewrite Hy.
  destruct (buffer_push_run (set_senders q' s1) vals y) as (s2 & F & Hring2 & F1 & F2 & F3 & F4);
    [by apply ring_set_senders|simpl; rewrite E1, (ring_length _ _ Hring'), Hcap; specialize (Hfull ltac:(done)); simpl in Hfull; lia|].
  rewrite (bind_Some _ _ _ _ _ (lift_run _ _ _ F)).
  destruct (Hk _ eq_refl HI1) as (r3 & r' & P2 & P3 & HI' & Hw' & Hh & Hto0 & Hce).
  assert (Hto : touched [w] [] r r') by (destruct Hto0; by split).
  rewrite (bind_Some _ _ _ _ _ P2), (bind_Some _ _ _ _ _ P3).
  eexists _, r'. split; [done|]. split; [done|]. simpl in F1, F2, F3, F4.
  split; [split; simpl|split; simpl]; rewrite ?F1, ?F2, ?F3, ?F4, ?E1, ?E2, ?E4; auto with veloco; try congruence.
  - eapply values_frame; [intros w' v' Hin; apply Hval; by right|exact Hto|].
    intros w' Hin ->%list_elem_of_singleton. by apply (waits_cons_apart _ _ _ _ Hsnd).
  - eapply waits_touched; [exact Hrcv|exact Hto|]. by intros ? ?%elem_of_nil.
  - by intros ? ? ?%elem_of_nil.
  - intros _. rewrite <- (Hfull ltac:(done)), length_app. simpl. lia.
  - intros Ht. destruct (Hover Ht) as [? _]. done.
  - eapply touched_wider; [exact Hto|]. by intros ? ?%elem_of_nil.
Qed.

(** No buffer: the value comes straight from the longest waiting sender. *)
Lemma receive_direct out w y Q : c_vals c = [] -> c_send c = (w, y) :: Q -> is_Some (cells r !! out) ->
  refined (Ch_receive out).
Proof.
  intros Ev Es Hal. pose proof (recv_nil_of_send _ _ _ Es) as Erc.
  destruct Hc as [Hcap Hring Hcl Hsnd Hval Hrcv Hout Hfull Hhun Hover].
  unfold refined. cbn [channel_run channel_spec]. unfold vl_channel_receive. rewrite Ev, Es, Erc in *.
  rewrite (bind_Some _ _ _ _ _ (sync_current_run _ _ _ _ _ Hr)), (ring_length _ _ Hring). simpl.
  destruct (hand_over_cell B l r _ w Q.*1 (set_wait_value 0) VL_OK HI Hsnd (quiet_value 0))
    as (q' & u & P1 & Hu & HI1 & Hk). cbn zeta in *.
  rewrite (bind_Some _ _ _ _ _ P1), (bind_Some _ _ _ _ _ (load_popped w u r)).
  pose proof (Hval w y ltac:(by left)) as Hy. rewrite Hu in Hy. simpl in Hy. injection Hy as Hy. simpl. rewrite Hy.
  erewrite bind_Some by (apply store_cell_run; exact Hal).
  destruct (Hk (set_cells (<[out := y]> (cells r)) (set_tasks (<[w := set_waiter_next None u]> (tasks r)) r)))
    as (r3 & r' & P2 & P3 & HI' & Hw' & Hh & Hto & Hce); [done|done|]. simpl in P2, Hce |- *.
  rewrite (bind_Some _ _ _ _ _ P2), (bind_Some _ _ _ _ _ P3).
  eexists _, r'. split; [done|]. split; [done|].
  split; [split; simpl|split; simpl]; auto with veloco; try congruence.
  - eapply values_frame; [intros w' v' Hin; apply Hval; by right|exact Hto|].
    intros w' Hin ->%list_elem_of_singleton. by apply (waits_cons_apart _ _ _ _ Hsnd).
  - eapply waits_touched; [exact Hrcv|exact Hto|]. by intros ? ?%elem_of_nil.
  - by intros ? ? ?%elem_of_nil.
  - intros Ht. destruct (Hover Ht) as [? _]. done.
  - eapply touched_wider; [exact Hto|]. by intros ? ?%elem_of_nil.
Qed.

Lemma receive_parks out : c_vals c = [] -> c_send c = [] -> c_closed c = false -> is_Some (cells r !! out) ->
  refined (Ch_receive out).
Proof.
  intros Ev Es Ecl Hal. pose proof caller_apart as [_ Hir].
  destruct Hc as [Hcap Hring Hcl Hsnd Hval Hrcv Hout Hfull Hhun Hover].
  unfold refined. cbn [channel_run channel_spec]. unfold vl_channel_receive. rewrite Ev, Es, Ecl in *.
  rewrite (bind_Some _ _ _ _ _ (sync_current_run _ _ _ _ _ Hr)), (ring_length _ _ Hring). simpl.
  rewrite (bind_Some _ _ _ _ _ (wait_pop_nil _ _ Hsnd)). cbn zeta. simpl. rewrite Hcl.
  destruct (park_push_run th p i t r B l (receivers s) _ (set_wait_output (Some out)) HI Hr Hrcv (quiet_output (Some out)))
    as (r1 & r2 & q' & r' & P1 & P2 & P3 & HI' & Hw' & Ht' & Hce & Hi').
  rewrite (bind_Some _ _ _ _ _ P1). simpl. rewrite (bind_Some _ _ _ _ _ P2), (bind_Some _ _ _ _ _ P3).
  eexists _, r'. split; [done|]. split; [done|]. split; [split; simpl|split; simpl]; auto with veloco; try congruence.
  - destruct Hsnd as [[] _]. split; [by split|by intros ? ?%elem_of_nil].
  - by intros ? ? ?%elem_of_nil.
  - by rewrite fmap_app.
  - intros w o [Hin|Hin]%elem_of_app.
    + eapply outputs_frame; [exact Hout|exact Ht'| |by rewrite Hce|exact Hin].
      intros u Hu ->%list_elem_of_singleton. done.
    + apply list_elem_of_singleton in Hin. simplify_eq. rewrite Hi', Hce. split; [by destruct t|done].
  - rewrite Es. done.
Qed.

Lemma receive_refined out : is_Some (cells r !! out) -> refined (Ch_receive out).
Proof.
  intros Hal. destruct (c_vals c) as [|x vals] eqn:Ev, (c_send c) as [|[w y] Q] eqn:Es.
  - destruct (c_closed c) eqn:Ecl; [|by apply receive_parks].
    apply (quiet_refined _ (set_senders (senders s) s) VL_ERROR_CLOSED).
    + simpl. by rewrite Ev, Es, Ecl.
    + simpl. pose proof (ch_senders _ _ _ Hc) as Hsnd. rewrite Es in Hsnd.
      rewrite (bind_Some _ _ _ _ _ (sync_current_run _ _ _ _ _ Hr)), (ring_length _ _ (ch_ring _ _ _ Hc)), Ev.
      simpl. rewrite (bind_Some _ _ _ _ _ (wait_pop_nil _ _ Hsnd)). simpl.
      by rewrite (ch_closed_eq _ _ _ Hc), Ecl.
    + apply rep_same_queues; try done. apply ring_set_senders, Hc.
  - by eapply receive_direct.
  - by eapply receive_buffered.
  - by eapply receive_refills.
Qed.

(** *** Closing *)

Lemma waits_or_nil {A C} (f : A -> nat) (g : C -> nat) (L : list A) (M : list C) : (L <> [] -> M = []) ->
  forall j, j ∈ f <$> L -> j ∉ g <$> M.
Proof. intros H j Hj. destruct L; [by apply elem_of_nil in Hj|]. rewrite H by done. apply not_elem_of_nil. Qed.

Lemma close_refined : refined Ch_close.
Proof.
  destruct (c_closed c) eqn:Ecl.
  { apply (quiet_refined _ s VL_ERROR_CLOSED); [simpl; by rewrite Ecl| |done]. simpl.
    by rewrite bind_run, (ch_closed_eq _ _ _ Hc), Ecl. }
  destruct Hc as [Hcap Hring Hcl Hsnd Hval Hrcv Hout Hfull Hhun Hover].
  unfold refined. cbn [channel_run channel_spec]. unfold vl_channel_close. rewrite bind_run, Hcl, Ecl. cbn zeta. simpl.
  destruct (drain_run B l (set_wait_value 0) VL_ERROR_CLOSED r (senders s) _ false (quiet_value 0) HI Hsnd)
    as (q1 & r1 & E1 & HI1 & Hw1 & Hh1 & Ht1 & Hc1 & _).
  rewrite (bind_Some _ _ _ _ _ E1). simpl.
  assert (Hap : forall j, j ∈ (c_recv c).*1 -> j ∉ (c_send c).*1) by (apply waits_or_nil; intros H; by apply Hhun).
  assert (Hrcv1 : waits r1 (receivers s) (c_recv c).*1) by by eapply waits_touched.
  destruct (drain_run B l (set_wait_output None) VL_ERROR_CLOSED r1 (receivers s) _
    (negb (length (c_send c).*1 =? 0)%nat) (quiet_output None) HI1 Hrcv1)
    as (q2 & r2 & E2 & HI2 & Hw2 & Hh2 & Ht2 & Hc2 & _).
  rewrite (bind_Some _ _ _ _ _ E2). simpl.
  set (wake := negb _ || _). assert (Hwk : exists r', (if wake then vl_runtime_wake_workers else mret tt) r2 = Some (tt, r') /\
    tasks r' = tasks r2 /\ cells r' = cells r2 /\ Inv lost B l r').
  { destruct wake; [|by exists r2]. destruct (wake_workers_run B l r2 HI2) as (r' & ? & ? & ? & ?). eauto. }
  destruct Hwk as (r' & E3 & Em & Hc3 & HI'). rewrite (bind_Some _ _ _ _ _ E3).
  assert (Hd : forall w, w ∈ (c_send c).*1 -> w ∉ (c_recv c).*1) by (intros w Hw Hw'; by eapply Hap).
  eexists _, r'. split; [done|]. split; [done|]. split; [split; simpl|split; simpl]; auto with veloco;
    try (by intros ? ? ?%elem_of_nil); try done.
  - eapply waits_tasks; [exact Em|]. eapply waits_touched; [exact Hw1|exact Ht2|]. by intros ? ?%elem_of_nil.
  - by eapply waits_tasks.
  - eapply handed_tasks; [exact Em|]. by eapply handed_later.
  - eapply handed_tasks; [exact Em|]. eapply handed_earlier; [apply quiet_output|exact Hh2|exact Ht1|done].
  - congruence.
  - eapply touched_tasks; [exact Em|]. eapply touched_wider; [by eapply touched_trans|]. by intros ? ?%elem_of_nil.
Qed.

End Refinement.

Lemma channel_refined lost B l th p i t r c s op : Inv lost B l r -> runs th p i t r -> channel_rep c s r ->
  out_alive op r -> refined lost B l th i t r c s op.
Proof.
  intros HI Hr Hc Ho. destruct op; [by eapply send_refined|by eapply receive_refined|by eapply close_refined].
Qed.

(** C17: The channel operations implement the abstract channel: a send goes to the longest
    waiting receiver, else into the buffer, else parks the sender; a receive takes the
    oldest buffered value (refilling the buffer from the longest waiting sender), else
    the value of the longest waiting sender, else reports a closed channel or parks;
    closing releases every waiting task with VL_ERROR_CLOSED.  No operation is
    undefined, the representation and the scheduler's invariant are kept, exactly the
    named tasks are released and exactly the named cell is written. *)
Theorem channel_refines lost B l th p i t r c s op : Inv lost B l r -> runs th p i t r -> channel_rep c s r ->
  out_alive op r ->
  let rsp := channel_spec i op c in
  exists s' r', channel_run th op (Some s) r = Some ((rsp_outcome rsp, Some s'), r') /\
    Inv lost B l r' /\ channel_rep (rsp_chan rsp) s' r' /\ channel_effect i t op c rsp r r'.
Proof. apply channel_refined. Qed.

(** ** Histories *)

(** The values an operation offers to the channel, and the values it delivers,
    read from the cells it filled. *)
Definition offers (op : channel_op) (o : outcome vl_status) : list Z :=
  match op, o with
  | Ch_send v, Return VL_OK | Ch_send v, Suspend => [v]
  | _, _ => []
  end.

Definition cell_content (out : option nat) (r : vl_runtime_impl) : list Z :=
  match out with Some c => option_list (cells r !! c) | None => [] end.

Definition takes (op : channel_op) (o : outcome vl_status) (s : vl_channel_impl) (r r' : vl_runtime_impl) : list Z :=
  match op, o with
  | Ch_receive out, Return VL_OK => cell_content (Some out) r'
  | Ch_send _, Return VL_OK =>
      match q_head (receivers s) with
      | Some w => cell_content (tasks r !! w ≫= wait_output) r'
      | None => []
      end
  | _, _ => []
  end.

Definition waiting (s : vl_channel_impl) (r : vl_runtime_impl) (j : nat) : Prop :=
  exists W, (waits r (senders s) W \/ waits r (receivers s) W) /\ j ∈ W.

(** What the channel relies on of a task that waits on it. *)
Definition wait_view (t : vl_task) : vl_task_state * option nat * Z * option nat :=
  (state t, waiter_next t, wait_value t, wait_output t).

(** Whatever else happens in the runtime does not wake the tasks waiting on the channel
    and does not write their wait fields: only the channel knows them.  Everything else
    of them may change: their worker leaves them (see [leave_undisturbed]), the list of
    all tasks grows, a wake-up is noted for later. *)
Definition undisturbed (s : vl_channel_impl) (r r' : vl_runtime_impl) : Prop :=
  forall j, waiting s r j -> wait_view <$> tasks r' !! j = wait_view <$> tasks r !! j /\
    forall t o, tasks r !! j = Some t -> wait_output t = Some o -> is_Some (cells r !! o) -> is_Some (cells r' !! o).

Inductive history (cap : Z) : vl_channel_impl -> vl_runtime_impl -> list Z -> list Z -> Prop :=
  | hist_init s r : vl_channel_init true None true true true cap = (VL_OK, Some s) -> history cap s r [] []
  | hist_op lost B l th p i t op o s r s' r' offered got :
      history cap s r offered got -> Inv lost B l r -> runs th p i t r -> out_alive op r ->
      channel_run th op (Some s) r = Some ((o, Some s'), r') ->
      history cap s' r' (offered ++ offers op o) (got ++ takes op o s r r')
  | hist_env s r r' offered got :
      history cap s r offered got -> undisturbed s r r' -> history cap s r' offered got.

(** What is inside the channel, oldest first. *)
Definition contents (c : channel) : list Z := c_vals c ++ (c_send c).*2.

Definition written (rsp : response) : list Z :=
  match rsp_write rsp with Some (_, v) => [v] | None => [] end.

Lemma takes_written c s r i t op r' : channel_rep c s r -> channel_effect i t op c (channel_spec i op c) r r' ->
  takes op (rsp_outcome (channel_spec i op c)) s r r' = written (channel_spec i op c).
Proof.
  intros Hc He. pose proof (ce_cells _ _ _ _ _ _ _ He) as Hce. destruct op as [v|out|]; simpl in *.
  - destruct (c_closed c); [done|]. pose proof (ch_receivers _ _ _ Hc) as Hrcv.
    destruct (c_recv c) as [|[w o] V] eqn:Erc; simpl in *.
    + rewrite (iq_head_nil _ _ _ _ (waits_repr _ _ _ Hrcv)). by destruct (_ <? _).
    + rewrite (iq_head_nil _ _ _ _ (waits_repr _ _ _ Hrcv)). simpl.
      destruct (ch_outputs _ _ _ Hc w o) as [Ho _]; [rewrite Erc; by left|].
      destruct (tasks r !! w); simplify_eq/=. rewrite Ho. simpl. by rewrite Hce, lookup_insert_eq.
  - destruct (c_vals c) as [|x vals], (c_send c) as [|[w y] Q]; simpl in *; try (by rewrite Hce, lookup_insert_eq).
    by destruct (c_closed c).
  - by destruct (c_closed c).
Qed.

(** The abstract channel is a queue. *)
Lemma spec_fifo c s r i op : channel_rep c s r -> op <> Ch_close \/ c_closed c = true ->
  let rsp := channel_spec i op c in
  contents c ++ offers op (rsp_outcome rsp) = written rsp ++ contents (rsp_chan rsp).
Proof.
  intros Hc Hop. destruct Hc as [_ _ _ _ _ _ _ Hfull Hhun _]. unfold contents.
  destruct op as [v|out|]; simpl.
  - destruct (c_closed c); [by rewrite app_nil_r|].
    destruct (c_recv c) as [|[w o] V] eqn:Erc; simpl.
    + destruct (Z.ltb_spec (Z.of_nat (length (c_vals c))) (c_cap c)); simpl.
      * destruct (c_send c); [by rewrite !app_nil_r|]. specialize (Hfull ltac:(done)). lia.
      * by rewrite fmap_app, app_assoc.
    + destruct Hhun as [-> ->]; done.
  - destruct (c_vals c) as [|x vals] eqn:Ev, (c_send c) as [|[w y] Q] eqn:Es; simpl; rewrite ?app_nil_r; try done.
    + destruct (c_closed c); simpl; rewrite ?Ev, ?Es; done.
    + by rewrite <- app_assoc.
  - destruct (c_closed c); [simpl; by rewrite app_nil_r|naive_solver].
Qed.

Lemma waits_view r r' q W : waits r q W ->
  (forall j, j ∈ W -> wait_view <$> tasks r' !! j = wait_view <$> tasks r !! j) -> waits r' q W.
Proof.
  intros [Hr Hp] Hf.
  assert (Hf' : forall j t, j ∈ W -> tasks r !! j = Some t ->
    exists t', tasks r' !! j = Some t' /\ wait_view t = wait_view t').
  { intros j t Hj Ht. specialize (Hf j Hj). rewrite Ht in Hf. by apply fmap_Some in Hf. }
  split.
  - eapply iq_repr_frame; [done|]. intros j t Hj Ht. destruct (Hf' j t Hj Ht) as (t' & E & [= _ Hn _ _]). by eauto.
  - intros j Hj. destruct (Hp j Hj) as (t & Ht & Hs). destruct (Hf' j t Hj Ht) as (t' & E & [= Hst _ _ _]).
    exists t'. split; congruence.
Qed.

Lemma undisturbed_rep c s r r' : channel_rep c s r -> undisturbed s r r' -> channel_rep c s r'.
Proof.
  intros [Hcap Hring Hcl Hsnd Hval Hrcv Hout Hfull Hhun Hover] Hu.
  assert (Hs : forall j, j ∈ (c_send c).*1 -> waiting s r j) by (intros j Hj; exists (c_send c).*1; auto).
  assert (Hv : forall j, j ∈ (c_recv c).*1 -> waiting s r j) by (intros j Hj; exists (c_recv c).*1; auto).
  assert (Hf : forall {A} (f : vl_task_state * option nat * Z * option nat -> A) j, waiting s r j ->
    f ∘ wait_view <$> tasks r' !! j = f ∘ wait_view <$> tasks r !! j).
  { intros A f j Hj. rewrite !option_fmap_compose. f_equal. by apply Hu. }
  split; try done.
  - eapply waits_view; [done|]. intros j Hj. by apply Hu, Hs.
  - intros w v Hw. rewrite <- (Hval w v Hw). apply (Hf _ (fun x => x.1.2)). eapply Hs, elem_of_fst, Hw.
  - eapply waits_view; [done|]. intros j Hj. by apply Hu, Hv.
  - intros w o Hw. destruct (Hout w o Hw) as [Ho Hal]. assert (Hww : waiting s r w) by eapply Hv, elem_of_fst, Hw.
    split; [etrans; [exact (Hf _ snd w Hww)|exact Ho]|].
    destruct (tasks r !! w) as [t|] eqn:Ht; [|done]. simpl in Ho. injection Ho as Ho. by eapply Hu.
Qed.

(** In particular the worker of a task that has parked on the channel may leave it
    (the last critical section of vl_worker_execute) before anyone releases it. *)
Lemma leave_undisturbed s r p i t u r' : waiting s r i -> tasks r !! i = Some t -> wake_pending t = false ->
  execute_leave p i VL_OK false r = Some (u, r') ->
  undisturbed s r r' /\ tasks r' !! i = Some (set_executing false t).
Proof.
  intros (W & Hw & Hi) Ht Hwp E. assert (Hst : state t = VL_TASK_WAITING).
  { destruct Hw as [[_ Hp]|[_ Hp]]; destruct (Hp i Hi) as (t' & Ht' & Hs'); congruence. }
  unfold execute_leave in E. apply bind_inv in E as (? & r1 & (t1 & Ht1 & ->)%upd_task_inv & E).
  assert (t1 = t) as -> by congruence.
  apply bind_inv in E as (? & r2 & ->%modify_inv & E).
  apply bind_inv in E as (? & r3 & (xp & Hxp & ->)%upd_p_inv & E).
  apply bind_inv in E as (? & r4 & E4 & E). unfold execute_settle in E4.
  rewrite (bind_Some _ _ _ _ _ (load_task_run _ _ _ (lookup_insert_eq _ _ _))) in E4.
  simpl in E4. rewrite Hwp, Hst in E4. simpl in E4. injection E4 as _ <-.
  assert (Hm : tasks r' = <[i := set_executing false t]> (tasks r) /\ cells r' = cells r).
  { revert E. rewrite (bind_Some (gets live_tasks) _ _ _ _ eq_refl). simpl.
    destruct (_ =? 0); simpl; intros [= _ <-]; simpl; repeat case_match; done. }
  destruct Hm as [Hm Hcl]. rewrite Hm. split; [|apply lookup_insert_eq].
  intros j _. rewrite Hm, Hcl. split; [|done].
  destruct (decide (j = i)) as [->|Hne]; [by rewrite lookup_insert_eq, Ht|by rewrite lookup_insert_ne].
Qed.

Lemma init_rep cap s r : vl_channel_init true None true true true cap = (VL_OK, Some s) -> 0 <= cap ->
  channel_rep (mk_chan cap [] [] [] false) s r.
Proof.
  unfold vl_channel_init. simpl. destruct (Z.ltb_spec (SIZE_MAX / 8) cap); [done|].
  rewrite andb_false_r. intros [= <-] Hcap. split; simpl; try done; try (by intros ? ? ?%elem_of_nil); try apply waits_empty.
  split; simpl; try done. rewrite length_replicate. lia.
Qed.

(** C4: A channel is a FIFO queue without loss or duplication: along every history of
    sends, receives and closes by tasks of the runtime, interleaved with any runtime
    activity that neither wakes a task waiting on the channel nor writes its wait fields
    (their workers leave them, other tasks run), the values delivered followed by the
    values still inside (buffered, then held by waiting senders) are a prefix of the
    values offered, in order, and all of them while the channel is open; only closing
    drops values, those of senders that are then told so.  The buffer never holds more
    than its capacity. *)
Theorem channel_fifo cap s r offered got : 0 <= cap -> history cap s r offered got ->
  exists c, channel_rep c s r /\ c_cap c = cap /\ Z.of_nat (length (c_vals c)) <= cap /\
    (got ++ contents c) `prefix_of` offered /\ (closed s = false -> offered = got ++ contents c).
Proof.
  intros Hcap Hh. induction Hh as [s r Hi|lost B l th p i t op o s r s' r' off got Hh IH HI Hr Ho E|s r r' off got Hh IH Hu].
  - eexists. split; [by eapply init_rep|]. by repeat split; simpl.
  - destruct IH as (c & Hc & Hcc & Hlen & Hpre & Heq).
    destruct (channel_refined lost B l th p i t r c s op HI Hr Hc Ho) as (s1 & r1 & E1 & HI1 & Hc1 & He).
    rewrite E in E1. injection E1 as -> <- <-. rewrite (takes_written _ _ _ _ _ _ _ Hc He).
    exists (rsp_chan (channel_spec i op c)). split; [done|].
    assert (Hcap' : c_cap (rsp_chan (channel_spec i op c)) = c_cap c).
    { destruct op; simpl; repeat case_match; done. }
    split; [congruence|]. split.
    { pose proof (ring_room _ _ (ch_ring _ _ _ Hc1)) as Hrm.
      rewrite (ring_length _ _ (ch_ring _ _ _ Hc1)), (ch_cap_eq _ _ _ Hc1), Hcap', Hcc in Hrm. done. }
    rewrite (ch_closed_eq _ _ _ Hc1). rewrite (ch_closed_eq _ _ _ Hc) in Heq.
    destruct (decide (op = Ch_close /\ c_closed c = false)) as [[-> Ecl]|Hop].
    + simpl. rewrite Ecl in *. simpl. rewrite !app_nil_r. split; [|done].
      unfold contents in *. simpl. rewrite app_nil_r.
      etrans; [|exact Hpre]. rewrite app_assoc. by apply prefix_app_r.
    + pose proof (spec_fifo c s r i op Hc) as Hf. cbn zeta in Hf. rewrite <- app_assoc, <- Hf.
      2: { destruct op; [by left..|]. right. destruct (c_closed c); naive_solver. }
      rewrite app_assoc. split.
      * destruct (c_closed c) eqn:Ecl.
        -- assert (Hno : offers op (rsp_outcome (channel_spec i op c)) = []).
           { destruct op; simpl; rewrite ?Ecl; repeat case_match; done. }
           rewrite Hno, !app_nil_r. done.
        -- rewrite <- (Heq eq_refl). done.
      * intros Hcl. rewrite <- (Heq); [done|]. destruct (c_closed c) eqn:Ecl; [|done].
        revert Hcl. destruct op; simpl; rewrite ?Ecl; repeat case_match; simpl; congruence.
  - destruct IH as (c & Hc & Hr'). exists c. split; [by eapply undisturbed_rep|done].
Qed.

(** ** Witnesses: task 1 sends and task 2 receives into cell 7 *)

Definition demo_cells : vl_runtime_impl := set_cells {[7%nat := 0]} demo.
Definition one_slot : vl_channel_impl := mk_channel [0] 1 0 0 false empty_queue empty_queue.

Lemma demo_cells_inv : Inv demo_lost 144 demo_pcs demo_cells.
Proof. apply Inv_set_cells, demo_inv. Qed.

Lemma demo_cells_runs i : i = 1%nat \/ i = 2%nat -> runs (on_p (i - 1)) (i - 1) i (demo_task i) demo_cells.
Proof. intros H. destruct (demo_runs i H). by split. Qed.

Lemma channel_refines_witness : exists s' r',
  channel_run (on_p 1) (Ch_receive 7) (Some one_slot) demo_cells = Some ((Suspend, Some s'), r') /\
  channel_rep (mk_chan 1 [] [] [(2%nat, 7%nat)] false) s' r'.
Proof.
  destruct (channel_refines demo_lost 144 demo_pcs (on_p 1) 1 2 (demo_task 2) demo_cells
    (mk_chan 1 [] [] [] false) one_slot (Ch_receive 7)) as (s' & r' & E & _ & Hs & _).
  - exact demo_cells_inv.
  - apply (demo_cells_runs 2). right. reflexivity.
  - apply (init_rep 1 one_slot demo_cells); [reflexivity|lia].
  - exists 0. vm_compute. reflexivity.
  - exists s', r'. split; assumption.
Defined.

(** On a channel without a buffer the sender blocks: task 1 offers 5 and parks, gives
    control back to its worker, the worker leaves it, and only then task 2 receives. *)
Definition no_slot : vl_channel_impl := mk_channel [] 0 0 0 false empty_queue empty_queue.
Definition offered_five : vl_runtime_impl := ran (vl_channel_send (on_p 0) 5 (Some no_slot)) demo_cells.
Definition sender_parked : vl_channel_impl :=
  mk_channel [] 0 0 0 false (mk_iqueue (Some 1%nat) (Some 1%nat) 1) empty_queue.

Definition with_offer : system := mk_system offered_five demo_pcs (skipped (after 2 two_workers)).
Definition sender_left : system :=
  default with_offer (run_labels [L_task 0 Op_suspend; L_worker 0 (mk_input 0 VL_OK VL_OK)] with_offer).
Definition both_done : vl_runtime_impl :=
  ran (vl_channel_receive (on_p 1) (Some 7%nat) (Some sender_parked)) (rt sender_left).

Lemma with_offer_inv : sys_inv 18 with_offer.
Proof.
  destruct (channel_refined demo_lost 144 demo_pcs (on_p 0) 0 1 (demo_task 1) demo_cells (mk_chan 0 [] [] [] false)
    no_slot (Ch_send 5) demo_cells_inv (demo_cells_runs 1 (or_introl eq_refl))) as (s1 & r1 & E & HI & _ & _);
    [apply init_rep; [reflexivity|lia]|done|].
  assert (Er : r1 = offered_five) by (unfold offered_five, ran; cbn [channel_run] in E; rewrite E; reflexivity).
  subst r1. split; [exact HI|]. vm_compute. repeat constructor; lia.
Qed.

Lemma sender_left_inv : sys_inv 20 sender_left.
Proof.
  unfold sender_left, run_labels, mbind, option_bind.
  destruct (step (L_task 0 Op_suspend) with_offer) as [s1|] eqn:E1; [|vm_compute in E1; discriminate].
  destruct (step (L_worker 0 (mk_input 0 VL_OK VL_OK)) s1) as [s2|] eqn:E2;
    [|vm_compute in E1; injection E1 as <-; vm_compute in E2; discriminate].
  eapply system_step_inv in E1; [|exact with_offer_inv|done]. by eapply system_step_inv in E2; [|exact E1|].
Qed.

Lemma sender_left_undisturbed : undisturbed sender_parked offered_five (rt sender_left).
Proof.
  assert (Hm : wait_view <$> tasks (rt sender_left) = wait_view <$> tasks offered_five) by (vm_compute; reflexivity).
  assert (Hc : cells (rt sender_left) = cells offered_five) by (vm_compute; reflexivity).
  intros j _. rewrite Hc. split; [|done]. by rewrite <- !lookup_fmap, Hm.
Qed.

(** The sender that had to wait has left its worker when its value is taken. *)
Lemma blocking_history : history 0 no_slot both_done [5] [5] /\
  executing <$> tasks (rt sender_left) !! 1%nat = Some false.
Proof.
  split; [|vm_compute; reflexivity].
  pose proof (hist_op 0 (lost_in sender_left) 160 (pcs sender_left) (on_p 1) 1 2
    (default new_task (tasks (rt sender_left) !! 2%nat)) (Ch_receive 7) (Return VL_OK)
    sender_parked (rt sender_left) no_slot both_done [5] []) as H.
  assert (Et : takes (Ch_receive 7) (Return VL_OK) sender_parked (rt sender_left) both_done = [5])
    by (vm_compute; reflexivity).
  rewrite Et in H. apply H; clear H Et.
  - eapply hist_env; [|apply sender_left_undisturbed].
    apply (hist_op 0 demo_lost 144 demo_pcs (on_p 0) 0 1 (demo_task 1) (Ch_send 5) Suspend
      no_slot demo_cells sender_parked offered_five [] []);
      [by apply hist_init|exact demo_cells_inv|apply (demo_cells_runs 1); by left|done|].
    vm_compute. reflexivity.
  - apply (si_inv 20), sender_left_inv.
  - apply runs_compute; vm_compute; reflexivity.
  - exists 0. vm_compute. reflexivity.
  - vm_compute. reflexivity.
Qed.

Lemma channel_fifo_witness : exists c, channel_rep c no_slot both_done /\ [5] = [5] ++ contents c.
Proof.
  destruct (channel_fifo 0 no_slot both_done [5] [5]) as (c & Hc & _ & _ & _ & He);
    [lia|apply blocking_history|].
  exists c. split; [exact Hc|]. apply He. reflexivity.
Defined.

(** ** Destruction *)

Lemma waits_eqb lost B l r q W : Inv lost B l r -> B < W64 -> waits r q W ->
  negb (q_length q =? 0) = bool_decide (W <> []).
Proof.
  intros HI HB Hw. pose proof (waits_zero B l r q W HI HB Hw) as Hz.
  destruct (Z.eqb_spec (q_length q) 0) as [E|E]; symmetry.
  - apply bool_decide_eq_false_2. intros H. by apply H, Hz.
  - apply bool_decide_eq_true_2. intros H. by apply E, Hz.
Qed.

(** A synchronisation object is destroyed exactly when no task waits on it (and, for a
    mutex, nobody owns it; for a wait group, its count is zero): destroying never leaves
    a parked task with a wait queue that has been freed, and never refuses otherwise. *)
Theorem sync_destroy_safe lost B l r : Inv lost B l r -> B < W64 ->
  (forall n W s, semaphore_rep n W s r ->
     vl_semaphore_destroy (Some s) = if decide (W = []) then (VL_OK, None) else (VL_ERROR_INVALID_STATE, Some s)) /\
  (forall o W s, mutex_rep o W s r ->
     vl_task_mutex_destroy (Some s) = if decide (o = None) then (VL_OK, None) else (VL_ERROR_INVALID_STATE, Some s)) /\
  (forall n W s, wait_group_rep n W s r ->
     vl_wait_group_destroy (Some s) = if decide (n = 0) then (VL_OK, None) else (VL_ERROR_INVALID_STATE, Some s)) /\
  (forall c s, channel_rep c s r ->
     vl_channel_destroy (Some s) =
       if decide (c_send c = [] /\ c_recv c = []) then (VL_OK, None) else (VL_ERROR_INVALID_STATE, Some s)).
Proof.
  intros HI HB. split; [|split; [|split]].
  - intros n W s [_ _ Hw _]. unfold vl_semaphore_destroy. rewrite (waits_eqb lost B l r _ W HI HB Hw).
    destruct W; done.
  - intros o W s [Ho Hw Hh _]. unfold vl_task_mutex_destroy. rewrite Ho, (waits_eqb lost B l r _ W HI HB Hw).
    destruct o; [done|]. destruct W; [done|]. by destruct Hh.
  - intros n W s [Hn _ Hw Hp]. unfold vl_wait_group_destroy. rewrite Hn, (waits_eqb lost B l r _ W HI HB Hw).
    destruct (decide (n = 0)) as [->|Hne]; [|by rewrite (proj2 (Z.eqb_neq _ _) Hne)].
    destruct W; [done|]. by destruct Hp.
  - intros c s Hc. unfold vl_channel_destroy.
    rewrite (waits_eqb lost B l r _ _ HI HB (ch_senders _ _ _ Hc)), (waits_eqb lost B l r _ _ HI HB (ch_receivers _ _ _ Hc)).
    destruct (c_send c), (c_recv c); done.
Qed.

Lemma sync_destroy_safe_witness :
  vl_channel_destroy (Some one_slot) = (VL_OK, None) /\
  vl_task_mutex_destroy (Some (mk_task_mutex (Some 2%nat) empty_queue)) =
    (VL_ERROR_INVALID_STATE, Some (mk_task_mutex (Some 2%nat) empty_queue)).
Proof.
  destruct (sync_destroy_safe demo_lost 144 demo_pcs demo_cells demo_cells_inv ltac:(unfold W64; lia))
    as (_ & Hm & _ & Hc).
  split.
  - apply (Hc (mk_chan 1 [] [] [] false)). apply (init_rep 1 one_slot demo_cells); [reflexivity|lia].
  - apply (Hm (Some 2%nat) []). split; [reflexivity|apply waits_empty|done|]. intros h _. apply not_elem_of_nil.
Defined.
