(* ===== verification/HttpParser.v ===== *)
(** * The HTTP request parser (src/http/http_parser.c)

    A byte is a [Z] in 0..255, a pointer into the parser's buffer is an index.
    The buffer is the block [malloc] returned ([capacity + 1] bytes, contents
    arbitrary), and the parser writes terminating zeros into it as the code does;
    an access outside it is undefined behaviour ([None] of the monad).  The C
    strings inside fixed arrays ([method], [path], header names and values) are
    the bytes before their terminator, the [headers] array is the list of its
    [header_count] filled entries. *)

From stdpp Require Import strings.
From S2P Require Import Prelude.
From stdpp Require Import options.

Open Scope Z_scope.

(** ** C strings *)

Definition bytes (s : string) : list Z := (fun a => Z.of_N (Ascii.N_of_ascii a)) <$> String.list_ascii_of_string s.

Definition CR : Z := 13.
Definition LF : Z := 10.
Definition SPACE : Z := 32.
Definition COLON : Z := 58.
Definition SLASH : Z := 47.

(** [isspace] and [tolower] of the C locale. *)
Definition isspace (c : Z) : bool := (c =? 32) || ((9 <=? c) && (c <=? 13)).
Definition tolower (c : Z) : Z := if (65 <=? c) && (c <=? 90) then c + 32 else c.
Definition isdigit (c : Z) : bool := (48 <=? c) && (c <=? 57).

(** [strchr], [strstr(_, "\r\n")] and [strlen] on the bytes from a pointer on; the
    outer option is a read past the end of the block. *)
Fixpoint scan_chr (l : list Z) (c : Z) : option (option nat) :=
  match l with
  | [] => None
  | b :: l => if b =? c then Some (Some 0%nat) else if b =? 0 then Some None else option_map S <$> scan_chr l c
  end.

Fixpoint scan_crlf (l : list Z) : option (option nat) :=
  match l with
  | [] => None
  | b :: l =>
      if b =? 0 then Some None
      else if b =? CR then
        match l with
        | [] => None
        | b2 :: _ => if b2 =? LF then Some (Some 0%nat) else option_map S <$> scan_crlf l
        end
      else option_map S <$> scan_crlf l
  end.

Fixpoint scan_len (l : list Z) : option nat :=
  match l with
  | [] => None
  | b :: l => if b =? 0 then Some 0%nat else S <$> scan_len l
  end.

(** Are the bytes from here on those of [lit]?  The comparison stops at the first difference. *)
Fixpoint scan_eq (l lit : list Z) {struct lit} : option bool :=
  match lit with
  | [] => Some true
  | c :: lit =>
      match l with
      | [] => None
      | b :: l => if b =? c then scan_eq l lit else Some false
      end
  end.

(** [strtoul(value, &end, 10)] on a whole string: the number parsed, how many bytes
    were consumed (0 when there is no number) and whether errno is ERANGE. *)
Definition ULONG_MAX : Z := W64 - 1.

Fixpoint digits_value (l : list Z) (acc : Z) : Z * nat :=
  match l with
  | c :: l =>
      if isdigit c then let '(v, n) := digits_value l (10 * acc + (c - 48)) in (v, S n) else (acc, 0%nat)
  | [] => (acc, 0%nat)
  end.

Fixpoint skip_spaces (l : list Z) : nat :=
  match l with c :: l => if isspace c then S (skip_spaces l) else 0%nat | [] => 0%nat end.

Definition strtoul (l : list Z) : Z * nat * bool :=
  let sp := skip_spaces l in
  let l1 := drop sp l in
  let '(neg, sg) := match l1 with
                    | 45 :: _ => (true, 1%nat)
                    | 43 :: _ => (false, 1%nat)
                    | _ => (false, 0%nat)
                    end in
  let '(v, n) := digits_value (drop sg l1) 0 in
  if (n =? 0)%nat then (0, 0%nat, false)
  else if ULONG_MAX <? v then (ULONG_MAX, (sp + sg + n)%nat, true)
  else ((if neg : bool then w64 (- v) else v), (sp + sg + n)%nat, false).

(** The digits snprintf writes for [%zu] and [%d]; [fuel] digits are enough below [10 ^ fuel]. *)
Fixpoint decimal (fuel : nat) (n : Z) : list Z :=
  match fuel with
  | O => []
  | S fuel => (if n <? 10 then [] else decimal fuel (n / 10)) ++ [48 + n mod 10]
  end.

Definition print_dec (n : Z) : list Z := decimal 20 n.

(** ** Data (include/veloco/http.h) *)

Definition VL_HTTP_MAX_METHOD : Z := 8.
Definition VL_HTTP_MAX_PATH : Z := 256.
Definition VL_HTTP_MAX_HEADERS : Z := 32.
Definition VL_HTTP_MAX_HEADER_NAME : Z := 64.
Definition VL_HTTP_MAX_HEADER_VALUE : Z := 256.
Definition VL_HTTP_DEFAULT_MAX_REQUEST_LINE : Z := 1024.
Definition VL_HTTP_DEFAULT_MAX_HEADER_BYTES : Z := 8192.
Definition VL_HTTP_DEFAULT_MAX_BODY_BYTES : Z := 64 * 1024.
Definition VL_HTTP_DEFAULT_MAX_CONNECTIONS : Z := 1024.
Definition VL_HTTP_DEFAULT_READ_TIMEOUT_NS : Z := 5000000000.
Definition VL_HTTP_DEFAULT_WRITE_TIMEOUT_NS : Z := 5000000000.

Record vl_http_config := mk_http_config {
  max_request_line : Z;
  max_header_bytes : Z;
  max_body_bytes : Z;
  max_connections : Z;
  read_timeout_ns : Z;
  write_timeout_ns : Z }.

Record vl_http_header := mk_http_header { h_name : list Z; h_value : list Z }.

Record vl_http_request := mk_http_request {
  method : list Z;
  path : list Z;
  http_major : Z;
  http_minor : Z;
  headers : list vl_http_header;
  content_length : Z;
  keep_alive : bool;
  body : option nat;
  body_length : Z }.

Definition set_method (v : list Z) (q : vl_http_request) : vl_http_request :=
  mk_http_request v (path q) (http_major q) (http_minor q) (headers q) (content_length
    q) (keep_alive q) (body q) (body_length q).
Definition set_path (v : list Z) (q : vl_http_request) : vl_http_request :=
  mk_http_request (method q) v (http_major q) (http_minor q) (headers q) (content_length
    q) (keep_alive q) (body q) (body_length q).
Definition set_http_major (v : Z) (q : vl_http_request) : vl_http_request :=
  mk_http_request (method q) (path q) v (http_minor q) (headers q) (content_length q)
    (keep_alive q) (body q) (body_length q).
Definition set_http_minor (v : Z) (q : vl_http_request) : vl_http_request :=
  mk_http_request (method q) (path q) (http_major q) v (headers q) (content_length q)
    (keep_alive q) (body q) (body_length q).
Definition set_headers (v : list vl_http_header) (q : vl_http_request) : vl_http_request :=
  mk_http_request (method q) (path q) (http_major q) (http_minor q) v (content_length q)
    (keep_alive q) (body q) (body_length q).
Definition set_content_length (v : Z) (q : vl_http_request) : vl_http_request :=
  mk_http_request (method q) (path q) (http_major q) (http_minor q) (headers q) v
    (keep_alive q) (body q) (body_length q).
Definition set_keep_alive (v : bool) (q : vl_http_request) : vl_http_request :=
  mk_http_request (method q) (path q) (http_major q) (http_minor q) (headers q)
    (content_length q) v (body q) (body_length q).
Definition set_body (v : option nat) (q : vl_http_request) : vl_http_request :=
  mk_http_request (method q) (path q) (http_major q) (http_minor q) (headers q)
    (content_length q) (keep_alive q) v (body_length q).
Definition set_body_length (v : Z) (q : vl_http_request) : vl_http_request :=
  mk_http_request (method q) (path q) (http_major q) (http_minor q) (headers q)
    (content_length q) (keep_alive q) (body q) v.

Definition header_count (q : vl_http_request) : Z := Z.of_nat (length (headers q)).

Inductive vl_http_parse_status := VL_HTTP_PARSE_NEED_MORE | VL_HTTP_PARSE_COMPLETE | VL_HTTP_PARSE_ERROR.

#[export] Instance vl_http_parse_status_eq_dec : EqDecision vl_http_parse_status.
Proof. solve_decision. Defined.

Inductive vl_http_error :=
  | VL_HTTP_ERROR_NONE | VL_HTTP_ERROR_BAD_REQUEST | VL_HTTP_ERROR_LENGTH_REQUIRED
  | VL_HTTP_ERROR_PAYLOAD_TOO_LARGE | VL_HTTP_ERROR_HEADER_TOO_LARGE.

#[export] Instance vl_http_error_eq_dec : EqDecision vl_http_error.
Proof. solve_decision. Defined.

Record vl_http_parser := mk_http_parser {
  config : vl_http_config;
  request : vl_http_request;
  buffer : option (list Z);
  capacity : Z;
  p_length : Z;
  header_end : Z;
  error : vl_http_error;
  complete : bool }.

Definition set_config (v : vl_http_config) (p : vl_http_parser) : vl_http_parser :=
  mk_http_parser v (request p) (buffer p) (capacity p) (p_length p) (header_end p)
    (error p) (complete p).
Definition set_request (v : vl_http_request) (p : vl_http_parser) : vl_http_parser :=
  mk_http_parser (config p) v (buffer p) (capacity p) (p_length p) (header_end p) (error
    p) (complete p).
Definition set_buffer (v : option (list Z)) (p : vl_http_parser) : vl_http_parser :=
  mk_http_parser (config p) (request p) v (capacity p) (p_length p) (header_end p)
    (error p) (complete p).
Definition set_capacity (v : Z) (p : vl_http_parser) : vl_http_parser :=
  mk_http_parser (config p) (request p) (buffer p) v (p_length p) (header_end p) (error
    p) (complete p).
Definition set_p_length (v : Z) (p : vl_http_parser) : vl_http_parser :=
  mk_http_parser (config p) (request p) (buffer p) (capacity p) v (header_end p) (error
    p) (complete p).
Definition set_header_end (v : Z) (p : vl_http_parser) : vl_http_parser :=
  mk_http_parser (config p) (request p) (buffer p) (capacity p) (p_length p) v (error p)
    (complete p).
Definition set_error (v : vl_http_error) (p : vl_http_parser) : vl_http_parser :=
  mk_http_parser (config p) (request p) (buffer p) (capacity p) (p_length p) (header_end
    p) v (complete p).
Definition set_complete (v : bool) (p : vl_http_parser) : vl_http_parser :=
  mk_http_parser (config p) (request p) (buffer p) (capacity p) (p_length p) (header_end
    p) (error p) v.

(** ** Accesses *)

Notation H := (C vl_http_parser).

Definition on_buffer {A} (f : list Z -> option A) : H A := deref (fun p => b ← buffer p; f b).

Definition store_byte (i : nat) (v : Z) : H unit := fun p =>
  match buffer p with
  | Some b => if (i <? length b)%nat then Some (tt, set_buffer (Some (<[i := v]> b)) p) else None
  | None => None
  end.

(** [memcpy(buffer + i, data, n)]. *)
Definition store_bytes (i : nat) (data : list Z) : H unit := fun p =>
  match buffer p with
  | Some b =>
      if (i + length data <=? length b)%nat
      then Some (tt, set_buffer (Some (take i b ++ data ++ drop (i + length data) b)) p) else None
  | None => None
  end.

Definition load_byte (i : nat) : H Z := on_buffer (fun b => b !! i).
Definition strchr (i : nat) (c : Z) : H (option nat) := on_buffer (fun b => option_map (fun k => (i + k)%nat) <$> scan_chr (drop i b) c).
Definition strstr_crlf (i : nat) : H (option nat) := on_buffer (fun b => option_map (fun k => (i + k)%nat) <$> scan_crlf (drop i b)).
Definition strlen (i : nat) : H nat := on_buffer (fun b => scan_len (drop i b)).
(** [strncmp(s, lit, n) == 0] for the [n] bytes of [lit], and [strcmp(s, lit) == 0]. *)
Definition strncmp_eq (i : nat) (lit : list Z) : H bool := on_buffer (fun b => scan_eq (drop i b) lit).
Definition strcmp_eq (i : nat) (lit : list Z) : H bool := strncmp_eq i (lit ++ [0]).
Definition load_bytes (i n : nat) : H (list Z) :=
  on_buffer (fun b => if (i + n <=? length b)%nat then Some (take n (drop i b)) else None).

Definition upd_request (f : vl_http_request -> vl_http_request) : H unit :=
  modify (fun p => set_request (f (request p)) p).

(** ** The functions *)

Definition vl_http_set_error (e : vl_http_error) : H unit := modify (set_error e).

Definition vl_http_config_default : vl_http_config :=
  mk_http_config VL_HTTP_DEFAULT_MAX_REQUEST_LINE VL_HTTP_DEFAULT_MAX_HEADER_BYTES VL_HTTP_DEFAULT_MAX_BODY_BYTES
    VL_HTTP_DEFAULT_MAX_CONNECTIONS VL_HTTP_DEFAULT_READ_TIMEOUT_NS VL_HTTP_DEFAULT_WRITE_TIMEOUT_NS.

(** The clamping of [vl_http_parser_init]. *)
Definition effective_config (c : vl_http_config) : vl_http_config :=
  mk_http_config
    (if (max_request_line c =? 0) || (VL_HTTP_DEFAULT_MAX_HEADER_BYTES <? max_request_line c)
     then VL_HTTP_DEFAULT_MAX_REQUEST_LINE else max_request_line c)
    (if (max_header_bytes c =? 0) || (VL_HTTP_DEFAULT_MAX_HEADER_BYTES <? max_header_bytes c)
     then VL_HTTP_DEFAULT_MAX_HEADER_BYTES else max_header_bytes c)
    (if VL_HTTP_DEFAULT_MAX_BODY_BYTES <? max_body_bytes c then VL_HTTP_DEFAULT_MAX_BODY_BYTES else max_body_bytes c)
    (max_connections c) (read_timeout_ns c) (write_timeout_ns c).

Definition empty_request : vl_http_request := mk_http_request [] [] 0 0 [] 0 false None 0.

(** [malloc n] is the block of [n] bytes the allocator returned, or [None]. *)
Definition vl_http_parser_init (malloc : Z -> option (list Z)) (cfg : option vl_http_config) : vl_http_parser :=
  let c := effective_config (default vl_http_config_default cfg) in
  let cap := w64 (max_header_bytes c + max_body_bytes c) in
  match malloc (w64 (cap + 1)) with
  | Some b => mk_http_parser c empty_request (Some b) cap 0 0 VL_HTTP_ERROR_NONE false
  | None => mk_http_parser c empty_request None 0 0 0 VL_HTTP_ERROR_NONE false
  end.

Definition vl_http_parser_destroy (p : vl_http_parser) : vl_http_parser := set_capacity 0 (set_buffer None p).

Definition starts_crlfcrlf (l : list Z) : bool :=
  match l with
  | a :: b :: c :: d :: _ => (a =? CR) && (b =? LF) && (c =? CR) && (d =? LF)
  | _ => false
  end.

(** The loop of [vl_http_find_header_end] over the first [length] bytes. *)
Fixpoint find_crlfcrlf (l : list Z) : option nat :=
  match l with
  | [] => None
  | c :: l' =>
      if starts_crlfcrlf l then Some 4%nat else S <$> find_crlfcrlf l'
  end.

Definition vl_http_find_header_end (len : Z) : H (option nat) :=
  on_buffer (fun b => if (length b <? Z.to_nat len)%nat then None else Some (find_crlfcrlf (take (Z.to_nat len) b))).

(** [None] is VL_ERROR_INVALID_ARGUMENT, otherwise the string now in [dest]. *)
Definition vl_http_token_copy (dest_size : Z) (start len : nat) : H (option (list Z)) :=
  if (len =? 0)%nat || (dest_size <=? Z.of_nat len) then mret None else
  s ← load_bytes start len;
  mret (Some s).

Definition vl_http_parse_content_length (value : list Z) : option Z :=
  match value with
  | [] => None
  | _ =>
      let '(parsed, consumed, erange) := strtoul value in
      if erange || (consumed =? 0)%nat || negb (consumed =? length value)%nat || (SIZE_MAX <? parsed)
      then None else Some parsed
  end.

Fixpoint vl_http_equals_ci (lft rgt : list Z) : bool :=
  match lft, rgt with
  | a :: lft, b :: rgt => if negb (tolower a =? tolower b) then false else vl_http_equals_ci lft rgt
  | [], [] => true
  | _, _ => false
  end.

(** The two loops of [vl_http_trim], over the [n] bytes between the pointers. *)
Fixpoint trim_start (n : nat) (start : nat) : H nat :=
  match n with
  | O => mret start
  | S n => c ← load_byte start; if isspace c then trim_start n (S start) else mret start
  end.

Fixpoint trim_end (n : nat) (stop : nat) : H nat :=
  match n with
  | O => mret stop
  | S n => c ← load_byte (stop - 1); if isspace c then trim_end n (stop - 1) else mret stop
  end.

Definition vl_http_trim (start stop : nat) : H (nat * nat) :=
  s ← trim_start (stop - start) start;
  e ← trim_end (stop - s) stop;
  mret (s, e).

(** [strcmp(method, "GET") == 0 || ...]. *)
Definition known_method (line : nat) : H bool :=
  get ← strcmp_eq line (bytes "GET");
  post ← (if get : bool then mret true else strcmp_eq line (bytes "POST"));
  if post : bool then mret true else strcmp_eq line (bytes "HEAD").

(** The end of [vl_http_parse_request_line]: the copies and the version fields. *)
Definition store_request_line (line pth : nat) (minor : Z) : H vl_status :=
  mlen ← strlen line;
  m ← vl_http_token_copy VL_HTTP_MAX_METHOD line mlen;
  match m with
  | None => mret VL_ERROR_INVALID_ARGUMENT
  | Some m =>
      _ ← upd_request (set_method m);
      plen ← strlen pth;
      q ← vl_http_token_copy VL_HTTP_MAX_PATH pth plen;
      match q with
      | None => mret VL_ERROR_INVALID_ARGUMENT
      | Some q =>
          _ ← upd_request (set_path q);
          _ ← upd_request (set_http_major 1);
          _ ← upd_request (set_http_minor minor);
          _ ← upd_request (set_keep_alive (minor =? 1));
          mret VL_OK
      end
  end.

Definition vl_http_parse_request_line (line : nat) : H vl_status :=
  sp1 ← strchr line SPACE;
  cfg ← gets config;
  match sp1 with
  | None => mret VL_ERROR_INVALID_ARGUMENT
  | Some sp1 =>
      if max_request_line cfg <? Z.of_nat (sp1 - line) then mret VL_ERROR_INVALID_ARGUMENT else
      _ ← store_byte sp1 0;
      let pth := S sp1 in
      sp2 ← strchr pth SPACE;
      match sp2 with
      | None => mret VL_ERROR_INVALID_ARGUMENT
      | Some sp2 =>
          _ ← store_byte sp2 0;
          let version := S sp2 in
          v1 ← strncmp_eq version (bytes "HTTP/1.");
          if negb v1 then mret VL_ERROR_INVALID_ARGUMENT else
          v7 ← load_byte (version + 7);
          if negb (v7 =? 48) && negb (v7 =? 49) then mret VL_ERROR_INVALID_ARGUMENT else
          v8 ← load_byte (version + 8);
          if negb (v8 =? 0) then mret VL_ERROR_INVALID_ARGUMENT else
          known ← known_method line;
          if negb known then mret VL_ERROR_INVALID_ARGUMENT else
          p0 ← load_byte pth;
          if negb (p0 =? SLASH) then mret VL_ERROR_INVALID_ARGUMENT else
          store_request_line line pth (v7 - 48)
      end
  end.

(** One header line from [cursor] to [line_end]: everything between the tests of the
    loop and [cursor = line_end + 2].  Returns the status and [saw_content_length]. *)
Definition parse_header_line (cursor line_end : nat) (saw : bool) : H (vl_status * bool) :=
  let fail := mret (VL_ERROR_INVALID_ARGUMENT, saw) in
  _ ← store_byte line_end 0;
  colon ← strchr cursor COLON;
  match colon with
  | None => fail
  | Some colon =>
      if (colon =? cursor)%nat then fail else
      nm ← vl_http_trim cursor colon;
      vl ← vl_http_trim (S colon) line_end;
      name ← vl_http_token_copy VL_HTTP_MAX_HEADER_NAME nm.1 (nm.2 - nm.1);
      match name with
      | None => fail
      | Some name =>
          value ← vl_http_token_copy VL_HTTP_MAX_HEADER_VALUE vl.1 (vl.2 - vl.1);
          match value with
          | None => fail
          | Some value =>
              _ ← upd_request (fun q => set_headers (headers q ++ [mk_http_header name value]) q);
              if vl_http_equals_ci name (bytes "Content-Length") then
                if saw then fail else
                match vl_http_parse_content_length value with
                | None => fail
                | Some n => _ ← upd_request (set_content_length n); mret (VL_OK, true)
                end
              else
              _ ← (if vl_http_equals_ci name (bytes "Connection") then
                     if vl_http_equals_ci value (bytes "close") then upd_request (set_keep_alive false)
                     else if vl_http_equals_ci value (bytes "keep-alive") then upd_request (set_keep_alive true)
                     else mret tt
                   else mret tt);
              mret (VL_OK, saw)
          end
      end
  end.

(** [for (;;)]: every round but the last adds a header, and the code stops at
    [VL_HTTP_MAX_HEADERS] of them. *)
Fixpoint parse_headers_loop (fuel : nat) (cursor : nat) (saw : bool) : H vl_status :=
  line_end ← strstr_crlf cursor;
  match line_end with
  | None => mret VL_ERROR_INVALID_ARGUMENT
  | Some line_end =>
      if (line_end =? cursor)%nat then mret VL_OK else
      count ← gets (fun p => header_count (request p));
      if VL_HTTP_MAX_HEADERS <=? count then mret VL_ERROR_INVALID_ARGUMENT else
      match fuel with
      | O => ub
      | S fuel =>
          r ← parse_header_line cursor line_end saw;
          if decide (r.1 = VL_OK) then parse_headers_loop fuel (line_end + 2)%nat r.2
          else mret VL_ERROR_INVALID_ARGUMENT
      end
  end.

Definition vl_http_parse_headers (cursor : nat) : H vl_status :=
  parse_headers_loop (Z.to_nat VL_HTTP_MAX_HEADERS) cursor false.

Definition vl_http_parse_head : H vl_status :=
  he ← gets header_end;
  cfg ← gets config;
  eol ← strstr_crlf 0;
  match eol with
  | None => mret VL_ERROR_INVALID_ARGUMENT
  | Some eol =>
      if max_request_line cfg <? Z.of_nat eol then mret VL_ERROR_INVALID_ARGUMENT else
      _ ← store_byte eol 0;
      st ← vl_http_parse_request_line 0;
      if bool_decide (st <> VL_OK) then mret VL_ERROR_INVALID_ARGUMENT else
      st ← vl_http_parse_headers (eol + 2)%nat;
      if bool_decide (st <> VL_OK) then mret VL_ERROR_INVALID_ARGUMENT else
      _ ← store_byte (Z.to_nat he - 4) CR;
      q ← gets request;
      if max_body_bytes cfg <? content_length q then mret VL_ERROR_OUT_OF_MEMORY else
      _ ← upd_request (set_body (Some (Z.to_nat he)));
      mret VL_OK
  end.

(** The rest of [vl_http_parser_feed] once the head is known. *)
Definition feed_body : H vl_http_parse_status :=
  p ← gets id;
  if w64 (p_length p - header_end p) <? content_length (request p) then mret VL_HTTP_PARSE_NEED_MORE else
  _ ← upd_request (fun q => set_body_length (content_length q) q);
  _ ← modify (set_complete true);
  mret VL_HTTP_PARSE_COMPLETE.

(** The part of [vl_http_parser_feed] that looks for the end of the head. *)
Definition feed_head : H vl_http_parse_status :=
  p ← gets id;
  found ← vl_http_find_header_end (p_length p);
  match found with
  | None =>
      if max_header_bytes (config p) <? p_length p then
        _ ← vl_http_set_error VL_HTTP_ERROR_HEADER_TOO_LARGE; mret VL_HTTP_PARSE_ERROR
      else mret VL_HTTP_PARSE_NEED_MORE
  | Some he =>
      _ ← modify (set_header_end (Z.of_nat he));
      if max_header_bytes (config p) <? Z.of_nat he then
        _ ← vl_http_set_error VL_HTTP_ERROR_HEADER_TOO_LARGE; mret VL_HTTP_PARSE_ERROR
      else
      st ← vl_http_parse_head;
      if bool_decide (st <> VL_OK) then
        q ← gets request;
        _ ← vl_http_set_error (if max_body_bytes (config p) <? content_length q
                               then VL_HTTP_ERROR_PAYLOAD_TOO_LARGE else VL_HTTP_ERROR_BAD_REQUEST);
        mret VL_HTTP_PARSE_ERROR
      else feed_body
  end.

(** [data] is [None] for a NULL pointer with a nonzero length; the test against
    [total_limit], which equals [capacity], repeats the one before it. *)
Definition vl_http_parser_feed (data : option (list Z)) : H vl_http_parse_status :=
  match data with
  | None => mret VL_HTTP_PARSE_ERROR
  | Some data =>
      p ← gets id;
      let len := Z.of_nat (length data) in
      if complete p || bool_decide (error p <> VL_HTTP_ERROR_NONE) then
        mret (if decide (error p = VL_HTTP_ERROR_NONE) then VL_HTTP_PARSE_COMPLETE else VL_HTTP_PARSE_ERROR)
      else if bool_decide (buffer p = None) || (w64 (capacity p - p_length p) <? len) then
        _ ← vl_http_set_error VL_HTTP_ERROR_PAYLOAD_TOO_LARGE; mret VL_HTTP_PARSE_ERROR
      else
      _ ← store_bytes (Z.to_nat (p_length p)) data;
      _ ← modify (set_p_length (w64 (p_length p + len)));
      _ ← store_byte (Z.to_nat (w64 (p_length p + len))) 0;
      if negb (header_end p =? 0) then feed_body else feed_head
  end.

Definition vl_http_parser_request (p : vl_http_parser) : option vl_http_request :=
  if complete p then Some (request p) else None.

Definition vl_http_parser_error (p : vl_http_parser) : vl_http_error := error p.
