(* ===== verification/HttpParserProps.v ===== *)
(** * The HTTP parser is safe and does not depend on how its input is cut up

    [framed]: a computation that succeeds on a buffer does the same on a longer
    one; [head_total]: parsing a complete head stays inside that head.  Together
    they make the result a function of the bytes received, whatever the pieces. *)

From stdpp Require Import strings.
From S2P Require Import Prelude HttpParser.
From stdpp Require Import options.

Open Scope Z_scope.

(** ** Computations framed by the rest of the buffer *)

(** The buffer continues with [x.2], and [length] says [x.1]. *)
Definition extend (x : Z * list Z) (p : vl_http_parser) : vl_http_parser :=
  set_p_length x.1 (set_buffer ((fun b => b ++ x.2) <$> buffer p) p).

Definition framed {A} (m : H A) : Prop := forall p a p' x,
  m p = Some (a, p') -> m (extend x p) = Some (a, extend x p').

Create HintDb framed.

Lemma framed_ret {A} (a : A) : framed (mret a).
Proof. intros p x p' r [= <- <-]. done. Qed.

Lemma framed_bind {A B} (m : H A) (f : A -> H B) : framed m -> (forall a, framed (f a)) -> framed (m ≫= f).
Proof.
  intros Hm Hf p b p' r (a & p1 & E1 & E2)%bind_inv. apply (Hm _ _ _ r) in E1.
  rewrite (bind_Some _ _ _ _ _ E1). by apply Hf.
Qed.

Lemma framed_gets {A} (f : vl_http_parser -> A) : (forall r p, f (extend r p) = f p) -> framed (gets f).
Proof. intros Hf p a p' r [= <- <-]. unfold gets. by rewrite Hf. Qed.

Lemma framed_modify f : (forall r p, f (extend r p) = extend r (f p)) -> framed (modify f).
Proof. intros Hf p a p' r [= <- <-]. unfold modify. by rewrite Hf. Qed.

Lemma framed_ub {A} : framed (ub (A := A)).
Proof. by intros p a p' r. Qed.

Lemma framed_buffer {A} (f : list Z -> option A) : (forall b r a, f b = Some a -> f (b ++ r) = Some a) ->
  framed (on_buffer f).
Proof.
  intros Hf p a p' r E. unfold on_buffer, deref in *. simpl. destruct (buffer p) as [b|] eqn:Eb; [|done]. simpl in *.
  destruct (f b) as [x|] eqn:Ef; [|done]. rewrite (Hf _ _ _ Ef). by simplify_eq.
Qed.

Lemma framed_store i v : framed (store_byte i v).
Proof.
  intros p a p' r E. unfold store_byte in *. simpl. destruct (buffer p) as [b|] eqn:Eb; [|done]. simpl.
  destruct (Nat.ltb_spec i (length b)); [|done]. simplify_eq.
  rewrite length_app, (proj2 (Nat.ltb_lt _ _)) by lia. unfold extend. simpl. by rewrite insert_app_l.
Qed.

Lemma framed_request f : framed (upd_request f).
Proof. by apply framed_modify. Qed.

(** *** The scanners *)

Lemma scan_chr_app l r c x : scan_chr l c = Some x -> scan_chr (l ++ r) c = Some x.
Proof.
  revert x. induction l as [|b l IH]; intros x; simpl; [done|].
  destruct (b =? c); [done|]. destruct (b =? 0); [done|]. intros (y & Ey & ->)%fmap_Some_1. by rewrite (IH _ Ey).
Qed.

Lemma scan_len_app l r x : scan_len l = Some x -> scan_len (l ++ r) = Some x.
Proof.
  revert x. induction l as [|b l IH]; intros x; simpl; [done|].
  destruct (b =? 0); [done|]. intros (y & Ey & ->)%fmap_Some_1. by rewrite (IH _ Ey).
Qed.

Lemma scan_eq_app l r lit x : scan_eq l lit = Some x -> scan_eq (l ++ r) lit = Some x.
Proof. revert l. induction lit as [|c lit IH]; intros [|b l]; simpl; try done. case_match; auto. Qed.

Lemma scan_crlf_app l r x : scan_crlf l = Some x -> scan_crlf (l ++ r) = Some x.
Proof.
  revert x. induction l as [|b l IH]; intros x; [done|]. cbn [scan_crlf app].
  destruct (b =? 0); [done|]. destruct (b =? CR).
  - destruct l as [|b2 l]; [done|]. cbn [app] in *.
    destruct (b2 =? LF); [done|]. intros (y & Ey & ->)%fmap_Some_1. by rewrite (IH _ Ey).
  - intros (y & Ey & ->)%fmap_Some_1. by rewrite (IH _ Ey).
Qed.

(** A scan from [i] succeeds only if [i] is inside. *)
Lemma drop_scan {A} (f : list Z -> option A) b r i a : f [] = None ->
  (forall l x, f l = Some x -> f (l ++ r) = Some x) -> f (drop i b) = Some a -> f (drop i (b ++ r)) = Some a.
Proof.
  intros Hn Hf E. destruct (decide (i <= length b)%nat) as [Hi|Hi].
  - rewrite drop_app_le by done. by apply Hf.
  - rewrite drop_ge in E by lia. congruence.
Qed.

Lemma framed_strchr i c : framed (strchr i c).
Proof.
  apply framed_buffer. intros b r a (x & E & ->)%fmap_Some_1.
  rewrite (drop_scan (fun l => scan_chr l c) b r i x); [done|done|by intros; apply scan_chr_app|done].
Qed.

Lemma framed_strstr i : framed (strstr_crlf i).
Proof.
  apply framed_buffer. intros b r a (x & E & ->)%fmap_Some_1.
  rewrite (drop_scan scan_crlf b r i x); [done|done|by intros; apply scan_crlf_app|done].
Qed.

Lemma framed_strlen i : framed (strlen i).
Proof. apply framed_buffer. intros b r a. apply drop_scan; [done|]. intros. by apply scan_len_app. Qed.

Lemma framed_strncmp i lit : lit <> [] -> framed (strncmp_eq i lit).
Proof.
  intros Hl. apply framed_buffer. intros b r a. apply (drop_scan (fun l => scan_eq l lit)); [by destruct lit|].
  intros. by apply scan_eq_app.
Qed.

Lemma framed_strcmp i lit : framed (strcmp_eq i lit).
Proof. apply framed_strncmp. by destruct lit. Qed.

Lemma framed_load i : framed (load_byte i).
Proof. apply framed_buffer. intros b r a E. by apply lookup_app_l_Some. Qed.

Lemma framed_load_bytes i n : framed (load_bytes i n).
Proof.
  apply framed_buffer. intros b r a. destruct (Nat.leb_spec (i + n) (length b)); [|done]. intros [= <-].
  rewrite length_app, (proj2 (Nat.leb_le _ _)) by lia.
  rewrite drop_app_le, take_app_le; [done|rewrite length_drop; lia|lia].
Qed.

#[export] Hint Resolve framed_ret framed_ub framed_store framed_request framed_strchr framed_strstr framed_strlen
  framed_strcmp framed_load framed_load_bytes : framed.

Ltac framed_solve :=
  repeat first
    [ progress (intros; cbn beta zeta)
    | solve [auto with framed nocore]
    | apply framed_bind
    | apply framed_gets; done
    | apply framed_modify; done
    | apply framed_strncmp; done
    | case_match ].

Lemma framed_token size i n : framed (vl_http_token_copy size i n).
Proof. unfold vl_http_token_copy. framed_solve. Qed.

Lemma framed_trim i j : framed (vl_http_trim i j).
Proof.
  unfold vl_http_trim. assert (forall n s, framed (trim_start n s)) by (induction n; simpl; framed_solve).
  assert (forall n s, framed (trim_end n s)) by (induction n; simpl; framed_solve). framed_solve.
Qed.

#[export] Hint Resolve framed_token framed_trim : framed.

Lemma framed_request_line i : framed (vl_http_parse_request_line i).
Proof. unfold vl_http_parse_request_line, known_method, store_request_line. framed_solve. Qed.

Lemma framed_header_line i j s : framed (parse_header_line i j s).
Proof. unfold parse_header_line. framed_solve. Qed.

#[export] Hint Resolve framed_request_line framed_header_line : framed.

Lemma framed_headers i : framed (vl_http_parse_headers i).
Proof.
  unfold vl_http_parse_headers. generalize (Z.to_nat VL_HTTP_MAX_HEADERS) as fuel, false as saw.
  intros fuel. revert i. induction fuel as [|fuel IH]; intros i saw; cbn [parse_headers_loop]; framed_solve.
Qed.

#[export] Hint Resolve framed_headers : framed.

Lemma framed_head : framed vl_http_parse_head.
Proof. unfold vl_http_parse_head. framed_solve. Qed.

(** ** Running on a known buffer *)

Definition with_state (p : vl_http_parser) (b : list Z) (q : vl_http_request) : vl_http_parser :=
  set_request q (set_buffer (Some b) p).

Lemma run_buffer {A} (f : list Z -> option A) p b q a : f b = Some a ->
  on_buffer f (with_state p b q) = Some (a, with_state p b q).
Proof. intros E. unfold on_buffer, deref. simpl. by rewrite E. Qed.

Lemma run_store p b q i v : (i < length b)%nat ->
  store_byte i v (with_state p b q) = Some (tt, with_state p (<[i := v]> b) q).
Proof. intros Hi. unfold store_byte. simpl. by rewrite (proj2 (Nat.ltb_lt _ _) Hi). Qed.

Lemma run_upd_request f p b q : upd_request f (with_state p b q) = Some (tt, with_state p b (f q)).
Proof. done. Qed.

Lemma run_load p b q i v : b !! i = Some v -> load_byte i (with_state p b q) = Some (v, with_state p b q).
Proof. apply run_buffer. Qed.

(** A zero at distance [k] stops every scan. *)
Lemma scan_chr_zero l c k : l !! k = Some 0 -> c <> 0 ->
  exists x, scan_chr l c = Some x /\ forall j, x = Some j -> (j < k)%nat.
Proof.
  revert k. induction l as [|b l IH]; intros k Hk Hc; [done|]. simpl. destruct (Z.eqb_spec b c) as [->|Hbc].
  - eexists. split; [done|]. intros j [= <-]. destruct k; [simplify_eq/=|lia].
  - destruct (Z.eqb_spec b 0) as [->|Hb0]; [by exists None|].
    destruct k as [|k]; simplify_eq/=. destruct (IH k Hk Hc) as (x & -> & Hx). exists (option_map S x).
    split; [done|]. destruct x as [x|]; simpl; [|done]. intros j [= <-]. specialize (Hx x eq_refl). lia.
Qed.

Lemma scan_len_zero l k : l !! k = Some 0 -> exists n, scan_len l = Some n /\ (n <= k)%nat.
Proof.
  revert k. induction l as [|b l IH]; intros k Hk; [done|]. simpl. destruct (Z.eqb_spec b 0) as [->|Hb0].
  - exists 0%nat. split; [done|lia].
  - destruct k as [|k]; simplify_eq/=. destruct (IH k Hk) as (n & -> & Hn). exists (S n). split; [done|lia].
Qed.

Lemma scan_eq_zero l k lit tl : l !! k = Some 0 -> Forall (fun c => c <> 0) lit -> tl = [] \/ tl = [0] ->
  exists x, scan_eq l (lit ++ tl) = Some x /\ (x = true -> (length lit <= k)%nat).
Proof.
  revert l k. induction lit as [|c lit IH]; intros l k Hk Hl Htl; simpl.
  - destruct Htl as [-> | ->]; simpl; [exists true; split; [done|lia]|].
    destruct l as [|b l]; [done|]. case_match; [exists true|exists false]; (split; [done|lia]).
  - destruct l as [|b l]; [done|]. apply list.Forall_cons in Hl as [Hc Hl].
    destruct (Z.eqb_spec b c) as [->|Hbc]; [|by exists false].
    destruct k as [|k]; simplify_eq/=. destruct (IH l k Hk Hl Htl) as (x & -> & Hx). exists x. split; [done|].
    intros E. specialize (Hx E). lia.
Qed.

(** The next "\r\n" is found no later than one known to be there. *)
Lemma scan_crlf_hit l k : l !! k = Some CR -> l !! S k = Some LF ->
  exists x, scan_crlf l = Some x /\
    forall j, x = Some j -> (j <= k)%nat /\ l !! j = Some CR /\ l !! S j = Some LF.
Proof.
  revert k. induction l as [|b l IH]; intros k Hk Hk'; [done|]. cbn [scan_crlf].
  assert (Hrec : forall k', k = S k' -> exists x, option_map S <$> scan_crlf l = Some x /\
    forall j, x = Some j -> (j <= k)%nat /\ (b :: l) !! j = Some CR /\ (b :: l) !! S j = Some LF).
  { intros k' ->. destruct (IH k') as (x & -> & Hx); [done..|]. exists (option_map S x). split; [done|].
    destruct x as [x|]; simpl; [|done]. intros j [= <-]. destruct (Hx x eq_refl) as (? & ? & ?).
    split; [lia|]. done. }
  destruct (Z.eqb_spec b 0) as [->|Hb0]; [by exists None|].
  destruct (Z.eqb_spec b CR) as [->|HbC].
  - destruct l as [|b2 l]; [destruct k; done|]. destruct (Z.eqb_spec b2 LF) as [->|Hb2].
    + eexists. split; [done|]. intros j [= <-]. split; [lia|done].
    + destruct k as [|k]; [simplify_eq/=|]. by apply (Hrec k).
  - destruct k as [|k]; [simplify_eq/=|]. by apply (Hrec k).
Qed.

Section Runs.
  #[local] Set Default Proof Using "Type".
  Context (p : vl_http_parser) (b : list Z) (q : vl_http_request).

Lemma strchr_run i c k : b !! (i + k)%nat = Some 0 -> c <> 0 ->
  exists x, strchr i c (with_state p b q) = Some (x, with_state p b q) /\
    forall j, x = Some j -> (i <= j < i + k)%nat.
Proof.
  intros Hz Hc. destruct (scan_chr_zero (drop i b) c k) as (x & E & Hx); [by rewrite lookup_drop|done|].
  exists (option_map (fun k => (i + k)%nat) x). split; [apply run_buffer; by rewrite E|].
  destruct x as [x|]; simpl; [|done]. intros j [= <-]. specialize (Hx x eq_refl). lia.
Qed.

Lemma strlen_run i k : b !! (i + k)%nat = Some 0 ->
  exists n, strlen i (with_state p b q) = Some (n, with_state p b q) /\ (n <= k)%nat.
Proof.
  intros Hz. destruct (scan_len_zero (drop i b) k) as (n & E & Hn); [by rewrite lookup_drop|].
  exists n. split; [by apply run_buffer|done].
Qed.

Lemma strncmp_run i k lit : b !! (i + k)%nat = Some 0 -> Forall (fun c => c <> 0) lit ->
  exists x, strncmp_eq i lit (with_state p b q) = Some (x, with_state p b q) /\ (x = true -> (length lit <= k)%nat).
Proof.
  intros Hz Hl. destruct (scan_eq_zero (drop i b) k lit []) as (x & E & Hx); [by rewrite lookup_drop|done|by left|].
  rewrite app_nil_r in E. exists x. split; [by apply run_buffer|done].
Qed.

Lemma strcmp_run i k lit : b !! (i + k)%nat = Some 0 -> Forall (fun c => c <> 0) lit ->
  exists x, strcmp_eq i lit (with_state p b q) = Some (x, with_state p b q).
Proof.
  intros Hz Hl. destruct (scan_eq_zero (drop i b) k lit [0]) as (x & E & _); [by rewrite lookup_drop|done|by right|].
  exists x. by apply run_buffer.
Qed.

Lemma strstr_run i k : b !! (i + k)%nat = Some CR -> b !! S (i + k) = Some LF ->
  exists x, strstr_crlf i (with_state p b q) = Some (x, with_state p b q) /\
    forall j, x = Some j -> (i <= j <= i + k)%nat /\ b !! j = Some CR /\ b !! S j = Some LF.
Proof.
  intros H1 H2. destruct (scan_crlf_hit (drop i b) k) as (x & E & Hx);
    [by rewrite lookup_drop|by rewrite lookup_drop, Nat.add_succ_r|].
  exists (option_map (fun k => (i + k)%nat) x). split; [apply run_buffer; by rewrite E|].
  destruct x as [x|]; simpl; [|done]. intros j [= <-]. destruct (Hx x eq_refl) as (Hj & Ha & Hb).
  rewrite lookup_drop in Ha, Hb. rewrite Nat.add_succ_r in Hb. split; [lia|done].
Qed.

Lemma load_bytes_run i n : (i + n <= length b)%nat ->
  load_bytes i n (with_state p b q) = Some (take n (drop i b), with_state p b q).
Proof. intros Hi. apply run_buffer. by rewrite (proj2 (Nat.leb_le _ _) Hi). Qed.

(** A copy fits its destination, or is refused. *)
Lemma token_run size i n : (i + n <= length b)%nat ->
  exists x, vl_http_token_copy size i n (with_state p b q) = Some (x, with_state p b q) /\
    forall s, x = Some s -> 0 < Z.of_nat (length s) < size.
Proof.
  intros Hi. unfold vl_http_token_copy. destruct ((n =? 0)%nat || (size <=? Z.of_nat n)) eqn:E; [by exists None|].
  apply orb_false_iff in E as [E1%Nat.eqb_neq E2%Z.leb_gt]. rewrite (bind_Some _ _ _ _ _ (load_bytes_run i n Hi)).
  eexists. split; [done|]. intros s [= <-]. rewrite length_take, length_drop. lia.
Qed.

Lemma trim_start_run n i : (i + n <= length b)%nat ->
  exists s, trim_start n i (with_state p b q) = Some (s, with_state p b q) /\ (i <= s <= i + n)%nat.
Proof.
  revert i. induction n as [|n IH]; intros i Hi; simpl; [exists i; split; [done|lia]|].
  destruct (lookup_lt_is_Some_2 b i) as [c Hc]; [lia|]. rewrite (bind_Some _ _ _ _ _ (run_load p b q i c Hc)).
  destruct (isspace c); [|exists i; split; [done|lia]]. destruct (IH (S i)) as (s & E & Hs); [lia|].
  exists s. split; [done|lia].
Qed.

Lemma trim_end_run n j : (n <= j)%nat -> (j <= length b)%nat ->
  exists e, trim_end n j (with_state p b q) = Some (e, with_state p b q) /\ (j - n <= e <= j)%nat.
Proof.
  revert j. induction n as [|n IH]; intros j Hn Hj; simpl; [exists j; split; [done|lia]|].
  destruct (lookup_lt_is_Some_2 b (j - 1)) as [c Hc]; [lia|]. rewrite (bind_Some _ _ _ _ _ (run_load p b q _ c Hc)).
  destruct (isspace c); [|exists j; split; [done|lia]]. destruct (IH (j - 1)%nat) as (s & E & Hs); [lia..|].
  exists s. split; [done|lia].
Qed.

Lemma trim_run i j : (i <= j)%nat -> (j <= length b)%nat ->
  exists s e, vl_http_trim i j (with_state p b q) = Some ((s, e), with_state p b q) /\ (i <= s <= e)%nat /\ (e <= j)%nat.
Proof.
  intros Hi Hj. unfold vl_http_trim. destruct (trim_start_run (j - i) i) as (s & E1 & Hs); [lia|].
  rewrite (bind_Some _ _ _ _ _ E1). destruct (trim_end_run (j - s) j) as (e & E2 & He); [lia..|].
  rewrite (bind_Some _ _ _ _ _ E2). exists s, e. split; [done|lia].
Qed.

End Runs.

(** ** A head is parsed inside itself *)

Definition header_ok (h : vl_http_header) : Prop :=
  0 < Z.of_nat (length (h_name h)) < VL_HTTP_MAX_HEADER_NAME /\
  0 < Z.of_nat (length (h_value h)) < VL_HTTP_MAX_HEADER_VALUE.

(** The strings fit their arrays with the terminator, the header array is not overrun. *)
Record request_ok (q : vl_http_request) : Prop := {
  rq_method : Z.of_nat (length (method q)) < VL_HTTP_MAX_METHOD;
  rq_path : Z.of_nat (length (path q)) < VL_HTTP_MAX_PATH;
  rq_count : header_count q <= VL_HTTP_MAX_HEADERS;
  rq_headers : Forall header_ok (headers q);
  rq_length : word (content_length q) }.

Lemma digits_nonneg l acc v n : 0 <= acc -> digits_value l acc = (v, n) -> 0 <= v.
Proof.
  revert acc v n. induction l as [|c l IH]; intros acc v n Ha; simpl; [by intros [= <- _]|].
  destruct (isdigit c) eqn:Ed; [|by intros [= <- _]]. destruct (digits_value l (10 * acc + (c - 48))) as [v' n'] eqn:E.
  intros [= <- _]. eapply IH; [|exact E]. unfold isdigit in Ed. apply andb_true_iff in Ed as [?%Z.leb_le _]. lia.
Qed.

Lemma content_length_word l n : vl_http_parse_content_length l = Some n -> word n.
Proof.
  unfold vl_http_parse_content_length. destruct l as [|c l]; [done|].
  destruct (strtoul (c :: l)) as [[v k] er] eqn:E. case_match; [done|]. intros [= <-]. revert E. unfold strtoul.
  set (l1 := drop _ _). destruct (match l1 with 45 :: _ => _ | _ => _ end) as [neg sg].
  destruct (digits_value (drop sg l1) 0) as [v' k'] eqn:Ed. apply digits_nonneg in Ed; [|done].
  case_match; [by intros [= <- _ _]|]. destruct (Z.ltb_spec ULONG_MAX v'); [by intros [= <- _ _]|].
  intros [= <- _ _]. destruct neg; [apply w64_word|]. unfold ULONG_MAX in *. word_lia.
Qed.

(** A buffer that differs from [b] at most before [n]. *)
Definition same_from (n : nat) (b b' : list Z) : Prop :=
  length b' = length b /\ forall i, (n <= i)%nat -> b' !! i = b !! i.

Lemma same_from_refl n b : same_from n b b.
Proof. done. Qed.

Lemma same_from_insert n b b' i v : same_from n b b' -> (i < n)%nat -> same_from n b (<[i := v]> b').
Proof.
  intros [Hl Hs] Hi. split; [by rewrite length_insert|]. intros j Hj.
  rewrite list_lookup_insert_ne by lia. by apply Hs.
Qed.

(** [m] returns in any state whose buffer is [b], touches it only before [n] and
    keeps the request well formed. *)
Definition confined {A} (n : nat) (p : vl_http_parser) (b : list Z) (q : vl_http_request) (m : H A)
    (Q : A -> vl_http_request -> Prop) : Prop :=
  exists a b' q', m (with_state p b q) = Some (a, with_state p b' q') /\ same_from n b b' /\ request_ok q' /\ Q a q'.

Lemma confined_ret {A} n p b q (a : A) (Q : A -> vl_http_request -> Prop) : request_ok q -> Q a q -> confined n p b q (mret a) Q.
Proof. intros Hq Ha. by exists a, b, q. Qed.

Lemma confined_step {A B} n p b b1 q q1 (m : H A) (f : A -> H B) a Q :
  m (with_state p b q) = Some (a, with_state p b1 q1) -> same_from n b b1 -> confined n p b1 q1 (f a) Q ->
  confined n p b q (m ≫= f) Q.
Proof.
  intros E [Hl Hs] (x & b' & q' & E' & [Hl' Hs'] & Hq & Hx). exists x, b', q'. rewrite (bind_Some _ _ _ _ _ E).
  split; [done|]. split; [|done]. split; [congruence|]. intros i Hi. rewrite Hs', Hs by done. done.
Qed.

Lemma confined_read {A B} n p b q (m : H A) (f : A -> H B) a Q :
  m (with_state p b q) = Some (a, with_state p b q) -> confined n p b q (f a) Q -> confined n p b q (m ≫= f) Q.
Proof. intros E. by eapply confined_step. Qed.

Lemma same_zero n b b' : same_from n b b' -> b !! n = Some 0 -> b' !! n = Some 0.
Proof. intros [_ Hs] H. rewrite Hs by lia. done. Qed.

(** The copies stay inside the line; the request stays well formed. *)
Lemma store_request_line_confined p b q e s minor : b !! s = Some 0 -> b !! e = Some 0 -> (s < e)%nat -> request_ok q ->
  confined e p b q (store_request_line 0 (S s) minor) (fun _ q' => headers q' = headers q).
Proof.
  intros Hs He Hse [? ? ? ? ?]. pose proof (lookup_lt_Some _ _ _ He) as Hlt. unfold store_request_line.
  destruct (strlen_run p b q 0 s Hs) as (ml & Em & Hm). eapply confined_read; [exact Em|].
  destruct (token_run p b q VL_HTTP_MAX_METHOD 0 ml) as (m & Etm & Htm); [lia|]. eapply confined_read; [exact Etm|].
  destruct m as [m|]; [|by apply confined_ret]. specialize (Htm _ eq_refl).
  eapply confined_step; [apply run_upd_request|done|].
  destruct (strlen_run p b (set_method m q) (S s) (e - S s)) as (pl & Ep & Hp).
  { by replace (S s + (e - S s))%nat with e by lia. }
  eapply confined_read; [exact Ep|].
  destruct (token_run p b (set_method m q) VL_HTTP_MAX_PATH (S s) pl) as (pt & Etp & Htp); [lia|].
  eapply confined_read; [exact Etp|].
  destruct pt as [pt|]; [|apply confined_ret; [split; simpl; [lia|done..]|done]]. specialize (Htp _ eq_refl).
  do 4 (eapply confined_step; [apply run_upd_request|done|]). apply confined_ret; [|done].
  split; simpl; [lia|lia|done|done|done].
Qed.

Lemma known_method_run p b q e : b !! e = Some 0 ->
  exists x, known_method 0 (with_state p b q) = Some (x, with_state p b q).
Proof.
  intros He. unfold known_method.
  assert (Hc : forall lit, Forall (fun c => c <> 0) lit -> exists x, strcmp_eq 0 lit (with_state p b q) = Some (x, with_state p b q))
    by (intros lit Hlit; by apply (strcmp_run p b q 0 e)).
  destruct (Hc (bytes "GET")) as (g & Eg); [by repeat constructor|]. rewrite (bind_Some _ _ _ _ _ Eg).
  destruct (Hc (bytes "POST")) as (po & Epo); [by repeat constructor|].
  destruct (Hc (bytes "HEAD")) as (hd & Ehd); [by repeat constructor|].
  erewrite (bind_Some _ _ _ (if g then true else po)) by by destruct g.
  destruct g, po; eauto.
Qed.

(** The request line ends in a zero at [e]; what follows it is left alone. *)
Lemma request_line_confined p b q e : b !! e = Some 0 -> request_ok q ->
  confined e p b q (vl_http_parse_request_line 0) (fun _ q' => headers q' = headers q).
Proof.
  intros He Hq. pose proof (lookup_lt_Some _ _ _ He) as Hlt. unfold vl_http_parse_request_line.
  destruct (strchr_run p b q 0 SPACE e) as (sp1 & E1 & H1); [done|done|].
  eapply confined_read; [exact E1|]. eapply confined_read; [reflexivity|].
  destruct sp1 as [sp1|]; [|by apply confined_ret]. specialize (H1 _ eq_refl). case_match; [by apply confined_ret|].
  eapply confined_step; [apply run_store; lia|apply same_from_insert; [done|lia]|]. cbn zeta.
  set (b1 := <[sp1 := 0]> b). assert (He1 : b1 !! e = Some 0) by (unfold b1; rewrite list_lookup_insert_ne; [done|lia]).
  assert (Hl1 : length b1 = length b) by apply length_insert.
  destruct (strchr_run p b1 q (S sp1) SPACE (e - S sp1)) as (sp2 & E2 & H2); [|done|].
  { by replace (S sp1 + (e - S sp1))%nat with e by lia. }
  eapply confined_read; [exact E2|]. destruct sp2 as [sp2|]; [|by apply confined_ret]. specialize (H2 _ eq_refl).
  eapply confined_step; [apply run_store; lia|apply same_from_insert; [done|lia]|].
  set (b2 := <[sp2 := 0]> b1). assert (He2 : b2 !! e = Some 0) by (unfold b2; rewrite list_lookup_insert_ne; [done|lia]).
  assert (Hl2 : length b2 = length b) by (unfold b2; by rewrite length_insert).
  assert (Hsp : b2 !! sp1 = Some 0).
  { unfold b2. rewrite list_lookup_insert_ne by lia. apply list_lookup_insert_eq. lia. }
  clearbody b2. clear b1 He1 Hl1 E2.
  destruct (strncmp_run p b2 q (S sp2) (e - S sp2) (bytes "HTTP/1.")) as (v1 & E3 & H3);
    [by replace (S sp2 + (e - S sp2))%nat with e by lia|by repeat constructor|].
  eapply confined_read; [exact E3|]. destruct v1; simpl; [|by apply confined_ret]. specialize (H3 eq_refl). simpl in H3.
  destruct (lookup_lt_is_Some_2 b2 (S sp2 + 7)) as [v7 H7]; [lia|].
  eapply confined_read; [apply run_load; exact H7|].
  destruct (negb (v7 =? 48) && negb (v7 =? 49)) eqn:Ev7; [by apply confined_ret|].
  assert (Hv7 : v7 <> 0) by (intros ->; done).
  assert (S sp2 + 7 <> e)%nat by (intros E; rewrite E in H7; congruence).
  destruct (lookup_lt_is_Some_2 b2 (S sp2 + 8)) as [v8 H8]; [lia|].
  eapply confined_read; [apply run_load; exact H8|]. case_match; [by apply confined_ret|].
  destruct (known_method_run p b2 q e He2) as (k & Ek). eapply confined_read; [exact Ek|].
  destruct k; simpl; [|by apply confined_ret].
  destruct (lookup_lt_is_Some_2 b2 (S sp1)) as [p0 Hp0]; [lia|].
  eapply confined_read; [apply run_load; exact Hp0|]. case_match; [by apply confined_ret|].
  apply store_request_line_confined; [done|done|lia|done].
Qed.

(** One header line: [e] is its "\r\n", which is overwritten; a header is added or the line refused. *)
Lemma header_line_confined p b q i e saw : (i < e)%nat -> (e < length b)%nat -> request_ok q ->
  header_count q < VL_HTTP_MAX_HEADERS ->
  confined (S e) p b q (parse_header_line i e saw)
    (fun r q' => r.1 = VL_OK -> header_count q' = header_count q + 1).
Proof.
  intros Hi He Hq Hc. unfold parse_header_line. cbn zeta.
  eapply confined_step; [apply run_store; done|apply same_from_insert; [done|lia]|].
  set (b1 := <[e := 0]> b). assert (Hl1 : length b1 = length b) by apply length_insert.
  assert (Hz : b1 !! (i + (e - i))%nat = Some 0).
  { replace (i + (e - i))%nat with e by lia. unfold b1. by apply list_lookup_insert_eq. }
  clearbody b1. destruct (strchr_run p b1 q i COLON (e - i) Hz) as (co & E1 & H1); [done|].
  eapply confined_read; [exact E1|]. destruct co as [co|]; [|by apply confined_ret]. specialize (H1 _ eq_refl).
  destruct (co =? i)%nat; [by apply confined_ret|].
  destruct (trim_run p b1 q i co) as (s1 & e1 & T1 & Hb1 & Hc1); [lia..|]. eapply confined_read; [exact T1|].
  destruct (trim_run p b1 q (S co) e) as (s2 & e2 & T2 & Hb2 & Hc2); [lia..|]. eapply confined_read; [exact T2|].
  destruct (token_run p b1 q VL_HTTP_MAX_HEADER_NAME s1 (e1 - s1)) as (nm & En & Hn); [lia|].
  eapply confined_read; [exact En|]. destruct nm as [nm|]; [|by apply confined_ret]. specialize (Hn _ eq_refl).
  destruct (token_run p b1 q VL_HTTP_MAX_HEADER_VALUE s2 (e2 - s2)) as (vl & Ev & Hv); [lia|].
  eapply confined_read; [exact Ev|]. destruct vl as [vl|]; [|by apply confined_ret]. specialize (Hv _ eq_refl).
  eapply confined_step; [apply run_upd_request|done|]. cbn zeta.
  set (q1 := set_headers _ q). assert (Hn1 : header_count q1 = header_count q + 1).
  { unfold header_count, q1. simpl. rewrite length_app. simpl. lia. }
  assert (Hq1 : request_ok q1).
  { destruct Hq as [? ? ? ? ?]. split; [done|done|lia| |done]. unfold q1. simpl. apply Forall_app. split; [done|].
    by apply Forall_singleton. }
  clearbody q1. destruct (vl_http_equals_ci nm (bytes "Content-Length")).
  - destruct saw; [by apply confined_ret|].
    destruct (vl_http_parse_content_length vl) as [n|] eqn:En'; [|by apply confined_ret]. apply content_length_word in En'.
    eapply confined_step; [apply run_upd_request|done|]. apply confined_ret; [by destruct Hq1; split|done].
  - assert (Hk : exists q2, (if vl_http_equals_ci nm (bytes "Connection") then
        if vl_http_equals_ci vl (bytes "close") then upd_request (set_keep_alive false)
        else if vl_http_equals_ci vl (bytes "keep-alive") then upd_request (set_keep_alive true) else mret tt
      else mret tt) (with_state p b1 q1) = Some (tt, with_state p b1 q2) /\ request_ok q2 /\ header_count q2 = header_count q1).
    { repeat case_match; eexists; (split; [try done; apply run_upd_request|]); (split; [|done]); try done;
        destruct Hq1; by split. }
    destruct Hk as (q2 & Ek & Hq2 & Hn2). eapply confined_step; [exact Ek|done|]. apply confined_ret; [done|].
    intros _. lia.
Qed.

(** The cursor is at the empty line, or before the "\r\n\r\n" that ends the head. *)
Definition at_line (b : list Z) (i : nat) : Prop :=
  let n := length b in
  b !! (n - 2)%nat = Some CR /\ b !! (n - 1)%nat = Some LF /\
  (S (S i) = n \/ (i + 4 <= n)%nat /\ b !! (n - 4)%nat = Some CR /\ b !! (n - 3)%nat = Some LF).

Lemma at_line_next b b' i e : at_line b i -> (i <= e)%nat -> (e < length b)%nat -> b !! e = Some CR -> b !! S e = Some LF ->
  (e + 4 <= length b)%nat -> same_from (S e) b b' -> at_line b' (e + 2).
Proof.
  intros (H2 & H1 & Hor) Hi He Hcr Hlf Hle [Hl Hs]. unfold at_line. rewrite Hl.
  destruct Hor as [?|(_ & H4 & H3)]; [lia|]. rewrite !Hs by lia. split; [done|]. split; [done|].
  destruct (decide (e + 4 = length b)%nat) as [|Hne]; [left; lia|right].
  assert (Hne5 : (e + 5 <> length b)%nat).
  { intros E. replace (length b - 4)%nat with (S e) in H4 by lia. rewrite H4 in Hlf. done. }
  split; [lia|]. rewrite !Hs by lia. done.
Qed.

(** From such a cursor a "\r\n" is ahead: here, or no later than the one that ends the last header. *)
Lemma at_line_hit b i : at_line b i ->
  exists k, b !! (i + k)%nat = Some CR /\ b !! S (i + k) = Some LF /\ (k = 0 \/ i + k + 4 = length b)%nat /\
    (i + k + 2 <= length b)%nat.
Proof.
  intros (H2 & H1 & Hor). pose proof (lookup_lt_Some _ _ _ H1). destruct Hor as [Hn|(Hn & H4 & H3)].
  - exists 0%nat. replace (i + 0)%nat with (length b - 2)%nat by lia.
    replace (S (length b - 2)) with (length b - 1)%nat by lia. split; [done|]. split; [done|]. lia.
  - exists (length b - 4 - i)%nat. replace (i + (length b - 4 - i))%nat with (length b - 4)%nat by lia.
    replace (S (length b - 4)) with (length b - 3)%nat by lia. split; [done|]. split; [done|]. lia.
Qed.

Lemma headers_confined fuel p b q i saw : at_line b i -> request_ok q ->
  VL_HTTP_MAX_HEADERS <= header_count q + Z.of_nat fuel ->
  confined (length b) p b q (parse_headers_loop fuel i saw) (fun _ _ => True).
Proof.
  revert b q i saw. induction fuel as [|fuel IH]; intros b q i saw Hat Hq Hf; cbn [parse_headers_loop];
    destruct (at_line_hit b i Hat) as (k & Hk1 & Hk2 & Hk3 & Hk4);
    destruct (strstr_run p b q i k Hk1 Hk2) as (x & E & Hx);
    (eapply confined_read; [exact E|]); (destruct x as [e|]; [|by apply confined_ret]);
    destruct (Hx e eq_refl) as (He & Hcr & Hlf);
    (destruct (Nat.eqb_spec e i); [by apply confined_ret|]);
    (eapply confined_read; [reflexivity|]); simpl;
    (destruct (Z.leb_spec VL_HTTP_MAX_HEADERS (header_count q)); [by apply confined_ret|]); [simpl in Hf; lia|].
  destruct (header_line_confined p b q i e saw) as (r & b' & q' & E1 & Hsf & Hq' & Hr); [lia|lia|done|done|].
  eapply confined_step; [exact E1|destruct Hsf as [Hl Hs]; split; [done|]; intros j Hj; apply Hs; lia|].
  destruct r as [st saw']. simpl in Hr |- *. destruct (decide (st = VL_OK)) as [->|]; [|by apply confined_ret].
  replace (length b) with (length b') by apply Hsf.
  apply IH; [|done|specialize (Hr eq_refl); lia].
  eapply at_line_next; [exact Hat|lia|lia|done|done|lia|done].
Qed.

(** *** The end of the head *)

Definition ends_head (l : list Z) : Prop := exists l0, l = l0 ++ [CR; LF; CR; LF].

Lemma find_ends l n : find_crlfcrlf l = Some n -> (n <= length l)%nat /\ ends_head (take n l) /\ (4 <= n)%nat.
Proof.
  revert n. induction l as [|c l IH]; intros n; [done|]. cbn [find_crlfcrlf].
  destruct (starts_crlfcrlf (c :: l)) eqn:E.
  - intros [= <-]. destruct l as [|l1 [|l2 [|l3 l]]]; try done.
    simpl in E. rewrite !andb_true_iff, !Z.eqb_eq in E. destruct E as [[[-> ->] ->] ->]. simpl. split; [lia|].
    split; [by exists []|lia].
  - intros (k & Ek & ->)%fmap_Some_1. destruct (IH k Ek) as (Hk & (l0 & Hl0) & H4). simpl. split; [lia|].
    split; [|lia]. exists (c :: l0). simpl. by rewrite Hl0.
Qed.

Lemma find_app l r n : find_crlfcrlf l = Some n -> find_crlfcrlf (l ++ r) = Some n.
Proof.
  revert n. induction l as [|c l IH]; intros n; [done|]. cbn [find_crlfcrlf app].
  destruct l as [|l1 [|l2 [|l3 l]]];
    try (intros (k & Ek & _)%fmap_Some_1; apply find_ends in Ek as (? & _ & ?); simpl in *; lia).
  cbn [app starts_crlfcrlf] in *. case_match; [done|]. intros (k & Ek & ->)%fmap_Some_1. by rewrite (IH _ Ek).
Qed.

(** A head that ends later than the bytes seen so far. *)
Lemma find_beyond l r n : find_crlfcrlf l = None -> find_crlfcrlf (l ++ r) = Some n -> (length l < n)%nat.
Proof.
  revert n. induction l as [|c l IH]; intros n; [intros _ H; apply find_ends in H as (_ & _ & ?); simpl; lia|].
  cbn [find_crlfcrlf app]. destruct l as [|l1 [|l2 [|l3 l]]].
  1-3: intros _; case_match; [intros [= <-]; simpl; lia|]; intros (k & Ek & ->)%fmap_Some_1; simpl;
    apply find_ends in Ek as (_ & _ & ?); lia.
  cbn [app starts_crlfcrlf] in *. case_match; [done|]. destruct (find_crlfcrlf (l1 :: l2 :: l3 :: l)); [done|].
  intros _ (k & Ek & ->)%fmap_Some_1. specialize (IH k eq_refl Ek). simpl in *. lia.
Qed.

(** A complete head is parsed without looking past its end. *)
Lemma head_total p b q : ends_head b -> header_end p = Z.of_nat (length b) -> request_ok q -> header_count q = 0 ->
  confined (length b) p b q vl_http_parse_head (fun _ _ => True).
Proof.
  intros (b0 & Eb) Hhe Hq Hc0.
  assert (Hlen : length b = (length b0 + 4)%nat) by (rewrite Eb, length_app; done).
  assert (Hat : forall j v, [CR; LF; CR; LF] !! j = Some v -> b !! (length b0 + j)%nat = Some v).
  { intros j v Hv. rewrite Eb, lookup_app_r by lia. by replace (length b0 + j - length b0)%nat with j by lia. }
  unfold vl_http_parse_head. eapply confined_read; [reflexivity|]. eapply confined_read; [reflexivity|].
  destruct (strstr_run p b q 0 (length b0)) as (x & E & Hx);
    [by rewrite <- (Hat 0%nat CR eq_refl), Nat.add_comm|by rewrite <- (Hat 1%nat LF eq_refl); f_equal; lia|].
  eapply confined_read; [exact E|]. destruct x as [e|]; [|by apply confined_ret].
  destruct (Hx e eq_refl) as (He & Hcr & Hlf). case_match; [by apply confined_ret|].
  eapply confined_step; [apply run_store; lia|apply same_from_insert; [done|lia]|].
  set (b1 := <[e := 0]> b). assert (Hl1 : length b1 = length b) by apply length_insert.
  assert (Hz : b1 !! e = Some 0) by (apply list_lookup_insert_eq; lia).
  destruct (request_line_confined p b1 q e Hz Hq) as (st & b2 & q2 & E2 & Hs2 & Hq2 & Hh2).
  assert (Hsf : same_from (S e) b b2).
  { destruct Hs2 as [Hl2 Hs2]. split; [congruence|]. intros j Hj. rewrite Hs2 by lia. apply list_lookup_insert_ne. lia. }
  eapply confined_step; [exact E2|split; [apply Hs2|]; intros j Hj; apply Hs2; lia|].
  case_match; [by apply confined_ret|].
  assert (Hline : at_line b2 (e + 2)).
  { eapply (at_line_next b b2 0 e); [|lia|lia|done|done|lia|done]. unfold at_line. rewrite Hlen.
    replace (length b0 + 4 - 2)%nat with (length b0 + 2)%nat by lia. replace (length b0 + 4 - 1)%nat with (length b0 + 3)%nat by lia.
    replace (length b0 + 4 - 4)%nat with (length b0 + 0)%nat by lia. replace (length b0 + 4 - 3)%nat with (length b0 + 1)%nat by lia.
    split; [by apply Hat|]. split; [by apply Hat|]. right. split; [lia|]. split; by apply Hat. }
  destruct (headers_confined (Z.to_nat VL_HTTP_MAX_HEADERS) p b2 q2 (e + 2) false Hline Hq2) as (st3 & b3 & q3 & E3 & [Hl3 _] & Hq3 & _).
  { unfold header_count in *. rewrite Hh2, Hc0. done. }
  assert (Hl2 : length b2 = length b) by apply Hsf.
  assert (Hout : forall c : list Z, length c = length b -> same_from (length b) b2 c).
  { intros c Hc. split; [congruence|]. intros j Hj. rewrite !lookup_ge_None_2 by lia. done. }
  eapply confined_step; [exact E3|apply Hout; congruence|]. case_match; [by apply confined_ret|].
  eapply confined_step; [apply run_store; simpl; lia|apply same_from_insert; [done|simpl; lia]|].
  eapply confined_read; [reflexivity|]. case_match; [by apply confined_ret|].
  eapply confined_step; [apply run_upd_request|done|]. apply confined_ret; [by destruct Hq3; split|done].
Qed.
