(* ===== verification/HttpFeed.v ===== *)
(** * Feeding a request in pieces

    [verdict_of] is what the bytes received so far mean, as a function of those
    bytes alone; [feed_step] shows that feeding a piece moves the parser from the
    meaning of the bytes before it to the meaning of the bytes with it. *)

From stdpp Require Import strings.
From S2P Require Import Prelude HttpParser HttpParserProps.
From stdpp Require Import options.

Open Scope Z_scope.

Inductive verdict :=
  | V_more
  | V_error (e : vl_http_error)
  | V_done (q : vl_http_request) (content : list Z).

(** The head, parsed on its own. *)
Definition parse_alone (p0 : vl_http_parser) (hd : list Z) : option (vl_status * vl_http_parser) :=
  vl_http_parse_head (with_state (set_header_end (Z.of_nat (length hd)) p0) hd empty_request).

Definition head_error (p0 p : vl_http_parser) : vl_http_error :=
  if max_body_bytes (config p0) <? content_length (request p)
  then VL_HTTP_ERROR_PAYLOAD_TOO_LARGE else VL_HTTP_ERROR_BAD_REQUEST.

Definition body_verdict (q : vl_http_request) (he : nat) (data : list Z) : verdict :=
  if Z.of_nat (length data - he) <? content_length q then V_more
  else V_done (set_body_length (content_length q) q) (take (Z.to_nat (content_length q)) (drop he data)).

Definition verdict_of (p0 : vl_http_parser) (data : list Z) : verdict :=
  match find_crlfcrlf data with
  | None => if max_header_bytes (config p0) <? Z.of_nat (length data) then V_error VL_HTTP_ERROR_HEADER_TOO_LARGE else V_more
  | Some he =>
      if max_header_bytes (config p0) <? Z.of_nat he then V_error VL_HTTP_ERROR_HEADER_TOO_LARGE else
      match parse_alone p0 (take he data) with
      | Some (VL_OK, p) => body_verdict (request p) he data
      | Some (_, p) => V_error (head_error p0 p)
      | None => V_error VL_HTTP_ERROR_BAD_REQUEST
      end
  end.

(** The parser reports [v]. *)
Definition shows (v : verdict) (st : vl_http_parse_status) (p : vl_http_parser) : Prop :=
  match v with
  | V_more => st = VL_HTTP_PARSE_NEED_MORE /\ vl_http_parser_request p = None /\ error p = VL_HTTP_ERROR_NONE
  | V_error e => st = VL_HTTP_PARSE_ERROR /\ vl_http_parser_request p = None /\ vl_http_parser_error p = e /\
                 e <> VL_HTTP_ERROR_NONE
  | V_done q content =>
      st = VL_HTTP_PARSE_COMPLETE /\ vl_http_parser_request p = Some q /\ error p = VL_HTTP_ERROR_NONE /\
      exists b k, buffer p = Some b /\ body q = Some k /\ take (Z.to_nat (body_length q)) (drop k b) = content
  end.

(** A parser as [vl_http_parser_init] leaves it. *)
Record fresh (p0 : vl_http_parser) : Prop := {
  fr_buffer : exists b, buffer p0 = Some b /\ Z.of_nat (length b) = capacity p0 + 1;
  fr_capacity : 0 <= capacity p0 < W64 - 1;
  fr_room : max_header_bytes (config p0) + max_body_bytes (config p0) = capacity p0 /\ 0 <= max_body_bytes (config p0);
  fr_header : 0 < max_header_bytes (config p0);
  fr_length : p_length p0 = 0;
  fr_end : header_end p0 = 0;
  fr_error : error p0 = VL_HTTP_ERROR_NONE;
  fr_complete : complete p0 = false;
  fr_request : request p0 = empty_request }.

Lemma init_fresh malloc cfg :
  (forall c, cfg = Some c -> word (max_header_bytes c) /\ word (max_body_bytes c)) ->
  (forall n, 0 <= n -> exists b, malloc n = Some b /\ Z.of_nat (length b) = n) -> fresh (vl_http_parser_init malloc cfg).
Proof.
  intros Hcfg Hm. unfold vl_http_parser_init. set (c0 := default vl_http_config_default cfg).
  assert (Hc : word (max_header_bytes c0) /\ word (max_body_bytes c0)).
  { unfold c0. destruct cfg as [c|]; simpl; [by apply Hcfg|]. by split. }
  set (c := effective_config c0).
  assert (Hh : 0 < max_header_bytes c <= 8192).
  { unfold c, effective_config, VL_HTTP_DEFAULT_MAX_HEADER_BYTES. simpl.
    destruct (Z.eqb_spec (max_header_bytes c0) 0); simpl; [lia|].
    destruct (Z.ltb_spec 8192 (max_header_bytes c0)); simpl; word_lia. }
  assert (Hb : 0 <= max_body_bytes c <= 65536).
  { unfold c, effective_config, VL_HTTP_DEFAULT_MAX_BODY_BYTES. simpl.
    destruct (Z.ltb_spec (64 * 1024) (max_body_bytes c0)); word_lia. }
  clearbody c. rewrite (w64_small (max_header_bytes c + max_body_bytes c)) by word_lia. rewrite w64_small by word_lia.
  destruct (Hm (max_header_bytes c + max_body_bytes c + 1)) as (b & -> & Hl); [lia|].
  split; simpl; try done; [by exists b|word_lia|lia|lia].
Qed.

Lemma empty_request_ok : request_ok empty_request.
Proof. by split; [| | |constructor|]. Qed.

(** ** Writing a piece *)

Lemma store_piece {A} p pre d tl (k : H A) : buffer p = Some (pre ++ tl) -> (length d < length tl)%nat ->
  exists tl', (_ ← store_bytes (length pre) d; _ ← modify (set_p_length (Z.of_nat (length pre + length d)));
      _ ← store_byte (length pre + length d) 0; k) p =
    k (set_p_length (Z.of_nat (length pre + length d)) (set_buffer (Some ((pre ++ d) ++ 0 :: tl')) p)) /\
    (length d + S (length tl') = length tl)%nat.
Proof.
  intros Hb Hd. exists (drop (S (length d)) tl).
  assert (E : store_bytes (length pre) d p = Some (tt, set_buffer (Some (pre ++ d ++ drop (length d) tl)) p)).
  { unfold store_bytes. rewrite Hb, length_app, (proj2 (Nat.leb_le _ _)) by lia.
    by rewrite take_app_length, <- drop_drop, drop_app_length. }
  rewrite (bind_Some _ _ _ _ _ E). erewrite bind_Some by reflexivity. rewrite bind_run. unfold store_byte. simpl.
  rewrite !length_app, length_drop, (proj2 (Nat.ltb_lt _ _)) by lia. split; [|rewrite length_drop; lia].
  f_equal. unfold set_p_length, set_buffer. simpl. do 2 f_equal. rewrite app_assoc. rewrite insert_app_r_alt by (rewrite length_app; lia).
  rewrite length_app, Nat.sub_diag. destruct (drop (length d) tl) as [|x r] eqn:Er.
  - apply (f_equal length) in Er. rewrite length_drop in Er. simpl in Er. lia.
  - simpl. do 2 f_equal. rewrite <- (Nat.add_1_r (length d)), <- drop_drop, Er. done.
Qed.

(** ** The parser's state represents the bytes received *)

Section Feed.
  #[local] Set Default Proof Using "Type*".
  Context (p0 : vl_http_parser) (Hp0 : fresh p0).

(** Waiting for the end of the head, waiting for the body, or settled. *)
Inductive rep (data : list Z) (p : vl_http_parser) : Prop :=
  | rep_head tl : p = set_p_length (Z.of_nat (length data)) (with_state p0 (data ++ tl) empty_request) ->
      Z.of_nat (length data + length tl) = capacity p0 + 1 ->
      find_crlfcrlf data = None -> verdict_of p0 data = V_more -> rep data p
  | rep_body he p1 hb tl : find_crlfcrlf data = Some he -> Z.of_nat he <= max_header_bytes (config p0) ->
      parse_alone p0 (take he data) = Some (VL_OK, p1) -> buffer p1 = Some hb -> length hb = he ->
      p = set_p_length (Z.of_nat (length data)) (set_header_end (Z.of_nat he)
            (with_state p0 (hb ++ drop he data ++ tl) (request p1))) ->
      Z.of_nat (length data + length tl) = capacity p0 + 1 ->
      verdict_of p0 data = V_more -> rep data p
  | rep_settled v st : verdict_of p0 data = v -> v <> V_more -> shows v st p -> rep data p.

(** More bytes do not change a settled verdict. *)
Lemma verdict_settled data d : verdict_of p0 data <> V_more -> verdict_of p0 (data ++ d) = verdict_of p0 data.
Proof.
  unfold verdict_of. destruct (find_crlfcrlf data) as [he|] eqn:Ef.
  - rewrite (find_app _ d _ Ef). destruct (_ <? _); [done|].
    pose proof (find_ends _ _ Ef) as (Hle & _ & _). rewrite (take_app_le data d he) by lia.
    destruct (parse_alone p0 (take he data)) as [[[] p1]|]; try done.
    unfold body_verdict. destruct (Z.ltb_spec (Z.of_nat (length data - he)) (content_length (request p1))); [done|].
    intros _. rewrite length_app, (proj2 (Z.ltb_ge _ _)) by lia. f_equal.
    rewrite drop_app_le by lia. rewrite take_app_le; [done|]. rewrite length_drop. lia.
  - destruct (Z.ltb_spec (max_header_bytes (config p0)) (Z.of_nat (length data))); [|done]. intros _.
    destruct (find_crlfcrlf (data ++ d)) as [he|] eqn:Ef'.
    + pose proof (find_beyond _ _ _ Ef Ef'). rewrite (proj2 (Z.ltb_lt _ _)) by lia. done.
    + rewrite length_app, (proj2 (Z.ltb_lt _ _)) by lia. done.
Qed.

(** A settled parser ignores what it is fed. *)
Lemma feed_settled v st p d : v <> V_more -> shows v st p -> vl_http_parser_feed (Some d) p = Some (st, p).
Proof.
  intros Hv Hs. unfold vl_http_parser_feed. erewrite bind_Some by reflexivity. unfold id. cbn zeta.
  destruct v as [|e|q c]; simpl in Hs; [done| |].
  - destruct Hs as (-> & _ & He & Hne). unfold vl_http_parser_error in He. subst e.
    rewrite (bool_decide_eq_true_2 _ Hne), orb_true_r. by rewrite decide_False.
  - destruct Hs as (-> & Hr & He & _). unfold vl_http_parser_request in Hr. destruct (complete p); [|done]. simpl.
    by rewrite decide_True.
Qed.

(** The body is complete, or more is needed. *)
Lemma feed_body_run p data he hb tl q : find_crlfcrlf data = Some he -> length hb = he -> body q = Some he ->
  p = set_p_length (Z.of_nat (length data)) (set_header_end (Z.of_nat he) (with_state p0 (hb ++ drop he data ++ tl) q)) ->
  Z.of_nat (length data) < W64 ->
  exists st p', feed_body p = Some (st, p') /\ shows (body_verdict q he data) st p' /\
    (body_verdict q he data = V_more -> p' = p).
Proof.
  intros Hf Hhb Hbody -> Hw. pose proof (find_ends _ _ Hf) as (Hle & _ & _). destruct Hp0.
  unfold feed_body. erewrite bind_Some by reflexivity. unfold id. cbn [p_length header_end request with_state set_p_length set_header_end set_request set_buffer].
  rewrite w64_small by word_lia. replace (Z.of_nat (length data) - Z.of_nat he) with (Z.of_nat (length data - he)) by lia.
  unfold body_verdict. destruct (Z.ltb_spec (Z.of_nat (length data - he)) (content_length q)) as [Hlt|Hge].
  - eexists _, _. split; [done|]. split; [|done]. simpl. split; [done|]. unfold vl_http_parser_request. simpl.
    rewrite fr_complete0. done.
  - eexists _, _. split; [done|]. split; [|done]. simpl. split; [done|]. split; [done|]. split; [done|].
    eexists _, he. split; [done|]. split; [done|]. simpl.
    rewrite <- Hhb at 1. rewrite drop_app_length. rewrite take_app_le; [done|]. rewrite length_drop. lia.
Qed.

(** The entry of [vl_http_parser_feed] while the request is incomplete. *)
Lemma feed_store p pre tl d : buffer p = Some (pre ++ tl) -> p_length p = Z.of_nat (length pre) ->
  capacity p = capacity p0 -> complete p = false -> error p = VL_HTTP_ERROR_NONE ->
  Z.of_nat (length pre + length tl) = capacity p0 + 1 -> Z.of_nat (length pre + length d) <= capacity p0 ->
  exists tl', vl_http_parser_feed (Some d) p =
      (if negb (header_end p =? 0) then feed_body else feed_head)
        (set_p_length (Z.of_nat (length pre + length d)) (set_buffer (Some ((pre ++ d) ++ 0 :: tl')) p)) /\
    Z.of_nat (length pre + length d + S (length tl')) = capacity p0 + 1.
Proof.
  intros Hb Hl Hc Hco He Ht Hd. destruct Hp0. unfold vl_http_parser_feed. erewrite bind_Some by reflexivity.
  unfold id. cbn zeta. rewrite Hco, He, Hb, Hl, Hc. simpl. rewrite w64_small by word_lia.
  rewrite (proj2 (Z.ltb_ge _ _)) by lia. rewrite w64_small by word_lia.
  rewrite <- Nat2Z.inj_add, !Nat2Z.id.
  destruct (store_piece p pre d tl (if negb (header_end p =? 0) then feed_body else feed_head)) as (tl' & E & Hlen);
    [done|lia|]. exists tl'. split; [exact E|lia].
Qed.

Lemma find_run p b n : buffer p = Some b -> (n <= length b)%nat ->
  vl_http_find_header_end (Z.of_nat n) p = Some (find_crlfcrlf (take n b), p).
Proof.
  intros Hb Hn. unfold vl_http_find_header_end, on_buffer, deref. rewrite Hb. simpl.
  rewrite Nat2Z.id, (proj2 (Nat.ltb_ge _ _)) by lia. done.
Qed.

(** Parsing the head alone always returns, in place. *)
Lemma parse_alone_run data he : find_crlfcrlf data = Some he ->
  exists st b q, parse_alone p0 (take he data) =
      Some (st, with_state (set_header_end (Z.of_nat he) p0) b q) /\ length b = he /\ request_ok q.
Proof.
  intros Hf. destruct (find_ends _ _ Hf) as (Hle & Hends & _). unfold parse_alone.
  assert (Hl : length (take he data) = he) by (rewrite length_take; lia). rewrite Hl.
  destruct (head_total (set_header_end (Z.of_nat he) p0) (take he data) empty_request Hends)
    as (st & b & q & E & [Hlb _] & Hq & _); [simpl; by rewrite Hl|apply empty_request_ok|done|].
  exists st, b, q. split; [done|]. split; [congruence|done].
Qed.

Lemma parse_alone_body hd p1 : parse_alone p0 hd = Some (VL_OK, p1) ->
  body (request p1) = Some (length hd) /\ content_length (request p1) <= max_body_bytes (config p0).
Proof.
  unfold parse_alone, vl_http_parse_head. intros E.
  repeat match goal with
  | H : (_ ≫= _) _ = Some _ |- _ => apply bind_inv in H as (? & ? & ? & H)
  | H : (if ?b then _ else _) _ = Some _ |- _ => let E := fresh "Eb" in destruct b eqn:E; [by crun in H|]
  | H : (match ?x with Some _ => _ | None => _ end) _ = Some (VL_OK, _) |- _ => destruct x; [|by crun in H]
  end.
  repeat match goal with
  | H1 : gets _ _ = Some _ |- _ => unfold gets in H1; injection H1 as <- <-
  | H2 : upd_request (set_body _) _ = Some _ |- _ => unfold upd_request, modify in H2; injection H2 as <- <-
  end.
  unfold mret, C_ret in E. injection E as <-. simpl. rewrite Nat2Z.id. split; [done|].
  match goal with H : (_ <? content_length _) = false |- _ => apply Z.ltb_ge in H; exact H end.
Qed.

(** The parser that stored [data], seen as the lone head with the rest behind it. *)
Lemma stored_extends data he tl : find_crlfcrlf data = Some he ->
  set_header_end (Z.of_nat he) (set_p_length (Z.of_nat (length data)) (with_state p0 (data ++ tl) empty_request)) =
  extend (Z.of_nat (length data), drop he data ++ tl)
    (with_state (set_header_end (Z.of_nat (length (take he data))) p0) (take he data) empty_request).
Proof.
  intros Hf. destruct (find_ends _ _ Hf) as (Hle & _ & _). unfold extend, with_state. simpl.
  rewrite length_take, Nat.min_l by lia. unfold set_p_length, set_header_end, set_buffer, set_request. simpl.
  by rewrite app_assoc, take_drop.
Qed.

Lemma settle data st p : verdict_of p0 data <> V_more -> shows (verdict_of p0 data) st p -> rep data p.
Proof. intros Hv Hs. by eapply rep_settled. Qed.

(** The head has just become complete. *)
Lemma feed_head_parsed data he tl : find_crlfcrlf data = Some he -> Z.of_nat he <= max_header_bytes (config p0) ->
  Z.of_nat (length data + length tl) = capacity p0 + 1 ->
  exists st p', (st ← vl_http_parse_head;
      if bool_decide (st <> VL_OK) then
        q ← gets request;
        _ ← vl_http_set_error (if max_body_bytes (config p0) <? content_length q
                               then VL_HTTP_ERROR_PAYLOAD_TOO_LARGE else VL_HTTP_ERROR_BAD_REQUEST);
        mret VL_HTTP_PARSE_ERROR
      else feed_body)
      (set_header_end (Z.of_nat he) (set_p_length (Z.of_nat (length data)) (with_state p0 (data ++ tl) empty_request)))
      = Some (st, p') /\ rep data p' /\ shows (verdict_of p0 data) st p'.
Proof.
  intros Ef Hfit Hlen. pose proof Hp0 as [_ Hcap _ _ _ Hend Herr Hco Hreq].
  destruct (parse_alone_run data he Ef) as (st & b & q & Ea & Hlb & Hq).
  assert (Ev : verdict_of p0 data = match st with VL_OK => body_verdict q he data
    | _ => V_error (if max_body_bytes (config p0) <? content_length q then VL_HTTP_ERROR_PAYLOAD_TOO_LARGE else VL_HTTP_ERROR_BAD_REQUEST) end).
  { unfold verdict_of. rewrite Ef, (proj2 (Z.ltb_ge _ _) Hfit), Ea. by destruct st. }
  rewrite (stored_extends data he tl Ef).
  pose proof (framed_head _ _ _ (Z.of_nat (length data), drop he data ++ tl) Ea) as Ea'.
  rewrite (bind_Some _ _ _ _ _ Ea'). destruct (bool_decide_reflect (st <> VL_OK)) as [Hst|Hst].
  - assert (Ev' : verdict_of p0 data = V_error (if max_body_bytes (config p0) <? content_length q
      then VL_HTTP_ERROR_PAYLOAD_TOO_LARGE else VL_HTTP_ERROR_BAD_REQUEST)) by (rewrite Ev; by destruct st).
    eexists _, _. split; [reflexivity|]. match goal with |- rep _ ?x /\ _ => assert (Hs : shows (verdict_of p0 data) VL_HTTP_PARSE_ERROR x) end.
    { rewrite Ev'. simpl. unfold vl_http_parser_request. simpl. rewrite Hco. split; [done|]. split; [done|].
      split; [done|]. by case_match. }
    split; [|done]. eapply settle; [by rewrite Ev'|exact Hs].
  - assert (st = VL_OK) as -> by (destruct st; try done; by destruct Hst).
    pose proof (parse_alone_body _ _ Ea) as [Hbody _]. simpl in Hbody. destruct (find_ends _ _ Ef) as (Hle & _ & _).
    rewrite length_take, Nat.min_l in Hbody by lia. rewrite Ev.
    destruct (feed_body_run (extend (Z.of_nat (length data), drop he data ++ tl) (with_state (set_header_end (Z.of_nat he) p0) b q))
      data he b tl q Ef Hlb Hbody) as (st & p' & E & Hs & Hp'); [done|word_lia|].
    exists st, p'. split; [exact E|]. split; [|done]. destruct (body_verdict q he data) eqn:Eb.
    + rewrite (Hp' eq_refl). by eapply rep_body.
    + eapply settle; rewrite Ev; [done|exact Hs].
    + eapply settle; rewrite Ev; [done|exact Hs].
Qed.

(** [feed_head] after [data] has been stored. *)
Lemma feed_head_run data tl : Z.of_nat (length data + length tl) = capacity p0 + 1 ->
  exists st p', feed_head (set_p_length (Z.of_nat (length data)) (with_state p0 (data ++ tl) empty_request)) = Some (st, p') /\
    rep data p' /\ shows (verdict_of p0 data) st p'.
Proof.
  intros Hlen. pose proof Hp0 as [_ Hcap _ _ _ Hend Herr Hco Hreq]. unfold feed_head.
  erewrite bind_Some by reflexivity. unfold id. cbn [p_length set_p_length config with_state set_request set_buffer].
  erewrite bind_Some by (apply (find_run _ (data ++ tl)); [reflexivity|rewrite length_app; lia]).
  rewrite take_app_length. destruct (find_crlfcrlf data) as [he|] eqn:Ef.
  - erewrite bind_Some by reflexivity.
    destruct (Z.ltb_spec (max_header_bytes (config p0)) (Z.of_nat he)) as [Hbig|Hfit]; [|by apply feed_head_parsed].
    assert (Ev : verdict_of p0 data = V_error VL_HTTP_ERROR_HEADER_TOO_LARGE)
      by (unfold verdict_of; by rewrite Ef, (proj2 (Z.ltb_lt _ _) Hbig)).
    eexists _, _. split; [reflexivity|].
    match goal with |- rep _ ?x /\ _ => assert (Hs : shows (verdict_of p0 data) VL_HTTP_PARSE_ERROR x) end.
    { rewrite Ev. simpl. unfold vl_http_parser_request. simpl. by rewrite Hco. }
    split; [eapply settle; [by rewrite Ev|exact Hs]|done].
  - destruct (Z.ltb_spec (max_header_bytes (config p0)) (Z.of_nat (length data))) as [Hbig|Hfit].
    + assert (Ev : verdict_of p0 data = V_error VL_HTTP_ERROR_HEADER_TOO_LARGE)
        by (unfold verdict_of; by rewrite Ef, (proj2 (Z.ltb_lt _ _) Hbig)).
      eexists _, _. split; [reflexivity|].
      match goal with |- rep _ ?x /\ _ => assert (Hs : shows (verdict_of p0 data) VL_HTTP_PARSE_ERROR x) end.
      { rewrite Ev. simpl. unfold vl_http_parser_request. simpl. by rewrite Hco. }
      split; [eapply settle; [by rewrite Ev|exact Hs]|done].
    + assert (Ev : verdict_of p0 data = V_more) by (unfold verdict_of; by rewrite Ef, (proj2 (Z.ltb_ge _ _) Hfit)).
      eexists _, _. split; [reflexivity|]. rewrite Ev. split; [by eapply rep_head|]. simpl. unfold vl_http_parser_request.
      simpl. by rewrite Hco.
Qed.

(** One piece. *)
Lemma feed_step data d p : rep data p -> Z.of_nat (length data + length d) <= capacity p0 ->
  exists st p', vl_http_parser_feed (Some d) p = Some (st, p') /\ rep (data ++ d) p' /\
    shows (verdict_of p0 (data ++ d)) st p'.
Proof.
  intros Hr Hd. pose proof Hp0 as [_ Hcap [Hroom Hmb] _ _ Hend Herr Hco Hreq].
  destruct Hr as [tl -> Hlen Hf Hv|he p1 hb tl Hf Hfit Ha Hb Hhb -> Hlen Hv|v st Hv Hne Hs].
  - edestruct (feed_store (set_p_length (Z.of_nat (length data)) (with_state p0 (data ++ tl) empty_request)) data tl d)
      as (tl' & E & Hlen'); [done|done|done|exact Hco|exact Herr|done|done|].
    rewrite E. simpl. rewrite Hend. simpl. rewrite <- length_app.
    apply (feed_head_run (data ++ d) (0 :: tl')). rewrite length_app. simpl. lia.
  - pose proof (find_ends _ _ Hf) as (Hle & _ & H4).
    assert (Hpre : length (hb ++ drop he data) = length data) by (rewrite length_app, length_drop; lia).
    edestruct (feed_store (set_p_length (Z.of_nat (length data)) (set_header_end (Z.of_nat he)
      (with_state p0 (hb ++ drop he data ++ tl) (request p1)))) (hb ++ drop he data) tl d) as (tl' & E & Hlen');
      [simpl; by rewrite app_assoc|simpl; by rewrite Hpre|done|exact Hco|exact Herr|by rewrite Hpre|by rewrite Hpre|].
    rewrite E. simpl. rewrite (proj2 (Z.eqb_neq _ _)) by lia. simpl. rewrite Hpre, <- length_app.
    pose proof (parse_alone_body _ _ Ha) as [Hbody _]. rewrite length_take, Nat.min_l in Hbody by lia.
    assert (Hf' : find_crlfcrlf (data ++ d) = Some he) by by apply find_app.
    assert (Ev : verdict_of p0 (data ++ d) = body_verdict (request p1) he (data ++ d)).
    { unfold verdict_of. by rewrite Hf', (proj2 (Z.ltb_ge _ _) Hfit), take_app_le, Ha by lia. }
    match goal with |- exists _ _, feed_body ?s = _ /\ _ =>
      destruct (feed_body_run s (data ++ d) he hb (0 :: tl') (request p1) Hf' Hhb Hbody) as (st & p' & E' & Hs & Hp') end.
    { unfold with_state, set_p_length, set_header_end, set_buffer, set_request. simpl. rewrite drop_app_le by lia.
      by rewrite <- !app_assoc. }
    { rewrite length_app. word_lia. }
    exists st, p'. split; [exact E'|]. rewrite Ev. split; [|done].
    destruct (body_verdict (request p1) he (data ++ d)) eqn:Eb.
    + rewrite (Hp' eq_refl). eapply (rep_body _ _ he p1 hb (0 :: tl')); [done|done|by rewrite take_app_le by lia|done|done| | |done].
      * unfold with_state, set_p_length, set_header_end, set_buffer, set_request. simpl. rewrite drop_app_le by lia.
        by rewrite <- !app_assoc.
      * rewrite length_app. simpl. lia.
    + eapply settle; rewrite Ev; [done|exact Hs].
    + eapply settle; rewrite Ev; [done|exact Hs].
  - exists st, p. rewrite (feed_settled v st p d Hne Hs). split; [done|]. rewrite verdict_settled by congruence.
    rewrite Hv. split; [|done]. eapply settle; rewrite verdict_settled, Hv by congruence; done.
Qed.

Lemma rep_fresh : rep [] p0.
Proof.
  destruct Hp0 as [(b & Hb & Hl) Hcap Hroom Hh Hlen Hend Herr Hco Hreq]. apply (rep_head _ _ b).
  - unfold with_state, set_p_length, set_buffer, set_request. destruct p0; simpl in *; by subst.
  - simpl. lia.
  - done.
  - unfold verdict_of. simpl. by rewrite (proj2 (Z.ltb_ge _ _)) by lia.
Qed.

End Feed.

(** The pieces one after the other; the status of the last. *)
Fixpoint feed_all (chunks : list (list Z)) (st : vl_http_parse_status) : H vl_http_parse_status :=
  match chunks with
  | [] => mret st
  | d :: chunks => st ← vl_http_parser_feed (Some d); feed_all chunks st
  end.

Lemma feed_all_run p0 chunks data st p : fresh p0 -> rep p0 data p -> shows (verdict_of p0 data) st p ->
  Z.of_nat (length data + length (concat chunks)) <= capacity p0 ->
  exists st' p', feed_all chunks st p = Some (st', p') /\ rep p0 (data ++ concat chunks) p' /\
    shows (verdict_of p0 (data ++ concat chunks)) st' p'.
Proof.
  intros Hp0. revert data st p. induction chunks as [|d chunks IH]; intros data st p Hr Hs Hl; simpl in *.
  - exists st, p. rewrite app_nil_r. done.
  - rewrite length_app in Hl. destruct (feed_step p0 Hp0 data d p Hr) as (st1 & p1 & E & Hr1 & Hs1); [lia|].
    rewrite (bind_Some _ _ _ _ _ E). rewrite app_assoc. apply IH; [done|done|]. rewrite length_app. lia.
Qed.

Lemma feed_all_fresh p0 chunks : fresh p0 -> Z.of_nat (length (concat chunks)) <= capacity p0 ->
  exists st p, feed_all chunks VL_HTTP_PARSE_NEED_MORE p0 = Some (st, p) /\ rep p0 (concat chunks) p /\
    shows (verdict_of p0 (concat chunks)) st p.
Proof.
  intros Hp0 Hl. apply (feed_all_run p0 chunks []); [done|by apply rep_fresh| |done].
  destruct Hp0. unfold verdict_of. simpl. rewrite (proj2 (Z.ltb_ge _ _)) by lia. simpl.
  unfold vl_http_parser_request. by rewrite fr_complete0.
Qed.

(** What is asked of the allocator that provides the parser's buffer: to succeed, or only
    that a block it returns has the size requested. *)
Definition malloc_ok (malloc : Z -> option (list Z)) : Prop :=
  forall n, 0 <= n -> exists b, malloc n = Some b /\ Z.of_nat (length b) = n.

Definition malloc_sized (malloc : Z -> option (list Z)) : Prop :=
  forall n b, 0 <= n -> malloc n = Some b -> Z.of_nat (length b) = n.

Definition config_ok (cfg : option vl_http_config) : Prop :=
  forall c, cfg = Some c -> word (max_header_bytes c) /\ word (max_body_bytes c).

(** A parser whose buffer could not be allocated. *)
Record starved (p0 : vl_http_parser) : Prop := {
  sv_buffer : buffer p0 = None;
  sv_capacity : capacity p0 = 0;
  sv_error : error p0 = VL_HTTP_ERROR_NONE;
  sv_complete : complete p0 = false;
  sv_start : verdict_of p0 [] = V_more }.

Lemma init_cases malloc cfg : malloc_sized malloc -> config_ok cfg ->
  let p0 := vl_http_parser_init malloc cfg in
  fresh p0 /\ buffer p0 <> None \/ starved p0 /\ exists n, malloc n = None.
Proof.
  intros Hm Hc p0. set (malloc' := fun n => match malloc n with Some b => Some b | None => Some (replicate (Z.to_nat n) 0) end).
  assert (Hf : fresh (vl_http_parser_init malloc' cfg)).
  { apply init_fresh; [exact Hc|]. intros n Hn. unfold malloc'. destruct (malloc n) as [b|] eqn:E; [exists b; split; [done|by apply Hm]|].
    eexists. split; [done|]. rewrite length_replicate. lia. }
  pose proof (fr_header _ Hf) as Hh. revert Hf Hh. unfold p0, vl_http_parser_init, malloc'. destruct (malloc _) as [b|] eqn:E; [by left|].
  intros _ Hh. right. split; [|by eexists]. split; [done..|]. unfold verdict_of. cbn [config] in *. simpl find_crlfcrlf.
  by rewrite (proj2 (Z.ltb_ge _ _)) by (simpl length; lia).
Qed.

#[export] Instance verdict_more_dec (v : verdict) : Decision (v = V_more).
Proof. destruct v; [by left|by right..]. Defined.

(** What a sequence of pieces means after [data]: the verdict on the bytes so far once there
    is one, and an error when a piece does not fit the buffer before that. *)
Fixpoint outcome_of (p0 : vl_http_parser) (data : list Z) (chunks : list (list Z)) : verdict :=
  match verdict_of p0 data, chunks with
  | V_more, d :: chunks =>
      if bool_decide (buffer p0 = None) || (capacity p0 <? Z.of_nat (length (data ++ d)))
      then V_error VL_HTTP_ERROR_PAYLOAD_TOO_LARGE else outcome_of p0 (data ++ d) chunks
  | v, _ => v
  end.

Lemma outcome_more p0 data d chunks : verdict_of p0 data = V_more -> outcome_of p0 data (d :: chunks) =
  if bool_decide (buffer p0 = None) || (capacity p0 <? Z.of_nat (length (data ++ d)))
  then V_error VL_HTTP_ERROR_PAYLOAD_TOO_LARGE else outcome_of p0 (data ++ d) chunks.
Proof. intros E. simpl. by rewrite E. Qed.

Lemma outcome_decided p0 data chunks : verdict_of p0 data <> V_more -> outcome_of p0 data chunks = verdict_of p0 data.
Proof. intros Hv. destruct chunks; simpl; by destruct (verdict_of p0 data). Qed.

Lemma feed_all_settled v st p chunks : v <> V_more -> shows v st p -> feed_all chunks st p = Some (st, p).
Proof.
  intros Hv Hs. induction chunks as [|d chunks IH]; [done|]. simpl. by rewrite (bind_Some _ _ _ _ _ (feed_settled v st p d Hv Hs)).
Qed.

(** A piece that does not fit. *)
Lemma feed_refused p d : complete p = false -> error p = VL_HTTP_ERROR_NONE ->
  buffer p = None \/ capacity p < p_length p + Z.of_nat (length d) /\ 0 <= p_length p <= capacity p /\ capacity p < W64 ->
  vl_http_parser_feed (Some d) p = Some (VL_HTTP_PARSE_ERROR, set_error VL_HTTP_ERROR_PAYLOAD_TOO_LARGE p).
Proof.
  intros Hc He Hov. unfold vl_http_parser_feed. erewrite bind_Some by reflexivity. unfold id. cbn zeta.
  rewrite Hc, He. simpl.
  assert (bool_decide (buffer p = None) || (w64 (capacity p - p_length p) <? Z.of_nat (length d)) = true) as ->; [|done].
  destruct Hov as [->|[Hov Hr]]; [done|]. rewrite w64_small by word_lia.
  rewrite (proj2 (Z.ltb_lt _ _)) by lia. apply orb_true_r.
Qed.

Lemma refused_shows p : complete p = false ->
  shows (V_error VL_HTTP_ERROR_PAYLOAD_TOO_LARGE) VL_HTTP_PARSE_ERROR (set_error VL_HTTP_ERROR_PAYLOAD_TOO_LARGE p).
Proof. intros Hc. simpl. unfold vl_http_parser_request. simpl. by rewrite Hc. Qed.

Lemma rep_more p0 data p : fresh p0 -> rep p0 data p -> verdict_of p0 data = V_more ->
  complete p = false /\ error p = VL_HTTP_ERROR_NONE /\ p_length p = Z.of_nat (length data) /\ capacity p = capacity p0.
Proof.
  intros Hp0 Hr Hv. pose proof Hp0 as [_ _ _ _ _ _ Herr Hco _].
  by destruct Hr as [tl -> _ _ _|he p1 hb tl _ _ _ _ _ -> _ _|v st Hv' Hne _]; [..|congruence].
Qed.

Lemma outcome_run p0 chunks data st p : fresh p0 -> buffer p0 <> None -> rep p0 data p -> shows (verdict_of p0 data) st p ->
  Z.of_nat (length data) <= capacity p0 ->
  exists st' p', feed_all chunks st p = Some (st', p') /\ shows (outcome_of p0 data chunks) st' p'.
Proof.
  intros Hp0 Hb. revert data st p. induction chunks as [|d chunks IH]; intros data st p Hr Hs Hl.
  { exists st, p. split; [done|]. simpl. by destruct (verdict_of p0 data). }
  destruct (decide (verdict_of p0 data = V_more)) as [Hv|Hv].
  2: { exists st, p. rewrite outcome_decided by done. split; [|done]. by eapply feed_all_settled. }
  rewrite outcome_more, bool_decide_false by done. rewrite orb_false_l. pose proof (fr_capacity _ Hp0).
  destruct (rep_more p0 data p Hp0 Hr Hv) as (Hc & He & Hlen & Hcap). simpl feed_all.
  destruct (Z.ltb_spec (capacity p0) (Z.of_nat (length (data ++ d)))) as [Hov|Hfit]; rewrite length_app in *.
  - erewrite bind_Some by (apply (feed_refused p d Hc He); right; rewrite Hcap, Hlen; lia). eexists _, _.
    split; [|by apply refused_shows]. by eapply (feed_all_settled (V_error _)); [|apply refused_shows].
  - destruct (feed_step p0 Hp0 data d p Hr) as (st1 & p1 & E & Hr1 & Hs1); [lia|].
    rewrite (bind_Some _ _ _ _ _ E). apply IH; [done..|]. rewrite length_app. lia.
Qed.

Lemma outcome_init malloc cfg chunks : malloc_sized malloc -> config_ok cfg ->
  let p0 := vl_http_parser_init malloc cfg in
  exists st p, feed_all chunks VL_HTTP_PARSE_NEED_MORE p0 = Some (st, p) /\ shows (outcome_of p0 [] chunks) st p.
Proof.
  intros Hm Hc p0. pose proof (init_cases malloc cfg Hm Hc) as Hi. cbn zeta in Hi. fold p0 in Hi.
  destruct Hi as [[Hp0 Hb]|[[Hb _ He Hco Hv] _]].
  - destruct (feed_all_fresh p0 [] Hp0) as (st & p & E & _ & Hs); [pose proof (fr_capacity _ Hp0); simpl; lia|]. injection E as <- <-.
    apply outcome_run; [done|done|by apply rep_fresh|done|]. pose proof (fr_capacity _ Hp0). simpl. lia.
  - destruct chunks as [|d chunks]; [eexists _, _; split; [done|]; simpl; rewrite Hv; simpl; unfold vl_http_parser_request; by rewrite Hco|].
    rewrite outcome_more, bool_decide_true by done. simpl feed_all. erewrite bind_Some by (apply (feed_refused p0 d Hco He); by left).
    eexists _, _. split; [|by apply refused_shows]. by eapply (feed_all_settled (V_error _)); [|apply refused_shows].
Qed.

(** Bytes that fit mean the same however they are cut. *)
Lemma outcome_fits p0 chunks data : fresh p0 -> buffer p0 <> None -> Z.of_nat (length (data ++ concat chunks)) <= capacity p0 ->
  outcome_of p0 data chunks = verdict_of p0 (data ++ concat chunks).
Proof.
  intros Hp0 Hb. revert data. induction chunks as [|d chunks IH]; intros data Hl; [simpl; rewrite app_nil_r; by destruct (verdict_of p0 data)|].
  destruct (decide (verdict_of p0 data = V_more)) as [Hv|Hv].
  2: { rewrite outcome_decided by done. symmetry. by apply verdict_settled. }
  simpl concat in *. rewrite app_assoc. rewrite app_assoc in Hl. rewrite outcome_more, bool_decide_false by done. rewrite (proj2 (Z.ltb_ge _ _)); [by apply IH|].
  rewrite length_app in Hl. lia.
Qed.

(** A request, once complete, is the verdict on all the bytes. *)
Lemma outcome_done p0 chunks data q c : fresh p0 -> outcome_of p0 data chunks = V_done q c -> verdict_of p0 (data ++ concat chunks) = V_done q c.
Proof.
  intros Hp0. revert data. induction chunks as [|d chunks IH]; intros data E; [simpl in *; rewrite app_nil_r; by destruct (verdict_of p0 data)|].
  destruct (decide (verdict_of p0 data = V_more)) as [Hv|Hv].
  2: { rewrite outcome_decided in E by done. rewrite <- E. by apply verdict_settled. }
  rewrite outcome_more in E by done. simpl concat. rewrite app_assoc. case_match; [done|]. by apply IH.
Qed.

(** C13: The HTTP parser never reads or writes outside its buffer, always returns, and what
    it reports does not depend on how the bytes were cut into pieces as long as they fit.
    For every configuration, every sequence of pieces and every allocator (that may fail),
    the last status, the error and the request with the bytes of its body are those of
    [outcome_of]: the verdict of [verdict_of] on the bytes so far once there is one, and
    "payload too large" when before that a piece exceeds the capacity (or there is no
    buffer).  When the buffer was allocated and all the bytes fit its capacity, that is
    [verdict_of] of their concatenation.  Beyond the capacity the pieces do matter: bytes
    behind a complete request are refused when they come with it and ignored when they
    come later. *)
Theorem http_parser_fragmentation malloc cfg chunks :
  malloc_sized malloc -> config_ok cfg ->
  let p0 := vl_http_parser_init malloc cfg in
  (exists st p, feed_all chunks VL_HTTP_PARSE_NEED_MORE p0 = Some (st, p) /\ shows (outcome_of p0 [] chunks) st p) /\
  (buffer p0 <> None -> Z.of_nat (length (concat chunks)) <= capacity p0 ->
     outcome_of p0 [] chunks = verdict_of p0 (concat chunks)).
Proof.
  intros Hm Hc p0. split; [by apply outcome_init|]. intros Hb Hl. apply (outcome_fits p0 chunks []); [|done|done].
  by destruct (init_cases malloc cfg Hm Hc) as [[? _]|[[? _ _ _ _] _]].
Qed.

(** A request that is complete fits the arrays it was copied into. *)
Record complete_request (cfg : vl_http_config) (data : list Z) (he : nat) (q : vl_http_request) (c : list Z) : Prop := {
  cr_ok : request_ok q;
  cr_body : body q = Some he;
  cr_length : body_length q = content_length q;
  cr_content : Z.of_nat (length c) = content_length q;
  cr_bytes : c `prefix_of` drop he data;
  cr_limit : content_length q <= max_body_bytes cfg;
  cr_head : Z.of_nat he <= max_header_bytes cfg }.

Lemma verdict_request p0 data q c : fresh p0 -> verdict_of p0 data = V_done q c ->
  exists he, find_crlfcrlf data = Some he /\ complete_request (config p0) data he q c.
Proof.
  intros Hp0. unfold verdict_of. destruct (find_crlfcrlf data) as [he|] eqn:Ef; [|by case_match].
  destruct (Z.ltb_spec (max_header_bytes (config p0)) (Z.of_nat he)) as [|Hfit]; [done|].
  destruct (parse_alone_run p0 Hp0 data he Ef) as (st & b & q1 & Ea & Hlb & Hq). rewrite Ea.
  destruct st; try done. unfold body_verdict. simpl.
  destruct (Z.ltb_spec (Z.of_nat (length data - he)) (content_length q1)); [done|]. intros [= <- <-].
  pose proof (parse_alone_body p0 Hp0 _ _ Ea) as [Hb Hlim]. simpl in Hb, Hlim. destruct (find_ends _ _ Ef) as (Hle & _ & _).
  rewrite length_take, Nat.min_l in Hb by lia. exists he. split; [done|]. pose proof (rq_length _ Hq).
  split; [by destruct Hq; split|done|done|rewrite length_take, length_drop; simpl; word_lia| |done|done].
  eexists. symmetry. apply take_drop.
Qed.

(** C35: Whatever bytes arrive, in whatever pieces, a request the parser hands out is well
    formed: method, path, header names and values fit their arrays with the terminator, at
    most 32 headers are stored, the body starts right after the head and has exactly the
    announced length, which respects the configured limit, and its bytes are those
    received. *)
Theorem http_request_well_formed malloc cfg chunks st p q :
  malloc_sized malloc -> config_ok cfg ->
  let p0 := vl_http_parser_init malloc cfg in
  feed_all chunks VL_HTTP_PARSE_NEED_MORE p0 = Some (st, p) -> vl_http_parser_request p = Some q ->
  exists he b c, buffer p = Some b /\ take (Z.to_nat (body_length q)) (drop he b) = c /\
    complete_request (config p0) (concat chunks) he q c.
Proof.
  intros Hm Hc p0 E Hq. destruct (outcome_init malloc cfg chunks Hm Hc) as (st' & p' & E' & Hs). fold p0 in E', Hs.
  rewrite E in E'. injection E' as <- <-.
  destruct (outcome_of p0 [] chunks) as [|e|q' c] eqn:Ev; simpl in Hs; [by destruct Hs as (_ & ? & _); congruence..|].
  destruct Hs as (_ & Hq' & _ & b & k & Hb & Hk & Ht). rewrite Hq in Hq'. injection Hq' as <-.
  pose proof (init_cases malloc cfg Hm Hc) as Hi. cbn zeta in Hi. fold p0 in Hi. destruct Hi as [[Hp0 _]|[Hst _]].
  - apply outcome_done in Ev; [|done]. destruct (verdict_request p0 _ _ _ Hp0 Ev) as (he & _ & Hcr). exists he, b, c.
    rewrite (cr_body _ _ _ _ _ Hcr) in Hk. injection Hk as ->. done.
  - destruct Hst as [Hnb _ _ _ Hv]. destruct chunks as [|d chunks]; [simpl in Ev; by rewrite Hv in Ev|].
    rewrite outcome_more, bool_decide_true in Ev by done. done.
Qed.

(** Errors are final and overflow is refused: a parser that reported completion or an
    error gives the same answer to any further data and does not change; one that is
    still incomplete answers data beyond its capacity, or any data when its buffer
    could not be allocated, with an error of kind "payload too large", without touching
    its buffer; and a NULL pointer with a length is an error that changes nothing. *)
Theorem http_parser_errors p d :
  (complete p = true \/ error p <> VL_HTTP_ERROR_NONE ->
     vl_http_parser_feed (Some d) p =
       Some (if decide (error p = VL_HTTP_ERROR_NONE) then VL_HTTP_PARSE_COMPLETE else VL_HTTP_PARSE_ERROR, p)) /\
  (complete p = false -> error p = VL_HTTP_ERROR_NONE ->
     buffer p = None \/ capacity p < p_length p + Z.of_nat (length d) /\ 0 <= p_length p <= capacity p /\ capacity p < W64 ->
     vl_http_parser_feed (Some d) p = Some (VL_HTTP_PARSE_ERROR, set_error VL_HTTP_ERROR_PAYLOAD_TOO_LARGE p)) /\
  vl_http_parser_feed None p = Some (VL_HTTP_PARSE_ERROR, p).
Proof.
  split; [|split; [|done]].
  - intros Hf. unfold vl_http_parser_feed. erewrite bind_Some by reflexivity. unfold id. cbn zeta.
    assert (complete p || bool_decide (error p <> VL_HTTP_ERROR_NONE) = true) as ->; [|done].
    destruct Hf as [->|Hf]; [done|]. rewrite bool_decide_eq_true_2 by done. apply orb_true_r.
  - intros. by apply feed_refused.
Qed.

(** ** Witnesses *)

Definition demo_malloc (n : Z) : option (list Z) := Some (replicate (Z.to_nat n) 170).
Definition demo_config : option vl_http_config := Some (mk_http_config 40 64 16 4 0 0).
Definition crlf : list Z := [CR; LF].
Definition demo_request : list Z :=
  bytes "POST /x HTTP/1.0" ++ crlf ++ bytes "Content-Length: 3" ++ crlf ++ crlf ++ bytes "abc".
Definition demo_pieces : list (list Z) := [take 7 demo_request; take 32 (drop 7 demo_request); drop 39 demo_request].

Lemma demo_malloc_ok : malloc_ok demo_malloc.
Proof. intros n Hn. eexists. split; [reflexivity|]. rewrite length_replicate. lia. Qed.

Lemma demo_config_ok : config_ok demo_config.
Proof. by intros c [= <-]. Qed.

Lemma demo_malloc_sized : malloc_sized demo_malloc.
Proof. intros n b Hn [= <-]. rewrite length_replicate. lia. Qed.

(** Bytes beyond the capacity, behind the request: sixty more. *)
Definition behind : list Z := replicate 60 65.

Lemma http_parser_fragmentation_witness :
  let p0 := vl_http_parser_init demo_malloc demo_config in
  (exists st p, feed_all demo_pieces VL_HTTP_PARSE_NEED_MORE p0 = Some (st, p) /\ shows (verdict_of p0 demo_request) st p) /\
  (exists st p, feed_all [demo_request ++ behind] VL_HTTP_PARSE_NEED_MORE p0 = Some (st, p) /\ st = VL_HTTP_PARSE_ERROR) /\
  (exists st p, feed_all [demo_request; behind] VL_HTTP_PARSE_NEED_MORE p0 = Some (st, p) /\ st = VL_HTTP_PARSE_COMPLETE).
Proof.
  intros p0. pose proof demo_malloc_sized as Hm. pose proof demo_config_ok as Hc. split; [|split].
  - destruct (http_parser_fragmentation demo_malloc demo_config demo_pieces Hm Hc) as [(st & p & E & Hs) Hfit].
    exists st, p. split; [exact E|]. fold p0 in Hs, Hfit. rewrite Hfit in Hs; [exact Hs|discriminate|vm_compute; discriminate].
  - destruct (http_parser_fragmentation demo_malloc demo_config [demo_request ++ behind] Hm Hc) as [(st & p & E & Hs) _].
    exists st, p. split; [exact E|].
    assert (Ev : outcome_of p0 [] [demo_request ++ behind] = V_error VL_HTTP_ERROR_PAYLOAD_TOO_LARGE) by (vm_compute; reflexivity).
    fold p0 in Hs. rewrite Ev in Hs. apply Hs.
  - destruct (http_parser_fragmentation demo_malloc demo_config [demo_request; behind] Hm Hc) as [(st & p & E & Hs) _].
    exists st, p. split; [exact E|].
    assert (Ev : exists q c, outcome_of p0 [] [demo_request; behind] = V_done q c) by (eexists _, _; vm_compute; reflexivity).
    destruct Ev as (q & c & Ev). fold p0 in Hs. rewrite Ev in Hs. apply Hs.
Defined.

Lemma http_request_well_formed_witness : exists st p q,
  feed_all demo_pieces VL_HTTP_PARSE_NEED_MORE (vl_http_parser_init demo_malloc demo_config) = Some (st, p) /\
  vl_http_parser_request p = Some q /\ request_ok q /\ content_length q = 3.
Proof.
  destruct (feed_all demo_pieces VL_HTTP_PARSE_NEED_MORE (vl_http_parser_init demo_malloc demo_config))
    as [[st p]|] eqn:E; [|exfalso; vm_compute in E; discriminate].
  destruct (vl_http_parser_request p) as [q|] eqn:Eq; [|exfalso; vm_compute in E; injection E as <- <-; discriminate Eq].
  exists st, p, q. split; [reflexivity|]. split; [exact Eq|].
  destruct (http_request_well_formed demo_malloc demo_config demo_pieces st p q demo_malloc_sized demo_config_ok)
    as (he & b & c & _ & _ & Hcr); [exact E|exact Eq|].
  split; [apply Hcr|]. vm_compute in E. injection E as <- <-. vm_compute in Eq. injection Eq as <-. reflexivity.
Defined.

Lemma http_parser_errors_witness :
  let p := set_error VL_HTTP_ERROR_BAD_REQUEST (vl_http_parser_init demo_malloc demo_config) in
  vl_http_parser_feed (Some demo_request) p = Some (VL_HTTP_PARSE_ERROR, p) /\
  vl_http_parser_feed (Some (replicate 81 65)) (vl_http_parser_init demo_malloc demo_config) =
    Some (VL_HTTP_PARSE_ERROR, set_error VL_HTTP_ERROR_PAYLOAD_TOO_LARGE (vl_http_parser_init demo_malloc demo_config)).
Proof.
  split.
  - destruct (http_parser_errors (set_error VL_HTTP_ERROR_BAD_REQUEST (vl_http_parser_init demo_malloc demo_config))
      demo_request) as (Hf & _ & _). apply Hf. right. discriminate.
  - destruct (http_parser_errors (vl_http_parser_init demo_malloc demo_config) (replicate 81 65)) as (_ & Hov & _).
    apply Hov; [reflexivity|reflexivity|].
    right. split; [vm_compute; reflexivity|]. split; [split; vm_compute; discriminate|vm_compute; reflexivity].
Defined.
