(* ===== verification/HttpRoundtrip.v ===== *)
(** * Printing a request and parsing it back

    [print_head] writes a request line and header lines the way a client does;
    the parser reads back exactly what was written.  [print_dec] is the decimal
    notation of lengths. *)

From stdpp Require Import strings.
From S2P Require Import Prelude HttpParser HttpParserProps HttpFeed.
From stdpp Require Import options.

Open Scope Z_scope.

(** ** Lists *)

Lemma insert_mid {A} (l r : list A) x v : <[length l := v]> (l ++ x :: r) = l ++ v :: r.
Proof. rewrite <- (Nat.add_0_r (length l)), insert_app_r. done. Qed.

Lemma lookup_mid {A} (l r : list A) x : (l ++ x :: r) !! length l = Some x.
Proof. rewrite lookup_app_r by lia. by rewrite Nat.sub_diag. Qed.

(** ** Scanners that find what they look for *)

Definition without (cs : list Z) (l : list Z) : Prop := Forall (fun b => b ∉ cs) l.

Lemma without_cons cs b l : without cs (b :: l) <-> b ∉ cs /\ without cs l.
Proof. unfold without. by rewrite list.Forall_cons. Qed.

Lemma scan_chr_found l c r : without [c; 0] l -> scan_chr (l ++ c :: r) c = Some (Some (length l)).
Proof.
  induction l as [|b l IH]; simpl; [by rewrite Z.eqb_refl|]. intros [Hb Hl]%without_cons.
  rewrite (proj2 (Z.eqb_neq b c)), (proj2 (Z.eqb_neq b 0)) by set_solver. by rewrite IH.
Qed.

Lemma scan_len_found l r : without [0] l -> scan_len (l ++ 0 :: r) = Some (length l).
Proof.
  induction l as [|b l IH]; simpl; [done|]. intros [Hb Hl]%without_cons.
  rewrite (proj2 (Z.eqb_neq b 0)) by set_solver. by rewrite IH.
Qed.

Lemma scan_crlf_found l r : without [0; CR] l -> scan_crlf (l ++ CR :: LF :: r) = Some (Some (length l)).
Proof.
  induction l as [|b l IH]; [done|]. intros [Hb Hl]%without_cons. cbn [scan_crlf app length].
  rewrite (proj2 (Z.eqb_neq b 0)), (proj2 (Z.eqb_neq b CR)) by set_solver. by rewrite IH.
Qed.

Lemma scan_eq_refl lit r : scan_eq (lit ++ r) lit = Some true.
Proof. induction lit as [|c lit IH]; simpl; [done|]. by rewrite Z.eqb_refl. Qed.

Lemma without_zero cs l : without cs l -> 0 ∈ cs -> without [0] l.
Proof. intros H Hc. eapply list.Forall_impl; [exact H|]. set_solver. Qed.

Section Found.
  #[local] Set Default Proof Using "Type".
  Context (p : vl_http_parser) (q : vl_http_request).

Lemma strchr_found pre l c r : without [c; 0] l ->
  strchr (length pre) c (with_state p (pre ++ l ++ c :: r) q) =
    Some (Some (length pre + length l)%nat, with_state p (pre ++ l ++ c :: r) q).
Proof. intros H. apply run_buffer. rewrite drop_app_length, scan_chr_found by done. done. Qed.

Lemma strlen_found pre l r : without [0] l ->
  strlen (length pre) (with_state p (pre ++ l ++ 0 :: r) q) = Some (length l, with_state p (pre ++ l ++ 0 :: r) q).
Proof. intros H. apply run_buffer. by rewrite drop_app_length, scan_len_found. Qed.

Lemma strstr_found pre l r : without [0; CR] l ->
  strstr_crlf (length pre) (with_state p (pre ++ l ++ CR :: LF :: r) q) =
    Some (Some (length pre + length l)%nat, with_state p (pre ++ l ++ CR :: LF :: r) q).
Proof. intros H. apply run_buffer. rewrite drop_app_length, scan_crlf_found by done. done. Qed.

Lemma token_found size pre l r : 0 < Z.of_nat (length l) < size ->
  vl_http_token_copy size (length pre) (length l) (with_state p (pre ++ l ++ r) q) =
    Some (Some l, with_state p (pre ++ l ++ r) q).
Proof.
  intros Hl. unfold vl_http_token_copy. rewrite (proj2 (Nat.eqb_neq _ _)) by lia. simpl.
  rewrite (proj2 (Z.leb_gt _ _)) by lia.
  rewrite (bind_Some _ _ _ _ _ (load_bytes_run p (pre ++ l ++ r) q (length pre) (length l) ltac:(rewrite !length_app; lia))).
  by rewrite drop_app_length, take_app_length.
Qed.

Lemma store_found pre x v r : store_byte (length pre) v (with_state p (pre ++ x :: r) q) =
  Some (tt, with_state p (pre ++ v :: r) q).
Proof. rewrite run_store by (rewrite length_app; simpl; lia). by rewrite insert_mid. Qed.

Lemma load_found pre x r : load_byte (length pre) (with_state p (pre ++ x :: r) q) =
  Some (x, with_state p (pre ++ x :: r) q).
Proof. apply run_load, lookup_mid. Qed.

End Found.

(** ** What is printed *)

Definition print_header (h : vl_http_header) : list Z := h_name h ++ COLON :: SPACE :: h_value h ++ crlf.

Definition request_line (m pth : list Z) (minor : Z) : list Z :=
  m ++ SPACE :: pth ++ SPACE :: bytes "HTTP/1." ++ [48 + minor].

Definition print_head (m pth : list Z) (minor : Z) (hs : list vl_http_header) : list Z :=
  request_line m pth minor ++ crlf ++ concat (print_header <$> hs) ++ crlf.

(** No white space at either end. *)
Definition trimmed (l : list Z) : Prop :=
  (exists c, head l = Some c /\ isspace c = false) /\ (exists c, list.last l = Some c /\ isspace c = false).

Record plain_header (h : vl_http_header) : Prop := {
  ph_ok : header_ok h;
  ph_name : without [COLON; 0; CR] (h_name h);
  ph_name_trim : trimmed (h_name h);
  ph_value : without [0; CR] (h_value h);
  ph_value_trim : trimmed (h_value h) }.

(** What a header line means. *)
Definition note_header (h : vl_http_header) (x : vl_http_request * bool) : option (vl_http_request * bool) :=
  let '(q, saw) := x in
  let q := set_headers (headers q ++ [h]) q in
  if vl_http_equals_ci (h_name h) (bytes "Content-Length") then
    if saw : bool then None else
    n ← vl_http_parse_content_length (h_value h); Some (set_content_length n q, true)
  else if vl_http_equals_ci (h_name h) (bytes "Connection") then
    if vl_http_equals_ci (h_value h) (bytes "close") then Some (set_keep_alive false q, saw)
    else if vl_http_equals_ci (h_value h) (bytes "keep-alive") then Some (set_keep_alive true q, saw)
    else Some (q, saw)
  else Some (q, saw).

Fixpoint note_headers (hs : list vl_http_header) (x : vl_http_request * bool) : option (vl_http_request * bool) :=
  match hs with
  | [] => Some x
  | h :: hs => x ← note_header h x; note_headers hs x
  end.

Lemma note_header_headers h x y : note_header h x = Some y -> headers y.1 = headers x.1 ++ [h].
Proof.
  destruct x as [q saw]. unfold note_header. repeat case_match; try done; try (by intros [= <-]).
  destruct (vl_http_parse_content_length (h_value h)); [|done]. by intros [= <-].
Qed.

Lemma note_headers_headers hs x y : note_headers hs x = Some y -> headers y.1 = headers x.1 ++ hs.
Proof.
  revert x. induction hs as [|h hs IH]; intros x; simpl; [intros [= ->]; by rewrite app_nil_r|].
  destruct (note_header h x) as [z|] eqn:E; [|done]. simpl. intros Hn. apply IH in Hn.
  apply note_header_headers in E. by rewrite Hn, E, <- app_assoc.
Qed.

(** ** Header lines *)

Lemma trim_start_stop p b q n i c : b !! i = Some c -> isspace c = false ->
  trim_start n i (with_state p b q) = Some (i, with_state p b q).
Proof.
  intros Hc Hs. destruct n; [done|]. simpl. rewrite (bind_Some _ _ _ _ _ (run_load p b q i c Hc)). by rewrite Hs.
Qed.

Lemma trim_end_stop p b q n j c : b !! (j - 1)%nat = Some c -> isspace c = false ->
  trim_end n j (with_state p b q) = Some (j, with_state p b q).
Proof.
  intros Hc Hs. destruct n; [done|]. simpl. rewrite (bind_Some _ _ _ _ _ (run_load p b q _ c Hc)). by rewrite Hs.
Qed.

Lemma trimmed_ends pre l r : trimmed l -> exists a z, (pre ++ l ++ r) !! length pre = Some a /\ isspace a = false /\
  (pre ++ l ++ r) !! (length pre + length l - 1)%nat = Some z /\ isspace z = false.
Proof.
  intros [(a & Ha & Hsa) (z & Hz & Hsz)]. exists a, z. destruct l as [|x l]; [done|]. simpl in Ha. injection Ha as ->.
  split; [apply lookup_mid|]. split; [done|]. split; [|done]. rewrite last_lookup in Hz. cbn [length pred] in Hz.
  replace (length pre + length (a :: l) - 1)%nat with (length pre + length l)%nat by (simpl; lia).
  rewrite lookup_app_r by lia. replace (length pre + length l - length pre)%nat with (length l) by lia.
  by apply lookup_app_l_Some.
Qed.

(** Trimming text that has nothing to trim, without and with a space before it. *)
Lemma trim_found p q pre l r : trimmed l ->
  vl_http_trim (length pre) (length pre + length l) (with_state p (pre ++ l ++ r) q) =
    Some ((length pre, (length pre + length l)%nat), with_state p (pre ++ l ++ r) q).
Proof.
  intros Ht. destruct (trimmed_ends pre l r Ht) as (a & z & Ha & Hsa & Hz & Hsz). unfold vl_http_trim.
  rewrite (bind_Some _ _ _ _ _ (trim_start_stop p _ q _ _ a Ha Hsa)).
  by rewrite (bind_Some _ _ _ _ _ (trim_end_stop p _ q _ _ z Hz Hsz)).
Qed.

Lemma trim_space p q pre l r : trimmed l ->
  vl_http_trim (length pre) (S (length pre + length l)) (with_state p (pre ++ SPACE :: l ++ r) q) =
    Some ((S (length pre), S (length pre + length l)), with_state p (pre ++ SPACE :: l ++ r) q).
Proof.
  intros Ht. destruct (trimmed_ends (pre ++ [SPACE]) l r Ht) as (a & z & Ha & Hsa & Hz & Hsz).
  rewrite <- app_assoc in Ha, Hz. rewrite length_app in Ha, Hz. simpl in Ha, Hz. unfold vl_http_trim.
  replace (S (length pre + length l) - length pre)%nat with (S (length l)) by lia.
  assert (E : trim_start (S (length l)) (length pre) (with_state p (pre ++ SPACE :: l ++ r) q) =
    Some (S (length pre), with_state p (pre ++ SPACE :: l ++ r) q)).
  { cbn [trim_start]. rewrite (bind_Some _ _ _ _ _ (load_found p q pre SPACE (l ++ r))). simpl.
    apply (trim_start_stop _ _ _ _ _ a); [|done]. by replace (S (length pre)) with (length pre + 1)%nat by lia. }
  rewrite (bind_Some _ _ _ _ _ E).
  erewrite bind_Some; [done|]. apply (trim_end_stop _ _ _ _ _ z); [|done].
  replace (S (length pre + length l) - 1)%nat with (length pre + 1 + length l - 1)%nat by lia. done.
Qed.

(** The line after its terminator has been overwritten. *)
Definition parsed_header (h : vl_http_header) : list Z := h_name h ++ COLON :: SPACE :: h_value h ++ [0; LF].

Definition header_end_at (i : nat) (h : vl_http_header) : nat := (i + (length (h_name h) + S (S (length (h_value h)))))%nat.

Lemma header_line_printed p q pre h rest saw q' saw' : plain_header h -> note_header h (q, saw) = Some (q', saw') ->
  parse_header_line (length pre) (header_end_at (length pre) h) saw (with_state p (pre ++ print_header h ++ rest) q) =
    Some ((VL_OK, saw'), with_state p (pre ++ parsed_header h ++ rest) q').
Proof.
  intros [[Hn Hv] Hpn Htn Hpv Htv] Hnote. unfold parse_header_line, print_header, parsed_header, header_end_at. cbn zeta.
  destruct h as [nm vl]. simpl in *.
  set (nmc := pre ++ nm ++ COLON :: SPACE :: vl).
  assert (El : (length pre + (length nm + S (S (length vl))))%nat = length nmc).
  { unfold nmc. rewrite !length_app. simpl. lia. }
  assert (E0 : pre ++ (nm ++ COLON :: SPACE :: vl ++ crlf) ++ rest = nmc ++ CR :: LF :: rest).
  { unfold nmc, crlf. by rewrite <- !app_assoc, <- !app_comm_cons, <- !app_assoc. }
  rewrite El, E0, (bind_Some _ _ _ _ _ (store_found p q nmc CR 0 (LF :: rest))).
  assert (E1 : nmc ++ 0 :: LF :: rest = pre ++ nm ++ COLON :: SPACE :: vl ++ 0 :: LF :: rest).
  { unfold nmc. by rewrite <- !app_assoc, <- !app_comm_cons. }
  rewrite E1. rewrite (bind_Some _ _ _ _ _ (strchr_found p q pre nm COLON _ ltac:(eapply list.Forall_impl; [exact Hpn|set_solver]))).
  rewrite (proj2 (Nat.eqb_neq _ _)) by lia. rewrite (bind_Some _ _ _ _ _ (trim_found p q pre nm _ Htn)).
  set (pre2 := pre ++ nm ++ [COLON]).
  assert (Hl2 : length pre2 = S (length pre + length nm)) by (unfold pre2; rewrite !length_app; simpl; lia).
  assert (E2 : pre ++ nm ++ COLON :: SPACE :: vl ++ 0 :: LF :: rest = pre2 ++ SPACE :: vl ++ 0 :: LF :: rest).
  { unfold pre2. by rewrite <- !app_assoc. }
  assert (Hll : length nmc = S (length pre2 + length vl)) by (rewrite <- El, Hl2; lia).
  rewrite <- Hl2, Hll, E2, (bind_Some _ _ _ _ _ (trim_space p q pre2 vl _ Htv)). cbn [fst snd].
  rewrite <- E2. replace (length pre + length nm - length pre)%nat with (length nm) by lia.
  rewrite (bind_Some _ _ _ _ _ (token_found p q _ pre nm _ Hn)).
  set (pre3 := pre2 ++ [SPACE]). assert (Hl3 : length pre3 = S (length pre2)) by (unfold pre3; rewrite length_app; simpl; lia).
  assert (E3 : pre ++ nm ++ COLON :: SPACE :: vl ++ 0 :: LF :: rest = pre3 ++ vl ++ 0 :: LF :: rest).
  { rewrite E2. unfold pre3. by rewrite <- app_assoc. }
  replace (S (length pre2 + length vl) - S (length pre2))%nat with (length vl) by lia.
  rewrite <- Hl3, E3, (bind_Some _ _ _ _ _ (token_found p q _ pre3 vl _ Hv)), <- E3.
  rewrite (bind_Some _ _ _ _ _ (run_upd_request _ _ _ _)).
  assert (E4 : pre ++ (nm ++ COLON :: SPACE :: vl ++ [0; LF]) ++ rest = pre ++ nm ++ COLON :: SPACE :: vl ++ 0 :: LF :: rest).
  { by rewrite <- !app_assoc, <- !app_comm_cons, <- !app_assoc. }
  rewrite E4. revert Hnote. unfold note_header. simpl. destruct (vl_http_equals_ci nm (bytes "Content-Length")).
  - destruct saw; [done|]. destruct (vl_http_parse_content_length vl); [|done]. simpl. intros [= <- <-]. done.
  - destruct (vl_http_equals_ci nm (bytes "Connection")); [|by intros [= <- <-]].
    destruct (vl_http_equals_ci vl (bytes "close")); [by intros [= <- <-]|].
    destruct (vl_http_equals_ci vl (bytes "keep-alive")); by intros [= <- <-].
Qed.

Lemma headers_printed p hs fuel pre q saw rest q' saw' : Forall plain_header hs -> (length hs <= fuel)%nat ->
  header_count q + Z.of_nat (length hs) <= VL_HTTP_MAX_HEADERS -> note_headers hs (q, saw) = Some (q', saw') ->
  exists b, parse_headers_loop fuel (length pre) saw
      (with_state p (pre ++ concat (print_header <$> hs) ++ CR :: LF :: rest) q) = Some (VL_OK, with_state p b q') /\
    length b = (length pre + length (concat (print_header <$> hs)) + 2 + length rest)%nat.
Proof.
  revert fuel pre q saw. induction hs as [|h hs IH]; intros fuel pre q saw Hp Hf Hc Hn.
  - simpl in Hn. injection Hn as -> ->. exists (pre ++ [] ++ CR :: LF :: rest).
    split; [|rewrite !length_app; simpl; lia].
    destruct fuel; cbn [parse_headers_loop concat fmap list_fmap];
      rewrite (bind_Some _ _ _ _ _ (strstr_found p q' pre [] rest ltac:(constructor))); simpl;
      rewrite Nat.add_0_r, Nat.eqb_refl; done.
  - apply list.Forall_cons in Hp as [Hh Hp]. destruct fuel as [|fuel]; [simpl in Hf; lia|].
    cbn [note_headers] in Hn. destruct (note_header h (q, saw)) as [[q1 saw1]|] eqn:E1; [|done]. simpl in Hn.
    cbn [fmap list_fmap concat parse_headers_loop].
    set (tl := concat (print_header <$> hs) ++ CR :: LF :: rest).
    set (line := h_name h ++ COLON :: SPACE :: h_value h).
    assert (Eb : pre ++ (print_header h ++ concat (print_header <$> hs)) ++ CR :: LF :: rest = pre ++ line ++ CR :: LF :: tl).
    { unfold tl, line, print_header, crlf. rewrite <- !app_assoc, <- !app_comm_cons, <- !app_assoc. done. }
    assert (Hline : without [0; CR] line).
    { unfold line. apply Forall_app. split; [eapply list.Forall_impl; [apply Hh|set_solver]|].
      repeat (constructor; [set_solver|]). apply Hh. }
    assert (Hll : (length pre + length line)%nat = header_end_at (length pre) h).
    { unfold line, header_end_at. rewrite length_app. done. }
    rewrite Eb, (bind_Some _ _ _ _ _ (strstr_found p q pre line tl Hline)), Hll.
    assert (0 < length (h_name h))%nat by (destruct Hh as [[? _] _ _ _ _]; lia).
    rewrite (proj2 (Nat.eqb_neq _ _)) by (unfold header_end_at; lia).
    erewrite bind_Some by reflexivity. simpl in Hc.
    change (header_count (request (with_state p (pre ++ line ++ CR :: LF :: tl) q))) with (header_count q).
    rewrite (proj2 (Z.leb_gt _ _)) by lia.
    replace (pre ++ line ++ CR :: LF :: tl) with (pre ++ print_header h ++ tl)
      by (rewrite <- Eb; unfold tl; by rewrite <- app_assoc).
    rewrite (bind_Some _ _ _ _ _ (header_line_printed p q pre h tl saw q1 saw1 Hh E1)). cbn [fst snd].
    rewrite decide_True by done. pose proof (note_header_headers _ _ _ E1) as Hq1. simpl in Hq1.
    assert (Hpl : length (pre ++ parsed_header h) = (header_end_at (length pre) h + 2)%nat).
    { unfold parsed_header, header_end_at. rewrite !length_app. simpl. rewrite length_app. simpl. lia. }
    assert (Hpr : length (parsed_header h) = length (print_header h)).
    { unfold parsed_header, print_header. rewrite !length_app. simpl. rewrite !length_app. done. }
    destruct (IH fuel (pre ++ parsed_header h) q1 saw1 Hp) as (b & E & Hb); [simpl in Hf; lia| |done|].
    { unfold header_count in *. rewrite Hq1, length_app. simpl. lia. }
    exists b. rewrite Hpl in E. unfold tl. rewrite app_assoc. split; [exact E|].
    rewrite Hb, !length_app. lia.
Qed.

(** ** The request line *)

Record plain_line (m pth : list Z) (minor : Z) : Prop := {
  pl_method : m ∈ [bytes "GET"; bytes "POST"; bytes "HEAD"];
  pl_path : without [SPACE; 0; CR] pth;
  pl_slash : head pth = Some SLASH;
  pl_size : Z.of_nat (length pth) < VL_HTTP_MAX_PATH;
  pl_minor : minor = 0 \/ minor = 1 }.

Definition line_request (m pth : list Z) (minor : Z) (q : vl_http_request) : vl_http_request :=
  set_keep_alive (minor =? 1) (set_http_minor minor (set_http_major 1 (set_path pth (set_method m q)))).

Lemma known_method_printed p q m r : m ∈ [bytes "GET"; bytes "POST"; bytes "HEAD"] ->
  known_method 0 (with_state p (m ++ 0 :: r) q) = Some (true, with_state p (m ++ 0 :: r) q).
Proof. intros Hm. repeat (apply elem_of_cons in Hm as [->|Hm]; [done|]). by apply elem_of_nil in Hm. Qed.

Lemma store_request_line_printed p q m pth minor ver : without [SPACE; 0] m ->
  0 < Z.of_nat (length m) < VL_HTTP_MAX_METHOD -> plain_line m pth minor ->
  store_request_line 0 (S (length m)) minor (with_state p (m ++ 0 :: pth ++ 0 :: ver) q) =
    Some (VL_OK, with_state p (m ++ 0 :: pth ++ 0 :: ver) (line_request m pth minor q)).
Proof.
  intros Hmw Hml [_ Hp Hs Hl _]. unfold store_request_line.
  erewrite bind_Some by exact (strlen_found p q [] m _ ltac:(eapply without_zero; [exact Hmw|set_solver])).
  erewrite bind_Some by exact (token_found p q _ [] m _ Hml). cbv beta iota.
  rewrite (bind_Some _ _ _ _ _ (run_upd_request _ _ _ _)).
  set (pre1 := m ++ [0]). assert (Hl1 : length pre1 = S (length m)) by (unfold pre1; rewrite length_app; simpl; lia).
  assert (E5 : [] ++ m ++ 0 :: pth ++ 0 :: ver = pre1 ++ pth ++ 0 :: ver) by (unfold pre1; by rewrite <- app_assoc).
  rewrite <- Hl1, E5, (bind_Some _ _ _ _ _ (strlen_found p _ pre1 pth ver ltac:(eapply without_zero; [exact Hp|set_solver]))).
  assert (Hpl : 0 < Z.of_nat (length pth) < VL_HTTP_MAX_PATH) by (destruct pth; [done|simpl in *; lia]).
  rewrite (bind_Some _ _ _ _ _ (token_found p _ _ pre1 pth _ Hpl)), <- E5. done.
Qed.

Lemma request_line_printed p q m pth minor r : plain_line m pth minor ->
  Z.of_nat (length m) <= max_request_line (config p) ->
  exists b, vl_http_parse_request_line 0 (with_state p (request_line m pth minor ++ 0 :: r) q) =
      Some (VL_OK, with_state p b (line_request m pth minor q)) /\
    b = m ++ 0 :: pth ++ 0 :: bytes "HTTP/1." ++ (48 + minor) :: 0 :: r.
Proof.
  intros Hpl Hmax. pose proof Hpl as [Hm Hp Hs Hl Hmi]. eexists. split; [|reflexivity].
  assert (Hmw : without [SPACE; 0] m /\ 0 < Z.of_nat (length m) < VL_HTTP_MAX_METHOD).
  { repeat (apply elem_of_cons in Hm as [->|Hm]; [split; [repeat constructor; set_solver|done]|]). by apply elem_of_nil in Hm. }
  destruct Hmw as [Hmw Hml]. unfold vl_http_parse_request_line, request_line.
  set (ver := bytes "HTTP/1." ++ (48 + minor) :: 0 :: r).
  assert (E0 : (m ++ SPACE :: pth ++ SPACE :: bytes "HTTP/1." ++ [48 + minor]) ++ 0 :: r = [] ++ m ++ SPACE :: pth ++ SPACE :: ver).
  { unfold ver. rewrite <- !app_assoc, <- !app_comm_cons, <- !app_assoc. done. }
  rewrite E0, (bind_Some _ _ _ _ _ (strchr_found p q [] m SPACE _ Hmw)). erewrite bind_Some by reflexivity.
  change (length [] + length m)%nat with (length m). cbn [config with_state set_request set_buffer].
  rewrite Nat.sub_0_r, (proj2 (Z.ltb_ge _ _) Hmax).
  cbn [app]. rewrite (bind_Some _ _ _ _ _ (store_found p q m SPACE 0 _)). cbn zeta.
  set (pre1 := m ++ [0]). assert (Hl1 : length pre1 = S (length m)) by (unfold pre1; rewrite length_app; simpl; lia).
  assert (E1 : m ++ 0 :: pth ++ SPACE :: ver = pre1 ++ pth ++ SPACE :: ver) by (unfold pre1; by rewrite <- app_assoc).
  rewrite <- Hl1, E1, (bind_Some _ _ _ _ _ (strchr_found p q pre1 pth SPACE _ ltac:(eapply list.Forall_impl; [exact Hp|set_solver]))).
  set (pre2 := pre1 ++ pth). assert (Hl2 : length pre2 = (length pre1 + length pth)%nat) by (unfold pre2; by rewrite length_app).
  rewrite <- Hl2. replace (pre1 ++ pth ++ SPACE :: ver) with (pre2 ++ SPACE :: ver) by (unfold pre2; by rewrite <- app_assoc).
  rewrite (bind_Some _ _ _ _ _ (store_found p q pre2 SPACE 0 ver)).
  set (pre3 := pre2 ++ [0]). assert (Hl3 : length pre3 = S (length pre2)) by (unfold pre3; rewrite length_app; simpl; lia).
  assert (E3 : pre2 ++ 0 :: ver = pre3 ++ ver) by (unfold pre3; by rewrite <- app_assoc). rewrite <- Hl3, E3.
  assert (Ev : strncmp_eq (length pre3) (bytes "HTTP/1.") (with_state p (pre3 ++ ver) q) = Some (true, with_state p (pre3 ++ ver) q)).
  { apply run_buffer. rewrite drop_app_length. apply scan_eq_refl. }
  rewrite (bind_Some _ _ _ _ _ Ev). cbn [negb].
  assert (H7 : (pre3 ++ ver) !! (length pre3 + 7)%nat = Some (48 + minor)) by by rewrite lookup_app_r, Nat.add_comm, Nat.add_sub by lia.
  assert (H8 : (pre3 ++ ver) !! (length pre3 + 8)%nat = Some 0) by by rewrite lookup_app_r, Nat.add_comm, Nat.add_sub by lia.
  rewrite (bind_Some _ _ _ _ _ (run_load p _ q _ _ H7)).
  assert (negb (48 + minor =? 48) && negb (48 + minor =? 49) = false) as -> by (destruct Hmi as [-> | ->]; done).
  rewrite (bind_Some _ _ _ _ _ (run_load p _ q _ _ H8)). cbn [Z.eqb negb].
  assert (E4 : pre3 ++ ver = m ++ 0 :: pth ++ 0 :: ver) by (rewrite <- E3; unfold pre2, pre1; by rewrite <- !app_assoc).
  rewrite E4, (bind_Some _ _ _ _ _ (known_method_printed p q m _ Hm)). cbn [negb].
  assert (Hsl : (m ++ 0 :: pth ++ 0 :: ver) !! length pre1 = Some SLASH).
  { rewrite Hl1, lookup_app_r by lia. replace (S (length m) - length m)%nat with 1%nat by lia.
    destruct pth; [done|]. simpl in *. congruence. }
  rewrite (bind_Some _ _ _ _ _ (run_load p _ q _ _ Hsl)). rewrite Z.eqb_refl. cbn [negb].
  replace (48 + minor - 48) with minor by lia. rewrite Hl1. by apply store_request_line_printed.
Qed.

(** ** The whole head *)

Lemma find_skip b l : b <> CR -> find_crlfcrlf (b :: l) = S <$> find_crlfcrlf l.
Proof.
  intros Hb. cbn [find_crlfcrlf]. assert (starts_crlfcrlf (b :: l) = false) as ->; [|done].
  destruct l as [|l1 [|l2 [|l3 l]]]; try done. simpl. by rewrite (proj2 (Z.eqb_neq _ _) Hb).
Qed.

Lemma find_line l r n : without [CR] l -> find_crlfcrlf r = Some n -> find_crlfcrlf (l ++ r) = Some (length l + n)%nat.
Proof.
  intros Hl Hr. induction l as [|b l IH]; [done|]. apply without_cons in Hl as [Hb Hl].
  cbn [app]. rewrite find_skip, IH by (done || set_solver). done.
Qed.

Lemma find_next r n : head r <> Some CR -> find_crlfcrlf r = Some n -> find_crlfcrlf (CR :: LF :: r) = Some (S (S n)).
Proof.
  intros Hh Hr. cbn [find_crlfcrlf].
  assert (starts_crlfcrlf (CR :: LF :: r) = false) as ->.
  { destruct r as [|r1 [|r2 r]]; try done. simpl in *. by rewrite (proj2 (Z.eqb_neq r1 CR)) by congruence. }
  assert (starts_crlfcrlf (LF :: r) = false) as ->; [by destruct r as [|r1 [|r2 [|]]]|]. by rewrite Hr.
Qed.

(** The header lines with the empty line after them, seen from the "\r\n" before. *)
Lemma find_headers hs rest : Forall plain_header hs ->
  find_crlfcrlf (CR :: LF :: concat (print_header <$> hs) ++ CR :: LF :: rest) =
    Some (length (concat (print_header <$> hs)) + 4)%nat.
Proof.
  induction hs as [|h hs IH]; intros Hp; [done|]. apply list.Forall_cons in Hp as [Hh Hp]. specialize (IH Hp).
  cbn [fmap list_fmap concat]. set (tl := concat (print_header <$> hs) ++ CR :: LF :: rest) in *.
  set (line := h_name h ++ COLON :: SPACE :: h_value h).
  assert (Eb : (print_header h ++ concat (print_header <$> hs)) ++ CR :: LF :: rest = line ++ CR :: LF :: tl).
  { unfold tl, line, print_header, crlf. rewrite <- !app_assoc, <- !app_comm_cons, <- !app_assoc. done. }
  assert (Hline : without [CR] line).
  { unfold line. apply Forall_app. split; [eapply list.Forall_impl; [apply Hh|set_solver]|].
    repeat (constructor; [set_solver|]). eapply list.Forall_impl; [apply Hh|set_solver]. }
  rewrite Eb. erewrite find_next; [| |by apply find_line].
  - unfold line, print_header. rewrite !length_app. simpl. rewrite !length_app. simpl. f_equal. lia.
  - unfold line. destruct Hh as [[Hn _] Hpn _ _ _]. destruct (h_name h) as [|c nm]; [simpl in Hn; lia|].
    apply without_cons in Hpn as [Hc _]. simpl. intros [= ->]. set_solver.
Qed.

Lemma request_line_without m pth minor : plain_line m pth minor -> without [0; CR] (request_line m pth minor).
Proof.
  intros [Hm Hp _ _ Hmi]. unfold request_line. apply Forall_app. split.
  - repeat (apply elem_of_cons in Hm as [->|Hm]; [repeat constructor; set_solver|]). by apply elem_of_nil in Hm.
  - constructor; [set_solver|]. apply Forall_app. split; [eapply list.Forall_impl; [exact Hp|set_solver]|].
    constructor; [set_solver|]. apply Forall_app.
    split; [repeat constructor; set_solver|]. destruct Hmi as [-> | ->]; repeat constructor; set_solver.
Qed.

Lemma print_head_eq m pth minor hs rest :
  print_head m pth minor hs ++ rest =
  request_line m pth minor ++ CR :: LF :: concat (print_header <$> hs) ++ CR :: LF :: rest.
Proof. unfold print_head, crlf. by rewrite <- !app_assoc. Qed.

Lemma print_head_length m pth minor hs :
  length (print_head m pth minor hs) =
    (length (request_line m pth minor) + (length (concat (print_header <$> hs)) + 4))%nat.
Proof. unfold print_head, crlf. rewrite !length_app. simpl. lia. Qed.

(** Parsing the printed head. *)
Lemma head_printed p0 m pth minor hs q saw : plain_line m pth minor -> Forall plain_header hs ->
  Z.of_nat (length hs) <= VL_HTTP_MAX_HEADERS ->
  note_headers hs (line_request m pth minor empty_request, false) = Some (q, saw) ->
  Z.of_nat (length (request_line m pth minor)) <= max_request_line (config p0) ->
  content_length q <= max_body_bytes (config p0) ->
  exists p1, parse_alone p0 (print_head m pth minor hs) = Some (VL_OK, p1) /\
    request p1 = set_body (Some (length (print_head m pth minor hs))) q.
Proof.
  intros Hpl Hph Hn Hnote Hmax Hlim. set (he := length (print_head m pth minor hs)).
  set (p := set_header_end (Z.of_nat he) p0). unfold parse_alone. fold he. fold p. unfold vl_http_parse_head.
  erewrite bind_Some by reflexivity. erewrite bind_Some by reflexivity.
  rewrite <- (app_nil_r (print_head m pth minor hs)), print_head_eq.
  set (rl := request_line m pth minor) in *. set (H := concat (print_header <$> hs)).
  erewrite bind_Some by exact (strstr_found p empty_request [] rl _ (request_line_without _ _ _ Hpl)). cbv beta iota.
  change (length [] + length rl)%nat with (length rl). cbn [app].
  assert (Hcfg : forall b q, config (with_state p b q) = config p0 /\ header_end (with_state p b q) = Z.of_nat he) by done.
  rewrite !(proj1 (Hcfg _ _)), !(proj2 (Hcfg _ _)), (proj2 (Z.ltb_ge _ _) Hmax).
  rewrite (bind_Some _ _ _ _ _ (store_found p empty_request rl CR 0 _)).
  destruct (request_line_printed p empty_request m pth minor (LF :: H ++ [CR; LF]) Hpl) as (b1 & E1 & Hb1).
  { simpl. unfold rl, request_line in Hmax. rewrite length_app in Hmax. lia. }
  rewrite (bind_Some _ _ _ _ _ E1), bool_decide_false by auto.
  set (pre := m ++ 0 :: pth ++ 0 :: bytes "HTTP/1." ++ (48 + minor) :: 0 :: [LF]).
  assert (Hpre : length pre = (length rl + 2)%nat).
  { unfold pre, rl, request_line. rewrite !length_app. simpl. rewrite !length_app. simpl. lia. }
  assert (Eb1 : b1 = pre ++ H ++ CR :: LF :: []).
  { rewrite Hb1. unfold pre. rewrite <- !app_assoc, <- !app_comm_cons, <- !app_assoc. done. }
  destruct (headers_printed p hs (Z.to_nat VL_HTTP_MAX_HEADERS) pre (line_request m pth minor empty_request) false [] q saw)
    as (b2 & E2 & Hb2); [done|lia|unfold header_count; simpl; lia|done|].
  fold H in E2. unfold vl_http_parse_headers. rewrite Eb1, <- Hpre, (bind_Some _ _ _ _ _ E2), bool_decide_false by auto.
  assert (Hhe : he = (length pre + length H + 2)%nat) by (unfold he; rewrite print_head_length; fold rl; fold H; lia).
  erewrite bind_Some by (apply run_store; rewrite Hb2; simpl; fold H; lia).
  erewrite bind_Some by reflexivity. cbn [request with_state set_request].
  rewrite (proj2 (Z.ltb_ge _ _)) by done. eexists. split; [reflexivity|]. simpl. by rewrite Nat2Z.id.
Qed.

(** ** Lengths in decimal *)

Lemma digits_snoc l a v c : digits_value l a = (v, length l) -> isdigit c = true ->
  digits_value (l ++ [c]) a = (10 * v + (c - 48), length (l ++ [c])).
Proof.
  intros Hl Hc. revert a Hl. induction l as [|b l IH]; intros a; simpl.
  - intros [= ->]. by rewrite Hc.
  - destruct (isdigit b); [|done]. destruct (digits_value l _) as [v' n'] eqn:E. intros [= -> ->]. by rewrite (IH _ E).
Qed.

Lemma isdigit_mod n : isdigit (48 + n mod 10) = true.
Proof.
  pose proof (Z.mod_pos_bound n 10 ltac:(lia)). unfold isdigit.
  rewrite (proj2 (Z.leb_le _ _)), (proj2 (Z.leb_le _ _)) by lia. done.
Qed.

Lemma decimal_value f n : 0 <= n < 10 ^ Z.of_nat f ->
  digits_value (decimal f n) 0 = (n, length (decimal f n)).
Proof.
  revert n. induction f as [|f IH]; intros n Hn; [simpl in *; f_equal; lia|]. cbn [decimal].
  rewrite (digits_snoc _ 0 (n / 10)); [| |apply isdigit_mod].
  - f_equal. pose proof (Z.div_mod n 10 ltac:(lia)). lia.
  - destruct (Z.ltb_spec n 10); [by rewrite Z.div_small by lia|]. apply IH.
    rewrite Nat2Z.inj_succ, Z.pow_succ_r in Hn by lia.
    split; [apply Z.div_pos; lia|apply Z.div_lt_upper_bound; lia].
Qed.

Lemma decimal_head f n : 0 <= n -> exists c l, decimal (S f) n = c :: l /\ isdigit c = true.
Proof.
  revert n. induction f as [|f IH]; intros n Hn; cbn [decimal] in *.
  - destruct (n <? 10); simpl; eexists _, _; (split; [reflexivity|]); apply isdigit_mod.
  - destruct (n <? 10); [simpl; eexists _, _; (split; [reflexivity|]); apply isdigit_mod|].
    destruct (IH (n / 10)) as (c & l & E & Hc); [apply Z.div_pos; lia|]. rewrite E. simpl. eauto.
Qed.

Lemma decimal_digits f n : 0 <= n -> Forall (fun c => isdigit c = true) (decimal f n).
Proof.
  revert n. induction f as [|f IH]; intros n Hn; simpl; [constructor|]. apply Forall_app. split.
  - destruct (n <? 10); [constructor|]. apply IH, Z.div_pos; lia.
  - repeat constructor. apply isdigit_mod.
Qed.

Lemma decimal_length f n : (length (decimal f n) <= f)%nat.
Proof.
  revert n. induction f as [|f IH]; intros n; simpl; [done|]. rewrite length_app. simpl.
  destruct (n <? 10); simpl; [lia|]. specialize (IH (n / 10)). lia.
Qed.

Lemma isdigit_range c : isdigit c = true -> 48 <= c <= 57.
Proof. unfold isdigit. intros [?%Z.leb_le ?%Z.leb_le]%andb_prop. lia. Qed.

Lemma strtoul_digits l v : (exists c l', l = c :: l' /\ isdigit c = true) ->
  digits_value l 0 = (v, length l) -> v < W64 -> strtoul l = (v, length l, false).
Proof.
  intros (c & l' & -> & Hc) Hv Hlt. pose proof (isdigit_range _ Hc). unfold strtoul.
  assert (Hs : skip_spaces (c :: l') = 0%nat).
  { simpl. unfold isspace. rewrite (proj2 (Z.eqb_neq c 32)), (proj2 (Z.leb_gt c 13)) by lia. by rewrite andb_false_r. }
  rewrite Hs. cbn [drop].
  assert (Hsg : (match c :: l' with 45 :: _ => (true, 1%nat) | 43 :: _ => (false, 1%nat) | _ => (false, 0%nat) end) = (false, 0%nat)).
  { destruct c as [|c|c]; try lia. repeat (destruct c as [c|c|]; try reflexivity; try lia). }
  rewrite Hsg. cbn [drop]. rewrite Hv. cbn [length Nat.eqb Nat.add].
  unfold ULONG_MAX. by rewrite (proj2 (Z.ltb_ge _ _)) by lia.
Qed.

Lemma parse_print_dec n : 0 <= n < W64 -> vl_http_parse_content_length (print_dec n) = Some n.
Proof.
  intros Hn. unfold vl_http_parse_content_length, print_dec.
  destruct (decimal_head 19 n) as (c & l & E & Hc); [lia|]. rewrite E.
  rewrite <- E, (strtoul_digits _ n); [|by eauto|apply decimal_value; split; [lia|]; transitivity W64; [lia|reflexivity]|lia].
  rewrite E. cbn [length Nat.eqb orb]. rewrite Nat.eqb_refl. unfold SIZE_MAX. by rewrite (proj2 (Z.ltb_ge _ _)) by lia.
Qed.

(** ** Requests with a body *)

(** A header the parser gives no meaning to but "Connection". *)
Definition neutral (h : vl_http_header) : Prop := vl_http_equals_ci (h_name h) (bytes "Content-Length") = false.

Definition keep_alive_after (hs : list vl_http_header) (ka : bool) : bool :=
  foldl (fun ka h =>
    if vl_http_equals_ci (h_name h) (bytes "Connection") then
      if vl_http_equals_ci (h_value h) (bytes "close") then false
      else if vl_http_equals_ci (h_value h) (bytes "keep-alive") then true else ka
    else ka) ka hs.

Lemma note_neutral hs hs' q saw : Forall neutral hs ->
  note_headers (hs ++ hs') (q, saw) =
  note_headers hs' (set_keep_alive (keep_alive_after hs (keep_alive q)) (set_headers (headers q ++ hs) q), saw).
Proof.
  revert q. induction hs as [|h hs IH]; intros q Hn.
  - destruct q. simpl. by rewrite app_nil_r.
  - apply list.Forall_cons in Hn as [Hh Hn]. unfold neutral in Hh. cbn [app note_headers note_header].
    rewrite Hh. cbn [keep_alive_after foldl].
    destruct (vl_http_equals_ci (h_name h) (bytes "Connection")); [destruct (vl_http_equals_ci (h_value h) (bytes "close"));
      [|destruct (vl_http_equals_ci (h_value h) (bytes "keep-alive"))]|];
      cbn [mbind option_bind]; rewrite IH by done; destruct q; cbn; by rewrite <- app_assoc.
Qed.

Definition length_header (n : Z) : vl_http_header := mk_http_header (bytes "Content-Length") (print_dec n).

Lemma digits_plain l : (exists c l', l = c :: l' /\ isdigit c = true) -> Forall (fun c => isdigit c = true) l ->
  without [0; CR] l /\ trimmed l.
Proof.
  intros (c & l' & -> & Hc) Hd.
  assert (Hsp : forall b, isdigit b = true -> isspace b = false).
  { intros b ?%isdigit_range. unfold isspace. rewrite (proj2 (Z.eqb_neq b 32)), (proj2 (Z.leb_gt b 13)) by lia. by rewrite andb_false_r. }
  split.
  - eapply list.Forall_impl; [exact Hd|]. intros b Hb%isdigit_range Hin. unfold CR in Hin.
    repeat (apply elem_of_cons in Hin as [->|Hin]; [lia|]). by apply elem_of_nil in Hin.
  - split; [exists c; split; [done|by apply Hsp]|].
    destruct (list.last (c :: l')) as [b|] eqn:E; [|by apply last_None in E].
    exists b. split; [done|]. apply Hsp. apply last_Some_elem_of in E. rewrite list.Forall_forall in Hd. by apply Hd.
Qed.

Lemma length_header_plain n : 0 <= n -> plain_header (length_header n).
Proof.
  intros Hn. assert (Hh := decimal_head 19 n Hn). destruct (digits_plain _ Hh (decimal_digits 20 n Hn)) as [Hw Ht].
  constructor; [| | |exact Hw|exact Ht].
  - pose proof (decimal_length 20 n). destruct Hh as (c & l & E & _).
    split; [done|]. change (h_value (length_header n)) with (decimal 20 n). unfold VL_HTTP_MAX_HEADER_VALUE.
    assert (length (decimal 20 n) <> 0%nat) by by rewrite E. lia.
  - unfold without. apply (bool_decide_unpack _). vm_compute. done.
  - split; eexists; (split; [reflexivity|done]).
Qed.

(** What the parser must have understood. *)
Record understood (m pth : list Z) (minor : Z) (hs : list vl_http_header) (content : list Z)
    (q : vl_http_request) : Prop := {
  un_method : method q = m;
  un_path : path q = pth;
  un_version : http_major q = 1 /\ http_minor q = minor;
  un_headers : headers q = hs ++ [length_header (Z.of_nat (length content))];
  un_keep_alive : keep_alive q = keep_alive_after hs (minor =? 1);
  un_length : content_length q = Z.of_nat (length content) /\ body_length q = Z.of_nat (length content) }.

Lemma verdict_printed p0 m pth minor hs content :
  let hs' := hs ++ [length_header (Z.of_nat (length content))] in
  plain_line m pth minor -> Forall plain_header hs -> Forall neutral hs ->
  Z.of_nat (length hs) < VL_HTTP_MAX_HEADERS ->
  Z.of_nat (length (request_line m pth minor)) <= max_request_line (config p0) ->
  Z.of_nat (length (print_head m pth minor hs')) <= max_header_bytes (config p0) ->
  Z.of_nat (length content) <= max_body_bytes (config p0) < W64 ->
  exists q, verdict_of p0 (print_head m pth minor hs' ++ content) = V_done q content /\
    understood m pth minor hs content q.
Proof.
  intros hs' Hpl Hph Hne Hcnt Hline Hhead Hbody. set (n := Z.of_nat (length content)) in *.
  assert (Hn : 0 <= n) by (unfold n; lia).
  assert (Hph' : Forall plain_header hs') by (apply Forall_app; split; [done|by apply list.Forall_singleton, length_header_plain]).
  destruct (head_printed p0 m pth minor hs'
    (set_content_length n (set_headers hs' (set_keep_alive (keep_alive_after hs (minor =? 1)) (line_request m pth minor empty_request)))) true)
    as (p1 & E & Hq); [done|done|unfold hs'; rewrite length_app; simpl; lia| |done|simpl; lia|].
  { unfold hs'. rewrite note_neutral by done. cbn [note_headers note_header length_header h_name h_value].
    change (vl_http_equals_ci (bytes "Content-Length") (bytes "Content-Length")) with true. cbv iota.
    rewrite parse_print_dec by lia. done. }
  unfold verdict_of. rewrite print_head_eq, find_line with (n := (length (concat (print_header <$> hs')) + 4)%nat);
    [|eapply list.Forall_impl; [by apply request_line_without|set_solver]|by apply find_headers].
  rewrite <- print_head_eq, <- print_head_length, (proj2 (Z.ltb_ge _ _)) by done.
  rewrite take_app_length, E. unfold body_verdict. rewrite length_app, drop_app_length, Hq. cbn [content_length set_body set_content_length].
  rewrite (proj2 (Z.ltb_ge _ _)) by lia. eexists. split.
  - f_equal. apply take_ge. unfold n. lia.
  - by constructor.
Qed.

(** C6: The parser reads back what a client prints.  For every method the server knows,
    path, HTTP minor version, headers of a plain form within the sizes of the request's
    arrays, and body, the printed request (with its Content-Length line) within the
    configured limits is accepted however it is cut into pieces: the last feed answers
    COMPLETE, the request has exactly that method, path, version and header list, the
    keep-alive flag follows from the version and the Connection lines, and the body
    bytes are found in the buffer at [body]. *)
Theorem http_request_roundtrip malloc cfg m pth minor hs content chunks :
  malloc_ok malloc -> config_ok cfg ->
  let p0 := vl_http_parser_init malloc cfg in
  let head := print_head m pth minor (hs ++ [length_header (Z.of_nat (length content))]) in
  plain_line m pth minor -> Forall plain_header hs -> Forall neutral hs ->
  Z.of_nat (length hs) < VL_HTTP_MAX_HEADERS ->
  Z.of_nat (length (request_line m pth minor)) <= max_request_line (config p0) ->
  Z.of_nat (length head) <= max_header_bytes (config p0) ->
  Z.of_nat (length content) <= max_body_bytes (config p0) ->
  concat chunks = head ++ content ->
  exists p q b k, feed_all chunks VL_HTTP_PARSE_NEED_MORE p0 = Some (VL_HTTP_PARSE_COMPLETE, p) /\
    vl_http_parser_request p = Some q /\ understood m pth minor hs content q /\
    buffer p = Some b /\ body q = Some k /\ take (length content) (drop k b) = content.
Proof.
  intros Hm Hc p0 hd Hpl Hph Hne Hcnt Hline Hhead Hbody Hch.
  assert (Hp0 : fresh p0) by by apply init_fresh. pose proof (fr_room _ Hp0). pose proof (fr_capacity _ Hp0). pose proof (fr_header _ Hp0).
  destruct (feed_all_fresh p0 chunks Hp0) as (st & p & E & _ & Hs); [rewrite Hch, length_app; lia|].
  destruct (verdict_printed p0 m pth minor hs content) as (q & Ev & Hq); try done; [lia|].
  rewrite Hch in Hs. unfold hd in Hs. rewrite Ev in Hs. destruct Hs as (-> & Hr & _ & b & k & Hb & Hk & Ht).
  exists p, q, b, k. split_and!; try done. rewrite (proj2 (un_length _ _ _ _ _ _ Hq)), Nat2Z.id in Ht. done.
Qed.

Definition roundtrip_headers : list vl_http_header :=
  [mk_http_header (bytes "Host") (bytes "a"); mk_http_header (bytes "Connection") (bytes "close")].
Definition roundtrip_config : option vl_http_config := Some (mk_http_config 40 80 16 4 0 0).
Definition roundtrip_bytes : list Z :=
  print_head (bytes "POST") (bytes "/x") 1 (roundtrip_headers ++ [length_header 3]) ++ bytes "abc".

Lemma http_request_roundtrip_witness : exists p q,
  feed_all [take 20 roundtrip_bytes; drop 20 roundtrip_bytes] VL_HTTP_PARSE_NEED_MORE
    (vl_http_parser_init demo_malloc roundtrip_config) = Some (VL_HTTP_PARSE_COMPLETE, p) /\
  vl_http_parser_request p = Some q /\ keep_alive q = false.
Proof.
  destruct (http_request_roundtrip demo_malloc roundtrip_config (bytes "POST") (bytes "/x") 1 roundtrip_headers (bytes "abc")
    [take 20 roundtrip_bytes; drop 20 roundtrip_bytes]) as (p & q & b & k & E & Hq & Hu & _).
  - exact demo_malloc_ok.
  - intros c [= <-]. repeat split; vm_compute; done.
  - constructor; [apply (bool_decide_unpack _); vm_compute; done| |done|vm_compute; done|auto].
    unfold without. apply (bool_decide_unpack _). vm_compute. done.
  - repeat (apply list.Forall_cons; split; [|]); try constructor;
      try (unfold without; apply (bool_decide_unpack _); vm_compute; done);
      (split; (split; vm_compute; done) || (eexists; split; [reflexivity|reflexivity])).
  - unfold neutral. apply (bool_decide_unpack _). vm_compute. done.
  - vm_compute. done.
  - vm_compute. discriminate.
  - vm_compute. discriminate.
  - vm_compute. discriminate.
  - vm_compute. reflexivity.
  - exists p, q. split; [exact E|]. split; [exact Hq|]. rewrite (un_keep_alive _ _ _ _ _ _ Hu). reflexivity.
Defined.

(** strtoul takes a sign: lengths that are not digits alone are accepted. *)
Example content_length_accepts_signs :
  vl_http_parse_content_length (bytes "+5") = Some 5 /\
  vl_http_parse_content_length (bytes "-18446744073709551615") = Some 1.
Proof. split; vm_compute; reflexivity. Qed.
