(* ===== verification/Socket.v ===== *)
(** * The descriptor registry and the socket helpers (src/net/socket.c)

    The registry is the list [vl_socket_slots] (newest slot first, slots are never
    freed), shared by every thread under [vl_socket_slots_mutex]: an operation is
    one step.  The part of the operating system the network code relies on is
    explicit: the descriptors that are open, and for every epoll instance the
    interest list that [epoll_ctl] fills.  Closing a descriptor removes it from
    every interest list.  The outcome of a system call is an argument ([sys]). *)

From S2P Require Import Prelude.
From stdpp Require Import options.

Open Scope Z_scope.

Record vl_socket_slot := mk_slot {
  s_fd : Z;
  s_generation : Z;
  s_pending : Z;
  s_active : bool }.

Record os := mk_os {
  open_fds : gset Z;
  interest : gmap (Z * Z) nat }.

Record sockets := mk_sockets {
  vl_socket_slots : list vl_socket_slot;
  sock_os : os }.

Definition set_slots (v : list vl_socket_slot) (n : sockets) : sockets := mk_sockets v (sock_os n).
Definition set_os (v : os) (n : sockets) : sockets := mk_sockets (vl_socket_slots n) v.

Notation N := (C sockets).

(** ** System calls *)

Definition EINPROGRESS : Z := 115.

(** What the calls of one operation return: a descriptor or a negative number for
    [socket] and [accept4], zero or a negative number elsewhere, the port
    [getsockname] reports, and whether [calloc] succeeds. *)
Record sys := mk_sys {
  sys_fd : Z;
  sys_getfl : Z;
  sys_setfl : Z;
  sys_setsockopt : Z;
  sys_bind : Z;
  sys_listen : Z;
  sys_getsockname : Z;
  sys_port : Z;
  sys_connect : Z;
  sys_errno : Z;
  sys_close : Z;
  sys_calloc : bool }.

(** [socket] and [accept4]: a nonnegative result is a descriptor that is now open. *)
Definition os_open (fd : Z) : N Z :=
  _ ← modify (fun n => if fd <? 0 then n
                       else set_os (mk_os ({[fd]} ∪ open_fds (sock_os n)) (interest (sock_os n))) n);
  mret fd.

(** [close]: on Linux the descriptor is released whatever is returned. *)
Definition os_close (result fd : Z) : N Z := fun n =>
  if decide (fd ∈ open_fds (sock_os n))
  then Some (result, set_os (mk_os (open_fds (sock_os n) ∖ {[fd]})
                                   (filter (fun e => e.1.2 <> fd) (interest (sock_os n)))) n)
  else Some (-1, n).

(** ** The registry *)

Fixpoint find_slot (fd : Z) (l : list vl_socket_slot) : option vl_socket_slot :=
  match l with
  | [] => None
  | s :: l => if s_fd s =? fd then Some s else find_slot fd l
  end.

(** Writing through the pointer [vl_socket_find_slot_locked] returned. *)
Fixpoint store_slot (v : vl_socket_slot) (l : list vl_socket_slot) : list vl_socket_slot :=
  match l with
  | [] => []
  | s :: l => if s_fd s =? s_fd v then v :: l else s :: store_slot v l
  end.

Definition vl_socket_find_slot_locked (fd : Z) : N (option vl_socket_slot) :=
  gets (fun n => find_slot fd (vl_socket_slots n)).

Definition write_slot (v : vl_socket_slot) : N unit :=
  modify (fun n => set_slots (store_slot v (vl_socket_slots n)) n).

(** [++generation; if (generation == 0) ++generation;] *)
Definition next_generation (g : Z) : Z :=
  let g := w64 (g + 1) in if g =? 0 then w64 (g + 1) else g.

Definition track_slot (slot : vl_socket_slot) : N vl_status :=
  if s_active slot || (s_generation slot =? UINT64_MAX) then mret VL_ERROR_INVALID_STATE else
  _ ← write_slot (mk_slot (s_fd slot) (next_generation (s_generation slot)) (s_pending slot) true);
  mret VL_OK.

Definition vl_socket_track (calloc : bool) (fd : Z) : N vl_status :=
  if fd <? 0 then mret VL_ERROR_INVALID_ARGUMENT else
  found ← vl_socket_find_slot_locked fd;
  match found with
  | None =>
      if negb calloc then mret VL_ERROR_OUT_OF_MEMORY else
      let slot := mk_slot fd 0 0 false in
      _ ← modify (fun n => set_slots (slot :: vl_socket_slots n) n);
      track_slot slot
  | Some slot => track_slot slot
  end.

Definition vl_socket_generation (fd : Z) : N Z :=
  if fd <? 0 then mret 0 else
  found ← vl_socket_find_slot_locked fd;
  mret (match found with Some slot => s_generation slot | None => 0 end).

Definition vl_socket_is_tracked (fd : Z) : N bool :=
  if fd <? 0 then mret false else
  found ← vl_socket_find_slot_locked fd;
  mret (match found with Some slot => s_active slot | None => false end).

Definition vl_socket_claim (fd generation : Z) : N vl_status :=
  if (fd <? 0) || (generation =? 0) then mret VL_ERROR_INVALID_ARGUMENT else
  found ← vl_socket_find_slot_locked fd;
  match found with
  | None => mret VL_ERROR_INVALID_STATE
  | Some slot =>
      if negb (s_active slot) || negb (s_generation slot =? generation) || negb (s_pending slot =? 0)
      then mret VL_ERROR_INVALID_STATE else
      _ ← write_slot (mk_slot (s_fd slot) (s_generation slot) generation (s_active slot));
      mret VL_OK
  end.

Definition vl_socket_release (fd generation : Z) : N unit :=
  if fd <? 0 then mret tt else
  found ← vl_socket_find_slot_locked fd;
  match found with
  | Some slot =>
      if s_pending slot =? generation
      then write_slot (mk_slot (s_fd slot) (s_generation slot) 0 (s_active slot))
      else mret tt
  | None => mret tt
  end.

(** Of a request that is not a timeout. *)
Definition vl_socket_request_is_stale (fd generation : Z) : N bool :=
  if fd <? 0 then mret true else
  found ← vl_socket_find_slot_locked fd;
  mret (match found with
        | None => true
        | Some slot => negb (s_active slot) || negb (s_generation slot =? generation)
        end).

Definition vl_socket_close (close_result : Z) (fd : Z) : N vl_status :=
  if fd <? 0 then mret VL_ERROR_INVALID_ARGUMENT else
  found ← vl_socket_find_slot_locked fd;
  match found with
  | None => mret VL_ERROR_INVALID_STATE
  | Some slot =>
      if negb (s_active slot) then mret VL_ERROR_INVALID_STATE else
      r ← os_close close_result fd;
      if negb (r =? 0) then mret VL_ERROR_SYSTEM else
      _ ← write_slot (mk_slot (s_fd slot)
            (if negb (s_generation slot =? UINT64_MAX) then next_generation (s_generation slot) else s_generation slot)
            (s_pending slot) false);
      mret VL_OK
  end.

(** ** The helpers

    [inl] is an error status, [inr] the descriptor. *)

Definition vl_socket_set_nonblocking (o : sys) (fd : Z) : N vl_status :=
  if fd <? 0 then mret VL_ERROR_INVALID_ARGUMENT else
  mret (if (sys_getfl o <? 0) || (sys_setfl o <? 0) then VL_ERROR_SYSTEM else VL_OK).

(** [close(fd); return VL_ERROR_SYSTEM;] *)
Definition give_back (o : sys) (fd : Z) : N (vl_status + Z) :=
  _ ← os_close (sys_close o) fd; mret (inl VL_ERROR_SYSTEM).

Definition vl_socket_create_tcp (o : sys) : N (vl_status + Z) :=
  fd ← os_open (sys_fd o);
  if fd <? 0 then mret (inl VL_ERROR_SYSTEM) else
  nb ← vl_socket_set_nonblocking o fd;
  if bool_decide (nb <> VL_OK) then give_back o fd else
  tr ← vl_socket_track (sys_calloc o) fd;
  if bool_decide (tr <> VL_OK) then give_back o fd else
  mret (inr fd).

(** [bound_port]: is the output pointer given?  The port is returned with the descriptor. *)
Definition vl_socket_listen_loopback (o : sys) (port backlog : Z) (bound_port : bool) : N (vl_status + Z * Z) :=
  let fail fd := _ ← give_back o fd; mret (inl VL_ERROR_SYSTEM) in
  if (backlog <=? 0) || negb bound_port then mret (inl VL_ERROR_INVALID_ARGUMENT) else
  fd ← os_open (sys_fd o);
  if fd <? 0 then mret (inl VL_ERROR_SYSTEM) else
  if negb (sys_setsockopt o =? 0) then fail fd else
  nb ← vl_socket_set_nonblocking o fd;
  if bool_decide (nb <> VL_OK) then fail fd else
  if negb (sys_bind o =? 0) then fail fd else
  if negb (sys_listen o =? 0) then fail fd else
  if negb (sys_getsockname o =? 0) then fail fd else
  tr ← vl_socket_track (sys_calloc o) fd;
  if bool_decide (tr <> VL_OK) then fail fd else
  mret (inr (fd, sys_port o)).

Definition vl_socket_connect_loopback (o : sys) (port : Z) : N (vl_status + Z) :=
  if port =? 0 then mret (inl VL_ERROR_INVALID_ARGUMENT) else
  fd ← os_open (sys_fd o);
  if fd <? 0 then mret (inl VL_ERROR_SYSTEM) else
  nb ← vl_socket_set_nonblocking o fd;
  if bool_decide (nb <> VL_OK) then give_back o fd else
  tr ← vl_socket_track (sys_calloc o) fd;
  if bool_decide (tr <> VL_OK) then give_back o fd else
  if negb (sys_connect o =? 0) && negb (sys_errno o =? EINPROGRESS) then
    _ ← vl_socket_close (sys_close o) fd; mret (inl VL_ERROR_SYSTEM)
  else mret (inr fd).

Definition vl_socket_accept (o : sys) : N (vl_status + Z) :=
  fd ← os_open (sys_fd o);
  if fd <? 0 then mret (inl VL_ERROR_SYSTEM) else
  tr ← vl_socket_track (sys_calloc o) fd;
  if bool_decide (tr <> VL_OK) then give_back o fd else
  mret (inr fd).
