(* ===== verification/SocketProps.v ===== *)
(** * Descriptor generations and claims

    What the registry promises to the backends: a generation that was closed never
    becomes valid again, at most one claim is held per descriptor, and the socket
    helpers give back the descriptor they opened when they fail. *)

From S2P Require Import Prelude Socket.
From stdpp Require Import options.

Open Scope Z_scope.

Definition slot_of (n : sockets) (fd : Z) : option vl_socket_slot := find_slot fd (vl_socket_slots n).

(** ** The slot list as a map *)

Lemma find_slot_fd fd l s : find_slot fd l = Some s -> s_fd s = fd.
Proof. induction l as [|x l IH]; simpl; [done|]. case_match eqn:E; [intros [= <-]; lia|done]. Qed.

Lemma find_store fd v l : find_slot fd (store_slot v l) =
  if decide (fd = s_fd v) then (fun _ => v) <$> find_slot fd l else find_slot fd l.
Proof.
  induction l as [|x l IH]; simpl; [by case_decide|].
  destruct (Z.eqb_spec (s_fd x) (s_fd v)) as [Hx|Hx]; simpl.
  - case_decide; subst; [by rewrite Z.eqb_refl, Hx, Z.eqb_refl|].
    by rewrite (proj2 (Z.eqb_neq (s_fd v) fd)), (proj2 (Z.eqb_neq (s_fd x) fd)) by lia.
  - destruct (Z.eqb_spec (s_fd x) fd) as [Hf|Hf]; simpl; [|done]. by rewrite decide_False by lia.
Qed.

Lemma slot_write n f g p a s fd : slot_of n f = Some s ->
  slot_of (set_slots (store_slot (mk_slot f g p a) (vl_socket_slots n)) n) fd =
    if decide (fd = f) then Some (mk_slot f g p a) else slot_of n fd.
Proof.
  intros Hs. unfold slot_of in *. simpl. rewrite find_store. simpl. case_decide; subst; [by rewrite Hs|done].
Qed.

Lemma slot_cons n v fd :
  slot_of (set_slots (v :: vl_socket_slots n) n) fd = if decide (fd = s_fd v) then Some v else slot_of n fd.
Proof.
  unfold slot_of. simpl. destruct (Z.eqb_spec (s_fd v) fd); case_decide; subst; done.
Qed.

Lemma next_generation_small g : 0 <= g < UINT64_MAX -> next_generation g = g + 1.
Proof. intros Hg. unfold next_generation. rewrite w64_small by word_lia. by rewrite (proj2 (Z.eqb_neq _ _)) by lia. Qed.

(** ** What an operation does to the slots

    [moved] is the only way a slot changes: the generation never goes back, and while
    it stands still the slot can only be deactivated. *)

Definition slot_ok (s : vl_socket_slot) : Prop := word (s_generation s) /\ (s_active s = true -> s_generation s <> 0).

Definition slots_ok (n : sockets) : Prop := forall fd s, slot_of n fd = Some s -> slot_ok s.

Definition moved (s s' : vl_socket_slot) : Prop :=
  s_generation s < s_generation s' \/ (s_generation s' = s_generation s /\ (s_active s' = true -> s_active s = true)).

Definition frame_except (fd : Z) (n n' : sockets) : Prop := forall fd', fd' <> fd -> slot_of n' fd' = slot_of n fd'.

Lemma frame_refl fd n : frame_except fd n n.
Proof. done. Qed.

Definition tracked (fd : Z) (n : sockets) : Prop := exists s, slot_of n fd = Some s /\ s_active s = true.

(** The branch that returns an error and changes nothing. *)
Ltac refused := eexists _, _; split; [reflexivity|]; split; [done|]; split; [done|]; by left.

Lemma track_spec calloc fd n : exists st n', vl_socket_track calloc fd n = Some (st, n') /\
  sock_os n' = sock_os n /\ frame_except fd n n' /\
  (st <> VL_OK /\ n' = n \/
   st = VL_OK /\ 0 <= fd /\ exists g p, slot_of n' fd = Some (mk_slot fd (next_generation g) p true) /\ g <> UINT64_MAX /\
     (slot_of n fd = Some (mk_slot fd g p false) \/ slot_of n fd = None /\ g = 0 /\ p = 0)).
Proof.
  unfold vl_socket_track. destruct (Z.ltb_spec fd 0); [by refused|].
  erewrite bind_Some by reflexivity. fold (slot_of n fd). destruct (slot_of n fd) as [[f g p a]|] eqn:Es.
  - pose proof (find_slot_fd _ _ _ Es) as Hf. simpl in Hf. subst f. unfold track_slot. cbn [s_active s_generation s_fd s_pending].
    destruct (a || (g =? UINT64_MAX)) eqn:Ea; [by refused|]. apply orb_false_elim in Ea as [-> Eg%Z.eqb_neq].
    eexists _, _. split; [reflexivity|]. split; [done|]. split.
    + intros fd' Hne. rewrite (slot_write n _ _ _ _ _ _ Es). by rewrite decide_False.
    + right. split_and!; [done|lia|]. exists g, p. rewrite (slot_write n _ _ _ _ _ _ Es), decide_True by done. split_and!; [done|done|by left].
  - destruct calloc; simpl; [|by refused]. rewrite (bind_Some _ _ _ _ _ eq_refl).
    set (n1 := set_slots _ n). assert (Es1 : slot_of n1 fd = Some (mk_slot fd 0 0 false)) by (unfold n1; rewrite slot_cons; by rewrite decide_True).
    eexists _, _. split; [reflexivity|]. split; [done|]. split.
    + intros fd' Hne. rewrite (slot_write n1 _ _ _ _ _ _ Es1), decide_False by done. unfold n1. rewrite slot_cons. by rewrite decide_False.
    + right. split_and!; [done|lia|]. exists 0, 0. rewrite (slot_write n1 _ _ _ _ _ _ Es1), decide_True by done. split_and!; [done|done|by right].
Qed.

Lemma close_spec r fd n : exists st n', vl_socket_close r fd n = Some (st, n') /\
  (open_fds (sock_os n') ⊆ open_fds (sock_os n) /\ interest (sock_os n') ⊆ interest (sock_os n)) /\ frame_except fd n n' /\
  (st <> VL_OK /\ vl_socket_slots n' = vl_socket_slots n \/
   st = VL_OK /\ fd ∉ open_fds (sock_os n') /\ r = 0 /\ exists g p, slot_of n fd = Some (mk_slot fd g p true) /\
     slot_of n' fd = Some (mk_slot fd (if g =? UINT64_MAX then g else next_generation g) p false)).
Proof.
  unfold vl_socket_close. destruct (Z.ltb_spec fd 0); [by refused|].
  erewrite bind_Some by reflexivity. fold (slot_of n fd). destruct (slot_of n fd) as [[f g p a]|] eqn:Es; [|by refused].
  pose proof (find_slot_fd _ _ _ Es) as Hf. simpl in Hf. subst f. cbn [s_active s_generation s_fd s_pending].
  destruct a; simpl; [|by refused]. rewrite bind_run. unfold os_close. case_decide as Ho; [|by refused].
  destruct (Z.eqb_spec r 0) as [->|Hr]; simpl.
  - eexists _, _. split; [reflexivity|]. split; [split; [simpl; set_solver|apply map_filter_subseteq]|]. split.
    + intros fd' Hne. unfold slot_of. simpl. rewrite find_store. by rewrite decide_False.
    + right. split_and!; [done|simpl; set_solver|done|]. exists g, p. split; [done|].
      unfold slot_of in *. simpl. rewrite find_store, Es. simpl. rewrite decide_True by done. by destruct (g =? UINT64_MAX).
  - eexists _, _. split; [reflexivity|]. split; [split; [simpl; set_solver|apply map_filter_subseteq]|]. split; [done|]. by left.
Qed.

Lemma claim_spec fd g n : exists st n', vl_socket_claim fd g n = Some (st, n') /\
  sock_os n' = sock_os n /\ frame_except fd n n' /\
  (st <> VL_OK /\ n' = n \/
   st = VL_OK /\ 0 <= fd /\ g <> 0 /\ slot_of n fd = Some (mk_slot fd g 0 true) /\ slot_of n' fd = Some (mk_slot fd g g true)).
Proof.
  unfold vl_socket_claim. destruct ((fd <? 0) || (g =? 0)) eqn:Eb; [by refused|].
  apply orb_false_elim in Eb as [Hfd%Z.ltb_ge Hg%Z.eqb_neq].
  erewrite bind_Some by reflexivity. fold (slot_of n fd). destruct (slot_of n fd) as [[f g' p a]|] eqn:Es; [|by refused].
  pose proof (find_slot_fd _ _ _ Es) as Hf. simpl in Hf. subst f. cbn [s_active s_generation s_fd s_pending].
  destruct a; [|by refused]. destruct (Z.eqb_spec g' g) as [->|]; [|by refused].
  destruct (Z.eqb_spec p 0) as [->|]; [|by refused]. simpl.
  eexists _, _. split; [reflexivity|]. split; [done|]. split.
  - intros fd' Hne. rewrite (slot_write n _ _ _ _ _ _ Es). by rewrite decide_False.
  - right. split_and!; try done. rewrite (slot_write n _ _ _ _ _ _ Es). by rewrite decide_True.
Qed.

Lemma release_spec fd g n : exists n', vl_socket_release fd g n = Some (tt, n') /\
  sock_os n' = sock_os n /\ frame_except fd n n' /\
  (n' = n /\ (forall s, 0 <= fd -> slot_of n fd = Some s -> s_pending s <> g) \/
   exists g' a, slot_of n fd = Some (mk_slot fd g' g a) /\ slot_of n' fd = Some (mk_slot fd g' 0 a)).
Proof.
  unfold vl_socket_release. destruct (Z.ltb_spec fd 0); [eexists; split; [reflexivity|]; split_and!; [done..|left; split; [done|lia]]|].
  erewrite bind_Some by reflexivity. fold (slot_of n fd). destruct (slot_of n fd) as [[f g' p a]|] eqn:Es.
  - pose proof (find_slot_fd _ _ _ Es) as Hf. simpl in Hf. subst f. cbn [s_active s_generation s_fd s_pending].
    destruct (Z.eqb_spec p g) as [->|]; [|eexists; split; [reflexivity|]; split_and!; [done..|left; split; [done|by intros ? _ [= <-]]]].
    eexists. split; [reflexivity|]. split; [done|]. split.
    + intros fd' Hne. rewrite (slot_write n _ _ _ _ _ _ Es). by rewrite decide_False.
    + right. exists g', a. split; [done|]. rewrite (slot_write n _ _ _ _ _ _ Es). by rewrite decide_True.
  - eexists. split; [reflexivity|]. split_and!; [done..|]. left. split; [done|]. by intros.
Qed.

(** ** Histories *)

Inductive sock_op :=
  | O_track (calloc : bool) (fd : Z)
  | O_claim (fd generation : Z)
  | O_release (fd generation : Z)
  | O_close (result fd : Z)
  | O_create (o : sys)
  | O_listen (o : sys) (port backlog : Z) (bound_port : bool)
  | O_connect (o : sys) (port : Z)
  | O_accept (o : sys).

Definition discard {A} (m : N A) : N unit := _ ← m; mret tt.

Definition run_sock (op : sock_op) : N unit :=
  match op with
  | O_track calloc fd => discard (vl_socket_track calloc fd)
  | O_claim fd g => discard (vl_socket_claim fd g)
  | O_release fd g => vl_socket_release fd g
  | O_close r fd => discard (vl_socket_close r fd)
  | O_create o => discard (vl_socket_create_tcp o)
  | O_listen o port backlog b => discard (vl_socket_listen_loopback o port backlog b)
  | O_connect o port => discard (vl_socket_connect_loopback o port)
  | O_accept o => discard (vl_socket_accept o)
  end.

Fixpoint run_socks (ops : list sock_op) : N unit :=
  match ops with
  | [] => mret tt
  | op :: ops => _ ← run_sock op; run_socks ops
  end.

Section Evolve.
  #[local] Set Default Proof Using "Type".
  Context (released : list (Z * Z)).

(** How a registry can have changed when only the claims in [released] were released. *)
Definition evolve (n n' : sockets) : Prop := interest (sock_os n') ⊆ interest (sock_os n) /\
  (slots_ok n -> slots_ok n' /\
  forall fd s, slot_of n fd = Some s -> exists s', slot_of n' fd = Some s' /\ moved s s' /\
    (s_pending s <> 0 -> (fd, s_pending s) ∉ released -> s_pending s' = s_pending s)).

#[global] Instance evolve_preorder : PreOrder evolve.
Proof.
  split.
  - intros n. split; [done|]. intros Hok. split; [done|]. intros fd s Hs. exists s. split_and!; [done| |done]. by right.
  - intros n1 n2 n3 [Hi12 H12] [Hi23 H23]. split; [by etrans|]. intros Hok. destruct (H12 Hok) as [Hok2 H12']. destruct (H23 Hok2) as [Hok3 H23']. split; [done|].
    intros fd s Hs. destruct (H12' fd s Hs) as (s2 & Hs2 & Hm2 & Hp2). destruct (H23' fd s2 Hs2) as (s3 & Hs3 & Hm3 & Hp3).
    exists s3. split_and!; [done| |].
    + unfold moved in *. destruct Hm2 as [?|[E2 Ha2]], Hm3 as [?|[E3 Ha3]]; [left; lia..|right; split; [lia|auto]].
    + intros Hne Hin. specialize (Hp2 Hne Hin). rewrite Hp3; congruence.
Qed.

(** Only the slot of [fd] changed. *)
Lemma evolve_slot fd n n' : interest (sock_os n') ⊆ interest (sock_os n) -> frame_except fd n n' ->
  (slots_ok n -> exists s', slot_of n' fd = Some s' /\ slot_ok s' /\ forall s, slot_of n fd = Some s ->
     moved s s' /\ (s_pending s <> 0 -> (fd, s_pending s) ∉ released -> s_pending s' = s_pending s)) -> evolve n n'.
Proof.
  intros Hi Hf Hs. split; [done|]. intros Hok. destruct (Hs Hok) as (s' & Hs' & Hok' & Hrel). split.
  - intros fd' x Hx. destruct (decide (fd' = fd)) as [->|Hne]; [congruence|]. rewrite Hf in Hx by done. by apply (Hok fd').
  - intros fd' x Hx. destruct (decide (fd' = fd)) as [->|Hne].
    + exists s'. split; [done|]. by apply Hrel.
    + exists x. rewrite Hf by done. split_and!; [done|by right|done].
Qed.

Lemma evolve_same n n' : interest (sock_os n') ⊆ interest (sock_os n) ->
  vl_socket_slots n' = vl_socket_slots n -> evolve n n'.
Proof.
  intros Hi E. split; [done|]. assert (Es : forall fd, slot_of n' fd = slot_of n fd) by (intros; unfold slot_of; by rewrite E).
  intros Hok. split; [intros fd s; rewrite Es; apply Hok|]. intros fd s Hs. exists s. rewrite Es. split_and!; [done|by right|done].
Qed.

Lemma track_evolve calloc fd n st n' : vl_socket_track calloc fd n = Some (st, n') -> evolve n n'.
Proof.
  intros E. destruct (track_spec calloc fd n) as (st2 & n2 & E2 & Hos & Hf & Hc). rewrite E in E2. injection E2 as <- <-.
  destruct Hc as [[_ ->]|(_ & _ & g & p & Hs' & Hg & Hold)]; [done|].
  apply (evolve_slot fd); [by rewrite Hos|done|]. intros Hok. eexists. split; [exact Hs'|].
  assert (Hgw : 0 <= g < UINT64_MAX) by (destruct Hold as [Hs|(_ & -> & _)]; [apply Hok in Hs as [? _]; simpl in *; word_lia|done]).
  rewrite next_generation_small by done. split; [split; simpl; [word_lia|lia]|].
  intros s Hs. destruct Hold as [Hs2|(Hs2 & _)]; [|congruence]. rewrite Hs in Hs2. injection Hs2 as ->. split; [left; simpl; lia|done].
Qed.

Lemma close_evolve r fd n st n' : vl_socket_close r fd n = Some (st, n') -> evolve n n'.
Proof.
  intros E. destruct (close_spec r fd n) as (st2 & n2 & E2 & [_ Hi] & Hf & Hc). rewrite E in E2. injection E2 as <- <-.
  destruct Hc as [[_ Hs]|(_ & _ & _ & g & p & Hs & Hs')]; [by apply evolve_same|].
  apply (evolve_slot fd); [done|done|]. intros Hok. eexists. split; [exact Hs'|]. apply Hok in Hs as Hso.
  destruct Hso as [Hw Ha]. simpl in Hw. split.
  - split; [|done]. simpl. destruct (Z.eqb_spec g UINT64_MAX); [done|]. rewrite next_generation_small; word_lia.
  - intros s Hs2. rewrite Hs in Hs2. injection Hs2 as <-. split; [|done]. destruct (Z.eqb_spec g UINT64_MAX); [by right|].
    left. simpl. rewrite next_generation_small; word_lia.
Qed.

Lemma claim_evolve fd g n st n' : vl_socket_claim fd g n = Some (st, n') -> evolve n n'.
Proof.
  intros E. destruct (claim_spec fd g n) as (st2 & n2 & E2 & Hos & Hf & Hc). rewrite E in E2. injection E2 as <- <-.
  destruct Hc as [[_ ->]|(_ & _ & Hg & Hs & Hs')]; [done|].
  apply (evolve_slot fd); [by rewrite Hos|done|]. intros Hok. eexists. split; [exact Hs'|]. split; [by apply Hok in Hs|].
  intros s Hs2. rewrite Hs in Hs2. injection Hs2 as <-. split; [by right|done].
Qed.

Lemma release_evolve fd g n n' : (fd, g) ∈ released -> vl_socket_release fd g n = Some (tt, n') -> evolve n n'.
Proof.
  intros Hin E. destruct (release_spec fd g n) as (n2 & E2 & Hos & Hf & Hc). rewrite E in E2. injection E2 as <-.
  destruct Hc as [[-> _]|(g' & a & Hs & Hs')]; [done|].
  apply (evolve_slot fd); [by rewrite Hos|done|]. intros Hok. eexists. split; [exact Hs'|]. split; [by apply Hok in Hs|].
  intros s Hs2. rewrite Hs in Hs2. injection Hs2 as <-. split; [by right|done].
Qed.

(** An operation that always returns and only lets the registry evolve. *)
Definition steady {A} (m : N A) : Prop := forall n, exists a n', m n = Some (a, n') /\ evolve n n'.

Lemma steady_ret {A} (a : A) : steady (mret a).
Proof. intros n. by exists a, n. Qed.

Lemma steady_bind {A B} (m : N A) (f : A -> N B) : steady m -> (forall a, steady (f a)) -> steady (m ≫= f).
Proof.
  intros Hm Hf n. destruct (Hm n) as (a & n1 & E1 & H1). destruct (Hf a n1) as (b & n2 & E2 & H2).
  exists b, n2. rewrite (bind_Some _ _ _ _ _ E1). split; [done|by transitivity n1].
Qed.

Lemma steady_open fd : steady (os_open fd).
Proof. intros n. eexists _, _. split; [reflexivity|]. by apply evolve_same; destruct (fd <? 0). Qed.

Lemma steady_close_os r fd : steady (os_close r fd).
Proof. intros n. unfold os_close. case_decide; eexists _, _; (split; [reflexivity|]); apply evolve_same; try done. apply map_filter_subseteq. Qed.

Lemma steady_track calloc fd : steady (vl_socket_track calloc fd).
Proof. intros n. destruct (track_spec calloc fd n) as (st & n' & E & _). exists st, n'. split; [done|by eapply track_evolve]. Qed.

Lemma steady_close r fd : steady (vl_socket_close r fd).
Proof. intros n. destruct (close_spec r fd n) as (st & n' & E & _). exists st, n'. split; [done|by eapply close_evolve]. Qed.

Lemma steady_claim fd g : steady (vl_socket_claim fd g).
Proof. intros n. destruct (claim_spec fd g n) as (st & n' & E & _). exists st, n'. split; [done|by eapply claim_evolve]. Qed.

Lemma steady_release fd g : (fd, g) ∈ released -> steady (vl_socket_release fd g).
Proof. intros Hin n. destruct (release_spec fd g n) as (n' & E & _). exists tt, n'. split; [done|by eapply release_evolve]. Qed.

#[local] Hint Resolve steady_ret steady_bind steady_open steady_close_os steady_track steady_close steady_claim steady_release : steady.

Lemma steady_nonblocking o fd : steady (vl_socket_set_nonblocking o fd).
Proof. unfold vl_socket_set_nonblocking. destruct (fd <? 0); auto with steady. Qed.

#[local] Hint Resolve steady_nonblocking : steady.

Ltac steady_tac := repeat first
  [ apply steady_bind; [solve [auto with steady]|intros ?] | apply steady_ret | case_match | solve [auto with steady] ].

Lemma steady_run op : (forall fd g, op = O_release fd g -> (fd, g) ∈ released) -> steady (run_sock op).
Proof.
  intros Hr. destruct op; simpl; [| | | |unfold vl_socket_create_tcp|unfold vl_socket_listen_loopback
    |unfold vl_socket_connect_loopback|unfold vl_socket_accept]; unfold discard, give_back.
  3: { apply steady_release. by apply Hr. }
  all: apply steady_bind; [|intros; apply steady_ret]; steady_tac.
Qed.

Lemma steady_all ops : (forall fd g, O_release fd g ∈ ops -> (fd, g) ∈ released) -> steady (run_socks ops).
Proof.
  induction ops as [|op ops IH]; intros Hr; simpl; [apply steady_ret|].
  apply steady_bind; [|intros; apply IH; set_solver]. apply steady_run. intros fd g ->. apply Hr. set_solver.
Qed.

End Evolve.

Definition released_in (ops : list sock_op) : list (Z * Z) :=
  omap (fun op => match op with O_release fd g => Some (fd, g) | _ => None end) ops.

Lemma released_in_spec ops fd g : (fd, g) ∈ released_in ops <-> O_release fd g ∈ ops.
Proof.
  unfold released_in. rewrite list_elem_of_omap. split.
  - intros (op & Hin & E). by destruct op; simplify_eq.
  - intros Hin. by eexists.
Qed.

Lemma history_evolves ops n : exists n', run_socks ops n = Some (tt, n') /\ evolve (released_in ops) n n'.
Proof.
  destruct (steady_all (released_in ops) ops) with (n := n) as ([] & n' & E & He); [|by exists n'].
  intros fd g. by rewrite released_in_spec.
Qed.

Definition boot (o : os) : sockets := mk_sockets [] o.

Lemma history_ok o ops n : run_socks ops (boot o) = Some (tt, n) -> slots_ok n.
Proof.
  intros E. destruct (history_evolves ops (boot o)) as (n' & E' & He). rewrite E in E'. injection E' as <-.
  by apply (proj2 He).
Qed.

(** ** Generations *)

(** No slot can make the pair valid any more. *)
Definition spent (n : sockets) (fd g : Z) : Prop :=
  0 <= fd /\ exists s, slot_of n fd = Some s /\ (g < s_generation s \/ g = s_generation s /\ s_active s = false).

Lemma spent_evolve rel n n' fd g : evolve rel n n' -> slots_ok n -> spent n fd g -> spent n' fd g.
Proof.
  intros He Hok (Hfd & s & Hs & Hg). destruct (proj2 (proj2 He Hok) fd s Hs) as (s' & Hs' & Hm & _). split; [done|]. exists s'. split; [done|].
  destruct Hm as [?|[E Ha]]; [left; lia|]. destruct Hg as [?|[-> Hi]]; [left; lia|]. right. split; [done|].
  destruct (s_active s'); [|done]. by rewrite Ha in Hi.
Qed.

Lemma spent_stale n fd g : spent n fd g -> vl_socket_request_is_stale fd g n = Some (true, n).
Proof.
  intros (Hfd & s & Hs & Hg). unfold vl_socket_request_is_stale. rewrite (proj2 (Z.ltb_ge _ _)) by done.
  erewrite bind_Some by reflexivity. fold (slot_of n fd). rewrite Hs.
  destruct Hg as [?|[-> ->]]; [|done]. by rewrite (proj2 (Z.eqb_neq _ _)), orb_true_r by lia.
Qed.

Lemma spent_claim n fd g : spent n fd g -> exists st, st <> VL_OK /\ vl_socket_claim fd g n = Some (st, n).
Proof.
  intros (_ & s & Hs & Hg). destruct (claim_spec fd g n) as (st & n' & E & _ & _ & Hc).
  destruct Hc as [[Hst ->]|(_ & _ & _ & Hs2 & _)]; [by exists st|]. rewrite Hs in Hs2. injection Hs2 as ->. simpl in Hg.
  destruct Hg as [?|[_ ?]]; [lia|done].
Qed.

(** C24: Closing a descriptor retires its generation for good.  After any history of registry
    operations and socket helpers, once [vl_socket_close] has closed descriptor [fd] while
    its slot had generation [g], then whatever happens later (the number [fd] being
    reused, tracked, claimed and closed again any number of times, the generation
    counter reaching its maximum) a request carrying [(fd, g)] is reported stale and a
    claim of [(fd, g)] is refused and changes nothing.  All operations return. *)
Theorem socket_generation_spent o before later r fd n s n1 :
  run_socks before (boot o) = Some (tt, n) -> slot_of n fd = Some s ->
  vl_socket_close r fd n = Some (VL_OK, n1) ->
  exists n2, run_socks later n1 = Some (tt, n2) /\
    vl_socket_request_is_stale fd (s_generation s) n2 = Some (true, n2) /\
    exists st, st <> VL_OK /\ vl_socket_claim fd (s_generation s) n2 = Some (st, n2).
Proof.
  intros Hb Hs Hc. pose proof (history_ok _ _ _ Hb) as Hok.
  assert (Hok1 : slots_ok n1) by by apply (proj2 (close_evolve [] _ _ _ _ _ Hc)).
  assert (Hsp : spent n1 fd (s_generation s)).
  { assert (Hfd : 0 <= fd) by (unfold vl_socket_close in Hc; destruct (Z.ltb_spec fd 0); [done|lia]). split; [done|].
    destruct (proj2 (proj2 (close_evolve [] _ _ _ _ _ Hc) Hok) fd s Hs) as (s' & Hs' & Hm & _). exists s'. split; [done|].
    destruct (close_spec r fd n) as (st & n' & E & _ & _ & Hcase). rewrite Hc in E. injection E as <- <-.
    destruct Hcase as [[? _]|(_ & _ & _ & g & p & _ & Hs2)]; [done|]. rewrite Hs' in Hs2. injection Hs2 as ->.
    destruct Hm as [?|[E _]]; [by left|by right]. }
  destruct (history_evolves later n1) as (n2 & E2 & He). exists n2. split; [done|].
  pose proof (spent_evolve _ _ _ _ _ He Hok1 Hsp) as Hsp2. split; [by apply spent_stale|by apply spent_claim].
Qed.

(** C39: At most one request is pending on a descriptor in the whole process.  After any
    history, once a claim of [(fd, g)] has succeeded, no claim on [fd] succeeds, for any
    generation and through any number of closes and reuses of the number, before that
    claim is released; and when the descriptor was not closed in between, its release
    makes it claimable again. *)
Theorem socket_claim_exclusive o before later fd g n n1 :
  run_socks before (boot o) = Some (tt, n) -> vl_socket_claim fd g n = Some (VL_OK, n1) ->
  O_release fd g ∉ later ->
  exists n2, run_socks later n1 = Some (tt, n2) /\
    (forall g', exists st, st <> VL_OK /\ vl_socket_claim fd g' n2 = Some (st, n2)) /\
    exists n3, vl_socket_release fd g n2 = Some (tt, n3) /\
      (vl_socket_request_is_stale fd g n2 = Some (false, n2) -> exists n4, vl_socket_claim fd g n3 = Some (VL_OK, n4)).
Proof.
  intros Hb Hc Hrel. pose proof (history_ok _ _ _ Hb) as Hok.
  assert (Hok1 : slots_ok n1) by by apply (proj2 (claim_evolve [] _ _ _ _ _ Hc)).
  destruct (claim_spec fd g n) as (st & n' & E & _ & _ & Hcase). rewrite Hc in E. injection E as <- <-.
  destruct Hcase as [[? _]|(_ & Hfd & Hg & _ & Hs)]; [done|].
  destruct (history_evolves later n1) as (n2 & E2 & He). exists n2. split; [done|].
  destruct (proj2 (proj2 He Hok1) fd _ Hs) as (s2 & Hs2 & _ & Hp). simpl in Hp.
  specialize (Hp Hg ltac:(by rewrite released_in_spec)). split.
  - intros g'. destruct (claim_spec fd g' n2) as (st & n' & E & _ & _ & [[Hst ->]|(_ & _ & _ & Hs3 & _)]); [by exists st|].
    rewrite Hs2 in Hs3. injection Hs3 as ->. simpl in Hp. lia.
  - destruct (release_spec fd g n2) as (n3 & E3 & _ & _ & [[_ Hno]|(g' & a & Hs3 & Hs4)]); [by destruct (Hno s2)|].
    exists n3. split; [done|]. unfold vl_socket_request_is_stale. rewrite (proj2 (Z.ltb_ge _ _)) by done.
    erewrite bind_Some by reflexivity. fold (slot_of n2 fd). rewrite Hs3. intros [= Hst].
    apply orb_false_elim in Hst as [Ha%negb_false_iff Hgg%negb_false_iff%Z.eqb_eq]. simpl in Ha, Hgg. subst g' a.
    destruct (claim_spec fd g n3) as (st & n4 & E4 & _ & _ & Hc4). exists n4. rewrite E4.
    destruct Hc4 as [[Hst4 ->]|(-> & _)]; [|done]. exfalso. unfold vl_socket_claim in E4.
    rewrite (proj2 (Z.ltb_ge _ _)), (proj2 (Z.eqb_neq _ _) Hg) in E4 by done. simpl in E4.
    rewrite bind_run in E4. simpl in E4. fold (slot_of n3 fd) in E4. rewrite Hs4 in E4. simpl in E4. rewrite Z.eqb_refl in E4.
    simpl in E4. by injection E4 as <-.
Qed.

(** ** The socket helpers *)

Inductive sock_open := H_create | H_listen (port backlog : Z) | H_connect (port : Z) | H_accept.

Definition run_open (h : sock_open) (o : sys) : N (vl_status + Z) :=
  match h with
  | H_create => vl_socket_create_tcp o
  | H_listen port backlog =>
      r ← vl_socket_listen_loopback o port backlog true;
      mret (match r with inl st => inl st | inr (fd, _) => inr fd end)
  | H_connect port => vl_socket_connect_loopback o port
  | H_accept => vl_socket_accept o
  end.

(** The descriptors the registry has active are open. *)
Definition active_open (n : sockets) : Prop := forall fd, tracked fd n -> fd ∈ open_fds (sock_os n).

(** What a helper should do: hand out an open, tracked descriptor, or leave no trace. *)
Definition opened (o : sys) (n : sockets) (r : vl_status + Z) (n' : sockets) : Prop :=
  match r with
  | inl st => st <> VL_OK /\ open_fds (sock_os n') = open_fds (sock_os n) /\ (forall fd, tracked fd n' <-> tracked fd n)
  | inr fd => fd = sys_fd o /\ 0 <= fd /\ open_fds (sock_os n') = {[fd]} ∪ open_fds (sock_os n) /\
              (forall fd', tracked fd' n' <-> fd' = fd \/ tracked fd' n)
  end.

(** The exception: the connection is refused and close reports an error for the new
    descriptor.  The descriptor is gone but its slot is still active. *)
Definition stranded (h : sock_open) (o : sys) (n : sockets) (r : vl_status + Z) (n' : sockets) : Prop :=
  (exists port, h = H_connect port) /\ sys_close o <> 0 /\ sys_connect o <> 0 /\ sys_errno o <> EINPROGRESS /\
  r = inl VL_ERROR_SYSTEM /\ open_fds (sock_os n') = open_fds (sock_os n) /\
  (forall fd, tracked fd n' <-> fd = sys_fd o \/ tracked fd n).

Definition opening (fd : Z) (n : sockets) : sockets :=
  set_os (mk_os ({[fd]} ∪ open_fds (sock_os n)) (interest (sock_os n))) n.

Lemma os_open_run fd n : 0 <= fd -> os_open fd n = Some (fd, opening fd n).
Proof. intros H. unfold os_open. erewrite bind_Some by reflexivity. by rewrite (proj2 (Z.ltb_ge _ _)). Qed.

Lemma give_back_opened o n : sys_fd o ∉ open_fds (sock_os n) ->
  exists n', give_back o (sys_fd o) (opening (sys_fd o) n) = Some (inl VL_ERROR_SYSTEM, n') /\
    opened o n (inl VL_ERROR_SYSTEM) n'.
Proof.
  intros Hf. unfold give_back. rewrite bind_run. unfold os_close. rewrite decide_True by (simpl; set_solver).
  eexists. split; [reflexivity|]. split; [done|]. split; [simpl; set_solver|done].
Qed.

(** Tracking the fresh descriptor: the registry refuses only for want of memory or of generations. *)
Lemma track_opened o n : sys_fd o ∉ open_fds (sock_os n) -> active_open n ->
  exists st n', vl_socket_track (sys_calloc o) (sys_fd o) (opening (sys_fd o) n) = Some (st, n') /\
    (st <> VL_OK /\ n' = opening (sys_fd o) n \/ st = VL_OK /\ opened o n (inr (sys_fd o)) n').
Proof.
  intros Hf Hact. destruct (track_spec (sys_calloc o) (sys_fd o) (opening (sys_fd o) n)) as (st & n' & E & Hos & Hfr & Hc).
  exists st, n'. split; [done|]. destruct Hc as [?|(-> & Hfd & g & p & Hs & _ & _)]; [by left|]. right. split; [done|].
  split; [done|]. split; [done|]. rewrite Hos. split; [done|]. intros fd'. unfold tracked.
  destruct (decide (fd' = sys_fd o)) as [->|Hne]; [|rewrite Hfr by done].
  - split; [by left|]. intros _. eexists. by split; [exact Hs|].
  - split; [by right|by intros [?|?]].
Qed.

(** Closing what was opened and tracked: the descriptor is released, the slot only when
    close succeeds. *)
Lemma close_opened o n n' : opened o n (inr (sys_fd o)) n' -> sys_fd o ∉ open_fds (sock_os n) -> active_open n ->
  exists st n'', vl_socket_close (sys_close o) (sys_fd o) n' = Some (st, n'') /\
    open_fds (sock_os n'') = open_fds (sock_os n) /\
    (forall fd, tracked fd n'' <-> (sys_close o <> 0 /\ fd = sys_fd o) \/ tracked fd n).
Proof.
  intros (_ & Hfd & Hop & Htr) Hf Hact. destruct (close_spec (sys_close o) (sys_fd o) n') as (st & n'' & E & _ & Hfr & Hc).
  exists st, n''. split; [done|]. destruct (proj2 (Htr (sys_fd o)) (or_introl eq_refl)) as ([f g p a] & Hs & Ha). simpl in Ha. subst a.
  assert (Hself : ~ tracked (sys_fd o) n) by by intros ?%Hact.
  unfold vl_socket_close in E. rewrite (proj2 (Z.ltb_ge _ _)) in E by done. rewrite bind_run in E. simpl in E.
  fold (slot_of n' (sys_fd o)) in E. rewrite Hs in E. simpl in E. rewrite bind_run in E. unfold os_close in E.
  rewrite decide_True in E by (rewrite Hop; set_solver). simpl in E.
  destruct (Z.eqb_spec (sys_close o) 0) as [Hr|Hr]; simpl in E; injection E as <- <-.
  - destruct Hc as [[? _]|(_ & _ & _ & g' & p' & _ & Hs'')]; [done|].
    split; [simpl; rewrite Hop; set_solver|]. intros fd'. destruct (decide (fd' = sys_fd o)) as [->|Hne].
    + split; [|naive_solver]. intros (s & Hs2 & Ha). rewrite Hs'' in Hs2. injection Hs2 as <-. done.
    + unfold tracked at 1. rewrite Hfr by done. change (tracked fd' n' <-> (sys_close o <> 0 /\ fd' = sys_fd o) \/ tracked fd' n).
      rewrite Htr. naive_solver.
  - split; [simpl; rewrite Hop; set_solver|]. intros fd'.
    change (tracked fd' n' <-> (sys_close o <> 0 /\ fd' = sys_fd o) \/ tracked fd' n). rewrite Htr. naive_solver.
Qed.

Lemma opened_refused o n st : st <> VL_OK -> opened o n (inl st) n.
Proof. done. Qed.

Definition settles (h : sock_open) (o : sys) (n : sockets) (x : option ((vl_status + Z) * sockets)) : Prop :=
  exists r n', x = Some (r, n') /\ (opened o n r n' \/ stranded h o n r n').

Section Open.
  #[local] Set Default Proof Using "All".
  Context (h : sock_open) (o : sys) (n : sockets) (Hact : active_open n) (Hnew : sys_fd o ∉ open_fds (sock_os n)).

Lemma settles_refused st : st <> VL_OK -> settles h o n (Some (inl st, n)).
Proof. intros Hst. exists (inl st), n. split; [done|left; by apply opened_refused]. Qed.

Lemma settles_back : settles h o n (give_back o (sys_fd o) (opening (sys_fd o) n)).
Proof. destruct (give_back_opened o n Hnew) as (n' & E & Ho). exists (inl VL_ERROR_SYSTEM), n'. by split; [|left]. Qed.

Lemma settles_track (k : N (vl_status + Z)) : (forall n', opened o n (inr (sys_fd o)) n' -> settles h o n (k n')) ->
  settles h o n ((tr ← vl_socket_track (sys_calloc o) (sys_fd o);
                if bool_decide (tr <> VL_OK) then give_back o (sys_fd o) else k) (opening (sys_fd o) n)).
Proof.
  intros Hk. destruct (track_opened o n Hnew Hact) as (st & n' & E & Hc). rewrite (bind_Some _ _ _ _ _ E).
  destruct Hc as [[Hst ->]|[-> Ho]].
  - rewrite bool_decide_true by done. apply settles_back.
  - rewrite bool_decide_false by auto. by apply Hk.
Qed.

Lemma settles_handed n' : opened o n (inr (sys_fd o)) n' -> settles h o n ((mret (inr (sys_fd o)) : N (vl_status + Z)) n').
Proof. intros Ho. exists (inr (sys_fd o)), n'. by split; [|left]. Qed.

Lemma settles_connected n' : (exists port, h = H_connect port) -> opened o n (inr (sys_fd o)) n' ->
  settles h o n ((if negb (sys_connect o =? 0) && negb (sys_errno o =? EINPROGRESS)
                  then _ ← vl_socket_close (sys_close o) (sys_fd o); mret (inl VL_ERROR_SYSTEM)
                  else mret (inr (sys_fd o)) : N (vl_status + Z)) n').
Proof.
  intros Hh Ho. destruct (Z.eqb_spec (sys_connect o) 0) as [Hc|Hc]; [by apply settles_handed|].
  destruct (Z.eqb_spec (sys_errno o) EINPROGRESS) as [He|He]; [by apply settles_handed|]. simpl.
  destruct (close_opened o n n' Ho Hnew Hact) as (st & n'' & E & Hop & Htr). rewrite (bind_Some _ _ _ _ _ E).
  exists (inl VL_ERROR_SYSTEM), n''. split; [done|]. destruct (decide (sys_close o = 0)) as [Hz|Hz]; [left|right].
  - split; [done|]. split; [done|]. intros fd. rewrite Htr. naive_solver.
  - repeat (split; [done|]). intros fd. rewrite Htr. naive_solver.
Qed.

(** The listener's branches, with the port dropped. *)
Lemma settles_listen port backlog : 0 <= sys_fd o -> settles h o n (run_open (H_listen port backlog) o n).
Proof.
  intros Hfd. assert (Hb : settles h o n ((r ← (_ ← give_back o (sys_fd o); mret (inl VL_ERROR_SYSTEM) : N (vl_status + Z * Z));
    mret (match r with inl st => inl st | inr (fd, _) => inr fd end) : N (vl_status + Z)) (opening (sys_fd o) n))).
  { destruct (give_back_opened o n Hnew) as (n' & E & Ho). exists (inl VL_ERROR_SYSTEM), n'. split; [|by left].
    rewrite !bind_run, E. done. }
  simpl. unfold vl_socket_listen_loopback. destruct ((backlog <=? 0) || negb true); [by apply settles_refused|].
  rewrite bind_run, bind_run, os_open_run, (proj2 (Z.ltb_ge _ _)) by done.
  destruct (negb (sys_setsockopt o =? 0)); [exact Hb|].
  unfold vl_socket_set_nonblocking. rewrite (proj2 (Z.ltb_ge _ _)), (bind_Some _ _ _ _ _ eq_refl) by done.
  destruct (bool_decide (_ <> VL_OK)); [exact Hb|]. destruct (negb (sys_bind o =? 0)); [exact Hb|].
  destruct (negb (sys_listen o =? 0)); [exact Hb|]. destruct (negb (sys_getsockname o =? 0)); [exact Hb|].
  destruct (track_opened o n Hnew Hact) as (st & n' & E & Hc). rewrite (bind_Some _ _ _ _ _ E).
  destruct Hc as [[Hst ->]|[-> Ho]].
  - rewrite bool_decide_true by done. exact Hb.
  - rewrite bool_decide_false by auto. by apply settles_handed.
Qed.

End Open.

(** C38: The socket helpers leak nothing and hand out only live descriptors.  Whatever the
    system calls answer, [vl_socket_create_tcp], [vl_socket_listen_loopback],
    [vl_socket_connect_loopback] and [vl_socket_accept] return.  A success returns the
    descriptor the kernel gave, now open and tracked, and touches no other; a failure
    leaves the set of open descriptors as it was and, with one exception, the set of
    tracked descriptors too.  The exception is a refused connection whose close reports an
    error: the closed descriptor stays tracked.  So as long as close succeeds, every
    tracked descriptor remains open.  The kernel is assumed to return descriptors that are
    not open. *)
Theorem socket_helpers_no_leak h o n :
  active_open n -> sys_fd o ∉ open_fds (sock_os n) ->
  exists r n', run_open h o n = Some (r, n') /\ (opened o n r n' \/ stranded h o n r n') /\
    (sys_close o = 0 -> active_open n').
Proof.
  intros Hact Hnew. cut (settles h o n (run_open h o n)).
  { intros (r & n' & E & Ho). exists r, n'. split_and!; [done..|]. intros Hz fd.
    destruct Ho as [Ho|(_ & ? & _)]; [|done]. destruct r; simpl in Ho.
    - destruct Ho as (_ & -> & Htr). rewrite Htr. apply Hact.
    - destruct Ho as (-> & _ & -> & Htr). rewrite Htr. intros [->|?%Hact]; set_solver. }
  destruct (Z.ltb_spec (sys_fd o) 0) as [Hneg|Hfd].
  - assert (Hop : os_open (sys_fd o) n = Some (sys_fd o, n)).
    { unfold os_open. erewrite bind_Some by reflexivity. by rewrite (proj2 (Z.ltb_lt _ _)). }
    destruct h; simpl; unfold vl_socket_create_tcp, vl_socket_listen_loopback, vl_socket_connect_loopback, vl_socket_accept;
      repeat (case_match; [by apply settles_refused|]); rewrite !bind_run, Hop, (proj2 (Z.ltb_lt _ _)) by done; by apply settles_refused.
  - destruct h as [|port backlog|port|]; [..|]; [| by apply settles_listen| |]; simpl;
      unfold vl_socket_create_tcp, vl_socket_connect_loopback, vl_socket_accept;
      [|destruct (port =? 0); [by apply settles_refused|]|];
      rewrite (bind_Some _ _ _ _ _ (os_open_run _ n Hfd)), (proj2 (Z.ltb_ge _ _)) by done;
      unfold vl_socket_set_nonblocking; rewrite ?(proj2 (Z.ltb_ge _ _)), ?(bind_Some _ _ _ _ _ eq_refl) by done.
    + case_match; [by apply settles_back|]. apply settles_track; [done..|]. by apply settles_handed.
    + case_match; [by apply settles_back|]. apply settles_track; [done..|]. intros. apply settles_connected; eauto.
    + apply settles_track; [done..|]. by apply settles_handed.
Qed.

(** ** Witnesses *)

Definition demo_sys (fd : Z) : sys := mk_sys fd 2 0 0 0 0 0 8080 0 0 0 true.
Definition demo_os : os := mk_os ∅ ∅.

Definition after_socks (ops : list sock_op) : sockets :=
  match run_socks ops (boot demo_os) with Some (_, n) => n | None => boot demo_os end.

Lemma socket_generation_spent_witness : exists n1 n2,
  vl_socket_close 0 5 (after_socks [O_accept (demo_sys 5)]) = Some (VL_OK, n1) /\
  run_socks [O_accept (demo_sys 5); O_claim 5 3] n1 = Some (tt, n2) /\
  vl_socket_request_is_stale 5 1 n2 = Some (true, n2).
Proof.
  destruct (vl_socket_close 0 5 (after_socks [O_accept (demo_sys 5)])) as [[st n1]|] eqn:E; [|vm_compute in E; discriminate].
  assert (st = VL_OK) as -> by (vm_compute in E; congruence).
  destruct (socket_generation_spent demo_os [O_accept (demo_sys 5)] [O_accept (demo_sys 5); O_claim 5 3] 0 5
    (after_socks [O_accept (demo_sys 5)]) (mk_slot 5 1 0 true) n1) as (n2 & E2 & Hst & _);
    [vm_compute; reflexivity|vm_compute; reflexivity|exact E|].
  exists n1, n2. split; [reflexivity|]. split; [exact E2|exact Hst].
Defined.

Lemma socket_claim_exclusive_witness : exists n1 n2 n3 n4,
  vl_socket_claim 5 1 (after_socks [O_create (demo_sys 5)]) = Some (VL_OK, n1) /\
  run_socks [O_accept (demo_sys 6); O_claim 6 1; O_release 6 1] n1 = Some (tt, n2) /\
  vl_socket_release 5 1 n2 = Some (tt, n3) /\ vl_socket_claim 5 1 n3 = Some (VL_OK, n4).
Proof.
  destruct (vl_socket_claim 5 1 (after_socks [O_create (demo_sys 5)])) as [[st n1]|] eqn:E; [|vm_compute in E; discriminate].
  assert (st = VL_OK) as -> by (vm_compute in E; congruence).
  destruct (socket_claim_exclusive demo_os [O_create (demo_sys 5)] [O_accept (demo_sys 6); O_claim 6 1; O_release 6 1] 5 1
    (after_socks [O_create (demo_sys 5)]) n1) as (n2 & E2 & _ & n3 & E3 & H4); [vm_compute; reflexivity|exact E|set_solver|].
  assert (n1 = default n1 (snd <$> vl_socket_claim 5 1 (after_socks [O_create (demo_sys 5)]))) as Hn1 by (rewrite E; reflexivity).
  destruct H4 as (n4 & E4).
  { rewrite Hn1 in E2. vm_compute in E2. injection E2 as <-. vm_compute. reflexivity. }
  exists n1, n2, n3, n4. split; [reflexivity|]. split; [exact E2|]. split; [exact E3|exact E4].
Defined.

(** Connecting is refused and close reports an error. *)
Definition refused_sys : sys := mk_sys 5 2 0 0 0 0 0 8080 (-1) 111 (-1) true.

Lemma socket_helpers_no_leak_witness :
  (exists n', run_open (H_listen 80 16) (demo_sys 5) (boot demo_os) = Some (inr 5, n') /\ open_fds (sock_os n') = {[5]} ∪ ∅) /\
  (exists r n', run_open (H_connect 80) refused_sys (boot demo_os) = Some (r, n') /\ open_fds (sock_os n') = ∅ /\ tracked 5 n').
Proof.
  assert (H0 : active_open (boot demo_os)) by (intros fd (s & Hs & _); discriminate).
  split.
  - destruct (socket_helpers_no_leak (H_listen 80 16) (demo_sys 5) (boot demo_os) H0) as (r & n' & E & Ho & _);
      [simpl; set_solver|].
    assert (r = inr 5) as -> by (vm_compute in E; congruence). exists n'. split; [exact E|].
    destruct Ho as [Ho|(_ & Hz & _)]; [apply Ho|destruct Hz; reflexivity].
  - destruct (socket_helpers_no_leak (H_connect 80) refused_sys (boot demo_os) H0) as (r & n' & E & Ho & _);
      [simpl; set_solver|].
    exists r, n'. split; [exact E|]. vm_compute in E. injection E as <- <-.
    destruct Ho as [(_ & _ & Ht)|(_ & _ & _ & _ & _ & Hop & Ht)].
    + split; [reflexivity|]. eexists. split; reflexivity.
    + split; [exact Hop|]. apply Ht. left. reflexivity.
Defined.
