(* ===== verification/Epoll.v ===== *)
(** * I/O requests and the epoll backend (include/veloco/io.h, src/net/io_internal.h,
    src/net/epoll_backend.c)

    Requests and their buffers belong to the caller and are reached through
    pointers ([iw_requests], [iw_mem]); the I/O handles are [iw_impls].  A waiter is
    an allocated block: it is found by its address in the handle's list, and using
    an address that is not there is a use after free (undefined behaviour).  The
    kernel side of epoll is the interest list of [os]: [epoll_wait] reports the
    pointer that [EPOLL_CTL_ADD] registered for a ready descriptor.  [iw_sent] is
    what the kernel accepted for sending, in order. *)

From S2P Require Import Prelude Socket SocketProps.
From stdpp Require Import options.

Open Scope Z_scope.

(** ** Data *)

Inductive vl_io_op := VL_IO_ACCEPT | VL_IO_RECV | VL_IO_SEND | VL_IO_CONNECT | VL_IO_TIMEOUT | VL_IO_CANCEL.

#[export] Instance vl_io_op_eq_dec : EqDecision vl_io_op.
Proof. solve_decision. Defined.

Inductive vl_io_backend := VL_IO_BACKEND_EPOLL | VL_IO_BACKEND_URING.

#[export] Instance vl_io_backend_eq_dec : EqDecision vl_io_backend.
Proof. solve_decision. Defined.

Definition VL_IO_EVENT_NONE : Z := 0.
Definition VL_IO_EVENT_READABLE : Z := 1.
Definition VL_IO_EVENT_WRITABLE : Z := 2.
Definition VL_IO_EVENT_EOF : Z := 4.
Definition VL_IO_EVENT_ERROR : Z := 8.

(** [address] and [address_len] of a connect, and [timeout_ns], which this backend refuses, are left out. *)
Record vl_io_request := mk_request {
  rq_op : vl_io_op;
  rq_fd : Z;
  rq_buf : option nat;
  rq_len : Z;
  rq_generation : Z;
  rq_task : option nat;
  rq_result : Z;
  rq_events : Z;
  rq_completed : bool }.

Definition set_rq_op (v : vl_io_op) (q : vl_io_request) : vl_io_request :=
  mk_request v (rq_fd q) (rq_buf q) (rq_len q) (rq_generation q) (rq_task q) (rq_result
    q) (rq_events q) (rq_completed q).
Definition set_rq_fd (v : Z) (q : vl_io_request) : vl_io_request :=
  mk_request (rq_op q) v (rq_buf q) (rq_len q) (rq_generation q) (rq_task q) (rq_result
    q) (rq_events q) (rq_completed q).
Definition set_rq_buf (v : option nat) (q : vl_io_request) : vl_io_request :=
  mk_request (rq_op q) (rq_fd q) v (rq_len q) (rq_generation q) (rq_task q) (rq_result
    q) (rq_events q) (rq_completed q).
Definition set_rq_len (v : Z) (q : vl_io_request) : vl_io_request :=
  mk_request (rq_op q) (rq_fd q) (rq_buf q) v (rq_generation q) (rq_task q) (rq_result
    q) (rq_events q) (rq_completed q).
Definition set_rq_generation (v : Z) (q : vl_io_request) : vl_io_request :=
  mk_request (rq_op q) (rq_fd q) (rq_buf q) (rq_len q) v (rq_task q) (rq_result q)
    (rq_events q) (rq_completed q).
Definition set_rq_task (v : option nat) (q : vl_io_request) : vl_io_request :=
  mk_request (rq_op q) (rq_fd q) (rq_buf q) (rq_len q) (rq_generation q) v (rq_result q)
    (rq_events q) (rq_completed q).
Definition set_rq_result (v : Z) (q : vl_io_request) : vl_io_request :=
  mk_request (rq_op q) (rq_fd q) (rq_buf q) (rq_len q) (rq_generation q) (rq_task q) v
    (rq_events q) (rq_completed q).
Definition set_rq_events (v : Z) (q : vl_io_request) : vl_io_request :=
  mk_request (rq_op q) (rq_fd q) (rq_buf q) (rq_len q) (rq_generation q) (rq_task q)
    (rq_result q) v (rq_completed q).
Definition set_rq_completed (v : bool) (q : vl_io_request) : vl_io_request :=
  mk_request (rq_op q) (rq_fd q) (rq_buf q) (rq_len q) (rq_generation q) (rq_task q)
    (rq_result q) (rq_events q) v.

Record vl_io_completion := mk_completion {
  c_request : option nat;
  c_result : Z;
  c_events : Z;
  c_generation : Z;
  c_task : option nat }.

Definition set_c_request (v : option nat) (c : vl_io_completion) : vl_io_completion :=
  mk_completion v (c_result c) (c_events c) (c_generation c) (c_task c).
Definition set_c_result (v : Z) (c : vl_io_completion) : vl_io_completion :=
  mk_completion (c_request c) v (c_events c) (c_generation c) (c_task c).
Definition set_c_events (v : Z) (c : vl_io_completion) : vl_io_completion :=
  mk_completion (c_request c) (c_result c) v (c_generation c) (c_task c).
Definition set_c_generation (v : Z) (c : vl_io_completion) : vl_io_completion :=
  mk_completion (c_request c) (c_result c) (c_events c) v (c_task c).
Definition set_c_task (v : option nat) (c : vl_io_completion) : vl_io_completion :=
  mk_completion (c_request c) (c_result c) (c_events c) (c_generation c) v.

Definition empty_completion : vl_io_completion := mk_completion None 0 0 0 None.

Record vl_io_waiter := mk_waiter { wt_addr : nat; wt_request : nat; wt_events : Z }.

#[export] Instance vl_io_waiter_eq_dec : EqDecision vl_io_waiter.
Proof. solve_decision. Defined.

Record vl_io_stats := mk_io_stats {
  io_submissions : Z;
  io_completions : Z;
  io_cancellations : Z }.

Definition set_io_submissions (v : Z) (c : vl_io_stats) : vl_io_stats :=
  mk_io_stats v (io_completions c) (io_cancellations c).
Definition set_io_completions (v : Z) (c : vl_io_stats) : vl_io_stats :=
  mk_io_stats (io_submissions c) v (io_cancellations c).
Definition set_io_cancellations (v : Z) (c : vl_io_stats) : vl_io_stats :=
  mk_io_stats (io_submissions c) (io_completions c) v.

Record vl_io_impl := mk_io_impl {
  epoll_fd : Z;
  io_owner : nat;
  io_backend : vl_io_backend;
  io_waiters : list vl_io_waiter;
  io_completed : list vl_io_completion;
  io_stats : vl_io_stats }.

Definition set_epoll_fd (v : Z) (i : vl_io_impl) : vl_io_impl :=
  mk_io_impl v (io_owner i) (io_backend i) (io_waiters i) (io_completed i) (io_stats i).
Definition set_io_owner (v : nat) (i : vl_io_impl) : vl_io_impl :=
  mk_io_impl (epoll_fd i) v (io_backend i) (io_waiters i) (io_completed i) (io_stats i).
Definition set_io_backend (v : vl_io_backend) (i : vl_io_impl) : vl_io_impl :=
  mk_io_impl (epoll_fd i) (io_owner i) v (io_waiters i) (io_completed i) (io_stats i).
Definition set_io_waiters (v : list vl_io_waiter) (i : vl_io_impl) : vl_io_impl :=
  mk_io_impl (epoll_fd i) (io_owner i) (io_backend i) v (io_completed i) (io_stats i).
Definition set_io_completed (v : list vl_io_completion) (i : vl_io_impl) : vl_io_impl :=
  mk_io_impl (epoll_fd i) (io_owner i) (io_backend i) (io_waiters i) v (io_stats i).
Definition set_io_stats (v : vl_io_stats) (i : vl_io_impl) : vl_io_impl :=
  mk_io_impl (epoll_fd i) (io_owner i) (io_backend i) (io_waiters i) (io_completed i) v.

Record io_world := mk_io_world {
  iw_sockets : sockets;
  iw_requests : gmap nat vl_io_request;
  iw_impls : gmap nat vl_io_impl;
  iw_mem : gmap nat (list Z);
  iw_sent : list (Z * list Z);
  iw_next : nat }.

Definition set_iw_sockets (v : sockets) (w : io_world) : io_world :=
  mk_io_world v (iw_requests w) (iw_impls w) (iw_mem w) (iw_sent w) (iw_next w).
Definition set_iw_requests (v : gmap nat vl_io_request) (w : io_world) : io_world :=
  mk_io_world (iw_sockets w) v (iw_impls w) (iw_mem w) (iw_sent w) (iw_next w).
Definition set_iw_impls (v : gmap nat vl_io_impl) (w : io_world) : io_world :=
  mk_io_world (iw_sockets w) (iw_requests w) v (iw_mem w) (iw_sent w) (iw_next w).
Definition set_iw_mem (v : gmap nat (list Z)) (w : io_world) : io_world :=
  mk_io_world (iw_sockets w) (iw_requests w) (iw_impls w) v (iw_sent w) (iw_next w).
Definition set_iw_sent (v : list (Z * list Z)) (w : io_world) : io_world :=
  mk_io_world (iw_sockets w) (iw_requests w) (iw_impls w) (iw_mem w) v (iw_next w).
Definition set_iw_next (v : nat) (w : io_world) : io_world :=
  mk_io_world (iw_sockets w) (iw_requests w) (iw_impls w) (iw_mem w) (iw_sent w) v.

Notation I := (C io_world).

(** ** Accesses *)

Definition load_request (r : nat) : I vl_io_request := deref (fun w => iw_requests w !! r).
Definition upd_request (r : nat) (f : vl_io_request -> vl_io_request) : I unit := fun w =>
  match iw_requests w !! r with
  | Some q => Some (tt, set_iw_requests (<[r := f q]> (iw_requests w)) w)
  | None => None
  end.
Definition load_impl (i : nat) : I vl_io_impl := deref (fun w => iw_impls w !! i).
Definition upd_impl (i : nat) (f : vl_io_impl -> vl_io_impl) : I unit := fun w =>
  match iw_impls w !! i with
  | Some x => Some (tt, set_iw_impls (<[i := f x]> (iw_impls w)) w)
  | None => None
  end.

(** A registry operation or a system call of socket.c. *)
Definition on_sockets {A} (m : N A) : I A := fun w =>
  match m (iw_sockets w) with
  | Some (a, n) => Some (a, set_iw_sockets n w)
  | None => None
  end.

(** ** epoll *)

Definition EPOLLIN : Z := 1.
Definition EPOLLOUT : Z := 4.
Definition EPOLLERR : Z := 8.
Definition EPOLLHUP : Z := 16.
Definition EPOLLRDHUP : Z := 8192.
Definition EBADF : Z := 9.
Definition EAGAIN : Z := 11.
Definition EEXIST : Z := 17.
Definition EINTR : Z := 4.
Definition EMFILE : Z := 24.
Definition ESTALE : Z := 116.
Definition ECANCELED : Z := 125.

(** [epoll_ctl(epfd, EPOLL_CTL_ADD, fd, ...)] with [data.ptr = addr]: [None] is success, otherwise errno;
    [failure] is an error the kernel may report for its own reasons. *)
Definition epoll_ctl_add (epfd fd : Z) (addr : nat) (failure : option Z) : N (option Z) := fun n =>
  if decide (fd ∉ open_fds (sock_os n)) then Some (Some EBADF, n)
  else if decide (is_Some (interest (sock_os n) !! (epfd, fd))) then Some (Some EEXIST, n)
  else match failure with
       | Some e => Some (Some e, n)
       | None => Some (None, set_os (mk_os (open_fds (sock_os n)) (<[(epfd, fd) := addr]> (interest (sock_os n)))) n)
       end.

Definition epoll_ctl_del (epfd fd : Z) : N unit :=
  modify (fun n => set_os (mk_os (open_fds (sock_os n)) (delete (epfd, fd) (interest (sock_os n)))) n).

(** ** Waiters *)

Fixpoint find_waiter (fd : Z) (l : list vl_io_waiter) : I (option vl_io_waiter) :=
  match l with
  | [] => mret None
  | x :: l => q ← load_request (wt_request x); if rq_fd q =? fd then mret (Some x) else find_waiter fd l
  end.

Definition vl_find_waiter (impl : nat) (fd : Z) : I (option vl_io_waiter) :=
  i ← load_impl impl; find_waiter fd (io_waiters i).

Definition vl_find_request (impl request : nat) : I (option vl_io_waiter) :=
  i ← load_impl impl; mret (list_find (fun x => wt_request x = request) (io_waiters i) ≫= fun found => Some found.2).

Definition vl_remove_waiter (impl : nat) (target : vl_io_waiter) : I unit :=
  upd_impl impl (fun i => set_io_waiters (filter (fun x => wt_addr x <> wt_addr target) (io_waiters i)) i).

Definition vl_delete_waiter (impl : nat) (waiter : vl_io_waiter) : I unit :=
  i ← load_impl impl;
  q ← load_request (wt_request waiter);
  _ ← on_sockets (epoll_ctl_del (epoll_fd i) (rq_fd q));
  _ ← vl_remove_waiter impl waiter;
  on_sockets (vl_socket_release (rq_fd q) (rq_generation q)).

Definition vl_queue_completion (malloc : bool) (impl : nat) (completion : vl_io_completion) : I vl_status :=
  if negb malloc then mret VL_ERROR_OUT_OF_MEMORY else
  _ ← upd_impl impl (fun i => set_io_completed (io_completed i ++ [completion]) i);
  mret VL_OK.

(** [None] is VL_ERROR_WOULD_BLOCK. *)
Definition vl_pop_completion (impl : nat) : I (option vl_io_completion) :=
  i ← load_impl impl;
  match io_completed i with
  | [] => mret None
  | c :: l => _ ← upd_impl impl (set_io_completed l); mret (Some c)
  end.

(** [None] is VL_ERROR_UNSUPPORTED. *)
Definition vl_request_events (op : vl_io_op) : option Z :=
  match op with
  | VL_IO_ACCEPT | VL_IO_RECV => Some EPOLLIN
  | VL_IO_SEND | VL_IO_CONNECT => Some EPOLLOUT
  | _ => None
  end.

(** [epoll_create1] returned [fd]. *)
Definition vl_epoll_backend_init (impl : nat) (fd : Z) : I vl_status :=
  _ ← upd_impl impl (set_epoll_fd fd);
  mret (if 0 <=? fd then VL_OK else VL_ERROR_SYSTEM).

Fixpoint release_waiters (l : list vl_io_waiter) : I unit :=
  match l with
  | [] => mret tt
  | x :: l =>
      q ← load_request (wt_request x);
      _ ← on_sockets (vl_socket_release (rq_fd q) (rq_generation q));
      release_waiters l
  end.

(** Closing the epoll descriptor drops its interest list. *)
Definition close_epoll (epfd : Z) : N unit :=
  modify (fun n => set_os (mk_os (open_fds (sock_os n)) (filter (fun e => e.1.1 <> epfd) (interest (sock_os n)))) n).

Definition vl_epoll_backend_destroy (impl : nat) : I unit :=
  i ← load_impl impl;
  _ ← release_waiters (io_waiters i);
  _ ← (if 0 <=? epoll_fd i then on_sockets (close_epoll (epoll_fd i)) else mret tt);
  upd_impl impl (fun i => set_epoll_fd (-1) (set_io_waiters [] (set_io_completed [] i))).

(** The first checks of [vl_epoll_backend_submit], up to the claim. *)
Definition submit_checks (impl request : nat) : I (vl_status + Z) :=
  q ← load_request request;
  if rq_fd q <? 0 then mret (inl VL_ERROR_INVALID_ARGUMENT) else
  match vl_request_events (rq_op q) with
  | None => mret (inl VL_ERROR_UNSUPPORTED)
  | Some events =>
      if bool_decide (rq_op q = VL_IO_RECV \/ rq_op q = VL_IO_SEND) && bool_decide (rq_buf q = None) && negb (rq_len q =? 0)
      then mret (inl VL_ERROR_INVALID_ARGUMENT) else
      x ← vl_find_request impl request;
      y ← (if bool_decide (x <> None) then mret x else vl_find_waiter impl (rq_fd q));
      if bool_decide (y <> None) then mret (inl VL_ERROR_INVALID_STATE) else
      generation ← on_sockets (vl_socket_generation (rq_fd q));
      tracked ← on_sockets (vl_socket_is_tracked (rq_fd q));
      if negb tracked || (generation =? 0) then mret (inl VL_ERROR_INVALID_STATE) else
      if negb (rq_generation q =? 0) && negb (generation =? rq_generation q) then mret (inl VL_ERROR_INVALID_STATE) else
      _ ← (if rq_generation q =? 0 then upd_request request (set_rq_generation generation) else mret tt);
      mret (inr events)
  end.

(** The rest: the claim, the waiter and its registration.  [calloc] and [failure] are what the
    allocator and [epoll_ctl] answer. *)
Definition submit_register (calloc : bool) (failure : option Z) (impl request : nat) (events : Z) : I vl_status :=
  q ← load_request request;
  claimed ← on_sockets (vl_socket_claim (rq_fd q) (rq_generation q));
  if bool_decide (claimed <> VL_OK) then mret VL_ERROR_INVALID_STATE else
  if negb calloc then
    _ ← on_sockets (vl_socket_release (rq_fd q) (rq_generation q)); mret VL_ERROR_OUT_OF_MEMORY
  else
  addr ← gets iw_next;
  _ ← modify (set_iw_next (S addr));
  i ← load_impl impl;
  e ← on_sockets (epoll_ctl_add (epoll_fd i) (rq_fd q) addr failure);
  match e with
  | Some errno =>
      _ ← on_sockets (vl_socket_release (rq_fd q) (rq_generation q));
      mret (if errno =? EBADF then VL_ERROR_INVALID_STATE else VL_ERROR_SYSTEM)
  | None =>
      _ ← upd_impl impl (fun i => set_io_waiters (mk_waiter addr request events :: io_waiters i) i);
      mret VL_OK
  end.

Definition vl_epoll_backend_submit (calloc : bool) (failure : option Z) (impl request : nat) : I vl_status :=
  c ← submit_checks impl request;
  match c with
  | inl st => mret st
  | inr events => submit_register calloc failure impl request events
  end.

Definition vl_epoll_backend_cancel (malloc : bool) (impl request : nat) : I vl_status :=
  found ← vl_find_request impl request;
  match found with
  | None => mret VL_ERROR_INVALID_STATE
  | Some waiter =>
      q ← load_request request;
      st ← vl_queue_completion malloc impl (mk_completion (Some request) (- ECANCELED) 0 (rq_generation q) (rq_task q));
      if bool_decide (st <> VL_OK) then mret VL_ERROR_OUT_OF_MEMORY else
      _ ← vl_delete_waiter impl waiter;
      mret VL_OK
  end.

(** ** Deadlines

    A timespec is seconds and nanoseconds; C division truncates. *)

Definition INT64_MAX : Z := 9223372036854775807.

Definition vl_remaining_timeout (deadline : Z * Z) (timeout_ms : Z) (now : option (Z * Z)) : Z :=
  if timeout_ms <? 0 then -1 else
  match now with
  | None => timeout_ms
  | Some now =>
      let ms := (deadline.1 - now.1) * 1000 + Z.quot (deadline.2 - now.2) 1000000 in
      if ms <=? 0 then 0 else if INT_MAX <? ms then INT_MAX else ms
  end.

(** [None] is VL_ERROR_SYSTEM; the deadline is not set for a negative timeout. *)
Definition vl_make_deadline (timeout_ms : Z) (now : option (Z * Z)) : option (option (Z * Z)) :=
  if timeout_ms <? 0 then Some None else
  match now with
  | None => None
  | Some (sec, nsec) =>
      let sec := sec + Z.quot timeout_ms 1000 in
      let nsec := nsec + Z.rem timeout_ms 1000 * 1000000 in
      Some (Some (if 1000000000 <=? nsec then (sec + 1, nsec - 1000000000) else (sec, nsec)))
  end.

(** ** Polling *)

(** [vl_socket_request_is_stale] of a request. *)
Definition request_is_stale (request : nat) : I bool :=
  q ← load_request request;
  if decide (rq_op q = VL_IO_TIMEOUT) then mret false
  else on_sockets (vl_socket_request_is_stale (rq_fd q) (rq_generation q)).

Definition vl_complete_stale_waiter (impl : nat) (waiter : vl_io_waiter) : I (option vl_io_completion) :=
  stale ← request_is_stale (wt_request waiter);
  if negb stale then mret None else
  q ← load_request (wt_request waiter);
  _ ← vl_delete_waiter impl waiter;
  mret (Some (mk_completion (Some (wt_request waiter)) (- ESTALE) 0 (rq_generation q) (rq_task q))).

Fixpoint scan_stale (impl : nat) (l : list vl_io_waiter) : I (option vl_io_completion) :=
  match l with
  | [] => mret None
  | x :: l =>
      c ← vl_complete_stale_waiter impl x;
      match c with
      | Some c => mret (Some c)
      | None => scan_stale impl l
      end
  end.

(** [None] is VL_ERROR_WOULD_BLOCK. *)
Definition vl_scan_stale_waiters (impl : nat) : I (option vl_io_completion) :=
  i ← load_impl impl; scan_stale impl (io_waiters i).

(** What the kernel answers to the call of one ready operation: the errno, or the accepted
    descriptor, the bytes received, the number of bytes it can take, the socket error.  *)
Record ready_call := mk_ready_call {
  rc_errno : option Z;
  rc_fd : Z;
  rc_data : list Z;
  rc_room : Z;
  rc_so_error : Z;
  rc_calloc : bool }.

(** [accept4] and [vl_socket_track]: the result to complete with, [None] to keep waiting. *)
Definition ready_accept (k : ready_call) : I (option Z) :=
  match rc_errno k with
  | Some e => mret (if e =? EAGAIN then None else Some (- e))
  | None =>
      fd ← on_sockets (os_open (rc_fd k));
      st ← on_sockets (vl_socket_track (rc_calloc k) fd);
      if bool_decide (st = VL_OK) then mret (Some fd) else
      _ ← on_sockets (os_close 0 fd);
      mret (Some (- EMFILE))
  end.

(** [recv] fills the front of the buffer with at most [len] bytes. *)
Definition ready_recv (k : ready_call) (q : vl_io_request) : I (option Z) :=
  match rc_errno k with
  | Some e => mret (if e =? EAGAIN then None else Some (- e))
  | None =>
      let data := take (Z.to_nat (rq_len q)) (rc_data k) in
      match rq_buf q with
      | None => mret (Some 0)
      | Some b =>
          old ← deref (fun w => iw_mem w !! b);
          if (length old <? length data)%nat then ub else
          _ ← modify (fun w => set_iw_mem (<[b := data ++ drop (length data) old]> (iw_mem w)) w);
          mret (Some (Z.of_nat (length data)))
      end
  end.

(** [send] takes some of the first [len] bytes of the buffer. *)
Definition ready_send (k : ready_call) (q : vl_io_request) : I (option Z) :=
  match rc_errno k with
  | Some e => mret (if e =? EAGAIN then None else Some (- e))
  | None =>
      match rq_buf q with
      | None => mret (Some 0)
      | Some b =>
          data ← deref (fun w => iw_mem w !! b);
          if (length data <? Z.to_nat (rq_len q))%nat then ub else
          let part := take (Z.to_nat (rc_room k)) (take (Z.to_nat (rq_len q)) data) in
          _ ← modify (fun w => set_iw_sent (iw_sent w ++ [(rq_fd q, part)]) w);
          mret (Some (Z.of_nat (length part)))
      end
  end.

Definition ready_connect (k : ready_call) : I (option Z) :=
  match rc_errno k with
  | Some e => mret (Some (- e))
  | None => mret (Some (if rc_so_error k =? 0 then 0 else - rc_so_error k))
  end.

Definition has (flags bit : Z) : bool := negb (Z.land flags bit =? 0).

(** The event word of a completion. *)
Definition ready_events (flags : Z) (op : vl_io_op) (result : Z) : Z :=
  let ev := VL_IO_EVENT_NONE in
  let ev := if has flags EPOLLIN then Z.lor ev VL_IO_EVENT_READABLE else ev in
  let ev := if has flags EPOLLOUT then Z.lor ev VL_IO_EVENT_WRITABLE else ev in
  let ev := if has flags (Z.lor EPOLLHUP EPOLLRDHUP) || (bool_decide (op = VL_IO_RECV) && (result =? 0))
            then Z.lor ev VL_IO_EVENT_EOF else ev in
  if has flags EPOLLERR || (result <? 0) then Z.lor ev VL_IO_EVENT_ERROR else ev.

(** The call of a ready operation that is not stale. *)
Definition ready_run (k : ready_call) (q : vl_io_request) : I (vl_status + Z) :=
  match rq_op q with
  | VL_IO_ACCEPT => x ← ready_accept k; mret (match x with Some v => inr v | None => inl VL_ERROR_WOULD_BLOCK end)
  | VL_IO_RECV => x ← ready_recv k q; mret (match x with Some v => inr v | None => inl VL_ERROR_WOULD_BLOCK end)
  | VL_IO_SEND => x ← ready_send k q; mret (match x with Some v => inr v | None => inl VL_ERROR_WOULD_BLOCK end)
  | VL_IO_CONNECT => x ← ready_connect k; mret (match x with Some v => inr v | None => inl VL_ERROR_WOULD_BLOCK end)
  | _ => mret (inl VL_ERROR_UNSUPPORTED)
  end.

(** [inl]: the status to return, [inr]: VL_OK with the completion.  The waiter is the block at the
    address epoll reported. *)
Definition vl_execute_ready (k : ready_call) (impl : nat) (addr : nat) (flags : Z) : I (vl_status + vl_io_completion) :=
  i ← load_impl impl;
  match list_find (fun x => wt_addr x = addr) (io_waiters i) with
  | None => ub
  | Some (_, waiter) =>
      q ← load_request (wt_request waiter);
      stale ← request_is_stale (wt_request waiter);
      r ← (if stale : bool then mret (inr (- ESTALE)) else ready_run k q);
      match r with
      | inl st => mret (inl st)
      | inr result =>
          _ ← vl_delete_waiter impl waiter;
          mret (inr (mk_completion (Some (wt_request waiter)) result (ready_events flags (rq_op q) result)
                       (rq_generation q) (rq_task q)))
      end
  end.

(** One [epoll_wait]: nothing, an error, or the readiness of a descriptor. *)
Inductive wait_outcome := Wait_none | Wait_error (errno : Z) | Wait_ready (fd flags : Z).

(** What happens in one round of the loop: the registry operations of other threads while the call
    blocks, the clock before it, its outcome, and the answers to the operation that became ready. *)
Record poll_round := mk_round {
  pr_now : option (Z * Z);
  pr_others : list sock_op;
  pr_wait : wait_outcome;
  pr_call : ready_call }.

(** The loop; [None] when the rounds are used up and the call is still blocked. *)
Fixpoint poll_loop (rounds : list poll_round) (impl : nat) (deadline : option (Z * Z)) (timeout_ms : Z)
    : I (option (vl_status * vl_io_completion)) :=
  match rounds with
  | [] => mret None
  | r :: rounds =>
      s ← vl_scan_stale_waiters impl;
      match s with
      | Some c => mret (Some (VL_OK, c))
      | None =>
          let wait_timeout := vl_remaining_timeout (default (0, 0) deadline) timeout_ms (pr_now r) in
          _ ← on_sockets (run_socks (pr_others r));
          i ← load_impl impl;
          n ← gets iw_sockets;
          let stop st := mret (Some (st, empty_completion)) in
          match pr_wait r with
          | Wait_none => stop VL_ERROR_WOULD_BLOCK
          | Wait_error e =>
              if e =? EINTR then
                if wait_timeout =? 0 then stop VL_ERROR_WOULD_BLOCK else poll_loop rounds impl deadline timeout_ms
              else stop VL_ERROR_SYSTEM
          | Wait_ready fd flags =>
              match interest (sock_os n) !! (epoll_fd i, fd) with
              | None => stop VL_ERROR_WOULD_BLOCK
              | Some addr =>
                  x ← vl_execute_ready (pr_call r) impl addr flags;
                  match x with
                  | inr c => mret (Some (VL_OK, c))
                  | inl st =>
                      if bool_decide (st = VL_ERROR_UNSUPPORTED) then stop st
                      else if timeout_ms =? 0 then stop VL_ERROR_WOULD_BLOCK
                      else poll_loop rounds impl deadline timeout_ms
                  end
              end
          end
      end
  end.

Definition vl_epoll_backend_poll (now : option (Z * Z)) (rounds : list poll_round) (impl : nat) (timeout_ms : Z)
    : I (option (vl_status * vl_io_completion)) :=
  c ← vl_pop_completion impl;
  match c with
  | Some c => mret (Some (VL_OK, c))
  | None =>
      match vl_make_deadline timeout_ms now with
      | None => mret (Some (VL_ERROR_SYSTEM, empty_completion))
      | Some deadline => poll_loop rounds impl deadline timeout_ms
      end
  end.
