(* ===== verification/EpollInv.v ===== *)
(** * The invariant of the epoll backend

    [io_ok] ties the handles' waiters, the callers' requests, the registry's claims
    and the kernel's interest lists together; every operation of the backend
    preserves it and says what it did to the pending requests. *)

From S2P Require Import Prelude Socket SocketProps Epoll.
From stdpp Require Import options.

Open Scope Z_scope.

(** The claim of a request is held. *)
Definition holds (n : sockets) (q : vl_io_request) : Prop :=
  0 <= rq_fd q /\ rq_generation q <> 0 /\ exists s, slot_of n (rq_fd q) = Some s /\ s_pending s = rq_generation q.

(** The caller's buffer is as long as the request says. *)
Definition buffer_ok (w : io_world) (q : vl_io_request) : Prop :=
  rq_op q = VL_IO_RECV \/ rq_op q = VL_IO_SEND ->
  forall b, rq_buf q = Some b -> exists d, iw_mem w !! b = Some d /\ rq_len q <= Z.of_nat (length d).

Definition waits (w : io_world) (h : nat) (x : vl_io_waiter) (q : vl_io_request) : Prop :=
  exists i, iw_impls w !! h = Some i /\ x ∈ io_waiters i /\ iw_requests w !! wt_request x = Some q.

Record io_ok (w : io_world) : Prop := {
  ok_slots : slots_ok (iw_sockets w);
  ok_live : forall h i x, iw_impls w !! h = Some i -> x ∈ io_waiters i ->
    exists q, iw_requests w !! wt_request x = Some q /\ holds (iw_sockets w) q /\ buffer_ok w q /\
      vl_request_events (rq_op q) <> None /\ (wt_addr x < iw_next w)%nat;
  ok_addr : forall h i, iw_impls w !! h = Some i -> NoDup (wt_addr <$> io_waiters i);
  ok_fd : forall h1 x1 q1 h2 x2 q2, waits w h1 x1 q1 -> waits w h2 x2 q2 -> rq_fd q1 = rq_fd q2 -> h1 = h2 /\ x1 = x2;
  ok_interest : forall h i fd a, iw_impls w !! h = Some i -> interest (sock_os (iw_sockets w)) !! (epoll_fd i, fd) = Some a ->
    exists x q, x ∈ io_waiters i /\ wt_addr x = a /\ iw_requests w !! wt_request x = Some q /\ rq_fd q = fd;
  ok_epfd : forall h1 i1 h2 i2, iw_impls w !! h1 = Some i1 -> iw_impls w !! h2 = Some i2 -> epoll_fd i1 = epoll_fd i2 -> h1 = h2;
  ok_queue : forall h i c, iw_impls w !! h = Some i -> c ∈ io_completed i ->
    exists r, c_request c = Some r /\ is_Some (iw_requests w !! r) }.

(** ** Registry operations *)

Lemma on_sockets_run {A} (m : N A) w a n : m (iw_sockets w) = Some (a, n) -> on_sockets m w = Some (a, set_iw_sockets n w).
Proof. intros E. unfold on_sockets. by rewrite E. Qed.

(** The registry moved on without releasing a claim of a waiter. *)
Lemma io_ok_evolve rel w n : evolve rel (iw_sockets w) n -> io_ok w ->
  (forall h x q, waits w h x q -> (rq_fd q, rq_generation q) ∉ rel) -> io_ok (set_iw_sockets n w).
Proof.
  intros [Hi He] Hok Hrel. destruct (He (ok_slots _ Hok)) as [Hs' Hmv]. destruct Hok as [Hsl Hlive Haddr Hfd Hint Hep Hqu].
  constructor; simpl; [done| |done|done| |done|done].
  - intros h i x Hh Hx. destruct (Hlive h i x Hh Hx) as (q & Hq & (H0 & Hg & s & Hs & Hp) & Hrest). exists q. split; [done|].
    split; [|done]. split; [done|]. split; [done|]. destruct (Hmv _ _ Hs) as (s' & Hs2 & _ & Hp'). exists s'. split; [done|].
    rewrite Hp', Hp; [done|congruence|]. rewrite Hp. apply (Hrel h x q). by exists i.
  - intros h i fd a Hh Ha. apply (Hint h i fd a Hh). by eapply lookup_weaken.
Qed.

(** ** Deleting a waiter *)

Definition drop_waiter (x : vl_io_waiter) (i : vl_io_impl) : vl_io_impl :=
  set_io_waiters (filter (fun y => wt_addr y <> wt_addr x) (io_waiters i)) i.

Lemma drop_waiter_perm x i : x ∈ io_waiters i -> NoDup (wt_addr <$> io_waiters i) ->
  io_waiters i ≡ₚ x :: io_waiters (drop_waiter x i).
Proof.
  unfold drop_waiter. simpl. generalize (io_waiters i). induction l as [|y l IH]; intros Hx Hnd; [set_solver|].
  rewrite fmap_cons in Hnd. apply list.NoDup_cons in Hnd as [Hy Hnd]. rewrite filter_cons.
  destruct (decide (x = y)) as [->|Hne].
  - rewrite decide_False by auto. f_equiv. rewrite filter_all; [done|]. apply list.Forall_forall. intros z Hz E.
    apply Hy. rewrite <- E. by apply list_elem_of_fmap_2.
  - apply elem_of_cons in Hx as [?|Hx]; [done|]. rewrite decide_True; [|intros E; apply Hy; rewrite E; by apply list_elem_of_fmap_2].
    rewrite (IH Hx Hnd) at 1. apply Permutation_swap.
Qed.

Lemma elem_drop_waiter x y i : y ∈ io_waiters (drop_waiter x i) <-> y ∈ io_waiters i /\ wt_addr y <> wt_addr x.
Proof. unfold drop_waiter. simpl. rewrite list_elem_of_filter. tauto. Qed.

(** Everything but the waiters of [h] and the registry is as before. *)
Record deleted (h : nat) (x : vl_io_waiter) (i : vl_io_impl) (w w' : io_world) : Prop := {
  del_impls : iw_impls w' = <[h := drop_waiter x i]> (iw_impls w);
  del_requests : iw_requests w' = iw_requests w;
  del_mem : iw_mem w' = iw_mem w;
  del_sent : iw_sent w' = iw_sent w;
  del_next : iw_next w' = iw_next w;
  del_open : open_fds (sock_os (iw_sockets w')) = open_fds (sock_os (iw_sockets w)) }.

Lemma delete_waiter_spec h x i q w : io_ok w -> iw_impls w !! h = Some i -> x ∈ io_waiters i ->
  iw_requests w !! wt_request x = Some q ->
  exists w', vl_delete_waiter h x w = Some (tt, w') /\ io_ok w' /\ deleted h x i w w' /\
    (exists s, slot_of (iw_sockets w') (rq_fd q) = Some s /\ s_pending s = 0) /\
    (forall fd, fd <> rq_fd q -> slot_of (iw_sockets w') fd = slot_of (iw_sockets w) fd).
Proof.
  intros Hok Hh Hx Hq. destruct (ok_live _ Hok h i x Hh Hx) as (q2 & Hq2 & (H0 & Hg & s & Hs & Hp) & _). rewrite Hq in Hq2. injection Hq2 as <-.
  unfold vl_delete_waiter. erewrite bind_Some by (unfold load_impl, deref; rewrite Hh; reflexivity).
  erewrite bind_Some by (unfold load_request, deref; rewrite Hq; reflexivity).
  erewrite bind_Some by (apply on_sockets_run; reflexivity). set (n1 := set_os _ _).
  erewrite bind_Some by (unfold vl_remove_waiter, upd_impl; cbn [iw_impls set_iw_sockets]; rewrite Hh; reflexivity).
  destruct (release_spec (rq_fd q) (rq_generation q) n1) as (n2 & E2 & Hos & Hfr & Hc).
  erewrite on_sockets_run by exact E2. eexists. split; [reflexivity|]. fold (drop_waiter x i).
  assert (Hs2 : slot_of n2 (rq_fd q) = Some (mk_slot (rq_fd q) (s_generation s) 0 (s_active s))).
  { destruct Hc as [[_ Hno]|(g' & a & Hs1 & Hs2)]; [by destruct (Hno s)|]. rewrite Hs2. change (slot_of n1 (rq_fd q)) with (slot_of (iw_sockets w) (rq_fd q)) in Hs1.
    rewrite Hs in Hs1. injection Hs1 as ->. done. }
  assert (Hother : forall h' i' x' q', (<[h := drop_waiter x i]> (iw_impls w)) !! h' = Some i' -> x' ∈ io_waiters i' ->
    iw_requests w !! wt_request x' = Some q' -> waits w h' x' q' /\ rq_fd q' <> rq_fd q).
  { intros h' i' x' q' Hh' Hx' Hq'. assert (Hw : waits w h' x' q' /\ ~ (h' = h /\ x' = x)).
    { rewrite lookup_insert in Hh'. case_decide; simplify_eq.
      - apply elem_drop_waiter in Hx' as [Hx' Hne]. split; [by exists i|]. by intros [_ ->].
      - split; [by exists i'|by intros [-> _]]. }
    destruct Hw as [Hw Hne]. split; [done|]. intros E. apply Hne. apply (ok_fd _ Hok h' x' q' h x q Hw); [by exists i|done]. }
  split; [|split; [constructor; simpl; by rewrite ?Hos|split; [exists (mk_slot (rq_fd q) (s_generation s) 0 (s_active s)); done|]]].
  2: { intros fd Hne. apply (Hfr fd Hne). }
  constructor; simpl.
  - intros fd s' Hs'. destruct (decide (fd = rq_fd q)) as [->|Hne]; [|rewrite Hfr in Hs' by done; by apply (ok_slots _ Hok fd)].
    rewrite Hs2 in Hs'. injection Hs' as <-. exact (ok_slots _ Hok (rq_fd q) s Hs).
  - intros h' i' x' Hh' Hx'. assert (exists i0, iw_impls w !! h' = Some i0 /\ x' ∈ io_waiters i0) as (i0 & Hh0 & Hx0).
    { rewrite lookup_insert in Hh'. case_decide; simplify_eq; [|by eauto]. apply elem_drop_waiter in Hx' as [? _]. eauto. }
    destruct (ok_live _ Hok h' i0 x' Hh0 Hx0) as (q' & Hq' & (? & ? & s' & Hs' & Hp') & Hrest). exists q'. split; [done|]. split; [|done].
    split; [done|]. split; [done|]. exists s'. split; [|done]. rewrite Hfr; [done|]. by apply (Hother h' i' x').
  - intros h' i' Hh'. rewrite lookup_insert in Hh'. case_decide; simplify_eq; [|by apply (ok_addr _ Hok h')].
    assert (Hnd := ok_addr _ Hok _ i Hh). rewrite (drop_waiter_perm x i Hx Hnd) in Hnd. rewrite fmap_cons in Hnd. by apply list.NoDup_cons in Hnd as [_ ?].
  - intros h1 x1 q1 h2 x2 q2 (i1 & Hh1 & Hx1 & Hq1) (i2 & Hh2 & Hx2 & Hq2) E.
    apply (ok_fd _ Hok h1 x1 q1 h2 x2 q2); [by apply (Hother h1 i1)|by apply (Hother h2 i2)|done].
  - intros h' i' fd a Hh' Ha. rewrite Hos in Ha. unfold n1 in Ha. simpl in Ha. rewrite lookup_delete_Some in Ha. destruct Ha as [Hne Ha].
    rewrite lookup_insert in Hh'. case_decide; simplify_eq.
    + destruct (ok_interest _ Hok h' i fd a Hh Ha) as (y & qy & Hy & <- & Hqy & <-). exists y, qy. split; [|done].
      apply elem_drop_waiter. split; [done|]. intros E. apply Hne. f_equal. assert (y = x) as ->; [|congruence].
      eapply (NoDup_fmap_eq wt_addr (io_waiters i)); [by apply (ok_addr _ Hok h')|done|done|done].
    + by apply (ok_interest _ Hok h').
  - intros h1 i1 h2 i2 Hh1 Hh2. rewrite lookup_insert in Hh1, Hh2. repeat case_decide; simplify_eq; try done; intros E;
      (eapply (ok_epfd _ Hok); [done..|exact E]).
  - intros h' i' c Hh' Hin. rewrite lookup_insert in Hh'. case_decide; simplify_eq; by eapply (ok_queue _ Hok).
Qed.

(** ** Ready operations *)

(** Nothing but the registry, the buffers and the wire. *)
Definition kept (w w' : io_world) : Prop :=
  iw_impls w' = iw_impls w /\ iw_requests w' = iw_requests w /\ iw_next w' = iw_next w.

Lemma kept_refl w : kept w w.
Proof. done. Qed.

Lemma kept_trans w1 w2 w3 : kept w1 w2 -> kept w2 w3 -> kept w1 w3.
Proof. intros (?&?&?) (?&?&?). split_and!; congruence. Qed.

Lemma io_ok_mem w b d d' : io_ok w -> iw_mem w !! b = Some d -> length d' = length d ->
  io_ok (set_iw_mem (<[b := d']> (iw_mem w)) w).
Proof.
  intros [Hsl Hlive Haddr Hfd Hint Hep Hqu] Hb Hd. constructor; [exact Hsl| |exact Haddr|exact Hfd|exact Hint|exact Hep|exact Hqu].
  intros h i x Hh Hx. destruct (Hlive h i x Hh Hx) as (q & Hq & Hh2 & Hbuf & Hrest). exists q.
  split; [done|]. split; [done|]. split; [|done].
  intros Hop b' Hb'. destruct (Hbuf Hop b' Hb') as (d0 & Hd0 & Hlen). simpl. rewrite lookup_insert. case_decide; [|by eauto].
  simplify_eq. exists d'. rewrite Hd. eauto.
Qed.

Lemma io_ok_sent w l : io_ok w -> io_ok (set_iw_sent l w).
Proof. intros [Hsl Hlive Haddr Hfd Hint Hep Hqu]. by constructor. Qed.

Lemma steady_sockets {A} (m : N A) w : steady [] m -> io_ok w ->
  exists a n, on_sockets m w = Some (a, set_iw_sockets n w) /\ io_ok (set_iw_sockets n w) /\ m (iw_sockets w) = Some (a, n).
Proof.
  intros Hm Hok. destruct (Hm (iw_sockets w)) as (a & n & E & He). exists a, n. split; [by apply on_sockets_run|]. split; [|done].
  eapply io_ok_evolve; [exact He|done|]. intros. apply not_elem_of_nil.
Qed.

(** A computation that keeps the handles and the invariant. *)
Definition quiet {A} (w : io_world) (m : I A) : Prop := exists a w', m w = Some (a, w') /\ io_ok w' /\ kept w w'.

Lemma quiet_ret {A} w (a : A) : io_ok w -> quiet w (mret a).
Proof. intros Hok. by exists a, w. Qed.

Lemma quiet_sockets {A B} (m : N A) (f : A -> I B) w : steady [] m -> io_ok w ->
  (forall a n, io_ok (set_iw_sockets n w) -> quiet (set_iw_sockets n w) (f a)) -> quiet w (on_sockets m ≫= f).
Proof.
  intros Hm Hok Hf. destruct (steady_sockets m w Hm Hok) as (a & n & E & Hok' & _).
  destruct (Hf a n Hok') as (b & w2 & E2 & Hok2 & Hk). exists b, w2. rewrite (bind_Some _ _ _ _ _ E). split; [done|].
  split; [done|]. by destruct Hk as (?&?&?).
Qed.

Lemma quiet_accept k w : io_ok w -> quiet w (ready_accept k).
Proof.
  intros Hok. unfold ready_accept. destruct (rc_errno k); [by apply quiet_ret|].
  apply quiet_sockets; [apply steady_open|done|]. intros fd n Hok1.
  apply quiet_sockets; [apply steady_track|done|]. intros st n2 Hok2. case_match; [by apply quiet_ret|].
  apply quiet_sockets; [apply steady_close_os|done|]. intros. by apply quiet_ret.
Qed.

Lemma quiet_recv k q w : io_ok w -> buffer_ok w q -> rq_op q = VL_IO_RECV -> quiet w (ready_recv k q).
Proof.
  intros Hok Hb Hop. unfold ready_recv. destruct (rc_errno k); [by apply quiet_ret|]. cbn zeta.
  destruct (rq_buf q) as [b|] eqn:Eb; [|by apply quiet_ret]. destruct (Hb ltac:(by left) b Eb) as (d & Hd & Hl).
  exists (Some (Z.of_nat (length (take (Z.to_nat (rq_len q)) (rc_data k))))). eexists.
  rewrite (bind_Some _ _ w d w) by (unfold deref; by rewrite Hd).
  rewrite (proj2 (Nat.ltb_ge _ _)) by (rewrite length_take; lia). split; [reflexivity|]. split; [|done].
  eapply io_ok_mem; [done|exact Hd|]. rewrite length_app, length_drop, length_take. lia.
Qed.

Lemma quiet_send k q w : io_ok w -> buffer_ok w q -> rq_op q = VL_IO_SEND -> quiet w (ready_send k q).
Proof.
  intros Hok Hb Hop. unfold ready_send. destruct (rc_errno k); [by apply quiet_ret|].
  destruct (rq_buf q) as [b|] eqn:Eb; [|by apply quiet_ret]. destruct (Hb ltac:(by right) b Eb) as (d & Hd & Hl).
  eexists _, _. rewrite (bind_Some _ _ w d w) by (unfold deref; by rewrite Hd).
  rewrite (proj2 (Nat.ltb_ge _ _)) by lia. split; [reflexivity|]. split; [by apply io_ok_sent|done].
Qed.

Lemma quiet_connect k w : io_ok w -> quiet w (ready_connect k).
Proof. intros Hok. unfold ready_connect. destruct (rc_errno k); by apply quiet_ret. Qed.

(** ** Polling *)

Lemma set_sockets_id w : set_iw_sockets (iw_sockets w) w = w.
Proof. by destruct w. Qed.

Lemma stale_run n fd g : exists b, vl_socket_request_is_stale fd g n = Some (b, n).
Proof. unfold vl_socket_request_is_stale. destruct (fd <? 0); eexists; reflexivity. Qed.

Lemma request_is_stale_run r q w : iw_requests w !! r = Some q -> exists b, request_is_stale r w = Some (b, w).
Proof.
  intros Hq. unfold request_is_stale. rewrite (bind_Some _ _ w q w) by (unfold load_request, deref; by rewrite Hq).
  case_decide; [by eexists|]. destruct (stale_run (iw_sockets w) (rq_fd q) (rq_generation q)) as (b & E). exists b.
  rewrite (on_sockets_run _ _ _ _ E). by rewrite set_sockets_id.
Qed.

(** The completion [c] of one waiter of [h], which is gone and has released its claim. *)
Definition completes (h : nat) (w w' : io_world) (c : vl_io_completion) : Prop :=
  exists i x q, iw_impls w !! h = Some i /\ x ∈ io_waiters i /\ iw_requests w !! wt_request x = Some q /\
    c_request c = Some (wt_request x) /\ c_generation c = rq_generation q /\ c_task c = rq_task q /\
    iw_impls w' = <[h := drop_waiter x i]> (iw_impls w) /\ iw_requests w' = iw_requests w /\
    exists s, slot_of (iw_sockets w') (rq_fd q) = Some s /\ s_pending s = 0.

Lemma completes_kept h w w1 w2 c : kept w w1 -> completes h w1 w2 c -> completes h w w2 c.
Proof.
  intros (Hi & Hr & _) (i & x & q & Hh & Hx & Hq & Hc1 & Hc2 & Hc3 & Hi' & Hr' & Hs). rewrite Hi, Hr in *.
  exists i, x, q. by split_and!.
Qed.

Lemma completes_delete h x i q w w' c : io_ok w -> iw_impls w !! h = Some i -> x ∈ io_waiters i ->
  iw_requests w !! wt_request x = Some q -> c_request c = Some (wt_request x) -> c_generation c = rq_generation q ->
  c_task c = rq_task q -> vl_delete_waiter h x w = Some (tt, w') -> io_ok w' /\ completes h w w' c.
Proof.
  intros Hok Hh Hx Hq Hc1 Hc2 Hc3 E. destruct (delete_waiter_spec h x i q w Hok Hh Hx Hq) as (w2 & E2 & Hok2 & Hd & Hs & _).
  rewrite E in E2. injection E2 as <-. split; [done|]. exists i, x, q. destruct Hd. by split_and!.
Qed.

Lemma complete_stale_spec h x i w : io_ok w -> iw_impls w !! h = Some i -> x ∈ io_waiters i ->
  exists r w', vl_complete_stale_waiter h x w = Some (r, w') /\ io_ok w' /\
    match r with
    | None => w' = w
    | Some c => completes h w w' c /\ c_result c = - ESTALE
    end.
Proof.
  intros Hok Hh Hx. destruct (ok_live _ Hok h i x Hh Hx) as (q & Hq & _). unfold vl_complete_stale_waiter.
  destruct (request_is_stale_run _ _ _ Hq) as (b & E). rewrite (bind_Some _ _ _ _ _ E).
  destruct b; simpl; [|by exists None, w].
  erewrite bind_Some by (unfold load_request, deref; rewrite Hq; reflexivity).
  destruct (delete_waiter_spec h x i q w Hok Hh Hx Hq) as (w2 & E2 & _). rewrite (bind_Some _ _ _ _ _ E2).
  eexists (Some _), w2. split; [reflexivity|].
  destruct (completes_delete h x i q w w2 (mk_completion (Some (wt_request x)) (- ESTALE) 0 (rq_generation q) (rq_task q))
    Hok Hh Hx Hq eq_refl eq_refl eq_refl E2). done.
Qed.

Lemma scan_stale_spec h i l w : io_ok w -> iw_impls w !! h = Some i -> l ⊆ io_waiters i ->
  exists r w', scan_stale h l w = Some (r, w') /\ io_ok w' /\
    match r with
    | None => w' = w
    | Some c => completes h w w' c /\ c_result c = - ESTALE
    end.
Proof.
  intros Hok Hh. induction l as [|x l IH]; intros Hl; simpl; [by exists None, w|].
  destruct (complete_stale_spec h x i w Hok Hh ltac:(set_solver)) as (r & w1 & E & Hok1 & Hr). rewrite (bind_Some _ _ _ _ _ E).
  destruct r as [c|]; [by exists (Some c), w1|]. subst w1. apply IH. set_solver.
Qed.

Lemma ready_run_spec k q w : io_ok w -> buffer_ok w q -> vl_request_events (rq_op q) <> None ->
  exists r w', ready_run k q w = Some (r, w') /\ io_ok w' /\ kept w w' /\ (forall st, r = inl st -> st = VL_ERROR_WOULD_BLOCK).
Proof.
  intros Hok Hb Hev.
  assert (Hm : forall m : I (option Z), quiet w m -> exists r w',
    ((x ← m; mret (match x with Some v => inr v | None => inl VL_ERROR_WOULD_BLOCK end)) : I (vl_status + Z)) w = Some (r, w') /\
    io_ok w' /\ kept w w' /\ (forall st, r = inl st -> st = VL_ERROR_WOULD_BLOCK)).
  { intros m (a & w' & E & Hok' & Hk). eexists _, w'. rewrite (bind_Some _ _ _ _ _ E). split; [reflexivity|].
    split_and!; [done..|]. destruct a; naive_solver. }
  unfold ready_run. destruct (rq_op q) eqn:Eop; try done; apply Hm.
  - by apply quiet_accept. - by apply quiet_recv. - by apply quiet_send. - by apply quiet_connect.
Qed.

(** Executing the operation of the waiter the kernel reported. *)
Lemma execute_ready_spec k h i fd addr flags w : io_ok w -> iw_impls w !! h = Some i ->
  interest (sock_os (iw_sockets w)) !! (epoll_fd i, fd) = Some addr ->
  exists r w', vl_execute_ready k h addr flags w = Some (r, w') /\ io_ok w' /\
    match r with
    | inl st => st = VL_ERROR_WOULD_BLOCK /\ kept w w'
    | inr c => completes h w w' c
    end.
Proof.
  intros Hok Hh Ha. destruct (ok_interest _ Hok h i fd addr Hh Ha) as (x & q & Hx & Hxa & Hq & Hfd).
  destruct (ok_live _ Hok h i x Hh Hx) as (q' & Hq' & _ & Hb & Hev & _). rewrite Hq in Hq'. injection Hq' as <-.
  unfold vl_execute_ready. erewrite bind_Some by (unfold load_impl, deref; rewrite Hh; reflexivity).
  assert (exists j, list_find (fun y => wt_addr y = addr) (io_waiters i) = Some (j, x)) as (j & ->).
  { destruct (list_find_elem_of (fun y => wt_addr y = addr) (io_waiters i) x Hx Hxa) as ([j y] & E). exists j. rewrite E.
    apply list_find_Some in E as (Hy & Hya & _). do 2 f_equal.
    eapply (NoDup_fmap_eq wt_addr (io_waiters i)); [by apply (ok_addr _ Hok h)|by eapply list_elem_of_lookup_2|done|congruence]. }
  erewrite bind_Some by (unfold load_request, deref; rewrite Hq; reflexivity).
  destruct (request_is_stale_run _ _ _ Hq) as (b & Eb). rewrite (bind_Some _ _ _ _ _ Eb).
  assert (exists r w1, (if b then mret (inr (- ESTALE)) else ready_run k q) w = Some (r, w1) /\ io_ok w1 /\ kept w w1 /\
    (forall st, r = inl st -> st = VL_ERROR_WOULD_BLOCK)) as (r & w1 & E1 & Hok1 & Hk & Hr).
  { destruct b; [by eexists _, w; split; [reflexivity|]|by apply ready_run_spec]. }
  rewrite (bind_Some _ _ _ _ _ E1). destruct r as [st|v].
  - exists (inl st), w1. split_and!; [done..|by apply Hr|done].
  - destruct Hk as (Hki & Hkr & Hkn). rewrite <- Hki in Hh. rewrite <- Hkr in Hq.
    destruct (delete_waiter_spec h x i q w1 Hok1 Hh Hx Hq) as (w2 & E2 & _). rewrite (bind_Some _ _ _ _ _ E2).
    eexists (inr _), w2. split; [reflexivity|].
    destruct (completes_delete h x i q w1 w2 (mk_completion (Some (wt_request x)) v (ready_events flags (rq_op q) v)
      (rq_generation q) (rq_task q)) Hok1 Hh Hx Hq eq_refl eq_refl eq_refl E2) as [Hok2 Hc].
    split; [done|]. by eapply completes_kept.
Qed.

(** The other threads do not release the claims of the waiters. *)
Definition polite (w : io_world) (ops : list sock_op) : Prop :=
  forall h x q, waits w h x q -> O_release (rq_fd q) (rq_generation q) ∉ ops.

Lemma polite_kept w w' ops : kept w w' -> polite w ops -> polite w' ops.
Proof. intros (Hi & Hr & _) Hp h x q (i & Hh & Hx & Hq). rewrite Hi, Hr in *. apply (Hp h x q). by exists i. Qed.

Lemma others_spec ops w : io_ok w -> polite w ops ->
  exists n, on_sockets (run_socks ops) w = Some (tt, set_iw_sockets n w) /\ io_ok (set_iw_sockets n w).
Proof.
  intros Hok Hp. destruct (history_evolves ops (iw_sockets w)) as (n & E & He). exists n. split; [by apply on_sockets_run|].
  eapply io_ok_evolve; [exact He|done|]. intros h x q Hw. rewrite released_in_spec. by apply (Hp h x q).
Qed.

(** What a poll answers: a completion, an error that changed no handle, or it is still blocked. *)
Definition poll_result (done_ : io_world -> vl_io_completion -> Prop) (w : io_world)
    (r : option (vl_status * vl_io_completion)) (w' : io_world) : Prop :=
  match r with
  | Some (st, c) => st = VL_OK /\ done_ w' c \/ (st = VL_ERROR_WOULD_BLOCK \/ st = VL_ERROR_SYSTEM) /\ c = empty_completion /\ kept w w'
  | None => kept w w'
  end.

Lemma poll_loop_spec rounds h deadline timeout w : io_ok w -> is_Some (iw_impls w !! h) ->
  (forall r, r ∈ rounds -> polite w (pr_others r)) ->
  exists r w', poll_loop rounds h deadline timeout w = Some (r, w') /\ io_ok w' /\
    poll_result (fun w' c => completes h w w' c) w r w'.
Proof.
  revert w. induction rounds as [|r rounds IH]; intros w Hok [i Hh] Hp; [by exists None, w|]. cbn [poll_loop].
  assert (Hsc : exists s w1, vl_scan_stale_waiters h w = Some (s, w1) /\ io_ok w1 /\
    match s with None => w1 = w | Some c => completes h w w1 c /\ c_result c = - ESTALE end).
  { unfold vl_scan_stale_waiters. erewrite bind_Some by (unfold load_impl, deref; rewrite Hh; reflexivity). by apply (scan_stale_spec h i). }
  destruct Hsc as (s & w1 & E1 & Hok1 & Hs). rewrite (bind_Some _ _ _ _ _ E1).
  destruct s as [c|]; [eexists _, w1; split; [reflexivity|]; split; [done|]; left; by destruct Hs|]. subst w1. cbn zeta.
  destruct (others_spec (pr_others r) w Hok) as (n & E2 & Hok2); [apply Hp; set_solver|]. rewrite (bind_Some _ _ _ _ _ E2).
  set (w2 := set_iw_sockets n w) in *. assert (Hk2 : kept w w2) by done.
  assert (Hh2 : iw_impls w2 !! h = Some i) by done.
  erewrite bind_Some by (unfold load_impl, deref; rewrite Hh2; reflexivity). erewrite bind_Some by reflexivity.
  assert (Hnext : forall w3, io_ok w3 -> kept w w3 -> exists x w', poll_loop rounds h deadline timeout w3 = Some (x, w') /\ io_ok w' /\
    poll_result (fun w' c => completes h w w' c) w x w').
  { intros w3 Hok3 Hk3. destruct (IH w3 Hok3) as (x & w' & E & Hok' & Hx).
    - exists i. by rewrite (proj1 Hk3).
    - intros r' Hr'. eapply polite_kept; [exact Hk3|]. apply Hp. set_solver.
    - exists x, w'. split_and!; [done..|]. destruct x as [[st c]|]; simpl in *; [|by eapply kept_trans].
      destruct Hx as [[-> Hc]|(Hst & Hc & Hk)]; [left; split; [done|by eapply completes_kept]|right; split; [done|split; [done|by eapply kept_trans]]]. }
  assert (Hstop : forall st w3, st = VL_ERROR_WOULD_BLOCK \/ st = VL_ERROR_SYSTEM -> io_ok w3 -> kept w w3 ->
    exists x w', (mret (Some (st, empty_completion)) : I (option (vl_status * vl_io_completion))) w3 = Some (x, w') /\ io_ok w' /\
      poll_result (fun w' c => completes h w w' c) w x w').
  { intros st w3 Hst Hok3 Hk3. eexists _, w3. split; [reflexivity|]. split; [done|]. by right. }
  destruct (pr_wait r) as [|e|fd flags].
  - apply Hstop; auto.
  - destruct (e =? EINTR); [|by apply Hstop; auto]. case_match; [by apply Hstop; auto|by apply Hnext].
  - destruct (interest _ !! _) as [addr|] eqn:Ea; [|by apply Hstop; auto].
    destruct (execute_ready_spec (pr_call r) h i fd addr flags w2 Hok2 Hh2 Ea) as (x & w3 & E3 & Hok3 & Hx).
    rewrite (bind_Some _ _ _ _ _ E3). destruct x as [st|c].
    + destruct Hx as [-> Hk3]. rewrite bool_decide_false by done. assert (kept w w3) by by eapply kept_trans.
      case_match; [by apply Hstop; auto|by apply Hnext].
    + eexists _, w3. split; [reflexivity|]. split; [done|]. left. split; [done|]. by eapply completes_kept.
Qed.

(** ** The pending requests of a handle *)

Definition pending (i : vl_io_impl) : list nat := (wt_request <$> io_waiters i) ++ omap c_request (io_completed i).

(** Only the waiters and the queued completions of a handle changed. *)
Definition same_handle (i i' : vl_io_impl) : Prop :=
  epoll_fd i' = epoll_fd i /\ io_owner i' = io_owner i /\ io_backend i' = io_backend i /\ io_stats i' = io_stats i.

(** The completion [c] answers one pending request of [h], which is pending no more. *)
Definition answers (h : nat) (w w' : io_world) (c : vl_io_completion) : Prop :=
  exists i i' r, iw_impls w !! h = Some i /\ iw_impls w' = <[h := i']> (iw_impls w) /\ iw_requests w' = iw_requests w /\
    c_request c = Some r /\ pending i ≡ₚ r :: pending i' /\ same_handle i i' /\ is_Some (iw_requests w !! r).

Lemma completes_answers h w w' c : io_ok w -> completes h w w' c -> answers h w w' c.
Proof.
  intros Hok (i & x & q & Hh & Hx & Hq & Hc & _ & _ & Hi & Hr & _). exists i, (drop_waiter x i), (wt_request x).
  split; [done|]. split; [done|]. split; [done|]. split; [done|]. split; [|split; [done|by exists q]].
  unfold pending. simpl. rewrite (drop_waiter_perm x i Hx) at 1; [done|by apply (ok_addr _ Hok h)].
Qed.

(** Replacing what a handle keeps besides its waiters. *)
Lemma io_ok_impl w h i i' : io_ok w -> iw_impls w !! h = Some i ->
  io_waiters i' = io_waiters i -> epoll_fd i' = epoll_fd i ->
  (forall c, c ∈ io_completed i' -> exists r, c_request c = Some r /\ is_Some (iw_requests w !! r)) -> io_ok (set_iw_impls (<[h := i']> (iw_impls w)) w).
Proof.
  intros Hok Hh Hwt Hep Hqu.
  assert (Hold : forall h' x, (<[h := i']> (iw_impls w)) !! h' = Some x -> exists y, iw_impls w !! h' = Some y /\
    io_waiters x = io_waiters y /\ epoll_fd x = epoll_fd y).
  { intros h' x Hx. rewrite lookup_insert in Hx. case_decide; simplify_eq; eauto. }
  assert (Hw : forall h' x q, waits (set_iw_impls (<[h := i']> (iw_impls w)) w) h' x q -> waits w h' x q).
  { intros h' x q (y & Hy & Hx & Hq). destruct (Hold h' y Hy) as (y0 & Hy0 & Ew & _). exists y0. by rewrite Ew in Hx. }
  constructor; simpl.
  - apply Hok.
  - intros h' y x Hy Hx. destruct (Hold h' y Hy) as (y0 & Hy0 & Ew & _). rewrite Ew in Hx. by apply (ok_live _ Hok h' y0).
  - intros h' y Hy. destruct (Hold h' y Hy) as (y0 & Hy0 & Ew & _). rewrite Ew. by apply (ok_addr _ Hok h').
  - intros h1 x1 q1 h2 x2 q2 H1%Hw H2%Hw. by apply (ok_fd _ Hok h1 x1 q1 h2 x2 q2).
  - intros h' y fd a Hy Ha. destruct (Hold h' y Hy) as (y0 & Hy0 & Ew & Ee). rewrite Ew. rewrite Ee in Ha. by apply (ok_interest _ Hok h').
  - intros h1 y1 h2 y2 H1 H2 E. destruct (Hold h1 y1 H1) as (z1 & Hz1 & _ & E1), (Hold h2 y2 H2) as (z2 & Hz2 & _ & E2).
    apply (ok_epfd _ Hok h1 z1 h2 z2); [done|done|congruence].
  - intros h' y c Hy Hc. rewrite lookup_insert in Hy. case_decide; simplify_eq; [by apply Hqu|by eapply (ok_queue _ Hok)].
Qed.

Lemma poll_spec now rounds h timeout w : io_ok w -> is_Some (iw_impls w !! h) ->
  (forall r, r ∈ rounds -> polite w (pr_others r)) ->
  exists r w', vl_epoll_backend_poll now rounds h timeout w = Some (r, w') /\ io_ok w' /\
    poll_result (fun w' c => answers h w w' c) w r w'.
Proof.
  intros Hok [i Hh] Hp. unfold vl_epoll_backend_poll, vl_pop_completion. rewrite bind_run.
  erewrite bind_Some by (unfold load_impl, deref; rewrite Hh; reflexivity).
  destruct (io_completed i) as [|c l] eqn:El.
  - destruct (vl_make_deadline timeout now) as [dl|]; [|eexists _, w; split; [reflexivity|]; split; [done|]; right; auto using kept_refl].
    destruct (poll_loop_spec rounds h dl timeout w Hok (ex_intro _ i Hh) Hp) as (r & w' & E & Hok' & Hr).
    exists r, w'. split_and!; [done..|]. destruct r as [[st c]|]; [|done]. destruct Hr as [[-> Hc]|?]; [left; split; [done|by apply completes_answers]|by right].
  - unfold upd_impl. rewrite bind_run, Hh. eexists _, _. split; [reflexivity|]. split.
    + apply (io_ok_impl w h i); [done..|]. intros c' Hc'. apply (ok_queue _ Hok h i c' Hh). rewrite El. set_solver.
    + left. split; [done|]. destruct (ok_queue _ Hok h i c Hh) as (r & Hr & Hlive); [rewrite El; set_solver|].
      exists i, (set_io_completed l i), r. split; [done|]. split; [done|]. split; [done|]. split; [done|]. split; [|done].
      unfold pending. rewrite El. simpl. rewrite Hr. by rewrite Permutation_middle.
Qed.

(** ** Cancelling *)

Lemma cancel_spec malloc h i r w : io_ok w -> iw_impls w !! h = Some i ->
  exists st w', vl_epoll_backend_cancel malloc h r w = Some (st, w') /\ io_ok w' /\
    (st <> VL_OK /\ w' = w \/
     st = VL_OK /\ iw_requests w' = iw_requests w /\
     exists i' q, iw_impls w' = <[h := i']> (iw_impls w) /\ same_handle i i' /\ pending i' ≡ₚ pending i /\ iw_requests w !! r = Some q /\
       io_completed i' = io_completed i ++ [mk_completion (Some r) (- ECANCELED) 0 (rq_generation q) (rq_task q)]).
Proof.
  intros Hok Hh. unfold vl_epoll_backend_cancel, vl_find_request. rewrite bind_run.
  erewrite bind_Some by (unfold load_impl, deref; rewrite Hh; reflexivity).
  destruct (list_find (fun x => wt_request x = r) (io_waiters i)) as [[j x]|] eqn:Ef; simpl;
    [|by eexists _, w; split; [reflexivity|]; split; [|left]].
  apply list_find_Some in Ef as (Hj & Hxr & _). apply list_elem_of_lookup_2 in Hj as Hx.
  destruct (ok_live _ Hok h i x Hh Hx) as (q & Hq & _). rewrite Hxr in Hq.
  erewrite bind_Some by (unfold load_request, deref; rewrite Hq; reflexivity).
  unfold vl_queue_completion. destruct malloc; simpl; [|by eexists _, w; split; [reflexivity|]; split; [|left]].
  set (c := mk_completion (Some r) _ _ _ _). set (i1 := set_io_completed (io_completed i ++ [c]) i).
  set (w1 := set_iw_impls (<[h := i1]> (iw_impls w)) w).
  assert (Hok1 : io_ok w1).
  { apply (io_ok_impl w h i); [done..|]. intros c' [Hc'|Hc']%elem_of_app; [by apply (ok_queue _ Hok h i)|].
    apply list_elem_of_singleton in Hc' as ->. by exists r. }
  assert (Hh1 : iw_impls w1 !! h = Some i1) by apply lookup_insert_eq.
  rewrite (bind_Some _ _ w VL_OK w1); [|unfold upd_impl; rewrite bind_run, Hh; reflexivity].
  rewrite bool_decide_false by auto.
  destruct (delete_waiter_spec h x i1 q w1 Hok1 Hh1 Hx) as (w2 & E2 & Hok2 & Hd & _); [by rewrite Hxr|].
  rewrite (bind_Some _ _ _ _ _ E2). eexists _, w2. split; [reflexivity|]. split; [done|]. right. split; [done|].
  split; [by rewrite (del_requests _ _ _ _ _ Hd)|]. exists (drop_waiter x i1), q.
  split; [rewrite (del_impls _ _ _ _ _ Hd); apply insert_insert_eq|]. split; [done|]. split; [|done].
  assert (Hperm : wt_request <$> io_waiters i ≡ₚ r :: (wt_request <$> io_waiters (drop_waiter x i))).
  { rewrite (drop_waiter_perm x i Hx) at 1 by by apply (ok_addr _ Hok h). by rewrite fmap_cons, Hxr. }
  unfold pending. rewrite Hperm. change (io_completed (drop_waiter x i1)) with (io_completed i ++ [c]).
  change (io_waiters (drop_waiter x i1)) with (io_waiters (drop_waiter x i)).
  rewrite omap_app, app_assoc. symmetry. apply (Permutation_cons_append _ r).
Qed.

(** ** Submitting *)

(** The caller may write to a request no waiter refers to. *)
Lemma io_ok_request w r q' : io_ok w -> (forall h i x, iw_impls w !! h = Some i -> x ∈ io_waiters i -> wt_request x <> r) ->
  io_ok (set_iw_requests (<[r := q']> (iw_requests w)) w).
Proof.
  intros Hok Hr. assert (Hw : forall h x q, waits (set_iw_requests (<[r := q']> (iw_requests w)) w) h x q -> waits w h x q).
  { intros h x q (i & Hh & Hx & Hq). simpl in *. rewrite lookup_insert_ne in Hq by (apply not_eq_sym, (Hr h i x); done). by exists i. }
  constructor; simpl; try apply Hok.
  - intros h i x Hh Hx. rewrite lookup_insert_ne by (apply not_eq_sym, (Hr h i x); done). by apply (ok_live _ Hok h i x).
  - intros h1 x1 q1 h2 x2 q2 H1%Hw H2%Hw. by apply (ok_fd _ Hok h1 x1 q1 h2 x2 q2).
  - intros h i fd a Hh Ha. destruct (ok_interest _ Hok h i fd a Hh Ha) as (x & q & Hx & Hxa & Hq & Hf). exists x, q.
    rewrite lookup_insert_ne by (apply not_eq_sym, (Hr h i x); done). done.
  - intros h i c Hh Hc. destruct (ok_queue _ Hok h i c Hh Hc) as (r' & Hr' & [q0 Hq0]). exists r'. split; [done|].
    rewrite lookup_insert. case_decide; by eexists.
Qed.

(** The fields of a request the backend relies on while it is pending. *)
Definition same_request (q q' : vl_io_request) : Prop :=
  rq_op q' = rq_op q /\ rq_fd q' = rq_fd q /\ rq_buf q' = rq_buf q /\ rq_len q' = rq_len q /\ rq_generation q' = rq_generation q.

Lemma io_ok_request_same w r q q' : io_ok w -> iw_requests w !! r = Some q -> same_request q q' ->
  io_ok (set_iw_requests (<[r := q']> (iw_requests w)) w).
Proof.
  intros Hok Hq (Eo & Ef & Eb & El & Eg).
  assert (Hup : forall r' q0, iw_requests w !! r' = Some q0 -> exists q1, <[r := q']> (iw_requests w) !! r' = Some q1 /\
    same_request q0 q1).
  { intros r' q0 H0. rewrite lookup_insert. case_decide; simplify_eq; eexists; (split; [done|]); done. }
  assert (Hdn : forall r' q1, <[r := q']> (iw_requests w) !! r' = Some q1 -> exists q0, iw_requests w !! r' = Some q0 /\ rq_fd q0 = rq_fd q1).
  { intros r' q1 H1. rewrite lookup_insert in H1. case_decide; simplify_eq; eauto. }
  constructor; simpl; try apply Hok.
  - intros h i x Hh Hx. destruct (ok_live _ Hok h i x Hh Hx) as (q0 & Hq0 & Hhold & Hb & He & Ha).
    destruct (Hup _ _ Hq0) as (q1 & Hq1 & E1 & E2 & E3 & E4 & E5). exists q1. split; [done|].
    unfold holds, buffer_ok in *. rewrite E1, E2, E3, E4, E5. done.
  - intros h1 x1 q1 h2 x2 q2 (i1 & Hh1 & Hx1 & Hq1) (i2 & Hh2 & Hx2 & Hq2) E.
    destruct (Hdn _ _ Hq1) as (p1 & Hp1 & F1), (Hdn _ _ Hq2) as (p2 & Hp2 & F2).
    apply (ok_fd _ Hok h1 x1 p1 h2 x2 p2); [by exists i1|by exists i2|congruence].
  - intros h i fd a Hh Ha. destruct (ok_interest _ Hok h i fd a Hh Ha) as (x & q0 & Hx & Hxa & Hq0 & Hf).
    destruct (Hup _ _ Hq0) as (q1 & Hq1 & _ & E2 & _). exists x, q1. split; [done|]. split; [done|]. split; [done|congruence].
  - intros h i c Hh Hc. destruct (ok_queue _ Hok h i c Hh Hc) as (r' & Hr' & [q0 Hq0]). exists r'. split; [done|].
    destruct (Hup _ _ Hq0) as (q1 & Hq1 & _). by exists q1.
Qed.

Lemma find_waiter_run h i fd w : io_ok w -> iw_impls w !! h = Some i -> exists x, vl_find_waiter h fd w = Some (x, w).
Proof.
  intros Hok Hh. unfold vl_find_waiter. erewrite bind_Some by (unfold load_impl, deref; rewrite Hh; reflexivity).
  assert (Hl : io_waiters i ⊆ io_waiters i) by done. revert Hl. generalize (io_waiters i) at 1 3. induction l as [|x l IH]; intros Hl; [by eexists|].
  simpl. destruct (ok_live _ Hok h i x Hh ltac:(set_solver)) as (q & Hq & _).
  erewrite bind_Some by (unfold load_request, deref; rewrite Hq; reflexivity). case_match; [by eexists|]. apply IH. set_solver.
Qed.

(** A request whose claim is not held by it is not pending anywhere. *)
Lemma not_pending w r q : io_ok w -> iw_requests w !! r = Some q -> ~ holds (iw_sockets w) q ->
  forall h i x, iw_impls w !! h = Some i -> x ∈ io_waiters i -> wt_request x <> r.
Proof.
  intros Hok Hq Hn h i x Hh Hx E. destruct (ok_live _ Hok h i x Hh Hx) as (q' & Hq' & Hhold & _). apply Hn. congruence.
Qed.

Lemma set_requests_id w r q : iw_requests w !! r = Some q -> set_iw_requests (<[r := q]> (iw_requests w)) w = w.
Proof. intros Hq. rewrite insert_id by done. by destruct w. Qed.

(** What the checks leave: an error and nothing changed, or a request with its generation filled in. *)
Definition checked (r : nat) (q : vl_io_request) (w : io_world) (c : vl_status + Z) (w' : io_world) : Prop :=
  match c with
  | inl st => st <> VL_OK /\ w' = w
  | inr events => 0 <= rq_fd q /\ vl_request_events (rq_op q) = Some events /\
      exists g, w' = set_iw_requests (<[r := set_rq_generation g q]> (iw_requests w)) w /\
        (rq_generation q <> 0 -> g = rq_generation q)
  end.

Lemma submit_checks_spec h i r q w : io_ok w -> iw_impls w !! h = Some i -> iw_requests w !! r = Some q ->
  exists c w', submit_checks h r w = Some (c, w') /\ io_ok w' /\ checked r q w c w'.
Proof.
  intros Hok Hh Hq. unfold submit_checks. erewrite bind_Some by (unfold load_request, deref; rewrite Hq; reflexivity).
  assert (Hno : forall st, st <> VL_OK -> exists c w', (mret (inl st) : I (vl_status + Z)) w = Some (c, w') /\ io_ok w' /\ checked r q w c w')
    by (intros st Hst; by eexists (inl st), w).
  destruct (Z.ltb_spec (rq_fd q) 0); [by apply Hno|]. destruct (vl_request_events (rq_op q)) as [ev|] eqn:Eev; [|by apply Hno].
  case_match; [by apply Hno|].
  assert (exists x, vl_find_request h r w = Some (x, w)) as (x & Ex).
  { unfold vl_find_request. erewrite bind_Some by (unfold load_impl, deref; rewrite Hh; reflexivity). by eexists. }
  rewrite (bind_Some _ _ _ _ _ Ex).
  assert (exists y, (if bool_decide (x <> None) then mret x else vl_find_waiter h (rq_fd q)) w = Some (y, w)) as (y & Ey).
  { case_match; [by eexists|by eapply find_waiter_run]. }
  rewrite (bind_Some _ _ _ _ _ Ey). clear Ey. destruct (bool_decide (y <> None)); [by apply Hno|].
  assert (exists g, on_sockets (vl_socket_generation (rq_fd q)) w = Some (g, w)) as (g & Eg).
  { eexists. erewrite on_sockets_run; [by rewrite set_sockets_id|]. unfold vl_socket_generation. rewrite (proj2 (Z.ltb_ge _ _)) by done. reflexivity. }
  rewrite (bind_Some _ _ _ _ _ Eg).
  assert (exists t, on_sockets (vl_socket_is_tracked (rq_fd q)) w = Some (t, w)) as (t & Et).
  { eexists. erewrite on_sockets_run; [by rewrite set_sockets_id|]. unfold vl_socket_is_tracked. rewrite (proj2 (Z.ltb_ge _ _)) by done. reflexivity. }
  rewrite (bind_Some _ _ _ _ _ Et). case_match; [by apply Hno|].
  destruct (Z.eqb_spec (rq_generation q) 0) as [E0|Hne]; simpl.
  - eexists (inr ev), _. split; [unfold upd_request; rewrite bind_run, Hq; reflexivity|].
    split; [apply io_ok_request; [done|]; apply (not_pending w r q Hok Hq); by intros (_ & ? & _)|]. split; [done|]. split; [done|]. by exists g.
  - case_match; [by apply Hno|]. eexists (inr ev), w. split; [reflexivity|]. split; [done|]. split; [done|]. split; [done|].
    exists (rq_generation q). split; [|done]. rewrite set_requests_id; [done|]. by destruct q.
Qed.

(** After a successful claim of [(fd, g)] no waiter is on [fd]: its slot was free. *)
Lemma claimed_no_waiter w fd g n : io_ok w -> vl_socket_claim fd g (iw_sockets w) = Some (VL_OK, n) ->
  forall h x q, waits w h x q -> rq_fd q <> fd.
Proof.
  intros Hok E h x q (i & Hh & Hx & Hq) Hf. destruct (ok_live _ Hok h i x Hh Hx) as (q' & Hq' & (_ & Hg & s & Hs & Hp) & _).
  rewrite Hq in Hq'. injection Hq' as <-. destruct (claim_spec fd g (iw_sockets w)) as (st & n' & E' & _ & _ & Hc). rewrite E in E'. injection E' as <- <-.
  destruct Hc as [[? _]|(_ & _ & _ & Hs' & _)]; [done|]. rewrite Hf, Hs' in Hs. injection Hs as <-. simpl in Hp. lia.
Qed.

(** The error paths after the claim give it back. *)
Lemma unclaim_spec w fd g n : io_ok w -> vl_socket_claim fd g (iw_sockets w) = Some (VL_OK, n) ->
  exists n', on_sockets (vl_socket_release fd g) (set_iw_sockets n w) = Some (tt, set_iw_sockets n' w) /\ io_ok (set_iw_sockets n' w).
Proof.
  intros Hok E. destruct (release_spec fd g n) as (n' & E' & _). exists n'.
  split; [erewrite on_sockets_run by exact E'; reflexivity|]. apply (io_ok_evolve [(fd, g)]); [|done|].
  - etrans; [by eapply claim_evolve|eapply release_evolve; [|exact E']; set_solver].
  - intros h x q Hw Hin. apply list_elem_of_singleton in Hin. pose proof (claimed_no_waiter _ _ _ _ Hok E h x q Hw). congruence.
Qed.

Lemma io_ok_next w k : io_ok w -> (iw_next w <= k)%nat -> io_ok (set_iw_next k w).
Proof.
  intros Hok Hk. constructor; simpl; try apply Hok. intros h i x Hh Hx.
  destruct (ok_live _ Hok h i x Hh Hx) as (q & Hq & Hhold & Hb & He & Ha). exists q.
  split; [done|]. split; [done|]. split; [done|]. split; [done|lia].
Qed.

Definition add_waiter (x : vl_io_waiter) (i : vl_io_impl) : vl_io_impl := set_io_waiters (x :: io_waiters i) i.

(** The state once the waiter is registered: [n] is the registry after the claim. *)
Definition registered (w : io_world) (n : sockets) (h : nat) (i : vl_io_impl) (r : nat) (q : vl_io_request) (events : Z) : io_world :=
  set_iw_impls (<[h := add_waiter (mk_waiter (iw_next w) r events) i]> (iw_impls w))
    (set_iw_sockets (set_os (mk_os (open_fds (sock_os n)) (<[(epoll_fd i, rq_fd q) := iw_next w]> (interest (sock_os n)))) n)
      (set_iw_next (S (iw_next w)) w)).

Lemma registered_ok w n h i r q events : io_ok w -> iw_impls w !! h = Some i -> iw_requests w !! r = Some q -> buffer_ok w q ->
  vl_request_events (rq_op q) = Some events -> vl_socket_claim (rq_fd q) (rq_generation q) (iw_sockets w) = Some (VL_OK, n) ->
  io_ok (registered w n h i r q events).
Proof.
  intros Hok Hh Hq Hb Hev Hcl. pose proof (claimed_no_waiter _ _ _ _ Hok Hcl) as Hfree.
  destruct (claim_evolve [] _ _ _ _ _ Hcl) as [Hint Hev0]. destruct (Hev0 (ok_slots _ Hok)) as [Hsok Hmv].
  destruct (claim_spec (rq_fd q) (rq_generation q) (iw_sockets w)) as (st & n' & E & Hos & _ & Hc). rewrite Hcl in E. injection E as <- <-.
  destruct Hc as [[? _]|(_ & H0 & Hg & _ & Hsn)]; [done|].
  set (x := mk_waiter (iw_next w) r events).
  assert (Hcase : forall h' i' y, (<[h := add_waiter x i]> (iw_impls w)) !! h' = Some i' -> y ∈ io_waiters i' ->
    h' = h /\ y = x \/ exists i0, iw_impls w !! h' = Some i0 /\ y ∈ io_waiters i0).
  { intros h' i' y Hh' Hy. rewrite lookup_insert in Hh'. case_decide; simplify_eq; [|by eauto].
    apply elem_of_cons in Hy as [->|Hy]; [by left|right; eauto]. }
  assert (Haddr : forall h' i0 y, iw_impls w !! h' = Some i0 -> y ∈ io_waiters i0 -> (wt_addr y < iw_next w)%nat).
  { intros h' i0 y Hh0 Hy. by destruct (ok_live _ Hok h' i0 y Hh0 Hy) as (? & _ & _ & _ & _ & ?). }
  constructor; simpl.
  - exact Hsok.
  - intros h' i' y Hh' Hy. destruct (Hcase h' i' y Hh' Hy) as [[-> ->]|(i0 & Hh0 & Hy0)].
    + exists q. split; [done|]. split; [|split; [done|split; [congruence|simpl; lia]]].
      split; [done|]. split; [done|]. by eexists; split; [exact Hsn|].
    + destruct (ok_live _ Hok h' i0 y Hh0 Hy0) as (q' & Hq' & (? & Hg' & s & Hs & Hp) & Hb' & He' & Ha'). exists q'. split; [done|].
      split; [|split; [done|split; [done|lia]]]. split; [done|]. split; [done|]. destruct (Hmv _ _ Hs) as (s' & Hs' & _ & Hp').
      exists s'. split; [done|]. rewrite Hp', Hp; [done|congruence|apply not_elem_of_nil].
  - intros h' i' Hh'. rewrite lookup_insert in Hh'. case_decide; simplify_eq; [|by apply (ok_addr _ Hok h')].
    simpl. apply list.NoDup_cons. split; [|by apply (ok_addr _ Hok h')]. intros (y & Hy & Hin)%list_elem_of_fmap_1.
    specialize (Haddr _ _ _ Hh Hin). lia.
  - intros h1 x1 q1 h2 x2 q2 (i1 & Hh1 & Hx1 & Hq1) (i2 & Hh2 & Hx2 & Hq2) E.
    destruct (Hcase h1 i1 x1 Hh1 Hx1) as [[-> ->]|(j1 & Hj1 & Hy1)], (Hcase h2 i2 x2 Hh2 Hx2) as [[-> ->]|(j2 & Hj2 & Hy2)]; [done| | |].
    + simpl in *. destruct (Hfree h2 x2 q2); [by exists j2|congruence].
    + simpl in *. destruct (Hfree h1 x1 q1); [by exists j1|congruence].
    + apply (ok_fd _ Hok h1 x1 q1 h2 x2 q2); [by exists j1|by exists j2|done].
  - intros h' i' fd a Hh' Ha. rewrite lookup_insert in Ha. case_decide as Hk.
    + injection Hk as Hk1 Hk2. injection Ha as <-.
      assert (h' = h) as ->.
      { rewrite lookup_insert in Hh'. case_decide; simplify_eq; [done|]. by apply (ok_epfd _ Hok h' i' h i). }
      rewrite lookup_insert_eq in Hh'. injection Hh' as <-. exists x, q. split; [apply elem_of_cons; by left|done].
    + rewrite Hos in Ha. rewrite lookup_insert in Hh'. case_decide; simplify_eq; [|by apply (ok_interest _ Hok h')].
      destruct (ok_interest _ Hok h' i fd a Hh Ha) as (y & qy & Hy & Hrest). exists y, qy. split; [apply elem_of_cons; by right|done].
  - intros h1 i1 h2 i2 Hh1 Hh2. rewrite lookup_insert in Hh1, Hh2. repeat case_decide; simplify_eq; try done; intros E';
      (eapply (ok_epfd _ Hok); [done..|exact E']).
  - intros h' i' c Hh' Hin. rewrite lookup_insert in Hh'. case_decide; simplify_eq; by eapply (ok_queue _ Hok).
Qed.

(** A submission that succeeded adds one waiter, which holds the claim of its descriptor. *)
Definition submitted (h : nat) (i : vl_io_impl) (r : nat) (q : vl_io_request) (w w' : io_world) : Prop :=
  exists x g, wt_request x = r /\ iw_impls w' = <[h := add_waiter x i]> (iw_impls w) /\
    iw_requests w' = <[r := set_rq_generation g q]> (iw_requests w) /\ (rq_generation q <> 0 -> g = rq_generation q) /\
    holds (iw_sockets w') (set_rq_generation g q).

Lemma submit_register_spec calloc failure h i r q events w : io_ok w -> iw_impls w !! h = Some i -> iw_requests w !! r = Some q ->
  buffer_ok w q -> vl_request_events (rq_op q) = Some events ->
  exists st w', submit_register calloc failure h r events w = Some (st, w') /\ io_ok w' /\
    (st <> VL_OK /\ iw_impls w' = iw_impls w /\ iw_requests w' = iw_requests w \/
     st = VL_OK /\ submitted h i r q w w').
Proof.
  intros Hok Hh Hq Hb Hev. unfold submit_register. erewrite bind_Some by (unfold load_request, deref; rewrite Hq; reflexivity).
  destruct (claim_spec (rq_fd q) (rq_generation q) (iw_sockets w)) as (st & n & E & _ & _ & Hc).
  rewrite (bind_Some _ _ _ _ _ (on_sockets_run _ _ _ _ E)).
  destruct Hc as [[Hst ->]|(-> & _)].
  { rewrite bool_decide_true by done. eexists _, _. split; [reflexivity|]. rewrite set_sockets_id. split; [done|]. by left. }
  rewrite bool_decide_false by auto. destruct (unclaim_spec _ _ _ _ Hok E) as (n' & Eu & Hoku).
  destruct calloc; simpl; [|rewrite (bind_Some _ _ _ _ _ Eu); eexists _, _; split; [reflexivity|]; split; [done|]; by left].
  erewrite bind_Some by reflexivity. erewrite bind_Some by reflexivity.
  erewrite bind_Some by (unfold load_impl, deref; simpl; rewrite Hh; reflexivity).
  set (w1 := set_iw_next _ _).
  assert (Hundo : on_sockets (vl_socket_release (rq_fd q) (rq_generation q)) w1 = Some (tt, set_iw_next (S (iw_next w)) (set_iw_sockets n' w))).
  { unfold on_sockets in *. simpl in *. by destruct (vl_socket_release _ _ n) as [[[] ?]|]; simplify_eq. }
  assert (Hoku' : io_ok (set_iw_next (S (iw_next w)) (set_iw_sockets n' w))) by (apply io_ok_next; [done|simpl; lia]).
  assert (Hfail : forall e, epoll_ctl_add (epoll_fd i) (rq_fd q) (iw_next w) failure n = Some (Some e, n) ->
    exists st w', (e ← on_sockets (epoll_ctl_add (epoll_fd i) (rq_fd q) (iw_next w) failure);
      match e with
      | Some errno =>
          _ ← on_sockets (vl_socket_release (rq_fd q) (rq_generation q));
          mret (if errno =? EBADF then VL_ERROR_INVALID_STATE else VL_ERROR_SYSTEM)
      | None =>
          _ ← upd_impl h (fun i => set_io_waiters (mk_waiter (iw_next w) r events :: io_waiters i) i);
          mret VL_OK
      end) w1 = Some (st, w') /\ io_ok w' /\
    (st <> VL_OK /\ iw_impls w' = iw_impls w /\ iw_requests w' = iw_requests w \/ st = VL_OK /\ submitted h i r q w w')).
  { intros e Ee. rewrite (bind_Some _ _ _ _ _ (on_sockets_run _ w1 _ _ Ee)). change (set_iw_sockets n w1) with w1.
    rewrite (bind_Some _ _ _ _ _ Hundo). eexists _, _. split; [reflexivity|]. split; [done|]. left. split; [by case_match|done]. }
  assert (Hadd : (exists e, epoll_ctl_add (epoll_fd i) (rq_fd q) (iw_next w) failure n = Some (Some e, n)) \/
    epoll_ctl_add (epoll_fd i) (rq_fd q) (iw_next w) failure n =
      Some (None, set_os (mk_os (open_fds (sock_os n)) (<[(epoll_fd i, rq_fd q) := iw_next w]> (interest (sock_os n)))) n)).
  { unfold epoll_ctl_add. repeat case_decide; [by left; eexists..|]. destruct failure; [by left; eexists|by right]. }
  destruct Hadd as [[e Ee]|Ee]; [by apply (Hfail e)|].
  rewrite (bind_Some _ _ _ _ _ (on_sockets_run _ w1 _ _ Ee)). exists VL_OK, (registered w n h i r q events).
  split; [unfold upd_impl; rewrite bind_run; simpl; rewrite Hh; reflexivity|]. split; [by apply registered_ok|]. right. split; [done|].
  exists (mk_waiter (iw_next w) r events), (rq_generation q).
  assert (Hid : set_rq_generation (rq_generation q) q = q) by by destruct q.
  rewrite Hid. split_and!; [done|done|by rewrite insert_id|done|].
  destruct (claim_spec (rq_fd q) (rq_generation q) (iw_sockets w)) as (? & ? & E' & _ & _ & Hc). rewrite E in E'. injection E' as <- <-.
  destruct Hc as [[? _]|(_ & H0' & Hg & _ & Hsn)]; [done|]. split; [done|]. split; [done|]. by eexists; split; [exact Hsn|].
Qed.

Lemma submit_spec calloc failure h i r q w : io_ok w -> iw_impls w !! h = Some i -> iw_requests w !! r = Some q -> buffer_ok w q ->
  exists st w', vl_epoll_backend_submit calloc failure h r w = Some (st, w') /\ io_ok w' /\
    (st <> VL_OK /\ iw_impls w' = iw_impls w \/ st = VL_OK /\ submitted h i r q w w').
Proof.
  intros Hok Hh Hq Hb. unfold vl_epoll_backend_submit.
  destruct (submit_checks_spec h i r q w Hok Hh Hq) as (c & w1 & E & Hok1 & Hc). rewrite (bind_Some _ _ _ _ _ E).
  destruct c as [st|events]; [destruct Hc as [Hst ->]; eexists _, w; split; [reflexivity|]; split; [done|]; by left|].
  destruct Hc as (H0 & Hev & g & -> & Hg). set (q1 := set_rq_generation g q) in *. set (w1 := set_iw_requests _ w) in *.
  destruct (submit_register_spec calloc failure h i r q1 events w1 Hok1 Hh) as (st & w2 & E2 & Hok2 & Hc2);
    [apply lookup_insert_eq|exact Hb|exact Hev|].
  exists st, w2. split; [done|]. split; [done|]. destruct Hc2 as [(Hst & Hi & _)|(-> & x & g2 & Hx & Hi & Hr & Hg2 & Hhold)]; [by left|].
  right. split; [done|]. exists x, g2. split_and!; [done|done| | |exact Hhold].
  - rewrite Hr. apply insert_insert_eq.
  - intros Hne. specialize (Hg Hne). unfold q1 in Hg2. simpl in Hg2. rewrite Hg2; congruence.
Qed.

(** ** Destroying a handle *)

Definition without_handle (h : nat) (w : io_world) : io_world := set_iw_impls (delete h (iw_impls w)) w.

Lemma io_ok_without w h : io_ok w -> io_ok (without_handle h w).
Proof.
  intros Hok. assert (Hold : forall h' i, delete h (iw_impls w) !! h' = Some i -> iw_impls w !! h' = Some i).
  { intros h' i Hi. by apply lookup_delete_Some in Hi as [_ ?]. }
  constructor; simpl; [apply Hok|..].
  - intros h' i x Hh%Hold. by apply (ok_live _ Hok h').
  - intros h' i Hh%Hold. by apply (ok_addr _ Hok h').
  - intros h1 x1 q1 h2 x2 q2 (i1 & H1%Hold & Hx1) (i2 & H2%Hold & Hx2). apply (ok_fd _ Hok h1 x1 q1 h2 x2 q2); [by exists i1|by exists i2].
  - intros h' i fd a Hh%Hold. by apply (ok_interest _ Hok h').
  - intros h1 i1 h2 i2 H1%Hold H2%Hold. by apply (ok_epfd _ Hok h1 i1 h2 i2).
  - intros h' i c Hh%Hold. by apply (ok_queue _ Hok h').
Qed.

Lemma release_waiters_spec h i l w n : io_ok w -> iw_impls w !! h = Some i -> l ⊆ io_waiters i ->
  io_ok (set_iw_sockets n (without_handle h w)) ->
  exists n', release_waiters l (set_iw_sockets n w) = Some (tt, set_iw_sockets n' w) /\
    io_ok (set_iw_sockets n' (without_handle h w)) /\ interest (sock_os n') ⊆ interest (sock_os n).
Proof.
  intros Hok Hh. revert n. induction l as [|x l IH]; intros n Hl Hokn; [by exists n|].
  destruct (ok_live _ Hok h i x Hh ltac:(set_solver)) as (q & Hq & _). cbn [release_waiters].
  erewrite bind_Some by (unfold load_request, deref; simpl; rewrite Hq; reflexivity).
  destruct (release_spec (rq_fd q) (rq_generation q) n) as (n1 & E1 & Hos & _).
  rewrite (bind_Some _ _ _ _ _ (on_sockets_run _ (set_iw_sockets n w) _ _ E1)). change (set_iw_sockets n1 (set_iw_sockets n w)) with (set_iw_sockets n1 w).
  destruct (IH n1 ltac:(set_solver)) as (n' & E & Hok' & Hi).
  - apply (io_ok_evolve [(rq_fd q, rq_generation q)] (set_iw_sockets n (without_handle h w)) n1); [eapply release_evolve; [|exact E1]; set_solver|done|].
    intros h' x' q' (i' & Hh' & Hx' & Hq') Hin%list_elem_of_singleton. injection Hin as Hf _. simpl in *.
    apply lookup_delete_Some in Hh' as [Hne Hh']. apply Hne. symmetry.
    apply (ok_fd _ Hok h' x' q' h x q); [by exists i'|exists i; set_solver|done].
  - exists n'. split_and!; [done..|]. by rewrite Hos in Hi.
Qed.

Lemma destroy_spec h i w : io_ok w -> iw_impls w !! h = Some i ->
  exists w', vl_epoll_backend_destroy h w = Some (tt, w') /\ io_ok (without_handle h w') /\
    iw_requests w' = iw_requests w /\ delete h (iw_impls w') = delete h (iw_impls w).
Proof.
  intros Hok Hh. unfold vl_epoll_backend_destroy. erewrite bind_Some by (unfold load_impl, deref; rewrite Hh; reflexivity).
  destruct (release_waiters_spec h i (io_waiters i) w (iw_sockets w) Hok Hh) as (n & E & Hokn & _); [done| |].
  { apply (io_ok_evolve []); [done|by apply io_ok_without|]. intros. apply not_elem_of_nil. }
  rewrite set_sockets_id in E. rewrite (bind_Some _ _ _ _ _ E).
  assert (exists n', (if 0 <=? epoll_fd i then on_sockets (close_epoll (epoll_fd i)) else mret tt) (set_iw_sockets n w) =
    Some (tt, set_iw_sockets n' w) /\ io_ok (set_iw_sockets n' (without_handle h w))) as (n' & E' & Hok').
  { destruct (0 <=? epoll_fd i); [|by exists n]. eexists. split; [erewrite on_sockets_run by reflexivity; reflexivity|].
    apply (io_ok_evolve [] (set_iw_sockets n (without_handle h w))); [|done|intros; apply not_elem_of_nil].
    apply evolve_same; [apply map_filter_subseteq|done]. }
  rewrite (bind_Some _ _ _ _ _ E'). unfold upd_impl. simpl. rewrite Hh. eexists. split; [reflexivity|].
  assert (Hdel : forall y, delete h (<[h := y]> (iw_impls w)) = delete h (iw_impls w)) by (intros; apply delete_insert_eq).
  split; [|split; [done|apply Hdel]]. unfold without_handle. simpl. rewrite Hdel. exact Hok'.
Qed.
