(* ===== verification/EpollTime.v ===== *)
(** * Deadlines of a poll

    The milliseconds passed to [epoll_wait] and the rounds a poll with timeout zero
    takes. *)

From S2P Require Import Prelude Socket SocketProps Epoll EpollInv.
From stdpp Require Import options.

Open Scope Z_scope.

Definition nanos (t : Z * Z) : Z := t.1 * 1000000000 + t.2.

(** A timespec the clock returns. *)
Definition timespec_ok (t : Z * Z) : Prop := 0 <= t.2 < 1000000000.

Lemma make_deadline_nanos timeout start : 0 <= timeout <= INT_MAX -> timespec_ok start ->
  exists d, vl_make_deadline timeout (Some start) = Some (Some d) /\ timespec_ok d /\ nanos d = nanos start + timeout * 1000000.
Proof.
  intros Ht Hs. unfold vl_make_deadline. rewrite (proj2 (Z.ltb_ge _ _)) by lia. destruct start as [sec nsec]. unfold timespec_ok, nanos in *. simpl in *.
  rewrite Z.quot_div_nonneg, Z.rem_mod_nonneg by lia. pose proof (Z.div_mod timeout 1000 ltac:(lia)). pose proof (Z.mod_pos_bound timeout 1000 ltac:(lia)).
  eexists. split; [reflexivity|]. destruct (Z.leb_spec 1000000000 (nsec + timeout mod 1000 * 1000000)); simpl; lia.
Qed.

(** Truncated division of the difference of two nanosecond fields. *)
Lemma quot_near d : -1000000 < Z.quot d 1000000 * 1000000 - d < 1000000.
Proof. pose proof (Z.quot_rem' d 1000000). pose proof (Z.rem_bound_abs d 1000000 ltac:(lia)). lia. Qed.

Definition remaining_ms (d now : Z * Z) : Z := (d.1 - now.1) * 1000 + Z.quot (d.2 - now.2) 1000000.

Lemma remaining_near d now : -1000000 < remaining_ms d now * 1000000 - (nanos d - nanos now) < 1000000.
Proof. unfold remaining_ms, nanos. pose proof (quot_near (d.2 - now.2)). lia. Qed.

(** The timeout of [epoll_wait] follows the deadline.  For every timeout 0..INT_MAX and
    any later reading of the monotonic clock, the deadline is computed exactly, and the
    timeout passed to the kernel is at most the caller's, is never negative (so the call
    cannot block for ever), is within one millisecond of the time left, and is zero once
    the deadline has passed by a millisecond. *)
Theorem poll_timeout_bounds timeout start now :
  0 <= timeout <= INT_MAX -> timespec_ok start -> nanos start <= nanos now ->
  exists d, vl_make_deadline timeout (Some start) = Some (Some d) /\ nanos d = nanos start + timeout * 1000000 /\
    let t := vl_remaining_timeout d timeout (Some now) in
    let left := nanos d - nanos now in
    0 <= t <= timeout /\ t * 1000000 < Z.max 0 left + 1000000 /\ left < (t + 1) * 1000000 /\ (left <= - 1000000 -> t = 0).
Proof.
  intros Ht Hs Hn. destruct (make_deadline_nanos timeout start Ht Hs) as (d & E & _ & Hd). exists d. split; [done|]. split; [done|].
  cbv zeta. unfold vl_remaining_timeout. rewrite (proj2 (Z.ltb_ge _ _)) by lia. pose proof (remaining_near d now) as Hnear.
  fold (remaining_ms d now). destruct (Z.leb_spec (remaining_ms d now) 0); [lia|]. rewrite (proj2 (Z.ltb_ge INT_MAX _)) by lia. lia.
Qed.

Lemma remaining_zero now0 now : timespec_ok now0 -> timespec_ok now -> nanos now0 <= nanos now ->
  vl_remaining_timeout now0 0 (Some now) = 0.
Proof.
  intros H0 H1 Hle. unfold vl_remaining_timeout. simpl. fold (remaining_ms now0 now).
  assert (remaining_ms now0 now <= 0) as ?%Z.leb_le; [|by case_match].
  unfold remaining_ms, nanos, timespec_ok in *. destruct (Z_lt_le_dec now0.1 now.1).
  - pose proof (quot_near (now0.2 - now.2)). lia.
  - assert (now0.1 = now.1) as -> by lia. assert (now0.2 <= now.2) by lia. rewrite Z.sub_diag. simpl.
    replace (now0.2 - now.2) with (- (now.2 - now0.2)) by lia. rewrite Z.quot_opp_l, Z.quot_div_nonneg by lia.
    pose proof (Z.div_pos (now.2 - now0.2) 1000000 ltac:(lia) ltac:(lia)). lia.
Qed.

(** The clock of a round is not before the start of the poll. *)
Definition clock_after (start : Z * Z) (r : poll_round) : Prop :=
  match pr_now r with Some t => timespec_ok t /\ nanos start <= nanos t | None => True end.

(** A poll with timeout zero does not block: whatever the kernel reports, it answers after at
    most one [epoll_wait] (an interrupted wait, a spurious readiness and a ready operation
    that would block included), when the monotonic clock does not go back. *)
Theorem poll_zero_answers start round rounds h w :
  io_ok w -> is_Some (iw_impls w !! h) -> timespec_ok start -> clock_after start round ->
  (forall r, r ∈ round :: rounds -> polite w (pr_others r)) ->
  exists st c w', vl_epoll_backend_poll (Some start) (round :: rounds) h 0 w = Some (Some (st, c), w').
Proof.
  intros Hok Hh Hs Hc Hp. destruct (poll_spec (Some start) (round :: rounds) h 0 w Hok Hh Hp) as (x & w' & E & _).
  destruct x as [[st c]|]; [by exists st, c, w'|exfalso].
  unfold vl_epoll_backend_poll in E. apply bind_inv in E as (o & w1 & _ & E). destruct o; [done|].
  assert (vl_make_deadline 0 (Some start) = Some (Some start)) as Hd.
  { unfold vl_make_deadline. destruct start as [sec nsec]. change (0 <? 0) with false. change (Z.quot 0 1000) with 0.
    change (Z.rem 0 1000 * 1000000) with 0. cbv iota zeta. rewrite !Z.add_0_r.
    unfold timespec_ok in Hs. simpl in Hs. by rewrite (proj2 (Z.leb_gt 1000000000 nsec)) by lia. }
  rewrite Hd in E. cbn [poll_loop] in E. apply bind_inv in E as (s & w2 & _ & E). destruct s; [done|].
  apply bind_inv in E as (u & w3 & _ & E). apply bind_inv in E as (i & w4 & _ & E). apply bind_inv in E as (n & w5 & _ & E).
  assert (Hz : vl_remaining_timeout (default (0, 0) (Some start)) 0 (pr_now round) = 0).
  { unfold clock_after in Hc. destruct (pr_now round); [|done]. by apply remaining_zero; [|apply Hc..]. }
  rewrite Hz in E. destruct (pr_wait round) as [|e|fd flags]; [done| |].
  - by destruct (e =? EINTR).
  - destruct (interest _ !! _); [|done]. apply bind_inv in E as (y & w6 & _ & E). destruct y; [|done]. by case_match.
Qed.

(** ** Witnesses *)

Lemma poll_timeout_bounds_witness : exists d, vl_make_deadline 1500 (Some (7, 999000000)) = Some (Some d) /\
  0 <= vl_remaining_timeout d 1500 (Some (8, 100000000)) <= 1500.
Proof.
  destruct (poll_timeout_bounds 1500 (7, 999000000) (8, 100000000)) as (d & E & _ & Hb & _);
    [unfold INT_MAX; lia|unfold timespec_ok; simpl; lia|unfold nanos; simpl; lia|].
  exists d. split; [exact E|exact Hb].
Defined.

Definition idle_world : io_world :=
  mk_io_world (boot demo_os) ∅ {[1%nat := mk_io_impl 3 1 VL_IO_BACKEND_EPOLL [] [] (mk_io_stats 0 0 0)]} ∅ [] 0.

Lemma idle_world_ok : io_ok idle_world.
Proof.
  constructor; simpl.
  - intros fd s Hs. discriminate.
  - intros h i x [_ <-]%lookup_singleton_Some Hx. by apply elem_of_nil in Hx.
  - intros h i [_ <-]%lookup_singleton_Some. constructor.
  - intros h1 x1 q1 h2 x2 q2 (i & Hi & Hx & _). simpl in Hi. apply lookup_singleton_Some in Hi as [_ <-]. by apply elem_of_nil in Hx.
  - intros h i fd a _ Ha. done.
  - intros h1 i1 h2 i2 [-> _]%lookup_singleton_Some [-> _]%lookup_singleton_Some. done.
  - intros h i c [_ <-]%lookup_singleton_Some Hc. by apply elem_of_nil in Hc.
Qed.

Definition interrupted : poll_round := mk_round (Some (10, 0)) [] (Wait_error EINTR) (mk_ready_call None 0 [] 0 0 true).

Lemma poll_zero_answers_witness : exists c w', vl_epoll_backend_poll (Some (10, 0)) [interrupted] 1 0 idle_world =
  Some (Some (VL_ERROR_WOULD_BLOCK, c), w').
Proof.
  destruct (poll_zero_answers (10, 0) interrupted [] 1 idle_world idle_world_ok) as (st & c & w' & E).
  - eexists. vm_compute. reflexivity.
  - unfold timespec_ok. simpl. lia.
  - unfold clock_after, interrupted, timespec_ok, nanos. simpl. lia.
  - intros r ->%list_elem_of_singleton h x q _ Hin. by apply elem_of_nil in Hin.
  - exists c, w'. rewrite E. vm_compute in E. congruence.
Defined.
