(* ===== verification/Uring.v ===== *)
(** * The io_uring backend (src/net/io_worker.c, src/net/uring_backend.c)

    A worker thread owns the ring.  The client's thread puts commands on a list under the
    mutex and writes to an eventfd; the worker polls that eventfd through the ring, takes
    the commands, prepares the operations, and moves the operations the kernel completes
    to a list the client polls.  Operations are heap blocks ([u_ops]): one that was freed
    is absent, and using it is undefined behaviour.  The linked lists through
    [active_next], [completed_next] and [next] are lists of addresses; following a link
    reads the block.  An address is not used again for another operation.

    The ring is the entries prepared ([ring_sq]), submitted ([ring_inflight]) and answered
    ([ring_cq]); the kernel answers every submitted entry once, in any order, with any
    result, the poll of the eventfd only while its counter is positive.  Whether liburing
    has a free entry, whether a submission or a write succeeds and whether memory can be
    had are arguments.  A critical section is one step; the code of the worker between two
    of them, which touches the ring and unshared memory, belongs to the step before it.

    [u_accepted] and [u_delivered] record the operations queued with their requests and
    the completions returned, in order. *)

From S2P Require Import Prelude Socket SocketProps Epoll.
From stdpp Require Import options.

Open Scope Z_scope.

Definition VL_URING_DEFAULT_DEPTH : Z := 256.
Definition VL_URING_MINIMUM_DEPTH : Z := 8.

(** The request, with the fields only this backend reads: whether a nonempty address is
    given, and the timeout. *)
Record uring_request := mk_urequest { ur_request : vl_io_request; ur_address : bool; ur_timeout_ns : Z }.

Inductive vl_uring_command :=
  | VL_URING_COMMAND_SUBMIT (operation : nat)
  | VL_URING_COMMAND_CANCEL (operation : nat).

(** What an entry of the ring asks for, which is also the data it carries. *)
Inductive sqe :=
  | Sqe_wakeup
  | Sqe_operation (operation : nat)
  | Sqe_cancel (operation : nat)
  | Sqe_unset.

(** Where the worker is: in [io_uring_wait_cqe]; about to take the commands; with
    [rest] of the commands it took; about to resolve an operation; about to submit; out of
    its loop; finished. *)
Inductive uring_pc :=
  | P_wait
  | P_take
  | P_commands (rest : list vl_uring_command) (stopping : bool)
  | P_resolve (operation : nat)
  | P_submit
  | P_exit
  | P_stopped.

Record vl_uring_operation := mk_uop {
  uo_request : nat;
  uo_timeout : Z * Z;
  uo_completion : vl_io_completion;
  resolved : bool;
  completion_consumed : bool;
  cancel_command_pending : bool }.

Definition set_uo_timeout (v : Z * Z) (o : vl_uring_operation) : vl_uring_operation :=
  mk_uop (uo_request o) v (uo_completion o) (resolved o) (completion_consumed o)
    (cancel_command_pending o).
Definition set_uo_completion (v : vl_io_completion) (o : vl_uring_operation) : vl_uring_operation :=
  mk_uop (uo_request o) (uo_timeout o) v (resolved o) (completion_consumed o)
    (cancel_command_pending o).
Definition set_resolved (v : bool) (o : vl_uring_operation) : vl_uring_operation :=
  mk_uop (uo_request o) (uo_timeout o) (uo_completion o) v (completion_consumed o)
    (cancel_command_pending o).
Definition set_completion_consumed (v : bool) (o : vl_uring_operation) : vl_uring_operation :=
  mk_uop (uo_request o) (uo_timeout o) (uo_completion o) (resolved o) v
    (cancel_command_pending o).
Definition set_cancel_command_pending (v : bool) (o : vl_uring_operation) : vl_uring_operation :=
  mk_uop (uo_request o) (uo_timeout o) (uo_completion o) (resolved o) (completion_consumed o)
    v.

Record vl_uring_state := mk_uring {
  commands : list vl_uring_command;
  active : list nat;
  completed : list nat;
  event_count : Z;
  worker_status : vl_status;
  stop_requested : bool;
  ring_sq : list sqe;
  ring_inflight : list sqe;
  ring_cq : list (sqe * Z);
  worker_pc : uring_pc }.

Definition set_commands (v : list vl_uring_command) (s : vl_uring_state) : vl_uring_state :=
  mk_uring v (active s) (completed s) (event_count s) (worker_status s) (stop_requested s)
    (ring_sq s) (ring_inflight s) (ring_cq s) (worker_pc s).
Definition set_active (v : list nat) (s : vl_uring_state) : vl_uring_state :=
  mk_uring (commands s) v (completed s) (event_count s) (worker_status s) (stop_requested s)
    (ring_sq s) (ring_inflight s) (ring_cq s) (worker_pc s).
Definition set_completed (v : list nat) (s : vl_uring_state) : vl_uring_state :=
  mk_uring (commands s) (active s) v (event_count s) (worker_status s) (stop_requested s)
    (ring_sq s) (ring_inflight s) (ring_cq s) (worker_pc s).
Definition set_event_count (v : Z) (s : vl_uring_state) : vl_uring_state :=
  mk_uring (commands s) (active s) (completed s) v (worker_status s) (stop_requested s)
    (ring_sq s) (ring_inflight s) (ring_cq s) (worker_pc s).
Definition set_worker_status (v : vl_status) (s : vl_uring_state) : vl_uring_state :=
  mk_uring (commands s) (active s) (completed s) (event_count s) v (stop_requested s) (ring_sq
    s) (ring_inflight s) (ring_cq s) (worker_pc s).
Definition set_stop_requested (v : bool) (s : vl_uring_state) : vl_uring_state :=
  mk_uring (commands s) (active s) (completed s) (event_count s) (worker_status s) v (ring_sq
    s) (ring_inflight s) (ring_cq s) (worker_pc s).
Definition set_ring_sq (v : list sqe) (s : vl_uring_state) : vl_uring_state :=
  mk_uring (commands s) (active s) (completed s) (event_count s) (worker_status s)
    (stop_requested s) v (ring_inflight s) (ring_cq s) (worker_pc s).
Definition set_ring_inflight (v : list sqe) (s : vl_uring_state) : vl_uring_state :=
  mk_uring (commands s) (active s) (completed s) (event_count s) (worker_status s)
    (stop_requested s) (ring_sq s) v (ring_cq s) (worker_pc s).
Definition set_ring_cq (v : list (sqe * Z)) (s : vl_uring_state) : vl_uring_state :=
  mk_uring (commands s) (active s) (completed s) (event_count s) (worker_status s)
    (stop_requested s) (ring_sq s) (ring_inflight s) v (worker_pc s).
Definition set_worker_pc (v : uring_pc) (s : vl_uring_state) : vl_uring_state :=
  mk_uring (commands s) (active s) (completed s) (event_count s) (worker_status s)
    (stop_requested s) (ring_sq s) (ring_inflight s) (ring_cq s) v.

Record uring_world := mk_uworld {
  u_requests : gmap nat uring_request;
  u_ops : gmap nat vl_uring_operation;
  u_sockets : sockets;
  u_state : vl_uring_state;
  u_next : nat;
  u_accepted : list (nat * nat);
  u_delivered : list (nat * vl_io_completion) }.

Definition set_u_requests (v : gmap nat uring_request) (w : uring_world) : uring_world :=
  mk_uworld v (u_ops w) (u_sockets w) (u_state w) (u_next w) (u_accepted w) (u_delivered w).
Definition set_u_ops (v : gmap nat vl_uring_operation) (w : uring_world) : uring_world :=
  mk_uworld (u_requests w) v (u_sockets w) (u_state w) (u_next w) (u_accepted w) (u_delivered
    w).
Definition set_u_sockets (v : sockets) (w : uring_world) : uring_world :=
  mk_uworld (u_requests w) (u_ops w) v (u_state w) (u_next w) (u_accepted w) (u_delivered w).
Definition set_u_state (v : vl_uring_state) (w : uring_world) : uring_world :=
  mk_uworld (u_requests w) (u_ops w) (u_sockets w) v (u_next w) (u_accepted w) (u_delivered
    w).
Definition set_u_next (v : nat) (w : uring_world) : uring_world :=
  mk_uworld (u_requests w) (u_ops w) (u_sockets w) (u_state w) v (u_accepted w) (u_delivered
    w).
Definition set_u_accepted (v : list (nat * nat)) (w : uring_world) : uring_world :=
  mk_uworld (u_requests w) (u_ops w) (u_sockets w) (u_state w) (u_next w) v (u_delivered w).
Definition set_u_delivered (v : list (nat * vl_io_completion)) (w : uring_world) : uring_world :=
  mk_uworld (u_requests w) (u_ops w) (u_sockets w) (u_state w) (u_next w) (u_accepted w) v.


Notation U := (C uring_world).

Definition load_op (a : nat) : U vl_uring_operation := deref (fun w => u_ops w !! a).
Definition upd_op (a : nat) (f : vl_uring_operation -> vl_uring_operation) : U unit :=
  o ← load_op a; modify (fun w => set_u_ops (<[a := f o]> (u_ops w)) w).
Definition free_op (a : nat) : U unit :=
  _ ← load_op a; modify (fun w => set_u_ops (delete a (u_ops w)) w).
Definition load_urequest (r : nat) : U uring_request := deref (fun w => u_requests w !! r).
Definition upd_generation (r : nat) (g : Z) : U unit :=
  q ← load_urequest r;
  modify (fun w => set_u_requests (<[r := mk_urequest (set_rq_generation g (ur_request q)) (ur_address q) (ur_timeout_ns q)]> (u_requests w)) w).
Definition get_state {A} (f : vl_uring_state -> A) : U A := gets (fun w => f (u_state w)).
Definition upd_state (f : vl_uring_state -> vl_uring_state) : U unit := modify (fun w => set_u_state (f (u_state w)) w).
Definition goto (pc : uring_pc) : U unit := upd_state (set_worker_pc pc).
Definition on_registry {A} (m : N A) : U A := fun w =>
  match m (u_sockets w) with
  | Some (a, n) => Some (a, set_u_sockets n w)
  | None => None
  end.

(** ** Small helpers *)

Definition ENOSYS : Z := 38.
Definition EOPNOTSUPP : Z := 95.
Definition ENOMEM : Z := 12.
Definition ETIME : Z := 62.
Definition EPERM : Z := 1.

Definition vl_uring_status_from_error (error : Z) : vl_status :=
  if (error =? EPERM) || (error =? ENOSYS) || (error =? EOPNOTSUPP) then VL_ERROR_UNSUPPORTED
  else if error =? ENOMEM then VL_ERROR_OUT_OF_MEMORY
  else VL_ERROR_SYSTEM.

(** [written]: whether the write of eight bytes, retried on EINTR, succeeds. *)
Definition vl_uring_write_wakeup (written : bool) : U vl_status :=
  if written then _ ← upd_state (fun s => set_event_count (event_count s + 1) s); mret VL_OK
  else mret VL_ERROR_SYSTEM.

(** The read blocks for ever when nobody has written: undefined here. *)
Definition vl_uring_drain_wakeup : U unit :=
  n ← get_state event_count;
  if n =? 0 then ub else upd_state (set_event_count 0).

Definition vl_uring_append_command_locked (command : vl_uring_command) : U unit :=
  upd_state (fun s => set_commands (commands s ++ [command]) s).

(** The loop of [vl_uring_remove_active_locked] over the links from [l]. *)
Fixpoint remove_active (operation : nat) (l : list nat) : U (list nat) :=
  match l with
  | [] => mret []
  | a :: l =>
      if decide (a = operation) then mret l else
      _ ← load_op a; rest ← remove_active operation l; mret (a :: rest)
  end.

Definition vl_uring_remove_active_locked (operation : nat) : U unit :=
  l ← get_state active;
  l' ← remove_active operation l;
  upd_state (set_active l').

Fixpoint find_active (request : nat) (l : list nat) : U (option nat) :=
  match l with
  | [] => mret None
  | a :: l =>
      o ← load_op a;
      if decide (uo_request o = request) then mret (Some a) else find_active request l
  end.

Definition vl_uring_find_active_locked (request : nat) : U (option nat) :=
  l ← get_state active; find_active request l.

(** ** The ring *)

(** What [vl_uring_get_sqe] meets: a free entry at once; else whether the submission
    succeeds and whether there is a free entry then. *)
Record sqe_env := mk_sqe_env { entry_free : bool; submit_succeeds : bool; entry_after : bool }.

Definition io_uring_submit (ok : bool) : U bool :=
  if ok then
    _ ← upd_state (fun s => set_ring_sq [] (set_ring_inflight (ring_inflight s ++ ring_sq s) s)); mret true
  else mret false.

Definition vl_uring_get_sqe (g : sqe_env) : U bool :=
  if entry_free g then mret true else
  ok ← io_uring_submit (submit_succeeds g);
  if negb ok then mret false else mret (entry_after g).

Definition push_sqe (e : sqe) : U unit := upd_state (fun s => set_ring_sq (ring_sq s ++ [e]) s).

Definition vl_uring_prepare_wakeup (g : sqe_env) : U vl_status :=
  got ← vl_uring_get_sqe g;
  if negb got then mret VL_ERROR_SYSTEM else
  _ ← push_sqe Sqe_wakeup; mret VL_OK.

Definition vl_uring_prepare_operation (g : sqe_env) (operation : nat) : U vl_status :=
  o ← load_op operation;
  got ← vl_uring_get_sqe g;
  if negb got then mret VL_ERROR_SYSTEM else
  q ← load_urequest (uo_request o);
  match rq_op (ur_request q) with
  | VL_IO_CANCEL => _ ← push_sqe Sqe_unset; mret VL_ERROR_UNSUPPORTED
  | VL_IO_TIMEOUT =>
      _ ← upd_op operation (set_uo_timeout (ur_timeout_ns q / 1000000000, ur_timeout_ns q mod 1000000000));
      _ ← push_sqe (Sqe_operation operation); mret VL_OK
  | _ => _ ← push_sqe (Sqe_operation operation); mret VL_OK
  end.

Definition vl_uring_prepare_cancel (g : sqe_env) (operation : nat) : U vl_status :=
  got ← vl_uring_get_sqe g;
  if negb got then mret VL_ERROR_SYSTEM else
  _ ← push_sqe (Sqe_cancel operation); mret VL_OK.

(** ** Completing an operation *)

Definition completion_events (op : vl_io_op) (result : Z) : Z :=
  let e := match op with VL_IO_ACCEPT | VL_IO_RECV => VL_IO_EVENT_READABLE | _ => 0 end in
  let e := match op with VL_IO_SEND | VL_IO_CONNECT => Z.lor e VL_IO_EVENT_WRITABLE | _ => e end in
  let e := match op with VL_IO_RECV => if result =? 0 then Z.lor e VL_IO_EVENT_EOF else e | _ => e end in
  if (result <? 0) && negb (result =? - ETIME) && negb (result =? - ECANCELED) then Z.lor e VL_IO_EVENT_ERROR else e.

(** An accepted descriptor that cannot be tracked is closed. *)
Definition track_accepted (calloc : bool) (op : vl_io_op) (result : Z) : U Z :=
  if bool_decide (op = VL_IO_ACCEPT) && (0 <=? result) then
    _ ← on_registry (os_open result);
    status ← on_registry (vl_socket_track calloc result);
    if decide (status <> VL_OK) then _ ← on_registry (os_close 0 result); mret (- EMFILE) else mret result
  else mret result.

(** [vl_uring_complete_operation] up to the lock. *)
Definition complete_unlocked (calloc : bool) (operation : nat) (result : Z) : U unit :=
  o ← load_op operation;
  q ← load_urequest (uo_request o);
  let rq := ur_request q in
  result ← track_accepted calloc (rq_op rq) result;
  _ ← upd_op operation (set_uo_completion
        (mk_completion (Some (uo_request o)) result (completion_events (rq_op rq) result) (rq_generation rq) (rq_task rq)));
  match rq_op rq with
  | VL_IO_TIMEOUT => mret tt
  | _ => on_registry (vl_socket_release (rq_fd rq) (rq_generation rq))
  end.

(** The locked part. *)
Definition complete_locked (operation : nat) : U unit :=
  o ← load_op operation;
  if resolved o then mret tt else
  _ ← upd_op operation (set_resolved true);
  _ ← vl_uring_remove_active_locked operation;
  upd_state (fun s => set_completed (completed s ++ [operation]) s).

(** ** The worker *)

Definition fail_worker (status : vl_status) : U unit := upd_state (set_worker_status status).

(** The first critical section of [vl_uring_process_commands]. *)
Definition take_commands : U unit :=
  l ← get_state commands;
  _ ← upd_state (set_commands []);
  goto (P_commands l false).

(** One round of its loop. *)
Definition process_command (g : sqe_env) (command : vl_uring_command) : U vl_status :=
  match command with
  | VL_URING_COMMAND_SUBMIT operation => vl_uring_prepare_operation g operation
  | VL_URING_COMMAND_CANCEL operation =>
      o ← load_op operation;
      status ← (if negb (resolved o) then vl_uring_prepare_cancel g operation else mret VL_OK);
      _ ← upd_op operation (set_cancel_command_pending false);
      _ ← (if resolved o && completion_consumed o then free_op operation else mret tt);
      mret status
  end.

Definition command_round (g : sqe_env) (command : vl_uring_command) (rest : list vl_uring_command) (stopping : bool) : U unit :=
  status ← process_command g command;
  if decide (status <> VL_OK)
  then _ ← fail_worker status; goto (P_commands rest true)
  else goto (P_commands rest stopping).

(** Its last critical section, and the next poll of the eventfd. *)
Definition commands_done (g : sqe_env) (stopping : bool) : U unit :=
  stop ← get_state stop_requested;
  if stopping || stop then goto P_exit else
  status ← vl_uring_prepare_wakeup g;
  if decide (status <> VL_OK) then _ ← fail_worker VL_ERROR_SYSTEM; goto P_exit
  else goto P_submit.

(** The result of [io_uring_wait_cqe]. *)
Inductive wait_result := Wait_interrupted | Wait_failed | Wait_entry.

Definition worker_wait (calloc : bool) (r : wait_result) : U unit :=
  match r with
  | Wait_interrupted => mret tt
  | Wait_failed => _ ← fail_worker VL_ERROR_SYSTEM; goto P_exit
  | Wait_entry =>
      e ← deref (fun w => head (ring_cq (u_state w)));
      _ ← upd_state (fun s => set_ring_cq (tail (ring_cq s)) s);
      match e.1 with
      | Sqe_wakeup => _ ← vl_uring_drain_wakeup; goto P_take
      | Sqe_cancel _ => goto P_submit
      | Sqe_operation operation => _ ← complete_unlocked calloc operation e.2; goto (P_resolve operation)
      | Sqe_unset => ub
      end
  end.

Definition worker_submit (ok : bool) : U unit :=
  sent ← io_uring_submit ok;
  if negb sent then _ ← fail_worker VL_ERROR_SYSTEM; goto P_exit else goto P_wait.

(** [io_uring_queue_exit] discards the ring. *)
Definition worker_exit : U unit :=
  upd_state (fun s => set_worker_pc P_stopped (set_ring_sq [] (set_ring_inflight [] (set_ring_cq [] s)))).

(** What the environment decides for one step of the worker. *)
Record worker_env := mk_worker_env { we_calloc : bool; we_wait : wait_result; we_sqe : sqe_env; we_submit : bool }.

(** [vl_uring_worker_main], one critical section at a time. *)
Definition vl_uring_worker_main (e : worker_env) : U unit :=
  pc ← get_state worker_pc;
  match pc : uring_pc with
  | P_wait => worker_wait (we_calloc e) (we_wait e)
  | P_take => take_commands
  | P_commands (c :: rest) stopping => command_round (we_sqe e) c rest stopping
  | P_commands [] stopping => commands_done (we_sqe e) stopping
  | P_resolve operation => _ ← complete_locked operation; goto P_submit
  | P_submit => worker_submit (we_submit e)
  | P_exit => worker_exit
  | P_stopped => mret tt
  end.

(** ** Starting and stopping *)

(** Frees what the handle still holds; the first loop frees the commands. *)
Fixpoint free_active (l : list nat) : U unit :=
  match l with
  | [] => mret tt
  | a :: l =>
      o ← load_op a;
      q ← load_urequest (uo_request o);
      _ ← (match rq_op (ur_request q) with
           | VL_IO_TIMEOUT => mret tt
           | _ => on_registry (vl_socket_release (rq_fd (ur_request q)) (rq_generation (ur_request q)))
           end);
      _ ← free_op a;
      free_active l
  end.

Fixpoint free_completed (l : list nat) : U unit :=
  match l with
  | [] => mret tt
  | a :: l => _ ← free_op a; free_completed l
  end.

Definition vl_uring_free_state : U unit :=
  _ ← upd_state (set_commands []);
  a ← get_state active;
  _ ← free_active a;
  _ ← upd_state (set_active []);
  c ← get_state completed;
  _ ← free_completed c;
  upd_state (set_completed []).

(** The answers [vl_io_worker_start] gets: calloc, the three pthread initialisations,
    eventfd, pthread_create, and in the new thread io_uring_queue_init (0 or an error),
    the first entry and the first submission. *)
Record start_env := mk_start_env {
  st_calloc : bool;
  st_mutex : bool;
  st_cond : bool;
  st_startup_cond : bool;
  st_eventfd : bool;
  st_thread : bool;
  st_queue_init : Z;
  st_sqe : sqe_env;
  st_submit : bool }.

Definition new_state : vl_uring_state := mk_uring [] [] [] 0 VL_OK false [] [] [] P_wait.

(** The start of [vl_uring_worker_main]: the status it publishes. *)
Definition worker_boot (e : start_env) : U vl_status :=
  if st_queue_init e <? 0 then _ ← goto P_stopped; mret (vl_uring_status_from_error (- st_queue_init e)) else
  status ← vl_uring_prepare_wakeup (st_sqe e);
  if decide (status <> VL_OK) then _ ← worker_exit; mret VL_ERROR_SYSTEM else
  sent ← io_uring_submit (st_submit e);
  if negb sent then _ ← worker_exit; mret VL_ERROR_SYSTEM else mret VL_OK.

Definition ring_depth (queue_depth : Z) : Z :=
  let depth := if queue_depth =? 0 then VL_URING_DEFAULT_DEPTH else queue_depth in
  if depth <? VL_URING_MINIMUM_DEPTH then VL_URING_MINIMUM_DEPTH else depth.

(** [*worker] is NULL ([running] false) and the state of the world is replaced by a new
    one; the result says whether the handle is set. *)
Definition vl_io_worker_start (e : start_env) (worker : option bool) (queue_depth : Z) : U (vl_status * bool) :=
  match worker with
  | Some false =>
      let depth := ring_depth queue_depth in
      if negb (st_calloc e) then mret (VL_ERROR_OUT_OF_MEMORY, false) else
      if negb (st_mutex e && st_cond e && st_startup_cond e) then mret (VL_ERROR_SYSTEM, false) else
      _ ← upd_state (fun _ => new_state);
      if negb (st_eventfd e && st_thread e) then _ ← vl_uring_free_state; mret (VL_ERROR_SYSTEM, false) else
      status ← worker_boot e;
      if decide (status <> VL_OK) then _ ← vl_uring_free_state; mret (status, false) else
      mret (VL_OK, true)
  | _ => mret (VL_ERROR_INVALID_ARGUMENT, default false worker)
  end.

(** [vl_io_worker_stop] up to [pthread_join]; what follows the join is [vl_uring_free_state]. *)
Definition request_stop (written : bool) : U unit :=
  _ ← upd_state (set_stop_requested true);
  _ ← vl_uring_write_wakeup written;
  mret tt.

(** ** The client's calls *)

(** The critical section of [vl_io_worker_submit] and the allocations before it: the status
    of a call that ends there, or the operation that was queued. *)
Definition submit_locked (calloc : bool) (request : nat) : U (vl_status + nat) :=
  if negb calloc then mret (inl VL_ERROR_OUT_OF_MEMORY) else
  a ← gets u_next;
  _ ← modify (fun w => set_u_next (S (u_next w)) w);
  status ← get_state worker_status;
  if decide (status <> VL_OK) then mret (inl VL_ERROR_INVALID_STATE) else
  found ← vl_uring_find_active_locked request;
  match found with
  | Some _ => mret (inl VL_ERROR_INVALID_STATE)
  | None =>
      _ ← modify (fun w => set_u_ops (<[a := mk_uop request (0, 0) empty_completion false false false]> (u_ops w)) w);
      _ ← upd_state (fun s => set_active (a :: active s) s);
      _ ← vl_uring_append_command_locked (VL_URING_COMMAND_SUBMIT a);
      _ ← modify (fun w => set_u_accepted (u_accepted w ++ [(a, request)]) w);
      mret (inr a)
  end.

Definition vl_io_worker_submit (calloc written : bool) (request : nat) : U vl_status :=
  r ← submit_locked calloc request;
  match r with
  | inl status => mret status
  | inr _ => vl_uring_write_wakeup written
  end.

(** The same for [vl_io_worker_cancel]. *)
Definition cancel_locked (calloc : bool) (request : nat) : U (vl_status + nat) :=
  if negb calloc then mret (inl VL_ERROR_OUT_OF_MEMORY) else
  found ← vl_uring_find_active_locked request;
  match found with
  | None => mret (inl VL_ERROR_INVALID_STATE)
  | Some a =>
      o ← load_op a;
      if cancel_command_pending o then mret (inl VL_ERROR_INVALID_STATE) else
      _ ← upd_op a (set_cancel_command_pending true);
      _ ← vl_uring_append_command_locked (VL_URING_COMMAND_CANCEL a);
      mret (inr a)
  end.

Definition vl_io_worker_cancel (calloc written : bool) (request : nat) : U vl_status :=
  r ← cancel_locked calloc request;
  match r with
  | inl status => mret status
  | inr _ => vl_uring_write_wakeup written
  end.

(** Seconds and nanoseconds of the time [now]. *)
Definition vl_uring_make_deadline (now : Z * Z) (timeout_ms : Z) : Z * Z :=
  let sec := now.1 + timeout_ms ÷ 1000 in
  let nsec := now.2 + Z.rem timeout_ms 1000 * 1000000 in
  if 1000000000 <=? nsec then (sec + 1, nsec - 1000000000) else (sec, nsec).

(** How the wait on the condition variable ends. *)
Inductive cond_result := Cond_woken | Cond_timed_out | Cond_error.

(** The end of [vl_io_worker_poll]: the oldest completion, or the status of the worker. *)
Definition poll_take : U (vl_status + vl_io_completion) :=
  l ← get_state completed;
  match l with
  | [] => status ← get_state worker_status; mret (inl status)
  | a :: rest =>
      o ← load_op a;
      _ ← upd_state (set_completed rest);
      _ ← upd_op a (set_completion_consumed true);
      _ ← modify (fun w => set_u_delivered (u_delivered w ++ [(a, uo_completion o)]) w);
      _ ← (if negb (cancel_command_pending o) then free_op a else mret tt);
      mret (inr (uo_completion o))
  end.

(** One test of the loop's condition; [None] is another round. *)
Definition poll_round (c : cond_result) (timeout_ms : Z) : U (option (vl_status + vl_io_completion)) :=
  l ← get_state completed;
  status ← get_state worker_status;
  if bool_decide (l = []) && bool_decide (status = VL_OK) then
    if timeout_ms =? 0 then mret (Some (inl VL_ERROR_WOULD_BLOCK)) else
    match c with
    | Cond_timed_out => mret (Some (inl VL_ERROR_WOULD_BLOCK))
    | Cond_error => mret (Some (inl VL_ERROR_SYSTEM))
    | Cond_woken => mret None
    end
  else r ← poll_take; mret (Some r).

(** [others]: what the other threads do while the caller waits, one entry per wait. *)
Fixpoint poll_rounds (waits : list (cond_result * U unit)) (timeout_ms : Z) : U (vl_status + vl_io_completion) :=
  match waits with
  | [] => ub
  | (c, others) :: waits =>
      r ← poll_round c timeout_ms;
      match r with
      | Some answer => mret answer
      | None => _ ← others; poll_rounds waits timeout_ms
      end
  end.

Definition vl_io_worker_poll (waits : list (cond_result * U unit)) (timeout_ms : Z) : U (vl_status + vl_io_completion) :=
  if timeout_ms <? -1 then mret (inl VL_ERROR_INVALID_ARGUMENT) else poll_rounds waits timeout_ms.

(** ** uring_backend.c *)

Definition vl_uring_validate_request (q : uring_request) : vl_status :=
  let rq := ur_request q in
  match rq_op rq with
  | VL_IO_ACCEPT => if 0 <=? rq_fd rq then VL_OK else VL_ERROR_INVALID_ARGUMENT
  | VL_IO_RECV | VL_IO_SEND =>
      if (rq_fd rq <? 0) || (bool_decide (rq_buf rq = None) && negb (rq_len rq =? 0))
      then VL_ERROR_INVALID_ARGUMENT else VL_OK
  | VL_IO_CONNECT => if (rq_fd rq <? 0) || negb (ur_address q) then VL_ERROR_INVALID_ARGUMENT else VL_OK
  | VL_IO_TIMEOUT => if negb (ur_timeout_ns q =? 0) then VL_OK else VL_ERROR_INVALID_ARGUMENT
  | VL_IO_CANCEL => VL_ERROR_UNSUPPORTED
  end.

(** [vl_uring_backend_submit] up to the critical section of the worker's part: [inl] is a
    call that has ended, [inr] one that has queued its operation. *)
Definition backend_submit_locked (calloc : bool) (request : nat) : U (vl_status + nat) :=
  q ← load_urequest request;
  let status := vl_uring_validate_request q in
  if decide (status <> VL_OK) then mret (inl status) else
  let rq := ur_request q in
  match rq_op rq with
  | VL_IO_TIMEOUT => _ ← upd_generation request 0; submit_locked calloc request
  | _ =>
      generation ← on_registry (vl_socket_generation (rq_fd rq));
      if (generation =? 0) || (negb (rq_generation rq =? 0) && negb (rq_generation rq =? generation))
      then mret (inl VL_ERROR_INVALID_STATE) else
      let mine := if rq_generation rq =? 0 then generation else rq_generation rq in
      _ ← upd_generation request mine;
      claim ← on_registry (vl_socket_claim (rq_fd rq) mine);
      if decide (claim <> VL_OK) then mret (inl VL_ERROR_INVALID_STATE) else
      r ← submit_locked calloc request;
      match r with
      | inl status => _ ← on_registry (vl_socket_release (rq_fd rq) mine); mret (inl status)
      | inr a => mret (inr a)
      end
  end.

(** The rest of it: the write to the eventfd, and the claim given back when it fails. *)
Definition backend_submit_wake (written : bool) (request : nat) : U vl_status :=
  status ← vl_uring_write_wakeup written;
  if decide (status <> VL_OK) then
    q ← load_urequest request;
    _ ← (match rq_op (ur_request q) with
         | VL_IO_TIMEOUT => mret tt
         | _ => on_registry (vl_socket_release (rq_fd (ur_request q)) (rq_generation (ur_request q)))
         end);
    mret status
  else mret status.

Definition vl_uring_backend_submit (calloc written : bool) (request : nat) : U vl_status :=
  r ← backend_submit_locked calloc request;
  match r with
  | inl status => mret status
  | inr _ => backend_submit_wake written request
  end.

Definition vl_uring_backend_cancel (calloc written : bool) (request : nat) : U vl_status :=
  vl_io_worker_cancel calloc written request.

Definition vl_uring_backend_poll (waits : list (cond_result * U unit)) (timeout_ms : Z) : U (vl_status + vl_io_completion) :=
  vl_io_worker_poll waits timeout_ms.

Definition vl_uring_backend_init (e : start_env) (uring : bool) (queue_depth : Z) : U (vl_status * bool) :=
  vl_io_worker_start e (Some uring) queue_depth.

(** ** The system: the worker, the kernel, the client and the other threads *)

(** Where the client's thread is: outside the backend; before the write to the eventfd
    that ends a submission or a cancellation; in [vl_io_worker_poll]; waiting for the
    worker in [vl_io_worker_stop]; past it. *)
Inductive client_pc :=
  | C_idle
  | C_wake_submit (request : nat)
  | C_wake_cancel
  | C_polling (timeout_ms : Z)
  | C_stopping
  | C_closed.

(** [us_lost]: a write to the eventfd has failed. *)
Record uring_system := mk_usystem { us_world : uring_world; us_client : client_pc; us_lost : bool }.

(** The request is the backend's until its completion has been returned. *)
Definition request_free (w : uring_world) (r : nat) : Prop :=
  forall a o, u_ops w !! a = Some o -> uo_request o = r -> completion_consumed o = true.

Inductive uring_step : uring_system -> uring_system -> Prop :=
  | us_worker w cp lost e w' :
      (worker_pc (u_state w) = P_wait -> we_wait e = Wait_entry -> ring_cq (u_state w) <> []) ->
      worker_pc (u_state w) <> P_stopped -> cp <> C_closed ->
      vl_uring_worker_main e w = Some (tt, w') ->
      uring_step (mk_usystem w cp lost) (mk_usystem w' cp lost)
  | us_kernel w cp lost l e l' result :
      ring_inflight (u_state w) = l ++ e :: l' -> (e = Sqe_wakeup -> 0 < event_count (u_state w)) ->
      uring_step (mk_usystem w cp lost)
        (mk_usystem (set_u_state (set_ring_cq (ring_cq (u_state w) ++ [(e, result)]) (set_ring_inflight (l ++ l') (u_state w))) w) cp lost)
  | us_submit_ends w lost calloc request status w' : is_Some (u_requests w !! request) ->
      backend_submit_locked calloc request w = Some (inl status, w') ->
      uring_step (mk_usystem w C_idle lost) (mk_usystem w' C_idle lost)
  | us_submit_queued w lost calloc request a w' : is_Some (u_requests w !! request) ->
      backend_submit_locked calloc request w = Some (inr a, w') ->
      uring_step (mk_usystem w C_idle lost) (mk_usystem w' (C_wake_submit request) lost)
  | us_submit_wake w lost request written status w' :
      backend_submit_wake written request w = Some (status, w') ->
      uring_step (mk_usystem w (C_wake_submit request) lost) (mk_usystem w' C_idle (lost || negb written))
  | us_cancel_ends w lost calloc request status w' :
      cancel_locked calloc request w = Some (inl status, w') ->
      uring_step (mk_usystem w C_idle lost) (mk_usystem w' C_idle lost)
  | us_cancel_queued w lost calloc request a w' :
      cancel_locked calloc request w = Some (inr a, w') ->
      uring_step (mk_usystem w C_idle lost) (mk_usystem w' C_wake_cancel lost)
  | us_cancel_wake w lost written status w' :
      vl_uring_write_wakeup written w = Some (status, w') ->
      uring_step (mk_usystem w C_wake_cancel lost) (mk_usystem w' C_idle (lost || negb written))
  | us_poll w lost timeout_ms : -1 <= timeout_ms ->
      uring_step (mk_usystem w C_idle lost) (mk_usystem w (C_polling timeout_ms) lost)
  | us_poll_round w lost c timeout_ms r w' :
      poll_round c timeout_ms w = Some (r, w') ->
      uring_step (mk_usystem w (C_polling timeout_ms) lost)
        (mk_usystem w' (match r with Some _ => C_idle | None => C_polling timeout_ms end) lost)
  | us_stop w lost written w' :
      request_stop written w = Some (tt, w') ->
      uring_step (mk_usystem w C_idle lost) (mk_usystem w' C_stopping (lost || negb written))
  | us_join w lost w' : worker_pc (u_state w) = P_stopped ->
      vl_uring_free_state w = Some (tt, w') ->
      uring_step (mk_usystem w C_stopping lost) (mk_usystem w' C_closed lost)
  | us_registry {A} w cp lost (m : N A) x n : m (u_sockets w) = Some (x, n) ->
      uring_step (mk_usystem w cp lost) (mk_usystem (set_u_sockets n w) cp lost)
  | us_edit w cp lost r q : request_free w r -> cp <> C_wake_submit r ->
      uring_step (mk_usystem w cp lost) (mk_usystem (set_u_requests (partial_alter (fun _ => q) r (u_requests w)) w) cp lost).

Inductive uring_reach : uring_system -> Prop :=
  | ur_start w e depth w' : u_ops w = ∅ -> u_accepted w = [] -> u_delivered w = [] ->
      vl_uring_backend_init e false depth w = Some ((VL_OK, true), w') -> uring_reach (mk_usystem w' C_idle false)
  | ur_step s s' : uring_reach s -> uring_step s s' -> uring_reach s'.
