(* ===== verification/UringInv.v ===== *)
(** * The io_uring worker: the invariant, and the steps of the worker

    [tokens] lists where the operations that are not resolved are: in a command, in an
    entry of the ring, or in the hands of the worker.  While the worker is healthy these
    are exactly the active operations, each once. *)

From S2P Require Import Prelude Socket SocketProps Epoll Uring.
From stdpp Require Import options.

Open Scope Z_scope.

Definition submits (l : list vl_uring_command) : list nat :=
  omap (fun c => match c with VL_URING_COMMAND_SUBMIT a => Some a | _ => None end) l.
Definition cancels (l : list vl_uring_command) : list nat :=
  omap (fun c => match c with VL_URING_COMMAND_CANCEL a => Some a | _ => None end) l.
Definition entries (l : list sqe) : list nat :=
  omap (fun e => match e with Sqe_operation a => Some a | _ => None end) l.
Definition is_wakeup (e : sqe) : bool := match e with Sqe_wakeup => true | _ => false end.
Definition wakeups (l : list sqe) : nat := length (filter (fun e => is_wakeup e = true) l).

Definition taken (pc : uring_pc) : list vl_uring_command := match pc with P_commands l _ => l | _ => [] end.
Definition resolving (pc : uring_pc) : list nat := match pc with P_resolve a => [a] | _ => [] end.

(** Every command not yet processed, and every entry of the ring. *)
Definition all_commands (s : vl_uring_state) : list vl_uring_command := taken (worker_pc s) ++ commands s.
Definition ring (s : vl_uring_state) : list sqe := ring_sq s ++ ring_inflight s ++ (ring_cq s).*1.
Definition tokens (s : vl_uring_state) : list nat :=
  submits (all_commands s) ++ entries (ring s) ++ resolving (worker_pc s).

Definition running (pc : uring_pc) : Prop := match pc with P_exit | P_stopped => False | _ => True end.
Definition healthy (s : vl_uring_state) : Prop := worker_status s = VL_OK /\ running (worker_pc s).

(** Is the poll of the eventfd in the ring? *)
Definition polls_eventfd (pc : uring_pc) : bool := match pc with P_wait | P_resolve _ | P_submit => true | _ => false end.

Record ops_ok (w : uring_world) : Prop := {
  oo_active : forall a, a ∈ active (u_state w) -> exists o, u_ops w !! a = Some o /\ resolved o = false /\ completion_consumed o = false /\
    exists q, u_requests w !! uo_request o = Some q /\ rq_op (ur_request q) <> VL_IO_CANCEL;
  oo_completed : forall a, a ∈ completed (u_state w) -> exists o, u_ops w !! a = Some o /\ resolved o = true /\ completion_consumed o = false /\
    c_request (uo_completion o) = Some (uo_request o);
  oo_ops : forall a o, u_ops w !! a = Some o -> a ∈ active (u_state w) \/ a ∈ completed (u_state w) \/
    (resolved o = true /\ completion_consumed o = true /\ cancel_command_pending o = true);
  oo_cancels : forall a, a ∈ cancels (all_commands (u_state w)) <-> exists o, u_ops w !! a = Some o /\ cancel_command_pending o = true;
  oo_resolving : forall a, worker_pc (u_state w) = P_resolve a -> exists o, u_ops w !! a = Some o /\
    c_request (uo_completion o) = Some (uo_request o) }.

Record lists_ok (w : uring_world) : Prop := {
  ul_nodup : NoDup (active (u_state w) ++ completed (u_state w));
  ul_cancels : NoDup (cancels (all_commands (u_state w)));
  ul_tokens : tokens (u_state w) ⊆+ active (u_state w);
  ul_healthy : healthy (u_state w) -> tokens (u_state w) ≡ₚ active (u_state w);
  ul_history : (u_accepted w).*1 ≡ₚ active (u_state w) ++ completed (u_state w) ++ (u_delivered w).*1;
  ul_fresh : forall a, a ∈ (u_accepted w).*1 -> (a < u_next w)%nat;
  ul_unique : NoDup (u_accepted w).*1;
  ul_request : forall a o, u_ops w !! a = Some o -> (a, uo_request o) ∈ u_accepted w;
  ul_delivered : forall a c, (a, c) ∈ u_delivered w -> exists r, (a, r) ∈ u_accepted w /\ c_request c = Some r }.

Definition waking (cp : client_pc) : Prop := match cp with C_wake_submit _ | C_wake_cancel => True | _ => False end.

Record wake_ok (s : vl_uring_state) (cp : client_pc) (lost : bool) : Prop := {
  wk_count : 0 <= event_count s;
  wk_unset : Sqe_unset ∉ ring s;
  wk_one : running (worker_pc s) -> wakeups (ring s) = if polls_eventfd (worker_pc s) then 1%nat else 0%nat;
  wk_cq : Sqe_wakeup ∈ (ring_cq s).*1 -> 0 < event_count s;
  wk_commands : commands s <> [] -> healthy s -> lost = false -> 0 < event_count s \/ waking cp \/ worker_pc s = P_take;
  wk_stop : stop_requested s = true -> healthy s -> lost = false -> 0 < event_count s \/ polls_eventfd (worker_pc s) = false;
  wk_client : stop_requested s = true <-> (cp = C_stopping \/ cp = C_closed);
  wk_failed : match worker_pc s with
              | P_commands _ true => worker_status s <> VL_OK
              | P_exit | P_stopped => worker_status s <> VL_OK \/ stop_requested s = true
              | _ => True
              end }.

(** The commands behind the ones the worker took cancel operations it cannot have resolved
    meanwhile. *)
Definition late_cancels (s : vl_uring_state) : Prop :=
  match worker_pc s with
  | P_commands _ _ => forall a, a ∈ cancels (commands s) -> a ∈ active s
  | P_exit | P_stopped => worker_status s = VL_OK -> forall a, a ∈ cancels (commands s) -> a ∈ active s
  | _ => True
  end.

Record uring_ok (s : uring_system) : Prop := {
  uk_ops : ops_ok (us_world s);
  uk_lists : lists_ok (us_world s);
  uk_wake : wake_ok (u_state (us_world s)) (us_client s) (us_lost s);
  uk_late : us_client s <> C_closed -> late_cancels (u_state (us_world s)) }.

(** ** Lists *)

Lemma submits_app l l' : submits (l ++ l') = submits l ++ submits l'.
Proof. apply omap_app. Qed.
Lemma cancels_app l l' : cancels (l ++ l') = cancels l ++ cancels l'.
Proof. apply omap_app. Qed.
Lemma entries_app l l' : entries (l ++ l') = entries l ++ entries l'.
Proof. apply omap_app. Qed.
Lemma entries_cons e l : entries (e :: l) = entries [e] ++ entries l.
Proof. exact (entries_app [e] l). Qed.
Lemma wakeups_app l l' : wakeups (l ++ l') = (wakeups l + wakeups l')%nat.
Proof. unfold wakeups. by rewrite list.filter_app, length_app. Qed.

Lemma elem_of_entries a l : a ∈ entries l <-> Sqe_operation a ∈ l.
Proof.
  unfold entries. rewrite list_elem_of_omap. split.
  - intros ([| | |] & Hx & E); simplify_eq; done.
  - intros Hx. by exists (Sqe_operation a).
Qed.

Lemma elem_of_cancels a l : a ∈ cancels l <-> VL_URING_COMMAND_CANCEL a ∈ l.
Proof.
  unfold cancels. rewrite list_elem_of_omap. split.
  - intros ([|] & Hx & E); simplify_eq; done.
  - intros Hx. by exists (VL_URING_COMMAND_CANCEL a).
Qed.

(** ** Runs *)

Lemma load_op_run a o w : u_ops w !! a = Some o -> load_op a w = Some (o, w).
Proof. intros E. unfold load_op, deref. by rewrite E. Qed.
Lemma upd_op_run a o f w : u_ops w !! a = Some o -> upd_op a f w = Some (tt, set_u_ops (<[a := f o]> (u_ops w)) w).
Proof. intros E. unfold upd_op. by rewrite (bind_Some _ _ _ _ _ (load_op_run a o w E)). Qed.
Lemma free_op_run a o w : u_ops w !! a = Some o -> free_op a w = Some (tt, set_u_ops (delete a (u_ops w)) w).
Proof. intros E. unfold free_op. by rewrite (bind_Some _ _ _ _ _ (load_op_run a o w E)). Qed.
Lemma load_urequest_run r q w : u_requests w !! r = Some q -> load_urequest r w = Some (q, w).
Proof. intros E. unfold load_urequest, deref. by rewrite E. Qed.

Lemma remove_active_run a l w : (forall x, x ∈ l -> is_Some (u_ops w !! x)) ->
  exists l', remove_active a l w = Some (l', w) /\ (a ∈ l -> l ≡ₚ a :: l') /\ (forall x, x ∈ l' -> x ∈ l).
Proof.
  induction l as [|x l IH]; intros Hl; cbn [remove_active].
  { exists []. split; [done|]. split; [intros Ha; by apply not_elem_of_nil in Ha|done]. }
  destruct (decide (x = a)) as [->|Hne].
  { exists l. split; [done|]. split; [done|]. intros y Hy. by right. }
  destruct (Hl x ltac:(left)) as [o Ho]. rewrite (bind_Some _ _ _ _ _ (load_op_run x o w Ho)).
  destruct IH as (l' & Hr & Hp & Hin); [intros y Hy; apply Hl; by right|]. rewrite (bind_Some _ _ _ _ _ Hr).
  exists (x :: l'). split; [done|]. split.
  - intros [->|Ha]%elem_of_cons; [done|]. rewrite (Hp Ha). apply Permutation_swap.
  - intros y [->|Hy]%elem_of_cons; [left|right; by apply Hin].
Qed.

Lemma find_active_run r l w : (forall x, x ∈ l -> is_Some (u_ops w !! x)) ->
  exists f, find_active r l w = Some (f, w) /\
    match f with Some a => a ∈ l | None => forall a o, a ∈ l -> u_ops w !! a = Some o -> uo_request o <> r end.
Proof.
  induction l as [|x l IH]; intros Hl; cbn [find_active].
  { exists None. split; [done|]. intros a o Ha. by apply not_elem_of_nil in Ha. }
  destruct (Hl x ltac:(left)) as [o Ho]. rewrite (bind_Some _ _ _ _ _ (load_op_run x o w Ho)).
  destruct (decide (uo_request o = r)) as [E|E]; [exists (Some x); split; [done|left]|].
  destruct IH as (f & Hr & Hf); [intros y Hy; apply Hl; by right|]. exists f. split; [done|].
  destruct f as [a|]; [by right|]. intros a o' [->|Ha]%elem_of_cons Ho'; [congruence|by apply (Hf a)].
Qed.

(** ** Changes that leave the operations alone *)

Lemma ops_ok_sockets w n : ops_ok w -> ops_ok (set_u_sockets n w).
Proof. intros []. by split. Qed.
Lemma lists_ok_sockets w n : lists_ok w -> lists_ok (set_u_sockets n w).
Proof. intros []. by split. Qed.

Lemma state_step w s' : ops_ok w -> lists_ok w -> active s' = active (u_state w) -> completed s' = completed (u_state w) ->
  cancels (all_commands s') ≡ₚ cancels (all_commands (u_state w)) -> tokens s' ⊆+ tokens (u_state w) ->
  (healthy s' -> healthy (u_state w) /\ tokens s' ≡ₚ tokens (u_state w)) ->
  (forall a, worker_pc s' = P_resolve a -> exists o, u_ops w !! a = Some o /\ c_request (uo_completion o) = Some (uo_request o)) ->
  ops_ok (set_u_state s' w) /\ lists_ok (set_u_state s' w).
Proof.
  intros [O1 O2 O3 O4 O5] [L1 L2 L3 L4 L5 L6 L7 L8 L9] Ea Ec Hc Ht Hh Hr. split.
  - split; cbn; rewrite ?Ea, ?Ec; try done. intros a. rewrite Hc. apply O4.
  - split; cbn; rewrite ?Ea, ?Ec; try done.
    + by rewrite Hc.
    + by etrans.
    + intros Hs. destruct (Hh Hs) as [Hs' Hp]. rewrite Hp. by apply L4.
Qed.

(** Entries that move inside the ring. *)
Lemma entries_permuted l l' : l ≡ₚ l' -> entries l ≡ₚ entries l'.
Proof. intros Hp. unfold entries. by rewrite Hp. Qed.
Lemma wakeups_permuted l l' : l' ≡ₚ l -> wakeups l' = wakeups l.
Proof. intros Hp. unfold wakeups. by rewrite Hp. Qed.

Lemma registry_total {A} (m : N A) w : (forall n, is_Some (m n)) -> exists a n, on_registry m w = Some (a, set_u_sockets n w).
Proof. intros Hm. unfold on_registry. destruct (Hm (u_sockets w)) as [[a n] ->]. by exists a, n. Qed.

Lemma release_total fd g n : is_Some (vl_socket_release fd g n).
Proof. unfold vl_socket_release, vl_socket_find_slot_locked, write_slot. crun. repeat case_match; eauto; done. Qed.
Lemma generation_total fd n : is_Some (vl_socket_generation fd n).
Proof. unfold vl_socket_generation, vl_socket_find_slot_locked. crun. repeat case_match; eauto; done. Qed.
Lemma claim_total fd g n : is_Some (vl_socket_claim fd g n).
Proof. unfold vl_socket_claim, vl_socket_find_slot_locked, write_slot. crun. repeat case_match; eauto; done. Qed.
Lemma track_total c fd n : is_Some (vl_socket_track c fd n).
Proof. unfold vl_socket_track, track_slot, vl_socket_find_slot_locked, write_slot. crun. repeat case_match; eauto; done. Qed.
Lemma open_total fd n : is_Some (os_open fd n).
Proof. unfold os_open. crun. eauto. Qed.
Lemma close_total r fd n : is_Some (os_close r fd n).
Proof. unfold os_close. repeat case_match; eauto; done. Qed.

#[local] Hint Resolve release_total generation_total claim_total track_total open_total close_total : veloco.

Lemma track_accepted_run calloc op result w : exists r n, track_accepted calloc op result w = Some (r, set_u_sockets n w) /\ (r = result \/ r = - EMFILE).
Proof.
  unfold track_accepted. case_match; [|exists result, (u_sockets w); split; [by destruct w|by left]].
  destruct (registry_total (os_open result) w ltac:(eauto with veloco)) as (x1 & n1 & H1). rewrite (bind_Some _ _ _ _ _ H1).
  destruct (registry_total (vl_socket_track calloc result) (set_u_sockets n1 w) ltac:(eauto with veloco)) as (x2 & n2 & H2).
  rewrite (bind_Some _ _ _ _ _ H2). case_match; [|by exists result, n2; split; [|left]].
  destruct (registry_total (os_close 0 result) (set_u_sockets n2 w) ltac:(eauto with veloco)) as (x3 & n3 & H3).
  cbn. change (set_u_sockets n2 (set_u_sockets n1 w)) with (set_u_sockets n2 w). rewrite (bind_Some _ _ _ _ _ H3).
  exists (- EMFILE), n3. split; [done|by right].
Qed.

Lemma complete_unlocked_run calloc a result w o q : u_ops w !! a = Some o -> u_requests w !! uo_request o = Some q ->
  exists c n, complete_unlocked calloc a result w = Some (tt, set_u_sockets n (set_u_ops (<[a := set_uo_completion c o]> (u_ops w)) w)) /\
    c_request c = Some (uo_request o) /\ (c_result c = result \/ c_result c = - EMFILE).
Proof.
  intros Ho Hq. unfold complete_unlocked. rewrite (bind_Some _ _ _ _ _ (load_op_run a o w Ho)).
  rewrite (bind_Some _ _ _ _ _ (load_urequest_run _ q w Hq)).
  destruct (track_accepted_run calloc (rq_op (ur_request q)) result w) as (r & n1 & H1 & Hres). rewrite (bind_Some _ _ _ _ _ H1).
  rewrite (bind_Some _ _ _ _ _ (upd_op_run a o _ (set_u_sockets n1 w) Ho)). set (c := mk_completion _ _ _ _ _).
  exists c. set (w1 := set_u_ops _ _).
  destruct (registry_total (vl_socket_release (rq_fd (ur_request q)) (rq_generation (ur_request q))) w1 ltac:(eauto with veloco)) as ([] & n2 & H2).
  destruct (rq_op (ur_request q)); try (exists n2; rewrite H2; split; [done|split; [done|exact Hres]]).
  exists n1. split; [done|]. split; [done|exact Hres].
Qed.

(** ** The worker *)

(** The environment lets the worker take a step. *)
Definition worker_enabled (e : worker_env) (w : uring_world) : Prop :=
  (worker_pc (u_state w) = P_wait -> we_wait e = Wait_entry -> ring_cq (u_state w) <> []) /\ worker_pc (u_state w) <> P_stopped.

Definition steps_to (m : U unit) (w : uring_world) (cp : client_pc) (lost : bool) : Prop :=
  exists w', m w = Some (tt, w') /\ uring_ok (mk_usystem w' cp lost).

Lemma uring_ok_state w s' cp lost : ops_ok (set_u_state s' w) /\ lists_ok (set_u_state s' w) -> wake_ok s' cp lost ->
  (cp <> C_closed -> late_cancels s') -> uring_ok (mk_usystem (set_u_state s' w) cp lost).
Proof. intros [H1 H2] H3 H4. by split. Qed.

(** The worker gives up: its status is no longer [VL_OK]. *)
Lemma worker_fails w cp lost status pc : uring_ok (mk_usystem w cp lost) -> status <> VL_OK ->
  (pc = P_exit \/ exists l, pc = P_commands l true) ->
  submits (taken pc) ⊆+ submits (taken (worker_pc (u_state w))) -> cancels (taken pc) = cancels (taken (worker_pc (u_state w))) ->
  (match pc with P_commands _ _ => forall a, a ∈ cancels (commands (u_state w)) -> a ∈ active (u_state w) | _ => True end) ->
  (match pc with P_commands _ _ => polls_eventfd (worker_pc (u_state w)) = false /\ running (worker_pc (u_state w)) | _ => True end) ->
  uring_ok (mk_usystem (set_u_state (set_worker_pc pc (set_worker_status status (u_state w))) w) cp lost).
Proof.
  intros [Ho Hl Hw Hlate] Hst Hpc Hsub Hcan Hlc Hpoll. cbn [us_world us_client us_lost] in *.
  assert (Hunh : ~ healthy (set_worker_pc pc (set_worker_status status (u_state w)))) by (intros [E _]; done).
  apply uring_ok_state.
  - apply state_step; try done.
    + unfold all_commands. cbn. by rewrite !cancels_app, Hcan.
    + unfold tokens, all_commands, ring. cbn. rewrite !submits_app. assert (resolving pc = []) as -> by (by destruct Hpc as [->|(? & ->)]).
      apply submseteq_app; [by apply submseteq_app|apply submseteq_app; [done|apply submseteq_nil_l]].
    + intros a E. cbn in E. subst pc. by destruct Hpc as [?|(? & ?)].
  - destruct Hw as [W1 W2 W3 W4 W5 W6 W7 W8]. split; try done; cbn.
    + destruct Hpc as [->|(l & ->)]; [done|]. destruct Hpoll as [E Hr]. specialize (W3 Hr). rewrite E in W3. intros _. cbn. exact W3.
    + destruct Hpc as [->|(l & ->)]; [by left|done].
  - intros _. unfold late_cancels. cbn. destruct Hpc as [->|(l & ->)]; [by intros E|exact Hlc].
Qed.

Lemma worker_wait_failed w cp lost : uring_ok (mk_usystem w cp lost) -> worker_pc (u_state w) = P_wait ->
  steps_to (_ ← fail_worker VL_ERROR_SYSTEM; goto P_exit) w cp lost.
Proof.
  intros Hok Hpc. eexists. split; [reflexivity|]. apply (worker_fails w cp lost VL_ERROR_SYSTEM P_exit Hok); [done|by left| |by rewrite Hpc|done|done].
  rewrite Hpc. done.
Qed.

Lemma ring_tail s e res rest : ring_cq s = (e, res) :: rest -> ring s ≡ₚ e :: ring (set_ring_cq rest s).
Proof. intros E. unfold ring. cbn. rewrite E. cbn. rewrite !app_assoc. symmetry. apply Permutation_middle. Qed.

Lemma wakeups_cons e l : wakeups (e :: l) = ((if is_wakeup e then 1 else 0) + wakeups l)%nat.
Proof. unfold wakeups. rewrite list.filter_cons. destruct (is_wakeup e); [by rewrite decide_True|by rewrite decide_False]. Qed.

Lemma ring_tail_wakeups s e res rest : ring_cq s = (e, res) :: rest ->
  wakeups (ring s) = ((if is_wakeup e then 1 else 0) + wakeups (ring (set_ring_cq rest s)))%nat.
Proof. intros E. by rewrite (wakeups_permuted _ _ (ring_tail s e res rest E)), wakeups_cons. Qed.

Lemma wakeups_elem l : Sqe_wakeup ∈ l -> (0 < wakeups l)%nat.
Proof.
  intros Hin. apply list_elem_of_split in Hin as (l1 & l2 & ->). rewrite wakeups_app, wakeups_cons. cbn. lia.
Qed.

Lemma cq_in_ring e s : e ∈ (ring_cq s).*1 -> e ∈ ring s.
Proof. intros He. unfold ring. rewrite !elem_of_app. auto. Qed.

(** An entry leaves the ring with no operation of its own. *)
Lemma tokens_drop s e res rest pc n : ring_cq s = (e, res) :: rest -> taken pc = [] -> resolving pc = [] ->
  taken (worker_pc s) = [] -> resolving (worker_pc s) = [] -> entries [e] = [] ->
  tokens (set_worker_pc pc (set_event_count n (set_ring_cq rest s))) ≡ₚ tokens s.
Proof.
  intros Hcq E1 E2 E3 E4 E5. unfold tokens, all_commands. cbn. rewrite E1, E2, E3, E4. f_equiv. f_equiv.
  pose proof (ring_tail s e res rest Hcq) as Hp. change (ring (set_worker_pc pc (set_event_count n (set_ring_cq rest s)))) with (ring (set_ring_cq rest s)).
  by rewrite (entries_permuted _ _ Hp), entries_cons, E5.
Qed.

Lemma wait_wakeup w cp lost res rest calloc : uring_ok (mk_usystem w cp lost) -> worker_pc (u_state w) = P_wait ->
  ring_cq (u_state w) = (Sqe_wakeup, res) :: rest -> steps_to (worker_wait calloc Wait_entry) w cp lost.
Proof.
  intros [Ho Hl Hw Hlate] Hpc Hcq. cbn [us_world us_client us_lost] in *. pose proof Hw as [W1 W2 W3 W4 W5 W6 W7 W8].
  assert (Hev : 0 < event_count (u_state w)) by (apply W4; rewrite Hcq; left).
  set (s' := set_worker_pc P_take (set_event_count 0 (set_ring_cq rest (u_state w)))).
  exists (set_u_state s' w). split.
  { unfold worker_wait, vl_uring_drain_wakeup, get_state, upd_state, goto. crun. cbn. rewrite Hcq. cbn.
    destruct (Z.eqb_spec (event_count (u_state w)) 0); [lia|]. cbv [upd_state modify]. by rewrite Hcq. }
  pose proof (ring_tail _ _ _ _ Hcq) as Hp. rewrite Hpc in W3. specialize (W3 Logic.I).
  rewrite (ring_tail_wakeups _ _ _ _ Hcq) in W3. cbn [is_wakeup polls_eventfd] in W3.
  assert (Ht : tokens s' ≡ₚ tokens (u_state w)) by (apply (tokens_drop _ _ _ _ P_take 0 Hcq); try done; by rewrite Hpc).
  apply uring_ok_state.
  - apply state_step; try done.
    + unfold all_commands. cbn. by rewrite Hpc.
    + by rewrite Ht.
    + intros [E _]. split; [split; [done|by rewrite Hpc]|done].
  - split; try done.
    + intros Hin. apply W2. rewrite Hp. by right.
    + intros _. change (ring s') with (ring (set_ring_cq rest (u_state w))). cbn [polls_eventfd worker_pc s' set_worker_pc]. lia.
    + intros Hin. apply (cq_in_ring _ s') in Hin. apply wakeups_elem in Hin.
      change (ring s') with (ring (set_ring_cq rest (u_state w))) in Hin. lia.
    + intros _ _ _. right. by right.
    + intros _ _ _. by right.
  - done.
Qed.

Lemma wait_cancelled w cp lost a res rest calloc : uring_ok (mk_usystem w cp lost) -> worker_pc (u_state w) = P_wait ->
  ring_cq (u_state w) = (Sqe_cancel a, res) :: rest -> steps_to (worker_wait calloc Wait_entry) w cp lost.
Proof.
  intros [Ho Hl Hw Hlate] Hpc Hcq. cbn [us_world us_client us_lost] in *. pose proof Hw as [W1 W2 W3 W4 W5 W6 W7 W8].
  set (s' := set_worker_pc P_submit (set_ring_cq rest (u_state w))).
  exists (set_u_state s' w). split.
  { unfold worker_wait, get_state, upd_state, goto. crun. cbn. rewrite Hcq. cbn. cbv [upd_state modify]. by rewrite Hcq. }
  pose proof (ring_tail _ _ _ _ Hcq) as Hp. rewrite Hpc in W3. specialize (W3 Logic.I).
  rewrite (ring_tail_wakeups _ _ _ _ Hcq) in W3. cbn [is_wakeup polls_eventfd] in W3.
  assert (Ht : tokens s' ≡ₚ tokens (u_state w)).
  { change s' with (set_worker_pc P_submit (set_event_count (event_count (u_state w)) (set_ring_cq rest (u_state w)))).
    apply (tokens_drop _ _ _ _ _ _ Hcq); try done; by rewrite Hpc. }
  apply uring_ok_state.
  - apply state_step; try done.
    + unfold all_commands. cbn. by rewrite Hpc.
    + by rewrite Ht.
    + intros [E _]. split; [split; [done|by rewrite Hpc]|done].
  - split; try done.
    + intros Hin. apply W2. rewrite Hp. by right.
    + intros Hin. apply W4. rewrite Hcq. by right.
    + intros Hc [E _] Hlost. destruct (W5 Hc) as [?|[?|?]]; auto; [split; [done|by rewrite Hpc]|]. congruence.
    + intros Hs [E _] Hlost. destruct (W6 Hs) as [?|E']; auto; [split; [done|by rewrite Hpc]|]. by rewrite Hpc in E'.
  - done.
Qed.

(** An operation changes in its completion or its timeout only. *)
Lemma op_update_ok w a o o' : ops_ok w -> lists_ok w -> u_ops w !! a = Some o -> uo_request o' = uo_request o ->
  resolved o' = resolved o -> completion_consumed o' = completion_consumed o -> cancel_command_pending o' = cancel_command_pending o ->
  c_request (uo_completion o') = Some (uo_request o') \/ uo_completion o' = uo_completion o ->
  ops_ok (set_u_ops (<[a := o']> (u_ops w)) w) /\ lists_ok (set_u_ops (<[a := o']> (u_ops w)) w).
Proof.
  intros [O1 O2 O3 O4 O5] [L1 L2 L3 L4 L5 L6 L7 L8 L9] Ho E1 E2 E3 E4 Hc.
  assert (Hc' : c_request (uo_completion o) = Some (uo_request o) -> c_request (uo_completion o') = Some (uo_request o')).
  { intros H. destruct Hc as [Hc|Hc]; [done|]. congruence. }
  split; split; try done; cbn.
  - intros x Hx. destruct (O1 x Hx) as (ox & Hox & R1 & R2 & R3). rewrite lookup_insert. case_decide as E; [|by exists ox].
    subst x. assert (ox = o) as -> by congruence. exists o'. split; [done|]. split_and!; [congruence..|by rewrite E1].
  - intros x Hx. destruct (O2 x Hx) as (ox & Hox & R1 & R2 & R3). rewrite lookup_insert. case_decide as E; [|by exists ox].
    subst x. assert (ox = o) as -> by congruence. exists o'. split; [done|]. split_and!; [congruence..|by apply Hc'].
  - intros x ox. rewrite lookup_insert. case_decide as E; [|apply O3]. subst x. intros [= <-]. rewrite E2, E3, E4. by apply O3.
  - intros x. rewrite O4. setoid_rewrite lookup_insert. case_decide as E; [|done]. subst x. split.
    + intros (ox & Hox & Hp). assert (ox = o) as -> by congruence. exists o'. split; [done|]. congruence.
    + intros (ox & [= <-] & Hp). exists o. split; [done|]. congruence.
  - intros x Hx. destruct (O5 x Hx) as (ox & Hox & Hr). rewrite lookup_insert. case_decide as E; [|by exists ox].
    subst x. assert (ox = o) as -> by congruence. exists o'. split; [done|by apply Hc'].
  - intros x ox. rewrite lookup_insert. case_decide as E; [|apply L8]. subst x. intros [= <-]. rewrite E1. by apply L8.
Qed.

Lemma token_active w a : lists_ok w -> a ∈ tokens (u_state w) -> a ∈ active (u_state w).
Proof. intros Hl Ha. eapply elem_of_submseteq; [exact Ha|apply Hl]. Qed.

Lemma wait_operation w cp lost a res rest calloc : uring_ok (mk_usystem w cp lost) -> worker_pc (u_state w) = P_wait ->
  ring_cq (u_state w) = (Sqe_operation a, res) :: rest -> steps_to (worker_wait calloc Wait_entry) w cp lost.
Proof.
  intros [Ho Hl Hw Hlate] Hpc Hcq. cbn [us_world us_client us_lost] in *. pose proof Hw as [W1 W2 W3 W4 W5 W6 W7 W8].
  pose proof (ring_tail _ _ _ _ Hcq) as Hp. set (s1 := set_ring_cq rest (u_state w)).
  assert (Ht : tokens (set_worker_pc (P_resolve a) s1) ≡ₚ tokens (u_state w)).
  { unfold tokens, all_commands. cbn. rewrite Hpc. cbn. rewrite app_nil_r, (entries_permuted _ _ Hp), entries_cons. f_equiv.
    change (ring (set_worker_pc (P_resolve a) s1)) with (ring s1). apply Permutation_app_comm. }
  assert (Ha : a ∈ active (u_state w)).
  { apply (token_active w a Hl). rewrite <- Ht. unfold tokens. rewrite !elem_of_app. right. right. left. }
  destruct (oo_active w Ho a Ha) as (o & Hoa & Hres & Hcon & q & Hq & Hqop).
  destruct (complete_unlocked_run calloc a res (set_u_state s1 w) o q Hoa Hq) as (c & n & Hrun & Hcr & _).
  set (w2 := set_u_sockets n (set_u_ops (<[a := set_uo_completion c o]> (u_ops w)) w)).
  exists (set_u_state (set_worker_pc (P_resolve a) s1) w2). split.
  { unfold worker_wait, get_state, upd_state, goto. rewrite bind_run. unfold deref. rewrite Hcq. cbn [head]. rewrite bind_run. unfold modify. cbn [fst snd].
    rewrite Hcq. cbn [tail]. fold s1. rewrite (bind_Some _ _ _ _ _ Hrun). done. }
  destruct (op_update_ok w a o (set_uo_completion c o) Ho Hl Hoa eq_refl eq_refl eq_refl eq_refl (or_introl Hcr)) as [Ho1 Hl1].
  rewrite Hpc in W3. specialize (W3 Logic.I). rewrite (ring_tail_wakeups _ _ _ _ Hcq) in W3. cbn [is_wakeup polls_eventfd] in W3.
  apply uring_ok_state.
  - apply state_step; [by apply ops_ok_sockets|by apply lists_ok_sockets|done|done|..].
    + unfold all_commands. cbn. by rewrite Hpc.
    + by rewrite Ht.
    + intros [E _]. split; [split; [done|cbn; by rewrite Hpc]|exact Ht].
    + intros x [= <-]. eexists. cbn. rewrite lookup_insert_eq. split; [done|exact Hcr].
  - split; try done.
    + intros Hin. apply W2. rewrite Hp. by right.
    + intros Hin. apply W4. rewrite Hcq. by right.
    + intros Hc [E _] Hlost. destruct (W5 Hc) as [?|[?|?]]; auto; [split; [done|by rewrite Hpc]|]. congruence.
    + intros Hs [E _] Hlost. destruct (W6 Hs) as [?|E']; auto; [split; [done|by rewrite Hpc]|]. by rewrite Hpc in E'.
  - done.
Qed.

Lemma take_step w cp lost : uring_ok (mk_usystem w cp lost) -> worker_pc (u_state w) = P_take -> steps_to take_commands w cp lost.
Proof.
  intros [Ho Hl Hw Hlate] Hpc. cbn [us_world us_client us_lost] in *. pose proof Hw as [W1 W2 W3 W4 W5 W6 W7 W8].
  set (s' := set_worker_pc (P_commands (commands (u_state w)) false) (set_commands [] (u_state w))).
  exists (set_u_state s' w). split; [done|].
  assert (Ha : all_commands s' = all_commands (u_state w)) by (unfold all_commands; cbn; by rewrite Hpc, app_nil_r).
  assert (Ht : tokens s' = tokens (u_state w)).
  { unfold tokens. rewrite Ha. cbn. by rewrite Hpc. }
  rewrite Hpc in W3. specialize (W3 Logic.I). apply uring_ok_state.
  - apply state_step; try done; [by rewrite Ha|by rewrite Ht|].
    intros [E _]. split; [split; [done|by rewrite Hpc]|by rewrite Ht].
  - split; try done. intros _ _ _. by right.
  - intros _ a. cbn. intros Hin. by apply not_elem_of_nil in Hin.
Qed.

(** ** Commands *)

(** The ring after entries were prepared or submitted, the worker's status and place. *)
Definition round_state (s : vl_uring_state) (sq infl : list sqe) (status : vl_status) (pc : uring_pc) : vl_uring_state :=
  mk_uring (commands s) (active s) (completed s) (event_count s) status (stop_requested s) sq infl (ring_cq s) pc.

Lemma round_ring s sq infl status pc new : sq ++ infl ≡ₚ new ++ ring_sq s ++ ring_inflight s ->
  ring (round_state s sq infl status pc) ≡ₚ new ++ ring s.
Proof. intros Hp. unfold ring. cbn. rewrite !app_assoc. f_equiv. by rewrite Hp, app_assoc. Qed.

Lemma get_sqe_run g w : exists b sq infl, sq ++ infl ≡ₚ ring_sq (u_state w) ++ ring_inflight (u_state w) /\
  vl_uring_get_sqe g w = Some (b, set_u_state (round_state (u_state w) sq infl (worker_status (u_state w)) (worker_pc (u_state w))) w).
Proof.
  destruct w as [rq ops so [cm av co ev st sr sq0 fl0 cq pc] nx ac de]. unfold vl_uring_get_sqe. destruct (entry_free g).
  { by exists true, sq0, fl0. }
  rewrite bind_run. unfold io_uring_submit. destruct (submit_succeeds g).
  - exists (entry_after g), [], (fl0 ++ sq0). split; [cbn; apply Permutation_app_comm|done].
  - by exists false, sq0, fl0.
Qed.

(** A round of the loop over the commands, as the eventfd sees it. *)
Lemma round_wake s cp lost sq infl new status pc c rest stopping stopping' : wake_ok s cp lost ->
  worker_pc s = P_commands (c :: rest) stopping -> pc = P_commands rest stopping' ->
  sq ++ infl ≡ₚ new ++ ring_sq s ++ ring_inflight s -> Forall (fun e => is_wakeup e = false /\ e <> Sqe_unset) new ->
  (status = VL_OK -> worker_status s = VL_OK) -> (stopping' = true -> status <> VL_OK) ->
  wake_ok (round_state s sq infl status pc) cp lost.
Proof.
  intros [W1 W2 W3 W4 W5 W6 W7 W8] Hpc -> Hp Hnew Hst Hstop. pose proof (round_ring s sq infl status (P_commands rest stopping') new Hp) as Hr.
  rewrite Hpc in W3. specialize (W3 Logic.I). rewrite list.Forall_forall in Hnew.
  split; try done.
  - rewrite Hr, elem_of_app. intros [Hin|Hin]; [|done]. by apply (Hnew _ Hin).
  - intros _. rewrite (wakeups_permuted _ _ Hr), wakeups_app, W3. cbn [polls_eventfd]. cbn.
    destruct (wakeups new) eqn:E; [done|]. exfalso. unfold wakeups in E. destruct (filter _ new) as [|x l] eqn:Ef; [done|].
    assert (x ∈ filter (fun e => is_wakeup e = true) new) as [Hx Hin]%list_elem_of_filter by (rewrite Ef; left).
    destruct (Hnew x Hin). congruence.
  - intros Hc [E _] Hl. cbn in *. destruct (W5 Hc) as [?|[?|E']]; auto; [split; [by apply Hst|by rewrite Hpc]|congruence].
  - intros _ _ _. by right.
  - cbn. by destruct stopping'; [apply Hstop|].
Qed.

Lemma round_late s cp sq infl status pc c rest stopping stopping' : (cp <> C_closed -> late_cancels s) ->
  worker_pc s = P_commands (c :: rest) stopping -> pc = P_commands rest stopping' ->
  cp <> C_closed -> late_cancels (round_state s sq infl status pc).
Proof. intros Hl Hpc -> Hcp. specialize (Hl Hcp). unfold late_cancels in *. cbn. by rewrite Hpc in Hl. Qed.

(** The command was a submission: its operation is in the ring now, or the worker gives up. *)
Lemma round_submit w cp lost a rest stopping sq infl (status : vl_status) (ok : bool) : uring_ok (mk_usystem w cp lost) ->
  worker_pc (u_state w) = P_commands (VL_URING_COMMAND_SUBMIT a :: rest) stopping ->
  sq ++ infl ≡ₚ (if ok then [Sqe_operation a] else []) ++ ring_sq (u_state w) ++ ring_inflight (u_state w) ->
  (if ok then status = worker_status (u_state w) else status <> VL_OK) ->
  uring_ok (mk_usystem (set_u_state (round_state (u_state w) sq infl status (P_commands rest (if ok then stopping else true))) w) cp lost).
Proof.
  intros [Ho Hl Hw Hlate] Hpc Hp Hst. cbn [us_world us_client us_lost] in *.
  set (s' := round_state _ _ _ _ _). pose proof (round_ring (u_state w) sq infl status (P_commands rest (if ok then stopping else true)) _ Hp) as Hr. fold s' in Hr.
  assert (Ht : (if ok then [] else [a]) ++ tokens s' ≡ₚ tokens (u_state w)).
  { unfold tokens, all_commands. rewrite (entries_permuted _ _ Hr), Hpc. cbn. rewrite !app_nil_r. destruct ok; cbn; [|done].
    symmetry. apply Permutation_middle. }
  apply uring_ok_state.
  - apply state_step; try done.
    + unfold all_commands. cbn. by rewrite Hpc.
    + rewrite <- Ht. by apply submseteq_inserts_l.
    + intros [E _]. cbn in E. destruct ok; [|done]. split; [|exact Ht]. split; [congruence|by rewrite Hpc].
  - eapply round_wake; [done|done|done|exact Hp|..].
    + destruct ok; [|done]. by repeat constructor.
    + destruct ok; [congruence|done].
    + destruct ok; [|done]. intros ->. pose proof (wk_failed _ _ _ Hw) as W8. rewrite Hpc in W8. congruence.
  - by eapply round_late.
Qed.

Lemma timeout_update_ok w cp lost a o t : uring_ok (mk_usystem w cp lost) -> u_ops w !! a = Some o ->
  uring_ok (mk_usystem (set_u_ops (<[a := set_uo_timeout t o]> (u_ops w)) w) cp lost).
Proof.
  intros [Ho Hl Hw Hlate] Hoa. cbn in *.
  by destruct (op_update_ok w a o (set_uo_timeout t o) Ho Hl Hoa eq_refl eq_refl eq_refl eq_refl (or_intror eq_refl)).
Qed.

Lemma prepare_operation_run g a w o q : u_ops w !! a = Some o -> u_requests w !! uo_request o = Some q -> rq_op (ur_request q) <> VL_IO_CANCEL ->
  exists (ok : bool) sq infl ops, 
    sq ++ infl ≡ₚ (if ok then [Sqe_operation a] else []) ++ ring_sq (u_state w) ++ ring_inflight (u_state w) /\
    (ops = u_ops w \/ exists t, ops = <[a := set_uo_timeout t o]> (u_ops w)) /\
    vl_uring_prepare_operation g a w = Some (if ok then VL_OK else VL_ERROR_SYSTEM,
      set_u_state (round_state (u_state w) sq infl (worker_status (u_state w)) (worker_pc (u_state w))) (set_u_ops ops w)).
Proof.
  intros Ho Hq Hne. unfold vl_uring_prepare_operation. rewrite (bind_Some _ _ _ _ _ (load_op_run a o w Ho)).
  destruct (get_sqe_run g w) as (b & sq & infl & Hp & Hrun). rewrite (bind_Some _ _ _ _ _ Hrun). destruct b; cbn [negb].
  2: { exists false, sq, infl, (u_ops w). split; [done|]. split; [by left|]. by destruct w. }
  set (w1 := set_u_state _ _). rewrite (bind_Some _ _ _ _ _ (load_urequest_run _ q w1 Hq)).
  assert (Hp' : (sq ++ [Sqe_operation a]) ++ infl ≡ₚ [Sqe_operation a] ++ ring_sq (u_state w) ++ ring_inflight (u_state w)).
  { rewrite <- Hp. rewrite <- app_assoc. cbn. symmetry. apply Permutation_middle. }
  destruct (rq_op (ur_request q)); try done.
  all: try (exists true, (sq ++ [Sqe_operation a]), infl, (u_ops w); split; [exact Hp'|]; split; [by left|]; by destruct w).
  exists true, (sq ++ [Sqe_operation a]), infl. eexists. split; [exact Hp'|]. split; [right; by eexists|].
  rewrite (bind_Some _ _ _ _ _ (upd_op_run a o _ w1 Ho)). by destruct w.
Qed.

Lemma command_submit w cp lost a rest stopping g : uring_ok (mk_usystem w cp lost) ->
  worker_pc (u_state w) = P_commands (VL_URING_COMMAND_SUBMIT a :: rest) stopping ->
  steps_to (command_round g (VL_URING_COMMAND_SUBMIT a) rest stopping) w cp lost.
Proof.
  intros Hok Hpc. pose proof Hok as [Ho Hl _ _]. cbn in Ho, Hl.
  assert (Ha : a ∈ active (u_state w)).
  { apply (token_active w a Hl). unfold tokens, all_commands. rewrite Hpc. cbn. left. }
  destruct (oo_active w Ho a Ha) as (o & Hoa & _ & _ & q & Hq & Hne).
  destruct (prepare_operation_run g a w o q Hoa Hq Hne) as (ok & sq & infl & ops & Hp & Hops & Hrun).
  assert (Hok' : uring_ok (mk_usystem (set_u_ops ops w) cp lost)).
  { destruct Hops as [->|(t & ->)]; [by destruct w|by apply timeout_update_ok]. }
  exists (set_u_state (round_state (u_state w) sq infl (if ok then worker_status (u_state w) else VL_ERROR_SYSTEM)
           (P_commands rest (if ok then stopping else true))) (set_u_ops ops w)).
  split.
  { unfold command_round, process_command. rewrite (bind_Some _ _ _ _ _ Hrun). by destruct ok. }
  apply (round_submit (set_u_ops ops w) cp lost a); [done|done|done|by destruct ok].
Qed.

(** What the cancel command leaves of its operation. *)
Definition cancel_ops (a : nat) (o : vl_uring_operation) (ops : gmap nat vl_uring_operation) : gmap nat vl_uring_operation :=
  if resolved o && completion_consumed o then delete a ops else <[a := set_cancel_command_pending false o]> ops.

Lemma cancel_ops_lookup a o ops x ox : ops !! a = Some o -> cancel_ops a o ops !! x = Some ox ->
  exists ox', ops !! x = Some ox' /\ uo_request ox' = uo_request ox /\ uo_completion ox' = uo_completion ox /\ resolved ox' = resolved ox /\
    completion_consumed ox' = completion_consumed ox /\ if decide (x = a) then cancel_command_pending ox = false /\ resolved ox && completion_consumed ox = false
    else ox' = ox.
Proof.
  intros Ho. unfold cancel_ops. case_match eqn:E.
  - intros [Hne Hx]%lookup_delete_Some. exists ox. by rewrite decide_False by congruence.
  - rewrite lookup_insert. case_decide as E'; [subst x; intros [= <-]; exists o; rewrite decide_True by done; by split_and!|].
    intros Hx. exists ox. by rewrite decide_False by congruence.
Qed.

Lemma cancel_ops_keep a o ops x ox : ops !! a = Some o -> ops !! x = Some ox -> resolved ox = false \/ completion_consumed ox = false ->
  exists ox', cancel_ops a o ops !! x = Some ox' /\ uo_request ox' = uo_request ox /\ uo_completion ox' = uo_completion ox /\ resolved ox' = resolved ox /\
    completion_consumed ox' = completion_consumed ox.
Proof.
  intros Ho Hx Hl. unfold cancel_ops. destruct (decide (x = a)) as [->|Hne].
  - assert (ox = o) as -> by congruence. case_match eqn:E; [|eexists; by rewrite lookup_insert_eq].
    apply andb_true_iff in E. destruct Hl; destruct E; congruence.
  - exists ox. split; [|done]. by case_match; [rewrite lookup_delete_ne by done|rewrite lookup_insert_ne by done].
Qed.

Lemma cancel_state w s' a o rest : ops_ok w -> lists_ok w -> u_ops w !! a = Some o ->
  all_commands (u_state w) = VL_URING_COMMAND_CANCEL a :: rest -> all_commands s' = rest ->
  active s' = active (u_state w) -> completed s' = completed (u_state w) -> tokens s' ≡ₚ tokens (u_state w) ->
  (healthy s' -> healthy (u_state w)) -> (forall x, worker_pc s' <> P_resolve x) ->
  ops_ok (set_u_state s' (set_u_ops (cancel_ops a o (u_ops w)) w)) /\ lists_ok (set_u_state s' (set_u_ops (cancel_ops a o (u_ops w)) w)).
Proof.
  intros [O1 O2 O3 O4 O5] [L1 L2 L3 L4 L5 L6 L7 L8 L9] Hoa Hall Hall' Ea Ec Ht Hh Hpc.
  rewrite Hall in L2. cbn in L2. apply list.NoDup_cons in L2 as [Hna Hnd]. split; split; cbn; rewrite ?Ea, ?Ec, ?Ht, ?Hall'; try done.
  - intros x Hx. destruct (O1 x Hx) as (ox & Hox & R1 & R2 & R3).
    destruct (cancel_ops_keep a o _ x ox Hoa Hox (or_introl R1)) as (ox' & Hox' & E1 & E2 & E3 & E4). exists ox'. rewrite E1, E3, E4. done.
  - intros x Hx. destruct (O2 x Hx) as (ox & Hox & R1 & R2 & R3).
    destruct (cancel_ops_keep a o _ x ox Hoa Hox (or_intror R2)) as (ox' & Hox' & E1 & E2 & E3 & E4). exists ox'. rewrite E1, E2, E3, E4. done.
  - intros x ox Hx. destruct (cancel_ops_lookup _ _ _ _ _ Hoa Hx) as (ox' & Hox' & E1 & E2 & E3 & E4 & E5).
    destruct (O3 x ox' Hox') as [?|[?|(R1 & R2 & R3)]]; [by left|by right; left|]. case_decide.
    + rewrite <- E3, <- E4, R1, R2 in E5. by destruct E5.
    + subst ox'. right. by right.
  - intros x. specialize (O4 x). rewrite Hall in O4. cbn in O4. split.
    + intros Hx. destruct (proj1 O4 ltac:(by right)) as (ox & Hox & Hp). exists ox. split; [|done]. assert (x <> a) by (intros E; subst x; exact (Hna Hx)).
      unfold cancel_ops. by case_match; [rewrite lookup_delete_ne by done|rewrite lookup_insert_ne by done].
    + intros (ox & Hox & Hp). destruct (cancel_ops_lookup _ _ _ _ _ Hoa Hox) as (ox' & Hox' & _ & _ & _ & _ & E5). case_decide; [destruct E5; congruence|].
      subst ox'. assert (Hin : x ∈ a :: cancels rest) by (apply O4; eauto). by apply elem_of_cons in Hin as [?|?].
  - intros x E. by destruct (Hpc x).
  - intros Hs. by apply L4, Hh.
  - intros x ox Hx. destruct (cancel_ops_lookup _ _ _ _ _ Hoa Hx) as (ox' & Hox' & E1 & _). rewrite <- E1. by apply L8.
Qed.

Lemma cancel_command_run g a w o : u_ops w !! a = Some o -> exists (ok : bool) sq infl new,
  sq ++ infl ≡ₚ new ++ ring_sq (u_state w) ++ ring_inflight (u_state w) /\ (new = [] \/ new = [Sqe_cancel a]) /\
  process_command g (VL_URING_COMMAND_CANCEL a) w = Some (if ok then VL_OK else VL_ERROR_SYSTEM,
    set_u_state (round_state (u_state w) sq infl (worker_status (u_state w)) (worker_pc (u_state w))) (set_u_ops (cancel_ops a o (u_ops w)) w)).
Proof.
  intros Ho. unfold process_command. rewrite (bind_Some _ _ _ _ _ (load_op_run a o w Ho)).
  assert (exists (ok : bool) sq infl new, sq ++ infl ≡ₚ new ++ ring_sq (u_state w) ++ ring_inflight (u_state w) /\ (new = [] \/ new = [Sqe_cancel a]) /\
    (if negb (resolved o) then vl_uring_prepare_cancel g a else mret VL_OK) w = Some (if ok then VL_OK else VL_ERROR_SYSTEM,
      set_u_state (round_state (u_state w) sq infl (worker_status (u_state w)) (worker_pc (u_state w))) w)) as (ok & sq & infl & new & Hp & Hn & Hrun).
  { destruct (resolved o); cbn [negb].
    { exists true, (ring_sq (u_state w)), (ring_inflight (u_state w)), []. split; [done|]. split; [by left|].
      by destruct w as [rq ops so [cm av co ev st sr sq0 fl0 cq pc] nx ac de]. }
    unfold vl_uring_prepare_cancel. destruct (get_sqe_run g w) as (b & sq & infl & Hp & Hrun). rewrite (bind_Some _ _ _ _ _ Hrun).
    destruct b; cbn [negb]; [|by exists false, sq, infl, []; eauto]. exists true, (sq ++ [Sqe_cancel a]), infl, [Sqe_cancel a].
    split; [|by split; [right|]]. rewrite <- Hp, <- app_assoc. cbn. symmetry. apply Permutation_middle. }
  exists ok, sq, infl, new. split; [done|]. split; [done|]. rewrite (bind_Some _ _ _ _ _ Hrun). set (w1 := set_u_state _ _).
  rewrite (bind_Some _ _ _ _ _ (upd_op_run a o _ w1 Ho)). unfold cancel_ops. destruct (resolved o && completion_consumed o); [|done].
  erewrite bind_Some; [|apply (free_op_run a (set_cancel_command_pending false o)); cbn; by rewrite lookup_insert_eq].
  cbn. by rewrite delete_insert_eq.
Qed.

Lemma entries_cancel new a : new = [] \/ new = [Sqe_cancel a] -> entries new = [].
Proof. by intros [->| ->]. Qed.

Lemma command_cancel w cp lost a rest stopping g : uring_ok (mk_usystem w cp lost) ->
  worker_pc (u_state w) = P_commands (VL_URING_COMMAND_CANCEL a :: rest) stopping ->
  steps_to (command_round g (VL_URING_COMMAND_CANCEL a) rest stopping) w cp lost.
Proof.
  intros [Ho Hl Hw Hlate] Hpc. cbn [us_world us_client us_lost] in *.
  assert (Hall : all_commands (u_state w) = VL_URING_COMMAND_CANCEL a :: rest ++ commands (u_state w)) by (unfold all_commands; by rewrite Hpc).
  destruct (proj1 (oo_cancels w Ho a)) as (o & Hoa & Hpend); [rewrite Hall; left|].
  destruct (cancel_command_run g a w o Hoa) as (ok & sq & infl & new & Hp & Hnew & Hrun).
  set (s' := round_state (u_state w) sq infl (if ok then worker_status (u_state w) else VL_ERROR_SYSTEM) (P_commands rest (if ok then stopping else true))).
  exists (set_u_state s' (set_u_ops (cancel_ops a o (u_ops w)) w)). split.
  { unfold command_round. rewrite (bind_Some _ _ _ _ _ Hrun). by destruct ok. }
  apply uring_ok_state.
  - apply (cancel_state w s' a o (rest ++ commands (u_state w))); try done.
    + pose proof (round_ring _ _ _ _ _ _ Hp : ring s' ≡ₚ _) as Hr. unfold tokens.
      rewrite (entries_permuted _ _ Hr), entries_app, (entries_cancel new a Hnew), Hall, Hpc. done.
    + intros [E _]. cbn in E. destruct ok; [|done]. split; [done|by rewrite Hpc].
  - eapply round_wake; [exact Hw|exact Hpc|done|exact Hp|..].
    + destruct Hnew as [->| ->]; by repeat constructor.
    + by destruct ok.
    + destruct ok; [|done]. intros ->. pose proof (wk_failed _ _ _ Hw) as W8. by rewrite Hpc in W8.
  - by eapply round_late.
Qed.

(** ** The end of the commands, resolving, submitting and leaving *)

(** The worker leaves its loop. *)
Lemma leave_loop w cp lost sq infl status pc : uring_ok (mk_usystem w cp lost) -> pc = P_exit ->
  sq ++ infl ≡ₚ ring_sq (u_state w) ++ ring_inflight (u_state w) -> taken (worker_pc (u_state w)) = [] ->
  (status = VL_OK -> worker_status (u_state w) = VL_OK /\ stop_requested (u_state w) = true /\ exists l st, worker_pc (u_state w) = P_commands l st) ->
  uring_ok (mk_usystem (set_u_state (round_state (u_state w) sq infl status pc) w) cp lost).
Proof.
  intros [Ho Hl Hw Hlate] -> Hp Htk Hst. cbn [us_world us_client us_lost] in *. pose proof Hw as [W1 W2 W3 W4 W5 W6 W7 W8].
  set (s' := round_state _ _ _ _ _). pose proof (round_ring (u_state w) sq infl status P_exit [] Hp : ring s' ≡ₚ _) as Hr. cbn [app] in Hr.
  assert (Hun : ~ healthy s') by (intros [_ []]). apply uring_ok_state.
  - apply state_step; try done.
    + unfold all_commands. cbn. by rewrite Htk.
    + unfold tokens, all_commands. rewrite (entries_permuted _ _ Hr), Htk. cbn.
      apply submseteq_app; [done|]. apply submseteq_app; [done|apply submseteq_nil_l].
  - split; try done; [by rewrite Hr|]. cbn. destruct (decide (status = VL_OK)) as [E|E]; [right; by apply Hst|by left].
  - intros Hcp. unfold late_cancels. cbn. intros E. destruct (Hst E) as (_ & _ & l & st & E'). specialize (Hlate Hcp). unfold late_cancels in Hlate.
    by rewrite E' in Hlate.
Qed.

(** The worker goes on to submit what it has prepared. *)
Lemma done_wake s cp lost sq infl stopping : wake_ok s cp lost -> worker_pc s = P_commands [] stopping -> stop_requested s = false ->
  sq ++ infl ≡ₚ [Sqe_wakeup] ++ ring_sq s ++ ring_inflight s ->
  wake_ok (round_state s sq infl (worker_status s) P_submit) cp lost.
Proof.
  intros [W1 W2 W3 W4 W5 W6 W7 W8] Hpc Hns Hp. pose proof (round_ring s sq infl (worker_status s) P_submit _ Hp) as Hr.
  rewrite Hpc in W3. specialize (W3 Logic.I). split; try done.
  - rewrite Hr. cbn. rewrite elem_of_cons. by intros [?|?].
  - intros _. rewrite (wakeups_permuted _ _ Hr). cbn [app]. rewrite wakeups_cons, W3. done.
  - intros Hc [E _] Hl. cbn in *. destruct (W5 Hc) as [?|[?|E']]; auto; [split; [done|by rewrite Hpc]|congruence].
  - cbn. congruence.
Qed.

Lemma round_state_id s : round_state s (ring_sq s) (ring_inflight s) (worker_status s) (worker_pc s) = s.
Proof. by destruct s. Qed.

Lemma done_step w cp lost stopping g : uring_ok (mk_usystem w cp lost) -> worker_pc (u_state w) = P_commands [] stopping ->
  steps_to (commands_done g stopping) w cp lost.
Proof.
  intros Hok Hpc. pose proof Hok as [Ho Hl Hw Hlate]. cbn [us_world us_client us_lost] in *. unfold steps_to, commands_done. rewrite bind_run. cbn [get_state gets].
  destruct (stopping || stop_requested (u_state w)) eqn:Hs.
  { exists (set_u_state (round_state (u_state w) (ring_sq (u_state w)) (ring_inflight (u_state w)) (worker_status (u_state w)) P_exit) w). split; [done|].
    apply leave_loop; try done; [by rewrite Hpc|]. intros E. split; [done|]. split; [|by rewrite Hpc; eauto].
    pose proof (wk_failed _ _ _ Hw) as W8. rewrite Hpc in W8. by destruct stopping. }
  apply orb_false_iff in Hs as [-> Hs]. destruct (get_sqe_run g w) as (b & sq & infl & Hp & Hrun).
  rewrite bind_run. unfold vl_uring_prepare_wakeup. rewrite (bind_Some _ _ _ _ _ Hrun). destruct b; cbn [negb].
  - exists (set_u_state (round_state (u_state w) (sq ++ [Sqe_wakeup]) infl (worker_status (u_state w)) P_submit) w). split; [done|].
    assert (Hp' : (sq ++ [Sqe_wakeup]) ++ infl ≡ₚ [Sqe_wakeup] ++ ring_sq (u_state w) ++ ring_inflight (u_state w)).
    { rewrite <- Hp, <- app_assoc. cbn. symmetry. apply Permutation_middle. }
    set (s' := round_state _ _ _ _ _). pose proof (round_ring _ _ _ _ _ _ Hp' : ring s' ≡ₚ _) as Hr.
    assert (Ht : tokens s' ≡ₚ tokens (u_state w)).
    { unfold tokens, all_commands. rewrite (entries_permuted _ _ Hr), Hpc. done. }
    apply uring_ok_state; [apply state_step; try done|by eapply done_wake|done].
    + unfold all_commands. cbn. by rewrite Hpc.
    + by rewrite Ht.
    + intros [E _]. split; [split; [done|by rewrite Hpc]|done].
  - exists (set_u_state (round_state (u_state w) sq infl VL_ERROR_SYSTEM P_exit) w). split; [done|].
    apply leave_loop; try done. by rewrite Hpc.
Qed.

Lemma resolve_ok w a o l' s' : ops_ok w -> lists_ok w -> u_ops w !! a = Some o -> c_request (uo_completion o) = Some (uo_request o) ->
  completion_consumed o = false -> active (u_state w) ≡ₚ a :: l' -> active s' = l' -> completed s' = completed (u_state w) ++ [a] ->
  all_commands s' = all_commands (u_state w) -> tokens (u_state w) ≡ₚ a :: tokens s' -> (healthy s' -> healthy (u_state w)) ->
  (forall x, worker_pc s' <> P_resolve x) ->
  let w' := set_u_state s' (set_u_ops (<[a := set_resolved true o]> (u_ops w)) w) in ops_ok w' /\ lists_ok w'.
Proof.
  intros [O1 O2 O3 O4 O5] [L1 L2 L3 L4 L5 L6 L7 L8 L9] Ho Hc Hcon Hp Ea Ec Hall Ht Hh Hpc w'.
  rewrite Hp in L1. cbn in L1. apply list.NoDup_cons in L1 as [Hna L1]. rewrite elem_of_app in Hna.
  split; split; cbn; rewrite ?Ea, ?Ec, ?Hall; try done.
  - intros x Hx. destruct (O1 x) as (ox & Hox & R); [rewrite Hp; by right|]. exists ox. rewrite lookup_insert_ne by (intros ->; tauto). done.
  - intros x [Hx|Hx]%elem_of_app.
    + destruct (O2 x Hx) as (ox & Hox & R). exists ox. rewrite lookup_insert_ne by (intros ->; tauto). done.
    + apply list_elem_of_singleton in Hx as ->. eexists. by rewrite lookup_insert_eq.
  - intros x ox. rewrite lookup_insert, elem_of_app. case_decide as E; [subst x; intros _; right; left; right; left|].
    intros Hx. destruct (O3 x ox Hx) as [Hin|[?|?]]; [|by auto..]. rewrite Hp in Hin. apply elem_of_cons in Hin as [?|?]; [congruence|by left].
  - intros x. rewrite O4. setoid_rewrite lookup_insert. case_decide as E; [|done]. subst x. split; intros (ox & Hox & Hpd).
    + assert (ox = o) as -> by congruence. by eexists.
    + simplify_eq. by exists o.
  - intros x E. by destruct (Hpc x).
  - rewrite app_assoc. apply list.NoDup_app. split; [done|]. split; [|by apply list.NoDup_singleton].
    intros x Hx ->%list_elem_of_singleton. apply Hna. by apply elem_of_app.
  - rewrite Ht, Hp in L3. by apply (submseteq_app_inv_l _ _ [a]).
  - intros Hs. specialize (L4 (Hh Hs)). rewrite Ht, Hp in L4. by apply Permutation_cons_inv in L4.
  - rewrite L5, Hp. cbn. rewrite <- (app_assoc (completed (u_state w))). cbn.
    rewrite (app_assoc l'), (app_assoc l'). apply Permutation_middle.
  - intros x ox. rewrite lookup_insert. case_decide as E; [|apply L8]. subst x. intros [= <-]. exact (L8 a o Ho).
Qed.

Lemma resolve_step w cp lost a : uring_ok (mk_usystem w cp lost) -> worker_pc (u_state w) = P_resolve a ->
  steps_to (_ ← complete_locked a; goto P_submit) w cp lost.
Proof.
  intros [Ho Hl Hw Hlate] Hpc. cbn [us_world us_client us_lost] in *. pose proof Hw as [W1 W2 W3 W4 W5 W6 W7 W8].
  assert (Hin : a ∈ active (u_state w)).
  { apply (token_active w a Hl). unfold tokens. rewrite Hpc, !elem_of_app. right. right. left. }
  destruct (oo_active w Ho a Hin) as (o & Hoa & Hres & Hcon & _). destruct (oo_resolving w Ho a Hpc) as (o' & Ho' & Hc). assert (o' = o) as -> by congruence.
  set (w1 := set_u_ops (<[a := set_resolved true o]> (u_ops w)) w).
  destruct (remove_active_run a (active (u_state w)) w1) as (l' & Hrun & Hp & _).
  { intros x Hx. destruct (oo_active w Ho x Hx) as (ox & Hox & _). cbn. rewrite lookup_insert. case_decide; by eauto. }
  specialize (Hp Hin). set (s' := set_worker_pc P_submit (set_completed (completed (u_state w) ++ [a]) (set_active l' (u_state w)))).
  exists (set_u_state s' w1). split.
  { unfold complete_locked. rewrite bind_run, (bind_Some _ _ _ _ _ (load_op_run a o w Hoa)), Hres, (bind_Some _ _ _ _ _ (upd_op_run a o _ w Hoa)).
    fold w1. rewrite bind_run. unfold vl_uring_remove_active_locked. rewrite bind_run. cbn [get_state gets]. change (u_state w1) with (u_state w).
    by rewrite (bind_Some _ _ _ _ _ Hrun). }
  apply uring_ok_state.
  - apply (resolve_ok w a o l' s'); try done.
    + unfold all_commands. cbn. by rewrite Hpc.
    + unfold tokens, all_commands. cbn. rewrite Hpc, !app_nil_r, app_assoc. change (ring s') with (ring (u_state w)). cbn. by rewrite Permutation_app_comm.
    + intros [E _]. split; [done|by rewrite Hpc].
  - rewrite Hpc in *. specialize (W3 Logic.I). split; try done; cbn.
    + intros Hcm [E _] Hlost. destruct (W5 Hcm) as [?|[?|?]]; auto; [split; [done|by rewrite Hpc]|done].
    + intros Hs [E _] Hlost. apply W6; [done|split; [done|by rewrite Hpc]|done].
  - done.
Qed.

Lemma submit_step w cp lost ok : uring_ok (mk_usystem w cp lost) -> worker_pc (u_state w) = P_submit -> steps_to (worker_submit ok) w cp lost.
Proof.
  intros Hok Hpc. pose proof Hok as [Ho Hl Hw Hlate]. cbn [us_world us_client us_lost] in *. destruct ok.
  2: { eexists. split; [reflexivity|]. apply (worker_fails w cp lost VL_ERROR_SYSTEM P_exit Hok); [done|by left|by rewrite Hpc|by rewrite Hpc|done|done]. }
  set (s' := round_state (u_state w) [] (ring_inflight (u_state w) ++ ring_sq (u_state w)) (worker_status (u_state w)) P_wait).
  exists (set_u_state s' w). split; [done|].
  assert (Hr : ring s' ≡ₚ ring (u_state w)) by (apply (round_ring _ _ _ _ _ []); cbn; apply Permutation_app_comm).
  assert (Ht : tokens s' ≡ₚ tokens (u_state w)) by (unfold tokens, all_commands; by rewrite (entries_permuted _ _ Hr), Hpc).
  pose proof Hw as [W1 W2 W3 W4 W5 W6 W7 W8]. rewrite Hpc in *. specialize (W3 Logic.I). apply uring_ok_state.
  - apply state_step; try done; [unfold all_commands; cbn; by rewrite Hpc|by rewrite Ht|].
    intros [E _]. split; [split; [done|by rewrite Hpc]|done].
  - split; try done; [by rewrite Hr|intros _; by rewrite (wakeups_permuted _ _ Hr)|..]; cbn.
    + intros Hcm [E _] Hlost. destruct (W5 Hcm) as [?|[?|?]]; auto; [split; [done|by rewrite Hpc]|done].
    + intros Hs [E _] Hlost. apply W6; [done|split; [done|by rewrite Hpc]|done].
  - done.
Qed.

Lemma exit_step w cp lost : uring_ok (mk_usystem w cp lost) -> worker_pc (u_state w) = P_exit -> steps_to worker_exit w cp lost.
Proof.
  intros [Ho Hl Hw Hlate] Hpc. cbn [us_world us_client us_lost] in *. pose proof Hw as [W1 W2 W3 W4 W5 W6 W7 W8].
  set (s' := set_worker_pc P_stopped (set_ring_sq [] (set_ring_inflight [] (set_ring_cq [] (u_state w))))).
  exists (set_u_state s' w). split; [reflexivity|]. assert (Hun : ~ healthy s') by (intros [_ []]). apply uring_ok_state.
  - apply state_step; try done.
    + unfold all_commands. cbn. by rewrite Hpc.
    + unfold tokens, all_commands. cbn. rewrite Hpc. cbn. rewrite app_nil_r. by apply submseteq_inserts_r.
  - split; try done; cbn; [by intros ?%not_elem_of_nil..|by rewrite Hpc in W8].
  - intros Hcp. specialize (Hlate Hcp). unfold late_cancels in *. by rewrite Hpc in Hlate.
Qed.

(** Every step the worker can take is defined and keeps the invariant. *)
Lemma worker_step w cp lost e : uring_ok (mk_usystem w cp lost) -> worker_enabled e w -> steps_to (vl_uring_worker_main e) w cp lost.
Proof.
  intros Hok [Hcq Hns]. unfold vl_uring_worker_main, steps_to. rewrite bind_run. cbn [get_state gets].
  destruct (worker_pc (u_state w)) as [| |[|c rest] stopping|a| | |] eqn:Hpc; [| | | | | | |done].
  - destruct (we_wait e) eqn:He; [by exists w|by apply worker_wait_failed|]. specialize (Hcq eq_refl eq_refl).
    destruct (ring_cq (u_state w)) as [|[x res] rest] eqn:Hq; [done|]. destruct x as [|a|a|].
    + by eapply wait_wakeup.
    + by eapply wait_operation.
    + by eapply wait_cancelled.
    + exfalso. apply (wk_unset _ _ _ (uk_wake _ Hok)), cq_in_ring. cbn. rewrite Hq. left.
  - by apply take_step.
  - by apply done_step.
  - destruct c; [by apply command_submit|by apply command_cancel].
  - by apply resolve_step.
  - by apply submit_step.
  - by apply exit_step.
Qed.
