(* ===== verification/UringProps.v ===== *)
(** * The io_uring worker: every operation is completed once

    The steps of the kernel, of the client and of the other threads keep the invariant of
    [UringInv]; what a client sees of a reachable state follows. *)

From S2P Require Import Prelude Socket SocketProps Epoll Uring UringInv.
From stdpp Require Import options.

Open Scope Z_scope.

(** ** The kernel, the registry and the requests *)

Lemma kernel_step w cp lost l e l' result : uring_ok (mk_usystem w cp lost) -> ring_inflight (u_state w) = l ++ e :: l' ->
  (e = Sqe_wakeup -> 0 < event_count (u_state w)) ->
  uring_ok (mk_usystem (set_u_state (set_ring_cq (ring_cq (u_state w) ++ [(e, result)]) (set_ring_inflight (l ++ l') (u_state w))) w) cp lost).
Proof.
  intros [Ho Hl Hw Hlate] Hin He. cbn [us_world us_client us_lost] in *. set (s' := set_ring_cq _ _).
  assert (Hr : ring s' ≡ₚ ring (u_state w)).
  { unfold ring. cbn. rewrite fmap_app, Hin. cbn. f_equiv.
    rewrite (app_assoc (l ++ l')), (Permutation_app_comm _ [e]), <- (Permutation_middle l l' e). done. }
  assert (Ht : tokens s' ≡ₚ tokens (u_state w)) by (unfold tokens; by rewrite (entries_permuted _ _ Hr)).
  apply uring_ok_state.
  - apply state_step; try done; [by rewrite Ht|by apply Ho].
  - destruct Hw as [W1 W2 W3 W4 W5 W6 W7 W8]. split; try done.
    + by rewrite Hr.
    + by rewrite (wakeups_permuted _ _ Hr).
    + cbn. rewrite fmap_app, elem_of_app. cbn. intros [Hx|Hx%list_elem_of_singleton]; auto.
  - done.
Qed.

Lemma registry_step w cp lost n : uring_ok (mk_usystem w cp lost) -> uring_ok (mk_usystem (set_u_sockets n w) cp lost).
Proof. intros [Ho Hl Hw Hlate]. split; [by apply ops_ok_sockets|by apply lists_ok_sockets|done|done]. Qed.

(** Requests may change where no active operation uses them, and keep their kind where one does. *)
Lemma requests_step w cp lost rqs : uring_ok (mk_usystem w cp lost) ->
  (forall a o q, a ∈ active (u_state w) -> u_ops w !! a = Some o -> u_requests w !! uo_request o = Some q ->
     exists q', rqs !! uo_request o = Some q' /\ rq_op (ur_request q') = rq_op (ur_request q)) ->
  uring_ok (mk_usystem (set_u_requests rqs w) cp lost).
Proof.
  intros [[O1 O2 O3 O4 O5] [] Hw Hlate] Hq. split; [split; try done|by split|done|done].
  cbn. intros a Ha. destruct (O1 a Ha) as (o & Ho & R1 & R2 & q & Hqo & Hop). exists o. split_and!; try done.
  destruct (Hq a o q Ha Ho Hqo) as (q' & Hq' & E). exists q'. split; [done|congruence].
Qed.

Lemma edit_step w cp lost r q : uring_ok (mk_usystem w cp lost) -> request_free w r ->
  uring_ok (mk_usystem (set_u_requests (partial_alter (fun _ => q) r (u_requests w)) w) cp lost).
Proof.
  intros Hok Hf. apply requests_step; [done|]. intros a o q' Ha Ho Hq.
  destruct (oo_active w (uk_ops _ Hok) a Ha) as (o' & Ho' & _ & Hc & _). cbn in *. assert (o' = o) as -> by congruence.
  exists q'. split; [|done]. rewrite lookup_partial_alter_ne; [done|]. intros ->. rewrite (Hf a o Ho eq_refl) in Hc. done.
Qed.

Definition with_generation (r : nat) (g : Z) (q : uring_request) (w : uring_world) : uring_world :=
  set_u_requests (<[r := mk_urequest (set_rq_generation g (ur_request q)) (ur_address q) (ur_timeout_ns q)]> (u_requests w)) w.

Lemma upd_generation_run r g q w : u_requests w !! r = Some q -> upd_generation r g w = Some (tt, with_generation r g q w).
Proof. intros E. unfold upd_generation. by rewrite (bind_Some _ _ _ _ _ (load_urequest_run r q w E)). Qed.

Lemma generation_step w cp lost r g q : uring_ok (mk_usystem w cp lost) -> u_requests w !! r = Some q ->
  uring_ok (mk_usystem (with_generation r g q w) cp lost).
Proof.
  intros Hok Hr. apply requests_step; [done|]. intros a o q' _ _ Hq. rewrite lookup_insert. case_decide as E; [|by exists q'].
  subst r. assert (q' = q) as -> by congruence. by eexists.
Qed.

(** ** Submitting *)

Definition queued (r : nat) (w : uring_world) : uring_world :=
  mk_uworld (u_requests w) (<[u_next w := mk_uop r (0, 0) empty_completion false false false]> (u_ops w)) (u_sockets w)
    (set_commands (commands (u_state w) ++ [VL_URING_COMMAND_SUBMIT (u_next w)]) (set_active (u_next w :: active (u_state w)) (u_state w)))
    (S (u_next w)) (u_accepted w ++ [(u_next w, r)]) (u_delivered w).

Lemma next_unused w : ops_ok w -> lists_ok w -> u_ops w !! u_next w = None /\ u_next w ∉ (u_accepted w).*1 /\
  u_next w ∉ active (u_state w) /\ u_next w ∉ completed (u_state w).
Proof.
  intros Ho Hl. assert (Hn : u_next w ∉ (u_accepted w).*1) by (intros Hx%(ul_fresh w Hl); lia).
  assert (u_next w ∉ active (u_state w) ++ completed (u_state w)).
  { intros Hx. apply Hn. rewrite (ul_history w Hl), app_assoc, elem_of_app. by left. }
  rewrite elem_of_app in H. split_and!; try tauto. destruct (u_ops w !! u_next w) as [o|] eqn:E; [|done].
  exfalso. apply Hn. apply (ul_request w Hl) in E. apply list_elem_of_fmap. by eexists (_, _).
Qed.

Lemma queued_ops w r q : ops_ok w -> lists_ok w -> u_requests w !! r = Some q -> rq_op (ur_request q) <> VL_IO_CANCEL -> ops_ok (queued r w).
Proof.
  intros Ho Hl Hq Hop. destruct (next_unused w Ho Hl) as (Hn & _ & Ha & Hc). destruct Ho as [O1 O2 O3 O4 O5].
  split; cbn [queued u_ops u_state u_requests active completed set_commands set_active worker_pc].
  - intros x [->|Hx]%elem_of_cons; [eexists; rewrite lookup_insert_eq; split; [done|]; split_and!; try done; by exists q|].
    destruct (O1 x Hx) as (ox & Hox & R). exists ox. rewrite lookup_insert_ne by (intros E; congruence). done.
  - intros x Hx. destruct (O2 x Hx) as (ox & Hox & R). exists ox. rewrite lookup_insert_ne by (intros E; congruence). done.
  - intros x ox. rewrite lookup_insert. case_decide as E; [subst x; intros _; left; left|]. intros Hx.
    destruct (O3 x ox Hx) as [?|[?|?]]; [left; by right|by auto..].
  - intros x. unfold all_commands in *. cbn. rewrite app_assoc, cancels_app. cbn. rewrite app_nil_r, O4. setoid_rewrite lookup_insert. case_decide as E; [|done].
    subst x. rewrite Hn. split; intros (ox & Hox & Hp); simplify_eq.
  - intros x Hx. destruct (O5 x Hx) as (ox & Hox & R). exists ox. rewrite lookup_insert_ne by (intros E; congruence). done.
Qed.

Lemma queued_tokens w r : tokens (u_state (queued r w)) ≡ₚ u_next w :: tokens (u_state w).
Proof.
  assert (E : all_commands (u_state (queued r w)) = all_commands (u_state w) ++ [VL_URING_COMMAND_SUBMIT (u_next w)]) by apply app_assoc.
  unfold tokens. rewrite E, submits_app, <- app_assoc. symmetry. apply Permutation_middle.
Qed.

Lemma queued_lists w r : ops_ok w -> lists_ok w -> lists_ok (queued r w).
Proof.
  intros Ho Hl. destruct (next_unused w Ho Hl) as (Hn & Hf & Ha & Hc). pose proof (queued_tokens w r) as Ht. destruct Hl as [L1 L2 L3 L4 L5 L6 L7 L8 L9].
  split; rewrite ?Ht; cbn [queued u_ops u_state u_requests u_next u_accepted u_delivered active completed set_commands set_active].
  - cbn. apply list.NoDup_cons. split; [rewrite elem_of_app; tauto|done].
  - unfold all_commands in *. cbn. by rewrite app_assoc, cancels_app, app_nil_r.
  - by apply submseteq_skip.
  - intros Hs. f_equiv. by apply L4.
  - rewrite fmap_app, L5. cbn. by rewrite (Permutation_app_comm _ [u_next w]).
  - intros a. rewrite fmap_app, elem_of_app. cbn. intros [Hx%L6|Hx%list_elem_of_singleton]; lia.
  - rewrite fmap_app. apply list.NoDup_app. cbn. split; [done|]. split; [|by apply list.NoDup_singleton]. intros x Hx ->%list_elem_of_singleton. done.
  - intros a o. rewrite lookup_insert, elem_of_app. case_decide as E; [subst a; intros [= <-]; right; left|]. intros Hx%L8. by left.
  - intros a c Hx. destruct (L9 a c Hx) as (r' & Hr & Hcr). exists r'. rewrite elem_of_app. auto.
Qed.

Lemma queued_ok w r q cp lost : uring_ok (mk_usystem w cp lost) -> cp = C_idle -> u_requests w !! r = Some q ->
  rq_op (ur_request q) <> VL_IO_CANCEL -> uring_ok (mk_usystem (queued r w) (C_wake_submit r) lost).
Proof.
  intros [Ho Hl Hw Hlate] -> Hq Hop. cbn [us_world us_client us_lost] in *. split; cbn [us_world us_client us_lost].
  - by eapply queued_ops.
  - by apply queued_lists.
  - destruct Hw as [W1 W2 W3 W4 W5 W6 W7 W8]. split; try done.
    + intros _ _ _. right. by left.
    + cbn. rewrite W7. by split; intros [?|?].
  - intros _. specialize (Hlate ltac:(done)). unfold late_cancels in *. cbn. rewrite cancels_app, app_nil_r.
    destruct (worker_pc (u_state w)); try done; intros; right; auto.
Qed.

Lemma next_ok w cp lost : uring_ok (mk_usystem w cp lost) -> uring_ok (mk_usystem (set_u_next (S (u_next w)) w) cp lost).
Proof.
  intros [[] [L1 L2 L3 L4 L5 L6 L7 L8 L9] Hw Hlate]. split; try done; split; try done.
  intros a Ha. specialize (L6 a Ha). cbn in *. lia.
Qed.

Lemma submit_locked_run calloc r w cp lost : uring_ok (mk_usystem w cp lost) -> exists x w', submit_locked calloc r w = Some (x, w') /\
  match x with inl _ => uring_ok (mk_usystem w' cp lost) /\ u_requests w' = u_requests w | inr _ => w' = queued r w end.
Proof.
  intros Hok. unfold submit_locked. destruct calloc; cbn [negb]; [|by eexists _, _]. rewrite bind_run. cbn [gets]. rewrite bind_run. cbn [modify].
  set (w1 := set_u_next _ w). rewrite bind_run. cbn [get_state gets]. case_decide as Hst; [eexists _, _; split; [done|]; split; [by apply next_ok|done]|].
  destruct (find_active_run r (active (u_state w1)) w1) as (f & Hf & _).
  { intros x Hx. destruct (oo_active w (uk_ops _ Hok) x Hx) as (o & Ho & _). by exists o. }
  unfold vl_uring_find_active_locked. rewrite bind_run, bind_run. cbn [get_state gets]. rewrite Hf.
  destruct f as [b|]; [eexists _, _; split; [done|]; split; [by apply next_ok|done]|]. by eexists (inr _), _.
Qed.

Definition submit_result (r : nat) (lost : bool) (x : vl_status + nat) (w' : uring_world) : Prop :=
  match x with
  | inl _ => uring_ok (mk_usystem w' C_idle lost)
  | inr _ => uring_ok (mk_usystem w' (C_wake_submit r) lost) /\ is_Some (u_requests w' !! r)
  end.

Lemma submit_locked_ok calloc r w lost q : uring_ok (mk_usystem w C_idle lost) -> u_requests w !! r = Some q -> rq_op (ur_request q) <> VL_IO_CANCEL ->
  exists x w', submit_locked calloc r w = Some (x, w') /\ submit_result r lost x w'.
Proof.
  intros Hok Hq Hop. destruct (submit_locked_run calloc r w C_idle lost Hok) as (x & w' & Hrun & Hx). exists x, w'. split; [done|].
  destruct x as [st|a]; cbn; [by destruct Hx|]. subst w'. split; [by eapply queued_ok|]. by exists q.
Qed.

Lemma claimed_submit calloc r w lost q fd g : uring_ok (mk_usystem w C_idle lost) -> u_requests w !! r = Some q -> rq_op (ur_request q) <> VL_IO_CANCEL ->
  exists x w', (claim ← on_registry (vl_socket_claim fd g);
      if decide (claim <> VL_OK) then mret (inl VL_ERROR_INVALID_STATE) else
      y ← submit_locked calloc r;
      match y with
      | inl status => _ ← on_registry (vl_socket_release fd g); mret (inl status)
      | inr a => mret (inr a)
      end) w = Some (x, w') /\ submit_result r lost x w'.
Proof.
  intros Hok Hq Hop. destruct (registry_total (vl_socket_claim fd g) w (claim_total fd g)) as (c & n & Hc). rewrite (bind_Some _ _ _ _ _ Hc).
  apply (registry_step _ _ _ n) in Hok. case_decide; [by eexists _, _|].
  destruct (submit_locked_ok calloc r (set_u_sockets n w) lost q Hok Hq Hop) as (x & w' & Hrun & Hx). rewrite (bind_Some _ _ _ _ _ Hrun).
  destruct x as [st|a]; [|by eexists _, _].
  destruct (registry_total (vl_socket_release fd g) w' (release_total fd g)) as ([] & n2 & Hr). rewrite (bind_Some _ _ _ _ _ Hr).
  eexists _, _. split; [done|]. by apply registry_step.
Qed.

Lemma backend_submit_ok calloc r w lost : uring_ok (mk_usystem w C_idle lost) -> is_Some (u_requests w !! r) ->
  exists x w', backend_submit_locked calloc r w = Some (x, w') /\ submit_result r lost x w'.
Proof.
  intros Hok [q Hq]. unfold backend_submit_locked. rewrite (bind_Some _ _ _ _ _ (load_urequest_run r q w Hq)).
  case_decide as Hv; [by eexists (inl _), w|].
  assert (Hop : rq_op (ur_request q) <> VL_IO_CANCEL). { intros E. unfold vl_uring_validate_request in Hv. by rewrite E in Hv. }
  assert (Hgen : forall w1 g, uring_ok (mk_usystem w1 C_idle lost) -> u_requests w1 !! r = Some q ->
    upd_generation r g w1 = Some (tt, with_generation r g q w1) /\ uring_ok (mk_usystem (with_generation r g q w1) C_idle lost) /\
    exists q', u_requests (with_generation r g q w1) !! r = Some q' /\ rq_op (ur_request q') <> VL_IO_CANCEL).
  { intros w1 g Hok1 Hq1. split; [by apply upd_generation_run|]. split; [by apply generation_step|]. eexists. cbn. by rewrite lookup_insert_eq. }
  destruct (registry_total (vl_socket_generation (rq_fd (ur_request q))) w (generation_total _)) as (g & n & Hg).
  assert (Hwork : forall A (k : Z -> U A), (generation ← on_registry (vl_socket_generation (rq_fd (ur_request q))); k generation) w = k g (set_u_sockets n w)).
  { intros A k. by rewrite (bind_Some _ _ _ _ _ Hg). }
  destruct (rq_op (ur_request q)) eqn:Eop; try done; cbv beta zeta; rewrite ?Hwork.
  5: { destruct (Hgen w 0 Hok Hq) as (Hrun & Hok1 & q' & Hq' & Hop'). rewrite (bind_Some _ _ _ _ _ Hrun). by eapply submit_locked_ok. }
  all: case_match; [eexists (inl _), _; split; [done|]; by apply registry_step|].
  all: destruct (Hgen (set_u_sockets n w) (if rq_generation (ur_request q) =? 0 then g else rq_generation (ur_request q))
         (registry_step _ _ _ n Hok) Hq) as (Hrun & Hok1 & q' & Hq' & Hop').
  all: rewrite (bind_Some _ _ _ _ _ Hrun); by eapply claimed_submit.
Qed.

(** ** The write to the eventfd *)

Lemma wakeup_ok w cp lost cp' : uring_ok (mk_usystem w cp lost) -> cp <> C_stopping -> cp <> C_closed -> cp' = C_idle ->
  uring_ok (mk_usystem (set_u_state (set_event_count (event_count (u_state w) + 1) (u_state w)) w) cp' lost) /\ uring_ok (mk_usystem w cp' true).
Proof.
  intros [Ho Hl [W1 W2 W3 W4 W5 W6 W7 W8] Hlate] Hn1 Hn2 ->. cbn [us_world us_client us_lost] in *. specialize (Hlate Hn2).
  assert (W7' : stop_requested (u_state w) = true <-> C_idle = C_stopping \/ C_idle = C_closed) by (rewrite W7; split; intros [?|?]; done).
  split; [|by split]. apply uring_ok_state; [apply state_step; try done; by apply Ho| |done].
  split; try done; cbn; [lia|intros; lia|intros _ _ _; left; lia|intros _ _ _; left; lia].
Qed.

Lemma cancel_wake_ok w written lost : uring_ok (mk_usystem w C_wake_cancel lost) ->
  exists st w', vl_uring_write_wakeup written w = Some (st, w') /\ uring_ok (mk_usystem w' C_idle (lost || negb written)).
Proof.
  intros Hok. destruct (wakeup_ok _ _ _ C_idle Hok) as [H1 H2]; [done..|]. destruct written; eexists _, _; split; try done.
  - by rewrite orb_false_r.
  - by rewrite orb_true_r.
Qed.

Lemma submit_wake_ok w written r lost : uring_ok (mk_usystem w (C_wake_submit r) lost) -> is_Some (u_requests w !! r) ->
  exists st w', backend_submit_wake written r w = Some (st, w') /\ uring_ok (mk_usystem w' C_idle (lost || negb written)).
Proof.
  intros Hok [q Hq]. destruct (wakeup_ok _ _ _ C_idle Hok) as [H1 H2]; [done..|]. unfold backend_submit_wake. destruct written; cbn [negb].
  - eexists _, _. split; [done|]. by rewrite orb_false_r.
  - rewrite orb_true_r, bind_run. cbn [vl_uring_write_wakeup mret C_ret]. rewrite decide_True by done. rewrite (bind_Some _ _ _ _ _ (load_urequest_run r q w Hq)).
    destruct (registry_total (vl_socket_release (rq_fd (ur_request q)) (rq_generation (ur_request q))) w (release_total _ _)) as ([] & n & Hr).
    destruct (rq_op (ur_request q)); try (rewrite (bind_Some _ _ _ _ _ Hr); eexists _, _; split; [done|]; by apply registry_step). by eexists _, _.
Qed.

(** ** Cancelling *)

Definition cancelling (a : nat) (o : vl_uring_operation) (w : uring_world) : uring_world :=
  set_u_state (set_commands (commands (u_state w) ++ [VL_URING_COMMAND_CANCEL a]) (u_state w))
    (set_u_ops (<[a := set_cancel_command_pending true o]> (u_ops w)) w).

Lemma cancelling_ops w a o : ops_ok w -> a ∈ active (u_state w) -> u_ops w !! a = Some o -> ops_ok (cancelling a o w).
Proof.
  intros [O1 O2 O3 O4 O5] Ha Ho. split; cbn.
  - intros x Hx. destruct (O1 x Hx) as (ox & Hox & R). rewrite lookup_insert. case_decide as E; [|by exists ox].
    subst x. assert (ox = o) as -> by congruence. by eexists.
  - intros x Hx. destruct (O2 x Hx) as (ox & Hox & R). rewrite lookup_insert. case_decide as E; [|by exists ox].
    subst x. assert (ox = o) as -> by congruence. by eexists.
  - intros x ox. rewrite lookup_insert. case_decide as E; [subst x; by left|apply O3].
  - intros x. unfold all_commands in *. cbn. rewrite app_assoc, cancels_app, elem_of_app, O4. setoid_rewrite lookup_insert. cbn. case_decide as E.
    + subst x. split; [by eexists|]. intros _. right. left.
    + split; [intros [?|?%list_elem_of_singleton]; [done|congruence]|by left].
  - intros x Hx. destruct (O5 x Hx) as (ox & Hox & R). rewrite lookup_insert. case_decide as E; [|by exists ox].
    subst x. assert (ox = o) as -> by congruence. by eexists.
Qed.

Lemma cancelling_lists w a o : ops_ok w -> lists_ok w -> u_ops w !! a = Some o -> cancel_command_pending o = false -> lists_ok (cancelling a o w).
Proof.
  intros [O1 O2 O3 O4 O5] [L1 L2 L3 L4 L5 L6 L7 L8 L9] Ho Hp.
  assert (Ht : tokens (u_state (cancelling a o w)) = tokens (u_state w)).
  { assert (E : all_commands (u_state (cancelling a o w)) = all_commands (u_state w) ++ [VL_URING_COMMAND_CANCEL a]) by apply app_assoc.
    unfold tokens. by rewrite E, submits_app, app_nil_r. }
  split; rewrite ?Ht; try done; cbn.
  - unfold all_commands in *. cbn. rewrite app_assoc, cancels_app. apply list.NoDup_app. split; [done|]. split; [|by apply list.NoDup_singleton].
    intros x Hx%O4 E. cbn in E. apply list_elem_of_singleton in E as ->. destruct Hx as (ox & Hox & Hpx). congruence.
  - intros x ox. rewrite lookup_insert. case_decide as E; [|apply L8]. subst x. intros [= <-]. exact (L8 a o Ho).
Qed.

Lemma cancel_locked_ok calloc r w lost : uring_ok (mk_usystem w C_idle lost) ->
  exists x w', cancel_locked calloc r w = Some (x, w') /\ uring_ok (mk_usystem w' (match x with inl _ => C_idle | inr _ => C_wake_cancel end) lost).
Proof.
  intros Hok. unfold cancel_locked. destruct calloc; cbn [negb]; [|by eexists (inl _), _]. pose proof Hok as [Ho Hl Hw Hlate]. cbn [us_world us_client us_lost] in *.
  destruct (find_active_run r (active (u_state w)) w) as (f & Hf & Hfa).
  { intros x Hx. destruct (oo_active w Ho x Hx) as (o & Hox & _). by exists o. }
  unfold vl_uring_find_active_locked. rewrite bind_run, bind_run. cbn [get_state gets]. rewrite Hf. destruct f as [a|]; [|by eexists (inl _), _].
  destruct (oo_active w Ho a Hfa) as (o & Hoa & _). rewrite (bind_Some _ _ _ _ _ (load_op_run a o w Hoa)).
  destruct (cancel_command_pending o) eqn:Hp; [by eexists (inl _), _|]. rewrite (bind_Some _ _ _ _ _ (upd_op_run a o _ w Hoa)).
  eexists (inr a), _. split; [reflexivity|]. change (uring_ok (mk_usystem (cancelling a o w) C_wake_cancel lost)). split; cbn [us_world us_client us_lost].
  - by apply cancelling_ops.
  - by apply cancelling_lists.
  - destruct Hw as [W1 W2 W3 W4 W5 W6 W7 W8]. split; try done; [|cbn; rewrite W7; split; intros [?|?]; done]. intros _ _ _. right. by left.
  - intros _. specialize (Hlate ltac:(done)). unfold late_cancels in *. cbn. rewrite cancels_app. cbn.
    destruct (worker_pc (u_state w)); try done; intros;
      match goal with H : _ ∈ _ ++ _ |- _ => apply elem_of_app in H as [?| ->%list_elem_of_singleton] end; auto.
Qed.

(** ** Polling *)

(** The oldest completion is returned; its operation stays only for a pending cancel command. *)
Definition consumed (a : nat) (o : vl_uring_operation) (rest : list nat) (w : uring_world) : uring_world :=
  mk_uworld (u_requests w) (if cancel_command_pending o then <[a := set_completion_consumed true o]> (u_ops w) else delete a (u_ops w)) (u_sockets w)
    (set_completed rest (u_state w)) (u_next w) (u_accepted w) (u_delivered w ++ [(a, uo_completion o)]).

Lemma consumed_other a o rest w x : x <> a -> u_ops (consumed a o rest w) !! x = u_ops w !! x.
Proof. intros Hne. cbn. by destruct (cancel_command_pending o); [rewrite lookup_insert_ne|rewrite lookup_delete_ne]. Qed.

Lemma consumed_self a o rest w ox : u_ops (consumed a o rest w) !! a = Some ox -> cancel_command_pending o = true /\ ox = set_completion_consumed true o.
Proof. cbn. destruct (cancel_command_pending o); [rewrite lookup_insert_eq; by intros [= <-]|by rewrite lookup_delete_eq]. Qed.

Lemma consumed_ops w a o rest : ops_ok w -> lists_ok w -> completed (u_state w) = a :: rest -> u_ops w !! a = Some o -> resolved o = true ->
  ops_ok (consumed a o rest w).
Proof.
  intros [O1 O2 O3 O4 O5] Hl Hc Ho Hres. pose proof (ul_nodup w Hl) as L1. rewrite Hc, <- Permutation_middle in L1. apply list.NoDup_cons in L1 as [Hna L1].
  rewrite elem_of_app in Hna. split; cbn [consumed u_state u_requests active completed set_completed worker_pc].
  - intros x Hx. rewrite consumed_other by (intros ->; tauto). by apply O1.
  - intros x Hx. rewrite consumed_other by (intros ->; tauto). apply O2. rewrite Hc. by right.
  - intros x ox Hx. destruct (decide (x = a)) as [->|Hne].
    + apply consumed_self in Hx as [Hp ->]. right. right. done.
    + rewrite consumed_other in Hx by done. destruct (O3 x ox Hx) as [?|[Hin|?]]; [by auto| |by auto]. rewrite Hc in Hin. apply elem_of_cons in Hin as [?|?]; [done|by auto].
  - intros x. change (all_commands (set_completed rest (u_state w))) with (all_commands (u_state w)). rewrite O4. destruct (decide (x = a)) as [->|Hne].
    + split; intros (ox & Hox & Hp).
      * assert (ox = o) as -> by congruence. exists (set_completion_consumed true o). cbn. by rewrite Hp, lookup_insert_eq.
      * apply consumed_self in Hox as [Hp' ->]. by exists o.
    + by rewrite consumed_other.
  - intros x Hx. assert (x ∈ active (u_state w)).
    { apply (token_active w x Hl). unfold tokens. rewrite Hx, !elem_of_app. right. right. left. }
    rewrite consumed_other by (intros ->; tauto). by apply O5.
Qed.

Lemma consumed_lists w a o rest : lists_ok w -> completed (u_state w) = a :: rest -> u_ops w !! a = Some o -> c_request (uo_completion o) = Some (uo_request o) ->
  lists_ok (consumed a o rest w).
Proof.
  intros [L1 L2 L3 L4 L5 L6 L7 L8 L9] Hc Ho Hr. split; try done; cbn [consumed u_state u_accepted u_delivered active completed set_completed].
  - rewrite Hc, <- Permutation_middle in L1. by apply list.NoDup_cons in L1 as [_ L1].
  - rewrite L5, Hc, fmap_app. cbn. f_equiv. rewrite (app_assoc rest), (Permutation_app_comm _ [a]). done.
  - intros x ox Hx. destruct (decide (x = a)) as [->|Hne].
    + apply consumed_self in Hx as [_ ->]. exact (L8 a o Ho).
    + rewrite consumed_other in Hx by done. by apply L8.
  - intros x c. rewrite elem_of_app. intros [Hx|Hx]; [by apply L9|]. apply list_elem_of_singleton in Hx as [= -> ->].
    exists (uo_request o). split; [exact (L8 a o Ho)|done].
Qed.

Lemma poll_take_ok w cp lost : uring_ok (mk_usystem w cp lost) -> exists r w', poll_take w = Some (r, w') /\ uring_ok (mk_usystem w' cp lost).
Proof.
  intros Hok. pose proof Hok as [Ho Hl Hw Hlate]. cbn [us_world us_client us_lost] in *. unfold poll_take. rewrite bind_run. cbn [get_state gets].
  destruct (completed (u_state w)) as [|a rest] eqn:Hc; [by eexists _, w|]. destruct (oo_completed w Ho a) as (o & Hoa & Hres & Hcon & Hreq); [rewrite Hc; left|].
  rewrite (bind_Some _ _ _ _ _ (load_op_run a o w Hoa)). exists (inr (uo_completion o)), (consumed a o rest w). split.
  - rewrite bind_run. cbn [upd_state modify]. erewrite bind_Some; [|apply (upd_op_run a o); exact Hoa]. rewrite bind_run. cbn [modify].
    unfold consumed. destruct (cancel_command_pending o) eqn:Hp; cbn [negb]; [done|].
    erewrite bind_Some; [|apply (free_op_run a (set_completion_consumed true o)); cbn; by rewrite lookup_insert_eq].
    cbn. by rewrite delete_insert_eq.
  - split; cbn [us_world us_client us_lost]; [by apply consumed_ops|by apply consumed_lists| |done]. destruct Hw. by split.
Qed.

Lemma poll_round_ok w lost c t : uring_ok (mk_usystem w (C_polling t) lost) -> exists r w', poll_round c t w = Some (r, w') /\
  uring_ok (mk_usystem w' (match r with Some _ => C_idle | None => C_polling t end) lost).
Proof.
  intros Hok. assert (Hidle : forall w1, uring_ok (mk_usystem w1 (C_polling t) lost) -> uring_ok (mk_usystem w1 C_idle lost)).
  { intros w1 [H1 H2 [W1 W2 W3 W4 W5 W6 W7 W8] H4]. split; try done; [|intros _; by apply H4]. split; try done. cbn in *. rewrite W7. split; intros [?|?]; done. }
  unfold poll_round. rewrite bind_run. cbn [get_state gets]. rewrite bind_run. cbn [get_state gets].
  case_match; [case_match; [|destruct c]; by eexists _, w; eauto|].
  destruct (poll_take_ok _ _ _ Hok) as (r & w' & Hrun & Hok'). rewrite (bind_Some _ _ _ _ _ Hrun). eexists (Some r), w'. by eauto.
Qed.

(** ** Stopping *)

Lemma stop_ok w written lost : uring_ok (mk_usystem w C_idle lost) ->
  exists w', request_stop written w = Some (tt, w') /\ uring_ok (mk_usystem w' C_stopping (lost || negb written)).
Proof.
  intros [Ho Hl [W1 W2 W3 W4 W5 W6 W7 W8] Hlate]. cbn [us_world us_client us_lost] in *. specialize (Hlate ltac:(done)).
  set (s' := set_event_count (if written then event_count (u_state w) + 1 else event_count (u_state w)) (set_stop_requested true (u_state w))).
  exists (set_u_state s' w). split; [by destruct written|].
  apply uring_ok_state; [apply state_step; try done; by apply Ho| |done]. split; try done; cbn.
  - destruct written; lia.
  - intros Hx%W4. destruct written; lia.
  - intros Hc Hh Hlost. apply orb_false_iff in Hlost as [Hlost Hwr]. destruct written; [left; lia|done].
  - intros _ _ Hlost. apply orb_false_iff in Hlost as [Hlost Hwr]. destruct written; [left; lia|done].
  - tauto.
  - destruct (worker_pc (u_state w)) as [| |? []| | | |]; auto.
Qed.

Lemma free_completed_run l w : NoDup l -> (forall x, x ∈ l -> is_Some (u_ops w !! x)) ->
  exists ops, free_completed l w = Some (tt, set_u_ops ops w) /\ forall x, ops !! x = if decide (x ∈ l) then None else u_ops w !! x.
Proof.
  revert w. induction l as [|a l IH]; intros w Hnd Hl; cbn [free_completed].
  { exists (u_ops w). by destruct w. }
  apply list.NoDup_cons in Hnd as [Hna Hnd]. destruct (Hl a ltac:(left)) as [o Ho]. rewrite (bind_Some _ _ _ _ _ (free_op_run a o w Ho)).
  destruct (IH (set_u_ops (delete a (u_ops w)) w) Hnd) as (ops & Hrun & Hops).
  { intros x Hx. cbn. rewrite lookup_delete_ne by congruence. apply Hl. by right. }
  exists ops. split; [exact Hrun|]. intros x. rewrite Hops. cbn. rewrite lookup_delete. repeat case_decide; set_solver.
Qed.

Lemma free_active_run l w : NoDup l -> (forall x, x ∈ l -> exists o, u_ops w !! x = Some o /\ is_Some (u_requests w !! uo_request o)) ->
  exists n ops, free_active l w = Some (tt, set_u_sockets n (set_u_ops ops w)) /\ forall x, ops !! x = if decide (x ∈ l) then None else u_ops w !! x.
Proof.
  revert w. induction l as [|a l IH]; intros w Hnd Hl; cbn [free_active].
  { exists (u_sockets w), (u_ops w). by destruct w. }
  apply list.NoDup_cons in Hnd as [Hna Hnd]. destruct (Hl a ltac:(left)) as (o & Ho & q & Hq).
  rewrite (bind_Some _ _ _ _ _ (load_op_run a o w Ho)), (bind_Some _ _ _ _ _ (load_urequest_run _ q w Hq)).
  assert (exists n, match rq_op (ur_request q) with VL_IO_TIMEOUT => mret tt
    | _ => on_registry (vl_socket_release (rq_fd (ur_request q)) (rq_generation (ur_request q))) end w = Some (tt, set_u_sockets n w)) as (n & Hn).
  { destruct (registry_total (vl_socket_release (rq_fd (ur_request q)) (rq_generation (ur_request q))) w (release_total _ _)) as ([] & n & Hr).
    destruct (rq_op (ur_request q)); try (by exists n). exists (u_sockets w). by destruct w. }
  rewrite (bind_Some _ _ _ _ _ Hn). erewrite bind_Some; [|apply (free_op_run a o); exact Ho].
  destruct (IH (set_u_ops (delete a (u_ops w)) (set_u_sockets n w)) Hnd) as (n' & ops & Hrun & Hops).
  { intros x Hx. cbn. rewrite lookup_delete_ne by congruence. apply Hl. by right. }
  exists n', ops. split; [exact Hrun|]. intros x. rewrite Hops. cbn. rewrite lookup_delete. repeat case_decide; set_solver.
Qed.

(** After [vl_io_worker_stop]. *)
Record closed_ok (w : uring_world) : Prop := {
  cl_active : active (u_state w) = [];
  cl_completed : completed (u_state w) = [];
  cl_unique : NoDup (u_accepted w).*1;
  cl_history : (u_delivered w).*1 ⊆+ (u_accepted w).*1;
  cl_delivered : forall a c, (a, c) ∈ u_delivered w -> exists r, (a, r) ∈ u_accepted w /\ c_request c = Some r;
  cl_ops : worker_status (u_state w) = VL_OK -> u_ops w = ∅ }.

Lemma join_ok w lost : uring_ok (mk_usystem w C_stopping lost) -> worker_pc (u_state w) = P_stopped ->
  exists w', vl_uring_free_state w = Some (tt, w') /\ closed_ok w'.
Proof.
  intros [Ho Hl Hw Hlate] Hpc. cbn [us_world us_client us_lost] in *. specialize (Hlate ltac:(done)).
  pose proof (ul_nodup w Hl) as Hnd. apply list.NoDup_app in Hnd as (Hnd1 & Hdis & Hnd2).
  set (w1 := set_u_state (set_commands [] (u_state w)) w).
  destruct (free_active_run (active (u_state w)) w1 Hnd1) as (n & ops1 & Hrun1 & Hops1).
  { intros x Hx. destruct (oo_active w Ho x Hx) as (o & Hox & _ & _ & q & Hq & _). exists o. split; [done|by exists q]. }
  set (w2 := set_u_state (set_active [] (u_state w1)) (set_u_sockets n (set_u_ops ops1 w1))).
  destruct (free_completed_run (completed (u_state w)) w2 Hnd2) as (ops2 & Hrun2 & Hops2).
  { intros x Hx. destruct (oo_completed w Ho x Hx) as (o & Hox & _). exists o. cbn. rewrite Hops1. rewrite decide_False; [done|]. intros Ha. by apply (Hdis x). }
  eexists. split.
  { unfold vl_uring_free_state. rewrite bind_run. cbn [upd_state modify]. fold w1. rewrite bind_run. cbn [get_state gets].
    change (active (u_state w1)) with (active (u_state w)). rewrite (bind_Some _ _ _ _ _ Hrun1), bind_run. cbn [upd_state modify].
    change (set_u_state (set_active [] (u_state (set_u_sockets n (set_u_ops ops1 w1)))) (set_u_sockets n (set_u_ops ops1 w1))) with w2.
    rewrite bind_run. cbn [get_state gets]. change (completed (u_state w2)) with (completed (u_state w)). rewrite (bind_Some _ _ _ _ _ Hrun2). reflexivity. }
  split; try done; cbn.
  - apply Hl.
  - rewrite (ul_history w Hl), app_assoc. by apply submseteq_inserts_l.
  - apply Hl.
  - intros Hst. apply map_empty. intros x. rewrite Hops2. cbn. rewrite Hops1. cbn. destruct (u_ops w !! x) as [o|] eqn:Hx; [|by repeat case_decide].
    case_decide as Hc; [done|]. case_decide as Ha; [done|]. exfalso. destruct (oo_ops w Ho x o Hx) as [?|[?|(_ & _ & Hp)]]; [done..|].
    apply Ha. unfold late_cancels in Hlate. rewrite Hpc in Hlate. apply Hlate; [done|].
    assert (Hin : x ∈ cancels (all_commands (u_state w))) by (apply (oo_cancels w Ho); eauto). unfold all_commands in Hin. by rewrite Hpc in Hin.
Qed.

(** ** What no step of the worker touches *)

Definition keeps_requests {A} (m : U A) : Prop := forall w a w', m w = Some (a, w') -> u_requests w' = u_requests w.

Lemma same_requests_bind {A B} (m : U A) (f : A -> U B) : keeps_requests m -> (forall a, keeps_requests (f a)) -> keeps_requests (a ← m; f a).
Proof. intros Hm Hf w b w' (a & w1 & H1 & H2)%bind_inv. rewrite (Hf a w1 b w' H2). by apply Hm in H1. Qed.
Lemma same_requests_ret {A} (a : A) : keeps_requests (mret a).
Proof. by intros w b w' [= <- <-]. Qed.
Lemma same_requests_ub {A} : keeps_requests (ub : U A).
Proof. by intros w b w'. Qed.
Lemma same_requests_get {A} (f : vl_uring_state -> A) : keeps_requests (get_state f).
Proof. by intros w b w' [= <- <-]. Qed.
Lemma same_requests_state f : keeps_requests (upd_state f).
Proof. by intros w b w' [= <- <-]. Qed.
Lemma same_requests_load_request r : keeps_requests (load_urequest r).
Proof. intros w b w'. unfold load_urequest, deref. case_match; [by intros [= <- <-]|done]. Qed.
Lemma same_requests_load a : keeps_requests (load_op a).
Proof. intros w b w'. unfold load_op, deref. case_match; [by intros [= <- <-]|done]. Qed.
Lemma same_requests_head {A} (f : uring_world -> option A) : keeps_requests (deref f).
Proof. intros w b w'. unfold deref. case_match; [by intros [= <- <-]|done]. Qed.
Lemma same_requests_upd a f : keeps_requests (upd_op a f).
Proof. apply same_requests_bind; [apply same_requests_load|]. by intros o w b w' [= <- <-]. Qed.
Lemma same_requests_free a : keeps_requests (free_op a).
Proof. apply same_requests_bind; [apply same_requests_load|]. by intros o w b w' [= <- <-]. Qed.
Lemma same_requests_registry {A} (m : N A) : keeps_requests (on_registry m).
Proof. intros w b w'. unfold on_registry. repeat case_match; [by intros [= <- <-]|done]. Qed.

Create HintDb keeps.
#[local] Hint Resolve same_requests_bind same_requests_ret same_requests_ub same_requests_get same_requests_state same_requests_load_request same_requests_load same_requests_head same_requests_upd same_requests_free same_requests_registry : keeps.
#[local] Hint Extern 2 (keeps_requests (if ?b then _ else _)) => destruct b : keeps.
#[local] Hint Extern 3 (keeps_requests (match ?x with _ => _ end)) => destruct x : keeps.

Ltac same_requests := repeat first [progress intros | solve [eauto 2 with keeps] | apply same_requests_bind | case_match].

Lemma same_requests_remove a l : keeps_requests (remove_active a l).
Proof. induction l; cbn [remove_active]; same_requests; done. Qed.
#[local] Hint Resolve same_requests_remove : keeps.

Lemma worker_keeps e : keeps_requests (vl_uring_worker_main e).
Proof.
  unfold vl_uring_worker_main, worker_wait, take_commands, command_round, commands_done, worker_submit, worker_exit, complete_locked, complete_unlocked, track_accepted,
    process_command, vl_uring_prepare_operation, vl_uring_prepare_cancel, vl_uring_prepare_wakeup, vl_uring_get_sqe, io_uring_submit, push_sqe,
    vl_uring_remove_active_locked, vl_uring_drain_wakeup, fail_worker, goto. same_requests.
Qed.

(** ** The invariant of the system *)

Definition wake_request (s : uring_system) : Prop :=
  match us_client s with C_wake_submit r => is_Some (u_requests (us_world s) !! r) | _ => True end.

Definition system_ok (s : uring_system) : Prop :=
  wake_request s /\ match us_client s with C_closed => closed_ok (us_world s) | _ => uring_ok s end.

Lemma system_open s : system_ok s -> us_client s <> C_closed -> uring_ok s.
Proof. intros [_ H] Hne. by destruct (us_client s). Qed.

Lemma open_system s : uring_ok s -> us_client s <> C_closed -> wake_request s -> system_ok s.
Proof. intros H Hne Hw. split; [done|]. by destruct (us_client s). Qed.

(** A worker that has started is waiting, with the poll of the eventfd submitted. *)
Lemma start_state e depth w w' : vl_uring_backend_init e false depth w = Some ((VL_OK, true), w') ->
  w' = set_u_state (round_state new_state [] [Sqe_wakeup] VL_OK P_wait) w.
Proof.
  unfold vl_uring_backend_init, vl_io_worker_start. destruct (st_calloc e); cbn [negb]; [|by intros [=]].
  destruct (st_mutex e && st_cond e && st_startup_cond e); cbn [negb]; [|by intros [=]]. rewrite bind_run. cbn [upd_state modify].
  destruct (st_eventfd e && st_thread e); cbn [negb]; [|by intros (? & ? & _ & [=])%bind_inv].
  intros (st & w1 & Hb & Hrest)%bind_inv. case_decide as Hst; [apply bind_inv in Hrest as (? & ? & _ & [=]); congruence|]. injection Hrest as <-. subst st. revert Hb.
  unfold worker_boot. case_match; [intros (? & ? & _ & Hr)%bind_inv; unfold vl_uring_status_from_error in Hr; by repeat case_match|].
  unfold vl_uring_prepare_wakeup, vl_uring_get_sqe, io_uring_submit.
  destruct (st_sqe e) as [[] [] []], (st_submit e); by intros [= <-].
Qed.

Lemma start_ok e depth w w' : u_ops w = ∅ -> u_accepted w = [] -> u_delivered w = [] ->
  vl_uring_backend_init e false depth w = Some ((VL_OK, true), w') -> uring_ok (mk_usystem w' C_idle false).
Proof.
  intros Ho Ha Hd ->%start_state. split; [| |split; try done|done]; cbn.
  - split; cbn; try (by intros ? ?%not_elem_of_nil); [intros a o; by rewrite Ho, lookup_empty| |done].
    intros a. rewrite Ho. split; [by intros ?%not_elem_of_nil|]. intros (o & E & _). by rewrite lookup_empty in E.
  - split; cbn; rewrite ?Ha, ?Hd, ?Ho; cbn; try done; try constructor; try (by intros ? ?%not_elem_of_nil); try (by intros ? ? ?%not_elem_of_nil).
  - cbn. unfold ring. cbn. intros [?|?%not_elem_of_nil]%elem_of_cons; done.
  - by intros ?%not_elem_of_nil.
  - cbn. split; [done|by intros [?|?]].
Qed.

Lemma closed_state w s' : closed_ok w -> active s' = active (u_state w) -> completed s' = completed (u_state w) -> worker_status s' = worker_status (u_state w) ->
  closed_ok (set_u_state s' w).
Proof. intros [] E1 E2 E3. by split; cbn; rewrite ?E1, ?E2, ?E3. Qed.

(** A step that keeps the invariant whatever the client does. *)
Lemma any_client w w' cp lost : system_ok (mk_usystem w cp lost) -> (uring_ok (mk_usystem w cp lost) -> uring_ok (mk_usystem w' cp lost)) ->
  (closed_ok w -> closed_ok w') -> (forall r, cp = C_wake_submit r -> u_requests w' !! r = u_requests w !! r) -> system_ok (mk_usystem w' cp lost).
Proof. intros [Hw H] H1 H2 H3. split; [|by destruct cp; cbn in *; auto]. unfold wake_request in *. cbn in *. destruct cp; try done. by rewrite H3. Qed.

Lemma step_ok s s' : system_ok s -> uring_step s s' -> system_ok s'.
Proof.
  intros Hok Hs. destruct Hs as [w cp lost e w' Hcq Hns Hcp Hrun|w cp lost l e l' result Hin He|w lost calloc r st w' Hr Hrun|w lost calloc r a w' Hr Hrun
    |w lost r written st w' Hrun|w lost calloc r st w' Hrun|w lost calloc r a w' Hrun|w lost written st w' Hrun|w lost t Ht|w lost c t r w' Hrun
    |w lost written w' Hrun|w lost w' Hpc Hrun|A w cp lost m x n Hm|w cp lost r q Hf Hcp].
  - pose proof (worker_keeps e _ _ _ Hrun) as Hk. destruct (worker_step w cp lost e (system_open _ Hok Hcp) (conj Hcq Hns)) as (w1 & Hrun1 & Hok1).
    rewrite Hrun in Hrun1. injection Hrun1 as <-. apply open_system; [done|done|]. destruct Hok as [Hw _]. unfold wake_request in *. cbn in *. by rewrite Hk.
  - apply (any_client w); [done|intros H; by apply kernel_step|intros H; by apply closed_state|done].
  - destruct (backend_submit_ok calloc r w lost (system_open _ Hok ltac:(done)) Hr) as (x & w1 & Hrun1 & Hx). rewrite Hrun in Hrun1. injection Hrun1 as <- <-. by apply open_system.
  - destruct (backend_submit_ok calloc r w lost (system_open _ Hok ltac:(done)) Hr) as (x & w1 & Hrun1 & Hx). rewrite Hrun in Hrun1. injection Hrun1 as <- <-.
    destruct Hx. by apply open_system.
  - destruct (submit_wake_ok w written r lost (system_open _ Hok ltac:(done)) (proj1 Hok)) as (x & w1 & Hrun1 & Hx). rewrite Hrun in Hrun1. injection Hrun1 as <- <-. by apply open_system.
  - destruct (cancel_locked_ok calloc r w lost (system_open _ Hok ltac:(done))) as (x & w1 & Hrun1 & Hx). rewrite Hrun in Hrun1. injection Hrun1 as <- <-. by apply open_system.
  - destruct (cancel_locked_ok calloc r w lost (system_open _ Hok ltac:(done))) as (x & w1 & Hrun1 & Hx). rewrite Hrun in Hrun1. injection Hrun1 as <- <-. by apply open_system.
  - destruct (cancel_wake_ok w written lost (system_open _ Hok ltac:(done))) as (x & w1 & Hrun1 & Hx). rewrite Hrun in Hrun1. injection Hrun1 as <- <-. by apply open_system.
  - apply open_system; try done. pose proof (system_open _ Hok ltac:(done)) as [H1 H2 [W1 W2 W3 W4 W5 W6 W7 W8] H4].
    split; try done; [|intros _; by apply H4]. split; try done. cbn in *. rewrite W7. split; intros [?|?]; done.
  - destruct (poll_round_ok w lost c t (system_open _ Hok ltac:(done))) as (x & w1 & Hrun1 & Hx). rewrite Hrun in Hrun1. injection Hrun1 as <- <-. apply open_system; by destruct r.
  - destruct (stop_ok w written lost (system_open _ Hok ltac:(done))) as (w1 & Hrun1 & Hx). rewrite Hrun in Hrun1. injection Hrun1 as <-. by apply open_system.
  - destruct (join_ok w lost (system_open _ Hok ltac:(done)) Hpc) as (w1 & Hrun1 & Hx). rewrite Hrun in Hrun1. injection Hrun1 as <-. by split.
  - apply (any_client w); [done|by apply registry_step|intros []; by split|done].
  - apply (any_client w); [done|intros H; by apply edit_step|intros []; by split|]. intros r' ->. cbn. rewrite lookup_partial_alter_ne; [done|]. congruence.
Qed.

Lemma reach_ok s : uring_reach s -> system_ok s.
Proof.
  induction 1 as [w e depth w' H1 H2 H3 H4|s s' _ IH Hs]; [|by eapply step_ok].
  apply open_system; [by eapply start_ok|done|done].
Qed.

(** ** What the client sees *)

(** C27: In every reachable state of the worker, the kernel, the client and the other
    threads, the operations the backend accepted are distinct, each completion was returned
    once and names the request of its operation, and until the backend is closed the
    accepted operations are exactly the active, the completed and the delivered ones.
    While the worker is healthy each active operation is in exactly one place: a command,
    an entry of the ring, or the worker's hands; and commands that are queued are seen: the
    eventfd is readable, or its write is still to come, or the worker is about to take
    them (unless a write to it failed).  Closing leaves no operation behind when the worker
    has not failed. *)
Theorem uring_exactly_once s : uring_reach s ->
  let w := us_world s in let st := u_state w in
  NoDup (u_accepted w).*1 /\ NoDup (u_delivered w).*1 /\
  (forall a c, (a, c) ∈ u_delivered w -> exists r, (a, r) ∈ u_accepted w /\ c_request c = Some r) /\
  (us_client s <> C_closed ->
     (u_accepted w).*1 ≡ₚ active st ++ completed st ++ (u_delivered w).*1 /\
     (healthy st -> tokens st ≡ₚ active st) /\
     (healthy st -> us_lost s = false -> commands st <> [] -> 0 < event_count st \/ waking (us_client s) \/ worker_pc st = P_take)) /\
  (us_client s = C_closed -> active st = [] /\ completed st = [] /\ (worker_status st = VL_OK -> u_ops w = ∅)).
Proof.
  intros Hs%reach_ok w st. assert (Hcase : (us_client s <> C_closed /\ uring_ok s) \/ (us_client s = C_closed /\ closed_ok w)).
  { destruct Hs as [_ Hs]. destruct (us_client s); auto. }
  destruct Hcase as [[Hne [Ho Hl Hw Hlate]]|[He [C1 C2 C3 C4 C5 C6]]].
  - pose proof (ul_unique w Hl) as Hu. pose proof (ul_history w Hl) as Hh. split_and!; [done| |by apply Hl| |done].
    + rewrite Hh, app_assoc in Hu. by apply list.NoDup_app in Hu as (_ & _ & Hu).
    + intros _. split_and!; [done|by apply Hl|]. intros Hy Hlost Hc. by apply Hw.
  - split_and!; try done. apply submseteq_Permutation in C4 as [k Hk]. rewrite Hk in C3. by apply list.NoDup_app in C3 as [C3 _].
Qed.

(** C31: No thread uses an operation that was freed: in every reachable state each step the
    worker can take and each call the client can make there is defined. *)
Theorem uring_calls_defined s : uring_reach s -> us_client s <> C_closed ->
  let w := us_world s in
  (forall e, worker_enabled e w -> is_Some (vl_uring_worker_main e w)) /\
  match us_client s with
  | C_idle => (forall calloc r, is_Some (u_requests w !! r) -> is_Some (backend_submit_locked calloc r w)) /\
      (forall calloc r, is_Some (cancel_locked calloc r w)) /\ (forall written, is_Some (request_stop written w))
  | C_wake_submit r => forall written, is_Some (backend_submit_wake written r w)
  | C_wake_cancel => forall written, is_Some (vl_uring_write_wakeup written w)
  | C_polling timeout_ms => forall c, is_Some (poll_round c timeout_ms w)
  | C_stopping => worker_pc (u_state w) = P_stopped -> is_Some (vl_uring_free_state w)
  | C_closed => True
  end.
Proof.
  intros Hs%reach_ok Hne w. pose proof (system_open s Hs Hne) as Hok. destruct s as [w0 cp lost]. cbn in *. split.
  { intros e He. destruct (worker_step w0 cp lost e Hok He) as (w' & Hr & _). by eexists. }
  destruct cp; cbn [us_client]; try done.
  - split_and!.
    + intros calloc r Hr. destruct (backend_submit_ok calloc r w0 lost Hok Hr) as (x & w' & Hrun & _). by eexists.
    + intros calloc r. destruct (cancel_locked_ok calloc r w0 lost Hok) as (x & w' & Hrun & _). by eexists.
    + intros written. destruct (stop_ok w0 written lost Hok) as (w' & Hrun & _). by eexists.
  - intros written. destruct (submit_wake_ok w0 written request lost Hok (proj1 Hs)) as (x & w' & Hrun & _). by eexists.
  - intros written. destruct (cancel_wake_ok w0 written lost Hok) as (x & w' & Hrun & _). by eexists.
  - intros c. destruct (poll_round_ok w0 lost c timeout_ms Hok) as (x & w' & Hrun & _). by eexists.
  - intros Hpc. destruct (join_ok w0 lost Hok Hpc) as (w' & Hrun & _). by eexists.
Qed.

(** ** Witnesses: a timer submitted, completed by the kernel and polled *)

Definition world_after {A} (m : U A) (w : uring_world) : uring_world := match m w with Some (_, w') => w' | None => w end.

Definition demo_request : uring_request := mk_urequest (mk_request VL_IO_TIMEOUT (-1) None 0 0 (Some 3%nat) 0 0 false) false 5000000.
Definition demo_start : start_env := mk_start_env true true true true true true 0 (mk_sqe_env true true true) true.
Definition demo_env : worker_env := mk_worker_env true Wait_entry (mk_sqe_env true true true) true.
Definition demo_new : uring_world := mk_uworld {[7%nat := demo_request]} ∅ (mk_sockets [] (mk_os ∅ ∅)) new_state 0 [] [].
Definition demo_0 : uring_world := world_after (vl_uring_backend_init demo_start false 0) demo_new.

(** The kernel answers the first entry submitted. *)
Definition demo_answer (result : Z) (w : uring_world) : uring_world :=
  match ring_inflight (u_state w) with
  | e :: l => set_u_state (set_ring_cq (ring_cq (u_state w) ++ [(e, result)]) (set_ring_inflight l (u_state w))) w
  | [] => w
  end.
Definition demo_work (n : nat) (w : uring_world) : uring_world := Nat.iter n (world_after (vl_uring_worker_main demo_env)) w.

Lemma demo_working n w cp lost : uring_reach (mk_usystem w cp lost) -> cp <> C_closed ->
  (forall k, (k < n)%nat -> let v := demo_work k w in
     (worker_pc (u_state v) = P_wait -> ring_cq (u_state v) <> []) /\ worker_pc (u_state v) <> P_stopped /\ is_Some (vl_uring_worker_main demo_env v)) ->
  uring_reach (mk_usystem (demo_work n w) cp lost).
Proof.
  intros Hw Hcp. induction n as [|n IH]; intros Hk; [done|]. eapply ur_step; [apply IH; intros k Hkn; apply Hk; lia|].
  destruct (Hk n ltac:(lia)) as (H1 & H2 & [[] w'] & H3). set (v := demo_work n w) in *.
  assert (E : demo_work (S n) w = w'). { change (world_after (vl_uring_worker_main demo_env) v = w'). unfold world_after. by rewrite H3. }
  rewrite E. apply (us_worker _ _ _ demo_env); auto.
Qed.

Lemma demo_answered result w cp lost e l : uring_reach (mk_usystem w cp lost) -> ring_inflight (u_state w) = e :: l ->
  (e = Sqe_wakeup -> 0 < event_count (u_state w)) -> uring_reach (mk_usystem (demo_answer result w) cp lost).
Proof.
  intros Hw Hl He. eapply ur_step; [exact Hw|]. unfold demo_answer. rewrite Hl. apply (us_kernel w cp lost [] e l result); done.
Qed.

Definition demo_1 : uring_world := world_after (backend_submit_locked true 7) demo_0.
Definition demo_2 : uring_world := world_after (backend_submit_wake true 7) demo_1.
Definition demo_3 : uring_world := demo_work 5 (demo_answer 1 demo_2).
Definition demo_4 : uring_world := demo_work 3 (demo_answer (- ETIME) demo_3).
Definition demo_5 : uring_world := world_after (poll_round Cond_woken 10) demo_4.

(** The steps from [demo_0] on; every premise is computed. *)
Lemma demo_reach_2 : uring_reach (mk_usystem demo_2 C_idle false).
Proof.
  eapply ur_step; [|apply (us_submit_wake demo_1 false 7 true VL_OK); vm_compute; reflexivity].
  eapply ur_step; [|eapply (us_submit_queued demo_0 _ true 7); [vm_compute; by eexists|vm_compute; reflexivity]].
  apply (ur_start demo_new demo_start 0); [done..|vm_compute; reflexivity].
Qed.

Lemma demo_reach_4 : uring_reach (mk_usystem demo_4 C_idle false).
Proof.
  apply demo_working; [|done|intros [|[|[|?]]] Hk; try lia; vm_compute; (split_and!; [done|done|by eexists])].
  eapply demo_answered; [|vm_compute; reflexivity|done].
  apply demo_working; [|done|intros [|[|[|[|[|?]]]]] Hk; try lia; vm_compute; (split_and!; [done|done|by eexists])].
  eapply demo_answered; [apply demo_reach_2|vm_compute; reflexivity|vm_compute; done].
Qed.

Lemma demo_reach_5 : uring_reach (mk_usystem demo_5 C_idle false).
Proof.
  eapply ur_step; [|eapply (us_poll_round demo_4 _ Cond_woken 10 (Some _)); vm_compute; reflexivity].
  eapply ur_step; [apply demo_reach_4|by apply us_poll].
Qed.

Lemma uring_exactly_once_witness : uring_reach (mk_usystem demo_5 C_idle false) /\
  (u_delivered demo_5).*1 = [0%nat] /\ NoDup (u_delivered demo_5).*1.
Proof.
  split; [exact demo_reach_5|]. split; [vm_compute; reflexivity|].
  exact (proj1 (proj2 (uring_exactly_once (mk_usystem demo_5 C_idle false) demo_reach_5))).
Defined.

Lemma uring_calls_defined_witness : worker_pc (u_state demo_4) = P_wait /\ is_Some (cancel_locked true 7 demo_4).
Proof.
  split; [vm_compute; reflexivity|].
  exact (proj1 (proj2 (proj2 (uring_calls_defined (mk_usystem demo_4 C_idle false) demo_reach_4 ltac:(discriminate)))) true 7%nat).
Defined.
