(* ===== verification/Backend.v ===== *)
(** * The I/O interface (src/net/backend.c)

    The backend-neutral layer: it checks the caller, hands the request to the
    backend of the handle, keeps the statistics, replaces the result of a stale
    request, and parks and wakes the tasks that wait for a request.  A handle
    [io] is the address of its [impl] ([None] where the code finds NULL).  The
    io_uring backend is an argument: [None] is a build without VELOCO_HAS_URING. *)

From S2P Require Import Prelude Intrusive RunQueue TimerHeap RuntimeState Task Socket SocketProps Epoll.
From stdpp Require Import options.

Open Scope Z_scope.

(** The I/O state and the runtime whose tasks wait for it. *)
Record net := mk_net { nw_io : io_world; nw_rt : vl_runtime_impl }.

Definition set_nw_io (v : io_world) (n : net) : net := mk_net v (nw_rt n).
Definition set_nw_rt (v : vl_runtime_impl) (n : net) : net := mk_net (nw_io n) v.

Notation B := (C net).

Definition on_io {A} (m : I A) : B A := fun n =>
  match m (nw_io n) with
  | Some (a, w) => Some (a, set_nw_io w n)
  | None => None
  end.

Definition on_rt {A} (m : R A) : B A := fun n =>
  match m (nw_rt n) with
  | Some (a, r) => Some (a, set_nw_rt r n)
  | None => None
  end.

(** The operations of uring_backend.c. *)
Record uring_backend := mk_uring {
  vl_uring_backend_init : nat -> Z -> I vl_status;
  vl_uring_backend_destroy : nat -> I unit;
  vl_uring_backend_submit : nat -> nat -> I vl_status;
  vl_uring_backend_cancel : nat -> nat -> I vl_status;
  vl_uring_backend_poll : nat -> Z -> I (option (vl_status * vl_io_completion)) }.

(** [vl_io_config]: the [backend] field holds one of the two constants or another number. *)
Record vl_io_config := mk_io_config { cfg_backend : option vl_io_backend; queue_depth : Z }.

Section Backend.
  #[local] Set Default Proof Using "Type".
  Context (uring : option uring_backend).

Definition vl_io_is_owner (th : thread) (i : vl_io_impl) : bool := bool_decide (io_owner i = th_self th).

(** [io]: NULL, or the [impl] it holds.  [alloc] is what [calloc] returned, [ep] what
    [epoll_create1] returned.  Returns the new [impl] pointer with the status. *)
Definition vl_io_init_with_config (th : thread) (alloc : option nat) (ep : Z) (io : option (option nat))
    (config : option vl_io_config) : I (vl_status * option nat) :=
  match io, config with
  | Some None, Some config =>
      match cfg_backend config with
      | None => mret (VL_ERROR_INVALID_ARGUMENT, None)
      | Some backend =>
          match alloc with
          | None => mret (VL_ERROR_OUT_OF_MEMORY, None)
          | Some impl =>
              _ ← modify (fun w => set_iw_impls (<[impl := mk_io_impl (-1) (th_self th) backend [] [] (mk_io_stats 0 0 0)]>
                                                   (iw_impls w)) w);
              status ← (match backend, uring with
                        | VL_IO_BACKEND_URING, Some u => vl_uring_backend_init u impl (queue_depth config)
                        | VL_IO_BACKEND_URING, None => mret VL_ERROR_UNSUPPORTED
                        | VL_IO_BACKEND_EPOLL, _ => vl_epoll_backend_init impl ep
                        end);
              if bool_decide (status <> VL_OK) then
                _ ← modify (fun w => set_iw_impls (delete impl (iw_impls w)) w);
                mret (status, None)
              else mret (VL_OK, Some impl)
          end
      end
  | Some (Some impl), _ => mret (VL_ERROR_INVALID_ARGUMENT, Some impl)
  | _, _ => mret (VL_ERROR_INVALID_ARGUMENT, None)
  end.

Definition vl_io_init (th : thread) (alloc alloc2 : option nat) (ep : Z) (io : option (option nat)) : I (vl_status * option nat) :=
  let backend := match uring with Some _ => VL_IO_BACKEND_URING | None => VL_IO_BACKEND_EPOLL end in
  r ← vl_io_init_with_config th alloc ep io (Some (mk_io_config (Some backend) 0));
  if bool_decide (r.1 = VL_OK) then mret r
  else if bool_decide (r.1 <> VL_ERROR_UNSUPPORTED) || bool_decide (backend = VL_IO_BACKEND_EPOLL) then mret r
  else vl_io_init_with_config th alloc2 ep io (Some (mk_io_config (Some VL_IO_BACKEND_EPOLL) 0)).

Definition vl_io_backend_of (io : option nat) : I vl_io_backend :=
  match io with
  | None => mret VL_IO_BACKEND_EPOLL
  | Some impl => i ← load_impl impl; mret (io_backend i)
  end.

(** Returns the [impl] pointer left in the handle. *)
Definition vl_io_destroy (th : thread) (io : option nat) : I (option nat) :=
  match io with
  | None => mret None
  | Some impl =>
      i ← load_impl impl;
      if negb (vl_io_is_owner th i) then mret io else
      _ ← (match uring with
           | Some u => if decide (io_backend i = VL_IO_BACKEND_URING) then vl_uring_backend_destroy u impl
                       else vl_epoll_backend_destroy impl
           | None => vl_epoll_backend_destroy impl
           end);
      _ ← modify (fun w => set_iw_impls (delete impl (iw_impls w)) w);
      mret None
  end.

Definition bump_io_stat (impl : nat) (f : vl_io_stats -> Z) (set : Z -> vl_io_stats -> vl_io_stats) : I unit :=
  upd_impl impl (fun i => set_io_stats (set (w64 (f (io_stats i) + 1)) (io_stats i)) i).

Definition backend_submit (calloc : bool) (failure : option Z) (i : vl_io_impl) (impl request : nat) : I vl_status :=
  match io_backend i, uring with
  | VL_IO_BACKEND_URING, Some u => vl_uring_backend_submit u impl request
  | VL_IO_BACKEND_URING, None => mret VL_ERROR_UNSUPPORTED
  | VL_IO_BACKEND_EPOLL, _ => vl_epoll_backend_submit calloc failure impl request
  end.

Definition reset_request (q : vl_io_request) : vl_io_request :=
  set_rq_events VL_IO_EVENT_NONE (set_rq_result 0 (set_rq_completed false q)).

(** [Suspend] where the task parks; the call goes on in [vl_io_submit_resumed]. *)
Definition vl_io_submit (th : thread) (calloc : bool) (failure : option Z) (io request : option nat) : B (outcome vl_status) :=
  match io, request with
  | Some impl, Some r =>
      i ← on_io (load_impl impl);
      if negb (vl_io_is_owner th i) then mret (Return VL_ERROR_INVALID_STATE) else
      _ ← on_io (upd_request r reset_request);
      q ← on_io (load_request r);
      can ← (match rq_task q with
             | None => mret VL_OK
             | Some t => on_rt (vl_task_can_park_for_io th (Some t) io)
             end);
      if bool_decide (can <> VL_OK) then mret (Return VL_ERROR_INVALID_STATE) else
      status ← on_io (backend_submit calloc failure i impl r);
      if bool_decide (status <> VL_OK) then mret (Return status) else
      _ ← on_io (bump_io_stat impl io_submissions set_io_submissions);
      match rq_task q with
      | None => mret (Return VL_OK)
      | Some t => on_rt (vl_task_park_for_io th (Some t) io)
      end
  | _, _ => mret (Return VL_ERROR_INVALID_ARGUMENT)
  end.

(** After the task runs again. *)
Definition vl_io_submit_resumed (task request : nat) : B vl_status :=
  st ← on_rt (vl_task_park_for_io_resumed task);
  if bool_decide (st <> VL_OK) then mret st else
  q ← on_io (load_request request);
  mret (if rq_completed q then VL_OK else VL_ERROR_INVALID_STATE).

Definition vl_io_cancel (th : thread) (malloc : bool) (io request : option nat) : I vl_status :=
  match io, request with
  | Some impl, Some r =>
      i ← load_impl impl;
      if negb (vl_io_is_owner th i) then mret VL_ERROR_INVALID_STATE else
      status ← (match io_backend i, uring with
                | VL_IO_BACKEND_URING, Some u => vl_uring_backend_cancel u impl r
                | VL_IO_BACKEND_URING, None => mret VL_ERROR_UNSUPPORTED
                | VL_IO_BACKEND_EPOLL, _ => vl_epoll_backend_cancel malloc impl r
                end);
      _ ← (if bool_decide (status = VL_OK) then bump_io_stat impl io_cancellations set_io_cancellations else mret tt);
      mret status
  | _, _ => mret VL_ERROR_INVALID_ARGUMENT
  end.

(** A completion whose request went stale: the accepted socket is closed, the result replaced. *)
Definition replace_stale (close_result : Z) (c : vl_io_completion) : I vl_io_completion :=
  match c_request c with
  | None => mret c
  | Some r =>
      stale ← request_is_stale r;
      if negb stale then mret c else
      q ← load_request r;
      _ ← (if bool_decide (rq_op q = VL_IO_ACCEPT) && (0 <=? c_result c)
           then (_ ← on_sockets (vl_socket_close close_result (c_result c)); mret tt) else mret tt);
      mret (set_c_events (Z.lor (c_events c) VL_IO_EVENT_ERROR) (set_c_result (- ESTALE) c))
  end.

(** What [vl_io_poll] does with a completion up to waking the task. *)
Definition deliver (close_result : Z) (impl : nat) (c : vl_io_completion) : I vl_io_completion :=
  _ ← bump_io_stat impl io_completions set_io_completions;
  c ← replace_stale close_result c;
  match c_request c with
  | None => ub
  | Some r =>
      _ ← upd_request r (fun q => set_rq_completed true (set_rq_events (c_events c) (set_rq_result (c_result c) q)));
      mret c
  end.

Definition backend_poll (now : option (Z * Z)) (rounds : list poll_round) (i : vl_io_impl) (impl : nat) (timeout_ms : Z)
    : I (option (vl_status * vl_io_completion)) :=
  match io_backend i, uring with
  | VL_IO_BACKEND_URING, Some u => vl_uring_backend_poll u impl timeout_ms
  | VL_IO_BACKEND_URING, None => mret (Some (VL_ERROR_UNSUPPORTED, empty_completion))
  | VL_IO_BACKEND_EPOLL, _ => vl_epoll_backend_poll now rounds impl timeout_ms
  end.

(** The backend's poll and, on VL_OK, the delivery of its completion. *)
Definition poll_deliver (now : option (Z * Z)) (rounds : list poll_round) (close_result : Z) (i : vl_io_impl) (impl : nat)
    (timeout_ms : Z) : I (option (vl_status * vl_io_completion)) :=
  r ← backend_poll now rounds i impl timeout_ms;
  match r with
  | Some (VL_OK, c) => c ← deliver close_result impl c; mret (Some (VL_OK, c))
  | _ => mret r
  end.

(** A completion that belongs to a task wakes it; the status is that of [vl_task_complete_io]. *)
Definition poll_wake (r : option (vl_status * vl_io_completion)) : B (option (vl_status * vl_io_completion)) :=
  match r with
  | Some (VL_OK, c) =>
      match c_task c with
      | None => mret r
      | Some t => st ← on_rt (vl_task_complete_io (Some t) true); mret (Some (st, c))
      end
  | _ => mret r
  end.

(** [None] while the call is blocked.  [given]: is the completion pointer not NULL? *)
Definition vl_io_poll (th : thread) (now : option (Z * Z)) (rounds : list poll_round) (close_result : Z)
    (io : option nat) (timeout_ms : Z) (given : bool) : B (option (vl_status * vl_io_completion)) :=
  match io with
  | None => mret (Some (VL_ERROR_INVALID_ARGUMENT, empty_completion))
  | Some impl =>
      if negb given || (timeout_ms <? -1) then mret (Some (VL_ERROR_INVALID_ARGUMENT, empty_completion)) else
      i ← on_io (load_impl impl);
      if negb (vl_io_is_owner th i) then mret (Some (VL_ERROR_INVALID_STATE, empty_completion)) else
      r ← on_io (poll_deliver now rounds close_result i impl timeout_ms);
      poll_wake r
  end.

Definition vl_io_get_stats (io : option nat) : I vl_io_stats :=
  match io with
  | None => mret (mk_io_stats 0 0 0)
  | Some impl => i ← load_impl impl; mret (io_stats i)
  end.

End Backend.
