(* ===== verification/BackendProps.v ===== *)
(** * Requests through the I/O interface

    Histories of initialisations, submissions, cancellations, polls and destructions
    over any number of epoll handles, with the callers' writes to their requests and
    the registry operations of other threads in between; what they preserve and
    what a poll answers. *)

From S2P Require Import Prelude Intrusive RunQueue TimerHeap RuntimeState Task Socket SocketProps Epoll EpollInv Backend.
From stdpp Require Import options.

Open Scope Z_scope.

(** Every pending request of a handle was submitted and not yet delivered. *)
Definition balanced (i : vl_io_impl) : Prop :=
  io_submissions (io_stats i) = w64 (io_completions (io_stats i) + Z.of_nat (length (pending i))).

Record io_inv (w : io_world) : Prop := {
  inv_ok : io_ok w;
  inv_handles : forall h i, iw_impls w !! h = Some i -> io_backend i = VL_IO_BACKEND_EPOLL /\ balanced i }.

Lemma on_io_run {A} (m : I A) n a w : m (nw_io n) = Some (a, w) -> on_io m n = Some (a, set_nw_io w n).
Proof. intros E. unfold on_io. by rewrite E. Qed.

Lemma on_io_inv {A} (m : I A) n a n' : on_io m n = Some (a, n') -> exists w, m (nw_io n) = Some (a, w) /\ n' = set_nw_io w n.
Proof. unfold on_io. destruct (m (nw_io n)) as [[b w]|]; [|done]. intros [= -> <-]. eauto. Qed.

Lemma on_rt_io {A} (m : R A) n a n' : on_rt m n = Some (a, n') -> nw_io n' = nw_io n.
Proof. unfold on_rt. destruct (m (nw_rt n)) as [[b r]|]; [|done]. by intros [= _ <-]. Qed.

Lemma upd_request_run r f q w : iw_requests w !! r = Some q -> upd_request r f w = Some (tt, set_iw_requests (<[r := f q]> (iw_requests w)) w).
Proof. intros Hq. unfold upd_request. by rewrite Hq. Qed.

Lemma load_request_run r q w : iw_requests w !! r = Some q -> load_request r w = Some (q, w).
Proof. intros Hq. unfold load_request, deref. by rewrite Hq. Qed.

Lemma load_impl_run h i w : iw_impls w !! h = Some i -> load_impl h w = Some (i, w).
Proof. intros Hh. unfold load_impl, deref. by rewrite Hh. Qed.

(** ** Handles one at a time *)

(** All handles but [h] are as before. *)
Lemma inv_insert w w' h i' : io_inv w -> io_ok w' -> iw_impls w' = <[h := i']> (iw_impls w) ->
  io_backend i' = VL_IO_BACKEND_EPOLL -> balanced i' -> io_inv w'.
Proof.
  intros Hinv Hok Hi Hb Hbal. split; [done|]. intros h' x Hx. rewrite Hi, lookup_insert in Hx.
  case_decide; simplify_eq; [done|by apply (inv_handles _ Hinv h')].
Qed.

Lemma inv_same w w' : io_inv w -> io_ok w' -> iw_impls w' = iw_impls w -> io_inv w'.
Proof. intros Hinv Hok Hi. split; [done|]. intros h x. rewrite Hi. apply Hinv. Qed.

Lemma bump_run h i f set w : iw_impls w !! h = Some i ->
  bump_io_stat h f set w = Some (tt, set_iw_impls (<[h := set_io_stats (set (w64 (f (io_stats i) + 1)) (io_stats i)) i]> (iw_impls w)) w).
Proof. intros Hh. unfold bump_io_stat, upd_impl. by rewrite Hh. Qed.

Lemma bump_ok h i c w : io_ok w -> iw_impls w !! h = Some i -> io_ok (set_iw_impls (<[h := set_io_stats c i]> (iw_impls w)) w).
Proof. intros Hok Hh. apply (io_ok_impl w h i); [done..|]. intros c' Hc'. by apply (ok_queue _ Hok h i). Qed.

Section Histories.
  #[local] Set Default Proof Using "Type".
  Context (uring : option uring_backend).

(** ** Submitting *)

Lemma backend_submit_epoll calloc failure i h r : io_backend i = VL_IO_BACKEND_EPOLL ->
  backend_submit uring calloc failure i h r = vl_epoll_backend_submit calloc failure h r.
Proof. intros E. unfold backend_submit. by rewrite E. Qed.

Lemma submit_inv th calloc failure h r n o n' : io_inv (nw_io n) ->
  (forall q, iw_requests (nw_io n) !! r = Some q -> buffer_ok (nw_io n) q) ->
  vl_io_submit uring th calloc failure (Some h) (Some r) n = Some (o, n') -> io_inv (nw_io n').
Proof.
  intros Hinv Hbuf E. pose proof (inv_ok _ Hinv) as Hok. unfold vl_io_submit in E.
  apply bind_inv in E as (i & n1 & Ei & E). apply on_io_inv in Ei as (w1 & Ei & ->).
  unfold load_impl, deref in Ei. destruct (iw_impls (nw_io n) !! h) as [i0|] eqn:Hh; [|done]. injection Ei as -> <-.
  destruct (inv_handles _ Hinv h i Hh) as [Hbe Hbal].
  destruct (vl_io_is_owner th i); simpl in E; [|injection E as _ <-; done].
  apply bind_inv in E as (u & n2 & Eu & E). apply on_io_inv in Eu as (w2 & Eu & ->).
  unfold upd_request in Eu. simpl in Eu. destruct (iw_requests (nw_io n) !! r) as [q|] eqn:Hq; [|done]. injection Eu as _ <-.
  set (w1 := set_iw_requests (<[r := reset_request q]> (iw_requests (nw_io n))) (nw_io n)) in *.
  assert (Hq1 : iw_requests w1 !! r = Some (reset_request q)) by apply lookup_insert_eq.
  assert (Hok1 : io_ok w1) by by apply (io_ok_request_same _ _ q).
  assert (Hinv1 : io_inv w1) by by apply (inv_same (nw_io n)).
  apply bind_inv in E as (q1 & n3 & El & E). apply on_io_inv in El as (w3 & El & ->). simpl in El.
  rewrite (load_request_run _ _ _ Hq1) in El. injection El as <- <-. simpl in E.
  apply bind_inv in E as (can & n4 & Ec & E).
  assert (Hn4 : nw_io n4 = w1).
  { destruct (rq_task q); [by rewrite (on_rt_io _ _ _ _ Ec)|]. by injection Ec as _ <-. }
  case_bool_decide; [injection E as _ <-; by rewrite Hn4|].
  apply bind_inv in E as (st & n5 & Es & E). apply on_io_inv in Es as (w5 & Es & ->).
  rewrite backend_submit_epoll, Hn4 in Es by done.
  destruct (submit_spec calloc failure h i r (reset_request q) w1 Hok1 Hh Hq1) as (st' & w5' & Es' & Hok5 & Hcase).
  { exact (Hbuf q eq_refl). }
  rewrite Es in Es'. injection Es' as <- <-.
  destruct Hcase as [[Hst Hi5]|[-> (x & g & Hx & Hi5 & _)]].
  { rewrite bool_decide_true in E by done. injection E as _ <-. by apply (inv_same w1). }
  rewrite bool_decide_false in E by auto.
  apply bind_inv in E as (u2 & n6 & Eb & E). apply on_io_inv in Eb as (w6 & Eb & ->).
  assert (Hh5 : iw_impls w5 !! h = Some (add_waiter x i)) by (rewrite Hi5; apply lookup_insert_eq). simpl in Eb.
  rewrite (bump_run _ _ _ _ _ Hh5) in Eb. injection Eb as _ <-.
  assert (Hfin : io_inv (set_iw_impls (<[h := set_io_stats (set_io_submissions (w64 (io_submissions (io_stats (add_waiter x i)) + 1))
    (io_stats (add_waiter x i))) (add_waiter x i)]> (iw_impls w5)) w5)).
  { eapply (inv_insert w1); [done|by apply bump_ok|simpl; rewrite Hi5; apply insert_insert_eq|done|].
    unfold balanced in *. change (pending (set_io_stats _ _)) with (wt_request x :: pending i).
    cbn [io_stats set_io_stats set_io_submissions io_submissions io_completions add_waiter set_io_waiters length].
    rewrite Hbal, w64_add_l, Nat2Z.inj_succ. f_equal. lia. }
  destruct (rq_task q); [|by injection E as _ <-]. by rewrite (on_rt_io _ _ _ _ E).
Qed.

(** ** Cancelling *)

Lemma cancel_inv th malloc h r w o w' : io_inv w ->
  vl_io_cancel uring th malloc (Some h) (Some r) w = Some (o, w') -> io_inv w'.
Proof.
  intros Hinv E. pose proof (inv_ok _ Hinv) as Hok. unfold vl_io_cancel in E.
  apply bind_inv in E as (i & w1 & Ei & E). unfold load_impl, deref in Ei. destruct (iw_impls w !! h) as [i0|] eqn:Hh; [|done].
  injection Ei as -> <-. destruct (inv_handles _ Hinv h i Hh) as [Hbe Hbal].
  destruct (vl_io_is_owner th i); simpl in E; [|by injection E as _ <-].
  apply bind_inv in E as (st & w1 & Es & E). rewrite Hbe in Es.
  destruct (cancel_spec malloc h i r w Hok Hh) as (st' & w1' & Es' & Hok1 & Hc). rewrite Es in Es'. injection Es' as <- <-.
  destruct Hc as [[Hst ->]|(-> & _ & i' & q & Hi1 & (_ & _ & Hb' & Hst') & Hp & _)].
  { rewrite bool_decide_false in E by done. by injection E as _ <-. }
  rewrite bool_decide_true in E by done. assert (Hh1 : iw_impls w1 !! h = Some i') by (rewrite Hi1; apply lookup_insert_eq).
  rewrite bind_run, (bump_run _ _ _ _ _ Hh1) in E. injection E as _ <-.
  eapply (inv_insert w); [done|by apply bump_ok|simpl; rewrite Hi1; apply insert_insert_eq|by rewrite <- Hbe|].
  unfold balanced in *. simpl. rewrite Hst', Hbal. unfold pending in *. simpl. by rewrite Hp.
Qed.

(** ** Polling *)

(** What a delivered completion says: the fields the backend set, or the stale result. *)
Definition delivered_as (stale : bool) (c c' : vl_io_completion) : Prop :=
  c_request c' = c_request c /\ c_generation c' = c_generation c /\ c_task c' = c_task c /\
  if stale then c_result c' = - ESTALE /\ has (c_events c') VL_IO_EVENT_ERROR = true else c' = c.

Definition complete_request (c : vl_io_completion) (q : vl_io_request) : vl_io_request :=
  set_rq_completed true (set_rq_events (c_events c) (set_rq_result (c_result c) q)).

Lemma has_lor e : has (Z.lor e VL_IO_EVENT_ERROR) VL_IO_EVENT_ERROR = true.
Proof.
  unfold has. apply negb_true_iff, Z.eqb_neq. intros E. assert (Z.testbit (Z.land (Z.lor e VL_IO_EVENT_ERROR) VL_IO_EVENT_ERROR) 3 = true) as Hb.
  { rewrite Z.land_spec, Z.lor_spec. apply andb_true_intro. split; [apply orb_true_r|done]. }
  by rewrite E, Z.bits_0 in Hb.
Qed.

Lemma replace_stale_spec cr c r q w : io_ok w -> c_request c = Some r -> iw_requests w !! r = Some q ->
  exists stale c' w', request_is_stale r w = Some (stale, w) /\ replace_stale cr c w = Some (c', w') /\ io_ok w' /\ kept w w' /\
    delivered_as stale c c'.
Proof.
  intros Hok Hc Hq. destruct (request_is_stale_run _ _ _ Hq) as (b & Eb). unfold replace_stale. rewrite Hc.
  rewrite (bind_Some _ _ _ _ _ Eb). destruct b; simpl; [|by exists false, c, w].
  rewrite (bind_Some _ _ _ _ _ (load_request_run _ _ _ Hq)).
  assert (exists w1, (if bool_decide (rq_op q = VL_IO_ACCEPT) && (0 <=? c_result c)
    then (_ ← on_sockets (vl_socket_close cr (c_result c)); mret tt) else mret tt) w = Some (tt, w1) /\ io_ok w1 /\ kept w w1) as (w1 & E1 & Hok1 & Hk).
  { case_match; [|by exists w]. destruct (steady_sockets (vl_socket_close cr (c_result c)) w (steady_close [] _ _) Hok) as (st & n & E & Hok' & _).
    exists (set_iw_sockets n w). by rewrite (bind_Some _ _ _ _ _ E). }
  rewrite (bind_Some _ _ _ _ _ E1). eexists true, _, w1. split; [done|]. split; [reflexivity|]. split; [done|]. split; [done|].
  repeat split. simpl. apply has_lor.
Qed.

Definition bump_completions (i : vl_io_impl) : vl_io_impl :=
  set_io_stats (set_io_completions (w64 (io_completions (io_stats i) + 1)) (io_stats i)) i.

Lemma deliver_spec cr h i c r q w : io_ok w -> iw_impls w !! h = Some i -> c_request c = Some r -> iw_requests w !! r = Some q ->
  exists stale c' w', request_is_stale r w = Some (stale, w) /\ deliver cr h c w = Some (c', w') /\ io_ok w' /\
    iw_impls w' = <[h := bump_completions i]> (iw_impls w) /\
    iw_requests w' = <[r := complete_request c' q]> (iw_requests w) /\ delivered_as stale c c'.
Proof.
  intros Hok Hh Hc Hq. unfold deliver. rewrite (bind_Some _ _ _ _ _ (bump_run _ _ _ _ _ Hh)). fold (bump_completions i).
  set (w1 := set_iw_impls _ w). assert (Hok1 : io_ok w1) by by apply bump_ok.
  destruct (replace_stale_spec cr c r q w1 Hok1 Hc Hq) as (b & c' & w2 & Eb & E2 & Hok2 & (Hi2 & Hr2 & _) & Hd).
  assert (Eb' : request_is_stale r w = Some (b, w)).
  { destruct (request_is_stale_run _ _ _ Hq) as (b' & Eb'). rewrite Eb'. do 2 f_equal. clear -Eb Eb' Hq. unfold request_is_stale in *.
    rewrite bind_run, (load_request_run _ _ _ Hq) in Eb'. rewrite bind_run, (load_request_run _ q w1 Hq) in Eb. case_decide; [injection Eb as <-; by injection Eb' as <-|].
    unfold on_sockets in *. change (iw_sockets w1) with (iw_sockets w) in Eb. destruct (vl_socket_request_is_stale _ _ _) as [[? ?]|]; [|done].
    injection Eb as -> _. by injection Eb' as -> _. }
  rewrite (bind_Some _ _ _ _ _ E2). rewrite (proj1 Hd), Hc. assert (Hq2 : iw_requests w2 !! r = Some q) by by rewrite Hr2.
  rewrite (bind_Some _ _ _ _ _ (upd_request_run _ _ _ _ Hq2)). eexists b, c', _. split; [done|]. split; [reflexivity|].
  split; [by apply (io_ok_request_same _ _ q)|]. split; [exact Hi2|]. split; [|done]. simpl. by rewrite Hr2.
Qed.

(** A poll that answered [c]: one pending request of [h] is delivered, with its fields written back. *)
Definition answered (h : nat) (w : io_world) (c : vl_io_completion) (w' : io_world) : Prop :=
  exists i i' r q, iw_impls w !! h = Some i /\ iw_impls w' = <[h := bump_completions i']> (iw_impls w) /\
    c_request c = Some r /\ iw_requests w !! r = Some q /\ iw_requests w' = <[r := complete_request c q]> (iw_requests w) /\
    pending i ≡ₚ r :: pending i' /\ same_handle i i'.

Lemma poll_deliver_spec now rounds cr i h timeout w : io_inv w -> iw_impls w !! h = Some i ->
  (forall r, r ∈ rounds -> polite w (pr_others r)) ->
  exists x w', poll_deliver uring now rounds cr i h timeout w = Some (x, w') /\ io_inv w' /\
    poll_result (fun w' c => answered h w c w') w x w'.
Proof.
  intros Hinv Hh Hp. pose proof (inv_ok _ Hinv) as Hok. destruct (inv_handles _ Hinv h i Hh) as [Hbe Hbal].
  unfold poll_deliver, backend_poll. rewrite Hbe.
  destruct (poll_spec now rounds h timeout w Hok (ex_intro _ i Hh) Hp) as (x & w1 & E & Hok1 & Hx). rewrite (bind_Some _ _ _ _ _ E).
  destruct x as [[st c]|]; [|exists None, w1; split; [done|]; split; [by apply (inv_same w); [..|apply Hx]|done]].
  destruct Hx as [[-> (i0 & i' & r & Hh0 & Hi1 & Hr1 & Hc & Hpend & Hsame & [q Hq])]|(Hst & Hce & Hk)].
  - rewrite Hh in Hh0. injection Hh0 as <-. destruct (deliver_spec cr h i' c r q w1 Hok1) as (b & c' & w2 & _ & E2 & Hok2 & Hi2 & Hr2 & Hd);
      [rewrite Hi1; apply lookup_insert_eq|done|by rewrite Hr1|].
    rewrite (bind_Some _ _ _ _ _ E2). eexists (Some (VL_OK, c')), w2. split; [done|].
    assert (Hi3 : iw_impls w2 = <[h := bump_completions i']> (iw_impls w)) by (rewrite Hi2, Hi1; apply insert_insert_eq).
    destruct Hsame as (Hs1 & Hs2 & Hs3 & Hs4). split.
    + eapply (inv_insert w); [done|done|exact Hi3|by rewrite <- Hbe|]. unfold balanced in *. change (pending (bump_completions i')) with (pending i').
      cbn [io_stats bump_completions set_io_stats set_io_completions io_submissions io_completions].
      rewrite Hs4, Hbal, Hpend, w64_add_l. cbn [length]. f_equal. lia.
    + left. split; [done|]. exists i, i', r, q. split; [done|]. split; [done|]. split; [by rewrite (proj1 Hd)|]. split; [done|].
      split; [by rewrite Hr2, Hr1|]. done.
  - exists (Some (st, c)), w1. split; [by destruct Hst as [-> | ->]|]. split; [by apply (inv_same w); [..|apply Hk]|]. by right.
Qed.

Lemma poll_inv th now rounds cr h timeout given n x n' : io_inv (nw_io n) ->
  (forall r, r ∈ rounds -> polite (nw_io n) (pr_others r)) ->
  vl_io_poll uring th now rounds cr (Some h) timeout given n = Some (x, n') -> io_inv (nw_io n').
Proof.
  intros Hinv Hp E. unfold vl_io_poll in E. case_match; [by injection E as _ <-|].
  apply bind_inv in E as (i & n1 & Ei & E). apply on_io_inv in Ei as (w1 & Ei & ->).
  unfold load_impl, deref in Ei. destruct (iw_impls (nw_io n) !! h) as [i0|] eqn:Hh; [|done]. injection Ei as -> <-.
  case_match; [by injection E as _ <-|]. apply bind_inv in E as (y & n2 & Ey & E). apply on_io_inv in Ey as (w2 & Ey & ->).
  destruct (poll_deliver_spec now rounds cr i h timeout (nw_io n) Hinv Hh Hp) as (y' & w2' & Ey' & Hinv2 & _).
  simpl in Ey. rewrite Ey in Ey'. injection Ey' as <- <-.
  unfold poll_wake in E. assert (Hret : forall z, Some (z, set_nw_io w2 (set_nw_io (nw_io n) n)) = Some (x, n') -> io_inv (nw_io n')) by by intros z [= _ <-].
  destruct y as [[[] c]|]; try by eapply Hret. destruct (c_task c) as [t|]; [|by eapply Hret].
  apply bind_inv in E as (st & n3 & Er & E). apply on_rt_io in Er. injection E as _ <-. by rewrite Er.
Qed.

(** ** Creating and destroying handles *)

(** The allocator returns an address that is not in use and [epoll_create1] a descriptor no handle has,
    with an empty interest list. *)
Definition fresh_handle (a : nat) (ep : Z) (w : io_world) : Prop :=
  iw_impls w !! a = None /\ (forall h i, iw_impls w !! h = Some i -> epoll_fd i <> ep) /\
  (forall fd, interest (sock_os (iw_sockets w)) !! (ep, fd) = None).

Lemma io_ok_new w a i : io_ok w -> fresh_handle a (epoll_fd i) w -> io_waiters i = [] -> io_completed i = [] ->
  io_ok (set_iw_impls (<[a := i]> (iw_impls w)) w).
Proof.
  intros Hok (Hnew & Hep & Hint) Hw Hc.
  assert (Hold : forall h x y, (<[a := i]> (iw_impls w)) !! h = Some x -> y ∈ io_waiters x -> iw_impls w !! h = Some x).
  { intros h x y Hx Hy. rewrite lookup_insert in Hx. case_decide; simplify_eq; [|done]. rewrite Hw in Hy. by apply elem_of_nil in Hy. }
  constructor; simpl; try apply Hok.
  - intros h x y Hx Hy. apply (ok_live _ Hok h x y); [|done]. by eapply Hold.
  - intros h x Hx. rewrite lookup_insert in Hx. case_decide; simplify_eq; [rewrite Hw; constructor|by apply (ok_addr _ Hok h)].
  - intros h1 x1 q1 h2 x2 q2 (i1 & Hh1 & Hx1 & Hq1) (i2 & Hh2 & Hx2 & Hq2). apply (ok_fd _ Hok h1 x1 q1 h2 x2 q2);
      [exists i1; by split; [eapply Hold|]|exists i2; by split; [eapply Hold|]].
  - intros h x fd addr Hx Ha. rewrite lookup_insert in Hx. case_decide; simplify_eq; [by rewrite Hint in Ha|by apply (ok_interest _ Hok h)].
  - intros h1 x1 h2 x2 H1 H2 E. destruct (decide (h1 = a)) as [->|N1], (decide (h2 = a)) as [->|N2]; [done|..].
    + rewrite lookup_insert_eq in H1. rewrite lookup_insert_ne in H2 by done. injection H1 as <-. exfalso. apply (Hep _ _ H2). congruence.
    + rewrite lookup_insert_eq in H2. rewrite lookup_insert_ne in H1 by done. injection H2 as <-. exfalso. apply (Hep _ _ H1). congruence.
    + rewrite lookup_insert_ne in H1, H2 by done. by apply (ok_epfd _ Hok h1 x1 h2 x2).
  - intros h x c Hx Hin. rewrite lookup_insert in Hx. case_decide; simplify_eq; [rewrite Hc in Hin; by apply elem_of_nil in Hin|by eapply (ok_queue _ Hok)].
Qed.

Lemma init_inv th a ep depth w r w' : io_inv w -> fresh_handle a ep w ->
  vl_io_init_with_config uring th (Some a) ep (Some None) (Some (mk_io_config (Some VL_IO_BACKEND_EPOLL) depth)) w = Some (r, w') -> io_inv w'.
Proof.
  intros Hinv Hf E. unfold vl_io_init_with_config in E. cbn [cfg_backend] in E. erewrite bind_Some in E by reflexivity.
  set (w1 := set_iw_impls _ w) in E. unfold vl_epoll_backend_init, upd_impl in E. rewrite !bind_run in E. simpl in E.
  rewrite lookup_insert_eq in E. rewrite insert_insert_eq in E. destruct (Z.leb_spec 0 ep).
  - simpl in E. injection E as _ <-.
    eapply (inv_insert w); [done|refine (io_ok_new w a _ _ _ _ _); [apply Hinv|done..]|done|done|done].
  - simpl in E. injection E as _ <-. simpl. rewrite delete_insert_eq, delete_id by apply Hf. apply (inv_same w); [done| |done].
    destruct w. apply Hinv.
Qed.

Lemma destroy_inv th h w r w' : io_inv w -> vl_io_destroy uring th (Some h) w = Some (r, w') -> io_inv w'.
Proof.
  intros Hinv E. unfold vl_io_destroy in E. apply bind_inv in E as (i & w1 & Ei & E).
  unfold load_impl, deref in Ei. destruct (iw_impls w !! h) as [i0|] eqn:Hh; [|done]. injection Ei as -> <-.
  destruct (inv_handles _ Hinv h i Hh) as [Hbe _]. case_match; [by injection E as _ <-|].
  destruct (destroy_spec h i w (inv_ok _ Hinv) Hh) as (w1 & E1 & Hok1 & _ & Hi1).
  assert (Ed : (match uring with
    | Some u => if decide (io_backend i = VL_IO_BACKEND_URING) then vl_uring_backend_destroy u h else vl_epoll_backend_destroy h
    | None => vl_epoll_backend_destroy h end) w = Some (tt, w1)).
  { destruct uring; [|done]. rewrite decide_False; [done|]. by rewrite Hbe. }
  rewrite (bind_Some _ _ _ _ _ Ed) in E. injection E as _ <-. split; [exact Hok1|]. simpl. intros h' x. rewrite Hi1.
  intros Hx%lookup_delete_Some. apply Hinv with h'. apply Hx.
Qed.

(** ** Histories *)

Inductive io_step : net -> net -> Prop :=
  | step_init th a ep depth n r w : fresh_handle a ep (nw_io n) ->
      vl_io_init_with_config uring th (Some a) ep (Some None) (Some (mk_io_config (Some VL_IO_BACKEND_EPOLL) depth)) (nw_io n) = Some (r, w) ->
      io_step n (set_nw_io w n)
  | step_destroy th h n r w : vl_io_destroy uring th (Some h) (nw_io n) = Some (r, w) -> io_step n (set_nw_io w n)
  | step_request r q n : (forall h i x, iw_impls (nw_io n) !! h = Some i -> x ∈ io_waiters i -> wt_request x <> r) ->
      io_step n (set_nw_io (set_iw_requests (<[r := q]> (iw_requests (nw_io n))) (nw_io n)) n)
  | step_buffer b d n : iw_mem (nw_io n) !! b = None -> io_step n (set_nw_io (set_iw_mem (<[b := d]> (iw_mem (nw_io n))) (nw_io n)) n)
  | step_submit th calloc failure h r n o n' :
      (forall q, iw_requests (nw_io n) !! r = Some q -> buffer_ok (nw_io n) q) ->
      vl_io_submit uring th calloc failure (Some h) (Some r) n = Some (o, n') -> io_step n n'
  | step_cancel th malloc h r n o w : vl_io_cancel uring th malloc (Some h) (Some r) (nw_io n) = Some (o, w) -> io_step n (set_nw_io w n)
  | step_poll th now rounds cr h timeout given n x n' : (forall r, r ∈ rounds -> polite (nw_io n) (pr_others r)) ->
      vl_io_poll uring th now rounds cr (Some h) timeout given n = Some (x, n') -> io_step n n'
  | step_sockets ops n w : polite (nw_io n) ops -> on_sockets (run_socks ops) (nw_io n) = Some (tt, w) -> io_step n (set_nw_io w n)
  | step_runtime r n : io_step n (set_nw_rt r n).

(** No handle, no socket, no request. *)
Definition net_boot (o : os) (r : vl_runtime_impl) : net := mk_net (mk_io_world (boot o) ∅ ∅ ∅ [] 0) r.

Inductive io_reach : net -> Prop :=
  | reach_boot o r : io_reach (net_boot o r)
  | reach_step n n' : io_reach n -> io_step n n' -> io_reach n'.

Lemma boot_inv o r : io_inv (nw_io (net_boot o r)).
Proof.
  split; [|done]. constructor; simpl; try done.
  intros h1 x1 q1 h2 x2 q2 (i & Hi & _). done.
Qed.

Lemma io_ok_buffer w b d : io_ok w -> iw_mem w !! b = None -> io_ok (set_iw_mem (<[b := d]> (iw_mem w)) w).
Proof.
  intros [Hsl Hlive Haddr Hfd Hint Hep Hqu] Hb. constructor; [exact Hsl| |exact Haddr|exact Hfd|exact Hint|exact Hep|exact Hqu].
  intros h i x Hh Hx. destruct (Hlive h i x Hh Hx) as (q & Hq & Hh2 & Hbuf & Hrest). exists q.
  split; [done|]. split; [done|]. split; [|done].
  intros Hop b' Hb'. destruct (Hbuf Hop b' Hb') as (d0 & Hd0 & Hlen). exists d0. split; [|done]. simpl. rewrite lookup_insert_ne; [done|]. congruence.
Qed.

Lemma io_step_inv n n' : io_step n n' -> io_inv (nw_io n) -> io_inv (nw_io n').
Proof.
  destruct 1; intros Hinv; simpl; [| | | | | | | |done].
  - by eapply init_inv.
  - by eapply destroy_inv.
  - apply (inv_same (nw_io n)); [done|by apply io_ok_request; [apply Hinv|]|done].
  - apply (inv_same (nw_io n)); [done|by apply io_ok_buffer; [apply Hinv|]|done].
  - by eapply submit_inv.
  - by eapply cancel_inv.
  - by eapply poll_inv.
  - destruct (others_spec ops (nw_io n) (inv_ok _ Hinv)) as (m & E & Hok); [done|]. rewrite E in *. simplify_eq. by apply (inv_same (nw_io n)).
Qed.

Lemma reach_inv n : io_reach n -> io_inv (nw_io n).
Proof. induction 1 as [|n n' _ IH Hs]; [apply boot_inv|by eapply io_step_inv]. Qed.

(** ** What the interface promises *)

Lemma set_nw_io_id n : set_nw_io (nw_io n) n = n.
Proof. by destruct n. Qed.

(** [vl_io_poll] of the owner with valid arguments. *)
Lemma poll_unfold th now rounds cr h i timeout n : iw_impls (nw_io n) !! h = Some i -> vl_io_is_owner th i = true -> -1 <= timeout ->
  vl_io_poll uring th now rounds cr (Some h) timeout true n = (r ← on_io (poll_deliver uring now rounds cr i h timeout); poll_wake r) n.
Proof.
  intros Hh Ho Ht. unfold vl_io_poll. simpl. rewrite (proj2 (Z.ltb_ge _ _)) by done.
  rewrite (bind_Some _ _ _ _ _ (on_io_run _ _ _ _ (load_impl_run _ _ _ Hh))), Ho. simpl. by rewrite set_nw_io_id.
Qed.

Lemma submit_unfold th calloc failure h i r q n : iw_impls (nw_io n) !! h = Some i -> vl_io_is_owner th i = true ->
  io_backend i = VL_IO_BACKEND_EPOLL -> iw_requests (nw_io n) !! r = Some q -> rq_task q = None ->
  let w1 := set_iw_requests (<[r := reset_request q]> (iw_requests (nw_io n))) (nw_io n) in
  vl_io_submit uring th calloc failure (Some h) (Some r) n =
    (status ← on_io (vl_epoll_backend_submit calloc failure h r);
     if bool_decide (status <> VL_OK) then mret (Return status) else
     _ ← on_io (bump_io_stat h io_submissions set_io_submissions);
     mret (Return VL_OK)) (set_nw_io w1 n).
Proof.
  intros Hh Ho Hbe Hq Ht w1. unfold vl_io_submit.
  rewrite (bind_Some _ _ _ _ _ (on_io_run _ _ _ _ (load_impl_run _ _ _ Hh))), Ho. simpl. rewrite set_nw_io_id.
  rewrite (bind_Some _ _ _ _ _ (on_io_run _ _ _ _ (upd_request_run _ _ _ _ Hq))). fold w1.
  assert (Hq1 : iw_requests (nw_io (set_nw_io w1 n)) !! r = Some (reset_request q)) by apply lookup_insert_eq.
  rewrite (bind_Some _ _ _ _ _ (on_io_run _ _ _ _ (load_request_run _ _ _ Hq1))). simpl. rewrite Ht.
  erewrite bind_Some by reflexivity. rewrite bool_decide_false by auto. by rewrite backend_submit_epoll.
Qed.

End Histories.

(** C14: Pending I/O is exclusive and exactly accounted for.  In every state that any
    history of handle creations, submissions, cancellations, polls, destructions and
    registry operations of other threads reaches: every waiter of every handle refers to
    a live request whose descriptor claim it holds; no two waiters in the process are on
    the same descriptor; every entry of a kernel interest list is a live waiter of its
    handle on that descriptor, so [epoll_wait] never reports a freed one; and each handle
    has delivered all its submissions but the pending ones. *)
Theorem io_pending_exact uring n h i :
  io_reach uring n -> iw_impls (nw_io n) !! h = Some i ->
  (forall x, x ∈ io_waiters i -> exists q, iw_requests (nw_io n) !! wt_request x = Some q /\ holds (iw_sockets (nw_io n)) q /\
     forall h' x' q', waits (nw_io n) h' x' q' -> rq_fd q' = rq_fd q -> h' = h /\ x' = x) /\
  (forall fd a, interest (sock_os (iw_sockets (nw_io n))) !! (epoll_fd i, fd) = Some a ->
     exists x q, x ∈ io_waiters i /\ wt_addr x = a /\ iw_requests (nw_io n) !! wt_request x = Some q /\ rq_fd q = fd) /\
  io_submissions (io_stats i) = w64 (io_completions (io_stats i) + Z.of_nat (length (pending i))).
Proof.
  intros Hr Hh. pose proof (reach_inv _ _ Hr) as [Hok Hbal]. split_and!.
  - intros x Hx. destruct (ok_live _ Hok h i x Hh Hx) as (q & Hq & Hhold & _). exists q. split; [done|]. split; [done|].
    intros h' x' q' Hw E. apply (ok_fd _ Hok h' x' q' h x q); [done|by exists i|done].
  - intros fd a Ha. by apply (ok_interest _ Hok h i).
  - by apply (Hbal h).
Qed.


(** C26: Submitting and cancelling.  In every reachable state the owner's submission of a
    request with a valid buffer and no task returns; on VL_OK the request joins the
    pending ones of the handle, holds the claim of its descriptor for its generation and
    is marked not completed; on any error the pending requests are unchanged.  A
    cancellation returns; on VL_OK the pending requests are the same and the request's
    completion with -ECANCELED is the last one queued; otherwise nothing changed. *)
Theorem io_submit_cancel uring n th h i r q :
  io_reach uring n -> iw_impls (nw_io n) !! h = Some i -> vl_io_is_owner th i = true ->
  iw_requests (nw_io n) !! r = Some q ->
  (forall calloc failure, rq_task q = None -> buffer_ok (nw_io n) q ->
     exists st n', vl_io_submit uring th calloc failure (Some h) (Some r) n = Some (Return st, n') /\
       if decide (st = VL_OK) then
         exists i' q', iw_impls (nw_io n') !! h = Some i' /\ pending i' = r :: pending i /\
           iw_requests (nw_io n') !! r = Some q' /\ holds (iw_sockets (nw_io n')) q' /\ rq_completed q' = false
       else iw_impls (nw_io n') = iw_impls (nw_io n)) /\
  (forall malloc, exists st w', vl_io_cancel uring th malloc (Some h) (Some r) (nw_io n) = Some (st, w') /\
     if decide (st = VL_OK) then
       exists i', iw_impls w' !! h = Some i' /\ pending i' ≡ₚ pending i /\
         io_completed i' = io_completed i ++ [mk_completion (Some r) (- ECANCELED) 0 (rq_generation q) (rq_task q)]
     else w' = nw_io n).
Proof.
  intros Hreach Hh Ho Hq. pose proof (reach_inv _ _ Hreach) as Hinv. destruct (inv_handles _ Hinv h i Hh) as [Hbe _].
  pose proof (inv_ok _ Hinv) as Hok. split.
  - intros calloc failure Ht Hb. rewrite (submit_unfold uring th calloc failure h i r q n Hh Ho Hbe Hq Ht).
    set (w1 := set_iw_requests _ _). assert (Hq1 : iw_requests w1 !! r = Some (reset_request q)) by apply lookup_insert_eq.
    assert (Hok1 : io_ok w1) by by apply (io_ok_request_same _ _ q).
    destruct (submit_spec calloc failure h i r (reset_request q) w1 Hok1 Hh Hq1 Hb) as (st & w2 & E & _ & Hc).
    rewrite (bind_Some _ _ _ _ _ (on_io_run _ (set_nw_io w1 n) _ _ E)).
    destruct Hc as [[Hst Hi]|[-> (x & g & Hx & Hi & Hr2 & _ & Hhold)]].
    + rewrite bool_decide_true by done. eexists st, _. split; [reflexivity|]. by rewrite decide_False.
    + rewrite bool_decide_false by auto. assert (Hh2 : iw_impls w2 !! h = Some (add_waiter x i)) by (rewrite Hi; apply lookup_insert_eq).
      rewrite (bind_Some _ _ _ _ _ (on_io_run _ (set_nw_io w2 (set_nw_io w1 n)) _ _ (bump_run _ _ _ _ _ Hh2))).
      eexists VL_OK, _. split; [reflexivity|]. rewrite decide_True by done. simpl. rewrite lookup_insert_eq.
      eexists _, (set_rq_generation g (reset_request q)). split; [reflexivity|]. split; [by rewrite <- Hx|]. rewrite Hr2, lookup_insert_eq. done.
  - intros malloc. destruct (cancel_spec malloc h i r (nw_io n) Hok Hh) as (st & w1 & E & _ & Hc). unfold vl_io_cancel.
    rewrite (bind_Some _ _ _ _ _ (load_impl_run _ _ _ Hh)), Ho, Hbe. simpl. rewrite (bind_Some _ _ _ _ _ E).
    destruct Hc as [[Hst ->]|(-> & _ & i' & q' & Hi1 & _ & Hp & Hq' & Hcomp)].
    + rewrite bool_decide_false by done. eexists st, _. split; [reflexivity|]. by rewrite decide_False.
    + rewrite bool_decide_true by done. assert (Hh1 : iw_impls w1 !! h = Some i') by (rewrite Hi1; apply lookup_insert_eq).
      rewrite bind_run, (bump_run _ _ _ _ _ Hh1). eexists VL_OK, _. split; [reflexivity|]. rewrite decide_True by done. simpl.
      rewrite lookup_insert_eq. eexists. split; [reflexivity|]. rewrite Hq in Hq'. injection Hq' as <-. done.
Qed.

(** ** Stale requests *)

(** Closed generations stay closed. *)
Definition ages {A} (m : I A) : Prop := forall w a w', m w = Some (a, w') -> slots_ok (iw_sockets w) ->
  slots_ok (iw_sockets w') /\ forall fd g, spent (iw_sockets w) fd g -> spent (iw_sockets w') fd g.

Lemma ages_ret {A} (a : A) : ages (mret a).
Proof. intros w x w' [= _ <-] Hok. done. Qed.

Lemma ages_ub {A} : ages (@ub io_world A).
Proof. done. Qed.

Lemma ages_bind {A B} (m : I A) (f : A -> I B) : ages m -> (forall a, ages (f a)) -> ages (m ≫= f).
Proof.
  intros Hm Hf w b w' E Hok. apply bind_inv in E as (a & w1 & E1 & E2). destruct (Hm _ _ _ E1 Hok) as [Hok1 H1].
  destruct (Hf a _ _ _ E2 Hok1) as [Hok2 H2]. split; [done|]. eauto.
Qed.

Lemma ages_sockets {A} rel (m : N A) : steady rel m -> ages (on_sockets m).
Proof.
  intros Hm w a w' E Hok. unfold on_sockets in E. destruct (Hm (iw_sockets w)) as (x & n & E' & He). rewrite E' in E. injection E as _ <-.
  split; [apply (proj2 He Hok)|]. simpl. intros fd g Hs. by eapply spent_evolve.
Qed.

Lemma ages_deref {A} (f : io_world -> option A) : ages (deref f).
Proof. intros w a w' E Hok. unfold deref in E. destruct (f w); [|done]. by injection E as _ <-. Qed.

Lemma ages_gets {A} (f : io_world -> A) : ages (gets f).
Proof. intros w a w' [= _ <-] Hok. done. Qed.

Lemma ages_modify f : (forall w, iw_sockets (f w) = iw_sockets w) -> ages (modify f).
Proof. intros Hf w a w' [= _ <-] Hok. by rewrite Hf. Qed.

Lemma ages_upd_impl h f : ages (upd_impl h f).
Proof. intros w a w' E Hok. unfold upd_impl in E. destruct (iw_impls w !! h); [|done]. by injection E as _ <-. Qed.

Lemma steady_del epfd fd : steady [] (epoll_ctl_del epfd fd).
Proof. intros n. eexists _, _. split; [reflexivity|]. apply evolve_same; [apply delete_subseteq|done]. Qed.

Lemma steady_stale fd g : steady [] (vl_socket_request_is_stale fd g).
Proof. intros n. destruct (stale_run n fd g) as (b & E). exists b, n. by split. Qed.

#[local] Hint Resolve ages_ret ages_ub ages_gets ages_upd_impl : ages.
#[local] Hint Extern 1 (ages (load_impl _)) => apply ages_deref : ages.
#[local] Hint Extern 1 (ages (load_request _)) => apply ages_deref : ages.
#[local] Hint Extern 1 (ages (deref _)) => apply ages_deref : ages.
#[local] Hint Extern 1 (ages (modify _)) => apply ages_modify; intros; done : ages.
#[local] Hint Extern 1 (ages (on_sockets (vl_socket_release ?fd ?g))) => apply (ages_sockets [(fd, g)]), steady_release; set_solver : ages.
#[local] Hint Extern 1 (ages (on_sockets (run_socks ?ops))) =>
  apply (ages_sockets (released_in ops)), steady_all; intros ? ?; by rewrite released_in_spec : ages.
#[local] Hint Extern 2 (ages (on_sockets _)) =>
  apply (ages_sockets []); first [apply steady_del|apply steady_stale|apply steady_open|apply steady_track|apply steady_close_os|apply steady_close] : ages.

Ltac ages_tac := repeat first
  [ apply ages_bind; [solve [auto with ages nocore]|intros ?] | apply ages_bind; [|intros ?] | case_match | case_decide | solve [auto with ages nocore] ].

Lemma ages_delete h x : ages (vl_delete_waiter h x).
Proof. unfold vl_delete_waiter, vl_remove_waiter. ages_tac. Qed.

Lemma ages_is_stale r : ages (request_is_stale r).
Proof. unfold request_is_stale. ages_tac. Qed.

#[local] Hint Resolve ages_delete ages_is_stale : ages.

Lemma ages_scan h l : ages (scan_stale h l).
Proof. induction l as [|x l IH]; simpl; [apply ages_ret|]. unfold vl_complete_stale_waiter. ages_tac. Qed.

Lemma ages_execute k h a flags : ages (vl_execute_ready k h a flags).
Proof.
  unfold vl_execute_ready, ready_run, ready_accept, ready_recv, ready_send, ready_connect. ages_tac.
Qed.

#[local] Hint Resolve ages_scan ages_execute : ages.

Lemma ages_poll_loop rounds h dl t : ages (poll_loop rounds h dl t).
Proof.
  induction rounds as [|r rounds IH]; simpl; [apply ages_ret|]. unfold vl_scan_stale_waiters. ages_tac.
Qed.

Lemma ages_poll now rounds h t : ages (vl_epoll_backend_poll now rounds h t).
Proof. pose proof ages_poll_loop. unfold vl_epoll_backend_poll, vl_pop_completion. ages_tac. Qed.

Lemma spent_request_stale r q w : iw_requests w !! r = Some q -> rq_op q <> VL_IO_TIMEOUT -> spent (iw_sockets w) (rq_fd q) (rq_generation q) ->
  request_is_stale r w = Some (true, w).
Proof.
  intros Hq Hop Hs. unfold request_is_stale. rewrite (bind_Some _ _ _ _ _ (load_request_run _ _ _ Hq)), decide_False by done.
  rewrite (on_sockets_run _ _ _ _ (spent_stale _ _ _ Hs)). by rewrite set_sockets_id.
Qed.

(** C25: A closed descriptor never satisfies an older request.  In every reachable state, when
    the descriptor generation a pending request was submitted for has been closed (its slot
    has moved past it, or is inactive), the completion [vl_io_poll] delivers for that
    request has the result -ESTALE, in the completion and in the request, even if the
    number was reused and became ready in the meantime. *)
Theorem io_stale_never_satisfied uring n th now rounds cr h i timeout st c n' r q :
  io_reach uring n -> iw_impls (nw_io n) !! h = Some i -> vl_io_is_owner th i = true -> -1 <= timeout ->
  (forall r, r ∈ rounds -> polite (nw_io n) (pr_others r)) ->
  vl_io_poll uring th now rounds cr (Some h) timeout true n = Some (Some (st, c), n') ->
  c_request c = Some r -> iw_requests (nw_io n) !! r = Some q -> rq_op q <> VL_IO_TIMEOUT ->
  spent (iw_sockets (nw_io n)) (rq_fd q) (rq_generation q) ->
  c_result c = - ESTALE /\ exists q', iw_requests (nw_io n') !! r = Some q' /\ rq_result q' = - ESTALE.
Proof.
  intros Hr Hh Ho Ht Hp E Hc Hq Hop Hs. pose proof (reach_inv _ _ Hr) as Hinv. pose proof (inv_ok _ Hinv) as Hok.
  destruct (inv_handles _ Hinv h i Hh) as [Hbe _]. rewrite (poll_unfold uring th now rounds cr h i timeout n Hh Ho Ht) in E.
  apply bind_inv in E as (x & n1 & Ex & E). apply on_io_inv in Ex as (w2 & Ex & ->).
  unfold poll_deliver, backend_poll in Ex. rewrite Hbe in Ex. apply bind_inv in Ex as (y & w1 & Ey & Ex).
  destruct (poll_spec now rounds h timeout (nw_io n) Hok (ex_intro _ i Hh) Hp) as (y' & w1' & Ey' & Hok1 & Hy). rewrite Ey in Ey'. injection Ey' as <- <-.
  destruct y as [[st1 c1]|]; [|injection Ex as <- _; done].
  destruct Hy as [[-> (i0 & i' & r1 & Hh0 & Hi1 & Hr1 & Hc1 & _ & _ & [q1 Hq1])]|(Hst & -> & _)].
  2: { destruct Hst as [-> | ->]; injection Ex as <- <-; by injection E as _ <- _. }
  apply bind_inv in Ex as (c2 & w3 & Ed & Ex). injection Ex as <- <-.
  destruct (deliver_spec cr h i' c1 r1 q1 w1 Hok1) as (b & c2' & w3' & Eb & Ed' & _ & _ & Hr3 & Hd);
    [rewrite Hi1; apply lookup_insert_eq|done|by rewrite Hr1|]. rewrite Ed in Ed'. injection Ed' as <- <-.
  assert (Hcc : c = c2 /\ nw_io n' = w3).
  { unfold poll_wake in E. destruct (c_task c2); [|by injection E as _ <- <-].
    apply bind_inv in E as (st2 & n3 & Er & E). apply on_rt_io in Er. injection E as _ <- <-. by rewrite Er. }
  destruct Hcc as [-> Hn']. assert (r1 = r) as -> by (rewrite (proj1 Hd) in Hc; congruence). rewrite Hq in Hq1. injection Hq1 as <-.
  destruct (ages_poll _ _ _ _ _ _ _ Ey (ok_slots _ Hok)) as [_ Hsp]. apply Hsp in Hs.
  rewrite (spent_request_stale r q w1) in Eb by (by rewrite ?Hr1). injection Eb as <-. destruct Hd as (_ & _ & _ & Hres & _).
  split; [done|]. rewrite Hn', Hr3. eexists. split; [apply lookup_insert_eq|done].
Qed.

(** ** Witnesses *)

Definition demo_rt : vl_runtime_impl :=
  mk_runtime (mk_iqueue None None 0) None ∅ [] 0 0 0 0 0 0 None 0 false VL_OK false false (mk_stats 0 0 0 0 0 0) ∅ ∅ ∅.

Definition owner : thread := mk_thread 1 None.

Definition run_io {A} (m : I A) (n : net) : net := match m (nw_io n) with Some (_, w) => set_nw_io w n | None => n end.
Definition run_net {A} (m : B A) (n : net) : net := match m n with Some (_, n') => n' | None => n end.

(** A handle with one tracked socket and a pending receive of four bytes. *)
Definition demo_net1 : net :=
  run_io (vl_io_init_with_config None owner (Some 1%nat) 3 (Some None) (Some (mk_io_config (Some VL_IO_BACKEND_EPOLL) 0)))
    (net_boot demo_os demo_rt).
Definition demo_net2 : net := run_io (on_sockets (run_socks [O_create (demo_sys 5)])) demo_net1.
Definition demo_net3 : net := set_nw_io (set_iw_mem (<[9%nat := [0; 0; 0; 0]]> (iw_mem (nw_io demo_net2))) (nw_io demo_net2)) demo_net2.
Definition demo_recv : vl_io_request := mk_request VL_IO_RECV 5 (Some 9%nat) 4 0 None 0 0 false.
Definition demo_net4 : net := set_nw_io (set_iw_requests (<[7%nat := demo_recv]> (iw_requests (nw_io demo_net3))) (nw_io demo_net3)) demo_net3.
Definition demo_net5 : net := run_net (vl_io_submit None owner true None (Some 1%nat) (Some 7%nat)) demo_net4.

Lemma demo_buffer_ok : buffer_ok (nw_io demo_net4) demo_recv.
Proof. intros _ b [= <-]. exists [0; 0; 0; 0]. split; [vm_compute; reflexivity|simpl; lia]. Qed.

(** A single handle with an empty list has no waiter. *)
Lemma idle_handle w a i : iw_impls w = {[a := i]} -> io_waiters i = [] ->
  forall h x q, ~ waits w h x q.
Proof.
  intros E Hw h x q (i' & Hi & Hx & _). rewrite E in Hi. apply lookup_singleton_Some in Hi as [_ <-]. rewrite Hw in Hx. by apply elem_of_nil in Hx.
Qed.

Definition demo_handle : vl_io_impl := mk_io_impl 3 1 VL_IO_BACKEND_EPOLL [] [] (mk_io_stats 0 0 0).

Lemma demo_reach4 : io_reach None demo_net4.
Proof.
  eapply reach_step; [eapply reach_step; [eapply reach_step; [eapply reach_step; [apply (reach_boot None demo_os demo_rt)|]|]|]|].
  - apply (step_init None owner 1 3 0 _ (VL_OK, Some 1%nat) (nw_io demo_net1)); [split; [done|]; split; [intros h i Hi; done|done]|vm_compute; reflexivity].
  - apply (step_sockets None [O_create (demo_sys 5)] demo_net1 (nw_io demo_net2)); [|vm_compute; reflexivity].
    intros h x q Hw. by destruct (idle_handle (nw_io demo_net1) 1 demo_handle ltac:(vm_compute; reflexivity) eq_refl h x q Hw).
  - apply (step_buffer None 9 [0; 0; 0; 0] demo_net2). vm_compute. reflexivity.
  - apply (step_request None 7 demo_recv demo_net3). intros h i x Hi Hx.
    assert (E : iw_impls (nw_io demo_net3) = {[1%nat := demo_handle]}) by (vm_compute; reflexivity).
    rewrite E in Hi. apply lookup_singleton_Some in Hi as [_ <-]. by apply elem_of_nil in Hx.
Qed.

Lemma demo_reach5 : io_reach None demo_net5.
Proof.
  eapply reach_step; [apply demo_reach4|]. apply (step_submit None owner true None 1 7 demo_net4 (Return VL_OK) demo_net5).
  - intros q Hq. vm_compute in Hq. injection Hq as <-. apply demo_buffer_ok.
  - vm_compute. reflexivity.
Qed.

(** The peer sends three bytes; another thread closes a socket of its own meanwhile. *)
Definition demo_round : poll_round := mk_round (Some (10, 5)) [O_create (demo_sys 6); O_close 0 6] (Wait_ready 5 1) (mk_ready_call None 0 [65; 66; 67] 0 0 true).


Lemma io_pending_exact_witness : exists i, iw_impls (nw_io demo_net5) !! 1%nat = Some i /\ io_submissions (io_stats i) = 1 /\
  length (pending i) = 1%nat.
Proof.
  destruct (iw_impls (nw_io demo_net5) !! 1%nat) as [i|] eqn:Hi; [|vm_compute in Hi; discriminate].
  destruct (io_pending_exact None demo_net5 1 i demo_reach5 Hi) as (_ & _ & Hb). exists i. split; [reflexivity|].
  rewrite Hb. vm_compute in Hi. injection Hi as <-. split; vm_compute; reflexivity.
Defined.


Lemma io_submit_cancel_witness : exists st w', vl_io_cancel None owner true (Some 1%nat) (Some 7%nat) (nw_io demo_net5) = Some (st, w') /\ st = VL_OK.
Proof.
  destruct (iw_impls (nw_io demo_net5) !! 1%nat) as [i|] eqn:Hi; [|vm_compute in Hi; discriminate].
  destruct (iw_requests (nw_io demo_net5) !! 7%nat) as [q|] eqn:Hq; [|vm_compute in Hq; discriminate].
  destruct (io_submit_cancel None demo_net5 owner 1 i 7 q demo_reach5 Hi) as [_ Hc]; [vm_compute in Hi; injection Hi as <-; reflexivity|exact Hq|].
  destruct (Hc true) as (st & w' & E & _). exists st, w'. split; [exact E|]. vm_compute in E. congruence.
Defined.

(** The socket is closed while the receive is pending. *)
Definition demo_net6 : net := run_io (on_sockets (run_socks [O_close 0 5])) demo_net5.

Lemma demo_reach6 : io_reach None demo_net6.
Proof.
  eapply reach_step; [apply demo_reach5|].
  assert (E : demo_net6 = set_nw_io (nw_io demo_net6) demo_net5) by (vm_compute; reflexivity).
  rewrite E. apply step_sockets with (ops := [O_close 0 5]); [|vm_compute; reflexivity].
  intros h x q _ Hin%list_elem_of_singleton. discriminate.
Qed.

Lemma io_stale_never_satisfied_witness : exists st c n', vl_io_poll None owner (Some (10, 5)) [demo_round] 0 (Some 1%nat) 0 true demo_net6 =
  Some (Some (st, c), n') /\ c_result c = - ESTALE.
Proof.
  destruct (iw_impls (nw_io demo_net6) !! 1%nat) as [i|] eqn:Hi; [|vm_compute in Hi; discriminate].
  destruct (iw_requests (nw_io demo_net6) !! 7%nat) as [q|] eqn:Hq; [|vm_compute in Hq; discriminate].
  destruct (vl_io_poll None owner (Some (10, 5)) [demo_round] 0 (Some 1%nat) 0 true demo_net6) as [[[[st c]|] n']|] eqn:Ep;
    [|vm_compute in Ep; discriminate|vm_compute in Ep; discriminate].
  exists st, c, n'. split; [reflexivity|].
  refine (proj1 (io_stale_never_satisfied None demo_net6 owner (Some (10, 5)) [demo_round] 0 1 i 0 st c n' 7 q demo_reach6 Hi _ _ _ Ep _ Hq _ _)).
  - vm_compute in Hi. injection Hi as <-. reflexivity.
  - lia.
  - intros r ->%list_elem_of_singleton h x q' _ Hin. apply elem_of_cons in Hin as [Hin|Hin%list_elem_of_singleton]; discriminate.
  - vm_compute in Ep. injection Ep as _ <- _. reflexivity.
  - vm_compute in Hq. injection Hq as <-. discriminate.
  - vm_compute in Hq. injection Hq as <-. split; [simpl; lia|]. eexists. split; [vm_compute; reflexivity|left; reflexivity].
Defined.
