(* ===== verification/HttpServer.v ===== *)
(** * Responses, routes and connections (src/http/http_response.c, http_router.c,
    http_server.c, http_connection.c)

    A connection task talks to its socket through [vl_io_submit] with itself as the
    waiting task: for the task the call returns the status, the request's result and
    the bytes received.  That is the interface [connection_io], over any state [W] of
    the network; [io_laws] is what the I/O component promises about it. *)

From stdpp Require Import strings.
From S2P Require Import Prelude HttpParser.
From stdpp Require Import options.

Open Scope Z_scope.

(** ** The interface to the I/O component *)

(** [submit_send fd data]: status and [request.result]; [submit_recv fd len]: also the bytes now in the
    buffer; [stopping]: the server's [shutdown_requested] flag, which any thread may set.  The other
    fields observe the network: [sent fd] and [received fd] are what the kernel has accepted for [fd]
    and handed out on it, [send_failures fd] counts the sends on it that failed, [recv_ends fd] the
    receives that failed or found the end of the stream. *)
Class connection_io (W : Type) := {
  submit_send : Z -> list Z -> W -> vl_status * Z * W;
  submit_recv : Z -> Z -> W -> vl_status * Z * list Z * W;
  sent : Z -> W -> list Z;
  received : Z -> W -> list Z;
  send_failures : Z -> W -> nat;
  recv_ends : Z -> W -> nat;
  stopping : W -> bool }.

(** [send] accepts a nonempty prefix or fails; [recv] returns what it wrote to the buffer. *)
Class io_laws (W : Type) {io : connection_io W} : Prop := {
  send_law : forall fd data w st k w', submit_send fd data w = (st, k, w') ->
    received fd w' = received fd w /\ recv_ends fd w' = recv_ends fd w /\
    if bool_decide (st = VL_OK) && (0 <=? k)
    then (data <> [] -> 0 < k) /\ k <= Z.of_nat (length data) /\ sent fd w' = sent fd w ++ take (Z.to_nat k) data /\
         send_failures fd w' = send_failures fd w
    else sent fd w' = sent fd w /\ send_failures fd w' = S (send_failures fd w);
  recv_law : forall fd len w st k data w', submit_recv fd len w = (st, k, data, w') ->
    sent fd w' = sent fd w /\ send_failures fd w' = send_failures fd w /\
    if bool_decide (st = VL_OK) && (0 <? k)
    then Z.of_nat (length data) = k /\ k <= len /\ received fd w' = received fd w ++ data /\ recv_ends fd w' = recv_ends fd w
    else received fd w' = received fd w /\ recv_ends fd w' = S (recv_ends fd w) }.

(** ** Responses *)

Record vl_http_response := mk_response {
  rs_status : Z;
  rs_reason : list Z;
  rs_body : list Z;
  rs_body_length : Z;
  rs_keep_alive : bool;
  rs_chunked : bool }.

Definition BODY_SIZE : Z := 1024.

Definition vl_http_reason_phrase (status : Z) : list Z :=
  match status with
  | 200 => bytes "OK"
  | 400 => bytes "Bad Request"
  | 404 => bytes "Not Found"
  | 413 => bytes "Payload Too Large"
  | 431 => bytes "Request Header Fields Too Large"
  | 500 => bytes "Internal Server Error"
  | _ => bytes "OK"
  end.

Definition vl_http_response_init : vl_http_response :=
  mk_response 200 (vl_http_reason_phrase 200) (replicate (Z.to_nat BODY_SIZE) 0) 0 false false.

Definition vl_http_response_set_status (r : vl_http_response) (status : Z) : vl_status * vl_http_response :=
  if (status <? 100) || (599 <? status) then (VL_ERROR_INVALID_ARGUMENT, r)
  else (VL_OK, mk_response status (vl_http_reason_phrase status) (rs_body r) (rs_body_length r) (rs_keep_alive r) (rs_chunked r)).

(** [None] is a NULL body with a nonzero length. *)
Definition vl_http_response_set_body (r : vl_http_response) (content : option (list Z)) : vl_status * vl_http_response :=
  match content with
  | None => (VL_ERROR_INVALID_ARGUMENT, r)
  | Some content =>
      if BODY_SIZE <=? Z.of_nat (length content) then (VL_ERROR_INVALID_ARGUMENT, r)
      else (VL_OK, mk_response (rs_status r) (rs_reason r) (content ++ 0 :: drop (S (length content)) (rs_body r))
                     (Z.of_nat (length content)) (rs_keep_alive r) (rs_chunked r))
  end.

(** [%d] and [%zx]. *)
Definition print_int (z : Z) : list Z := if z <? 0 then 45 :: print_dec (- z) else print_dec z.

Definition hex_digit (d : Z) : Z := if d <? 10 then 48 + d else 87 + d.

Fixpoint hexadecimal (fuel : nat) (n : Z) : list Z :=
  match fuel with
  | O => []
  | S fuel => (if n <? 16 then [] else hexadecimal fuel (n / 16)) ++ [hex_digit (n mod 16)]
  end.

Definition print_hex (n : Z) : list Z := hexadecimal 16 n.

Definition crlf_bytes : list Z := [CR; LF].

(** What [snprintf] formats for the head, before the limit of the array. *)
Definition response_head (r : vl_http_response) : list Z :=
  bytes "HTTP/1.1 " ++ print_int (rs_status r) ++ SPACE :: rs_reason r ++ crlf_bytes ++
  (if rs_chunked r then bytes "Transfer-Encoding: chunked"
   else bytes "Content-Length: " ++ print_dec (rs_body_length r)) ++ crlf_bytes ++
  bytes "Connection: " ++ (if rs_keep_alive r then bytes "keep-alive" else bytes "close") ++ crlf_bytes ++ crlf_bytes.

Definition HEAD_SIZE : Z := 512.
Definition CHUNK_HEAD_SIZE : Z := 32.

Section Connection.
  #[local] Set Default Proof Using "Type".
  Context {W : Type} {io : connection_io W}.

(** The loop of [vl_http_send_all] from [sent] on; [fuel] rounds are enough for [fuel] bytes. *)
Fixpoint send_rest (fuel : nat) (fd : Z) (rest : list Z) : C W vl_status :=
  match rest with
  | [] => mret VL_OK
  | _ =>
      match fuel with
      | O => ub
      | S fuel => fun w =>
          let '(st, k, w) := submit_send fd rest w in
          if bool_decide (st <> VL_OK) || (k <? 0) then Some (VL_ERROR_SYSTEM, w)
          else send_rest fuel fd (drop (Z.to_nat k) rest) w
      end
  end.

Definition vl_http_send_all (fd : Z) (data : list Z) : C W vl_status := send_rest (length data) fd data.

(** The first [body_length] bytes of the [body] array; beyond it is undefined. *)
Definition body_bytes (r : vl_http_response) : C W (list Z) :=
  if (Z.of_nat (length (rs_body r)) <? rs_body_length r) then ub else mret (take (Z.to_nat (rs_body_length r)) (rs_body r)).

Definition write_chunk (fd : Z) (r : vl_http_response) : C W vl_status :=
  let chunk_head := print_hex (rs_body_length r) ++ crlf_bytes in
  if CHUNK_HEAD_SIZE <=? Z.of_nat (length chunk_head) then mret VL_ERROR_INVALID_ARGUMENT else
  st ← vl_http_send_all fd chunk_head;
  if bool_decide (st <> VL_OK) then mret VL_ERROR_SYSTEM else
  st ← (if negb (rs_body_length r =? 0) then b ← body_bytes r; vl_http_send_all fd b else mret VL_OK);
  if bool_decide (st <> VL_OK) then mret VL_ERROR_SYSTEM else
  st ← vl_http_send_all fd (crlf_bytes ++ [48] ++ crlf_bytes ++ crlf_bytes);
  mret (if bool_decide (st <> VL_OK) then VL_ERROR_SYSTEM else VL_OK).

Definition write_body (fd : Z) (r : vl_http_response) : C W vl_status :=
  if rs_body_length r =? 0 then mret VL_OK else
  b ← body_bytes r;
  st ← vl_http_send_all fd b;
  mret (if bool_decide (st <> VL_OK) then VL_ERROR_SYSTEM else VL_OK).

Definition vl_http_response_write (fd : Z) (r : vl_http_response) : C W vl_status :=
  if fd <? 0 then mret VL_ERROR_INVALID_ARGUMENT else
  let head := response_head r in
  if HEAD_SIZE <=? Z.of_nat (length head) then mret VL_ERROR_INVALID_ARGUMENT else
  st ← vl_http_send_all fd head;
  if bool_decide (st <> VL_OK) then mret VL_ERROR_SYSTEM else
  if rs_chunked r then write_chunk fd r else write_body fd r.

(** ** Routes *)

Definition VL_HTTP_ROUTE_CAPACITY : Z := 64.

(** The handler is user code: it reads the request and its body and fills the response; [user_data] is
    part of the closure. *)
Definition vl_http_handler : Type := vl_http_request -> list Z -> vl_http_response -> vl_http_response.

Record vl_http_route_entry := mk_route { rt_method : list Z; rt_path : list Z; rt_handler : vl_http_handler }.

Record vl_http_server := mk_server {
  sv_config : vl_http_config;
  sv_routes : list vl_http_route_entry;
  sv_active : Z;
  sv_shutdown : bool }.

(** [given]: the [server] out-pointer is usable; [calloc]: the allocation succeeds. *)
Definition vl_http_server_init (given calloc : bool) (config : option vl_http_config) : vl_status * option vl_http_server :=
  if negb given then (VL_ERROR_INVALID_ARGUMENT, None)
  else if negb calloc then (VL_ERROR_OUT_OF_MEMORY, None)
  else let c := default vl_http_config_default config in
       let c := if max_connections c =? 0
                then mk_http_config (max_request_line c) (max_header_bytes c) (max_body_bytes c)
                       VL_HTTP_DEFAULT_MAX_CONNECTIONS (read_timeout_ns c) (write_timeout_ns c)
                else c in
       (VL_OK, Some (mk_server c [] 0 false)).

Definition vl_http_server_active_connections (s : option vl_http_server) : Z :=
  match s with Some s => sv_active s | None => 0 end.

(** [None] for a NULL argument. *)
Definition vl_http_route (s : vl_http_server) (m p : option (list Z)) (h : option vl_http_handler) : vl_status * vl_http_server :=
  match m, p, h with
  | Some m, Some p, Some h =>
      if (VL_HTTP_MAX_METHOD <=? Z.of_nat (length m)) || (VL_HTTP_MAX_PATH <=? Z.of_nat (length p))
      then (VL_ERROR_INVALID_ARGUMENT, s)
      else if VL_HTTP_ROUTE_CAPACITY <=? Z.of_nat (length (sv_routes s)) then (VL_ERROR_OUT_OF_MEMORY, s)
      else (VL_OK, mk_server (sv_config s) (sv_routes s ++ [mk_route m p h]) (sv_active s) (sv_shutdown s))
  | _, _, _ => (VL_ERROR_INVALID_ARGUMENT, s)
  end.

Fixpoint find_route (l : list vl_http_route_entry) (m p : list Z) : option vl_http_route_entry :=
  match l with
  | [] => None
  | r :: l => if bool_decide (rt_method r = m) && bool_decide (rt_path r = p) then Some r else find_route l m p
  end.

Definition vl_http_find_route (s : vl_http_server) (m p : list Z) : option vl_http_route_entry := find_route (sv_routes s) m p.

Definition vl_http_server_request_shutdown (s : vl_http_server) : vl_http_server :=
  mk_server (sv_config s) (sv_routes s) (sv_active s) true.

(** ** A connection *)

Definition error_body (status : Z) : list Z :=
  if status =? 400 then bytes "Bad Request"
  else if status =? 413 then bytes "Payload Too Large"
  else if status =? 431 then bytes "Header Too Large"
  else bytes "Not Found".

Definition error_answer (status : Z) : vl_http_response :=
  (vl_http_response_set_body (vl_http_response_set_status vl_http_response_init status).2 (Some (error_body status))).2.

Definition vl_http_error_response (fd status : Z) : C W vl_status := vl_http_response_write fd (error_answer status).

(** The values of [vl_http_error_t]. *)
Definition error_code (e : vl_http_error) : Z :=
  match e with
  | VL_HTTP_ERROR_NONE => 0
  | VL_HTTP_ERROR_BAD_REQUEST => 400
  | VL_HTTP_ERROR_LENGTH_REQUIRED => 411
  | VL_HTTP_ERROR_PAYLOAD_TOO_LARGE => 413
  | VL_HTTP_ERROR_HEADER_TOO_LARGE => 431
  end.

Definition RECV_SIZE : Z := 1024.

(** The loop of [vl_http_read_request]; each round that goes on has fed the parser at least one byte. *)
Fixpoint read_loop (fuel : nat) (fd : Z) (parser : vl_http_parser) : C W (vl_status * vl_http_parser) :=
  match fuel with
  | O => ub
  | S fuel => fun w =>
      let '(st, k, data, w) := submit_recv fd RECV_SIZE w in
      if bool_decide (st <> VL_OK) then Some ((VL_ERROR_SYSTEM, parser), w) else
      if k <=? 0 then Some ((if k =? 0 then VL_ERROR_CLOSED else VL_ERROR_SYSTEM, parser), w) else
      match vl_http_parser_feed (Some data) parser with
      | None => None
      | Some (VL_HTTP_PARSE_COMPLETE, parser) => Some ((VL_OK, parser), w)
      | Some (VL_HTTP_PARSE_ERROR, parser) =>
          let code := error_code (vl_http_parser_error parser) in
          (_ ← vl_http_error_response fd (if code =? 0 then 400 else code);
           mret (VL_ERROR_INVALID_ARGUMENT, parser)) w
      | Some (VL_HTTP_PARSE_NEED_MORE, parser) =>
          if stopping w then Some ((VL_ERROR_CANCELLED, parser), w) else read_loop fuel fd parser w
      end
  end.

Definition vl_http_read_request (fd : Z) (parser : vl_http_parser) : C W (vl_status * vl_http_parser) :=
  read_loop (S (Z.to_nat (capacity parser))) fd parser.

(** The bytes [request->body] points at. *)
Definition request_body (parser : vl_http_parser) (q : vl_http_request) : list Z :=
  match buffer parser, body q with
  | Some b, Some k => take (Z.to_nat (body_length q)) (drop k b)
  | _, _ => []
  end.

Definition with_keep_alive (ka : bool) (r : vl_http_response) : vl_http_response :=
  mk_response (rs_status r) (rs_reason r) (rs_body r) (rs_body_length r) ka (rs_chunked r).

(** [server] and [io] are not NULL here; [malloc] is the allocator of the parser's buffer. *)
Definition vl_http_connection_run (malloc : Z -> option (list Z)) (s : vl_http_server) (fd : Z) : C W vl_status :=
  if fd <? 0 then mret VL_ERROR_INVALID_ARGUMENT else
  r ← vl_http_read_request fd (vl_http_parser_init malloc (Some (sv_config s)));
  let '(status, parser) := r in
  if bool_decide (status <> VL_OK) then mret (if bool_decide (status = VL_ERROR_INVALID_ARGUMENT) then VL_OK else status) else
  match vl_http_parser_request parser with
  | None => mret VL_ERROR_INVALID_STATE
  | Some q =>
      match vl_http_find_route s (method q) (path q) with
      | None => vl_http_error_response fd 404
      | Some route =>
          vl_http_response_write fd (rt_handler route q (request_body parser q) (with_keep_alive (keep_alive q) vl_http_response_init))
      end
  end.

End Connection.
