(* ===== verification/HttpServerProps.v ===== *)
(** * What a connection puts on the wire

    [encode] is the byte sequence of a response; sending, writing a response and
    running a whole connection are characterised by it, for every behaviour of the
    network that satisfies [io_laws]. *)

From stdpp Require Import strings.
From S2P Require Import Prelude HttpParser HttpParserProps HttpFeed HttpServer.
From stdpp Require Import options.

Open Scope Z_scope.

(** ** Responses *)

(** The array has its size and the length lies inside it. *)
Definition response_ok (r : vl_http_response) : Prop :=
  Z.of_nat (length (rs_body r)) = BODY_SIZE /\ 0 <= rs_body_length r < BODY_SIZE /\
  Z.of_nat (length (response_head r)) < HEAD_SIZE.

Definition content (r : vl_http_response) : list Z := take (Z.to_nat (rs_body_length r)) (rs_body r).

Definition last_chunk : list Z := [48] ++ crlf_bytes ++ crlf_bytes.

(** One chunk and the terminating chunk, or the body after its length. *)
Definition encode (r : vl_http_response) : list Z :=
  response_head r ++
  (if rs_chunked r then (print_hex (rs_body_length r) ++ crlf_bytes) ++ content r ++ crlf_bytes ++ last_chunk else content r).

Lemma hexadecimal_length f n : (length (hexadecimal f n) <= f)%nat.
Proof.
  revert n. induction f as [|f IH]; intros n; simpl; [done|]. rewrite length_app. simpl.
  destruct (n <? 16); simpl; [lia|]. specialize (IH (n / 16)). lia.
Qed.

Section Wire.
  #[local] Set Default Proof Using "Type".
  Context {W : Type} {io : connection_io W} {laws : io_laws W}.

(** From [w] to [w'] all of [data] went out and [st] is VL_OK, or a send failed after a part
    of it and [st] is VL_ERROR_SYSTEM; nothing was received. *)
Definition wrote (fd : Z) (data : list Z) (st : vl_status) (w w' : W) : Prop :=
  received fd w' = received fd w /\ recv_ends fd w' = recv_ends fd w /\
  (st = VL_OK /\ sent fd w' = sent fd w ++ data /\ send_failures fd w' = send_failures fd w \/
   st = VL_ERROR_SYSTEM /\ (exists n, sent fd w' = sent fd w ++ take n data) /\
     send_failures fd w' = S (send_failures fd w)).

(** The call returns, having written [data]. *)
Definition sends (fd : Z) (data : list Z) (w : W) (x : option (vl_status * W)) : Prop :=
  exists st w', x = Some (st, w') /\ wrote fd data st w w'.

Lemma wrote_nothing fd w : wrote fd [] VL_OK w w.
Proof. split; [done|]. split; [done|]. left. by rewrite app_nil_r. Qed.

Lemma wrote_then fd a b st w w1 w2 : wrote fd a VL_OK w w1 -> wrote fd b st w1 w2 -> wrote fd (a ++ b) st w w2.
Proof.
  intros (Hr & He & [(_ & Hs & Hf)|(? & _)]) (Hr' & He' & Hc); [|done].
  split; [congruence|]. split; [congruence|].
  destruct Hc as [(-> & Hs' & Hf')|(-> & [n Hs'] & Hf')]; [left|right]; (split; [done|]); (split; [|congruence]).
  - by rewrite Hs', Hs, app_assoc.
  - exists (length a + n)%nat. by rewrite Hs', Hs, <- app_assoc, take_app_add.
Qed.

Lemma wrote_cut fd a b w w1 : wrote fd a VL_ERROR_SYSTEM w w1 -> wrote fd (a ++ b) VL_ERROR_SYSTEM w w1.
Proof.
  intros (Hr & He & [(? & _)|(_ & [n Hs] & Hf)]); [done|]. split; [done|]. split; [done|]. right. split; [done|]. split; [|done].
  exists (n `min` length a)%nat. rewrite Hs. f_equal. rewrite take_app_le by lia. by rewrite <- take_take, (take_ge a (length a)).
Qed.

Lemma wrote_cases fd a st w w1 : wrote fd a st w w1 -> st = VL_OK \/ st = VL_ERROR_SYSTEM.
Proof. intros (_ & _ & [[? _]|[? _]]); auto. Qed.

Lemma send_rest_step fuel fd rest w : rest <> [] -> send_rest (S fuel) fd rest w =
  let '(st, k, w) := submit_send fd rest w in
  if bool_decide (st <> VL_OK) || (k <? 0) then Some (VL_ERROR_SYSTEM, w) else send_rest fuel fd (drop (Z.to_nat k) rest) w.
Proof. by destruct rest. Qed.

Lemma submit_send_wrote fd data w st k w1 : submit_send fd data w = (st, k, w1) -> data <> [] ->
  if bool_decide (st <> VL_OK) || (k <? 0) then wrote fd data VL_ERROR_SYSTEM w w1
  else 0 < k <= Z.of_nat (length data) /\ wrote fd (take (Z.to_nat k) data) VL_OK w w1.
Proof using laws.
  intros E Hd. destruct (send_law fd data w st k w1 E) as (Hr & He & Hs).
  assert (Hfail : sent fd w1 = sent fd w /\ send_failures fd w1 = S (send_failures fd w) -> wrote fd data VL_ERROR_SYSTEM w w1).
  { intros [Hs1 Hf1]. split; [done|]. split; [done|]. right. split; [done|]. split; [|done]. exists 0%nat. by rewrite app_nil_r. }
  destruct (decide (st = VL_OK)) as [->|Hst].
  - rewrite (bool_decide_true (VL_OK = VL_OK)) in Hs by done. rewrite (bool_decide_false (VL_OK <> VL_OK)) by auto. simpl in Hs |- *.
    destruct (Z.leb_spec 0 k).
    + destruct Hs as (Hpos & Hk & Hsent & Hf). rewrite (proj2 (Z.ltb_ge k 0)) by lia. split; [auto|].
      split; [done|]. split; [done|]. by left.
    + rewrite (proj2 (Z.ltb_lt k 0)) by lia. by apply Hfail.
  - rewrite (bool_decide_false (st = VL_OK)) in Hs by done. rewrite (bool_decide_true (st <> VL_OK)) by done. by apply Hfail.
Qed.

Lemma send_rest_spec fuel fd rest w : (length rest <= fuel)%nat -> sends fd rest w (send_rest fuel fd rest w).
Proof using laws.
  revert rest w. induction fuel as [|fuel IH]; intros rest w Hf.
  { destruct rest; [|simpl in Hf; lia]. exists VL_OK, w. split; [done|]. apply wrote_nothing. }
  destruct rest as [|b rest]; [exists VL_OK, w; split; [done|]; apply wrote_nothing|].
  set (data := b :: rest) in *. rewrite send_rest_step by done.
  destruct (submit_send fd data w) as [[st k] w1] eqn:E. pose proof (submit_send_wrote fd data w st k w1 E ltac:(done)) as H.
  cbv beta iota. destruct (bool_decide (st <> VL_OK) || (k <? 0)); [by exists VL_ERROR_SYSTEM, w1|]. destruct H as [Hk Hw].
  destruct (IH (drop (Z.to_nat k) data) w1) as (st2 & w2 & E2 & Hw2); [rewrite length_drop; lia|].
  exists st2, w2. split; [done|]. rewrite <- (take_drop (Z.to_nat k) data). by eapply wrote_then.
Qed.

Lemma send_all_spec fd data w : sends fd data w (vl_http_send_all fd data w).
Proof using laws. by apply send_rest_spec. Qed.

(** Sending one part and then the rest. *)
Lemma sends_then fd a b (m k : C W vl_status) w : sends fd a w (m w) -> (forall w1, sends fd b w1 (k w1)) ->
  sends fd (a ++ b) w ((st ← m; if bool_decide (st <> VL_OK) then mret VL_ERROR_SYSTEM else k) w).
Proof.
  intros (st & w1 & E & Hw) Hk. rewrite (bind_Some _ _ _ _ _ E). destruct (wrote_cases _ _ _ _ _ Hw) as [-> | ->].
  - rewrite bool_decide_false by auto. destruct (Hk w1) as (st2 & w2 & E2 & Hw2). exists st2, w2. split; [done|]. by eapply wrote_then.
  - rewrite bool_decide_true by done. eexists _, w1. split; [reflexivity|]. by apply wrote_cut.
Qed.

Lemma sends_ok fd w : sends fd [] w ((mret VL_OK : C W vl_status) w).
Proof. exists VL_OK, w. split; [done|]. apply wrote_nothing. Qed.

Lemma sends_last fd a (m : C W vl_status) w : sends fd a w (m w) ->
  sends fd a w ((st ← m; mret (if bool_decide (st <> VL_OK) then VL_ERROR_SYSTEM else VL_OK)) w).
Proof.
  intros (st & w1 & E & Hw). rewrite (bind_Some _ _ _ _ _ E). eexists _, w1. split; [reflexivity|].
  destruct (wrote_cases _ _ _ _ _ Hw) as [-> | ->]; [by rewrite bool_decide_false by auto|by rewrite bool_decide_true].
Qed.

Lemma body_bytes_run r (w : W) : response_ok r -> body_bytes r w = Some (content r, w).
Proof. intros (Hl & Hb & _). unfold body_bytes. by rewrite (proj2 (Z.ltb_ge _ _)) by lia. Qed.

Lemma content_empty r : rs_body_length r = 0 -> content r = [].
Proof. intros E. unfold content. by rewrite E. Qed.

Lemma write_body_spec fd r w : response_ok r -> sends fd (content r) w (write_body fd r w).
Proof using laws.
  intros Hr. unfold write_body. destruct (Z.eqb_spec (rs_body_length r) 0) as [E|E]; [rewrite content_empty by done; apply sends_ok|].
  rewrite (bind_Some _ _ _ _ _ (body_bytes_run r w Hr)). apply sends_last, send_all_spec.
Qed.

Lemma write_chunk_spec fd r w : response_ok r ->
  sends fd ((print_hex (rs_body_length r) ++ crlf_bytes) ++ content r ++ crlf_bytes ++ last_chunk) w (write_chunk fd r w).
Proof using laws.
  intros Hr. unfold write_chunk. cbn zeta. rewrite (proj2 (Z.leb_gt _ _)).
  2: { unfold print_hex. pose proof (hexadecimal_length 16 (rs_body_length r)). rewrite length_app. change (length crlf_bytes) with 2%nat. unfold CHUNK_HEAD_SIZE. lia. }
  apply sends_then; [apply send_all_spec|]. intros w1. apply sends_then; [|intros w2; apply sends_last, send_all_spec].
  destruct (Z.eqb_spec (rs_body_length r) 0) as [E|E]; [rewrite content_empty by done; apply sends_ok|].
  simpl. rewrite (bind_Some _ _ _ _ _ (body_bytes_run r w1 Hr)). apply send_all_spec.
Qed.

Lemma response_write_spec fd r w : 0 <= fd -> response_ok r -> sends fd (encode r) w (vl_http_response_write fd r w).
Proof using laws.
  intros Hfd Hr. unfold vl_http_response_write, encode. rewrite (proj2 (Z.ltb_ge _ _)) by done. cbn zeta.
  pose proof Hr as (_ & _ & Hh). rewrite (proj2 (Z.leb_gt _ _)) by done.
  apply sends_then; [apply send_all_spec|]. intros w1. destruct (rs_chunked r); [by apply write_chunk_spec|by apply write_body_spec].
Qed.

(** ** Reading a request *)

(** What the bytes received mean to a connection: nothing yet, an error, or a request. *)
Definition heard (p0 : vl_http_parser) (all : list Z) : option (vl_http_error + vl_http_request * list Z) :=
  if capacity p0 <? Z.of_nat (length all) then Some (inl VL_HTTP_ERROR_PAYLOAD_TOO_LARGE) else
  match verdict_of p0 all with
  | V_more => None
  | V_error e => Some (inl e)
  | V_done q c => Some (inr (q, c))
  end.

(** No request came: the stream ended or failed, or the server is stopping. *)
Definition gave_nothing (fd : Z) (st : vl_status) (w w' : W) : Prop :=
  sent fd w' = sent fd w /\ send_failures fd w' = send_failures fd w /\
  ((st = VL_ERROR_SYSTEM \/ st = VL_ERROR_CLOSED) /\ recv_ends fd w' = S (recv_ends fd w) \/
   st = VL_ERROR_CANCELLED /\ stopping w' = true /\ recv_ends fd w' = recv_ends fd w).

(** [r] went out whole, or a send failed after a part of it; [failed] tells which. *)
Definition answered (fd : Z) (r : vl_http_response) (failed : bool) (w w' : W) : Prop :=
  recv_ends fd w' = recv_ends fd w /\
  if failed then (exists n, sent fd w' = sent fd w ++ take n (encode r)) /\ send_failures fd w' = S (send_failures fd w)
  else sent fd w' = sent fd w ++ encode r /\ send_failures fd w' = send_failures fd w.

Lemma wrote_answered fd r st w w' : wrote fd (encode r) st w w' ->
  exists failed : bool, st = (if failed then VL_ERROR_SYSTEM else VL_OK) /\ answered fd r failed w w'.
Proof. intros (_ & He & [(-> & H)|(-> & H)]); [by exists false|by exists true]. Qed.

Definition read_result (p0 : vl_http_parser) (fd : Z) (all : list Z) (w : W) (st : vl_status) (p' : vl_http_parser) (w' : W) : Prop :=
  match heard p0 all with
  | None => gave_nothing fd st w w'
  | Some (inl e) => st = VL_ERROR_INVALID_ARGUMENT /\ exists failed, answered fd (error_answer (error_code e)) failed w w'
  | Some (inr (q, c)) => st = VL_OK /\ sent fd w' = sent fd w /\ send_failures fd w' = send_failures fd w /\
      recv_ends fd w' = recv_ends fd w /\ vl_http_parser_request p' = Some q /\ request_body p' q = c
  end.

Lemma error_answer_ok e : e <> VL_HTTP_ERROR_NONE -> response_ok (error_answer (error_code e)).
Proof. intros He. destruct e; [done|..]; (split; [vm_compute; reflexivity|]); (split; [split; vm_compute; congruence|vm_compute; reflexivity]). Qed.

(** The error reply of a parser that stopped with [e]. *)
Lemma error_reply fd e p w : 0 <= fd -> e <> VL_HTTP_ERROR_NONE -> vl_http_parser_error p = e ->
  exists w', (_ ← vl_http_error_response fd (if error_code (vl_http_parser_error p) =? 0 then 400 else error_code (vl_http_parser_error p));
      mret (VL_ERROR_INVALID_ARGUMENT, p)) w = Some ((VL_ERROR_INVALID_ARGUMENT, p), w') /\
    received fd w' = received fd w /\ exists failed, answered fd (error_answer (error_code e)) failed w w'.
Proof using laws.
  intros Hfd He Hp. rewrite Hp. assert (error_code e =? 0 = false) as -> by by destruct e.
  destruct (response_write_spec fd (error_answer (error_code e)) w Hfd (error_answer_ok e He)) as (st & w' & E & Hw).
  exists w'. rewrite (bind_Some _ _ _ _ _ E). split; [done|]. split; [apply Hw|].
  destruct (wrote_answered _ _ _ _ _ Hw) as (failed & _ & H). by exists failed.
Qed.

(** A parser that has been given [data] and waits for more. *)
Inductive listening (p0 : vl_http_parser) (data : list Z) (p : vl_http_parser) : Prop :=
  | listening_buffer : fresh p0 -> rep p0 data p -> verdict_of p0 data = V_more ->
      Z.of_nat (length data) <= capacity p0 -> listening p0 data p
  | listening_starved : starved p0 -> data = [] -> p = p0 -> listening p0 data p.

Lemma listening_init malloc cfg : malloc_sized malloc -> config_ok cfg ->
  let p0 := vl_http_parser_init malloc cfg in listening p0 [] p0.
Proof.
  intros Hm Hc p0. pose proof (init_cases malloc cfg Hm Hc) as Hi. cbn zeta in Hi. fold p0 in Hi. clearbody p0.
  destruct Hi as [[Hp0 _]|[Hs _]]; [|by apply listening_starved]. pose proof (fr_capacity _ Hp0). pose proof (fr_header _ Hp0).
  apply listening_buffer; [done|by apply rep_fresh| |simpl; lia]. unfold verdict_of. simpl. by rewrite (proj2 (Z.ltb_ge _ _)) by lia.
Qed.

Lemma listening_none p0 data p : listening p0 data p -> heard p0 data = None.
Proof.
  unfold heard. intros [_ _ -> Hl|[_ Hc _ _ Hv] -> _]; [by rewrite (proj2 (Z.ltb_ge _ _))|]. by rewrite Hc, Hv.
Qed.

(** A feed of the parser seen from the connection. *)
Lemma feed_heard p0 data d p : listening p0 data p -> 0 < Z.of_nat (length d) ->
  exists st p', vl_http_parser_feed (Some d) p = Some (st, p') /\
    match heard p0 (data ++ d) with
    | None => st = VL_HTTP_PARSE_NEED_MORE /\ listening p0 (data ++ d) p'
    | Some (inl e) => st = VL_HTTP_PARSE_ERROR /\ vl_http_parser_error p' = e /\ e <> VL_HTTP_ERROR_NONE
    | Some (inr (q, c)) => st = VL_HTTP_PARSE_COMPLETE /\ vl_http_parser_request p' = Some q /\ request_body p' q = c
    end.
Proof.
  unfold heard. intros [Hp0 Hr Hv Hl|[Hb Hc He Hco _] -> ->] Hd.
  - destruct (Z.ltb_spec (capacity p0) (Z.of_nat (length (data ++ d)))) as [Hov|Hfit].
    + destruct (rep_more p0 data p Hp0 Hr Hv) as (Hc & He & Hlen & Hcap). pose proof (fr_capacity _ Hp0).
      rewrite (feed_refused p d Hc He); [by eexists _, _|]. right. rewrite length_app in Hov. rewrite Hcap, Hlen. lia.
    + pose proof Hfit as Hfit'. rewrite length_app in Hfit'. destruct (feed_step p0 Hp0 data d p Hr) as (st & p' & E & Hr' & Hs); [lia|].
      exists st, p'. split; [done|]. destruct (verdict_of p0 (data ++ d)) as [|e|q c] eqn:Ev; simpl in Hs.
      * destruct Hs as [-> _]. split; [done|by apply listening_buffer].
      * destruct Hs as (-> & _ & He & Hne). done.
      * destruct Hs as (-> & Hq & _ & b & k & Hb & Hk & Ht). split; [done|]. split; [done|]. unfold request_body. by rewrite Hb, Hk.
  - rewrite (proj2 (Z.ltb_lt _ _)) by (rewrite Hc; done). rewrite (feed_refused p0 d Hco He); [by eexists _, _|by left].
Qed.

(** What happens after a receive that gave bytes and changed nothing else. *)
Lemma read_result_after p0 fd all w w1 st p' w' : sent fd w1 = sent fd w -> send_failures fd w1 = send_failures fd w ->
  recv_ends fd w1 = recv_ends fd w -> read_result p0 fd all w1 st p' w' -> read_result p0 fd all w st p' w'.
Proof. intros Hs Hf He. unfold read_result, gave_nothing, answered. rewrite Hs, Hf, He. done. Qed.

Lemma read_loop_spec p0 fd : 0 <= fd -> forall fuel data p w, listening p0 data p ->
  capacity p0 - Z.of_nat (length data) < Z.of_nat fuel ->
  exists st p' w' d, read_loop fuel fd p w = Some ((st, p'), w') /\ received fd w' = received fd w ++ d /\
    read_result p0 fd (data ++ d) w st p' w'.
Proof using laws.
  intros Hfd. induction fuel as [|fuel IH]; intros data p w Hli Hf.
  { assert (0 <= capacity p0 - Z.of_nat (length data)); [|lia]. destruct Hli as [? ? ? ?|[_ -> _ _ _] -> _]; simpl; lia. }
  cbn [read_loop].
  assert (Hnone : heard p0 data = None) by by eapply listening_none.
  destruct (submit_recv fd RECV_SIZE w) as [[[st k] d] w1] eqn:E. destruct (recv_law fd RECV_SIZE w st k d w1 E) as (Hs & Hsf & Hrec).
  assert (Hidle : forall st', st' = VL_ERROR_SYSTEM \/ st' = VL_ERROR_CLOSED ->
    received fd w1 = received fd w /\ recv_ends fd w1 = S (recv_ends fd w) ->
    exists st'' p' w' d', Some ((st', p), w1) = Some ((st'', p'), w') /\ received fd w' = received fd w ++ d' /\
      read_result p0 fd (data ++ d') w st'' p' w').
  { intros st' H1 [H2 H3]. exists st', p, w1, []. rewrite !app_nil_r. split; [done|]. split; [done|]. unfold read_result. rewrite Hnone.
    split; [done|]. split; [done|]. by left. }
  destruct (decide (st = VL_OK)) as [->|Hst].
  2: { rewrite (bool_decide_false (st = VL_OK)) in Hrec by done. rewrite bool_decide_true by done. apply Hidle; auto. }
  rewrite (bool_decide_true (VL_OK = VL_OK)) in Hrec by done. rewrite bool_decide_false by auto. simpl in Hrec.
  destruct (Z.leb_spec k 0) as [Hk|Hk].
  { rewrite (proj2 (Z.ltb_ge 0 k)) in Hrec by done. apply Hidle; [case_match; auto|done]. }
  rewrite (proj2 (Z.ltb_lt 0 k)) in Hrec by done. destruct Hrec as (Hd & _ & Hrec & Hre).
  destruct (feed_heard p0 data d p Hli ltac:(lia)) as (ps & p1 & Ef & Hh). rewrite Ef.
  destruct (heard p0 (data ++ d)) as [[e|[q c]]|] eqn:Eh.
  - destruct Hh as (-> & He & Hne). destruct (error_reply fd e p1 w1 Hfd Hne He) as (w2 & E2 & Hr2 & Hs2).
    exists VL_ERROR_INVALID_ARGUMENT, p1, w2, d. split; [exact E2|]. split; [congruence|]. eapply read_result_after; [done..|].
    unfold read_result. by rewrite Eh.
  - destruct Hh as (-> & Hq & Hc). exists VL_OK, p1, w1, d. split; [done|]. split; [done|]. unfold read_result. by rewrite Eh.
  - destruct Hh as (-> & Hli1). destruct (stopping w1) eqn:Hstop.
    + exists VL_ERROR_CANCELLED, p1, w1, d. split; [done|]. split; [done|]. unfold read_result. rewrite Eh.
      split; [done|]. split; [done|]. by right.
    + destruct (IH (data ++ d) p1 w1 Hli1) as (st & p' & w' & d' & E' & Hr' & Hres); [rewrite length_app; lia|].
      exists st, p', w', (d ++ d'). split; [done|]. split; [by rewrite Hr', Hrec, app_assoc|]. rewrite app_assoc.
      by eapply read_result_after.
Qed.

(** The one response a connection gives for the bytes it received. *)
Definition answer_of (s : vl_http_server) (p0 : vl_http_parser) (all : list Z) : option vl_http_response :=
  match heard p0 all with
  | None => None
  | Some (inl e) => Some (error_answer (error_code e))
  | Some (inr (q, c)) =>
      match vl_http_find_route s (method q) (path q) with
      | None => Some (error_answer 404)
      | Some route => Some (rt_handler route q c (with_keep_alive (keep_alive q) vl_http_response_init))
      end
  end.

Lemma not_found_ok : response_ok (error_answer 404).
Proof. split; [vm_compute; reflexivity|]. split; [split; vm_compute; congruence|vm_compute; reflexivity]. Qed.

(** The handlers return responses whose head fits and whose length is inside the array. *)
Definition handlers_ok (s : vl_http_server) : Prop := Forall (fun route => forall q c,
  response_ok (rt_handler route q c (with_keep_alive (keep_alive q) vl_http_response_init))) (sv_routes s).

Lemma find_route_in l m p route : find_route l m p = Some route -> route ∈ l.
Proof.
  induction l as [|r l IH]; simpl; [done|]. case_match; [intros [= ->]; apply elem_of_cons; by left|].
  intros E%IH. apply elem_of_cons. by right.
Qed.

(** The bytes were found malformed or too long: the caller is not told whether the error answer got through. *)
Definition rejects (p0 : vl_http_parser) (all : list Z) : bool :=
  match heard p0 all with Some (inl _) => true | _ => false end.

Lemma connection_spec malloc s fd w : malloc_sized malloc -> config_ok (Some (sv_config s)) -> handlers_ok s -> 0 <= fd ->
  let p0 := vl_http_parser_init malloc (Some (sv_config s)) in
  exists st w' d, vl_http_connection_run malloc s fd w = Some (st, w') /\ received fd w' = received fd w ++ d /\
    match answer_of s p0 d with
    | None => gave_nothing fd st w w'
    | Some r => exists failed : bool, answered fd r failed w w' /\
        st = if failed && negb (rejects p0 d) then VL_ERROR_SYSTEM else VL_OK
    end.
Proof using laws.
  intros Hm Hc Hh Hfd p0. unfold vl_http_connection_run, vl_http_read_request. rewrite (proj2 (Z.ltb_ge _ _)) by done. fold p0.
  destruct (read_loop_spec p0 fd Hfd (S (Z.to_nat (capacity p0))) [] p0 w) as (st & p' & w1 & d & E & Hrec & Hres);
    [by apply listening_init|simpl; lia|].
  simpl app in Hres. rewrite (bind_Some _ _ _ _ _ E). unfold read_result, answer_of, rejects in *.
  destruct (heard p0 d) as [[e|[q c]]|] eqn:Eh.
  - destruct Hres as (-> & failed & Hs). rewrite bool_decide_true by done. eexists _, w1, d. split; [reflexivity|]. split; [done|]. rewrite Eh.
    exists failed. split; [done|]. by rewrite andb_false_r.
  - destruct Hres as (-> & Hs & Hf & He & Hq & Hb). rewrite bool_decide_false by auto. rewrite Hq.
    assert (Hw : forall r, response_ok r -> exists st w', vl_http_response_write fd r w1 = Some (st, w') /\ received fd w' = received fd w ++ d /\
      exists failed : bool, answered fd r failed w w' /\ st = if failed && true then VL_ERROR_SYSTEM else VL_OK).
    { intros r Hr. destruct (response_write_spec fd r w1 Hfd Hr) as (st & w' & E' & Hw'). exists st, w'.
      split; [done|]. split; [destruct Hw'; congruence|]. destruct (wrote_answered _ _ _ _ _ Hw') as (failed & -> & Ha).
      exists failed. rewrite andb_true_r. split; [|done]. revert Ha. unfold answered. by rewrite Hs, Hf, He. }
    destruct (vl_http_find_route s (method q) (path q)) as [route|] eqn:Er.
    + rewrite Hb. unfold handlers_ok in Hh. rewrite list.Forall_forall in Hh.
      destruct (Hw _ (Hh route (find_route_in _ _ _ _ Er) q c)) as (st & w' & E' & Hrec' & Ha).
      exists st, w', d. split; [exact E'|]. split; [done|]. by rewrite Eh, Er.
    + destruct (Hw _ not_found_ok) as (st & w' & E' & Hrec' & Ha). exists st, w', d. split; [exact E'|]. split; [done|]. by rewrite Eh, Er.
  - assert (Hst : st <> VL_OK /\ st <> VL_ERROR_INVALID_ARGUMENT) by (destruct Hres as (_ & _ & [[[-> | ->] _]|[-> _]]); done).
    destruct Hst. rewrite bool_decide_true by done. rewrite bool_decide_false by done.
    exists st, w1, d. split; [done|]. split; [done|]. by rewrite Eh.
Qed.

End Wire.

(** ** Handlers built with the response functions *)

Lemma print_dec_length n : (length (print_dec n) <= 20)%nat.
Proof. unfold print_dec. generalize 20%nat. intros f. revert n. induction f as [|f IH]; intros n; simpl; [done|].
  rewrite length_app. simpl. destruct (n <? 10); simpl; [lia|]. specialize (IH (n / 10)). lia.
Qed.

Lemma reason_length status : (length (vl_http_reason_phrase status) <= 31)%nat.
Proof.
  unfold vl_http_reason_phrase. repeat case_match; vm_compute; lia.
Qed.

Lemma response_head_length r : Z.of_nat (length (rs_reason r)) <= 31 -> Z.of_nat (length (response_head r)) < HEAD_SIZE.
Proof.
  intros Hr. unfold response_head, print_int. pose proof (print_dec_length (rs_body_length r)). pose proof (print_dec_length (rs_status r)).
  pose proof (print_dec_length (- rs_status r)).
  rewrite !length_app. cbn [length]. rewrite !length_app. unfold HEAD_SIZE.
  change (length (bytes "HTTP/1.1 ")) with 9%nat. change (length (bytes "Connection: ")) with 12%nat. change (length crlf_bytes) with 2%nat.
  assert (Z.of_nat (length (if rs_status r <? 0 then 45 :: print_dec (- rs_status r) else print_dec (rs_status r))) <= 21) by (case_match; cbn [length]; lia).
  assert (length (if rs_chunked r then bytes "Transfer-Encoding: chunked" else bytes "Content-Length: " ++ print_dec (rs_body_length r)) <= 40)%nat.
  { destruct (rs_chunked r); [change (length (bytes "Transfer-Encoding: chunked")) with 26%nat; lia|]. rewrite length_app. change (length (bytes "Content-Length: ")) with 16%nat. lia. }
  assert (length (if rs_keep_alive r then bytes "keep-alive" else bytes "close") <= 10)%nat.
  { destruct (rs_keep_alive r); [change (length (bytes "keep-alive")) with 10%nat|change (length (bytes "close")) with 5%nat]; lia. }
  lia.
Qed.

(** The response functions keep a response well formed. *)
Lemma set_status_ok r status : response_ok r -> response_ok (vl_http_response_set_status r status).2.
Proof.
  intros (Hl & Hb & Hh). unfold vl_http_response_set_status. case_match; [done|]. split; [done|]. split; [done|].
  apply response_head_length. simpl. pose proof (reason_length status). lia.
Qed.

Lemma set_body_ok r d : response_ok r -> Z.of_nat (length (rs_reason r)) <= 31 -> response_ok (vl_http_response_set_body r d).2.
Proof.
  intros Hr Hrs. pose proof Hr as (Hl & Hb & _). unfold vl_http_response_set_body. destruct d as [d|]; [|done].
  destruct (Z.leb_spec BODY_SIZE (Z.of_nat (length d))); [done|]. split; [|split; [simpl; lia|by apply response_head_length]].
  cbn [snd rs_body]. rewrite length_app. cbn [length]. rewrite length_drop. unfold BODY_SIZE in *. lia.
Qed.

(** C36: A response goes out whole or not at all past a point.  For every network behaviour
    within [io_laws], every well-formed response and descriptor, [vl_http_response_write]
    returns; on VL_OK exactly [encode] of the response was sent (the status line, the
    length or chunked header, the connection header, and the body as it is or as one chunk
    and the terminating chunk) and no send failed, otherwise VL_ERROR_SYSTEM is returned
    after a prefix of it and one failed send.
    A chunked response with an empty body carries the terminating chunk twice. *)
Theorem http_response_wire {W} {io : connection_io W} {laws : io_laws W} fd r (w : W) :
  0 <= fd -> response_ok r ->
  (exists st w', vl_http_response_write fd r w = Some (st, w') /\
     (st = VL_OK /\ sent fd w' = sent fd w ++ encode r /\ send_failures fd w' = send_failures fd w \/
      st = VL_ERROR_SYSTEM /\ (exists n, sent fd w' = sent fd w ++ take n (encode r)) /\
        send_failures fd w' = S (send_failures fd w))) /\
  (rs_chunked r = true -> rs_body_length r = 0 -> encode r = response_head r ++ last_chunk ++ last_chunk).
Proof.
  intros Hfd Hr. split.
  - destruct (response_write_spec fd r w Hfd Hr) as (st & w' & E & _ & _ & Hc). by exists st, w'.
  - intros Hch Hz. unfold encode. rewrite Hch, content_empty, Hz by done. done.
Qed.

(** C9: A connection answers once, with the right answer.  For every server whose handlers
    return well-formed responses, every network behaviour within [io_laws] (any
    fragmentation of the input, partial sends, errors and shutdown at any point), and
    whether or not the parser's buffer can be allocated (without one its capacity is 0),
    [vl_http_connection_run] returns.  Let [d] be the bytes received meanwhile.  When they
    are no complete request yet, nothing is sent, and the cause is a receive that failed or
    found the end of the stream (VL_ERROR_SYSTEM or VL_ERROR_CLOSED) or the shutdown of the
    server (VL_ERROR_CANCELLED).  Otherwise the answer is the error response of the
    parser's verdict when they are malformed or too long, and the response of the first
    matching route's handler, or 404, when they are a request: it is sent whole and exactly
    once, unless a send failed, and then a prefix of it was sent; VL_OK is returned except
    that a failed send of the answer to a request gives VL_ERROR_SYSTEM. *)
Theorem http_connection_answers {W} {io : connection_io W} {laws : io_laws W} malloc s fd (w : W) :
  malloc_sized malloc -> config_ok (Some (sv_config s)) -> handlers_ok s -> 0 <= fd ->
  let p0 := vl_http_parser_init malloc (Some (sv_config s)) in
  exists st w' d, vl_http_connection_run malloc s fd w = Some (st, w') /\ received fd w' = received fd w ++ d /\
    match answer_of s p0 d with
    | None => gave_nothing fd st w w'
    | Some r => exists failed : bool, answered fd r failed w w' /\
        st = if failed && negb (rejects p0 d) then VL_ERROR_SYSTEM else VL_OK
    end.
Proof. intros Hm Hc Hh Hfd. by apply connection_spec. Qed.

(** ** Witnesses

    A peer that sends its bytes in given pieces and takes at most three bytes at a time. *)

Record peer := mk_peer { to_come : list (list Z); came : list Z; taken : list Z; ended : nat }.

#[export] Instance peer_io : connection_io peer := {|
  submit_send fd data w := (VL_OK, Z.of_nat (length (take 3 data)), mk_peer (to_come w) (came w) (taken w ++ take 3 data) (ended w));
  submit_recv fd len w :=
    match to_come w with
    | [] => (VL_OK, 0, [], mk_peer [] (came w) (taken w) (S (ended w)))
    | d :: l =>
        let got := take (Z.to_nat len) d in
        (VL_OK, Z.of_nat (length got), got,
                 mk_peer (match drop (Z.to_nat len) d with [] => l | r => r :: l end) (came w ++ got) (taken w)
                   (match got with [] => S (ended w) | _ => ended w end))
    end;
  sent fd w := taken w;
  received fd w := came w;
  send_failures fd w := 0%nat;
  recv_ends fd w := ended w;
  stopping w := false |}.

#[export] Instance peer_laws : io_laws peer.
Proof.
  constructor; cbn [submit_send submit_recv sent received send_failures recv_ends peer_io].
  - intros fd data w st k w' [= <- <- <-]. cbn [came taken ended]. split; [done|]. split; [done|].
    rewrite bool_decide_true by done. rewrite (proj2 (Z.leb_le _ _)) by lia.
    split; [intros Hd; destruct data; [done|simpl; lia]|]. split; [rewrite length_take; lia|]. split; [|done].
    rewrite Nat2Z.id. f_equal. rewrite length_take. destruct (decide (3 <= length data)%nat); [f_equal; lia|]. by rewrite !take_ge by lia.
  - intros fd len w st k data w'. destruct (to_come w) as [|d l]; intros [= <- <- <- <-]; cbn [came taken ended]; [done|].
    split; [done|]. split; [done|]. rewrite bool_decide_true by done. simpl.
    pose proof (length_take d (Z.to_nat len)) as Hlen. destruct (take (Z.to_nat len) d) as [|x got]; simpl in *.
    + by rewrite app_nil_r.
    + split; [done|]. split; [lia|done].
Qed.

Definition hello (q : vl_http_request) (c : list Z) (r : vl_http_response) : vl_http_response :=
  (vl_http_response_set_body (vl_http_response_set_status r 200).2 (Some (bytes "hello"))).2.

Definition hello_server : vl_http_server := mk_server (default vl_http_config_default demo_config) [mk_route (bytes "POST") (bytes "/x") hello] 0 false.

Lemma hello_ok : handlers_ok hello_server.
Proof.
  apply list.Forall_singleton. intros q c. apply set_body_ok; [apply set_status_ok|simpl; lia].
  split; [done|]. split; [done|]. apply response_head_length. simpl. lia.
Qed.

Definition hello_peer : peer := mk_peer demo_pieces [] [] 0.

(** A peer that talks nonsense. *)
Definition rude_peer : peer := mk_peer [bytes "nonsense"; [CR; LF; CR; LF]] [] [] 0.

Lemma http_connection_answers_witness :
  (exists st w', vl_http_connection_run demo_malloc hello_server 5 hello_peer = Some (st, w') /\ st = VL_OK /\
     sent 5 w' = encode (hello (default empty_request (vl_http_parser_request (vl_http_parser_init demo_malloc demo_config))) [] vl_http_response_init)) /\
  (exists st w', vl_http_connection_run demo_malloc hello_server 5 rude_peer = Some (st, w') /\ sent 5 w' = encode (error_answer 400)).
Proof.
  assert (Hc : config_ok (Some (sv_config hello_server))) by (intros c [= <-]; split; split; vm_compute; congruence).
  split.
  - destruct (http_connection_answers demo_malloc hello_server 5 hello_peer demo_malloc_sized Hc hello_ok) as (st & w' & d & E & _); [lia|].
    exists st, w'. split; [exact E|]. vm_compute in E. injection E as <- <-. split; [reflexivity|vm_compute; reflexivity].
  - destruct (http_connection_answers demo_malloc hello_server 5 rude_peer demo_malloc_sized Hc hello_ok) as (st & w' & d & E & _); [lia|].
    exists st, w'. split; [exact E|]. vm_compute in E. injection E as <- <-. vm_compute. reflexivity.
Defined.

Lemma http_response_wire_witness : exists st w', vl_http_response_write 5 (error_answer 404) hello_peer = Some (st, w') /\ st = VL_OK.
Proof.
  destruct (http_response_wire 5 (error_answer 404) hello_peer) as [(st & w' & E & _) _]; [lia|exact not_found_ok|].
  exists st, w'. split; [exact E|]. vm_compute in E. congruence.
Defined.
