(* ===== verification/HttpAccept.v ===== *)
(** * Accepting connections (src/http/http_connection.c, src/http/http_server.c)

    [vl_http_spawn_connection] may be called by several accepting threads while
    connection tasks end on others: every access to the atomic counter is a step of
    its own, and the steps of all acceptors and connections interleave. *)

From stdpp Require Import strings.
From S2P Require Import Prelude Socket HttpParser HttpServer.
From stdpp Require Import options.

Open Scope Z_scope.

Definition set_active (v : Z) (s : vl_http_server) : vl_http_server := mk_server (sv_config s) (sv_routes s) v (sv_shutdown s).

(** The checks and the allocation; [inr] goes on. *)
Definition spawn_check (calloc : bool) (s : vl_http_server) : vl_status + unit :=
  if sv_shutdown s || (max_connections (sv_config s) <=? sv_active s) then inl VL_ERROR_CLOSED
  else if negb calloc then inl VL_ERROR_OUT_OF_MEMORY else inr tt.

(** [atomic_fetch_add] and [atomic_fetch_sub] of [active_connections]. *)
Definition count_connection (s : vl_http_server) : vl_http_server := set_active (w64 (sv_active s + 1)) s.
Definition uncount_connection (s : vl_http_server) : vl_http_server := set_active (w64 (sv_active s - 1)) s.

(** The whole call when no other thread interferes; [spawned]: [vl_spawn] returned a task. *)
Definition vl_http_spawn_connection (calloc spawned : bool) (fd : Z) (s : vl_http_server) : vl_status * vl_http_server :=
  if fd <? 0 then (VL_ERROR_INVALID_ARGUMENT, s) else
  match spawn_check calloc s with
  | inl st => (st, s)
  | inr _ =>
      let s := count_connection s in
      if spawned then (VL_OK, s) else (VL_ERROR_INVALID_STATE, uncount_connection s)
  end.

(** What the connection task does before it uncounts itself; [close] is [vl_socket_close]. *)
Definition vl_http_connection_task {W} {io : connection_io W} (malloc : Z -> option (list Z)) (close : Z -> W -> W)
    (s : vl_http_server) (fd : Z) : C W unit :=
  _ ← vl_http_connection_run malloc s fd;
  modify (close fd).

Definition vl_http_server_listen_loopback (s : vl_http_server) (o : sys) (port backlog : Z) (bound_port : bool)
    : N (vl_status + Z * Z) :=
  if sv_shutdown s then mret (inl VL_ERROR_INVALID_ARGUMENT) else vl_socket_listen_loopback o port backlog bound_port.

(** ** Interleavings *)

(** Where an accepting thread is inside [vl_http_spawn_connection]. *)
Inductive acceptor := A_idle | A_checked | A_counted.

#[export] Instance acceptor_eq_dec : EqDecision acceptor.
Proof. solve_decision. Defined.

(** [running] connection tasks have not yet uncounted themselves. *)
Record accepting := mk_accepting { ac_server : vl_http_server; ac_acceptors : list acceptor; ac_running : nat }.

Inductive accept_step : accepting -> accepting -> Prop :=
  | acc_refused s l k a calloc st : l !! a = Some A_idle -> spawn_check calloc s = inl st ->
      accept_step (mk_accepting s l k) (mk_accepting s l k)
  | acc_checked s l k a : l !! a = Some A_idle -> spawn_check true s = inr tt ->
      accept_step (mk_accepting s l k) (mk_accepting s (<[a := A_checked]> l) k)
  | acc_counted s l k a : l !! a = Some A_checked ->
      accept_step (mk_accepting s l k) (mk_accepting (count_connection s) (<[a := A_counted]> l) k)
  | acc_spawned s l k a : l !! a = Some A_counted ->
      accept_step (mk_accepting s l k) (mk_accepting s (<[a := A_idle]> l) (S k))
  | acc_unspawned s l k a : l !! a = Some A_counted ->
      accept_step (mk_accepting s l k) (mk_accepting (uncount_connection s) (<[a := A_idle]> l) k)
  | acc_ended s l k : accept_step (mk_accepting s l (S k)) (mk_accepting (uncount_connection s) l k)
  | acc_shutdown s l k : accept_step (mk_accepting s l k) (mk_accepting (vl_http_server_request_shutdown s) l k).

Definition accepts : accepting -> accepting -> Prop := rtc accept_step.

(** A server with [n] accepting threads and no connection. *)
Definition accept_boot (s : vl_http_server) (n : nat) : accepting := mk_accepting (set_active 0 s) (replicate n A_idle) 0.

Definition at_pc (pc : acceptor) (l : list acceptor) : nat := sum_list_with (fun x => if decide (x = pc) then 1%nat else 0%nat) l.

Lemma at_pc_insert pc l a x y : l !! a = Some x ->
  (at_pc pc (<[a := y]> l) + (if decide (x = pc) then 1 else 0) = at_pc pc l + (if decide (y = pc) then 1 else 0))%nat.
Proof. intros Ha. apply (sum_list_with_insert (fun x => if decide (x = pc) then 1%nat else 0%nat) l a x y Ha). Qed.

Lemma at_pc_bound pc l : (at_pc pc l <= length l)%nat.
Proof.
  unfold at_pc. pose proof (sum_list_with_bound (fun x => if decide (x = pc) then 1%nat else 0%nat) l 1) as Hb.
  rewrite Nat.mul_1_l in Hb. apply Hb. intros x. case_decide; lia.
Qed.

(** The counter is exact, and a connection that passed the check found room. *)
Record accept_inv (limit : Z) (n : nat) (x : accepting) : Prop := {
  ai_limit : max_connections (sv_config (ac_server x)) = limit;
  ai_acceptors : length (ac_acceptors x) = n;
  ai_exact : sv_active (ac_server x) = Z.of_nat (ac_running x + at_pc A_counted (ac_acceptors x));
  ai_room : sv_active (ac_server x) + Z.of_nat (at_pc A_checked (ac_acceptors x)) <= Z.max 0 (limit + Z.of_nat n - 1) }.

Lemma accept_step_inv limit n x y : (0 < n)%nat -> 0 <= limit -> limit + Z.of_nat n < W64 ->
  accept_step x y -> accept_inv limit n x -> accept_inv limit n y.
Proof.
  intros Hn Hlim Hw Hstep [Hl Hlen Hex Hroom]. destruct Hstep as [s l k a calloc st Ha Hc|s l k a Ha Hc|s l k a Ha|s l k a Ha|s l k a Ha|s l k|s l k];
    simpl in *; try (pose proof (at_pc_insert A_checked l a _ A_checked Ha); pose proof (at_pc_insert A_counted l a _ A_checked Ha));
    try (pose proof (at_pc_insert A_checked l a _ A_counted Ha); pose proof (at_pc_insert A_counted l a _ A_counted Ha));
    try (pose proof (at_pc_insert A_checked l a _ A_idle Ha); pose proof (at_pc_insert A_counted l a _ A_idle Ha)); simpl in *.
  - by constructor.
  - unfold spawn_check in Hc. destruct (sv_shutdown s); simpl in Hc; [done|].
    destruct (Z.leb_spec (max_connections (sv_config s)) (sv_active s)); simpl in Hc; [done|].
    pose proof (at_pc_bound A_checked (<[a := A_checked]> l)) as Hb. rewrite length_insert in Hb.
    constructor; simpl; [done|by rewrite length_insert|lia|lia].
  - constructor; simpl; [done|by rewrite length_insert| |]; rewrite w64_small by word_lia; lia.
  - constructor; simpl; [done|by rewrite length_insert|lia|lia].
  - constructor; simpl; [done|by rewrite length_insert| |]; rewrite w64_small by word_lia; lia.
  - constructor; simpl; [done|done| |]; rewrite w64_small by word_lia; lia.
  - by constructor.
Qed.

Lemma accept_boot_inv s n : (0 < n)%nat -> 0 <= max_connections (sv_config s) -> accept_inv (max_connections (sv_config s)) n (accept_boot s n).
Proof.
  intros Hn Hl. assert (Hz : forall pc, pc <> A_idle -> at_pc pc (replicate n A_idle) = 0%nat).
  { intros pc Hpc. clear Hn. induction n as [|n IH]; simpl; [done|]. unfold at_pc in *. simpl. by rewrite decide_False. }
  constructor; simpl; [done|by rewrite length_replicate|by rewrite Hz|rewrite Hz by done; lia].
Qed.

(** C37: The connection counter is exact and the limit is approximate.  For any number [n] of
    threads accepting at the same time and any interleaving of their checks, counter
    updates and task creations with the ends of connections and shutdown requests,
    [active_connections] is exactly the number of connections started and not yet ended
    (counting those about to start), never underflows, and is at most
    [max_connections + n - 1]; one accepting thread keeps the configured limit. *)
Theorem http_connections_bounded s n x :
  (0 < n)%nat -> 0 < max_connections (sv_config s) -> max_connections (sv_config s) + Z.of_nat n < W64 ->
  accepts (accept_boot s n) x ->
  vl_http_server_active_connections (Some (ac_server x)) = Z.of_nat (ac_running x + at_pc A_counted (ac_acceptors x)) /\
  sv_active (ac_server x) <= max_connections (sv_config s) + Z.of_nat n - 1.
Proof.
  intros Hn Hl Hw Hr. assert (Hinv : accept_inv (max_connections (sv_config s)) n x).
  { assert (H0 := accept_boot_inv s n Hn ltac:(lia)). induction Hr as [|x y z Hs _ IH]; [done|]. apply IH. by eapply accept_step_inv; [..|exact Hs|]; [|lia|..]. }
  destruct Hinv as [_ _ Hex Hroom]. split; [exact Hex|lia].
Qed.

(** ** Witness: two acceptors pass the limit of one. *)

Definition demo_server : vl_http_server := mk_server (mk_http_config 0 0 0 1 0 0) [] 0 false.

Definition over_limit : accepting :=
  mk_accepting (count_connection (count_connection (set_active 0 demo_server))) [A_counted; A_counted] 0.

Lemma over_limit_reached : accepts (accept_boot demo_server 2) over_limit.
Proof.
  eapply rtc_l; [apply (acc_checked _ _ _ 0%nat); reflexivity|]. eapply rtc_l; [apply (acc_checked _ _ _ 1%nat); reflexivity|].
  eapply rtc_l; [apply (acc_counted _ _ _ 0%nat); reflexivity|]. eapply rtc_l; [apply (acc_counted _ _ _ 1%nat); reflexivity|].
  apply rtc_refl.
Qed.

Lemma http_connections_bounded_witness : sv_active (ac_server over_limit) = 2 /\
  sv_active (ac_server over_limit) <= max_connections (sv_config demo_server) + Z.of_nat 2 - 1.
Proof.
  split; [reflexivity|]. refine (proj2 (http_connections_bounded demo_server 2 over_limit _ _ _ over_limit_reached)); [lia|simpl; lia|simpl; word_lia].
Defined.
